(* ===== verification/_CoqProject ===== *)
-Q . S2P
Prelude.v
NetAddr.v
Frpt.v
FrptThreads.v
Turn.v
Mutex.v
MutexCluster.v
Advert.v
Ddb.v
RelayCache.v
RelayUpdater.v
StunWire.v
Stun.v
Messages.v
Handlers.v
EngineIo.v
HandleCache.v
Api.v
EndToEnd.v
Envelope.v
LocalTypes.v
SendRetry.v
Mailbox.v
Account.v
LocalStore.v
PendingSender.v
SenderThreads.v
Lifecycle.v
AdvertThreads.v
Dtls.v
Mux.v
RegistrationGroup.v
Chain.v
ChainRegistration.v
JsiTypes.v
Jsi.v
JsiLoop.v
CliArgs.v
CliChain.v
Chat.v
Certs.v
ApiStart.v
DtlsDebug.v
CliRun.v
CheckRelays.v
WebServer.v
Periodic.v
RelayFinder.v
ChatSession.v
ChainJson.v
PermissionRefresh.v
