(* ===== verification/Prelude.v ===== *)
(** * Bingle: a verification development of the Rust reference implementation

    Bingle is a peer-to-peer messaging system.  A node finds its public address
    with STUN, advertises it as a signed record in a database that the relays keep
    (the DDB), looks up the record of a peer and sends to it over DTLS, directly or
    through a channel of a relay (TURN).  Relays are authorized on a blockchain and
    serialize their entry into the set of relays with a distributed mutex.  A message
    to a peer that cannot be reached is kept and tried again, or sealed and left in the
    peer's mailbox on the Sidewinder chain.  The code verified here is that of the
    crates [src/bingle_core/src/] and [src/bingle_local/src/], of the interface to the
    mobile application in [src/bingle_jsi/src/], of the command line in
    [src/bingle_cli/src/] and of the web server in [src/bingle_webserver/src/].

    ** How the parts interact

    The engine ([engine/mod.rs]) owns the components.  A datagram is demultiplexed
    into STUN answers (to the endpoint finder), channel data (to the TURN handlers)
    and DTLS records; a decrypted record is a packet of the reliable transport
    (FRPT), which acknowledges it and hands its block to the engine once.  The
    engine drops what is not allowed from an unauthenticated or unknown peer, wakes
    the thread waiting for a response, or starts a thread that routes the message to
    a handler.  The handlers update the advert database, the relay cache, the TURN
    allow lists and channels and the mutex, and send replies or ripple the change to
    other relays.  The engine's life cycle ties them together: what STUN finds decides
    whether a node registers its address, registers with a relay, or waits.

    The local client ([src/bingle_local/src/api/]) keeps keys, contacts and messages in
    a state file, sends what is pending through the API from a scheduler and a worker
    thread, and posts what cannot be delivered to mailboxes.

    The mobile application calls an instance ([src/bingle_jsi/src/api/]) that holds a
    local client and an engine, starts and stops the engine with the account's status,
    checks the mailbox from a thread, and reports live and fetched messages through
    callbacks.

    The command line ([src/bingle_cli/src/]) runs commands on the chain (register,
    migrate, buy, sell) and an interactive chat: it sets up the account on the first run,
    starts the engine, queues what is typed for the sender of the local client and shows
    what arrives, live or from the mailbox.  Its command [run] keeps a node with a record on
    the chain, and [checkrelays] measures the relays.  The web server
    ([src/bingle_webserver/src/]) answers requests over a local client and a node, which it
    starts once the account is active.

    ** Files, in dependency order

    - [Prelude]: results, panics and the monad notations for them; machine-width
      integers ([wrap], [signed]); big-endian bytes; the lemmas, hints and tactics
      shared by the other files.
    - [NetAddr]: addresses and [api/network_endpoint.rs], the endpoint a message is
      sent to and the key its state is filed under.
    - [Frpt]: [packet_transport/mod.rs].  The record [transport] is
      [DtlsReliablePacketTransport]; an acknowledgement waiter is an index in a
      store, since the source shares it between threads; a send is a run of
      attempts with the events other threads cause while it waits.
    - [FrptThreads]: the same file at the grain of its locks: dispatches, resets for new
      sessions and sends as threads; what runs uninterrupted is an operation of [Frpt].
    - [Turn]: [turn/], framing and the handlers in modules [Relay], [Client] and
      [Compat], each an instance of the class [TurnHandler] (the source's trait).
    - [Mutex], [MutexCluster]: [distributed_mutex/mod.rs], the handlers and phases
      of one node, then a cluster of nodes as a step relation over a network.
    - [Advert]: [ddb/advert_record.rs], with signing, verification and CSV.
    - [Ddb]: [ddb/mod.rs], the trait [DdbBackend] and the laws its clients use, the
      in-memory backend, expiry, eviction.
    - [RelayCache], [RelayUpdater]: [relay/], the cache of relays, the corners a
      triangle test excludes, the cooldown of failed probes, keep-alive, discovery,
      and the selection of a relay by probing candidates in rank order.
    - [StunWire], [Stun]: [stun/], the packet codec, the test server's answer, and
      the endpoint finder as a state machine on ticks, packets and resets.
    - [Messages], [Handlers]: [messages/types.rs], [handlers.rs], [router.rs], with
      the operations of [engine/mod.rs] the handlers call.  A handler maps the node
      to the node and its outputs.
    - [EngineIo]: the inbound path, waiting requests, handler threads over the
      router they share, and sending with backoff, of [engine/mod.rs] and
      [engine/relay_init_mutex.rs].
    - [HandleCache]: the cache of handles of [api/bingle_api_impl.rs] and the lookups
      through it.
    - [Api]: the sending path of [api/bingle_api_impl.rs] (to endpoints, ids and
      handles, with and without a response), the database client [ddb/client.rs] and
      [relay/relay_client.rs], in a monad of state and panics over the engine, the
      handle cache and the class [Outside] of what the node cannot see.
    - [EndToEnd]: nodes and a relay composed: the clients of [Api] over the relay's
      [EngineIo] and [Handlers].
    - [Envelope]: [crypto/], sealed envelopes and live signatures over abstract
      primitives.
    - [LocalTypes], [SendRetry]: the local client's data and [send_retry.rs], what a
      failed send means, which message is sent next, the window of peers known to be
      offline.
    - [Mailbox]: [sidewinder/mailbox.rs], posting and popping with failover, over the
      class [Sidewinder] of the chain's client.
    - [Account]: keys, status and registration of [bingle_local_api_impl.rs],
      [registration.rs], [notify/] and [blockchain/account_status.rs].
    - [LocalStore]: the stored messages and contacts of [bingle_local_api_impl.rs] and
      [store_and_forward.rs], in a state monad over the client and its world.
    - [PendingSender], [SenderThreads]: [pending_sender.rs], what the threads compute,
      proved against the class [OutboundStore] that [LocalStore] implements, then the
      threads and their channels as a step relation.
    - [Lifecycle]: the life cycle of the engine in [engine/mod.rs] and
      [engine/advert_lifecycle.rs], and registration, sign-off and stop of
      [api/bingle_api_impl.rs], over the state of [Api] and the class [Finder].
    - [AdvertThreads]: of the same files, refresh passes, registrations and sign-offs as
      threads at the grain of their locks.
    - [Dtls]: [dtls/dtls_openssl.rs] above OpenSSL.  The table of peers is a map; the
      queues, writers, workers and streams that threads share lie in stores and are
      named by index; a thread is a program counter, and [run] interleaves the steps
      of all of them with what OpenSSL and the clock answer.
    - [Mux]: [dtls/network_mux_udp.rs] and the TURN handler the engine installs in it:
      classification, dispatch, writing, the receive loop; and a DTLS record's way
      through a relay, composed from [Turn], [Mux] and [Dtls].
    - [RegistrationGroup]: [blockchain/registration_group.rs], the checks of the
      transactions a client is asked to sign.
    - [Chain]: [blockchain/algo_bingle.rs] and [sidewinder_endpoint.rs], the client of
      the chain, in a state monad over its cache, the world of the class [AlgoNode] and
      the log of what was given to the node.
    - [ChainRegistration]: the registration of [registration.rs] over the operations of
      [Chain] instead of the abstract ones of [Account].
    - [JsiTypes]: the data of the mobile interface, its conversions to and from that of
      the local client, the trees of its JSON, the configuration, the retry delays.
    - [Jsi]: [bingle_jsi_api_impl.rs], the instance, in a state monad over the local
      client, the engine it holds, the mailbox thread and the log of what the
      application was told.
    - [JsiLoop]: the older processing loop of the same file, as turns of threads over the
      shared table of pending messages.
    - [CliArgs]: [util/cli_utils.rs], [util/config_utils.rs] and [chat.rs] of the command
      line: amounts, lists of servers, node files, the options and the arguments of chat.
    - [CliChain]: [account_check.rs] and the commands on the chain of the command line's
      [main.rs], over the operations of [Chain]; a command ends with an exit status.
    - [Chat]: the chat session of the command line ([chat_state.rs], [chat_register.rs],
      [chat_receive.rs], [chat_poll.rs], [chat_send.rs], [chat_repl.rs] and [main.rs]), in
      a state monad over the local client, its world, the signals to the sender and what is
      printed.
    - [Certs]: [api/pki.rs], [protocol/cert_verify.rs] and the credentials, flags and
      contexts of [dtls/dtls_openssl.rs], over a class [X509Lib] of what OpenSSL offers, with
      the laws it documents; then, with [Dtls], what a session's name is worth.
    - [ApiStart]: the start of [api/bingle_api_impl.rs] and of the engine: its checks, the
      identity and the credentials it installs, over [Certs] and [Lifecycle].
    - [DtlsDebug]: [dtls/dtls_debug.rs], the printer of datagrams, whole and in one line.
    - [CliRun], [CheckRelays]: the commands [run] and [checkrelays] of the command line's
      [main.rs] and [checkrelays.rs], over [ApiStart], [Chain] and [CliArgs].
    - [WebServer]: the handlers, the start and the arguments of the web server, a run of
      requests, messages and reports.
    - [Periodic]: [util/periodic_task.rs], the thread and its owner as a step relation, with
      an executable scheduler of it.
    - [RelayFinder]: [relay/relay_finder.rs], over [RelayUpdater] and [RelayCache].
    - [ChatSession]: [run_chat_session] of the command line's [main.rs]: the moves of the
      main thread, of the thread a signal starts and of the world, around [Chat].
    - [PermissionRefresh]: [relay/relay_permission_refresh.rs] and its pass in the engine:
      the task of [Periodic] over the database of [Ddb] and the chain of [Chain].
    - [ChainJson]: the reading of an application's state from JSON, below the class of
      [Chain], and the ids of groups of transactions.

    ** What the theorems show

    - Transport: packets round trip; a transaction is handed over at most once, for every
      interleaving in which no dispatch meets the reset for a new session of its peer;
      every data packet handed over is acknowledged; a send reports success only
      when an acknowledgement for its own transaction came, and always returns,
      after at most one attempt per delay of its schedule.
    - TURN: the relay's tables stay consistent under every operation; an allocated
      channel is free and in range; what a client sends through a channel reaches
      the peer it was called for, proved against the class for any two handlers.
    - Mutex: at most one node of a cluster is in the critical section, for every
      interleaving, while leases are open and each node acquires once.  Two closed
      runs show that both conditions are needed.
    - Adverts and database: a record verifies after signing; records survive the
      CSV form; what was upserted is found until it expires; sweeping is not
      observable; eviction removes exactly the relays that lost their permission;
      a message changes the database only when its sender is entitled to it; an
      upsert followed by a query from any peer finds the record.
    - Relay selection: a selected relay is a candidate that answered; the loop
      returns; the first candidate in rank order wins if it answers in time.
    - STUN: the state a client was told of is the state of the finder; servers that
      answered are kept; the last server is never dropped; two answers decide.
    - Engine: a response reaches the request that waits for it; nothing from a peer
      that must be ignored has an effect; a failed send is not retried before its
      backoff ends; a node that listens at a relay can be called.
    - API: a failed send has a typed cause, permanent only for an invalid id; the
      circle of calls between sending, requests and lookups ends; the handle cache
      never contradicts itself.
    - End to end: an address registered at a relay is what another node's lookup
      returns, through whatever the relay does in between that is not a change of that
      record; a message to a node behind a relay leaves on a channel the relay maps
      to the two nodes and has told the receiver.
    - Envelopes: what is sealed opens to the same message; what opens was signed by the
      sender it names, for this recipient; a changed header or a copy under another
      name is refused; a clamped scalar is in the range X25519 requires.
    - Mailbox: a post submits at most once, and posting and popping end, by the
      deadline at the latest.
    - Local client: the store's invariant holds after every sequence of operations and
      restarts; saving and loading lose nothing that matters; a recipient is posted to
      once per message; what a poll adds was in the mailbox and was authentic; a status
      active means that the chain registered the account; a registration spends in one
      order and nothing for a handle that is taken.
    - Sending: an outcome says what happened to each recipient; one message is in
      flight at a time; a message flushed to mailboxes on exit was not and will not be
      delivered directly; the worker's code refines the step relation; the flush
      accounts for every pending message.
    - Life cycle: the address is reset exactly when it vanished or the same new one was
      seen three times in a row; registering with a relay is all or nothing; keep-alive,
      home relay, advert and refresh agree as long as operations do not overlap; a refresh
      that was running when a sign-off began sends nothing after it, for every
      interleaving; a stopped node starts anew.
    - DTLS: for every interleaving, data is delivered under a name only if a
      certificate proved that name to a session of the same peer; a session that was
      dropped never writes again; of two nodes that connect to each other at once
      exactly one yields; the connection reads the datagrams in order, none lost.
    - Multiplexer: a record sent through a relay arrives unchanged, under an endpoint
      that leads back; nested channel data ends; the receive loop outlives its socket.
    - Registration groups: the checks accept exactly the groups of the documented
      shape, and what the signed transactions of an accepted group can cost the
      account is bounded, for registration and for recovery.
    - Chain: the oldest claim owns a handle, in whatever order accounts are listed, and
      the two lookups agree; permissions and endpoint records decode exactly what they
      encode; every operation signs for the own account only; an account migrates once,
      from its nearest ancestor; a registration buys and pays at most once.
    - Mobile interface: a message is shown once, by whichever route it comes; a blocked
      sender's message shows and stores nothing; one thread checks the mailbox; recovery
      keys are on disk before they are handed out; the delay after a failed check is
      bounded; the engine is started at once only for an active account; one processing
      loop completes a message once.
    - Command line: an amount is read exactly when it is a decimal number of at most six
      places and fits 64 bits; the commands sign for the account of the passphrase only; buying
      pays the price of the application, or nothing when another was asked for; the set-up
      of a chat ends within its rounds and a session runs as one registered account, that
      of its state file and of the passphrase; a typed line is queued once; a received
      message is stored and shown unless it is blocked or a copy; a session ends in order
      and, once signalled, ends; the record [run] writes verifies for others, and it clears
      only its own; the figures of [checkrelays] are those of the answers.
    - Certificates and start: what a node presents is accepted by any other node, under its
      own address, exactly while in force; a name a message is handed over under stands in a
      certificate in force with a valid chain; nothing but the debug flag turns verification
      off; a node that starts calls itself by the address of its account; a relay needs the
      permission of the chain.
    - Printer: the full form of a datagram gives its bytes back; the line describes the same
      records; no datagram makes it panic.
    - Web server: the node is started once, for the account that is active and with its
      key pair; what a request changed is on file; a server
      without a client refuses and changes nothing; a blocked sender is not heard.
    - Periodic task: a stop comes to an end, no wake-up is lost; no pass begins after it;
      passes are an interval apart.
    - Relay finder: a relay that is found answered its own probe, is not the node itself,
      and was not known at an excluded address; a pass of the refresh evicts exactly the relays that the chain does
      not permit, and once it was stopped no pass runs; a listing is sorted, holds relays of the cache, and is not empty
      while discovery finds any.
    - Divergences of the code from its intention are closed runs or theorems:
      [mutex_exclusion_lapse], [mutex_exclusion_stale_reply], [listen_race],
      [membership_update_dropped], [rippled_signoff_unchecked],
      [delete_not_dispatched], [frpt_tx_id_reuse_drops], [relay_third_party],
      [stun_reset_mutes], [discover_bad_endpoint_panics], [foreign_channel_rebinds],
      [lookup_foreign_record], [request_waiter_leak], [failover_stops_at_connect],
      [retry_buys_again], [progress_report_forwards], [first_recipient_completes],
      [failure_shown_delivered], [blocked_strands_client], [failed_load_available],
      [stale_reader_closes_new_session], [stale_accept_renames_session],
      [stale_connect_silences_session], [concurrent_sends_share_queue],
      [nested_packet_panics], [clawback_left_with_manager], [paid_twice],
      [shown_suite_is_senders], [failed_start_sticks], [ground_order_lost],
      [started_twice_sends_twice], [restarted_sends_again], [lone_app_id_dropped],
      [register_command_pays_twice], [ready_without_handle], [refused_message_pends],
      [queued_saved_as_delivered], [authority_key_unchecked],
      [debug_leaves_connector_open], [restart_mixes_accounts],
      [empty_handshake_reads_on], [failed_run_leaves_record], [ipv6_record_unusable],
      [failed_start_not_retried], [exit_cuts_shutdown], [regrouped_id_differs],
      [report_removes_client], [handle_of_file_unchecked], [excluded_address_found],
      [reset_delivers_twice], [late_dispatch_delivers_twice],
      [signoff_leaves_refresher], [registration_outlasts_signoff],
      [registrations_cross].

    ** Bounds and fuel

    Most loops are structural: the attempts of a send recurse on the schedule of
    delays.  [alloc_channel] probes at most as often as there are channels, which
    visits each of them; the selection loop is given fuel and
    [selection_terminates] proves that [3 * n + 2] iterations on [n] candidates
    suffice once time advances; attribute parsing has the length of the packet as
    fuel and every step consumes at least four bytes; decimal printing has twenty
    digits, enough for 64 bits; the mailbox's two loops are given fuel and
    [mailbox_terminates] bounds what they need by the nodes and the time to the
    deadline; a Listen is tried three times; the dispatch of nested channel data has one
    more than the length of the datagram, which [process_packet_fuel] proves enough; the
    set-up of a chat has the six rounds of the source, which [chat_start_converges] proves
    enough; a command that waits for an unreachable node is given the number of rounds it
    waits and ends in [Waiting] after them.  The threads of the sender are a relation
    and need no fuel.  Integers are [Z] with the wrap-around of their
    Rust type written out where it can happen.

    ** What is not modelled

    Lock poisoning, the text of errors and log lines; the iteration order of hash
    maps, which is fixed here to that of [map_to_list] or [elements]; the sockets
    and OpenSSL's handshakes under DTLS, whose results are arguments, and its certificates,
    which are a class; Ed25519, base64, MessagePack and the blockchain, which are parameters
    with the hypotheses the code relies on, as are HPKE and the Sidewinder client; the JSON
    text of messages and of the state file, for which typed values stand; HTTP and the bytes
    of requests; building and signing single transactions, which a library does; the loop of
    [checkrelays] around its rounds, and the terminal; constructors and operations that exist
    for tests; the bindings that pass a call of the application to the instance, and traits
    without bodies; the start of the engine's own threads other than those named above.
    [util/net_det.rs] is not called by the program, and ranks interfaces by floating-point
    scores; [LocalDistributedMutex] is a plain lock; [messages/relay_ping_handler.rs] is
    made by tests only; [assign_group_id] is modelled though only tests call it. *)
From stdpp Require Export base tactics option list gmap strings numbers sorting.
From Stdlib Require Export ZArith Lia.
From Stdlib Require Ascii.
Export Ascii.AsciiSyntax.
Delimit Scope char_scope with char.
Abbreviation ascii := Ascii.ascii.

(** ** Results, panics and their notation *)

Declare Scope bingle_scope.
Delimit Scope bingle_scope with bingle.
Open Scope bingle_scope.

(** Rust's [Result<A, E>]. *)
Inductive result (A E : Type) : Type :=
| Ok (a : A)
| Err (e : E).
Arguments Ok {A E} _.
Arguments Err {A E} _.

(** A computation that either returns or aborts by a Rust panic. *)
Inductive outcome (A : Type) : Type :=
| Returns (a : A)
| Panics.
Arguments Returns {A} _.
Arguments Panics {A}.

Definition is_ok {A E} (r : result A E) : bool :=
  match r with Ok _ => true | Err _ => false end.

Definition result_bind {A B E} (r : result A E) (k : A -> result B E) : result B E :=
  match r with Ok a => k a | Err e => Err e end.

Definition map_err {A E F} (f : E -> F) (r : result A E) : result A F :=
  match r with Ok a => Ok a | Err e => Err (f e) end.

Definition ok_or {A E} (o : option A) (e : E) : result A E :=
  match o with Some a => Ok a | None => Err e end.

Definition result_ok {A E} (r : result A E) : option A :=
  match r with Ok a => Some a | Err _ => None end.

Notation "'let?' x ':=' r 'in' k" := (result_bind r (fun x => k))
  (at level 10, x pattern, r at level 100, k at level 200)
  : bingle_scope.

#[export] Instance result_eq_dec {A E} `{EqDecision A, EqDecision E} :
  EqDecision (result A E).
Proof. solve_decision. Defined.

(** ** Automation *)

Create HintDb bingle.

(** Case analysis on every [match], [if] and [decide] of the goal or of the
    hypotheses, closing the contradictory branches. *)
Ltac split_matches :=
  repeat first [ case_match | case_decide | case_bool_decide ];
  simplify_eq/=; try done.

(** Solves the arithmetic side conditions the codecs produce. *)
Ltac zsolve := try solve [ lia | nia | (f_equal; lia) ].

Ltac dest_and :=
  repeat match goal with
  | H : _ /\ _ |- _ => destruct H
  | H : exists _, _ |- _ => destruct H
  end.

(** ** Machine integers and byte strings

    Unsigned integers of width [w] are integers [z] with [0 <= z < 2^w]; the
    wrapping operations reduce modulo [2^w].  A byte string is a list of
    integers; [bytes_ok] says each is a [u8]. *)

Definition u8_max : Z := 255.
Definition u16_max : Z := 65535.
Definition u32_max : Z := 4294967295.
Definition wrap (w z : Z) : Z := (z mod 2 ^ w)%Z.
Definition in_width (w z : Z) : Prop := (0 <= z < 2 ^ w)%Z.

(** Two's complement reading of the low [w] bits. *)
Definition signed (w z : Z) : Z := ((z + 2 ^ (w - 1)) mod 2 ^ w - 2 ^ (w - 1))%Z.

Definition bytes_ok (l : list Z) : Prop := Forall (in_width 8) l.

(** [to_be_bytes n z]: the [n] bytes of [z], most significant first. *)
Fixpoint to_be_bytes (n : nat) (z : Z) : list Z :=
  match n with
  | O => []
  | S n => ((z / 256 ^ Z.of_nat n) mod 256)%Z :: to_be_bytes n z
  end.

Fixpoint be_value (acc : Z) (l : list Z) : Z :=
  match l with
  | [] => acc
  | b :: l => be_value (acc * 256 + b)%Z l
  end.

Definition from_be_bytes (l : list Z) : Z := be_value 0 l.

(** [slice l a n] is Rust's [&l[a..a + n]] when it is in range. *)
Definition slice {A} (l : list A) (a n : nat) : list A := take n (drop a l).

(** [get_slice l a n] is Rust's [l.get(a..a + n)]. *)
Definition get_slice {A} (l : list A) (a n : nat) : option (list A) :=
  if decide (a + n <= length l) then Some (slice l a n) else None.

(** ** Stable sorting by a key, as [slice::sort_by] *)

Section SortBy.
Context {A : Type} (le : A -> A -> bool).

Fixpoint insert_by (x : A) (l : list A) : list A :=
  match l with
  | [] => [x]
  | y :: l' => if le x y then x :: l else y :: insert_by x l'
  end.

Definition sort_by (l : list A) : list A := foldr insert_by [] l.
End SortBy.

(** ** Strings *)

(** [s.trim_end_matches(c)] for a one-character pattern. *)
Fixpoint trim_end_matches (c : ascii) (s : string) : string :=
  match s with
  | EmptyString => EmptyString
  | String a s' =>
      match trim_end_matches c s' with
      | EmptyString => if Ascii.eqb a c then EmptyString else String a EmptyString
      | t => String a t
      end
  end.

Fixpoint string_contains_char (c : ascii) (s : string) : bool :=
  match s with
  | EmptyString => false
  | String a s' => Ascii.eqb a c || string_contains_char c s'
  end.

(** [s.split(c)]: always at least one piece. *)
Fixpoint split_on (c : ascii) (s : string) : list string :=
  match s with
  | EmptyString => [EmptyString]
  | String a s' =>
      if Ascii.eqb a c then EmptyString :: split_on c s'
      else match split_on c s' with
           | [] => [String a EmptyString]
           | p :: ps => String a p :: ps
           end
  end.

(** Global issuer suffix, [src/bingle_core/src/protocol/mod.rs]. *)
Definition ISSUER_SUFFIX : ascii := "."%char.

(** The normal form of a node id: the issuer suffix trimmed. *)
Definition norm_id (id : string) : string := trim_end_matches ISSUER_SUFFIX id.

(** ** Lemmas: results *)

Lemma result_bind_ok {A B E} (r : result A E) (k : A -> result B E) b :
  result_bind r k = Ok b <-> exists a, r = Ok a /\ k a = Ok b.
Proof.
  destruct r; simpl; (split; [intros; simplify_eq|intros (?&?&?); simplify_eq]); eauto.
Qed.

(** ** Lemmas: byte strings *)

Lemma length_to_be_bytes n z : length (to_be_bytes n z) = n.
Proof. induction n; simpl; congruence. Qed.

Lemma to_be_bytes_ok n z : bytes_ok (to_be_bytes n z).
Proof.
  induction n; simpl; constructor; [|done].
  unfold in_width. change (2 ^ 8)%Z with 256%Z. apply Z.mod_pos_bound. lia.
Qed.

Lemma be_value_shift acc l :
  be_value acc l = (acc * 256 ^ Z.of_nat (length l) + from_be_bytes l)%Z.
Proof.
  unfold from_be_bytes. revert acc. induction l as [|b l IH]; intros acc; simpl.
  - lia.
  - rewrite IH, (IH (0 * 256 + b)%Z), Nat2Z.inj_succ, Z.pow_succ_r by lia. lia.
Qed.

Lemma from_be_bytes_cons b l :
  from_be_bytes (b :: l) = (b * 256 ^ Z.of_nat (length l) + from_be_bytes l)%Z.
Proof. unfold from_be_bytes at 1. simpl. apply be_value_shift. Qed.

Lemma from_to_be_bytes n z :
  from_be_bytes (to_be_bytes n z) = (z mod 256 ^ Z.of_nat n)%Z.
Proof.
  induction n as [|n IH].
  - by rewrite Z.mod_1_r.
  - cbn [to_be_bytes]. rewrite from_be_bytes_cons, length_to_be_bytes, IH.
    rewrite Nat2Z.inj_succ, Z.pow_succ_r by lia.
    set (p := (256 ^ Z.of_nat n)%Z). assert (0 < p)%Z by (subst p; lia).
    rewrite (Z.mul_comm 256 p), Z.rem_mul_r by lia. lia.
Qed.

Lemma from_to_be_bytes_small n z :
  (0 <= z < 256 ^ Z.of_nat n)%Z -> from_be_bytes (to_be_bytes n z) = z.
Proof. intros. rewrite from_to_be_bytes. by apply Z.mod_small. Qed.

Lemma from_be_bytes_bound l :
  bytes_ok l -> (0 <= from_be_bytes l < 256 ^ Z.of_nat (length l))%Z.
Proof.
  induction 1 as [|b l Hb _ IH]; [done|].
  rewrite from_be_bytes_cons. cbn [length]. rewrite Nat2Z.inj_succ, Z.pow_succ_r by lia.
  unfold in_width in Hb. change (2 ^ 8)%Z with 256%Z in Hb. nia.
Qed.

Lemma to_be_bytes_mod n x y :
  (x mod 256 ^ Z.of_nat n = y mod 256 ^ Z.of_nat n)%Z -> to_be_bytes n x = to_be_bytes n y.
Proof.
  revert x y. induction n as [|n IH]; intros x y E; [done|]. cbn [to_be_bytes].
  rewrite Nat2Z.inj_succ, Z.pow_succ_r in E by lia.
  assert (0 < 256 ^ Z.of_nat n)%Z as Hq by lia.
  specialize (IH x y). revert E Hq IH.
  generalize (256 ^ Z.of_nat n)%Z as q. intros q E Hq IH.
  rewrite (Z.mul_comm 256 q), !Z.rem_mul_r in E by lia.
  pose proof (Z.mod_pos_bound x q Hq). pose proof (Z.mod_pos_bound y q Hq).
  assert (x mod q = y mod q /\ (x / q) mod 256 = (y / q) mod 256)%Z as [E1 E2].
  { revert E H H0. generalize (x mod q)%Z, (y mod q)%Z, ((x / q) mod 256)%Z, ((y / q) mod 256)%Z.
    intros. assert (z1 = z2) by nia. nia. }
  rewrite E2. f_equal. by apply IH.
Qed.

Lemma to_from_be_bytes l :
  bytes_ok l -> to_be_bytes (length l) (from_be_bytes l) = l.
Proof.
  induction 1 as [|b l Hb Hl IH]; [done|].
  rewrite from_be_bytes_cons. cbn [length to_be_bytes].
  pose proof (from_be_bytes_bound l Hl) as B.
  set (p := (256 ^ Z.of_nat (length l))%Z) in *.
  unfold in_width in Hb. change (2 ^ 8)%Z with 256%Z in Hb. f_equal.
  - rewrite Z.div_add_l, (Z.div_small _ p) by lia.
    rewrite Z.add_0_r. by apply Z.mod_small.
  - etrans; [|exact IH]. clear IH Hl.
    apply to_be_bytes_mod. fold p. rewrite Z.add_comm. apply Z.mod_add. lia.
Qed.

Lemma signed_wrap w z :
  (0 < w)%Z -> (- 2 ^ (w - 1) <= z < 2 ^ (w - 1))%Z -> signed w (z mod 2 ^ w) = z.
Proof.
  intros Hw Hz. unfold signed.
  assert (E : (2 ^ w = 2 * 2 ^ (w - 1))%Z).
  { rewrite <- Z.pow_succ_r by lia. f_equal. lia. }
  assert (0 < 2 ^ (w - 1))%Z by (apply Z.pow_pos_nonneg; lia).
  rewrite Z.add_mod_idemp_l, Z.mod_small by lia. lia.
Qed.

Lemma in_width_lor w a b :
  (0 <= w)%Z -> in_width w a -> in_width w b -> in_width w (Z.lor a b).
Proof.
  unfold in_width. intros Hw Ha Hb. split; [apply Z.lor_nonneg; lia|].
  destruct (decide (Z.lor a b <= 0)%Z); [lia|].
  apply Z.log2_lt_pow2; [lia|]. rewrite Z.log2_lor by lia.
  assert (forall x, 0 <= x < 2 ^ w -> 0 < w -> Z.log2 x < w)%Z as L.
  { intros x Hx Hw'. destruct (decide (x = 0)%Z) as [->|]; [done|].
    apply Z.log2_lt_pow2; lia. }
  destruct (decide (w = 0)%Z) as [->|].
  - assert (a = 0 /\ b = 0)%Z as [-> ->] by lia. done.
  - apply Z.max_lub_lt; apply L; lia.
Qed.

Lemma in_width_wrap w z : (0 <= w)%Z -> in_width w (wrap w z).
Proof. intros. apply Z.mod_pos_bound, Z.pow_pos_nonneg; lia. Qed.

Lemma wrap_small w z : in_width w z -> wrap w z = z.
Proof. apply Z.mod_small. Qed.

Lemma slice_app_l {A} (l1 l2 : list A) : slice (l1 ++ l2) (length l1) (length l2) = l2.
Proof. unfold slice. rewrite drop_app_length. by apply firstn_all. Qed.

Lemma slice_length {A} (l : list A) a n : a + n <= length l -> length (slice l a n) = n.
Proof. intros. unfold slice. rewrite length_take, length_drop. lia. Qed.

(** ** Lemmas: sorting *)

Section SortByLemmas.
Context {A : Type} (le : A -> A -> bool).
Context (le_tot : forall x y, le x y = true \/ le y x = true).
Context (le_tr : forall x y z, le x y = true -> le y z = true -> le x z = true).

Lemma insert_by_Permutation x l : insert_by le x l ≡ₚ x :: l.
Proof.
  induction l as [|y l IH]; simpl; [done|].
  destruct (le x y); [done|]. rewrite IH. apply Permutation_swap.
Qed.

Lemma sort_by_Permutation l : sort_by le l ≡ₚ l.
Proof.
  induction l as [|x l IH]; simpl; [done|].
  rewrite insert_by_Permutation. by constructor.
Qed.

Lemma insert_by_sorted x l :
  StronglySorted (fun a b => le a b = true) l ->
  StronglySorted (fun a b => le a b = true) (insert_by le x l).
Proof using le_tot le_tr.
  induction 1 as [|y l Hs IH Hy]; simpl.
  - repeat constructor.
  - destruct (le x y) eqn:E.
    + constructor; [by constructor|]. constructor; [done|].
      eapply Forall_impl; [exact Hy|]. simpl. eauto.
    + constructor; [done|]. rewrite insert_by_Permutation. constructor; [|done].
      destruct (le_tot x y); congruence.
Qed.

Lemma sort_by_sorted l : StronglySorted (fun a b => le a b = true) (sort_by le l).
Proof using le_tot le_tr.
  induction l; simpl; [constructor|]. by apply insert_by_sorted.
Qed.

Lemma sort_by_id_sorted l :
  StronglySorted (fun a b => le a b = true) l -> sort_by le l = l.
Proof using.
  induction 1 as [|x l Hs IH Hx]; simpl; [done|]. rewrite IH.
  destruct Hx as [|y l Hy]; simpl; [done|]. by rewrite Hy.
Qed.
End SortByLemmas.

Lemma elem_of_sort_by {A} (le : A -> A -> bool) x l : x ∈ sort_by le l <-> x ∈ l.
Proof. by rewrite sort_by_Permutation. Qed.

Lemma length_sort_by {A} (le : A -> A -> bool) l : length (sort_by le l) = length l.
Proof. by rewrite sort_by_Permutation. Qed.

(** ** Lemmas: strings *)

Lemma string_leb_total (s t : string) : String.leb s t = true \/ String.leb t s = true.
Proof. destruct (String.leb_total s t); auto. Qed.

Lemma string_leb_trans (s t u : string) :
  String.leb s t = true -> String.leb t u = true -> String.leb s u = true.
Proof.
  intros H1 H2. assert (String.le s u) as G; [|by apply Is_true_true in G].
  etrans; apply Is_true_true; eassumption.
Qed.

Lemma string_leb_antisym (s t : string) :
  String.leb s t = true -> String.leb t s = true -> s = t.
Proof. intros H1 H2. apply (anti_symm String.le); by apply Is_true_true. Qed.

Lemma string_ltb_leb (s t : string) : String.ltb s t = negb (String.leb t s).
Proof.
  unfold String.ltb, String.leb. rewrite String.compare_antisym.
  by destruct (String.compare t s).
Qed.

Lemma string_ltb_total (s t : string) :
  s = t \/ String.ltb s t = true \/ String.ltb t s = true.
Proof.
  rewrite !string_ltb_leb.
  destruct (String.leb s t) eqn:E1, (String.leb t s) eqn:E2; auto using string_leb_antisym.
Qed.

Lemma string_ltb_trans (s t u : string) :
  String.ltb s t = true -> String.ltb t u = true -> String.ltb s u = true.
Proof.
  rewrite !string_ltb_leb, !negb_true_iff. intros H1 H2.
  destruct (String.leb u s) eqn:E; [|done].
  destruct (string_leb_total s t) as [H|H]; [|congruence].
  rewrite (string_leb_trans u s t) in H2 by done. done.
Qed.

Lemma trim_end_matches_idem c s :
  trim_end_matches c (trim_end_matches c s) = trim_end_matches c s.
Proof.
  induction s as [|a s IH]; simpl; [done|].
  destruct (trim_end_matches c s) as [|b t] eqn:E.
  - destruct (Ascii.eqb a c) eqn:Ea; simpl; [done|]. by rewrite Ea.
  - cbn [trim_end_matches] in IH |- *. by rewrite IH.
Qed.

Lemma norm_id_idem s : norm_id (norm_id s) = norm_id s.
Proof. apply trim_end_matches_idem. Qed.

Lemma split_on_none c s : string_contains_char c s = false -> split_on c s = [s].
Proof.
  induction s as [|a s IH]; simpl; [done|].
  intros [Ha Hs]%orb_false_iff. rewrite Ha, IH by done. done.
Qed.

Lemma split_on_app c s t :
  string_contains_char c s = false ->
  split_on c (s +:+ String c t) = s :: split_on c t.
Proof.
  induction s as [|a s IH]; simpl.
  - intros _. by rewrite Ascii.eqb_refl.
  - intros [Ha Hs]%orb_false_iff. by rewrite Ha, IH.
Qed.

#[export] Hint Resolve to_be_bytes_ok norm_id_idem : bingle.
