(* ===== verification/NetAddr.v ===== *)
(** * Network addresses and endpoints

    Models [std::net::{IpAddr, SocketAddr}] as far as the code uses them and
    [src/bingle_core/src/api/network_endpoint.rs]: the endpoint a message is
    sent to (direct, or a channel of a relay) and the key under which the
    transports file their per-peer state.  [get_key] panics on a half-specified
    relay endpoint, so its result is an [outcome]. *)
From S2P Require Import Prelude.

(** An IPv4 address as its octets, an IPv6 address as its 128-bit value. *)
Inductive IpAddr : Type :=
| V4 (a b c d : Z)
| V6 (v : Z).

Record SocketAddr : Type := SockAddr { ip : IpAddr; port : Z }.

#[export] Instance IpAddr_eq_dec : EqDecision IpAddr.
Proof. solve_decision. Defined.

#[export] Instance IpAddr_countable : Countable IpAddr.
Proof.
  refine (inj_countable'
    (fun i => match i with V4 a b c d => inl (a, b, c, d) | V6 v => inr v end)
    (fun s => match s with inl (a, b, c, d) => V4 a b c d | inr v => V6 v end) _).
  by intros [].
Defined.

#[export] Instance SocketAddr_eq_dec : EqDecision SocketAddr.
Proof. solve_decision. Defined.

#[export] Instance SocketAddr_countable : Countable SocketAddr.
Proof.
  refine (inj_countable' (fun a => (ip a, port a)) (fun p => SockAddr p.1 p.2) _).
  by intros [].
Defined.

Definition is_ipv4 (i : IpAddr) : bool := match i with V4 _ _ _ _ => true | V6 _ => false end.

(** [IpAddr::is_loopback]: 127.0.0.0/8, and ::1. *)
Definition is_loopback (i : IpAddr) : bool :=
  match i with V4 a _ _ _ => Z.eqb a 127 | V6 v => Z.eqb v 1 end.

Record NetworkEndpointKey : Type := MkKey {
  key_inet_socket_address : option SocketAddr;
  key_relay_id : option string;
  key_relay_channel : option Z
}.

Record NetworkEndpoint : Type := MkEndpoint {
  inet_socket_address : option SocketAddr;
  relay_channel : option Z;
  relay_address : option SocketAddr;
  relay_id : option string
}.

#[export] Instance NetworkEndpointKey_eq_dec : EqDecision NetworkEndpointKey.
Proof. solve_decision. Defined.

#[export] Instance NetworkEndpoint_eq_dec : EqDecision NetworkEndpoint.
Proof. solve_decision. Defined.

#[export] Instance NetworkEndpointKey_countable : Countable NetworkEndpointKey.
Proof.
  refine (inj_countable'
    (fun k => (key_inet_socket_address k, key_relay_id k, key_relay_channel k))
    (fun t => MkKey t.1.1 t.1.2 t.2) _).
  by intros [].
Defined.

Definition new_direct (addr : SocketAddr) : NetworkEndpoint :=
  MkEndpoint (Some addr) None None None.

Definition new_unset : NetworkEndpoint := MkEndpoint None None None None.

Definition new_relay (rid : string) (raddr : option SocketAddr) (rch : option Z)
  : NetworkEndpoint := MkEndpoint None rch raddr (Some rid).

Definition is_relay (e : NetworkEndpoint) : bool :=
  match relay_id e with Some _ => true | None => false end.

Definition set_relay_address (addr : option SocketAddr) (e : NetworkEndpoint)
  : NetworkEndpoint :=
  MkEndpoint (inet_socket_address e) (relay_channel e) addr (relay_id e).

Definition set_relay_channel (ch : option Z) (e : NetworkEndpoint) : NetworkEndpoint :=
  MkEndpoint (inet_socket_address e) ch (relay_address e) (relay_id e).

Definition get_key (e : NetworkEndpoint) : outcome (option NetworkEndpointKey) :=
  match inet_socket_address e with
  | Some addr => Returns (Some (MkKey (Some addr) None None))
  | None =>
      match relay_id e, relay_channel e with
      | Some rid, Some ch => Returns (Some (MkKey None (Some rid) (Some ch)))
      | Some _, None | None, Some _ => Panics
      | None, None => Returns None
      end
  end.

(** ** Lemmas *)

(** The key of an endpoint determines where it sends: the same direct address,
    or the same relay id and channel. *)
Lemma get_key_inj e1 e2 k :
  get_key e1 = Returns (Some k) -> get_key e2 = Returns (Some k) ->
  inet_socket_address e1 = inet_socket_address e2 /\
  (inet_socket_address e1 = None ->
   relay_id e1 = relay_id e2 /\ relay_channel e1 = relay_channel e2).
Proof. unfold get_key. intros H1 H2. split_matches. Qed.

(** A key names a direct address or a (relay id, channel) pair, never a mix. *)
Definition key_wf (k : NetworkEndpointKey) : Prop :=
  match k with
  | MkKey (Some _) None None | MkKey None (Some _) (Some _) => True
  | _ => False
  end.

Lemma get_key_wf e k : get_key e = Returns (Some k) -> key_wf k.
Proof. unfold get_key. intros H. split_matches. Qed.

Lemma get_key_direct a : get_key (new_direct a) = Returns (Some (MkKey (Some a) None None)).
Proof. done. Qed.

(** [NetworkEndpoint::get_key] panics exactly on an endpoint without a
    direct address that names only one of relay id and relay channel; it returns
    no key exactly on the endpoint that names nothing; any key it returns is
    either a direct address or a complete relay id and channel pair, and two
    endpoints with the same key send to the same place. *)
Theorem get_key_spec e :
  (get_key e = Panics <->
     inet_socket_address e = None /\
     ((exists r, relay_id e = Some r /\ relay_channel e = None) \/
      (exists c, relay_channel e = Some c /\ relay_id e = None))) /\
  (get_key e = Returns None <->
     inet_socket_address e = None /\ relay_id e = None /\ relay_channel e = None) /\
  (forall k, get_key e = Returns (Some k) ->
     key_wf k /\
     forall e', get_key e' = Returns (Some k) ->
       inet_socket_address e = inet_socket_address e' /\
       (inet_socket_address e = None ->
        relay_id e = relay_id e' /\ relay_channel e = relay_channel e')).
Proof.
  split_and!.
  - unfold get_key. destruct e as [[|] [|] ? [|]]; naive_solver.
  - unfold get_key. destruct e as [[|] [|] ? [|]]; naive_solver.
  - intros k Hk. split; [by eapply get_key_wf|]. intros e' He'. by eapply get_key_inj.
Qed.
