(* ===== verification/Frpt.v ===== *)
(** * The reliable packet transport over DTLS (FRPT)

    Models [src/bingle_core/src/packet_transport/mod.rs].  A block is framed as a
    DATA_SINGLE packet with a 16-bit transaction id and is re-sent on a schedule
    of delays until the peer's ACK_COMPLETE arrives; inbound packets are parsed,
    acknowledged and handed to the message handler once per transaction id of a
    DTLS session.

    State: [transport] is [DtlsReliablePacketTransport].  An [AckWaiter] is an
    [Arc<(Mutex<bool>, Condvar)>] shared between the sending thread and the
    dispatching one, so it is an index into the store [waiters].  What other
    threads do to the shared state while a send waits is a list of [event]s, each one an
    operation that nothing interrupts; [FrptThreads] takes the operations apart at their
    locks.
    The DTLS layer is a parameter: the result of each [dtls.send] is an argument,
    and every call to it is recorded as an [action].  Lock poisoning is not
    modelled. *)
From S2P Require Import Prelude NetAddr.

Local Open Scope Z_scope.

Definition FRPT_VERSION : Z := 1.
Definition PACKET_TYPE_DATA_SINGLE : Z := 1.
Definition PACKET_TYPE_ACK_COMPLETE : Z := 4.
Definition FRPT_HEADER_LEN : nat := 4.
(** In milliseconds. *)
Definition DEFAULT_RETRY_DELAYS : list Z := [2000; 4000; 8000].

Abbreviation SessionGeneration := Z.
Abbreviation AckKey := (NetworkEndpointKey * Z * Z)%type.

Inductive frpt_error : Type :=
| BlockTooLong (len cap mtu : nat)
| EndpointKeyUnavailable
| DtlsError (e : string)
| HandlerError (e : string)
| NoAckComplete (retries : nat) (tx_id : Z).

Abbreviation PacketTransportHandleMessage :=
  (NetworkEndpoint -> string -> list Z -> result (option (list Z)) string).

Record transport : Type := Transport {
  mtu : nat;
  retry_delays : list Z;
  handle_message : option PacketTransportHandleMessage;
  next_tx_id : Z;
  endpoint_sessions : gmap NetworkEndpointKey SessionGeneration;
  pending_acks : gmap AckKey nat;
  received_single_blocks : gset AckKey;
  waiters : gmap nat bool;
  next_waiter : nat
}.

Inductive ParsedPacket : Type :=
| DataSingle (tx_id : Z) (payload : list Z)
| AckComplete (tx_id : Z)
| UnsupportedFrpt.

(** Calls the transport makes: to the DTLS layer, and to the message handler
    (with the transaction the payload came in, for a reliable packet). *)
Inductive action : Type :=
| DtlsSend (to : NetworkEndpoint) (packet : list Z)
| Delivered (via : option AckKey) (from : NetworkEndpoint) (issuer : string) (payload : list Z)
| ForgetPeer (to : NetworkEndpoint).

Definition new (m : nat) : transport :=
  Transport m DEFAULT_RETRY_DELAYS None 0 ∅ ∅ ∅ ∅ 0.

Definition set_mtu (m : nat) (t : transport) : transport :=
  Transport m (retry_delays t) (handle_message t) (next_tx_id t) (endpoint_sessions t)
    (pending_acks t) (received_single_blocks t) (waiters t) (next_waiter t).

Definition set_retry_delays (ds : list Z) (t : transport) : transport :=
  Transport (mtu t) ds (handle_message t) (next_tx_id t) (endpoint_sessions t)
    (pending_acks t) (received_single_blocks t) (waiters t) (next_waiter t).

Definition set_handle_message (h : option PacketTransportHandleMessage) (t : transport)
  : transport :=
  Transport (mtu t) (retry_delays t) h (next_tx_id t) (endpoint_sessions t)
    (pending_acks t) (received_single_blocks t) (waiters t) (next_waiter t).

Definition set_next_tx_id (z : Z) (t : transport) : transport :=
  Transport (mtu t) (retry_delays t) (handle_message t) z (endpoint_sessions t)
    (pending_acks t) (received_single_blocks t) (waiters t) (next_waiter t).

Definition set_sessions (s : gmap NetworkEndpointKey SessionGeneration) (t : transport)
  : transport :=
  Transport (mtu t) (retry_delays t) (handle_message t) (next_tx_id t) s
    (pending_acks t) (received_single_blocks t) (waiters t) (next_waiter t).

Definition set_pending (p : gmap AckKey nat) (t : transport) : transport :=
  Transport (mtu t) (retry_delays t) (handle_message t) (next_tx_id t) (endpoint_sessions t)
    p (received_single_blocks t) (waiters t) (next_waiter t).

Definition set_received (r : gset AckKey) (t : transport) : transport :=
  Transport (mtu t) (retry_delays t) (handle_message t) (next_tx_id t) (endpoint_sessions t)
    (pending_acks t) r (waiters t) (next_waiter t).

Definition set_waiters (w : gmap nat bool) (n : nat) (t : transport) : transport :=
  Transport (mtu t) (retry_delays t) (handle_message t) (next_tx_id t) (endpoint_sessions t)
    (pending_acks t) (received_single_blocks t) w n.

(** ** Packet codec *)

Definition build_header (packet_type tx_id : Z) : list Z :=
  [ Z.lor (Z.shiftl (Z.land FRPT_VERSION 15) 4) (Z.land packet_type 15);
    0;
    wrap 8 (Z.shiftr tx_id 8);
    wrap 8 (Z.land tx_id 255) ].

Definition build_data_single_packet (tx_id : Z) (payload : list Z) : list Z :=
  build_header PACKET_TYPE_DATA_SINGLE tx_id ++ payload.

Definition parse_packet (packet : list Z) : option ParsedPacket :=
  match packet with
  | ver_type :: _ :: t1 :: t2 :: payload =>
      let version := Z.shiftr ver_type 4 in
      if negb (Z.eqb version FRPT_VERSION) then None
      else
        let packet_type := Z.land ver_type 15 in
        let tx_id := from_be_bytes [t1; t2] in
        if Z.eqb packet_type PACKET_TYPE_DATA_SINGLE then Some (DataSingle tx_id payload)
        else if Z.eqb packet_type PACKET_TYPE_ACK_COMPLETE
                && Nat.eqb (length packet) FRPT_HEADER_LEN
        then Some (AckComplete tx_id)
        else Some UnsupportedFrpt
  | _ => None
  end.

(** ** Session and acknowledgement state *)

Definition next_session_generation (current : SessionGeneration) : SessionGeneration :=
  let next := wrap 64 (current + 1) in
  if Z.eqb next 0 then 1 else next.

Definition endpoint_key (e : NetworkEndpoint)
  : outcome (result NetworkEndpointKey frpt_error) :=
  match get_key e with
  | Panics => Panics
  | Returns (Some k) => Returns (Ok k)
  | Returns None => Returns (Err EndpointKeyUnavailable)
  end.

Definition current_session_generation (k : NetworkEndpointKey) (t : transport)
  : SessionGeneration * transport :=
  match endpoint_sessions t !! k with
  | Some g => (g, t)
  | None => (0, set_sessions (<[k := 0]> (endpoint_sessions t)) t)
  end.

Definition handle_new_dtls_session (e : NetworkEndpoint) (t : transport)
  : outcome (transport * result unit frpt_error) :=
  match endpoint_key e with
  | Panics => Panics
  | Returns (Err err) => Returns (t, Err err)
  | Returns (Ok k) =>
      let g := next_session_generation (default 0 (endpoint_sessions t !! k)) in
      let t := set_sessions (<[k := g]> (endpoint_sessions t)) t in
      let t := set_pending (filter (fun p => p.1.1.1 <> k) (pending_acks t)) t in
      let t := set_received (filter (fun d => d.1.1 <> k) (received_single_blocks t)) t in
      Returns (t, Ok tt)
  end.

Definition take_next_tx_id (t : transport) : Z * transport :=
  (next_tx_id t, set_next_tx_id (wrap 16 (next_tx_id t + 1)) t).

Definition register_pending_ack (k : AckKey) (t : transport) : nat * transport :=
  let w := next_waiter t in
  (w, set_pending (<[k := w]> (pending_acks t)) (set_waiters (<[w := false]> (waiters t)) (S w) t)).

Definition clear_pending_ack (k : AckKey) (t : transport) : transport :=
  set_pending (delete k (pending_acks t)) t.

Definition complete_pending_ack (k : AckKey) (t : transport) : bool * transport :=
  match pending_acks t !! k with
  | Some w =>
      (true, set_waiters (<[w := true]> (waiters t)) (next_waiter t)
               (set_pending (delete k (pending_acks t)) t))
  | None => (false, t)
  end.

Definition ack_received (w : nat) (t : transport) : bool := default false (waiters t !! w).

Definition ack_packet (tx_id : Z) : list Z := build_header PACKET_TYPE_ACK_COMPLETE tx_id.

(** Hands a payload to the message handler, if one is installed. *)
Definition deliver (via : option AckKey) (from : NetworkEndpoint) (issuer : string)
  (payload : list Z) (t : transport) : list action * result (option (list Z)) frpt_error :=
  match handle_message t with
  | Some h => ([Delivered via from issuer payload], map_err HandlerError (h from issuer payload))
  | None => ([], Ok None)
  end.

(** An inbound packet, with no other thread in between: [FrptThreads.thread_step] has the
    sections under the locks, which this is the uninterrupted run of
    ([FrptThreads.dispatch_alone]). *)
Definition dispatch_inbound_packet (ack_send : result unit string)
  (from : NetworkEndpoint) (issuer : string) (packet : list Z) (t : transport)
  : outcome (transport * list action * result (option (list Z)) frpt_error) :=
  match endpoint_key from with
  | Panics => Panics
  | Returns (Err e) => Returns (t, [], Err e)
  | Returns (Ok from_key) =>
      let '(from_generation, t) := current_session_generation from_key t in
      match parse_packet packet with
      | None => let '(acts, r) := deliver None from issuer packet t in Returns (t, acts, r)
      | Some UnsupportedFrpt => Returns (t, [], Ok None)
      | Some (AckComplete tx_id) =>
          let '(_, t) := complete_pending_ack (from_key, from_generation, tx_id) t in
          Returns (t, [], Ok None)
      | Some (DataSingle tx_id payload) =>
          let ack := DtlsSend from (ack_packet tx_id) in
          match ack_send with
          | Err e => Returns (t, [ack], Err (DtlsError e))
          | Ok _ =>
              let k := (from_key, from_generation, tx_id) in
              let should_deliver := bool_decide (k ∉ received_single_blocks t) in
              let t := set_received ({[k]} ∪ received_single_blocks t) t in
              if should_deliver then
                let '(acts, r) := deliver (Some k) from issuer payload t in
                Returns (t, ack :: acts, r)
              else Returns (t, [ack], Ok None)
          end
      end
  end.

(** ** Sending *)

(** [send] up to and including the first transmission of the packet. *)
Definition begin_send (to : NetworkEndpoint) (block : list Z) (t : transport)
  : outcome (transport * result (AckKey * nat * list Z) frpt_error) :=
  if decide (mtu t < length block + FRPT_HEADER_LEN)%nat then
    Returns (t, Err (BlockTooLong (length block) (mtu t - FRPT_HEADER_LEN) (mtu t)))
  else
    match endpoint_key to with
    | Panics => Panics
    | Returns (Err e) => Returns (t, Err e)
    | Returns (Ok k) =>
        let '(generation, t) := current_session_generation k t in
        let '(tx_id, t) := take_next_tx_id t in
        let packet := build_data_single_packet tx_id block in
        let ack_key := (k, generation, tx_id) in
        let '(w, t) := register_pending_ack ack_key t in
        Returns (t, Ok (ack_key, w, packet))
    end.

(** What other threads do to the shared state. *)
Inductive event : Type :=
| EvInbound (ack_send : result unit string) (from : NetworkEndpoint) (issuer : string)
    (packet : list Z)
| EvNewSession (e : NetworkEndpoint)
| EvBeginSend (to : NetworkEndpoint) (block : list Z)
| EvClear (k : AckKey).

(** A panic of another thread leaves the state as it was: [get_key] is the only
    call that panics and it comes before any update. *)
Definition run_event (ev : event) (t : transport) : transport * list action :=
  match ev with
  | EvInbound r from issuer packet =>
      match dispatch_inbound_packet r from issuer packet t with
      | Returns (t', acts, _) => (t', acts)
      | Panics => (t, [])
      end
  | EvNewSession e =>
      match handle_new_dtls_session e t with
      | Returns (t', _) => (t', [])
      | Panics => (t, [])
      end
  | EvBeginSend to block =>
      match begin_send to block t with
      | Returns (t', Ok (_, _, packet)) => (t', [DtlsSend to packet])
      | Returns (t', Err _) => (t', [])
      | Panics => (t, [])
      end
  | EvClear k => (clear_pending_ack k t, [])
  end.

Fixpoint run_events (evs : list event) (t : transport) : transport * list action :=
  match evs with
  | [] => (t, [])
  | ev :: evs =>
      let '(t, acts) := run_event ev t in
      let '(t, acts') := run_events evs t in
      (t, acts ++ acts')
  end.

Section Send.
(** [resend i] is the result of the re-transmission after attempt [i]; [env i]
    is what other threads do while the sender waits in attempt [i]. *)
Context (resend : nat -> result unit string) (env : nat -> list event).

Fixpoint send_loop (to : NetworkEndpoint) (ack_key : AckKey) (w : nat) (packet : list Z)
  (total : nat) (attempt : nat) (delays : list Z) (t : transport)
  : transport * list action * result unit frpt_error :=
  match delays with
  | [] =>
      (clear_pending_ack ack_key t, [ForgetPeer to], Err (NoAckComplete total ack_key.2))
  | _ :: rest =>
      let t := (run_events (env attempt) t).1 in
      if ack_received w t then (t, [], Ok tt)
      else
        match rest with
        | [] => send_loop to ack_key w packet total (S attempt) rest t
        | _ :: _ =>
            match resend attempt with
            | Err e => (clear_pending_ack ack_key t, [DtlsSend to packet], Err (DtlsError e))
            | Ok _ =>
                let '(t, acts, r) := send_loop to ack_key w packet total (S attempt) rest t in
                (t, DtlsSend to packet :: acts, r)
            end
        end
  end.

Definition send (first : result unit string) (to : NetworkEndpoint) (block : list Z)
  (t : transport) : outcome (transport * list action * result unit frpt_error) :=
  match begin_send to block t with
  | Panics => Panics
  | Returns (t, Err e) => Returns (t, [], Err e)
  | Returns (t, Ok (ack_key, w, packet)) =>
      match first with
      | Err e => Returns (clear_pending_ack ack_key t, [DtlsSend to packet], Err (DtlsError e))
      | Ok _ =>
          let delays := retry_delays t in
          let '(t, acts, r) := send_loop to ack_key w packet (length delays) 0 delays t in
          Returns (t, DtlsSend to packet :: acts, r)
      end
  end.
End Send.

(** ** Codec lemmas *)

Lemma tx_id_bytes tx :
  in_width 16 tx ->
  from_be_bytes [wrap 8 (Z.shiftr tx 8); wrap 8 (Z.land tx 255)] = tx.
Proof.
  unfold in_width, wrap, from_be_bytes. cbn [be_value]. intros H.
  change 255 with (Z.ones 8). rewrite Z.land_ones, Z.shiftr_div_pow2 by lia.
  change (2 ^ 8) with 256. change (2 ^ 16) with 65536 in H.
  rewrite Z.mod_mod by lia. Z.div_mod_to_equations. lia.
Qed.

Lemma parse_build_data tx payload :
  in_width 16 tx ->
  parse_packet (build_data_single_packet tx payload) = Some (DataSingle tx payload).
Proof.
  intros H. unfold build_data_single_packet, build_header.
  cbn -[from_be_bytes Z.land Z.shiftr Z.shiftl Z.lor wrap]. rewrite tx_id_bytes by done. done.
Qed.

Lemma parse_build_ack tx :
  in_width 16 tx -> parse_packet (ack_packet tx) = Some (AckComplete tx).
Proof.
  intros H. unfold ack_packet, build_header.
  cbn -[from_be_bytes Z.land Z.shiftr Z.shiftl Z.lor wrap]. rewrite tx_id_bytes by done. done.
Qed.

Lemma build_header_bytes pt tx : bytes_ok (build_header pt tx).
Proof.
  unfold build_header. repeat apply Forall_cons_2; [..|constructor].
  - change (Z.shiftl (Z.land FRPT_VERSION 15) 4) with 16.
    apply in_width_lor; [lia|done|]. change 15 with (Z.ones 4).
    rewrite Z.land_ones by lia. unfold in_width.
    pose proof (Z.mod_pos_bound pt (2 ^ 4)). lia.
  - done.
  - by apply in_width_wrap.
  - by apply in_width_wrap.
Qed.

(** Packet round trip: for every 16-bit transaction id, parsing the framed
    data packet gives back the id and the payload byte for byte, parsing the
    acknowledgement gives back the id, and the two are never confused; frames
    made of bytes are made of bytes. *)
Theorem frpt_roundtrip tx payload :
  in_width 16 tx ->
  parse_packet (build_data_single_packet tx payload) = Some (DataSingle tx payload) /\
  parse_packet (ack_packet tx) = Some (AckComplete tx) /\
  length (build_data_single_packet tx payload) = (FRPT_HEADER_LEN + length payload)%nat /\
  (bytes_ok payload -> bytes_ok (build_data_single_packet tx payload)).
Proof.
  intros H. split_and!; [by apply parse_build_data|by apply parse_build_ack|done|].
  intros Hp. apply Forall_app. split; [apply build_header_bytes|done].
Qed.

(** ** At-most-once delivery *)

Definition delivered_key (a : action) : option AckKey :=
  match a with Delivered via _ _ _ => via | _ => None end.

Definition delivered_keys (acts : list action) : list AckKey := omap delivered_key acts.

Definition opens_session (ev : event) : bool :=
  match ev with EvNewSession _ => true | _ => false end.

Definition sessions_opened (evs : list event) : Z :=
  Z.of_nat (length (filter opens_session evs)).

(** Every transaction delivered so far belongs to a known session; those of the
    current session of their peer are in the receive cache. *)
Record once_inv (n : Z) (t : transport) (D : list AckKey) : Prop := {
  oi_nodup : NoDup D;
  oi_gen : forall k g, endpoint_sessions t !! k = Some g -> 0 <= g <= n;
  oi_cached : forall k g x, (k, g, x) ∈ D ->
    exists c, endpoint_sessions t !! k = Some c /\ g <= c /\
      (g = c -> (k, g, x) ∈ received_single_blocks t)
}.

Lemma session_generation_inv n t D k g t' :
  0 <= n -> once_inv n t D -> current_session_generation k t = (g, t') ->
  once_inv n t' D /\ endpoint_sessions t' !! k = Some g /\
  received_single_blocks t' = received_single_blocks t.
Proof.
  intros Hn [HD Hg Hc] E. unfold current_session_generation in E.
  destruct (endpoint_sessions t !! k) as [c|] eqn:Ek; simplify_eq; [done|].
  split_and!; simpl; [constructor|by simplify_map_eq|done]; simpl.
  - done.
  - intros k' g'. rewrite lookup_insert. case_decide; [intros; simplify_eq; lia|eauto].
  - intros k' g' x Hin. destruct (Hc k' g' x Hin) as (c & Hk & H2).
    exists c. rewrite lookup_insert_ne by congruence. done.
Qed.

Lemma next_session_generation_small g :
  0 <= g < 2 ^ 64 - 1 -> next_session_generation g = g + 1.
Proof.
  intros H. unfold next_session_generation. rewrite wrap_small by (unfold in_width; lia).
  destruct (Z.eqb_spec (g + 1) 0); lia.
Qed.

Lemma new_session_inv n t D e t' r :
  0 <= n < 2 ^ 64 - 1 -> once_inv n t D ->
  handle_new_dtls_session e t = Returns (t', r) -> once_inv (n + 1) t' D.
Proof.
  intros Hn [HD Hg Hc] E. unfold handle_new_dtls_session in E.
  destruct (endpoint_key e) as [[k|]|]; simplify_eq; cycle 1.
  { constructor; [done| |done]. intros k g Hk. specialize (Hg _ _ Hk). lia. }
  assert (B : 0 <= default 0 (endpoint_sessions t !! k) <= n).
  { destruct (endpoint_sessions t !! k) eqn:Ek; simpl; [eauto|lia]. }
  rewrite next_session_generation_small by lia.
  constructor; simpl; [done|..].
  - intros k' g'. rewrite lookup_insert. case_decide; [intros; simplify_eq; lia|].
    intros Hk'. specialize (Hg _ _ Hk'). lia.
  - intros k' g' x Hin. destruct (Hc k' g' x Hin) as (c & Hk & Hle & Hcur).
    destruct (decide (k = k')) as [->|Hne].
    + exists (c + 1). rewrite Hk. simpl. rewrite lookup_insert_eq. split; [done|]. lia.
    + exists c. rewrite lookup_insert_ne by done. split_and!; [done..|].
      intros ->. apply elem_of_filter. split; [done|]. by apply Hcur.
Qed.

Lemma dispatch_inv n t D r from issuer packet t' acts res :
  0 <= n -> once_inv n t D ->
  dispatch_inbound_packet r from issuer packet t = Returns (t', acts, res) ->
  once_inv n t' (D ++ delivered_keys acts).
Proof.
  intros Hn HI E. unfold dispatch_inbound_packet in E.
  destruct (endpoint_key from) as [[k|]|] eqn:Ek; simplify_eq; cycle 1.
  { by rewrite app_nil_r. }
  destruct (current_session_generation k t) as [g t1] eqn:Eg.
  destruct (session_generation_inv _ _ _ _ _ _ Hn HI Eg) as ([HD Hg Hc] & Hk & Hr).
  destruct (parse_packet packet) as [[tx payload|tx|]|]; unfold deliver in E; simpl in E.
  - destruct r as [[]|e]; simplify_eq; [|simpl; by rewrite app_nil_r].
    destruct (bool_decide_reflect ((k, g, tx) ∉ received_single_blocks t1)) as [Hf|Hf].
    + assert (Hnew : (k, g, tx) ∉ D).
      { intros Hin. destruct (Hc _ _ _ Hin) as (c & Hk' & _ & Hcur).
        simplify_eq. by apply Hf, Hcur. }
      assert (HI' : once_inv n (set_received ({[(k, g, tx)]} ∪ received_single_blocks t1) t1)
        (D ++ [(k, g, tx)])).
      { constructor; simpl; [|done|].
        - apply NoDup_app. split_and!; [done| |apply NoDup_singleton].
          intros ? ? ->%list_elem_of_singleton. done.
        - intros k' g' x [Hin| [=-> -> ->]%list_elem_of_singleton]%elem_of_app.
          + destruct (Hc _ _ _ Hin) as (c & ? & ? & ?). exists c. split_and!; [done..|].
            intros. apply elem_of_union_r. auto.
          + exists g. split_and!; [done..|]. intros _. set_solver. }
      assert (HI2 : once_inv n (set_received ({[(k, g, tx)]} ∪ received_single_blocks t1) t1) D).
      { destruct HI' as [? ? Hc']. constructor; [done..|].
        intros. apply Hc', elem_of_app. by left. }
      simpl in E. destruct (handle_message t1); simplify_eq; simpl; [done|].
      by rewrite app_nil_r.
    + simplify_eq. simpl. rewrite app_nil_r. constructor; simpl; [done..|].
      intros k' g' x Hin. destruct (Hc _ _ _ Hin) as (c & ? & ? & ?).
      exists c. split_and!; [done..|]. set_solver.
  - unfold complete_pending_ack in E.
    destruct (pending_acks t1 !! (k, g, tx)); simplify_eq; simpl; by rewrite app_nil_r.
  - simplify_eq. simpl. by rewrite app_nil_r.
  - destruct (handle_message t1); simplify_eq; simpl; by rewrite app_nil_r.
Qed.

Lemma begin_send_inv n t D to block t' r :
  0 <= n -> once_inv n t D -> begin_send to block t = Returns (t', r) -> once_inv n t' D.
Proof.
  intros Hn HI E. unfold begin_send in E. case_decide; simplify_eq; [done|].
  destruct (endpoint_key to) as [[k|]|]; simplify_eq; [|done].
  destruct (current_session_generation k t) as [g t1] eqn:Eg.
  destruct (session_generation_inv _ _ _ _ _ _ Hn HI Eg) as ([HD Hg Hc] & Hk & Hr).
  simplify_eq/=. done.
Qed.

Lemma run_event_once n t D ev t' acts :
  0 <= n < 2 ^ 64 - 1 -> once_inv n t D -> run_event ev t = (t', acts) ->
  once_inv (n + if opens_session ev then 1 else 0) t' (D ++ delivered_keys acts).
Proof.
  intros Hn HI E. destruct ev as [r from iss packet|e|to block|k]; simpl in E |- *;
    rewrite ?Z.add_0_r.
  - destruct (dispatch_inbound_packet r from iss packet t) as [[[t1 acts1] res]|] eqn:Ed;
      simplify_eq; simpl; [|by rewrite app_nil_r].
    eapply dispatch_inv; [lia|done..].
  - destruct (handle_new_dtls_session e t) as [[t1 r]|] eqn:Ed; simplify_eq; simpl;
      rewrite app_nil_r; [by eapply new_session_inv|].
    destruct HI as [? Hg ?]. constructor; [done| |done].
    intros k g Hk. specialize (Hg _ _ Hk). lia.
  - destruct (begin_send to block t) as [[t1 [[[? ?] ?]|]]|] eqn:Ed; simplify_eq; simpl;
      rewrite app_nil_r; [by eapply begin_send_inv; [lia|..]|by eapply begin_send_inv; [lia|..]|done].
  - simplify_eq. simpl. rewrite app_nil_r. destruct HI. by constructor.
Qed.

Lemma run_events_once n t D evs t' acts :
  0 <= n -> n + sessions_opened evs < 2 ^ 64 - 1 -> once_inv n t D ->
  run_events evs t = (t', acts) ->
  once_inv (n + sessions_opened evs) t' (D ++ delivered_keys acts).
Proof.
  revert n t D acts. induction evs as [|ev evs IH]; intros n t D acts Hn Hb HI E; simpl in E.
  - simplify_eq. unfold sessions_opened. simpl. by rewrite app_nil_r, Z.add_0_r.
  - destruct (run_event ev t) as [t1 acts1] eqn:E1.
    destruct (run_events evs t1) as [t2 acts2] eqn:E2. simplify_eq.
    assert (S1 : sessions_opened (ev :: evs) =
      (if opens_session ev then 1 else 0) + sessions_opened evs).
    { unfold sessions_opened. rewrite filter_cons.
      case_decide; destruct ev; simpl in *; try done; lia. }
    assert (0 <= sessions_opened evs) by (unfold sessions_opened; lia).
    unfold delivered_keys. rewrite omap_app, app_assoc.
    rewrite S1, Z.add_assoc. eapply (IH _ t1); [destruct (opens_session ev); lia..| |done].
    eapply run_event_once; [destruct (opens_session ev); lia|done|done].
Qed.

(** At-most-once delivery, of operations that run one after the other ([FrptThreads] has the
    interleavings of their sections): from a new transport, whatever packets (with
    duplicates, in any order, from any peers), new sessions and concurrent sends
    it sees, no transaction of a peer's session is handed to the message handler
    twice, as long as fewer than [2^64 - 1] sessions have been opened (the
    session generation then wraps). *)
Theorem frpt_at_most_once m h evs t' acts :
  sessions_opened evs < 2 ^ 64 - 1 ->
  run_events evs (set_handle_message h (new m)) = (t', acts) ->
  NoDup (delivered_keys acts).
Proof.
  intros Hb E. eapply (run_events_once 0 _ []) in E; [by destruct E|lia|lia|].
  constructor; simpl; [constructor|set_solver|set_solver].
Qed.

(** ** Acknowledgement of inbound data *)

(** Every well-framed data packet from a peer with a usable endpoint is
    acknowledged with its own transaction id, whether or not it is a duplicate;
    a failed acknowledgement is reported and leaves the receive cache as it was,
    so the peer's retry is delivered; otherwise the payload is handed over
    exactly when the transaction is new to the session, and is recorded. *)
Theorem frpt_data_acked r from iss tx payload k t :
  get_key from = Returns (Some k) -> in_width 16 tx ->
  exists g t1,
  current_session_generation k t = (g, t1) /\
  let new := bool_decide ((k, g, tx) ∉ received_single_blocks t) in
  exists t' acts res,
  dispatch_inbound_packet r from iss (build_data_single_packet tx payload) t =
    Returns (t', DtlsSend from (ack_packet tx) :: acts, res) /\
  match r with
  | Err e => acts = [] /\ res = Err (DtlsError e) /\
      received_single_blocks t' = received_single_blocks t
  | Ok _ =>
      received_single_blocks t' = {[(k, g, tx)]} ∪ received_single_blocks t /\
      acts = (if new && bool_decide (is_Some (handle_message t))
              then [Delivered (Some (k, g, tx)) from iss payload] else [])
  end.
Proof.
  intros Hk Htx. destruct (current_session_generation k t) as [g t1] eqn:Eg.
  exists g, t1. split; [done|]. intros new.
  unfold dispatch_inbound_packet, endpoint_key. rewrite Hk, Eg, parse_build_data by done.
  assert (received_single_blocks t1 = received_single_blocks t /\
          handle_message t1 = handle_message t) as [Hr Hh].
  { unfold current_session_generation in Eg. by split_matches. }
  destruct r as [[]|e].
  - unfold deliver. simpl. rewrite Hr, Hh. fold new.
    destruct new; destruct (handle_message t) eqn:Eh; simpl; eauto 10.
  - eauto 10.
Qed.

(** ** Sending: the acknowledgement protocol *)

Definition acks_for (k : AckKey) (ev : event) : Prop :=
  exists r from iss packet, ev = EvInbound r from iss packet /\
    get_key from = Returns (Some k.1.1) /\ parse_packet packet = Some (AckComplete k.2).

(** All waiters in use are allocated. *)
Definition heap_wf (t : transport) : Prop :=
  forall k w, pending_acks t !! k = Some w -> (w < next_waiter t)%nat.

(** Waiter [w] is registered for transaction [k] only. *)
Definition waiter_for (k : AckKey) (w : nat) (t : transport) : Prop :=
  (w < next_waiter t)%nat /\ forall k', pending_acks t !! k' = Some w -> k' = k.

Lemma session_generation_frame k t g t' :
  current_session_generation k t = (g, t') ->
  pending_acks t' = pending_acks t /\ waiters t' = waiters t /\
  next_waiter t' = next_waiter t /\ next_tx_id t' = next_tx_id t /\
  retry_delays t' = retry_delays t /\ mtu t' = mtu t.
Proof. unfold current_session_generation. intros. by split_matches. Qed.

(** The changes an event can make to the acknowledgement state: it completes one
    transaction, registers a fresh waiter, forgets transactions, or none of these. *)
Variant ack_step (ev : event) (t t' : transport) : Prop :=
| as_complete k w :
    acks_for k ev -> pending_acks t !! k = Some w ->
    pending_acks t' = delete k (pending_acks t) ->
    waiters t' = <[w := true]> (waiters t) -> next_waiter t' = next_waiter t ->
    ack_step ev t t'
| as_register k :
    pending_acks t' = <[k := next_waiter t]> (pending_acks t) ->
    waiters t' = <[next_waiter t := false]> (waiters t) -> next_waiter t' = S (next_waiter t) ->
    ack_step ev t t'
| as_forget :
    pending_acks t' ⊆ pending_acks t ->
    waiters t' = waiters t -> next_waiter t' = next_waiter t ->
    ack_step ev t t'.

Lemma begin_send_ack_step ev to block t t' r :
  begin_send to block t = Returns (t', r) -> ack_step ev t t'.
Proof.
  unfold begin_send. intros E. case_decide; simplify_eq; [by apply as_forget|].
  destruct (endpoint_key to) as [[k|]|]; simplify_eq; [|by apply as_forget].
  destruct (current_session_generation k t) as [g t1] eqn:Eg.
  apply session_generation_frame in Eg as (Hp & Hw & Hn & Htx & _).
  simplify_eq/=. eapply as_register; simpl; by rewrite ?Hp, ?Hw, ?Hn.
Qed.

Lemma run_event_ack_step ev t t' acts : run_event ev t = (t', acts) -> ack_step ev t t'.
Proof.
  destruct ev as [r from iss packet|e|to block|k]; simpl; intros E.
  - unfold dispatch_inbound_packet, endpoint_key in E.
    destruct (get_key from) as [[k|]|] eqn:Ek; simplify_eq; [|by apply as_forget..].
    destruct (current_session_generation k t) as [g t1] eqn:Eg.
    apply session_generation_frame in Eg as (Hp & Hw & Hn & _).
    destruct (parse_packet packet) as [[tx payload|tx|]|] eqn:Epp.
    + assert (G : pending_acks t' = pending_acks t1 /\ waiters t' = waiters t1 /\
                  next_waiter t' = next_waiter t1).
      { unfold deliver in E. by split_matches. }
      destruct G as (G1 & G2 & G3). apply as_forget; rewrite ?G1, ?G2, ?G3, ?Hp; done.
    + unfold complete_pending_ack in E. destruct (pending_acks t1 !! (k, g, tx)) as [w|] eqn:Ew;
        simplify_eq; [|apply as_forget; by rewrite ?Hp].
      eapply (as_complete _ _ _ (k, g, tx) w); simpl; rewrite ?Hp, ?Hw, ?Hn in *; try done.
      unfold acks_for. naive_solver.
    + simplify_eq. apply as_forget; by rewrite ?Hp.
    + unfold deliver in E. apply as_forget; split_matches; by rewrite ?Hp.
  - destruct (handle_new_dtls_session e t) as [[t1 r]|] eqn:Ed; simplify_eq; [|by apply as_forget].
    unfold handle_new_dtls_session in Ed.
    destruct (endpoint_key e) as [[k|]|]; simplify_eq; [|by apply as_forget].
    apply as_forget; simpl; [apply map_filter_subseteq|done..].
  - destruct (begin_send to block t) as [[t1 [[[? ?] ?]|]]|] eqn:Ed; simplify_eq;
      [by eapply begin_send_ack_step..|by apply as_forget].
  - simplify_eq. apply as_forget; simpl; [apply delete_subseteq|done..].
Qed.

Lemma ack_step_heap_wf ev t t' : ack_step ev t t' -> heap_wf t -> heap_wf t'.
Proof.
  unfold heap_wf. intros [k w _ Hk Hp Hw Hn|k Hp Hw Hn|Hp Hw Hn] H k' w'; rewrite ?Hp, ?Hn.
  - intros [_ Hd]%lookup_delete_Some. eauto.
  - rewrite lookup_insert. case_decide; [intros; simplify_eq; lia|]. intros Hk'.
    apply H in Hk'. lia.
  - intros Hk'. eapply lookup_weaken in Hk'; eauto.
Qed.

Lemma ack_step_waiter_for k w ev t t' :
  ack_step ev t t' -> waiter_for k w t ->
  waiter_for k w t' /\
  (ack_received w t' = true -> ack_received w t = true \/ acks_for k ev) /\
  (ack_received w t = true -> ack_received w t' = true).
Proof.
  unfold waiter_for, ack_received.
  intros [k' w' Ha Hk Hp Hw Hn|k' Hp Hw Hn|Hp Hw Hn] [Hlt Hu]; rewrite ?Hw, ?Hn.
  - split_and!; [done| |..].
    + intros k2. rewrite Hp. intros [_ ?]%lookup_delete_Some. eauto.
    + rewrite lookup_insert. case_decide; [subst; intros _|by left].
      right. by rewrite <- (Hu _ Hk).
    + rewrite lookup_insert. by case_decide.
  - split_and!; [lia| |..].
    + intros k2. rewrite Hp, lookup_insert. case_decide; [intros; simplify_eq; lia|eauto].
    + rewrite lookup_insert_ne by lia. by left.
    + rewrite lookup_insert_ne by lia. done.
  - split_and!; [done| |by left|done]. intros k2 Hk2. eapply Hu, lookup_weaken; eauto.
Qed.

Lemma run_events_waiter_for k w evs t :
  waiter_for k w t ->
  waiter_for k w (run_events evs t).1 /\
  (ack_received w (run_events evs t).1 = true ->
   ack_received w t = true \/ exists ev, ev ∈ evs /\ acks_for k ev).
Proof.
  revert t. induction evs as [|ev evs IH]; intros t Hw; simpl; [auto|].
  destruct (run_event ev t) as [t1 a1] eqn:E1. apply run_event_ack_step in E1.
  destruct (ack_step_waiter_for k w ev t t1 E1 Hw) as (Hw1 & H1 & _).
  destruct (IH t1 Hw1) as [Hw2 H2]. destruct (run_events evs t1); simpl in *.
  split; [done|]. intros Hr. destruct (H2 Hr) as [H3|(ev' & ? & ?)]; [|set_solver].
  destruct (H1 H3); [by left|]. right. exists ev. set_solver.
Qed.

Lemma run_events_heap_wf evs t : heap_wf t -> heap_wf (run_events evs t).1.
Proof.
  revert t. induction evs as [|ev evs IH]; intros t Hw; simpl; [done|].
  destruct (run_event ev t) as [t1 a1] eqn:E1. apply run_event_ack_step in E1.
  specialize (IH t1 (ack_step_heap_wf _ _ _ E1 Hw)). by destruct (run_events evs t1).
Qed.

Lemma begin_send_spec to block t t' k w packet :
  heap_wf t -> begin_send to block t = Returns (t', Ok (k, w, packet)) ->
  get_key to = Returns (Some k.1.1) /\ k.2 = next_tx_id t /\
  packet = build_data_single_packet (next_tx_id t) block /\
  retry_delays t' = retry_delays t /\ next_tx_id t' = wrap 16 (next_tx_id t + 1) /\
  endpoint_sessions t' !! k.1.1 = Some k.1.2 /\
  pending_acks t' !! k = Some w /\ waiter_for k w t' /\ ack_received w t' = false.
Proof.
  unfold begin_send, endpoint_key. intros Hwf E. case_decide; simplify_eq.
  destruct (get_key to) as [[ek|]|] eqn:Ek; simplify_eq.
  destruct (current_session_generation ek t) as [g t1] eqn:Eg. simplify_eq/=.
  assert (endpoint_sessions t1 !! ek = Some g) as Hs.
  { unfold current_session_generation in Eg.
    destruct (endpoint_sessions t !! ek) eqn:E; simplify_eq/=; by simplify_map_eq. }
  apply session_generation_frame in Eg as (Hp & Hw & Hn & Htx & Hd & _).
  rewrite Htx. split_and!; try done; simpl; [by simplify_map_eq|..].
  - split; simpl; [lia|]. intros k'. rewrite lookup_insert. case_decide; [done|].
    rewrite Hp, Hn. intros Hk'%Hwf. lia.
  - unfold ack_received. simpl. by simplify_map_eq.
Qed.

Lemma heap_wf_new m : heap_wf (new m).
Proof. intros k w. simpl. by rewrite lookup_empty. Qed.

Lemma begin_send_generation to block t t' k w packet :
  begin_send to block t = Returns (t', Ok (k, w, packet)) ->
  (current_session_generation k.1.1 t).1 = k.1.2.
Proof.
  unfold begin_send. intros E. case_decide; simplify_eq.
  destruct (endpoint_key to) as [[ek|]|]; simplify_eq.
  destruct (current_session_generation ek t) as [g t1] eqn:Eg. simplify_eq/=. by rewrite Eg.
Qed.

Section SendLemmas.
Context (resend : nat -> result unit string) (env : nat -> list event).

Lemma send_loop_ok_acked to k w packet total attempt delays t t' acts :
  waiter_for k w t -> ack_received w t = false ->
  send_loop resend env to k w packet total attempt delays t = (t', acts, Ok tt) ->
  exists i ev, (attempt <= i < attempt + length delays)%nat /\ ev ∈ env i /\ acks_for k ev.
Proof.
  revert attempt t acts. induction delays as [|d delays IH]; intros n t acts Hw Hr E;
    simpl in E; [done|].
  destruct (run_events_waiter_for k w (env n) t Hw) as [Hw1 H1].
  set (t1 := (run_events (env n) t).1) in *.
  destruct (ack_received w t1) eqn:Er.
  - destruct (H1 eq_refl) as [|(ev & ? & ?)]; [congruence|]. exists n, ev. simpl. split; [lia|done].
  - assert (exists acts', send_loop resend env to k w packet total (S n) delays t1 =
      (t', acts', Ok tt)) as [acts' E'].
    { destruct delays; [by eauto|]. destruct (resend n); [|done].
      destruct (send_loop _ _ _ _ _ _ _ _ _ _) as [[t2 a2] r2]. simplify_eq. eauto. }
    destruct (IH _ _ _ Hw1 Er E') as (i & ev & ? & ?). exists i, ev. simpl. split; [lia|done].
Qed.

(** What a send hands to the DTLS layer after the first transmission, and what it
    leaves behind. *)
Lemma send_loop_shape to k w packet total attempt delays t t' acts r :
  send_loop resend env to k w packet total attempt delays t = (t', acts, r) ->
  exists n, (n <= length delays - 1)%nat /\
  match r with
  | Ok _ => acts = replicate n (DtlsSend to packet) /\ ack_received w t' = true
  | Err e =>
      pending_acks t' !! k = None /\
      ((e = NoAckComplete total k.2 /\ n = (length delays - 1)%nat /\
        acts = replicate n (DtlsSend to packet) ++ [ForgetPeer to]) \/
       (exists s, e = DtlsError s /\ acts = replicate n (DtlsSend to packet)))
  end.
Proof.
  revert attempt t acts. induction delays as [|d delays IH]; intros n t acts E; simpl in E.
  - simplify_eq. exists 0%nat. split; [done|]. simpl. split; [by simplify_map_eq|]. by left.
  - destruct (ack_received w _) eqn:Er in E; [simplify_eq; exists 0%nat; simpl; split; [lia|done]|].
    destruct delays as [|d2 delays].
    + destruct (IH _ _ _ E) as (m & Hm & H). simpl in Hm. exists m. split; [simpl; lia|].
      simpl in *. done.
    + destruct (resend n) as [|s] eqn:Ers.
      * destruct (send_loop _ _ _ _ _ _ _ _ _ _) as [[t2 a2] r2] eqn:E2. simplify_eq.
        destruct (IH _ _ _ E2) as (m & Hm & H). exists (S m). simpl in Hm |- *.
        split; [lia|]. destruct r as [[]|e]; [naive_solver|].
        destruct H as [Hp [(-> & -> & ->)|(s & -> & ->)]]; split; try done.
        -- left. split_and!; [done|simpl; lia|done].
        -- right. eauto.
      * simplify_eq. exists 1%nat. simpl. split; [lia|]. split; [by simplify_map_eq|].
        right. eauto.
Qed.
End SendLemmas.

(** (C18) Acknowledgement soundness: [send] reports success only if, during one of
    its waits, an ACK_COMPLETE packet carrying its own transaction id came in from
    an endpoint with the recipient's key. *)
Theorem frpt_send_ok_acked resend env first to block m h past t' acts :
  let t := (run_events past (set_handle_message h (new m))).1 in
  send resend env first to block t = Returns (t', acts, Ok tt) ->
  exists k i ev, get_key to = Returns (Some k) /\
    (i < length (retry_delays t))%nat /\ ev ∈ env i /\
    exists g, acks_for (k, g, next_tx_id t) ev.
Proof.
  intros t E. assert (Hwf : heap_wf t).
  { apply run_events_heap_wf. intros k w. simpl. by rewrite lookup_empty. }
  unfold send in E.
  destruct (begin_send to block t) as [[t1 [[[k w] packet]|e]]|] eqn:Eb; simplify_eq.
  destruct (begin_send_spec _ _ _ _ _ _ _ Hwf Eb) as (Hk & Htx & -> & Hd & _ & _ & _ & Hw & Hr).
  destruct first as [[]|]; simplify_eq.
  destruct (send_loop _ _ _ _ _ _ _ _ _ _) as [[t2 a2] r2] eqn:El. simplify_eq.
  destruct (send_loop_ok_acked _ _ _ _ _ _ _ _ _ _ _ _ Hw Hr El) as (i & ev & Hi & Hin & Ha).
  exists k.1.1, i, ev. split_and!; [done|rewrite <- Hd; lia|done|].
  exists k.1.2. rewrite <- Htx. by destruct k as [[? ?] ?].
Qed.

(** Retransmission bound and clean-up: a send hands the DTLS layer the same
    packet at most once per scheduled delay (at least once); only when the whole
    schedule passed without an acknowledgement does it drop the DTLS session, and
    then exactly once and last; and a failed send leaves no pending
    acknowledgement of its transaction behind. *)
Theorem frpt_send_bounded resend env first to block t t' acts r :
  heap_wf t ->
  send resend env first to block t = Returns (t', acts, r) ->
  let packet := build_data_single_packet (next_tx_id t) block in
  exists n tail, acts = replicate n (DtlsSend to packet) ++ tail /\
    (n <= max 1 (length (retry_delays t)))%nat /\
    match r with
    | Ok _ => (0 < n)%nat /\ tail = []
    | Err (NoAckComplete retries tx) =>
        retries = length (retry_delays t) /\ tx = next_tx_id t /\
        n = max 1 retries /\ tail = [ForgetPeer to] /\
        exists k, get_key to = Returns (Some k) /\
          pending_acks t' !! (k, (current_session_generation k t).1, tx) = None
    | Err (DtlsError _) => (0 < n)%nat /\ tail = [] /\
        exists k, get_key to = Returns (Some k) /\
          pending_acks t' !! (k, (current_session_generation k t).1, next_tx_id t) = None
    | Err _ => n = 0%nat /\ tail = [] /\ pending_acks t' = pending_acks t
    end.
Proof.
  intros Hwf E packet. unfold send in E.
  destruct (begin_send to block t) as [[t1 [[[k w] pk]|e]]|] eqn:Eb; simplify_eq.
  - pose proof (begin_send_generation _ _ _ _ _ _ _ Eb) as Hg.
    destruct (begin_send_spec _ _ _ _ _ _ _ Hwf Eb) as (Hk & Htx & -> & Hd & _).
    destruct first as [[]|e]; simplify_eq.
    + destruct (send_loop _ _ _ _ _ _ _ _ _ _) as [[t2 a2] r2] eqn:El. simplify_eq.
      destruct (send_loop_shape _ _ _ _ _ _ _ _ _ _ _ _ _ El) as (n & Hn & H).
      rewrite Hd in *. destruct r as [[]|e].
      * destruct H as [-> _]. exists (S n), []. rewrite app_nil_r. split_and!; [done|lia|lia|done].
      * destruct H as [Hp [(-> & -> & ->)|(s & -> & ->)]].
        -- exists (S (length (retry_delays t) - 1)), [ForgetPeer to].
           split_and!; [done|lia|done|done|simpl; lia|done|].
           exists k.1.1. split; [done|]. rewrite Hg. by destruct k as [[? ?] ?].
        -- exists (S n), []. rewrite app_nil_r. split_and!; [done|lia|lia|done|].
           exists k.1.1. split; [done|]. rewrite Hg, <- Htx. by destruct k as [[? ?] ?].
    + exists 1%nat, []. split_and!; [done|lia|lia|done|].
      exists k.1.1. split; [done|]. simpl. rewrite Hg, <- Htx.
      destruct k as [[? ?] ?]. by simplify_map_eq.
  - exists 0%nat, []. split_and!; [done|lia|].
    unfold begin_send, endpoint_key in Eb. case_decide; simplify_eq; [done|].
    destruct (get_key to) as [[?|]|]; simplify_eq; [|done].
    destruct (current_session_generation _ _); simplify_eq.
Qed.

(** ** Progress *)

(** Other threads leave transaction [k] alone: they neither open a new session
    with its peer nor withdraw its pending acknowledgement. *)
Definition leaves_alone (k : AckKey) (ev : event) : Prop :=
  match ev with
  | EvNewSession e => get_key e <> Returns (Some k.1.1)
  | EvClear k' => k' <> k
  | _ => True
  end.

Definition begins_send (ev : event) : bool :=
  match ev with EvBeginSend _ _ => true | _ => false end.

Definition sends_begun (evs : list event) : Z := Z.of_nat (length (filter begins_send evs)).

(** Transaction [k] is pending on waiter [w] or acknowledged, its session is
    current, and at most [j] later transaction ids were drawn. *)
Definition live (k : AckKey) (w : nat) (j : Z) (t : transport) : Prop :=
  endpoint_sessions t !! k.1.1 = Some k.1.2 /\ waiter_for k w t /\
  (pending_acks t !! k = Some w \/ ack_received w t = true) /\
  exists j', 0 <= j' <= j /\ next_tx_id t = wrap 16 (k.2 + 1 + j').

Lemma sends_begun_cons ev evs :
  sends_begun (ev :: evs) = (if begins_send ev then 1 else 0) + sends_begun evs.
Proof.
  unfold sends_begun. rewrite filter_cons. case_decide; destruct ev; simpl in *; try done; lia.
Qed.

Lemma fresh_tx_id x j j' :
  in_width 16 x -> 0 <= j' <= j -> j < 65535 -> wrap 16 (x + 1 + j') <> x.
Proof.
  unfold in_width, wrap. change (2 ^ 16) with 65536. intros. Z.div_mod_to_equations. lia.
Qed.

Lemma session_generation_live k w j t ek g t' :
  live k w j t -> current_session_generation ek t = (g, t') ->
  live k w j t' /\ (ek = k.1.1 -> g = k.1.2).
Proof.
  intros (Hs & Hw & Hp & Hj) E. unfold current_session_generation in E.
  destruct (endpoint_sessions t !! ek) as [g'|] eqn:Ek; simplify_eq.
  - split; [done|]. intros ->. congruence.
  - split; [|intros ->; congruence]. split_and!; try done. simpl.
    rewrite lookup_insert_ne; [done|]. intros ->. congruence.
Qed.

Lemma run_event_live k w j ev t t' acts :
  in_width 16 k.2 -> live k w j t -> leaves_alone k ev -> 0 <= j ->
  j + (if begins_send ev then 1 else 0) < 65535 ->
  run_event ev t = (t', acts) ->
  live k w (j + if begins_send ev then 1 else 0) t' /\
  (acks_for k ev -> ack_received w t' = true).
Proof.
  intros Hx HL Hq Hj0 Hj E.
  pose proof (run_event_ack_step _ _ _ _ E) as Hstep.
  destruct (ack_step_waiter_for k w ev t t' Hstep) as (Hw' & _ & Hmono); [by destruct HL as (?&?&?)|].
  destruct ev as [r from iss packet|e|to block|k0]; cbn [begins_send] in *; rewrite ?Z.add_0_r in *.
  - simpl in E. unfold dispatch_inbound_packet, endpoint_key in E.
    destruct (get_key from) as [[ek|]|] eqn:Ek; simplify_eq;
      [|split; [done|]; intros (?&?&?&?&?&?&?); simplify_eq; congruence..].
    destruct (current_session_generation ek t) as [g t1] eqn:Eg.
    destruct (session_generation_live _ _ _ _ _ _ _ HL Eg) as [(Hs & Hw & Hp & Hj1) Hg].
    apply session_generation_frame in Eg as (Ep & Ew & En & Et & _).
    destruct (parse_packet packet) as [[tx payload|tx|]|] eqn:Epp.
    + assert (G : endpoint_sessions t' = endpoint_sessions t1 /\ next_tx_id t' = next_tx_id t1 /\
        pending_acks t' = pending_acks t1 /\ waiters t' = waiters t1).
      { unfold deliver in E. by split_matches. }
      destruct G as (G1 & G2 & G3 & G4).
      split; [|intros (?&?&?&?&?&?&?); simplify_eq].
      unfold live, ack_received in *. by rewrite G1, G2, G3, G4.
    + unfold complete_pending_ack in E.
      destruct (decide ((ek, g, tx) = k)) as [<-|Hne].
      * destruct Hp as [Hp|Hr].
        -- rewrite Hp in E. simplify_eq. split; [|intros _; unfold ack_received; simpl; by simplify_map_eq].
           split_and!; try done. right. unfold ack_received. simpl. by simplify_map_eq.
        -- split.
           ++ split_and!; try done; destruct (pending_acks t1 !! _); simplify_eq; try done;
              right; apply Hmono; unfold ack_received in *; by rewrite <- Ew.
           ++ intros _. apply Hmono. unfold ack_received in *. by rewrite <- Ew.
      * split.
        -- destruct (pending_acks t1 !! (ek, g, tx)) eqn:Ew2; simplify_eq; [|by split_and!].
           split_and!; try done. destruct Hp as [Hp|Hp]; [left|right].
           ++ simpl. by rewrite lookup_delete_ne.
           ++ apply Hmono. unfold ack_received in *. by rewrite <- Ew.
        -- intros (?&?&?&?&?&Hk1&Hk2). simplify_eq. exfalso. apply Hne.
           rewrite Hg by congruence. destruct k as [[? ?] ?]. simpl in *. congruence.
    + simplify_eq. split; [by split_and!|]. intros (?&?&?&?&?&?&?); simplify_eq.
    + assert (t' = t1) as -> by (unfold deliver in E; by split_matches).
      split; [by split_and!|]. intros (?&?&?&?&?&?&?); simplify_eq.
  - split; [|intros (?&?&?&?&?&?&?); simplify_eq]. simpl in E.
    unfold handle_new_dtls_session, endpoint_key in E.
    destruct (get_key e) as [[ek|]|] eqn:Ek; simplify_eq; [|done..]. simpl in Hq.
    destruct HL as (Hs & Hw & Hp & Hj1). split_and!; try done; simpl.
    + rewrite lookup_insert_ne; [done|]. intros ->. by apply Hq.
    + destruct Hp as [Hp|Hp]; [left|by right]. apply map_lookup_filter_Some. split; [done|].
      simpl. intros E'. rewrite E' in Hq. by apply Hq.
  - split; [|intros (?&?&?&?&?&?&?); simplify_eq]. simpl in E.
    unfold begin_send, endpoint_key in E.
    assert (live k w (j + 1) t) as HL1.
    { destruct HL as (?&?&?&j'&?&?). split_and!; try done. exists j'. split; [lia|done]. }
    case_decide; simplify_eq; [done|].
    destruct (get_key to) as [[ek|]|] eqn:Ek; simplify_eq; [|done..].
    destruct (current_session_generation ek t) as [g t1] eqn:Eg. simplify_eq/=.
    destruct (session_generation_live _ _ _ _ _ _ _ HL Eg) as [(Hs & Hw & Hp & j' & Hj1 & Htx) Hg].
    apply session_generation_frame in Eg as (Ep & Ew & En & Et & _).
    split_and!; try done; simpl.
    + destruct Hp as [Hp|Hp]; [left|right].
      * rewrite lookup_insert_ne; [done|]. intros <-. simpl in *.
        by eapply fresh_tx_id; [exact Hx|exact Hj1|lia|].
      * apply Hmono. unfold ack_received in *. by rewrite <- Ew.
    + exists (j' + 1). split; [lia|]. rewrite Htx. unfold wrap.
      rewrite Z.add_mod_idemp_l by lia. f_equal. lia.
  - split; [|intros (?&?&?&?&?&?&?); simplify_eq]. simplify_eq/=.
    destruct HL as (Hs & Hw & Hp & Hj1). split_and!; try done. simpl.
    destruct Hp; [left|by right]. by rewrite lookup_delete_ne.
Qed.

Lemma run_events_live k w evs j t :
  in_width 16 k.2 -> live k w j t -> Forall (leaves_alone k) evs -> 0 <= j ->
  j + sends_begun evs < 65535 ->
  live k w (j + sends_begun evs) (run_events evs t).1 /\
  (Exists (acks_for k) evs \/ ack_received w t = true ->
   ack_received w (run_events evs t).1 = true).
Proof.
  intros Hx. revert j t. induction evs as [|ev evs IH]; intros j t HL Hq Hj0 Hj.
  - unfold sends_begun. simpl. rewrite Z.add_0_r. split; [done|].
    intros [H|H]; [by inversion H|done].
  - apply Forall_cons in Hq as [Hq1 Hq2]. rewrite sends_begun_cons in Hj |- *.
    assert (0 <= sends_begun evs) by (unfold sends_begun; lia). simpl.
    destruct (run_event ev t) as [t1 a1] eqn:E1.
    assert (Hr : ack_received w t = true -> ack_received w t1 = true).
    { eapply ack_step_waiter_for; [by eapply run_event_ack_step|]. by destruct HL as (?&?&?). }
    destruct (run_event_live _ _ _ _ _ _ _ Hx HL Hq1 Hj0 ltac:(lia) E1) as [HL1 Ha].
    destruct (IH _ _ HL1 Hq2 ltac:(destruct (begins_send ev); lia) ltac:(lia)) as [HL2 Hb].
    destruct (run_events evs t1) as [t2 a2]. simpl in *. rewrite Z.add_assoc. split; [done|].
    intros [[H'|H']%Exists_cons|H']; auto.
Qed.

Section Progress.
Context (resend : nat -> result unit string) (env : nat -> list event).

Lemma send_loop_progress to k w packet total attempt delays j t i :
  in_width 16 k.2 -> live k w j t -> 0 <= j ->
  (i < length delays)%nat ->
  (forall n, (attempt <= n < attempt + i)%nat -> is_ok (resend n) = true) ->
  Forall (leaves_alone k) (concat (map env (List.seq attempt (S i)))) ->
  j + sends_begun (concat (map env (List.seq attempt (S i)))) < 65535 ->
  Exists (acks_for k) (env (attempt + i)%nat) ->
  exists t' acts, send_loop resend env to k w packet total attempt delays t = (t', acts, Ok tt).
Proof.
  intros Hx. revert attempt delays j t.
  induction i as [|i IH]; intros n delays j t HL Hj0 Hi Hrs Hq Hb Ha;
    destruct delays as [|d delays]; simpl in Hi; try lia; simpl.
  - simpl in Hq, Hb. rewrite app_nil_r in Hq, Hb. rewrite Nat.add_0_r in Ha.
    destruct (run_events_live _ _ _ _ _ Hx HL Hq Hj0 Hb) as [_ Hr].
    rewrite Hr by auto. eauto.
  - cbn [List.seq map concat] in Hq, Hb. apply Forall_app in Hq as [Hq1 Hq2].
    assert (sends_begun (env n ++ concat (map env (List.seq (S n) (S i)))) =
      sends_begun (env n) + sends_begun (concat (map env (List.seq (S n) (S i))))) as Eb.
    { unfold sends_begun. rewrite filter_app, length_app. lia. }
    cbn [List.seq map concat] in Eb. rewrite Eb in Hb.
    assert (0 <= sends_begun (env n)) by (unfold sends_begun; lia).
    assert (0 <= sends_begun (env (S n) ++ concat (map env (List.seq (S (S n)) i))))
      by (unfold sends_begun; lia).
    destruct (run_events_live _ _ _ _ _ Hx HL Hq1 Hj0 ltac:(lia)) as [HL1 _].
    destruct (ack_received w _); [eauto|].
    destruct delays as [|d2 delays]; [simpl in Hi; lia|].
    specialize (Hrs n ltac:(lia)) as Hr0. destruct (resend n) as [[]|]; [|done].
    destruct (IH (S n) (d2 :: delays) _ _ HL1) as (t' & acts & ->); [lia|simpl in *; lia|..].
    + intros m Hm. apply Hrs. lia.
    + done.
    + cbn [List.seq map concat]. lia.
    + by rewrite Nat.add_succ_comm.
    + eauto.
Qed.
End Progress.

(** (C30) Progress of a send: if the block fits the MTU, the first transmission and
    the re-transmissions up to attempt [i] are accepted by the DTLS layer, and
    during the wait of attempt [i] (one of the scheduled attempts) an
    ACK_COMPLETE of the transaction is dispatched, then [send] returns success,
    provided that until then no new session with the peer is opened, nobody
    withdraws the pending acknowledgement and fewer than 65535 other sends are
    started (so the 16-bit transaction id is not drawn again). *)
Theorem frpt_send_progress resend env first to block t k i :
  heap_wf t -> in_width 16 (next_tx_id t) ->
  (length block + FRPT_HEADER_LEN <= mtu t)%nat ->
  get_key to = Returns (Some k) ->
  let ack_key := (k, (current_session_generation k t).1, next_tx_id t) in
  let others := concat (map env (List.seq 0 (S i))) in
  is_ok first = true -> (i < length (retry_delays t))%nat ->
  (forall n, (n < i)%nat -> is_ok (resend n) = true) ->
  Forall (leaves_alone ack_key) others -> sends_begun others < 65535 ->
  Exists (acks_for ack_key) (env i) ->
  exists t' acts, send resend env first to block t = Returns (t', acts, Ok tt).
Proof.
  intros Hwf Hx Hm Hk ack_key others Hf Hi Hrs Hq Hb Ha.
  unfold send. destruct (begin_send to block t) as [[t1 r]|] eqn:Eb; cycle 1.
  { unfold begin_send, endpoint_key in Eb. rewrite Hk in Eb. case_decide; [done|].
    destruct (current_session_generation k t); done. }
  destruct r as [[[k0 w] packet]|e]; cycle 1.
  { unfold begin_send, endpoint_key in Eb. rewrite Hk in Eb. case_decide; [lia|].
    destruct (current_session_generation k t); done. }
  destruct (begin_send_spec _ _ _ _ _ _ _ Hwf Eb) as (Hk0 & Htx & -> & Hd & Hn & Hs & Hp & Hw & Hr).
  assert (k0 = ack_key) as ->.
  { unfold begin_send, endpoint_key in Eb. rewrite Hk in Eb. case_decide; [done|].
    unfold ack_key. destruct (current_session_generation k t) as [g t2] eqn:Eg.
    apply session_generation_frame in Eg as (_ & _ & _ & Et & _). simplify_eq/=. by rewrite Et. }
  destruct first as [[]|]; [|done].
  destruct (send_loop_progress resend env to ack_key w
    (build_data_single_packet (next_tx_id t) block) (length (retry_delays t1)) 0
    (retry_delays t1) 0 t1 i) as (t' & acts & ->); rewrite ?Hd; eauto; try lia.
  - split_and!; try done; [by left|]. exists 0. split; [lia|]. by rewrite Hn, Z.add_0_r.
  - intros n ?. apply Hrs. lia.
Qed.

(** ** Transaction ids wrap around *)

Lemma iter_take_next_tx_id n t :
  in_width 16 (next_tx_id t) ->
  next_tx_id (Nat.iter n (fun t => (take_next_tx_id t).2) t) = wrap 16 (next_tx_id t + Z.of_nat n).
Proof.
  intros H. induction n as [|n IH].
  - simpl. rewrite Z.add_0_r. symmetry. by apply wrap_small.
  - rewrite Nat.iter_succ. unfold take_next_tx_id at 1. cbn [snd set_next_tx_id next_tx_id].
    rewrite IH. unfold wrap. rewrite Z.add_mod_idemp_l by lia. f_equal. lia.
Qed.

(** Transaction ids are reused within a session: after 65536 sends the next
    packet carries the same transaction id again, and a receiver that has already
    delivered that id in the session acknowledges the new packet but drops its
    payload, whatever it is: the sender sees success for a block that was never
    delivered. *)
Theorem frpt_tx_id_reuse_drops sender receiver from iss payload k g :
  in_width 16 (next_tx_id sender) ->
  get_key from = Returns (Some k) ->
  endpoint_sessions receiver !! k = Some g ->
  (k, g, next_tx_id sender) ∈ received_single_blocks receiver ->
  let sender' := Nat.iter (Z.to_nat 65536) (fun t => (take_next_tx_id t).2) sender in
  next_tx_id sender' = next_tx_id sender /\
  dispatch_inbound_packet (Ok tt) from iss
    (build_data_single_packet (next_tx_id sender') payload) receiver
  = Returns (receiver, [DtlsSend from (ack_packet (next_tx_id sender'))], Ok None).
Proof.
  intros Hx Hk Hg Hin sender'.
  assert (E : next_tx_id sender' = next_tx_id sender).
  { unfold sender'. rewrite iter_take_next_tx_id by done. rewrite Z2Nat.id by lia.
    unfold wrap, in_width in *. change (2 ^ 16) with 65536 in *.
    rewrite <- Z.add_mod_idemp_r, Z.mod_same, Z.add_0_r, Z.mod_small by lia. done. }
  split; [done|]. rewrite E. clear E sender'.
  unfold dispatch_inbound_packet, endpoint_key, current_session_generation.
  rewrite Hk, Hg, parse_build_data by done.
  rewrite bool_decide_eq_false_2 by tauto.
  do 2 f_equal. f_equal. destruct receiver; unfold set_received; simpl in *. f_equal.
  apply leibniz_equiv. set_solver.
Qed.

(** ** The theorems on concrete runs

    A transport whose peer is at 10.0.0.2:9000 sends a three-byte block; the
    acknowledgement arrives while the sender waits after its first retry. *)

Definition ex_peer : NetworkEndpoint := new_direct (SockAddr (V4 10 0 0 2) 9000).
Definition ex_key : NetworkEndpointKey := MkKey (Some (SockAddr (V4 10 0 0 2) 9000)) None None.
Definition ex_handler : PacketTransportHandleMessage := fun _ _ _ => Ok None.
Definition ex_env (i : nat) : list event :=
  match i with
  | 1%nat => [EvBeginSend ex_peer [9]; EvInbound (Ok tt) ex_peer "peer" (ack_packet 0)]
  | _ => []
  end.
Definition ex_traffic : list event :=
  [EvInbound (Ok tt) ex_peer "peer" (build_data_single_packet 5 [1; 2]);
   EvInbound (Ok tt) ex_peer "peer" (build_data_single_packet 5 [1; 2]);
   EvNewSession ex_peer;
   EvInbound (Ok tt) ex_peer "peer" (build_data_single_packet 5 [3])].

Lemma frpt_roundtrip_witness :
  parse_packet (build_data_single_packet 513 [7; 8]) = Some (DataSingle 513 [7; 8]).
Proof. apply (frpt_roundtrip 513 [7; 8]). done. Defined.

Lemma frpt_at_most_once_witness :
  delivered_keys (run_events ex_traffic (set_handle_message (Some ex_handler) (new 32))).2
    = [(ex_key, 0, 5); (ex_key, 1, 5)] /\
  NoDup (delivered_keys
    (run_events ex_traffic (set_handle_message (Some ex_handler) (new 32))).2).
Proof.
  split; [vm_compute; reflexivity|].
  eapply (frpt_at_most_once 32 (Some ex_handler) ex_traffic); [by vm_compute|].
  apply surjective_pairing.
Defined.

Lemma frpt_data_acked_witness :
  exists g t1, current_session_generation ex_key (new 32) = (g, t1) /\
  exists t' acts res,
  dispatch_inbound_packet (Ok tt) ex_peer "peer" (build_data_single_packet 5 [1]) (new 32) =
    Returns (t', DtlsSend ex_peer (ack_packet 5) :: acts, res).
Proof.
  destruct (frpt_data_acked (Ok tt) ex_peer "peer" 5 [1] ex_key (new 32))
    as (g & t1 & H1 & t' & acts & res & H2 & _); [done|done|]. eauto 10.
Defined.

Definition ex_send_result (env : nat -> list event) (block : list Z) :=
  send (fun _ => Ok tt) env (Ok tt) ex_peer block (new 32).

Lemma frpt_send_ok_acked_witness :
  exists k i ev, get_key ex_peer = Returns (Some k) /\ (i < 3)%nat /\ ev ∈ ex_env i /\
    exists g, acks_for (k, g, 0) ev.
Proof.
  destruct (ex_send_result ex_env [1; 2; 3]) as [[[t' acts] [[]|]]|] eqn:E;
    [|exfalso; revert E..].
  - exact (frpt_send_ok_acked (fun _ => Ok tt) ex_env (Ok tt) ex_peer [1; 2; 3] 32 None []
      t' acts E).
  - assert (match ex_send_result ex_env [1; 2; 3] with Returns (_, _, Ok _) => true | _ => false end
      = true) as H by (vm_compute; reflexivity).
    intros E. by rewrite E in H.
  - assert (match ex_send_result ex_env [1; 2; 3] with Returns (_, _, Ok _) => true | _ => false end
      = true) as H by (vm_compute; reflexivity).
    intros E. by rewrite E in H.
Defined.

Lemma frpt_send_bounded_witness :
  exists n tail t' acts r,
    ex_send_result (fun _ => []) [1] = Returns (t', acts, r) /\
    acts = replicate n (DtlsSend ex_peer (build_data_single_packet 0 [1])) ++ tail /\
    (n <= 3)%nat /\ r = Err (NoAckComplete 3 0) /\ tail = [ForgetPeer ex_peer].
Proof.
  destruct (ex_send_result (fun _ => []) [1]) as [[[t' acts] r]|] eqn:E.
  - assert (match ex_send_result (fun _ => []) [1] with
      Returns (_, _, Err (NoAckComplete 3 0)) => true | _ => false end = true) as H
      by (vm_compute; reflexivity).
    rewrite E in H.
    destruct (frpt_send_bounded (fun _ => Ok tt) (fun _ => []) (Ok tt) ex_peer [1] (new 32)
      t' acts r (heap_wf_new 32) E) as (n & tail & H1 & H3 & H2).
    exists n, tail, t', acts, r. split; [done|]. split; [exact H1|]. split; [exact H3|].
    destruct r as [|[]]; try done. destruct H2 as (-> & -> & _ & -> & _). done.
  - assert (match ex_send_result (fun _ => []) [1] with Panics => false | _ => true end = true) as H
      by (vm_compute; reflexivity).
    by rewrite E in H.
Defined.

Lemma frpt_send_progress_witness :
  exists t' acts,
    send (fun _ => Ok tt) ex_env (Ok tt) ex_peer [1; 2; 3] (new 32) = Returns (t', acts, Ok tt).
Proof.
  apply (frpt_send_progress (fun _ => Ok tt) ex_env (Ok tt) ex_peer [1; 2; 3] (new 32) ex_key 1);
    first [done|apply heap_wf_new|simpl; lia|simpl; solve [repeat constructor]|idtac].
  apply Exists_cons_tl, Exists_cons_hd. do 4 eexists. split_and!; done.
Defined.

Lemma frpt_tx_id_reuse_drops_witness :
  let receiver := (run_events ex_traffic (set_handle_message (Some ex_handler) (new 32))).1 in
  let sender := set_next_tx_id 5 (new 32) in
  let sender' := Nat.iter (Z.to_nat 65536) (fun t => (take_next_tx_id t).2) sender in
  dispatch_inbound_packet (Ok tt) ex_peer "peer"
    (build_data_single_packet (next_tx_id sender') [42]) receiver
  = Returns (receiver, [DtlsSend ex_peer (ack_packet (next_tx_id sender'))], Ok None).
Proof.
  intros receiver sender.
  apply (frpt_tx_id_reuse_drops sender receiver ex_peer "peer" [42] ex_key 1);
    [done|done|by vm_compute|].
  refine (bool_decide_unpack _ _). vm_compute. exact I.
Defined.
