(* ===== verification/FrptThreads.v ===== *)
(** * The threads of the reliable packet transport

    Models [src/bingle_core/src/packet_transport/mod.rs], at the grain of its locks.  In
    [Frpt] an inbound packet, a new session and the beginning of a send are one step each;
    the code takes the lock of the sessions, of the pending acknowledgements, of the receive
    cache and of the handler one after the other, and other threads run in between.  Here a
    [thread] is at one of these places, [thread_step] is its next section under a lock, and
    [world_step] interleaves the threads and begins new ones.

    A thread that nothing interrupts does what the operation of [Frpt] does
    ([dispatch_alone], [session_alone], [send_alone]). *)
From S2P Require Import Prelude NetAddr Frpt.

Local Open Scope Z_scope.

(** Where a thread is.  [In...] are the places of [dispatch_inbound_packet], [New...] those of
    [handle_new_dtls_session] and [Sd...] those of [send]. *)
Inductive thread : Type :=
| InPacket (from : NetworkEndpoint) (issuer : string) (packet : list Z)
| InCompleting (k : AckKey)
| InNotifying (w : nat)
| InAcking (k : AckKey) (from : NetworkEndpoint) (issuer : string) (payload : list Z)
| InInserting (k : AckKey) (from : NetworkEndpoint) (issuer : string) (payload : list Z)
| InDelivering (via : option AckKey) (from : NetworkEndpoint) (issuer : string) (payload : list Z)
| InEnded (r : outcome (result (option (list Z)) frpt_error))
| NewSession (e : NetworkEndpoint)
| NewPending (k : NetworkEndpointKey)
| NewReceived (k : NetworkEndpointKey)
| NewEnded (r : outcome (result unit frpt_error))
| SdBlock (to : NetworkEndpoint) (block : list Z)
| SdNumbering (k : NetworkEndpointKey) (g : SessionGeneration) (to : NetworkEndpoint) (block : list Z)
| SdRegistering (k : AckKey) (to : NetworkEndpoint) (packet : list Z)
| SdWaiting (k : AckKey) (w : nat) (packet : list Z)
| SdEnded (r : outcome (result (AckKey * nat * list Z) frpt_error))
| Installing (h : option PacketTransportHandleMessage)
| Installed.

(** The next section of a thread; [ack_send] is what the DTLS layer answers to its
    acknowledgement.  A send that waits ends by clearing its entry. *)
Definition thread_step (ack_send : result unit string) (th : thread) (t : transport)
  : transport * thread * list action :=
  match th with
  | InPacket from issuer packet =>
      match endpoint_key from with
      | Panics => (t, InEnded Panics, [])
      | Returns (Err e) => (t, InEnded (Returns (Err e)), [])
      | Returns (Ok from_key) =>
          let '(from_generation, t) := current_session_generation from_key t in
          match parse_packet packet with
          | None => (t, InDelivering None from issuer packet, [])
          | Some UnsupportedFrpt => (t, InEnded (Returns (Ok None)), [])
          | Some (AckComplete tx_id) => (t, InCompleting (from_key, from_generation, tx_id), [])
          | Some (DataSingle tx_id payload) =>
              (t, InAcking (from_key, from_generation, tx_id) from issuer payload, [])
          end
      end
  | InCompleting k =>
      match pending_acks t !! k with
      | Some w => (set_pending (delete k (pending_acks t)) t, InNotifying w, [])
      | None => (t, InEnded (Returns (Ok None)), [])
      end
  | InNotifying w =>
      (set_waiters (<[w := true]> (waiters t)) (next_waiter t) t, InEnded (Returns (Ok None)), [])
  | InAcking k from issuer payload =>
      let ack := DtlsSend from (ack_packet k.2) in
      match ack_send with
      | Err e => (t, InEnded (Returns (Err (DtlsError e))), [ack])
      | Ok _ => (t, InInserting k from issuer payload, [ack])
      end
  | InInserting k from issuer payload =>
      let should_deliver := bool_decide (k ∉ received_single_blocks t) in
      (set_received ({[k]} ∪ received_single_blocks t) t,
       if should_deliver then InDelivering (Some k) from issuer payload else InEnded (Returns (Ok None)), [])
  | InDelivering via from issuer payload =>
      let '(acts, r) := deliver via from issuer payload t in (t, InEnded (Returns r), acts)
  | NewSession e =>
      match endpoint_key e with
      | Panics => (t, NewEnded Panics, [])
      | Returns (Err err) => (t, NewEnded (Returns (Err err)), [])
      | Returns (Ok k) =>
          let g := next_session_generation (default 0 (endpoint_sessions t !! k)) in
          (set_sessions (<[k := g]> (endpoint_sessions t)) t, NewPending k, [])
      end
  | NewPending k => (set_pending (filter (fun p => p.1.1.1 <> k) (pending_acks t)) t, NewReceived k, [])
  | NewReceived k =>
      (set_received (filter (fun d => d.1.1 <> k) (received_single_blocks t)) t, NewEnded (Returns (Ok tt)), [])
  | SdBlock to block =>
      if decide (mtu t < length block + FRPT_HEADER_LEN)%nat then
        (t, SdEnded (Returns (Err (BlockTooLong (length block) (mtu t - FRPT_HEADER_LEN) (mtu t)))), [])
      else
        match endpoint_key to with
        | Panics => (t, SdEnded Panics, [])
        | Returns (Err e) => (t, SdEnded (Returns (Err e)), [])
        | Returns (Ok k) =>
            let '(generation, t) := current_session_generation k t in (t, SdNumbering k generation to block, [])
        end
  | SdNumbering k generation to block =>
      let '(tx_id, t) := take_next_tx_id t in
      (t, SdRegistering (k, generation, tx_id) to (build_data_single_packet tx_id block), [])
  | SdRegistering k to packet =>
      let '(w, t) := register_pending_ack k t in (t, SdWaiting k w packet, [DtlsSend to packet])
  | SdWaiting k w packet => (clear_pending_ack k t, SdEnded (Returns (Ok (k, w, packet))), [])
  | Installing h => (set_handle_message h t, Installed, [])
  | InEnded _ | NewEnded _ | SdEnded _ | Installed => (t, th, [])
  end.

(** [n] sections of a thread without another thread in between. *)
Fixpoint run_alone (n : nat) (ack_send : result unit string) (th : thread) (t : transport)
  : transport * thread * list action :=
  match n with
  | O => (t, th, [])
  | S n =>
      let '(t, th, acts) := thread_step ack_send th t in
      let '(t, th, acts') := run_alone n ack_send th t in
      (t, th, acts ++ acts')
  end.

(** The transport, its threads, and the calls it made so far. *)
Record world : Type := MkWorld {
  shared : transport;
  pool : list thread;
  calls : list action
}.

Definition begins (th : thread) : bool :=
  match th with InPacket _ _ _ | NewSession _ | SdBlock _ _ | Installing _ => true | _ => false end.

Inductive world_step : world -> world -> Prop :=
| step_begin th w : begins th = true -> world_step w (MkWorld (shared w) (pool w ++ [th]) (calls w))
| step_thread i ack_send th t' th' acts w :
    pool w !! i = Some th -> thread_step ack_send th (shared w) = (t', th', acts) ->
    world_step w (MkWorld t' (<[i := th']> (pool w)) (calls w ++ acts)).

Definition start (m : nat) : world := MkWorld (new m) [] [].

(** ** Threads that nothing interrupts *)

Theorem dispatch_alone ack_send from issuer packet t :
  run_alone 4 ack_send (InPacket from issuer packet) t =
  match dispatch_inbound_packet ack_send from issuer packet t with
  | Returns (t', acts, r) => (t', InEnded (Returns r), acts)
  | Panics => (t, InEnded Panics, [])
  end.
Proof.
  unfold dispatch_inbound_packet. simpl. destruct (endpoint_key from) as [[k|e]|]; [|done|done].
  destruct (current_session_generation k t) as [g t1].
  destruct (parse_packet packet) as [[tx payload|tx|]|]; simpl; [| |done|].
  - destruct ack_send; [|done]. simpl. destruct (bool_decide _); simpl; [|done].
    destruct (deliver _ _ _ _ _) as [acts r]. simpl. by rewrite app_nil_r.
  - unfold complete_pending_ack. by destruct (pending_acks t1 !! _).
  - destruct (deliver _ _ _ _ _) as [acts r]. simpl. by rewrite app_nil_r.
Qed.

Theorem session_alone ack_send e t :
  run_alone 3 ack_send (NewSession e) t =
  match handle_new_dtls_session e t with
  | Returns (t', r) => (t', NewEnded (Returns r), [])
  | Panics => (t, NewEnded Panics, [])
  end.
Proof. unfold handle_new_dtls_session. simpl. by destruct (endpoint_key e) as [[k|err]|]. Qed.

Theorem send_alone ack_send to block t :
  run_alone 3 ack_send (SdBlock to block) t =
  match begin_send to block t with
  | Returns (t', Ok (k, w, packet)) => (t', SdWaiting k w packet, [DtlsSend to packet])
  | Returns (t', Err e) => (t', SdEnded (Returns (Err e)), [])
  | Panics => (t, SdEnded Panics, [])
  end.
Proof.
  unfold begin_send. simpl. case_decide; [done|]. destruct (endpoint_key to) as [[k|e]|]; [|done|done].
  by destruct (current_session_generation k t) as [g t1].
Qed.

(** ** Once for a transaction *)

(** The session that a dispatch has read and with which it has not yet looked at the receive
    cache. *)
Definition read_session (th : thread) : option (NetworkEndpointKey * SessionGeneration) :=
  match th with InAcking k _ _ _ | InInserting k _ _ _ => Some k.1 | _ => None end.

(** The peer with a new session that is counted, with the receive cache not yet cleared. *)
Definition reset_of (th : thread) : option NetworkEndpointKey :=
  match th with NewPending k | NewReceived k => Some k | _ => None end.

(** No dispatch of a packet of [k] overlaps the reset for a new session of [k]. *)
Definition calm (k : NetworkEndpointKey) (w : world) : Prop :=
  forall d n g, d ∈ pool w -> n ∈ pool w -> read_session d = Some (k, g) -> reset_of n <> Some k.

Definition session_thread (th : thread) : bool :=
  match th with NewPending _ | NewReceived _ | NewEnded _ => true | _ => false end.

(** The sessions opened so far. *)
Definition opened (w : world) : Z := Z.of_nat (length (filter session_thread (pool w))).

(** The transaction that a thread is about to hand over. *)
Definition handing_over (th : thread) : option AckKey :=
  match th with InDelivering via _ _ _ => via | _ => None end.

(** The transactions of a peer handed over, or about to be. *)
Definition of_peer (k : NetworkEndpointKey) (l : list AckKey) : list AckKey :=
  filter (fun a : AckKey => a.1.1 = k) l.

Definition claimed (k : NetworkEndpointKey) (w : world) : list AckKey :=
  of_peer k (delivered_keys (calls w) ++ omap handing_over (pool w)).

Record calm_inv (k : NetworkEndpointKey) (w : world) : Prop := {
  ci_once : NoDup (claimed k w);
  ci_bound : forall g, endpoint_sessions (shared w) !! k = Some g -> 0 <= g <= opened w;
  ci_cached : forall g x, (k, g, x) ∈ claimed k w ->
    exists c, endpoint_sessions (shared w) !! k = Some c /\ g <= c /\
      (g = c -> (k, g, x) ∈ received_single_blocks (shared w) /\ forall n, n ∈ pool w -> reset_of n <> Some k);
  ci_current : forall d g, d ∈ pool w -> read_session d = Some (k, g) ->
    endpoint_sessions (shared w) !! k = Some g
}.

Lemma pool_split {A} (l : list A) i x :
  l !! i = Some x -> exists l1 l2, l = l1 ++ x :: l2 /\ forall y, <[i := y]> l = l1 ++ y :: l2.
Proof.
  intros (l1 & l2 & -> & ->)%list_elem_of_split_length. exists l1, l2. split; [done|]. intros y.
  rewrite <- (Nat.add_0_r (length l1)), insert_app_r. done.
Qed.

Lemma claimed_split k t l1 th l2 cs acts :
  claimed k (MkWorld t (l1 ++ th :: l2) (cs ++ acts)) ≡ₚ
  of_peer k (delivered_keys acts ++ option_list (handing_over th)) ++ claimed k (MkWorld t (l1 ++ l2) cs).
Proof.
  unfold claimed, of_peer. rewrite <- filter_app. apply filter_Permutation. simpl.
  unfold delivered_keys. rewrite !omap_app. simpl.
  destruct (handing_over th); simpl; solve_Permutation.
Qed.

Lemma opened_split t l1 th l2 cs :
  opened (MkWorld t (l1 ++ th :: l2) cs) = (if session_thread th then 1 else 0) + opened (MkWorld t (l1 ++ l2) cs).
Proof.
  unfold opened. simpl. rewrite !filter_app, filter_cons, !length_app.
  case_decide; destruct (session_thread th); simpl in *; try done; lia.
Qed.

Lemma elem_of_pool {A} (x y : A) l1 l2 : x ∈ l1 ++ y :: l2 <-> x = y \/ x ∈ l1 ++ l2.
Proof. rewrite !elem_of_app, elem_of_cons. tauto. Qed.

Section Calm.
Context (k : NetworkEndpointKey) (t t' : transport) (cs acts : list action) (l1 l2 : list thread)
        (th th' : thread).
Abbreviation before := (MkWorld t (l1 ++ th :: l2) cs).
Abbreviation after := (MkWorld t' (l1 ++ th' :: l2) (cs ++ acts)).

Lemma claimed_before :
  claimed k before ≡ₚ of_peer k (option_list (handing_over th)) ++ claimed k (MkWorld t (l1 ++ l2) cs).
Proof using. rewrite <- (app_nil_r cs) at 1. by rewrite claimed_split. Qed.

Lemma claimed_after :
  claimed k after ≡ₚ of_peer k (delivered_keys acts ++ option_list (handing_over th')) ++
    claimed k (MkWorld t (l1 ++ l2) cs).
Proof using. by rewrite claimed_split. Qed.

(** A step that opens no session of [k], claims no transaction of it and forgets none. *)
Lemma quiet_inv extra :
  calm_inv k before ->
  (forall g, endpoint_sessions t !! k = Some g -> endpoint_sessions t' !! k = Some g) ->
  (forall g, endpoint_sessions t' !! k = Some g -> endpoint_sessions t !! k = Some g \/ g = 0) ->
  (forall g x, (k, g, x) ∈ received_single_blocks t -> (k, g, x) ∈ received_single_blocks t') ->
  of_peer k (option_list (handing_over th)) ≡ₚ
    of_peer k (delivered_keys acts ++ option_list (handing_over th')) ++ extra ->
  (session_thread th = true -> session_thread th' = true) ->
  (reset_of th' = Some k -> reset_of th = Some k) ->
  (forall g, read_session th' = Some (k, g) -> endpoint_sessions t' !! k = Some g) ->
  calm_inv k after.
Proof using.
  intros [Ho Hb Hc Hr] Hs1 Hs2 Hrec Hcl Hsess Hreset Hread.
  assert (claimed k before ≡ₚ extra ++ claimed k after) as Hp.
  { rewrite claimed_before, claimed_after, Hcl. solve_Permutation. }
  rewrite Hp in Ho. apply NoDup_app in Ho as (_ & _ & Ho).
  constructor; simpl.
  - done.
  - intros g Hg. rewrite opened_split in *. simpl in Hb.
    assert (0 <= opened (MkWorld t (l1 ++ l2) cs)) by (unfold opened; lia).
    assert (opened (MkWorld t' (l1 ++ l2) (cs ++ acts)) = opened (MkWorld t (l1 ++ l2) cs)) as -> by done.
    destruct (Hs2 g Hg) as [Hg'| ->].
    + specialize (Hb g Hg'). destruct (session_thread th); [rewrite Hsess by done|destruct (session_thread th')]; lia.
    + destruct (session_thread th'); lia.
  - intros g x Hx. destruct (Hc g x) as (c & H1 & H2 & H3); [rewrite Hp; set_solver|].
    exists c. split_and!; [by apply Hs1|done|]. intros ->. destruct (H3 eq_refl) as [H4 H5]. split; [by apply Hrec|].
    intros n [->|Hn]%elem_of_pool.
    + intros E. apply Hreset in E. revert E. apply H5, elem_of_pool. by left.
    + apply H5, elem_of_pool. by right.
  - intros d g Hd E. apply elem_of_pool in Hd as [-> |Hd]; [by apply Hread|]. apply Hs1, (Hr d); [|done]. apply elem_of_pool. by right.
Qed.

(** Claiming a transaction that the receive cache does not have. *)
Lemma insert_inv g x from issuer payload :
  th = InInserting (k, g, x) from issuer payload -> th' = InDelivering (Some (k, g, x)) from issuer payload ->
  t' = set_received ({[(k, g, x)]} ∪ received_single_blocks t) t -> acts = [] ->
  (k, g, x) ∉ received_single_blocks t -> calm k before -> calm_inv k before -> calm_inv k after.
Proof using.
  pose proof claimed_before as Hp. pose proof claimed_after as Hp'.
  intros -> -> -> -> Hnew Hcalm [Ho Hb Hc Hr]. simpl in Hp, Hp'.
  unfold of_peer in Hp' at 1. rewrite filter_cons_True in Hp' by done. simpl in Hp'.
  assert (endpoint_sessions t !! k = Some g) as Hg 
    by (eapply Hr; [apply elem_of_pool; by left|done]).
  constructor; simpl.
  - rewrite Hp'. apply NoDup_cons. split; [|by rewrite <- Hp].
    rewrite <- Hp. intros Hin. destruct (Hc g x Hin) as (c & H1 & _ & H3). simpl in *. simplify_eq.
    by apply Hnew, H3.
  - intros g' Hg'. rewrite opened_split in *. simpl in *. by apply Hb.
  - intros g' x' Hin. rewrite Hp', elem_of_cons in Hin.
    assert (forall n, n ∈ l1 ++ InDelivering (Some (k, g, x)) from issuer payload :: l2 -> reset_of n <> Some k) as Hno.
    { intros n Hn. apply elem_of_pool in Hn as [-> |Hn]; [done|].
      eapply Hcalm; [apply elem_of_pool; by left|apply elem_of_pool; by right|done]. }
    destruct Hin as [[= -> ->]|Hin].
    + exists g. split_and!; [done..|]. intros _. split; [set_solver|done].
    + destruct (Hc g' x') as (c & H1 & H2 & H3); [by rewrite Hp|]. exists c. split_and!; [done..|].
      intros ->. split; [|done]. apply elem_of_union_r. by apply H3.
  - intros d g' Hd E. apply elem_of_pool in Hd as [-> |Hd]; [done|]. apply (Hr d); [|done].
    apply elem_of_pool. by right.
Qed.

(** Counting a new session. *)
Lemma bump_inv e :
  th = NewSession e -> th' = NewPending k -> acts = [] ->
  t' = set_sessions (<[k := next_session_generation (default 0 (endpoint_sessions t !! k))]> (endpoint_sessions t)) t ->
  opened after < 2 ^ 64 - 1 -> calm k after -> calm_inv k before -> calm_inv k after.
Proof using.
  pose proof claimed_before as Hp. pose proof claimed_after as Hp'.
  intros -> -> -> -> Hlt Hcalm [Ho Hb Hc Hr]. simpl in Hp, Hp'.
  rewrite opened_split in Hlt. simpl in Hlt.
  assert (0 <= default 0 (endpoint_sessions t !! k) <= opened (MkWorld t (l1 ++ l2) cs)) as B.
  { destruct (endpoint_sessions t !! k) as [g|] eqn:Eg; simpl; [|unfold opened; lia].
    specialize (Hb g Eg). rewrite opened_split in Hb. simpl in Hb. lia. }
  assert (opened (MkWorld t (l1 ++ l2) cs) + 1 < 2 ^ 64 - 1) as B' by (unfold opened in *; simpl in *; lia).
  rewrite next_session_generation_small by lia. constructor; simpl.
  - by rewrite Hp', <- Hp.
  - intros g Hg. rewrite opened_split. simpl. rewrite lookup_insert_eq in Hg. injection Hg as <-.
    unfold opened in *. simpl in *. lia.
  - intros g x Hin. rewrite Hp', <- Hp in Hin. destruct (Hc g x Hin) as (c & H1 & H2 & _). simpl in H1.
    exists (c + 1). rewrite H1, lookup_insert_eq. simpl. split_and!; [done|lia|lia].
  - intros d g Hd E. exfalso. apply (Hcalm d (NewPending k) g Hd); [apply elem_of_pool; by left|done|done].
Qed.

(** Clearing the receive cache. *)
Lemma clear_inv :
  th = NewReceived k -> th' = NewEnded (Returns (Ok tt)) -> acts = [] ->
  t' = set_received (filter (fun d => d.1.1 <> k) (received_single_blocks t)) t ->
  calm_inv k before -> calm_inv k after.
Proof using.
  pose proof claimed_before as Hp. pose proof claimed_after as Hp'.
  intros -> -> -> -> [Ho Hb Hc Hr]. simpl in Hp, Hp'. constructor; simpl.
  - by rewrite Hp', <- Hp.
  - intros g Hg. rewrite opened_split in *. simpl in *. by apply Hb.
  - intros g x Hin. rewrite Hp', <- Hp in Hin. destruct (Hc g x Hin) as (c & H1 & H2 & H3).
    exists c. split_and!; [done..|]. intros Hgc. exfalso. destruct (H3 Hgc) as [_ H4].
    apply (H4 (NewReceived k)); [apply elem_of_pool; by left|done].
  - intros d g Hd E. apply elem_of_pool in Hd as [-> |Hd]; [done|]. apply (Hr d); [|done].
    apply elem_of_pool. by right.
Qed.
End Calm.

Lemma begin_inv k th w :
  begins th = true -> calm_inv k w -> calm_inv k (MkWorld (shared w) (pool w ++ [th]) (calls w)).
Proof.
  intros Hb [Ho Hbd Hc Hr].
  assert (claimed k (MkWorld (shared w) (pool w ++ [th]) (calls w)) = claimed k w) as E.
  { unfold claimed. simpl. rewrite omap_app. by destruct th; simpl in *; rewrite ?app_nil_r. }
  constructor; rewrite ?E; simpl; [done|..].
  - intros g Hg. specialize (Hbd g Hg). unfold opened in *. simpl. rewrite filter_app, length_app. lia.
  - intros g x Hx. destruct (Hc g x Hx) as (c & H1 & H2 & H3). exists c. split_and!; [done..|].
    intros Hg. destruct (H3 Hg) as [H4 H5]. split; [done|]. intros n [Hn|Hn]%elem_of_app; [by apply H5|].
    apply list_elem_of_singleton in Hn as ->. by destruct th.
  - intros d g [Hd|Hd]%elem_of_app; [by apply Hr|]. apply list_elem_of_singleton in Hd as ->. by destruct th.
Qed.

Lemma session_generation_at k0 t g t' :
  current_session_generation k0 t = (g, t') ->
  endpoint_sessions t' !! k0 = Some g /\ received_single_blocks t' = received_single_blocks t /\
  (forall k c, endpoint_sessions t !! k = Some c -> endpoint_sessions t' !! k = Some c) /\
  (forall k c, endpoint_sessions t' !! k = Some c -> endpoint_sessions t !! k = Some c \/ c = 0).
Proof.
  unfold current_session_generation. destruct (endpoint_sessions t !! k0) as [c|] eqn:E; intros [= <- <-]; simpl.
  - split_and!; auto.
  - rewrite lookup_insert_eq. split_and!; [done|done|..].
    + intros k c Hk. rewrite lookup_insert_ne by congruence. done.
    + intros k c. rewrite lookup_insert. case_decide; [intros [= <-]; by right|by left].
Qed.

Ltac quiet extra :=
  eapply (quiet_inv _ _ _ _ _ _ _ _ _ extra);
  [eassumption|simpl; rewrite ?app_nil_r; try by auto..]; try congruence.

Lemma thread_step_inv k ack_send th t t' th' acts l1 l2 cs :
  thread_step ack_send th t = (t', th', acts) ->
  calm k (MkWorld t (l1 ++ th :: l2) cs) -> calm k (MkWorld t' (l1 ++ th' :: l2) (cs ++ acts)) ->
  opened (MkWorld t' (l1 ++ th' :: l2) (cs ++ acts)) < 2 ^ 64 - 1 ->
  calm_inv k (MkWorld t (l1 ++ th :: l2) cs) -> calm_inv k (MkWorld t' (l1 ++ th' :: l2) (cs ++ acts)).
Proof.
  intros E Hc Hc' Hb HI. destruct th as [from issuer packet|k0|w|k0 from issuer payload|k0 from issuer payload
    |via from issuer payload|r|e|k0|k0|r|to block|k0 g to block|k0 to packet|k0 w packet|r|h|]; simpl in E.
  - destruct (endpoint_key from) as [[k0|e]|]; simplify_eq; [|quiet (@nil AckKey)..].
    destruct (current_session_generation k0 t) as [g t1] eqn:Eg.
    apply session_generation_at in Eg as (H1 & H2 & H3 & H4).
    destruct (parse_packet packet) as [[tx payload|tx|]|]; simplify_eq; quiet (@nil AckKey).
  - destruct (pending_acks t !! k0); simplify_eq; quiet (@nil AckKey).
  - simplify_eq. quiet (@nil AckKey).
  - assert (forall g, k0.1 = (k, g) -> endpoint_sessions t !! k = Some g) as Hr.
    { intros g Eg. apply (ci_current _ _ HI (InAcking k0 from issuer payload)); simpl;
        [apply elem_of_pool; by left|by rewrite Eg]. }
    destruct ack_send; simplify_eq; quiet (@nil AckKey). simpl. intros g [= Eg]. by apply Hr.
  - simplify_eq. destruct (bool_decide_reflect (k0 ∉ received_single_blocks t)) as [Hn|Hn].
    + destruct k0 as [[k0 g] x]. destruct (decide (k0 = k)) as [->|Hne]; [by eapply insert_inv|].
      quiet (@nil AckKey); simpl; [set_solver|]. unfold of_peer. by rewrite filter_cons_False.
    + quiet (@nil AckKey). simpl. set_solver.
  - unfold deliver in E. destruct (handle_message t); simplify_eq.
    + quiet (@nil AckKey).
    + quiet (of_peer k (option_list via)).
  - simplify_eq. quiet (@nil AckKey).
  - destruct (endpoint_key e) as [[k0|e']|]; simplify_eq; [|quiet (@nil AckKey)..].
    destruct (decide (k0 = k)) as [->|Hne]; [by eapply bump_inv|].
    quiet (@nil AckKey); simpl; intros g; rewrite lookup_insert_ne by done; auto.
  - simplify_eq. quiet (@nil AckKey).
  - simplify_eq. destruct (decide (k0 = k)) as [->|Hne]; [by eapply clear_inv|].
    quiet (@nil AckKey). simpl. intros g x Hx. apply elem_of_filter. by split.
  - simplify_eq. quiet (@nil AckKey).
  - case_decide; simplify_eq; [quiet (@nil AckKey)|].
    destruct (endpoint_key to) as [[k0|e]|]; simplify_eq; [|quiet (@nil AckKey)..].
    destruct (current_session_generation k0 t) as [g t1] eqn:Eg.
    apply session_generation_at in Eg as (H1 & H2 & H3 & H4). simplify_eq. quiet (@nil AckKey).
  - simplify_eq. quiet (@nil AckKey).
  - simplify_eq. quiet (@nil AckKey).
  - simplify_eq. quiet (@nil AckKey).
  - simplify_eq. quiet (@nil AckKey).
  - simplify_eq. quiet (@nil AckKey).
  - simplify_eq. quiet (@nil AckKey).
Qed.

Lemma opened_step w w' : world_step w w' -> opened w <= opened w'.
Proof.
  intros [th' w0 _|i r th t' th' acts w0 Hi E].
  - unfold opened. simpl. rewrite filter_app, length_app. lia.
  - destruct (pool_split _ _ _ Hi) as (l1 & l2 & Hp & Hins).
    assert (session_thread th = true -> session_thread th' = true) as Hs.
    { destruct th; try done; simpl in E; intros _; by simplify_eq. }
    unfold opened. simpl. rewrite Hins, Hp, !filter_app, !filter_cons, !length_app.
    destruct (session_thread th), (session_thread th'); repeat case_decide; simpl in *; try done; lia.
Qed.

Lemma world_step_inv k w w' :
  world_step w w' -> calm k w -> calm k w' -> opened w' < 2 ^ 64 - 1 -> calm_inv k w -> calm_inv k w'.
Proof.
  intros [th w0 Hb|i r th t' th' acts w0 Hi E]; [by intros; apply begin_inv|].
  destruct w0 as [t p cs]. simpl in *. destruct (pool_split _ _ _ Hi) as (l1 & l2 & -> & Hins).
  rewrite Hins. by apply thread_step_inv with r.
Qed.

(** A step that leaves no dispatch of a packet of [k] within the reset for a session of [k]. *)
Definition calm_step (k : NetworkEndpointKey) (w w' : world) : Prop := world_step w w' /\ calm k w'.

Lemma calm_steps_inv k w w' :
  rtc (calm_step k) w w' -> calm k w -> opened w' < 2 ^ 64 - 1 -> calm_inv k w -> calm_inv k w' /\ calm k w'.
Proof.
  intros Hr Hc Hb HI. induction Hr as [w|w w1 w' [Hs Hc1] Hr IH]; [done|].
  apply IH; [done..|]. eapply world_step_inv; [done..| |done].
  assert (opened w1 <= opened w') as Hm.
  { clear -Hr. induction Hr as [|w1 w2 w' [Hs _] _ IH]; [done|]. apply opened_step in Hs. lia. }
  lia.
Qed.

(** (C17) At-most-once delivery.  Every interleaving of the sections under the transport's locks
    is a run: of the dispatches of inbound packets (with duplicates, in any order, from any
    peers), of the resets for new sessions, of sends and of changes of the handler.  No
    transaction of a session of the peer [k] is handed to the handler twice, as long as a
    dispatch of a packet of [k] that is between reading its session and looking at the receive
    cache never meets a reset for a new session of [k] that is between counting the session
    and clearing that cache.  Where they meet it can be ([reset_delivers_twice], [late_dispatch_delivers_twice]).
    Fewer than [2^64 - 1] sessions are opened; the generation then wraps. *)
Theorem frpt_delivered_once k m w :
  rtc (calm_step k) (start m) w -> opened w < 2 ^ 64 - 1 ->
  NoDup (of_peer k (delivered_keys (calls w))).
Proof.
  intros Hr Hb. apply calm_steps_inv in Hr as [HI _]; [|by intros d n g Hd%elem_of_nil|done|].
  - destruct HI as [Ho _ _ _]. unfold claimed, of_peer in *. rewrite filter_app in Ho.
    by apply NoDup_app in Ho as [? _].
  - constructor; simpl; [constructor|done|by intros g x Hx%elem_of_nil|by intros d g Hd%elem_of_nil].
Qed.

(** ** Runs of the transport

    A schedule: a thread begins, or the [i]th goes on. *)

Inductive move : Type := Begin (th : thread) | Go (i : nat).

Definition run_move (mv : move) (w : world) : option world :=
  match mv with
  | Begin th => if begins th then Some (MkWorld (shared w) (pool w ++ [th]) (calls w)) else None
  | Go i =>
      match pool w !! i with
      | Some th =>
          let '(t, th, acts) := thread_step (Ok tt) th (shared w) in
          Some (MkWorld t (<[i := th]> (pool w)) (calls w ++ acts))
      | None => None
      end
  end.

Fixpoint run_moves (mvs : list move) (w : world) : option world :=
  match mvs with [] => Some w | mv :: mvs => w ← run_move mv w; run_moves mvs w end.

Lemma run_move_step mv w w' : run_move mv w = Some w' -> world_step w w'.
Proof.
  destruct mv as [th|i]; simpl.
  - destruct (begins th) eqn:E; [|done]. intros [= <-]. by apply step_begin.
  - destruct (pool w !! i) as [th|] eqn:E; [|done].
    destruct (thread_step (Ok tt) th (shared w)) as [[t th'] acts] eqn:Et. intros [= <-]. by eapply step_thread.
Qed.

Lemma run_moves_steps mvs w w' : run_moves mvs w = Some w' -> rtc world_step w w'.
Proof.
  revert w. induction mvs as [|mv mvs IH]; intros w; simpl; [by intros [= <-]|].
  destruct (run_move mv w) as [w1|] eqn:E; [|done]. simpl. intros Hr.
  eapply rtc_l; [by eapply run_move_step|by apply IH].
Qed.

Definition calm_b (k : NetworkEndpointKey) (w : world) : bool :=
  forallb (fun d => forallb (fun n =>
    negb (bool_decide (fst <$> read_session d = Some k) && bool_decide (reset_of n = Some k))) (pool w)) (pool w).

Lemma calm_b_calm k w : calm_b k w = true -> calm k w.
Proof.
  unfold calm_b. intros H d n g Hd Hn E1 E2. rewrite forallb_forall in H.
  apply list_elem_of_In in Hd, Hn. specialize (H d Hd). rewrite forallb_forall in H. specialize (H n Hn).
  rewrite E1, E2 in H. simpl in H. by rewrite !bool_decide_true in H.
Qed.

Fixpoint run_calm (k : NetworkEndpointKey) (mvs : list move) (w : world) : option world :=
  match mvs with
  | [] => Some w
  | mv :: mvs => w ← run_move mv w; if calm_b k w then run_calm k mvs w else None
  end.

Lemma run_calm_steps k mvs w w' : run_calm k mvs w = Some w' -> rtc (calm_step k) w w'.
Proof.
  revert w. induction mvs as [|mv mvs IH]; intros w; simpl; [by intros [= <-]|].
  destruct (run_move mv w) as [w1|] eqn:E; [|done]. simpl. destruct (calm_b k w1) eqn:Ec; [|done]. intros Hr.
  eapply rtc_l; [|by apply IH]. split; [by eapply run_move_step|by apply calm_b_calm].
Qed.

Definition ex_data (payload : list Z) : thread := InPacket ex_peer "peer" (build_data_single_packet 5 payload).
Definition ex_begun : list move := [Begin (Installing (Some ex_handler)); Go 0%nat].

(** Two threads dispatch the same packet at once, a session opens, and the transaction id is used
    again in it. *)
Definition ex_calm : list move :=
  ex_begun ++ [Begin (ex_data [1]); Begin (ex_data [1]); Go 1%nat; Go 2%nat; Go 2%nat; Go 1%nat; Go 1%nat;
    Go 2%nat; Go 1%nat; Go 2%nat; Begin (NewSession ex_peer); Go 3%nat; Go 3%nat; Go 3%nat;
    Begin (ex_data [2]); Go 4%nat; Go 4%nat; Go 4%nat; Go 4%nat].

(** What the handler was given in a run. *)
Definition handed (o : option world) : option (list AckKey) := (fun w => delivered_keys (calls w)) <$> o.

Lemma frpt_delivered_once_witness :
  exists w, run_calm ex_key ex_calm (start 32) = Some w /\
    delivered_keys (calls w) = [(ex_key, 0, 5); (ex_key, 1, 5)] /\
    NoDup (of_peer ex_key (delivered_keys (calls w))).
Proof.
  assert (handed (run_calm ex_key ex_calm (start 32)) = Some [(ex_key, 0, 5); (ex_key, 1, 5)]) as Hd
    by (vm_compute; reflexivity).
  assert (opened <$> run_calm ex_key ex_calm (start 32) = Some 1) as Ho by (vm_compute; reflexivity).
  destruct (run_calm ex_key ex_calm (start 32)) as [w|] eqn:E; [|discriminate Hd].
  injection Hd as Hd. injection Ho as Ho. exists w. split; [exact eq_refl|]. split; [exact Hd|].
  apply (frpt_delivered_once ex_key 32 w); [by apply run_calm_steps with ex_calm|rewrite Ho; lia].
Defined.

(** A packet of the new session is dispatched before the reset has cleared the receive cache: its
    retransmission is delivered again. *)
Definition ex_reset_race : list move :=
  ex_begun ++ [Begin (NewSession ex_peer); Go 1%nat; Begin (ex_data [1]); Go 2%nat; Go 2%nat; Go 2%nat; Go 2%nat;
    Go 1%nat; Go 1%nat; Begin (ex_data [1]); Go 3%nat; Go 3%nat; Go 3%nat; Go 3%nat].

Theorem reset_delivers_twice :
  exists w, rtc world_step (start 32) w /\ delivered_keys (calls w) = [(ex_key, 1, 5); (ex_key, 1, 5)].
Proof.
  assert (handed (run_moves ex_reset_race (start 32)) = Some [(ex_key, 1, 5); (ex_key, 1, 5)]) as Hd
    by (vm_compute; reflexivity).
  destruct (run_moves ex_reset_race (start 32)) as [w|] eqn:E; [|discriminate Hd]. injection Hd as Hd.
  exists w. split; [by apply run_moves_steps with ex_reset_race|done].
Qed.

(** A retransmission has read the old session when a new one is opened, and looks at the receive
    cache after that was cleared: the transaction of the old session is delivered again. *)
Definition ex_late_dispatch : list move :=
  ex_begun ++ [Begin (ex_data [1]); Go 1%nat; Go 1%nat; Go 1%nat; Go 1%nat; Begin (ex_data [1]); Go 2%nat; Go 2%nat;
    Begin (NewSession ex_peer); Go 3%nat; Go 3%nat; Go 3%nat; Go 2%nat; Go 2%nat].

Theorem late_dispatch_delivers_twice :
  exists w, rtc world_step (start 32) w /\ delivered_keys (calls w) = [(ex_key, 0, 5); (ex_key, 0, 5)].
Proof.
  assert (handed (run_moves ex_late_dispatch (start 32)) = Some [(ex_key, 0, 5); (ex_key, 0, 5)]) as Hd
    by (vm_compute; reflexivity).
  destruct (run_moves ex_late_dispatch (start 32)) as [w|] eqn:E; [|discriminate Hd]. injection Hd as Hd.
  exists w. split; [by apply run_moves_steps with ex_late_dispatch|done].
Qed.
