(* ===== verification/Turn.v ===== *)
(** * TURN channels between relays and clients

    Models [src/bingle_core/src/turn/]: the ChannelData framing, the relay side
    ([Relay], [TurnRelayHandlerImpl]), the client side ([Client],
    [TurnClientHandlerImpl]) and the two combined handlers kept for tests
    ([Compat], [TurnHandlerImpl] and [TurnClientImpl]).

    The trait [TurnHandler] is the class [TurnHandler], with its promise on
    payloads as the class [TurnHandlerLaws]; the end-to-end theorem
    [turn_end_to_end] is proved against the interface for any two handlers.
    Lock poisoning is not modelled; the random seed of a channel allocation is
    an argument. *)
From S2P Require Import Prelude NetAddr.

Local Open Scope Z_scope.

(** ** ChannelData framing *)

Definition padded_len (len : nat) : nat := Z.to_nat (Z.land (Z.of_nat len + 3) (Z.lnot 3)).

(** The channel, the length of the data and the length of the padding. *)
Definition parse_channel_data_header (packet : list Z) : option (Z * nat * nat) :=
  match packet with
  | b0 :: b1 :: b2 :: b3 :: _ =>
      let ch := from_be_bytes [b0; b1] in
      let len := Z.to_nat (from_be_bytes [b2; b3]) in
      let total := length packet in
      if decide (total < 4 + len)%nat then None
      else if decide (total < 4 + padded_len len)%nat then None
      else Some (ch, len, (padded_len len - len)%nat)
  | _ => None
  end.

Definition build_channel_data (channel : Z) (data : list Z) : option (list Z) :=
  if decide (65535 < Z.of_nat (length data)) then None
  else
    let pad := ((4 - length data mod 4) mod 4)%nat in
    Some (to_be_bytes 2 channel ++ to_be_bytes 2 (Z.of_nat (length data)) ++ data
            ++ (if decide (0 < pad)%nat then replicate pad 0 else [])).

Record TurnMessageWithAddress : Type := TurnMessage {
  tm_ip_address : SocketAddr;
  tm_message : list Z
}.

Record WrappedMessageWithNetworkEndpoint : Type := Wrapped {
  w_ip_address : SocketAddr;
  w_network_endpoint : NetworkEndpoint;
  w_message : list Z;
  w_is_relay_local : bool
}.

(** The trait [TurnHandler]. *)
Class TurnHandler (S : Type) := {
  handle_listen : string -> SocketAddr -> S -> S * bool;
  handle_turn_incoming : option SocketAddr -> option SocketAddr -> list Z -> S ->
    outcome (option WrappedMessageWithNetworkEndpoint);
  send_turn_outgoing : SocketAddr -> SocketAddr -> list Z -> S -> option TurnMessageWithAddress;
  handle_call_response : SocketAddr -> SocketAddr -> Z -> string -> S -> S
}.

(** What every handler promises about payloads: an outgoing message is the
    ChannelData frame of the packet, addressed to the destination; an accepted
    incoming packet is unwrapped to exactly its data portion. *)
Class TurnHandlerLaws (S : Type) `{TurnHandler S} := {
  outgoing_frame : forall src dst packet s m,
    send_turn_outgoing src dst packet s = Some m ->
    tm_ip_address m = dst /\
    exists ch, build_channel_data ch packet = Some (tm_message m);
  incoming_payload : forall sender local packet s w,
    handle_turn_incoming sender local packet s = Returns (Some w) ->
    exists ch len pad, parse_channel_data_header packet = Some (ch, len, pad) /\
      w_message w = slice packet 4 len
}.

(** ** Relay state and the operations both relay handlers share *)

Abbreviation AddrPair := (SocketAddr * SocketAddr)%type.

Record relay_state : Type := RelaySt {
  ch_to_pair : gmap Z AddrPair;
  pair_to_ch : gmap AddrPair Z;
  allowed_id_to_addr : gmap string SocketAddr;
  allowed_addr_to_id : gmap SocketAddr string
}.

Definition MIN_CH : Z := 16384.
Definition MAX_CH : Z := 32766.
Definition channel_range : Z := MAX_CH - MIN_CH + 1.

(** [id2a.insert(id, addr); a2id.insert(addr, id)]. *)
Definition allow (id : string) (addr : SocketAddr) (s : relay_state) : relay_state :=
  RelaySt (ch_to_pair s) (pair_to_ch s) (<[id := addr]> (allowed_id_to_addr s))
    (<[addr := id]> (allowed_addr_to_id s)).

Definition allow_if_absent (id : string) (addr : SocketAddr) (s : relay_state) : relay_state :=
  match allowed_addr_to_id s !! addr with Some _ => s | None => allow id addr s end.

Module Relay.

Definition new : relay_state := RelaySt ∅ ∅ ∅ ∅.

Definition is_ip_allowed (i : IpAddr) (s : relay_state) : bool :=
  existsb (fun p => bool_decide (ip p.2 = i)) (map_to_list (allowed_id_to_addr s)).

Definition lookup_addr_by_id (id : string) (s : relay_state) : option SocketAddr :=
  allowed_id_to_addr s !! id.

Definition lookup_id_by_addr (addr : SocketAddr) (s : relay_state) : option string :=
  allowed_addr_to_id s !! addr.

(** The probing loop of [alloc_channel], [n] iterations left. *)
Fixpoint probe (used : gmap Z AddrPair) (n : nat) (candidate : Z) : option Z :=
  match n with
  | O => None
  | S n =>
      let candidate :=
        if (MIN_CH <=? candidate) && (candidate <=? MAX_CH) then candidate else MIN_CH in
      match used !! candidate with
      | None => Some candidate
      | Some _ => probe used n (if candidate =? MAX_CH then MIN_CH else candidate + 1)
      end
  end.

Definition alloc_channel (seed : Z) (s : relay_state) : option Z :=
  probe (ch_to_pair s) (Z.to_nat channel_range)
    (wrap 16 (MIN_CH + wrap 32 seed mod channel_range)).

Definition handle_listen (source_id : string) (source : SocketAddr) (s : relay_state)
  : relay_state * bool := (allow source_id source s, true).

(** A packet on a channel the relay has no mapping for. *)
Definition incoming_unmapped (sender_address : option SocketAddr) (ch : Z) (len : nat)
  (packet : list Z) (s : relay_state) : option WrappedMessageWithNetworkEndpoint :=
  match sender_address with
  | None => None
  | Some sender_addr =>
      match allowed_addr_to_id s !! sender_addr with
      | None => None
      | Some rid =>
          match get_slice packet 4 len with
          | None => None
          | Some payload =>
              Some (Wrapped sender_addr (new_relay rid (Some sender_addr) (Some ch)) payload false)
          end
      end
  end.

Definition handle_turn_incoming (sender_address local_public_address : option SocketAddr)
  (packet : list Z) (s : relay_state) : option WrappedMessageWithNetworkEndpoint :=
  match parse_channel_data_header packet with
  | None => None
  | Some (ch, len, _) =>
      match ch_to_pair s !! ch with
      | None => incoming_unmapped sender_address ch len packet s
      | Some (source_addr, dest_addr) =>
          match allowed_addr_to_id s !! dest_addr with
          | None => None
          | Some _ =>
              let is_packet_from_dest :=
                match sender_address with
                | Some a => bool_decide (a <> source_addr)
                | None => false
                end in
              match get_slice packet 4 len with
              | None => None
              | Some payload =>
                  let endpoint :=
                    match sender_address with
                    | None => None
                    | Some sender_addr =>
                        match allowed_addr_to_id s !! sender_addr with
                        | Some rid =>
                            match local_public_address with
                            | None => None
                            | Some local_pub => Some (new_relay rid (Some local_pub) (Some ch))
                            end
                        | None => Some (new_direct sender_addr)
                        end
                    end in
                  match endpoint with
                  | None => None
                  | Some network_endpoint =>
                      Some (Wrapped (if is_packet_from_dest then source_addr else dest_addr)
                              network_endpoint payload (bool_decide (source_addr = dest_addr)))
                  end
              end
          end
      end
  end.

Definition send_turn_outgoing (source dest : SocketAddr) (packet : list Z) (s : relay_state)
  : option TurnMessageWithAddress :=
  match pair_to_ch s !! (source, dest) with
  | None => None
  | Some ch =>
      match build_channel_data ch packet with
      | None => None
      | Some msg => Some (TurnMessage dest msg)
      end
  end.

Definition handle_call_response (source dest : SocketAddr) (channel : Z) (rid : string)
  (s : relay_state) : relay_state :=
  allow rid source
    (RelaySt (<[channel := (source, dest)]> (ch_to_pair s))
       (<[(source, dest) := channel]> (pair_to_ch s))
       (allowed_id_to_addr s) (allowed_addr_to_id s)).

Definition handle_call (seed : Z) (source_id dest_id : string) (source dest : SocketAddr)
  (s : relay_state) : relay_state * Z :=
  match pair_to_ch s !! (source, dest) with
  | Some ch => (s, ch)
  | None =>
      match alloc_channel seed s with
      | None => (s, -1)
      | Some ch =>
          let s := RelaySt (<[ch := (source, dest)]> (ch_to_pair s))
                     (<[(source, dest) := ch]> (pair_to_ch s))
                     (allowed_id_to_addr s) (allowed_addr_to_id s) in
          (allow_if_absent dest_id dest (allow_if_absent source_id source s), ch)
      end
  end.

#[global] Instance relay_turn_handler : TurnHandler relay_state := {
  handle_listen := handle_listen;
  handle_turn_incoming := fun a l p s => Returns (handle_turn_incoming a l p s);
  send_turn_outgoing := send_turn_outgoing;
  handle_call_response := handle_call_response
}.
End Relay.

(** ** The client handler *)

Module Client.

Record client_state : Type := ClientSt {
  ch_to_addr : gmap Z SocketAddr;
  pair_to_ch : gmap AddrPair Z;
  allowed_id_to_addr : gmap string SocketAddr;
  allowed_addr_to_id : gmap SocketAddr string
}.

Definition new : client_state := ClientSt ∅ ∅ ∅ ∅.

Definition lookup_addr_by_id (id : string) (s : client_state) : option SocketAddr :=
  allowed_id_to_addr s !! id.

Definition lookup_id_by_addr (addr : SocketAddr) (s : client_state) : option string :=
  allowed_addr_to_id s !! addr.

Definition allow (id : string) (addr : SocketAddr) (s : client_state) : client_state :=
  ClientSt (ch_to_addr s) (pair_to_ch s) (<[id := addr]> (allowed_id_to_addr s))
    (<[addr := id]> (allowed_addr_to_id s)).

Definition insert_mapping (source dest : SocketAddr) (ch : Z) (s : client_state) : client_state :=
  ClientSt (<[ch := source]> (ch_to_addr s))
    (<[(dest, source) := ch]> (<[(source, dest) := ch]> (pair_to_ch s)))
    (allowed_id_to_addr s) (allowed_addr_to_id s).

Definition handle_listen (source_id : string) (source : SocketAddr) (s : client_state)
  : client_state * bool := (s, false).

Definition handle_turn_incoming (sender_address : option SocketAddr)
  (packet : list Z) (s : client_state) : option WrappedMessageWithNetworkEndpoint :=
  match parse_channel_data_header packet with
  | None => None
  | Some (ch, len, _) =>
      match get_slice packet 4 len with
      | None => None
      | Some payload =>
          match sender_address with
          | None => None
          | Some relay_addr =>
              match allowed_addr_to_id s !! relay_addr with
              | Some rid =>
                  Some (Wrapped relay_addr (new_relay rid (Some relay_addr) (Some ch)) payload false)
              | None => None
              end
          end
      end
  end.

Definition send_turn_outgoing (source dest : SocketAddr) (packet : list Z) (s : client_state)
  : option TurnMessageWithAddress :=
  match pair_to_ch s !! (source, dest) with
  | None => None
  | Some ch =>
      match build_channel_data ch packet with
      | None => None
      | Some msg => Some (TurnMessage dest msg)
      end
  end.

Definition handle_call_response (source dest : SocketAddr) (channel : Z) (rid : string)
  (s : client_state) : client_state :=
  insert_mapping source dest channel (allow rid dest (allow rid source s)).

Definition handle_listen_response (relay_address : SocketAddr) (rid : string) (s : client_state)
  : client_state := allow rid relay_address s.

Definition handle_called (source dest : SocketAddr) (channel : Z) (s : client_state)
  : client_state := insert_mapping source dest channel s.

#[global] Instance client_turn_handler : TurnHandler client_state := {
  handle_listen := handle_listen;
  handle_turn_incoming := fun a _ p s => Returns (handle_turn_incoming a p s);
  send_turn_outgoing := send_turn_outgoing;
  handle_call_response := handle_call_response
}.
End Client.

(** ** The combined handlers kept for tests *)

Module Compat.

(** [TurnHandlerImpl]: the relay handler that records channels in both
    directions, indexes the packet without a bounds check and panics where
    [TurnRelayHandlerImpl] returns nothing. *)
Definition handle_turn_incoming (sender_address local_public_address : option SocketAddr)
  (packet : list Z) (s : relay_state) : outcome (option WrappedMessageWithNetworkEndpoint) :=
  match parse_channel_data_header packet with
  | None => Returns None
  | Some (ch, len, _) =>
      let payload :=
        if decide (4 + len <= length packet)%nat then Returns (slice packet 4 len) else Panics in
      match ch_to_pair s !! ch with
      | None =>
          match sender_address with
          | None => Returns None
          | Some sender_addr =>
              match allowed_addr_to_id s !! sender_addr with
              | None => Returns None
              | Some rid =>
                  match payload with
                  | Panics => Panics
                  | Returns payload =>
                      Returns (Some (Wrapped sender_addr
                        (new_relay rid (Some sender_addr) (Some ch)) payload false))
                  end
              end
          end
      | Some (source_addr, dest_addr) =>
          match allowed_addr_to_id s !! dest_addr with
          | None => Returns None
          | Some _ =>
              let is_packet_from_dest :=
                match sender_address with
                | Some a => bool_decide (a <> source_addr)
                | None => false
                end in
              match payload with
              | Panics => Panics
              | Returns payload =>
                  let endpoint :=
                    match sender_address with
                    | None => Panics
                    | Some sender_addr =>
                        match allowed_addr_to_id s !! sender_addr with
                        | Some rid =>
                            match local_public_address with
                            | None => Panics
                            | Some local_pub => Returns (new_relay rid (Some local_pub) (Some ch))
                            end
                        | None => Returns (new_direct sender_addr)
                        end
                    end in
                  match endpoint with
                  | Panics => Panics
                  | Returns network_endpoint =>
                      Returns (Some (Wrapped
                        (if is_packet_from_dest then source_addr else dest_addr)
                        network_endpoint payload (bool_decide (source_addr = dest_addr))))
                  end
              end
          end
      end
  end.

(** Records a channel for the pair in both directions. *)
Definition insert_both (source dest : SocketAddr) (channel : Z) (s : relay_state) : relay_state :=
  RelaySt (<[channel := (source, dest)]> (ch_to_pair s))
    (<[(dest, source) := channel]> (<[(source, dest) := channel]> (pair_to_ch s)))
    (allowed_id_to_addr s) (allowed_addr_to_id s).

Definition handle_call_response (source dest : SocketAddr) (channel : Z) (rid : string)
  (s : relay_state) : relay_state := allow rid source (insert_both source dest channel s).

Definition handle_call (seed : Z) (source_id dest_id : string) (source dest : SocketAddr)
  (s : relay_state) : relay_state * Z :=
  match pair_to_ch s !! (source, dest) with
  | Some ch => (s, ch)
  | None =>
      match Relay.alloc_channel seed s with
      | None => (s, -1)
      | Some ch =>
          (allow_if_absent dest_id dest
             (allow_if_absent source_id source (insert_both source dest ch s)), ch)
      end
  end.

Definition handle_listen_response (relay_address : SocketAddr) (rid : string) (s : relay_state)
  : relay_state := allow rid relay_address s.

Definition handle_called (source dest : SocketAddr) (channel : Z) (s : relay_state)
  : relay_state := insert_both source dest channel s.

(** A wrapper, so that the two relay handlers have an instance each. *)
Record handler_impl : Type := HandlerImpl { impl_state : relay_state }.

#[global] Instance compat_turn_handler : TurnHandler handler_impl := {
  handle_listen := fun id a s =>
    let '(s', b) := Relay.handle_listen id a (impl_state s) in (HandlerImpl s', b);
  handle_turn_incoming := fun a l p s => handle_turn_incoming a l p (impl_state s);
  send_turn_outgoing := fun a b p s => Relay.send_turn_outgoing a b p (impl_state s);
  handle_call_response := fun a b ch r s =>
    HandlerImpl (handle_call_response a b ch r (impl_state s))
}.

(** [TurnClientImpl]. *)
Definition client_handle_listen (source_id : string) (source : SocketAddr)
  (s : Client.client_state) : Client.client_state * bool := (Client.allow source_id source s, true).

Definition client_handle_turn_incoming (sender_address : option SocketAddr)
  (packet : list Z) (s : Client.client_state) : option WrappedMessageWithNetworkEndpoint :=
  match parse_channel_data_header packet with
  | None => None
  | Some (ch, len, _) =>
      match get_slice packet 4 len with
      | None => None
      | Some payload =>
          let from_relay :=
            match sender_address with
            | None => None
            | Some relay_addr =>
                match Client.allowed_addr_to_id s !! relay_addr with
                | Some rid => Some (relay_addr, rid)
                | None => None
                end
            end in
          match from_relay with
          | Some (relay_addr, rid) =>
              Some (Wrapped relay_addr (new_relay rid (Some relay_addr) (Some ch)) payload false)
          | None =>
              match Client.ch_to_addr s !! ch with
              | None => None
              | Some addr => Some (Wrapped addr (new_direct addr) payload false)
              end
          end
      end
  end.

Definition client_handle_call_response (source dest : SocketAddr) (channel : Z) (rid : string)
  (s : Client.client_state) : Client.client_state :=
  Client.allow rid source (Client.insert_mapping source dest channel s).

Record client_impl : Type := ClientImpl { client_impl_state : Client.client_state }.

#[global] Instance client_impl_turn_handler : TurnHandler client_impl := {
  handle_listen := fun id a s =>
    let '(s', b) := client_handle_listen id a (client_impl_state s) in (ClientImpl s', b);
  handle_turn_incoming := fun a _ p s =>
    Returns (client_handle_turn_incoming a p (client_impl_state s));
  send_turn_outgoing := fun a b p s => Client.send_turn_outgoing a b p (client_impl_state s);
  handle_call_response := fun a b ch r s =>
    ClientImpl (client_handle_call_response a b ch r (client_impl_state s))
}.
End Compat.

(** ** Framing lemmas *)

Lemma padded_len_spec len :
  padded_len len = (len + (4 - len mod 4) mod 4)%nat.
Proof.
  unfold padded_len. apply Nat2Z.inj. rewrite Z2Nat.id; cycle 1.
  { apply Z.land_nonneg. lia. }
  change 3 with (Z.ones 2) at 2. rewrite <- Z.ldiff_land, Z.ldiff_ones_r by lia.
  rewrite Z.shiftr_div_pow2, Z.shiftl_mul_pow2 by lia. change (2 ^ 2) with 4.
  rewrite Nat2Z.inj_add, !Nat2Z.inj_mod, Nat2Z.inj_sub, Nat2Z.inj_mod
    by (pose proof (Nat.mod_upper_bound len 4); lia).
  Z.div_mod_to_equations. lia.
Qed.

Lemma pad_replicate n : (if decide (0 < n)%nat then replicate n 0 else []) = replicate n 0.
Proof. case_decide; [done|]. by assert (n = 0%nat) as -> by lia. Qed.

Lemma parse_build_channel_data ch data msg :
  in_width 16 ch -> build_channel_data ch data = Some msg ->
  parse_channel_data_header msg =
    Some (ch, length data, ((4 - length data mod 4) mod 4)%nat) /\
  get_slice msg 4 (length data) = Some data /\
  length msg = (4 + padded_len (length data))%nat /\ Nat.divide 4 (length msg).
Proof.
  unfold build_channel_data, in_width. intros Hch E. case_decide; simplify_eq.
  rewrite pad_replicate. change (2 ^ 16) with (256 ^ Z.of_nat 2) in Hch.
  pose proof (from_to_be_bytes_small 2 ch Hch) as E1.
  pose proof (from_to_be_bytes_small 2 (Z.of_nat (length data)) ltac:(lia)) as E2.
  cbn [to_be_bytes] in *.
  assert (length ([(ch / 256 ^ Z.of_nat 1) mod 256; (ch / 256 ^ Z.of_nat 0) mod 256] ++
    [(Z.of_nat (length data) / 256 ^ Z.of_nat 1) mod 256;
     (Z.of_nat (length data) / 256 ^ Z.of_nat 0) mod 256] ++
    data ++ replicate ((4 - length data mod 4) mod 4) 0)
    = (4 + padded_len (length data))%nat) as EL.
  { rewrite padded_len_spec, !length_app, length_replicate. simpl. lia. }
  split_and!.
  - unfold parse_channel_data_header. cbn [app]. rewrite E1, E2, Nat2Z.id.
    cbn [app] in EL. rewrite EL, padded_len_spec. repeat (case_decide; [lia|]). do 2 f_equal. lia.
  - unfold get_slice. rewrite EL, padded_len_spec. rewrite decide_True by lia.
    unfold slice. cbn [app skipn]. f_equal. apply take_app_length.
  - exact EL.
  - rewrite EL, padded_len_spec.
    assert (exists q r, length data = (4 * q + r)%nat /\ (r < 4)%nat) as (q & r & -> & Hr).
    { exists (length data / 4)%nat, (length data mod 4)%nat.
      split; [apply Nat.div_mod; lia|apply Nat.mod_upper_bound; lia]. }
    rewrite (Nat.add_comm (4 * q) r), (Nat.mul_comm 4 q), Nat.Div0.mod_add, (Nat.mod_small r) by lia.
    destruct r as [|[|[|[|]]]]; [..|lia];
      [exists (S q)|exists (S (S q))|exists (S (S q))|exists (S (S q))]; simpl; lia.
Qed.

(** ChannelData round trip: a frame is built exactly when the data fits the
    16-bit length field; its length is a multiple of four; parsing it gives back
    the channel and the length, and the data portion is the data. *)
Theorem channel_data_roundtrip ch data :
  in_width 16 ch ->
  (build_channel_data ch data = None <-> 65535 < Z.of_nat (length data)) /\
  forall msg, build_channel_data ch data = Some msg ->
    exists pad, parse_channel_data_header msg = Some (ch, length data, pad) /\ (pad < 4)%nat /\
    get_slice msg 4 (length data) = Some data /\ Nat.divide 4 (length msg).
Proof.
  intros Hch. split.
  - unfold build_channel_data. case_decide; split; done.
  - intros msg E. destruct (parse_build_channel_data _ _ _ Hch E) as (H1 & H2 & H3 & H4).
    eexists. split_and!; [exact H1|apply Nat.mod_upper_bound; lia|done..].
Qed.

Lemma channel_data_roundtrip_witness :
  build_channel_data 16384 [1; 2; 3; 4; 5] =
    Some [64; 0; 0; 5; 1; 2; 3; 4; 5; 0; 0; 0] /\
  exists pad, parse_channel_data_header [64; 0; 0; 5; 1; 2; 3; 4; 5; 0; 0; 0]
    = Some (16384, 5%nat, pad).
Proof.
  split; [done|].
  destruct (channel_data_roundtrip 16384 [1; 2; 3; 4; 5]) as [_ H]; [done|].
  destruct (H [64; 0; 0; 5; 1; 2; 3; 4; 5; 0; 0; 0] eq_refl) as (pad & H1 & _). by exists pad.
Defined.

Lemma parse_header_payload packet ch len pad payload :
  parse_channel_data_header packet = Some (ch, len, pad) ->
  get_slice packet 4 len = Some payload -> payload = slice packet 4 len.
Proof. unfold get_slice. intros _. case_decide; congruence. Qed.

(** A frame parses whatever the channel number, reduced to 16 bits. *)
Lemma parse_build_any ch data msg :
  build_channel_data ch data = Some msg ->
  parse_channel_data_header msg =
    Some (wrap 16 ch, length data, ((4 - length data mod 4) mod 4)%nat) /\
  slice msg 4 (length data) = data.
Proof.
  intros E. assert (build_channel_data (wrap 16 ch) data = Some msg) as E'.
  { rewrite <- E. unfold build_channel_data. case_decide; [done|].
    do 2 f_equal. apply to_be_bytes_mod. unfold wrap. change (2 ^ 16) with (256 ^ Z.of_nat 2).
    by rewrite Z.mod_mod by lia. }
  destruct (parse_build_channel_data _ _ _ (in_width_wrap 16 ch ltac:(lia)) E') as (H1 & H2 & _).
  split; [done|]. unfold get_slice in H2. case_decide; congruence.
Qed.

(** ** Every handler keeps the promise *)

Ltac turn_incoming :=
  split_matches; do 3 eexists; (split; [done|]); simpl;
  first [done | by eapply parse_header_payload].

#[export] Instance relay_laws : TurnHandlerLaws relay_state.
Proof.
  split; simpl.
  - unfold Relay.send_turn_outgoing. intros. split_matches. eauto.
  - unfold Relay.handle_turn_incoming, Relay.incoming_unmapped. intros. turn_incoming.
Qed.

#[export] Instance client_laws : TurnHandlerLaws Client.client_state.
Proof.
  split; simpl.
  - unfold Client.send_turn_outgoing. intros. split_matches. eauto.
  - unfold Client.handle_turn_incoming. intros. turn_incoming.
Qed.

#[export] Instance compat_laws : TurnHandlerLaws Compat.handler_impl.
Proof.
  split; simpl.
  - unfold Relay.send_turn_outgoing. intros. split_matches. eauto.
  - unfold Compat.handle_turn_incoming. intros. turn_incoming.
Qed.

#[export] Instance client_impl_laws : TurnHandlerLaws Compat.client_impl.
Proof.
  split; simpl.
  - unfold Client.send_turn_outgoing. intros. split_matches. eauto.
  - unfold Compat.client_handle_turn_incoming. intros. turn_incoming.
Qed.

(** End to end, for any two TURN handlers: whatever packet the sending
    handler wraps and the receiving handler accepts is delivered unchanged,
    padding removed, and the frame was addressed to the destination. *)
Theorem turn_end_to_end {S1 S2} `{TurnHandlerLaws S1, TurnHandlerLaws S2}
  (s1 : S1) (s2 : S2) src dst sender local packet m w :
  send_turn_outgoing src dst packet s1 = Some m ->
  handle_turn_incoming sender local (tm_message m) s2 = Returns (Some w) ->
  tm_ip_address m = dst /\ w_message w = packet.
Proof.
  intros [Hd [ch Hf]]%outgoing_frame (ch' & len & pad & Hp & ->)%incoming_payload.
  split; [done|]. destruct (parse_build_any _ _ _ Hf) as [Hp' <-]. rewrite Hp' in Hp.
  by simplify_eq.
Qed.

(** ** Channel allocation *)

Lemma probe_some used n c ch :
  Relay.probe used n c = Some ch -> MIN_CH <= ch <= MAX_CH /\ used !! ch = None.
Proof.
  revert c. induction n as [|n IH]; intros c; simpl; [done|].
  destruct ((MIN_CH <=? c) && (c <=? MAX_CH)) eqn:E; case_match; [by apply IH| |by apply IH|];
    intros [= <-]; split; try done; unfold MIN_CH, MAX_CH in *; lia.
Qed.

(** The [i]-th candidate, starting from [c]. *)
Definition candidate_at (c : Z) (i : Z) : Z := MIN_CH + (c - MIN_CH + i) mod channel_range.

Lemma probe_none used n c :
  MIN_CH <= c <= MAX_CH -> Relay.probe used n c = None ->
  forall i, 0 <= i < Z.of_nat n -> is_Some (used !! candidate_at c i).
Proof.
  revert c. induction n as [|n IH]; intros c Hc; simpl; [lia|].
  assert ((MIN_CH <=? c) && (c <=? MAX_CH) = true) as -> by lia.
  destruct (used !! c) eqn:Eu; [|done]. intros Hn i Hi.
  unfold candidate_at, channel_range, MIN_CH, MAX_CH in *.
  destruct (decide (i = 0)) as [->|Hi0].
  - rewrite Z.mod_small by lia. by replace (16384 + (c - 16384 + 0)) with c by lia.
  - destruct (Z.eqb_spec c 32766) as [->|Hne].
    + specialize (IH 16384 ltac:(lia) Hn (i - 1) ltac:(lia)).
      replace ((32766 - 16384 + i) mod (32766 - 16384 + 1))
        with ((16384 - 16384 + (i - 1)) mod (32766 - 16384 + 1)); [done|].
      Z.div_mod_to_equations. lia.
    + specialize (IH (c + 1) ltac:(lia) Hn (i - 1) ltac:(lia)).
      by replace (c + 1 - 16384 + (i - 1)) with (c - 16384 + i) in IH by lia.
Qed.

Lemma alloc_channel_some seed s ch :
  Relay.alloc_channel seed s = Some ch -> MIN_CH <= ch <= MAX_CH /\ ch_to_pair s !! ch = None.
Proof. apply probe_some. Qed.

Lemma alloc_channel_none seed s :
  Relay.alloc_channel seed s = None ->
  forall ch, MIN_CH <= ch <= MAX_CH -> is_Some (ch_to_pair s !! ch).
Proof.
  unfold Relay.alloc_channel.
  pose proof (Z.mod_pos_bound (wrap 32 seed) channel_range ltac:(done)) as Hm.
  revert Hm. generalize (wrap 32 seed mod channel_range) as off. intros off Hm.
  assert (MIN_CH <= MIN_CH + off <= MAX_CH) as Hc
    by (unfold channel_range, MIN_CH, MAX_CH in *; lia).
  rewrite (wrap_small 16) by (unfold in_width, MIN_CH, MAX_CH in *; lia).
  revert Hc. generalize (MIN_CH + off) as c. clear. intros c Hc E ch Hch.
  assert (is_Some (ch_to_pair s !! candidate_at c ((ch - c) mod channel_range))) as G.
  { eapply probe_none; [exact Hc|exact E|]. rewrite Z2Nat.id by done.
    by apply Z.mod_pos_bound. }
  replace (candidate_at c _) with ch in G; [done|].
  unfold candidate_at. rewrite Z.add_mod_idemp_r by done.
  rewrite Z.mod_small; unfold channel_range, MIN_CH, MAX_CH in *; lia.
Qed.

(** Channel allocation is sound and complete for every seed: an allocated
    channel is in the range 0x4000..0x7FFE and not in use, and allocation fails
    only when every channel of the range is in use. *)
Theorem alloc_channel_spec seed s :
  (forall ch, Relay.alloc_channel seed s = Some ch ->
     MIN_CH <= ch <= MAX_CH /\ ch_to_pair s !! ch = None) /\
  (Relay.alloc_channel seed s = None <->
     forall ch, MIN_CH <= ch <= MAX_CH -> is_Some (ch_to_pair s !! ch)).
Proof.
  split; [intros ch; apply alloc_channel_some|]. split; [apply alloc_channel_none|].
  intros H. destruct (Relay.alloc_channel seed s) as [ch|] eqn:E; [|done].
  apply alloc_channel_some in E as [Hr Hn]. destruct (H ch Hr). congruence.
Qed.

(** ** The relay's channel table *)

(** What a relay is asked to do: registrations and calls. *)
Inductive relay_op : Type :=
| OpListen (id : string) (addr : SocketAddr)
| OpCall (seed : Z) (source_id dest_id : string) (source dest : SocketAddr).

Definition run_op (s : relay_state) (op : relay_op) : relay_state :=
  match op with
  | OpListen id addr => (Relay.handle_listen id addr s).1
  | OpCall seed sid did src dst => (Relay.handle_call seed sid did src dst s).1
  end.

Definition run_ops (ops : list relay_op) (s : relay_state) : relay_state := foldl run_op s ops.

Definition registered (addr : SocketAddr) (s : relay_state) : Prop :=
  is_Some (allowed_addr_to_id s !! addr).

(** The two tables are inverse of each other, channels are in range, and both
    ends of a channel are registered. *)
Record relay_wf (s : relay_state) : Prop := {
  wf_inverse : forall p ch, pair_to_ch s !! p = Some ch <-> ch_to_pair s !! ch = Some p;
  wf_range : forall ch p, ch_to_pair s !! ch = Some p -> MIN_CH <= ch <= MAX_CH;
  wf_registered : forall ch p, ch_to_pair s !! ch = Some p -> registered p.1 s /\ registered p.2 s
}.

(** [s'] extends [s]: no channel is rebound, no address is forgotten. *)
Definition extends (s s' : relay_state) : Prop :=
  (forall ch p, ch_to_pair s !! ch = Some p -> ch_to_pair s' !! ch = Some p) /\
  (forall a, registered a s -> registered a s').

#[export] Instance extends_preorder : PreOrder extends.
Proof. split; [done|]. intros s1 s2 s3 [A1 B1] [A2 B2]. split; auto. Qed.

Lemma registered_allow id addr a s : registered a s -> registered a (allow id addr s).
Proof.
  intros H. unfold registered, allow. simpl. rewrite lookup_insert. by case_decide.
Qed.

Lemma registered_allow_self id addr s : registered addr (allow id addr s).
Proof. unfold registered, allow. simpl. by simplify_map_eq. Qed.

Lemma registered_if_absent id addr a s : registered a s -> registered a (allow_if_absent id addr s).
Proof. unfold allow_if_absent. intros. case_match; [done|]. by apply registered_allow. Qed.

Lemma registered_if_absent_self id addr s : registered addr (allow_if_absent id addr s).
Proof.
  unfold allow_if_absent. case_match eqn:E; [by unfold registered; rewrite E|].
  apply registered_allow_self.
Qed.

Lemma if_absent_tables id addr s :
  ch_to_pair (allow_if_absent id addr s) = ch_to_pair s /\
  pair_to_ch (allow_if_absent id addr s) = pair_to_ch s.
Proof. unfold allow_if_absent. by case_match. Qed.

#[export] Hint Resolve registered_allow registered_if_absent registered_if_absent_self : bingle.

Lemma handle_call_cases seed sid did a b s s' ch :
  relay_wf s -> Relay.handle_call seed sid did a b s = (s', ch) ->
  (s' = s /\ pair_to_ch s !! (a, b) = Some ch) \/
  (s' = s /\ ch = -1 /\ Relay.alloc_channel seed s = None /\ pair_to_ch s !! (a, b) = None) \/
  (pair_to_ch s !! (a, b) = None /\ ch_to_pair s !! ch = None /\ MIN_CH <= ch <= MAX_CH /\
   ch_to_pair s' = <[ch := (a, b)]> (ch_to_pair s) /\
   pair_to_ch s' = <[(a, b) := ch]> (pair_to_ch s) /\
   registered a s' /\ registered b s' /\ forall x, registered x s -> registered x s').
Proof.
  intros Hwf E. unfold Relay.handle_call in E.
  destruct (pair_to_ch s !! (a, b)) eqn:Ep; simplify_eq; [by left|right].
  destruct (Relay.alloc_channel seed s) as [c|] eqn:Ea; simplify_eq; [right|by left].
  destruct (alloc_channel_some _ _ _ Ea) as [Hr Hn].
  rewrite !(proj1 (if_absent_tables _ _ _)), !(proj2 (if_absent_tables _ _ _)). simpl.
  split_and!; auto with bingle; lia.
Qed.

Lemma handle_call_wf seed sid did a b s s' ch :
  relay_wf s -> Relay.handle_call seed sid did a b s = (s', ch) -> relay_wf s' /\ extends s s'.
Proof.
  intros Hwf E.
  destruct (handle_call_cases _ _ _ _ _ _ _ _ Hwf E)
    as [[-> _]|[[-> _]|(Hp & Hc & Hr & E1 & E2 & Ha & Hb & Hx)]]; [done..|].
  destruct Hwf as [Hi Hrg Hreg]. split; [split|split]; rewrite ?E1, ?E2; try done.
  - intros p c. rewrite !lookup_insert. repeat case_decide; subst; naive_solver.
  - intros c p. rewrite lookup_insert. case_decide; [intros; by simplify_eq|apply Hrg].
  - intros c p. rewrite lookup_insert. case_decide; [intros; by simplify_eq|].
    intros []%Hreg. auto.
  - intros c p Hcp. rewrite lookup_insert_ne; [done|]. intros ->. congruence.
Qed.

Lemma run_op_wf op s : relay_wf s -> relay_wf (run_op s op) /\ extends s (run_op s op).
Proof.
  intros Hwf. destruct op as [id addr|seed sid did a b]; simpl.
  - destruct Hwf as [Hi Hrg Hreg]. split; [split|split]; simpl; try done; auto with bingle.
    intros c p []%Hreg. auto with bingle.
  - destruct (Relay.handle_call seed sid did a b s) eqn:E. simpl. by eapply handle_call_wf.
Qed.

Lemma run_ops_wf ops s : relay_wf s -> relay_wf (run_ops ops s) /\ extends s (run_ops ops s).
Proof.
  revert s. induction ops as [|op ops IH]; intros s Hwf; simpl; [by split|].
  destruct (run_op_wf op s Hwf) as [H1 H2]. destruct (IH _ H1) as [H3 H4].
  split; [done|]. by transitivity (run_op s op).
Qed.

Lemma relay_wf_new : relay_wf Relay.new.
Proof. split; simpl; intros; rewrite ?lookup_empty in *; done. Qed.

(** The relay's channel tables: after any sequence of registrations and
    calls, the two tables are inverse of each other (so two pairs never share a
    channel), every channel is in the TURN range, both ends of every channel are
    registered; further operations never rebind a channel nor forget an address. *)
Theorem relay_channels_wf ops1 ops2 :
  let s := run_ops ops1 Relay.new in
  relay_wf s /\ extends s (run_ops ops2 s).
Proof.
  intros s. destruct (run_ops_wf ops1 _ relay_wf_new) as [H _].
  split; [done|]. by apply run_ops_wf.
Qed.

(** A call is idempotent: if it yields a channel, repeating it later, with
    any seed and any ids, changes nothing and yields the same channel; it fails
    only when all channels are taken, and then changes nothing. *)
Theorem relay_call_idempotent ops seed sid did a b ops' seed' sid' did' :
  let s := run_ops ops Relay.new in
  let r := Relay.handle_call seed sid did a b s in
  if decide (r.2 = -1) then
    r.1 = s /\ forall ch, MIN_CH <= ch <= MAX_CH -> is_Some (ch_to_pair s !! ch)
  else
    let s' := run_ops ops' r.1 in
    Relay.handle_call seed' sid' did' a b s' = (s', r.2).
Proof.
  intros s r. destruct (run_ops_wf ops _ relay_wf_new) as [Hwf _]. fold s in Hwf.
  destruct r as [s1 ch] eqn:E. unfold r in E. clear r. simpl.
  destruct (handle_call_wf _ _ _ _ _ _ _ _ Hwf E) as [Hwf1 _].
  destruct (handle_call_cases _ _ _ _ _ _ _ _ Hwf E)
    as [[-> Hp]|[(-> & -> & Ha & _)|(_ & _ & Hr & _ & E2 & _)]].
  - case_decide as Hch.
    + apply (wf_inverse _ Hwf), (wf_range _ Hwf) in Hp. unfold MIN_CH in Hp. lia.
    + unfold Relay.handle_call. destruct (run_ops_wf ops' s Hwf) as [Hwf2 [Hx _]].
      apply (wf_inverse _ Hwf), Hx, (wf_inverse _ Hwf2) in Hp. by rewrite Hp.
  - rewrite decide_True by done. split; [done|]. by eapply alloc_channel_none.
  - rewrite decide_False by (unfold MIN_CH in Hr; lia).
    unfold Relay.handle_call. destruct (run_ops_wf ops' s1 Hwf1) as [Hwf2 [Hx _]].
    assert (pair_to_ch s1 !! (a, b) = Some ch) as Hp by (rewrite E2; by simplify_map_eq).
    apply (wf_inverse _ Hwf1), Hx, (wf_inverse _ Hwf2) in Hp. by rewrite Hp.
Qed.

Lemma incoming_mapped s ch a b data msg sender lp :
  relay_wf s -> ch_to_pair s !! ch = Some (a, b) -> build_channel_data ch data = Some msg ->
  exists ep, Relay.handle_turn_incoming (Some sender) (Some lp) msg s =
    Some (Wrapped (if decide (sender = a) then b else a) ep data (bool_decide (a = b))).
Proof.
  intros Hwf Hch Hm. pose proof (wf_range _ Hwf _ _ Hch) as Hr.
  destruct (wf_registered _ Hwf _ _ Hch) as [[ia Ha] [ib Hb]]. simpl in Ha, Hb.
  destruct (parse_build_channel_data ch data msg) as (Hp & Hs & _);
    [unfold in_width, MIN_CH, MAX_CH in *; lia|done|].
  unfold Relay.handle_turn_incoming. rewrite Hp, Hch, Hb, Hs.
  destruct (decide (sender = a)) as [->|Hne].
  - rewrite Ha, bool_decide_eq_false_2 by tauto. eauto.
  - rewrite bool_decide_eq_true_2 by done. destruct (allowed_addr_to_id s !! sender); eauto.
Qed.

(** Forwarding: once a call from [a] to [b] has yielded channel [ch], and
    whatever registrations and calls follow, data framed on [ch] is forwarded
    unchanged: from [a] to [b], and from [b] back to [a]; the packet is for the
    relay itself exactly when the two ends coincide. *)
Theorem relay_forwards ops seed sid did a b s1 ch ops' data msg lp :
  Relay.handle_call seed sid did a b (run_ops ops Relay.new) = (s1, ch) -> ch <> -1 ->
  build_channel_data ch data = Some msg ->
  let s := run_ops ops' s1 in
  (exists ep, Relay.handle_turn_incoming (Some a) (Some lp) msg s =
    Some (Wrapped b ep data (bool_decide (a = b)))) /\
  (exists ep, Relay.handle_turn_incoming (Some b) (Some lp) msg s =
    Some (Wrapped a ep data (bool_decide (a = b)))).
Proof.
  intros E Hch Hm s. destruct (run_ops_wf ops _ relay_wf_new) as [Hwf _].
  destruct (handle_call_wf _ _ _ _ _ _ _ _ Hwf E) as [Hwf1 _].
  destruct (run_ops_wf ops' s1 Hwf1) as [Hwf2 [Hx _]]. fold s in Hwf2, Hx.
  assert (ch_to_pair s1 !! ch = Some (a, b)) as Hc%Hx.
  { destruct (handle_call_cases _ _ _ _ _ _ _ _ Hwf E)
      as [[-> Hp]|[(_ & -> & _)|(_ & _ & _ & -> & _)]]; [|done|by simplify_map_eq].
    by apply (wf_inverse _ Hwf). }
  split.
  - destruct (incoming_mapped _ _ _ _ _ _ a lp Hwf2 Hc Hm) as [ep H].
    rewrite decide_True in H by done. eauto.
  - destruct (incoming_mapped _ _ _ _ _ _ b lp Hwf2 Hc Hm) as [ep H].
    case_decide; subst; eauto.
Qed.

(** A relay does not check that the sender of a packet on a channel is one of
    the channel's ends: a packet from any third address is forwarded to the
    caller, as if it came from the destination. *)
Theorem relay_third_party ops ch a b data msg x lp :
  let s := run_ops ops Relay.new in
  ch_to_pair s !! ch = Some (a, b) -> x <> a -> build_channel_data ch data = Some msg ->
  exists ep, Relay.handle_turn_incoming (Some x) (Some lp) msg s =
    Some (Wrapped a ep data (bool_decide (a = b))).
Proof.
  intros s Hc Hx Hm. destruct (run_ops_wf ops _ relay_wf_new) as [Hwf _].
  destruct (incoming_mapped _ _ _ _ _ _ x lp Hwf Hc Hm) as [ep H].
  rewrite decide_False in H by done. eauto.
Qed.

(** The combined handler agrees with the relay handler on the same tables,
    and does not panic, whenever the sender's address and the local public
    address are known; it also agrees without a local address for senders that
    are not registered. *)
Theorem compat_incoming_agrees x local packet s :
  is_Some local \/ allowed_addr_to_id s !! x = None ->
  Compat.handle_turn_incoming (Some x) local packet s =
    Returns (Relay.handle_turn_incoming (Some x) local packet s).
Proof.
  intros Hl. unfold Compat.handle_turn_incoming, Relay.handle_turn_incoming,
    Relay.incoming_unmapped, get_slice.
  assert (forall ch len pad, parse_channel_data_header packet = Some (ch, len, pad) ->
    (4 + len <= length packet)%nat) as Hlen.
  { unfold parse_channel_data_header. intros. split_matches; lia. }
  destruct (parse_channel_data_header packet) as [[[ch len] pad]|]; [|done].
  rewrite !decide_True by eauto.
  destruct (ch_to_pair s !! ch) as [[a b]|]; [|by destruct (allowed_addr_to_id s !! x)].
  destruct (allowed_addr_to_id s !! b); [|done].
  destruct Hl as [[lp ->]| ->]; [|done]. by destruct (allowed_addr_to_id s !! x).
Qed.

(** ** The client's view *)

Inductive client_op : Type :=
| COListenResponse (relay_address : SocketAddr) (rid : string)
| COCallResponse (source dest : SocketAddr) (channel : Z) (rid : string)
| COCalled (source dest : SocketAddr) (channel : Z).

Definition run_client_op (s : Client.client_state) (op : client_op) : Client.client_state :=
  match op with
  | COListenResponse a rid => Client.handle_listen_response a rid s
  | COCallResponse a b ch rid => Client.handle_call_response a b ch rid s
  | COCalled a b ch => Client.handle_called a b ch s
  end.

Definition run_client_ops (ops : list client_op) (s : Client.client_state)
  : Client.client_state := foldl run_client_op s ops.

(** The id under which an operation announces [addr], if it does. *)
Definition announces (addr : SocketAddr) (op : client_op) : option string :=
  match op with
  | COListenResponse a rid => if decide (a = addr) then Some rid else None
  | COCallResponse a b _ rid =>
      if decide (a = addr) then Some rid else if decide (b = addr) then Some rid else None
  | COCalled _ _ _ => None
  end.

(** The channel an operation sets for the ordered pair, if it does. *)
Definition sets_channel (p : AddrPair) (op : client_op) : option Z :=
  match op with
  | COListenResponse _ _ => None
  | COCallResponse a b ch _ | COCalled a b ch =>
      if decide (p = (a, b) \/ p = (b, a)) then Some ch else None
  end.

(** The most recent answer [f] gives in a sequence of operations. *)
Definition latest {A} (f : client_op -> option A) (ops : list client_op) : option A :=
  foldl (fun acc op => match f op with Some x => Some x | None => acc end) None ops.

Lemma run_client_ops_tables ops addr p :
  let s := run_client_ops ops Client.new in
  Client.allowed_addr_to_id s !! addr = latest (announces addr) ops /\
  Client.pair_to_ch s !! p = latest (sets_channel p) ops.
Proof.
  unfold latest, run_client_ops. induction ops as [|op ops IH] using rev_ind; [done|].
  rewrite !foldl_app. simpl. destruct IH as [IH1 IH2].
  set (s := foldl run_client_op Client.new ops) in *.
  split; [rewrite <- IH1|rewrite <- IH2]; clearbody s; clear;
    destruct op as [a rid|a b ch rid|a b ch]; simpl; try done; rewrite ?lookup_insert;
    repeat case_decide; simplify_eq; naive_solver.
Qed.

(** A client accepts exactly the packets of relays announced to it: after
    any sequence of listen responses, call responses and call notifications, a
    framed packet from [addr] is unwrapped, with its payload unchanged and a relay
    endpoint naming the relay id most recently announced for [addr] and the
    packet's channel, if [addr] was announced, and is dropped otherwise; an
    outgoing packet uses the channel most recently set for the pair, in either
    direction. *)
Theorem client_accepts_announced ops addr ch data msg dst packet :
  in_width 16 ch -> build_channel_data ch data = Some msg ->
  let s := run_client_ops ops Client.new in
  Client.handle_turn_incoming (Some addr) msg s =
    match latest (announces addr) ops with
    | Some rid => Some (Wrapped addr (new_relay rid (Some addr) (Some ch)) data false)
    | None => None
    end /\
  Client.send_turn_outgoing addr dst packet s =
    match latest (sets_channel (addr, dst)) ops with
    | Some c => match build_channel_data c packet with
                | Some m => Some (TurnMessage dst m)
                | None => None
                end
    | None => None
    end.
Proof.
  intros Hch Hm s. destruct (run_client_ops_tables ops addr (addr, dst)) as [H1 H2].
  fold s in H1, H2.
  destruct (parse_build_channel_data ch data msg Hch Hm) as (Hp & Hs & _).
  unfold Client.handle_turn_incoming, Client.send_turn_outgoing.
  by rewrite Hp, Hs, H1, H2.
Qed.

(** ** The theorems on a concrete relay and client *)

Module TurnExample.
Definition alice : SocketAddr := SockAddr (V4 10 0 0 1) 5000.
Definition bob : SocketAddr := SockAddr (V4 10 0 0 2) 5001.
Definition mallory : SocketAddr := SockAddr (V4 6 6 6 6) 666.
Definition relay_pub : SocketAddr := SockAddr (V4 1 2 3 4) 3478.
Definition ops : list relay_op := [OpListen "BOB" bob; OpCall 7 "ALICE" "BOB" alice bob].
Definition client_ops : list client_op :=
  [COListenResponse relay_pub "RELAY"; COCalled alice bob 16391].
End TurnExample.
Import TurnExample.

Lemma turn_end_to_end_witness :
  exists m w,
    send_turn_outgoing alice bob [1; 2; 3] (run_ops ops Relay.new) = Some m /\
    handle_turn_incoming (Some relay_pub) None (tm_message m)
      (run_client_ops client_ops Client.new) = Returns (Some w) /\
    w_message w = [1; 2; 3].
Proof.
  do 2 eexists. split; [vm_compute; reflexivity|]. split; [vm_compute; reflexivity|].
  refine (proj2 (turn_end_to_end (run_ops ops Relay.new) (run_client_ops client_ops Client.new)
    alice bob (Some relay_pub) None [1; 2; 3] _ _ _ _)); vm_compute; reflexivity.
Defined.

Lemma relay_forwards_witness :
  exists s1 msg, Relay.handle_call 7 "ALICE" "BOB" alice bob (run_ops [] Relay.new) = (s1, 16391) /\
    build_channel_data 16391 [9] = Some msg /\
    exists ep, Relay.handle_turn_incoming (Some alice) (Some relay_pub) msg (run_ops ops s1)
      = Some (Wrapped bob ep [9] false).
Proof.
  destruct (Relay.handle_call 7 "ALICE" "BOB" alice bob (run_ops [] Relay.new)) as [s1 ch] eqn:E.
  assert (ch = 16391) as ->.
  { change ch with (s1, ch).2. rewrite <- E. vm_compute. reflexivity. }
  exists s1, [64; 7; 0; 1; 9; 0; 0; 0]. split; [done|]. split; [done|].
  exact (proj1 (relay_forwards [] 7 "ALICE" "BOB" alice bob s1 16391 ops [9]
    [64; 7; 0; 1; 9; 0; 0; 0] relay_pub E ltac:(done) eq_refl)).
Defined.

Lemma relay_third_party_witness :
  exists ep, Relay.handle_turn_incoming (Some mallory) (Some relay_pub)
    [64; 7; 0; 1; 9; 0; 0; 0] (run_ops ops Relay.new) = Some (Wrapped alice ep [9] false).
Proof.
  exact (relay_third_party ops 16391 alice bob [9] [64; 7; 0; 1; 9; 0; 0; 0] mallory relay_pub
    ltac:(vm_compute; reflexivity) ltac:(done) eq_refl).
Defined.

Lemma compat_incoming_agrees_witness :
  Compat.handle_turn_incoming (Some alice) (Some relay_pub) [64; 7; 0; 1; 9; 0; 0; 0]
    (run_ops ops Relay.new) =
  Returns (Relay.handle_turn_incoming (Some alice) (Some relay_pub) [64; 7; 0; 1; 9; 0; 0; 0]
    (run_ops ops Relay.new)).
Proof. apply compat_incoming_agrees. left. by eexists. Defined.

Lemma client_accepts_announced_witness :
  Client.handle_turn_incoming (Some relay_pub) [64; 7; 0; 1; 9; 0; 0; 0]
    (run_client_ops client_ops Client.new) =
  Some (Wrapped relay_pub (new_relay "RELAY" (Some relay_pub) (Some 16391)) [9] false).
Proof.
  exact (proj1 (client_accepts_announced client_ops relay_pub 16391 [9]
    [64; 7; 0; 1; 9; 0; 0; 0] bob [] ltac:(done) eq_refl)).
Defined.
