(* ===== verification/Mutex.v ===== *)
(** * The distributed mutex: one node

    Models [ModifiedLamportDistributedMutex] of
    [src/bingle_core/src/distributed_mutex/mod.rs]: the state a node keeps, the
    handlers of the three messages, and the phases of [acquire] (start,
    broadcast, the entry test made before and after each wait, exit).  A handler
    returns the new state and the messages it sends, in order; broadcasts send to
    the members in the order of [elements] (the order of the source's hash set is
    unspecified).  Instants and durations are milliseconds.  [lamport] is an
    [i64]; its additions wrap.  [MutexCluster] composes the nodes. *)
From S2P Require Import Prelude.

Local Open Scope Z_scope.

Definition i64_add (a b : Z) : Z := signed 64 (wrap 64 (a + b)).

(** ** Messages ([src/bingle_core/src/messages/types.rs]) *)

Record MutexRequest : Type := MkRequest {
  req_lamport_timestamp : Z;
  req_known_ids : option (gset string)
}.

Record MutexResponse : Type := MkResponse {
  resp_known_ids : option (gset string);
  resp_response_tag : option string
}.

Record MutexRelease : Type := MkRelease { rel_known_ids : option (gset string) }.

Inductive message : Type :=
| MRequest (r : MutexRequest)
| MReply (r : MutexResponse)
| MRelease (r : MutexRelease).

(** A message with its addressee. *)
Abbreviation send := (string * message)%type.

(** ** [BTreeSet<(i64, String)>]: a list sorted by timestamp then id *)

Definition key_ltb (a b : Z * string) : bool :=
  (a.1 <? b.1) || ((a.1 =? b.1) && String.ltb a.2 b.2).

Fixpoint btree_insert (x : Z * string) (l : list (Z * string)) : list (Z * string) :=
  match l with
  | [] => [x]
  | y :: l' =>
      if decide (x = y) then l
      else if key_ltb x y then x :: l
      else y :: btree_insert x l'
  end.

Definition btree_remove (x : Z * string) (l : list (Z * string)) : list (Z * string) :=
  filter (fun y => y <> x) l.

(** [deferred.retain(|(_, did)| did != id)]. *)
Definition drop_deferred (id : string) (l : list (Z * string)) : list (Z * string) :=
  filter (fun y => y.2 <> id) l.

(** ** State *)

Record InnerState : Type := MkInner {
  lamport : Z;
  current_request_ts : option Z;
  acks : gset string;
  deferred : list (Z * string);
  last_holder : option (string * Z * Z);
  in_cs : bool;
  dynamic_node_ids : gset string
}.

Definition set_lamport (z : Z) (st : InnerState) : InnerState :=
  MkInner z (current_request_ts st) (acks st) (deferred st) (last_holder st) (in_cs st)
    (dynamic_node_ids st).
Definition set_request (r : option Z) (st : InnerState) : InnerState :=
  MkInner (lamport st) r (acks st) (deferred st) (last_holder st) (in_cs st)
    (dynamic_node_ids st).
Definition set_acks (a : gset string) (st : InnerState) : InnerState :=
  MkInner (lamport st) (current_request_ts st) a (deferred st) (last_holder st) (in_cs st)
    (dynamic_node_ids st).
Definition set_deferred (d : list (Z * string)) (st : InnerState) : InnerState :=
  MkInner (lamport st) (current_request_ts st) (acks st) d (last_holder st) (in_cs st)
    (dynamic_node_ids st).
Definition set_holder (h : option (string * Z * Z)) (st : InnerState) : InnerState :=
  MkInner (lamport st) (current_request_ts st) (acks st) (deferred st) h (in_cs st)
    (dynamic_node_ids st).
Definition set_in_cs (b : bool) (st : InnerState) : InnerState :=
  MkInner (lamport st) (current_request_ts st) (acks st) (deferred st) (last_holder st) b
    (dynamic_node_ids st).
Definition set_members (m : gset string) (st : InnerState) : InnerState :=
  MkInner (lamport st) (current_request_ts st) (acks st) (deferred st) (last_holder st)
    (in_cs st) m.

Definition new_state (self_id : string) (node_ids : list string) : InnerState :=
  MkInner 0 None ∅ [] None false ({[self_id]} ∪ list_to_set node_ids).

Definition required_acks (st : InnerState) : nat := size (dynamic_node_ids st).

Definition update_membership (from_id : string) (known_ids : option (gset string))
  (st : InnerState) : bool * InnerState :=
  let m := {[from_id]} ∪ default ∅ known_ids ∪ dynamic_node_ids st in
  (bool_decide (m <> dynamic_node_ids st), set_members m st).

Section Node.
Context (self_id : string) (lease_duration : Z).

Definition others (st : InnerState) : list string :=
  elements (dynamic_node_ids st ∖ {[self_id]}).

(** ** Membership *)

(** [prune_unreachable]: one unreachable node after the other. *)
Definition prune_one (st : InnerState) (id : string) : InnerState :=
  let st := set_members (dynamic_node_ids st ∖ {[id]}) st in
  let st := set_deferred (drop_deferred id (deferred st)) st in
  match last_holder st with
  | Some (holder, _, _) => if decide (holder = id) then set_holder None st else st
  | None => st
  end.

Definition prune_unreachable (unreachable : list string) (st : InnerState) : InnerState :=
  foldl prune_one st unreachable.

(** ** Broadcasts *)

Definition request_message (ts : Z) (st : InnerState) : message :=
  MRequest (MkRequest ts (Some (dynamic_node_ids st))).

(** [delivered id] says whether the send to [id] succeeds. *)
Definition broadcast_request (delivered : string -> bool) (ts : Z) (st : InnerState)
  : InnerState * list send :=
  let ids := others st in
  (prune_unreachable (filter (fun id => delivered id = false) ids) st,
   map (fun id => (id, request_message ts st)) ids).

Definition broadcast_release (st : InnerState) : list send :=
  map (fun id => (id, MRelease (MkRelease (Some (dynamic_node_ids st))))) (others st).

Definition membership_only : string := "membership_only".

Definition broadcast_membership (st : InnerState) : list send :=
  map (fun id => (id, MReply (MkResponse (Some (dynamic_node_ids st)) (Some membership_only))))
    (others st).

Definition grant_reply (id : string) (st : InnerState) : send :=
  (id, MReply (MkResponse (Some (dynamic_node_ids st)) None)).

(** ** Handlers *)

(** [(ts, from) < (my_ts, self)] in the order of requests. *)
Definition goes_first (ts : Z) (from_id : string) (my_ts : Z) : bool :=
  match Z.compare ts my_ts with
  | Lt => true
  | Eq => String.ltb from_id self_id
  | Gt => false
  end.

Definition deferred_by_lease (now : Z) (from_id : string) (st : InnerState) : bool :=
  match last_holder st with
  | Some (holder, _, deadline) => bool_decide (holder <> from_id) && (now <? deadline)
  | None => false
  end.

Definition defer (ts : Z) (from_id : string) (st : InnerState) : InnerState :=
  set_deferred (btree_insert (ts, from_id) (deferred st)) st.

(** Grants the requester: a retry of the granted request keeps its deadline. *)
Definition grant (now ts : Z) (from_id : string) (st : InnerState) : InnerState :=
  let deadline :=
    match last_holder st with
    | Some (holder, hts, deadline) =>
        if decide (holder = from_id /\ hts = ts) then deadline else now + lease_duration
    | None => now + lease_duration
    end in
  set_deferred (drop_deferred from_id (deferred st)) (set_holder (Some (from_id, ts, deadline)) st).

Definition handle_request (now : Z) (from_id : string) (req : MutexRequest) (st : InnerState)
  : InnerState * list send :=
  let ts := req_lamport_timestamp req in
  let st := set_lamport (i64_add (Z.max (lamport st) ts) 1) st in
  let '(membership_changed, st) := update_membership from_id (req_known_ids req) st in
  let '(st, should_send_reply) :=
    if in_cs st then (defer ts from_id st, false)
    else if deferred_by_lease now from_id st then (defer ts from_id st, false)
    else
      let grant_now :=
        match current_request_ts st with
        | None => true
        | Some my_ts => goes_first ts from_id my_ts
        end in
      if grant_now then (grant now ts from_id st, true) else (defer ts from_id st, false) in
  (st, (if membership_changed then broadcast_membership st else []) ++
       (if should_send_reply then [grant_reply from_id st] else [])).

Definition handle_reply (from_id : string) (resp : MutexResponse) (st : InnerState)
  : InnerState * list send :=
  let '(membership_changed, st) := update_membership from_id (resp_known_ids resp) st in
  let st :=
    match current_request_ts st with
    | Some _ =>
        if decide (resp_response_tag resp = Some membership_only) then st
        else set_acks ({[from_id]} ∪ acks st) st
    | None => st
    end in
  (st, if membership_changed then broadcast_membership st else []).

(** Grants the earliest deferred request, if there is one. *)
Definition grant_next (now : Z) (st : InnerState) : InnerState * option string :=
  match deferred st with
  | [] => (st, None)
  | (next_ts, next_id) :: _ =>
      let st := set_deferred (btree_remove (next_ts, next_id) (deferred st)) st in
      (set_holder (Some (next_id, next_ts, now + lease_duration)) st, Some next_id)
  end.

Definition handle_release (now : Z) (from_id : string) (rel : MutexRelease) (st : InnerState)
  : InnerState * list send :=
  let '(membership_changed, st) := update_membership from_id (rel_known_ids rel) st in
  let st :=
    match last_holder st with
    | Some (holder, _, _) => if decide (holder = from_id) then set_holder None st else st
    | None => st
    end in
  let '(st, next_grant) := grant_next now st in
  (st, (if membership_changed then broadcast_membership st else []) ++
       match next_grant with Some id => [grant_reply id st] | None => [] end).

(** ** [acquire] *)

(** Step 1: a new request; our own acknowledgement is counted at once. *)
Definition acquire_start (st : InnerState) : Z * InnerState :=
  let ts := i64_add (lamport st) 1 in
  (ts, set_acks {[self_id]} (set_request (Some ts) (set_lamport ts st))).

Definition can_enter (now : Z) (st : InnerState) : bool :=
  match last_holder st with
  | None => true
  | Some (holder, _, deadline) =>
      if decide (holder = self_id) then true else deadline <=? now
  end.

(** Step 2: the entry test, the same before a wait and after it. *)
Definition try_enter (now ts : Z) (st : InnerState) : option InnerState :=
  if decide (required_acks st <= size (acks st))%nat then
    if can_enter now st then
      Some (set_holder (Some (self_id, ts, now + lease_duration)) (set_in_cs true st))
    else None
  else None.

Definition next_backoff (backoff : Z) : Z := Z.min (Z.min backoff 1000 * 2) 1000.

Definition initial_backoff : Z := 50.

(** Step 3: grant the next deferred requester, then broadcast the release. *)
Definition acquire_exit (now : Z) (st : InnerState) : InnerState * list send :=
  let '(st, maybe_grant) :=
    match deferred st with
    | [] => (set_holder None st, None)
    | _ => grant_next now st
    end in
  let st := set_acks ∅ (set_request None (set_in_cs false st)) in
  (st, match maybe_grant with Some id => [grant_reply id st] | None => [] end
       ++ broadcast_release st).
End Node.

(** ** Lemmas: the ordered set of deferred requests *)

Definition deferred_sorted (l : list (Z * string)) : Prop :=
  StronglySorted (fun a b => key_ltb a b = true) l.

Lemma key_ltb_trans a b c : key_ltb a b = true -> key_ltb b c = true -> key_ltb a c = true.
Proof.
  unfold key_ltb. rewrite !orb_true_iff, !andb_true_iff, !Z.ltb_lt, !Z.eqb_eq.
  intros [?|[? H1]] [?|[? H2]]; [left; lia..|right].
  split; [lia|]. by eapply string_ltb_trans.
Qed.

Lemma key_ltb_total a b : a = b \/ key_ltb a b = true \/ key_ltb b a = true.
Proof.
  destruct a as [x s], b as [y t]. unfold key_ltb. simpl.
  rewrite !orb_true_iff, !andb_true_iff, !Z.ltb_lt, !Z.eqb_eq.
  destruct (Z.lt_trichotomy x y) as [|[->|]]; [by auto..| |by auto].
  destruct (string_ltb_total s t) as [->|[]]; auto 6.
Qed.

Lemma elem_of_btree_insert x y l : y ∈ btree_insert x l <-> y = x \/ y ∈ l.
Proof.
  induction l as [|z l IH]; simpl; [set_solver|].
  case_decide; [set_solver|]. destruct (key_ltb x z); set_solver.
Qed.

Lemma btree_insert_sorted x l : deferred_sorted l -> deferred_sorted (btree_insert x l).
Proof.
  unfold deferred_sorted. induction 1 as [|y l Hs IH Hy]; simpl; [repeat constructor|].
  case_decide; [by constructor|]. destruct (key_ltb x y) eqn:E.
  - constructor; [by constructor|]. constructor; [done|].
    eapply Forall_impl; [exact Hy|]. simpl. eauto using key_ltb_trans.
  - constructor; [done|]. apply Forall_forall.
    intros z [->|Hz]%elem_of_btree_insert; [|by eapply Forall_forall in Hy].
    destruct (key_ltb_total x y) as [|[|]]; congruence.
Qed.

Lemma filter_sorted (P : Z * string -> Prop) `{forall x, Decision (P x)} l :
  deferred_sorted l -> deferred_sorted (filter P l).
Proof.
  unfold deferred_sorted. induction 1 as [|y l Hs IH Hy]; [constructor|].
  rewrite filter_cons. case_decide; [|done]. constructor; [done|].
  apply Forall_forall. intros z [_ Hz]%list_elem_of_filter. by eapply Forall_forall in Hy.
Qed.

(** ** Lemmas: the handlers *)

Lemma update_membership_frame from known st b st' :
  update_membership from known st = (b, st') ->
  lamport st' = lamport st /\ current_request_ts st' = current_request_ts st /\
  acks st' = acks st /\ deferred st' = deferred st /\ last_holder st' = last_holder st /\
  in_cs st' = in_cs st /\
  dynamic_node_ids st' = {[from]} ∪ default ∅ known ∪ dynamic_node_ids st.
Proof. unfold update_membership. intros. by simplify_eq/=. Qed.

(** The grants among the messages of a handler: replies that are not
    membership announcements. *)
Definition is_grant (to : string) (m : send) : bool :=
  match m with
  | (id, MReply r) => bool_decide (id = to) && match resp_response_tag r with None => true | Some _ => false end
  | _ => false
  end.

Definition grants (to : string) (out : list send) : bool := existsb (is_grant to) out.

Lemma broadcast_membership_no_grant self st to : grants to (broadcast_membership self st) = false.
Proof.
  unfold grants, broadcast_membership. induction (others self st) as [|id l IH]; simpl; [done|].
  by rewrite IH, andb_false_r.
Qed.

Lemma grants_app to a b : grants to (a ++ b) = grants to a || grants to b.
Proof. apply existsb_app. Qed.

Lemma grants_reply self to id st st' (b : bool) :
  grants to ((if b then broadcast_membership self st else []) ++ [grant_reply id st']) =
    bool_decide (id = to).
Proof.
  rewrite grants_app. assert (grants to (if b then broadcast_membership self st else []) = false)
    as -> by (destruct b; [apply broadcast_membership_no_grant|done]).
  unfold grants, is_grant. simpl. by rewrite orb_false_r, andb_true_r.
Qed.

Lemma grants_none self to st (b : bool) :
  grants to ((if b then broadcast_membership self st else []) ++ []) = false.
Proof. rewrite app_nil_r. destruct b; [apply broadcast_membership_no_grant|done]. Qed.

(** When a request is granted: not in the critical section, no open lease of
    another holder, and no earlier request of our own. *)
Definition may_grant (self_id : string) (now : Z) (from_id : string) (ts : Z) (st : InnerState)
  : bool :=
  negb (in_cs st) && negb (deferred_by_lease now from_id st) &&
  match current_request_ts st with
  | None => true
  | Some my_ts => goes_first self_id ts from_id my_ts
  end.

Lemma handle_request_cases self lease now from req st st' out :
  handle_request self lease now from req st = (st', out) ->
  let ts := req_lamport_timestamp req in
  acks st' = acks st /\ in_cs st' = in_cs st /\
  current_request_ts st' = current_request_ts st /\
  dynamic_node_ids st' = {[from]} ∪ default ∅ (req_known_ids req) ∪ dynamic_node_ids st /\
  (forall to, grants to out = may_grant self now from ts st && bool_decide (from = to)) /\
  if may_grant self now from ts st then
    (exists d, last_holder st' = Some (from, ts, d) /\
      d = match last_holder st with
          | Some (h, hts, d0) => if decide (h = from /\ hts = ts) then d0 else now + lease
          | None => now + lease
          end) /\
    deferred st' = drop_deferred from (deferred st)
  else
    last_holder st' = last_holder st /\ deferred st' = btree_insert (ts, from) (deferred st).
Proof.
  intros E ts. unfold handle_request in E. fold ts in E.
  destruct (update_membership _ _ _) as [b st1] eqn:Eu.
  apply update_membership_frame in Eu as (E1 & E2 & E3 & E4 & E5 & E6 & E7). simpl in *.
  unfold may_grant, deferred_by_lease in *. rewrite <- E6, <- E5, <- E2.
  rewrite <- E3, <- E4, <- E7.
  destruct (in_cs st1) eqn:Ecs; simplify_eq/=.
  { split_and!; try done. intros. apply grants_none. }
  destruct (match last_holder st1 with Some (h, _, d) => _ | None => false end) eqn:El;
    simplify_eq/=.
  { split_and!; try done. intros. apply grants_none. }
  destruct (match current_request_ts st1 with None => true | Some my => _ end) eqn:Eg;
    simplify_eq/=; split_and!; try done; eauto; intros; [apply grants_reply|apply grants_none].
Qed.

(** Granting rule of a node: a REQUEST is answered by a grant exactly when
    the node is not in its critical section, holds no open lease for another
    node, and has no earlier request of its own (by timestamp, then id); nobody
    else is granted.  A granted requester becomes the holder, with the deadline
    of the first grant if this is a retry of the granted request and a fresh
    lease otherwise, and is no longer deferred; a request that is not granted is
    deferred and leaves the holder alone. *)
Theorem mutex_grant_rule self lease now from req st :
  let ts := req_lamport_timestamp req in
  let st' := (handle_request self lease now from req st).1 in
  let out := (handle_request self lease now from req st).2 in
  (forall to, grants to out = true <-> to = from /\ may_grant self now from ts st = true) /\
  (may_grant self now from ts st = true ->
     (forall ts', (ts', from) ∉ deferred st') /\
     match last_holder st with
     | Some (h, hts, d) =>
         last_holder st' =
           Some (from, ts, if decide (h = from /\ hts = ts) then d else now + lease)
     | None => last_holder st' = Some (from, ts, now + lease)
     end) /\
  (may_grant self now from ts st = false ->
     last_holder st' = last_holder st /\ (ts, from) ∈ deferred st') /\
  (deferred_sorted (deferred st) -> deferred_sorted (deferred st')).
Proof.
  intros ts st' out. unfold st', out. clear st' out.
  destruct (handle_request self lease now from req st) as [st' out] eqn:E. simpl.
  apply handle_request_cases in E as (_ & _ & _ & _ & Hg & Hc). fold ts in Hg, Hc.
  split_and!.
  - intros to. rewrite Hg, andb_true_iff, bool_decide_eq_true. naive_solver.
  - intros Hm. rewrite Hm in Hc. destruct Hc as [(d & Hh & ->) Hd]. split.
    + intros ts'. rewrite Hd. intros [Hne _]%list_elem_of_filter. done.
    + destruct (last_holder st) as [[[h hts] d0]|]; done.
  - intros Hm. rewrite Hm in Hc. destruct Hc as [Hh Hd]. split; [done|].
    rewrite Hd. apply elem_of_btree_insert. by left.
  - intros Hs. destruct (may_grant _ _ _ _ _); destruct Hc as [_ ->].
    + by apply filter_sorted.
    + by apply btree_insert_sorted.
Qed.

(** Pruning unreachable nodes removes exactly them from the membership, the
    deferred requests and the holder, and keeps everything else, so the number of
    acknowledgements required never counts a pruned node. *)
Theorem mutex_prune_spec unreachable st :
  let st' := prune_unreachable unreachable st in
  dynamic_node_ids st' = dynamic_node_ids st ∖ list_to_set unreachable /\
  deferred st' = filter (fun y => y.2 ∉ unreachable) (deferred st) /\
  last_holder st' =
    match last_holder st with
    | Some (h, ts, d) => if decide (h ∈ unreachable) then None else Some (h, ts, d)
    | None => None
    end /\
  acks st' = acks st /\ in_cs st' = in_cs st /\
  current_request_ts st' = current_request_ts st /\ lamport st' = lamport st.
Proof.
  intros st'. unfold st', prune_unreachable. clear st'.
  induction unreachable as [|u us IH] using rev_ind.
  - cbn [foldl]. split_and!; try done.
    + apply leibniz_equiv. set_solver.
    + induction (deferred st) as [|x l IHl]; [done|]. rewrite filter_cons, <- IHl.
      by rewrite decide_True by set_solver.
    + destruct (last_holder st) as [[[h ts] d]|]; [|done]. by rewrite decide_False by set_solver.
  - rewrite foldl_app. cbn [foldl]. set (s1 := foldl prune_one st us) in *.
    destruct IH as (H1 & H2 & H3 & H4 & H5 & H6 & H7).
    unfold prune_one. cbn [last_holder set_members set_deferred]. rewrite H3.
    assert (dynamic_node_ids s1 ∖ {[u]} = dynamic_node_ids st ∖ list_to_set (us ++ [u])) as E1.
    { rewrite H1. apply leibniz_equiv. set_solver. }
    assert (drop_deferred u (deferred s1) = filter (fun y => y.2 ∉ us ++ [u]) (deferred st)) as E2.
    { rewrite H2. unfold drop_deferred. rewrite list_filter_filter.
      apply list_filter_iff. intros. set_solver. }
    destruct (last_holder st) as [[[h ts] d]|] eqn:Eh.
    + destruct (decide (h ∈ us)).
      * rewrite decide_True by set_solver. by split_and!.
      * destruct (decide (h = u)); [rewrite decide_True by set_solver|
          rewrite decide_False by set_solver]; by split_and!.
    + by split_and!.
Qed.

(** The retry backoff of [acquire] starts at 50 ms, never shrinks, at most
    doubles, and settles at one second after five retries. *)
Theorem mutex_backoff_bounds n :
  let b := Nat.iter n next_backoff initial_backoff in
  50 <= b <= 1000 /\ b <= next_backoff b <= 2 * b /\
  ((5 <= n)%nat -> b = 1000).
Proof.
  assert (B : forall m, 50 <= Nat.iter m next_backoff initial_backoff <= 1000).
  { induction m as [|m IH]; simpl; unfold next_backoff, initial_backoff in *; lia. }
  intros b. specialize (B n). fold b in B. split_and!; unfold next_backoff; try lia.
  intros Hn. unfold b. clear b B. replace n with ((n - 5) + 5)%nat by lia.
  rewrite Nat.iter_add. change (Nat.iter 5 next_backoff initial_backoff) with 1000.
  induction (n - 5)%nat as [|m IH]; simpl; [done|]. by rewrite IH.
Qed.
