(* ===== verification/MutexCluster.v ===== *)
(** * The distributed mutex: a cluster of nodes

    Composes the nodes of [Mutex] over an asynchronous network that delivers
    every message, in any order, and runs the phases of [acquire] on each node.
    The network is a list of messages in flight; one event is one critical
    section of the node's lock in the source: starting a request, broadcasting it
    (again on every retry), delivering a message, entering, leaving.

    [mutex_exclusion] is the safety theorem of the algorithm for one acquisition
    per node while leases are open.  Both conditions are needed:
    [mutex_exclusion_lapse] is a run, without any failure, in which two nodes are in
    the critical section at once after leases have lapsed, and
    [mutex_exclusion_stale_reply] one in which, with all leases open, they are
    because a reply does not say which request it answers. *)
From S2P Require Import Prelude Mutex.

Local Open Scope Z_scope.

Inductive phase : Type :=
| Idle
| Waiting (ts : Z)
| InCS (ts : Z)
| Done.

#[export] Instance phase_eq_dec : EqDecision phase.
Proof. solve_decision. Defined.

Record node : Type := MkNode { inner : InnerState; node_phase : phase }.

Record packet : Type := MkPacket { pk_from : string; pk_to : string; pk_msg : message }.

Record cluster : Type := MkCluster {
  nodes : gmap string node;
  net : list packet;
  clock : Z
}.

Inductive event : Type :=
| EStart (p : string)
| EBroadcast (p : string)
| EDeliver (i : nat)
| EEnter (p : string)
| EExit (p : string)
| EAgain (p : string)
| ETick (d : nat).

Definition pack (from : string) (out : list send) : list packet :=
  map (fun m => MkPacket from m.1 m.2) out.

Section Cluster.
Context (lease : Z).

Definition deliver (now : Z) (self from : string) (m : message) (st : InnerState)
  : InnerState * list send :=
  match m with
  | MRequest r => handle_request self lease now from r st
  | MReply r => handle_reply self from r st
  | MRelease r => handle_release self lease now from r st
  end.

Definition update (p : string) (n : node) (out : list send) (net' : list packet) (c : cluster)
  : cluster := MkCluster (<[p := n]> (nodes c)) (net' ++ pack p out) (clock c).

(** [None]: the event is not enabled. *)
Definition step (ev : event) (c : cluster) : option cluster :=
  match ev with
  | EStart p =>
      match nodes c !! p with
      | Some (MkNode st Idle) =>
          let '(ts, st) := acquire_start p st in
          Some (update p (MkNode st (Waiting ts)) [] (net c) c)
      | _ => None
      end
  | EBroadcast p =>
      match nodes c !! p with
      | Some (MkNode st (Waiting ts)) =>
          let '(st, out) := broadcast_request p (fun _ => true) ts st in
          Some (update p (MkNode st (Waiting ts)) out (net c) c)
      | _ => None
      end
  | EDeliver i =>
      match net c !! i with
      | Some (MkPacket from to m) =>
          match nodes c !! to with
          | Some (MkNode st ph) =>
              let '(st, out) := deliver (clock c) to from m st in
              Some (update to (MkNode st ph) out (delete i (net c)) c)
          | None => None
          end
      | None => None
      end
  | EEnter p =>
      match nodes c !! p with
      | Some (MkNode st (Waiting ts)) =>
          match try_enter p lease (clock c) ts st with
          | Some st => Some (update p (MkNode st (InCS ts)) [] (net c) c)
          | None => None
          end
      | _ => None
      end
  | EExit p =>
      match nodes c !! p with
      | Some (MkNode st (InCS ts)) =>
          let '(st, out) := acquire_exit p lease (clock c) st in
          Some (update p (MkNode st Done) out (net c) c)
      | _ => None
      end
  | EAgain p =>
      match nodes c !! p with
      | Some (MkNode st Done) => Some (update p (MkNode st Idle) [] (net c) c)
      | _ => None
      end
  | ETick d => Some (MkCluster (nodes c) (net c) (clock c + Z.of_nat d))
  end.

Fixpoint run (evs : list event) (c : cluster) : option cluster :=
  match evs with
  | [] => Some c
  | ev :: evs => match step ev c with Some c => run evs c | None => None end
  end.

(** The node whose lease the event consults. *)
Definition consults (ev : event) (c : cluster) : option string :=
  match ev with
  | EDeliver i =>
      match net c !! i with
      | Some (MkPacket _ to (MRequest _)) => Some to
      | _ => None
      end
  | EEnter p => Some p
  | _ => None
  end.

(** The lease a node has granted has not lapsed yet. *)
Definition lease_open (c : cluster) (p : string) : Prop :=
  match nodes c !! p with
  | Some n => match last_holder (inner n) with
              | Some (_, _, deadline) => clock c < deadline
              | None => True
              end
  | None => True
  end.

#[global] Instance lease_open_dec c p : Decision (lease_open c p).
Proof. unfold lease_open. repeat case_match; apply _. Defined.

(** Along the run, a lease is open whenever it is consulted. *)
Fixpoint leases_open (evs : list event) (c : cluster) : Prop :=
  match evs with
  | [] => True
  | ev :: evs =>
      match consults ev c with Some p => lease_open c p | None => True end /\
      match step ev c with Some c => leases_open evs c | None => True end
  end.

#[global] Instance leases_open_dec evs c : Decision (leases_open evs c).
Proof.
  revert c. induction evs as [|ev evs IH]; intros c; simpl; [apply _|].
  destruct (consults ev c), (step ev c); apply _.
Defined.
End Cluster.

(** No node comes back for a second acquisition. *)
Definition acquires_once (ev : event) : bool := match ev with EAgain _ => false | _ => true end.

(** All nodes know each other and nobody has requested. *)
Definition init (ids : list string) : cluster :=
  MkCluster (list_to_map (map (fun p => (p, MkNode (new_state p ids) Idle)) ids)) [] 0.

Definition in_critical_section (c : cluster) (p : string) : Prop :=
  exists n ts, nodes c !! p = Some n /\ node_phase n = InCS ts.

(** ** The invariant *)

Definition holder_is (n : node) (p : string) : Prop :=
  exists ts d, last_holder (inner n) = Some (p, ts, d).

Definition is_reply (m : message) : Prop := exists r, m = MReply r.

Definition reply_in (q p : string) (l : list packet) : Prop :=
  exists r, MkPacket q p (MReply r) ∈ l.

Definition release_key (k : packet) : option (string * string) :=
  match k with MkPacket from to (MRelease _) => Some (from, to) | _ => None end.

Definition releases (l : list packet) : list (string * string) := omap release_key l.

(** The ids a message carries are known, and replies are grants. *)
Definition message_ok (ids : gset string) (m : message) : Prop :=
  match m with
  | MRequest r => default ∅ (req_known_ids r) ⊆ ids
  | MReply r => default ∅ (resp_known_ids r) ⊆ ids /\ resp_response_tag r = None
  | MRelease r => default ∅ (rel_known_ids r) ⊆ ids
  end.

Definition packet_ok (ids : gset string) (k : packet) : Prop :=
  pk_from k ∈ ids /\ pk_to k ∈ ids /\ pk_from k <> pk_to k /\ message_ok ids (pk_msg k).

Record node_ok (ids : gset string) (p : string) (n : node) : Prop := {
  ok_members : dynamic_node_ids (inner n) = ids;
  ok_acks : acks (inner n) ⊆ ids;
  ok_deferred : forall x, x ∈ deferred (inner n) -> x.2 ∈ ids /\ x.2 <> p;
  ok_in_cs : in_cs (inner n) = true <-> exists ts, node_phase n = InCS ts;
  ok_cs : forall ts, node_phase n = InCS ts -> holder_is n p /\ acks (inner n) = ids
}.

Record inv (ids : gset string) (c : cluster) : Prop := {
  inv_nodes : forall p, p ∈ ids <-> is_Some (nodes c !! p);
  inv_node : forall p n, nodes c !! p = Some n -> node_ok ids p n;
  inv_packets : Forall (packet_ok ids) (net c);
  (* a grant in flight or counted names the granter's holder *)
  inv_grants : forall p q np nq, p <> q -> nodes c !! p = Some np -> nodes c !! q = Some nq ->
    node_phase np <> Done -> reply_in q p (net c) \/ q ∈ acks (inner np) -> holder_is nq p;
  inv_releases_once : NoDup (releases (net c));
  inv_releases : forall p q, (p, q) ∈ releases (net c) ->
    (exists np, nodes c !! p = Some np /\ node_phase np = Done) /\
    (exists nq, nodes c !! q = Some nq /\ holder_is nq p)
}.

Lemma holder_is_unique n p q : holder_is n p -> holder_is n q -> p = q.
Proof. intros (?&?&E1) (?&?&E2). congruence. Qed.

Lemma reply_in_app q p l1 l2 : reply_in q p (l1 ++ l2) <-> reply_in q p l1 \/ reply_in q p l2.
Proof. unfold reply_in. setoid_rewrite elem_of_app. naive_solver. Qed.

Lemma reply_in_pack q p x out :
  reply_in q p (pack x out) -> q = x /\ exists r, (p, MReply r) ∈ out.
Proof.
  intros [r ([? ?] & [=-> -> <-] & Hm)%list_elem_of_fmap]. eauto.
Qed.

Lemma reply_in_sublist q p l1 l2 : sublist l1 l2 -> reply_in q p l1 -> reply_in q p l2.
Proof. intros Hs [r Hr]. exists r. by eapply elem_of_sublist. Qed.

Lemma releases_app l1 l2 : releases (l1 ++ l2) = releases l1 ++ releases l2.
Proof. apply omap_app. Qed.

Lemma releases_pack p q x out : (p, q) ∈ releases (pack x out) -> p = x.
Proof.
  unfold releases, pack. rewrite list_elem_of_omap.
  intros ([] & ([] & [=-> -> <-] & _)%list_elem_of_fmap & E). simpl in E. case_match; by simplify_eq.
Qed.

Lemma sublist_releases l1 l2 : sublist l1 l2 -> sublist (releases l1) (releases l2).
Proof.
  unfold releases. induction 1; simpl; [done|..]; destruct (release_key x); auto using sublist.
Qed.

(** The step of one node, for all events at once: what the event has to
    guarantee for the invariant to be kept. *)
Lemma inv_update ids c x n n' out net' :
  inv ids c -> nodes c !! x = Some n -> node_ok ids x n' -> sublist net' (net c) ->
  (node_phase n = Done -> node_phase n' = Done) ->
  Forall (packet_ok ids) (pack x out) ->
  (forall p np, p <> x -> nodes c !! p = Some np -> node_phase np <> Done ->
     holder_is n p -> holder_is n' p) ->
  (forall r m, (r, MReply m) ∈ out -> holder_is n' r) ->
  (forall q, q ∈ acks (inner n') -> q <> x -> node_phase n' <> Done ->
     q ∈ acks (inner n) \/ reply_in q x (net c)) ->
  (forall p, (p, x) ∈ releases net' -> holder_is n' p) ->
  NoDup (releases (pack x out)) ->
  (forall r, (x, r) ∈ releases (pack x out) -> node_phase n' = Done /\ node_phase n <> Done /\
     exists nr, r <> x /\ nodes c !! r = Some nr /\ holder_is nr x) ->
  inv ids (update x n' out net' c).
Proof.
  intros [Hn Ho Hp Hk Ho1 Hr] Hx Hok Hsub Hdone Hout Hd Hc He Hg Hf1 Hf2.
  pose proof (sublist_releases _ _ Hsub) as Hsr.
  assert (Hxx : forall p m, p <> x -> <[x := n']> (nodes c) !! p = Some m -> nodes c !! p = Some m).
  { intros p m Hne. by rewrite lookup_insert_ne. }
  split; simpl.
  - intros p. rewrite Hn, lookup_insert. case_decide; [|done]. subst. rewrite Hx. done.
  - intros p m. rewrite lookup_insert. case_decide; [|apply Ho]. intros. by simplify_eq.
  - apply Forall_app. split; [|done]. apply Forall_forall. intros k Hk'.
    by eapply Forall_forall in Hp; [|by eapply elem_of_sublist].
  - intros p q np nq Hne Hnp Hnq Hph. rewrite reply_in_app.
    destruct (decide (q = x)) as [->|Hqx]; [|destruct (decide (p = x)) as [->|Hpx]].
    + apply Hxx in Hnp; [|done]. rewrite lookup_insert_eq in Hnq. injection Hnq as <-.
      specialize (Hk p x np n Hne Hnp Hx Hph).
      intros [[Hrep|[_ [r Hrep]]%reply_in_pack]|Ha]; [|by eapply Hc|];
        (eapply Hd; [done|exact Hnp|done|apply Hk]); [|by right].
      left. by eapply reply_in_sublist.
    + apply Hxx in Hnq; [|done]. rewrite lookup_insert_eq in Hnp. injection Hnp as <-.
      specialize (Hk x q n nq Hne Hx Hnq ltac:(auto)).
      intros [[Hrep|[-> _]%reply_in_pack]|Ha]; [|done|]; apply Hk.
      * left. by eapply reply_in_sublist.
      * destruct (He q Ha); auto.
    + apply Hxx in Hnp, Hnq; [|done..]. specialize (Hk p q np nq Hne Hnp Hnq Hph).
      intros [[Hrep|[-> _]%reply_in_pack]|Ha]; [|done|]; apply Hk; [|by right].
      left. by eapply reply_in_sublist.
  - rewrite releases_app. apply NoDup_app. split_and!; [exact (sublist_NoDup _ _ Ho1 Hsr)| |done].
    intros [p q] Hin1 Hin2. pose proof (releases_pack _ _ _ _ Hin2) as ->.
    destruct (Hf2 q Hin2) as (_ & Hnd & _). apply Hnd.
    destruct (Hr x q) as [(nx & Hnx & ?) _]; [by eapply elem_of_sublist|]. congruence.
  - intros p q. rewrite releases_app. intros [Hin|Hin]%elem_of_app.
    + destruct (Hr p q) as [(np & Hnp & Hdn) (nq & Hnq & Hh)]; [by eapply elem_of_sublist|].
      split.
      * destruct (decide (p = x)) as [->|]; [|by exists np; rewrite lookup_insert_ne].
        exists n'. rewrite lookup_insert_eq. split; [done|]. apply Hdone. congruence.
      * destruct (decide (q = x)) as [->|]; [|by exists nq; rewrite lookup_insert_ne].
        exists n'. rewrite lookup_insert_eq. split; [done|]. by apply Hg.
    + pose proof (releases_pack _ _ _ _ Hin) as ->. destruct (Hf2 q Hin) as (H1 & _ & nr & H3 & H4 & H5).
      split; [exists n'; by rewrite lookup_insert_eq|].
      exists nr. by rewrite lookup_insert_ne.
Qed.

(** ** Each event keeps the invariant *)

Lemma update_membership_same ids from known st :
  dynamic_node_ids st = ids -> from ∈ ids -> default ∅ known ⊆ ids ->
  update_membership from known st = (false, st).
Proof.
  intros Hm Hf Hk. unfold update_membership.
  assert ({[from]} ∪ default ∅ known ∪ dynamic_node_ids st = dynamic_node_ids st) as ->.
  { apply leibniz_equiv. rewrite Hm. set_solver. }
  rewrite bool_decide_eq_false_2 by tauto. by destruct st.
Qed.

Lemma elem_of_others self st r :
  r ∈ others self st <-> r ∈ dynamic_node_ids st /\ r <> self.
Proof. unfold others. rewrite elem_of_elements. set_solver. Qed.

Lemma broadcast_ok ids x st (m : message) :
  dynamic_node_ids st = ids -> x ∈ ids -> message_ok ids m ->
  Forall (packet_ok ids) (pack x (map (fun id => (id, m)) (others x st))).
Proof.
  intros Hm Hx Hok. apply Forall_forall. intros k (s1 & -> & (r & -> & Hr)%list_elem_of_fmap)%list_elem_of_fmap.
  apply elem_of_others in Hr as [Hr ?]. rewrite Hm in Hr. by split_and!.
Qed.

Lemma releases_no_release x out :
  (forall r m, (r, MRelease m) ∉ out) -> releases (pack x out) = [].
Proof.
  intros H. induction out as [|[r m] out IH]; [done|].
  change (pack x ((r, m) :: out)) with ([MkPacket x r m] ++ pack x out).
  rewrite releases_app, IH by set_solver. destruct m; [done..|].
  exfalso. eapply H. by left.
Qed.

Lemma nil_ok ids x : Forall (packet_ok ids) (pack x []).
Proof. constructor. Qed.

Lemma reply_ok ids x r st :
  dynamic_node_ids st = ids -> x ∈ ids -> r ∈ ids -> r <> x ->
  Forall (packet_ok ids) (pack x [grant_reply r st]).
Proof.
  intros Hm Hx Hr Hne. constructor; [|constructor]. split_and!; simpl; try done. by rewrite Hm.
Qed.

(** What an event that sends no release has to guarantee, when it keeps the
    holder of the node or the node had no holder but itself. *)
Lemma inv_update_no_release ids c x n n' out net' :
  inv ids c -> nodes c !! x = Some n -> node_ok ids x n' -> sublist net' (net c) ->
  (node_phase n = Done -> node_phase n' = Done) ->
  Forall (packet_ok ids) (pack x out) ->
  (forall p, p <> x -> holder_is n p -> holder_is n' p) ->
  (forall r m, (r, MReply m) ∈ out -> holder_is n' r) ->
  (forall r m, (r, MRelease m) ∉ out) ->
  (forall q, q ∈ acks (inner n') -> q <> x -> node_phase n' <> Done ->
     q ∈ acks (inner n) \/ reply_in q x (net c)) ->
  inv ids (update x n' out net' c).
Proof.
  intros HI Hx Hok Hsub Hdone Hout Hh Hc Hr He.
  eapply inv_update; eauto; rewrite ?releases_no_release by done; [|constructor|set_solver].
  intros p Hp. pose proof (elem_of_sublist _ _ _ Hp (sublist_releases _ _ Hsub)) as Hp'.
  destruct (inv_releases _ _ HI p x Hp') as [_ (nq & Hnq & Hhq)]. simplify_eq.
  apply Hh; [|done]. unfold releases in Hp'. apply list_elem_of_omap in Hp' as (k & Hk & Ek).
  pose proof (proj1 (Forall_forall _ _) (inv_packets _ _ HI) k Hk) as (_ & _ & Hne & _).
  destruct k as [? ? []]; simpl in *; by simplify_eq.
Qed.

Section Steps.
Context (ids : gset string) (lease : Z).

Lemma inv_start c p c' : inv ids c -> step lease (EStart p) c = Some c' -> inv ids c'.
Proof.
  intros HI E. simpl in E. destruct (nodes c !! p) as [[st ph]|] eqn:Hp; [|done].
  destruct ph; simplify_eq/=. pose proof (inv_node _ _ HI _ _ Hp) as [H1 H2 H3 H4 H5].
  assert (p ∈ ids) by (apply (inv_nodes _ _ HI); eauto).
  eapply inv_update_no_release; [done|done| |done|done|apply nil_ok|done|..].
  - split; simpl in *; [done|set_solver|done| |done]. split; [|by intros [? ?]].
    intros []%H4. done.
  - by intros ? ? ?%elem_of_nil.
  - by intros ? ? ?%elem_of_nil.
  - simpl. by intros q ->%elem_of_singleton.
Qed.

Lemma inv_broadcast c p c' : inv ids c -> step lease (EBroadcast p) c = Some c' -> inv ids c'.
Proof.
  intros HI E. simpl in E. destruct (nodes c !! p) as [[st ph]|] eqn:Hp; [|done].
  destruct ph; simplify_eq/=. pose proof (inv_node _ _ HI _ _ Hp) as Hok.
  assert (p ∈ ids) by (apply (inv_nodes _ _ HI); eauto).
  assert (filter (fun _ : string => true = false) (others p st) = []) as ->.
  { induction (others p st); [done|]. rewrite filter_cons. by case_decide. }
  simpl. eapply inv_update_no_release; [done|done|done|done|done| |done|..].
  - eapply broadcast_ok; [apply (ok_members _ _ _ Hok)|done|]. simpl.
    pose proof (ok_members _ _ _ Hok) as Hm. simpl in Hm. by rewrite Hm.
  - intros r m (? & [=] & _)%list_elem_of_fmap.
  - intros r m (? & [=] & _)%list_elem_of_fmap.
  - auto.
Qed.

(** With its lease open, a node keeps its holder when a request arrives. *)
Lemma handle_request_inv now p from r st ph st' out :
  node_ok ids p (MkNode st ph) -> from ∈ ids -> from <> p -> default ∅ (req_known_ids r) ⊆ ids ->
  match last_holder st with Some (_, _, d) => now < d | None => True end ->
  handle_request p lease now from r st = (st', out) ->
  node_ok ids p (MkNode st' ph) /\
  (forall q, holder_is (MkNode st ph) q -> holder_is (MkNode st' ph) q) /\
  acks st' = acks st /\
  (out = [] \/ out = [grant_reply from st'] /\ holder_is (MkNode st' ph) from).
Proof.
  intros [H1 H2 H3 H4 H5] Hf Hne Hk Hl E. simpl in *.
  assert (Hout : out = if may_grant p now from (req_lamport_timestamp r) st
                       then [grant_reply from st'] else []).
  { unfold handle_request in E.
    rewrite (update_membership_same ids) in E by done. unfold may_grant. simpl in *.
    change (deferred_by_lease now from (set_lamport _ st)) with (deferred_by_lease now from st) in E.
    destruct (in_cs st), (deferred_by_lease now from st), (current_request_ts st);
      simplify_eq/=; try done; by destruct (goes_first _ _ _ _); simplify_eq. }
  apply handle_request_cases in E as (Ea & Ec & _ & Em & _ & Hc).
  assert (Hm : dynamic_node_ids st' = ids).
  { rewrite Em, H1. apply leibniz_equiv. set_solver. }
  assert (Hh : forall q, holder_is (MkNode st ph) q -> holder_is (MkNode st' ph) q).
  { intros q (ts & d & Eq). simpl in Eq. rewrite Eq in Hl.
    destruct (may_grant p now from (req_lamport_timestamp r) st) eqn:Eg.
    - unfold may_grant, deferred_by_lease in Eg. rewrite Eq in Eg.
      destruct (decide (q = from)) as [->|Hqf].
      + destruct Hc as [(d' & Hd' & _) _]. by exists (req_lamport_timestamp r), d'.
      + rewrite (bool_decide_eq_true_2 (q <> from)) in Eg by done.
        assert ((now <? d) = true) as Hnd by lia. rewrite Hnd in Eg. simpl in Eg.
        by rewrite andb_false_r in Eg.
    - destruct Hc as [Hc _]. exists ts, d. simpl. by rewrite Hc. }
  split_and!; [split; simpl|done|done|].
  - done.
  - by rewrite Ea.
  - intros x. destruct (may_grant _ _ _ _ _); destruct Hc as [_ ->].
    + intros [_ Hx]%list_elem_of_filter. auto.
    + intros [->|Hx]%elem_of_btree_insert; auto.
  - by rewrite Ec.
  - intros ts Hts. destruct (H5 ts Hts) as [Hp Ha]. split; [by apply Hh|congruence].
  - rewrite Hout. destruct (may_grant _ _ _ _ _); [right|by left]. split; [done|].
    destruct Hc as [(d & Hd & _) _]. by exists (req_lamport_timestamp r), d.
Qed.

Lemma handle_reply_inv p from r st ph st' out :
  node_ok ids p (MkNode st ph) -> from ∈ ids -> default ∅ (resp_known_ids r) ⊆ ids ->
  handle_reply p from r st = (st', out) ->
  node_ok ids p (MkNode st' ph) /\ last_holder st' = last_holder st /\ out = [] /\
  acks st' ⊆ {[from]} ∪ acks st.
Proof.
  intros [H1 H2 H3 H4 H5] Hf Hk E. simpl in *. unfold handle_reply in E.
  rewrite (update_membership_same ids) in E by done. simplify_eq.
  apply singleton_subseteq_l in Hf.
  destruct (current_request_ts st); [case_decide|]; split_and!; try done;
    try apply union_subseteq_r.
  split; simpl; try done; [by apply union_subseteq|]. intros ts Hts.
  destruct (H5 ts Hts) as [Hp Ha]. simpl in Ha. rewrite Ha.
  split; [done|]. by apply subseteq_union_1_L.
Qed.

Lemma grant_next_inv now p st st' o :
  dynamic_node_ids st = ids -> (forall x, x ∈ deferred st -> x.2 ∈ ids /\ x.2 <> p) ->
  grant_next lease now st = (st', o) ->
  dynamic_node_ids st' = ids /\ acks st' = acks st /\ in_cs st' = in_cs st /\
  (forall x, x ∈ deferred st' -> x.2 ∈ ids /\ x.2 <> p) /\
  match o with
  | Some r => r ∈ ids /\ r <> p /\ exists ts d, last_holder st' = Some (r, ts, d)
  | None => st' = st
  end.
Proof.
  intros H1 H3 E. unfold grant_next in E.
  destruct (deferred st) as [|[ts r] l] eqn:Ed; simplify_eq; [by rewrite Ed; split_and!|].
  destruct (H3 (ts, r)) as [Hr Hne]; [by left|]. simpl in *.
  split_and!; simpl; eauto.
  intros x [_ Hx]%list_elem_of_filter. by apply H3.
Qed.

Lemma handle_release_inv now p from r st ph st' out :
  node_ok ids p (MkNode st ph) -> from ∈ ids -> from <> p -> default ∅ (rel_known_ids r) ⊆ ids ->
  holder_is (MkNode st ph) from ->
  handle_release p lease now from r st = (st', out) ->
  node_ok ids p (MkNode st' ph) /\ acks st' = acks st /\
  (out = [] \/ exists q, q ∈ ids /\ q <> p /\ out = [grant_reply q st'] /\
    holder_is (MkNode st' ph) q).
Proof.
  intros [H1 H2 H3 H4 H5] Hf Hne Hk (hts & hd & Hh) E. simpl in *. unfold handle_release in E.
  rewrite (update_membership_same ids) in E by done. rewrite Hh, decide_True in E by done.
  destruct (grant_next lease now (set_holder None st)) as [st1 o] eqn:Eg.
  destruct (grant_next_inv now p (set_holder None st) _ _ H1 H3 Eg) as (G1 & G2 & G3 & G4 & G5). simplify_eq/=.
  split_and!; [split; simpl|done|].
  - done.
  - by rewrite G2.
  - done.
  - by rewrite G3.
  - intros ts Hts. destruct (H5 ts Hts) as [(?&?&Hp) _]. simpl in Hp. congruence.
  - destruct o as [q|]; [right|by left]. destruct G5 as (? & ? & ? & ? & ?). exists q.
    split_and!; try done. by do 2 eexists.
Qed.

Lemma releases_delete i (l : list packet) k x :
  l !! i = Some k -> release_key k = Some x -> NoDup (releases l) -> x ∉ releases (delete i l).
Proof.
  intros Hi Hk Hn. rewrite <- (take_drop_middle l i k Hi) in Hn.
  rewrite delete_take_drop. rewrite !releases_app in *.
  assert (releases (k :: drop (S i) l) = x :: releases (drop (S i) l)) as E.
  { unfold releases. simpl. by rewrite Hk. }
  rewrite E in Hn. apply NoDup_app in Hn as (_ & Hd & [Hn _]%NoDup_cons).
  intros [Hin|Hin]%elem_of_app; [|done]. eapply Hd; [exact Hin|by left].
Qed.

Lemma inv_deliver c i c' :
  inv ids c -> match consults (EDeliver i) c with Some p => lease_open c p | None => True end ->
  step lease (EDeliver i) c = Some c' -> inv ids c'.
Proof.
  intros HI Hl E. cbn [step consults] in E, Hl. destruct (net c !! i) as [[from to m]|] eqn:Ei; [|done].
  destruct (nodes c !! to) as [[st ph]|] eqn:Ht; [|done].
  pose proof (inv_node _ _ HI _ _ Ht) as Hok.
  pose proof (list_elem_of_lookup_2 _ _ _ Ei) as Hin.
  pose proof (proj1 (Forall_forall _ _) (inv_packets _ _ HI) _ Hin) as (Hf & Hto & Hne & Hm).
  simpl in Hf, Hto, Hne, Hm.
  destruct m as [r|r|r]; cbn [deliver] in E; simpl in Hm.
  - unfold lease_open in Hl. rewrite Ht in Hl. simpl in Hl.
    destruct (handle_request to lease (clock c) from r st) as [st' out] eqn:Eh. injection E as <-.
    destruct (handle_request_inv _ _ _ _ _ _ _ _ Hok Hf Hne Hm Hl Eh) as (G1 & G2 & G3 & G4).
    assert (out = [] \/ out = [grant_reply from st']) as Ho by naive_solver.
    eapply inv_update_no_release; [done|done|done|apply sublist_delete|done|..]; simpl; auto.
    + destruct Ho as [->| ->]; [apply nil_ok|]. apply reply_ok; try done.
      apply (ok_members _ _ _ G1).
    + intros q mm Hq. destruct G4 as [->|[-> Hh]]; [by apply elem_of_nil in Hq|].
      apply list_elem_of_singleton in Hq. unfold grant_reply in Hq. by simplify_eq.
    + intros q mm Hq. destruct Ho as [->| ->]; [by apply elem_of_nil in Hq|].
      apply list_elem_of_singleton in Hq. unfold grant_reply in Hq. by simplify_eq.
    + rewrite G3. auto.
  - destruct (handle_reply to from r st) as [st' out] eqn:Eh. injection E as <-. destruct Hm as [Hm1 Hm2].
    destruct (handle_reply_inv _ _ _ _ _ _ _ Hok Hf Hm1 Eh) as (G1 & G2 & -> & G4).
    eapply inv_update_no_release; [done|done|done|apply sublist_delete|done|apply nil_ok|..].
    + intros q _ (ts & d & Hh). exists ts, d. simpl in *. congruence.
    + by intros ? ? ?%elem_of_nil.
    + by intros ? ? ?%elem_of_nil.
    + simpl. intros q Hq _ _. apply G4 in Hq. apply elem_of_union in Hq as [->%elem_of_singleton|]; [|by left].
      right. by exists r.
  - destruct (handle_release to lease (clock c) from r st) as [st' out] eqn:Eh. injection E as <-.
    assert (Hrel : (from, to) ∈ releases (net c)).
    { apply list_elem_of_omap. by exists (MkPacket from to (MRelease r)). }
    destruct (inv_releases _ _ HI _ _ Hrel) as [(np & Hnp & Hdone) (nq & Hnq & Hh)]. simplify_eq.
    destruct (handle_release_inv _ _ _ _ _ _ _ _ Hok Hf Hne Hm Hh Eh) as (G1 & G2 & G3).
    assert (Hnr : releases (pack to out) = []).
    { apply releases_no_release. intros q mm Hq. destruct G3 as [->|(q' & _ & _ & -> & _)];
        [by apply elem_of_nil in Hq|]. apply list_elem_of_singleton in Hq. unfold grant_reply in Hq. by simplify_eq. }
    eapply inv_update; [done|done|done|apply sublist_delete|done|..]; simpl; rewrite ?Hnr.
    + destruct G3 as [->|(q & ? & ? & -> & _)]; [apply nil_ok|]. apply reply_ok; try done.
      apply (ok_members _ _ _ G1).
    + intros q mq _ Hq Hqd Hhq. pose proof (holder_is_unique _ _ _ Hh Hhq) as ->. congruence.
    + intros q mm Hq. destruct G3 as [->|(q' & _ & _ & -> & Hh')]; [by apply elem_of_nil in Hq|].
      apply list_elem_of_singleton in Hq. unfold grant_reply in Hq. by simplify_eq.
    + rewrite G2. auto.
    + intros q Hq.
      destruct (inv_releases _ _ HI q to) as [_ (nq & Hnq & Hhq)].
      { eapply elem_of_sublist; [exact Hq|]. apply sublist_releases, sublist_delete. }
      simplify_eq. pose proof (holder_is_unique _ _ _ Hh Hhq) as ->. exfalso.
      eapply releases_delete; [exact Ei|done|apply (inv_releases_once _ _ HI)|done].
    + constructor.
    + by intros ? ?%elem_of_nil.
Qed.

Lemma inv_enter c p c' :
  inv ids c -> lease_open c p -> step lease (EEnter p) c = Some c' -> inv ids c'.
Proof.
  intros HI Hl E. simpl in E. unfold lease_open in Hl.
  destruct (nodes c !! p) as [[st ph]|] eqn:Hp; [|done]. destruct ph as [|ts| |]; simplify_eq/=.
  unfold try_enter, can_enter in E. case_decide as Hsz; [|done].
  pose proof (inv_node _ _ HI _ _ Hp) as [H1 H2 H3 H4 H5]. simpl in *.
  assert (Hh : forall q, holder_is (MkNode st (Waiting ts)) q -> q = p).
  { intros q (hts & d & Hq). simpl in Hq. rewrite Hq in E, Hl. case_decide; [done|].
    destruct (Z.leb_spec d (clock c)); [lia|done]. }
  assert (c' = update p (MkNode (set_holder (Some (p, ts, clock c + lease)) (set_in_cs true st))
    (InCS ts)) [] (net c) c) as ->.
  { destruct (last_holder st) as [[[h hts] d]|]; [|by simplify_eq].
    case_decide; [by simplify_eq|]. destruct (d <=? clock c); by simplify_eq. }
  eapply inv_update_no_release; [done|done| |done|done|apply nil_ok|..]; simpl; auto.
  - split; simpl; try done; [by split; eauto|]. intros _ _. split; [by do 2 eexists|].
    unfold required_acks in Hsz. rewrite H1 in Hsz. by apply set_subseteq_size_eq.
  - intros q Hq Hhq. by apply Hh in Hhq.
  - by intros ? ? ?%elem_of_nil.
  - by intros ? ? ?%elem_of_nil.
Qed.

Lemma inv_exit c p c' : inv ids c -> step lease (EExit p) c = Some c' -> inv ids c'.
Proof.
  intros HI E. simpl in E. destruct (nodes c !! p) as [[st ph]|] eqn:Hp; [|done].
  destruct ph as [| |ts|]; simplify_eq/=.
  pose proof (inv_node _ _ HI _ _ Hp) as [H1 H2 H3 H4 H5]. simpl in *.
  destruct (H5 ts eq_refl) as [Hself Hall]. simpl in Hall.
  assert (p ∈ ids) as Hpi by (apply (inv_nodes _ _ HI); eauto).
  destruct (acquire_exit p lease (clock c) st) as [st' out] eqn:Ex. injection E as <-.
  unfold acquire_exit in Ex.
  destruct (match deferred st with [] => _ | _ :: _ => _ end) as [st1 o] eqn:Eg.
  assert (G : dynamic_node_ids st1 = ids /\ (forall x, x ∈ deferred st1 -> x.2 ∈ ids /\ x.2 <> p) /\
    match o with Some r => r ∈ ids /\ r <> p /\ exists ts d, last_holder st1 = Some (r, ts, d)
    | None => True end).
  { destruct (deferred st) eqn:Ed; [injection Eg as <- <-; simpl; rewrite Ed; done|].
    rewrite <- Ed in H3. destruct (grant_next_inv _ p _ _ _ H1 H3 Eg) as (G1 & _ & _ & G4 & G5).
    split_and!; [done..|]. by destruct o. }
  destruct G as (G1 & G2 & G3). injection Ex as <- <-.
  set (st2 := set_acks ∅ (set_request None (set_in_cs false st1))).
  assert (Hrel : releases (pack p (match o with Some id => [grant_reply id st2] | None => [] end
    ++ broadcast_release p st2)) = map (fun r => (p, r)) (others p st1)).
  { unfold pack. rewrite map_app, releases_app. destruct o; simpl.
    all: unfold broadcast_release; change (others p st2) with (others p st1);
      induction (others p st1) as [|r l IH]; simpl; [done|]; by rewrite <- IH. }
  eapply inv_update; [done|done| |done|done|..]; rewrite ?Hrel; simpl.
  - split; simpl; try done. split; [done|]. by intros [? ?].
  - unfold pack. rewrite map_app. apply Forall_app. split.
    + destruct o as [r|]; [|constructor]. destruct G3 as (? & ? & _). by apply reply_ok.
    + by apply broadcast_ok; [|done|simpl; rewrite G1].
  - intros q nq Hq _ _ Hh. by pose proof (holder_is_unique _ _ _ Hself Hh).
  - intros r mm [Hr|(? & [=] & _)%list_elem_of_fmap]%elem_of_app.
    destruct o as [r'|]; [|by apply elem_of_nil in Hr].
    apply list_elem_of_singleton in Hr. unfold grant_reply in Hr. simplify_eq. destruct G3 as (_ & _ & ? & ? & ?).
    by do 2 eexists.
  - done.
  - intros q Hq. destruct (inv_releases _ _ HI q p Hq) as [(nq & Hnq & Hdn) (n2 & Hn2 & Hh)].
    simplify_eq. pose proof (holder_is_unique _ _ _ Hself Hh) as <-. by simplify_eq/=.
  - apply NoDup_fmap; [by intros ? ? [=]|]. apply NoDup_elements.
  - intros r (r' & [=<-] & Hr)%list_elem_of_fmap. apply elem_of_others in Hr as [Hr Hne].
    split_and!; [done|done|]. rewrite G1 in Hr.
    destruct (proj1 (inv_nodes _ _ HI r) Hr) as [nr Hnr]. exists nr. split_and!; [done..|].
    eapply (inv_grants _ _ HI p r); [done|exact Hp|done|done|]. right. simpl. by rewrite Hall.
Qed.

Lemma inv_step c ev c' :
  acquires_once ev = true ->
  inv ids c -> match consults ev c with Some p => lease_open c p | None => True end ->
  step lease ev c = Some c' -> inv ids c'.
Proof.
  intros Ho HI Hl E. destruct ev.
  - by eapply inv_start.
  - by eapply inv_broadcast.
  - exact (inv_deliver _ _ _ HI Hl E).
  - exact (inv_enter _ _ _ HI Hl E).
  - by eapply inv_exit.
  - done.
  - simplify_eq/=. destruct HI. by split.
Qed.

Lemma inv_run evs c c' :
  forallb acquires_once evs = true -> inv ids c -> leases_open lease evs c -> run lease evs c = Some c' -> inv ids c'.
Proof.
  revert c. induction evs as [|ev evs IH]; intros c Ho HI Hl E; simpl in *; [by simplify_eq|].
  apply andb_true_iff in Ho as [Ho1 Ho2].
  destruct Hl as [Hl1 Hl2]. destruct (step lease ev c) as [c1|] eqn:Es; [|done].
  eapply IH; [done|by eapply inv_step|done|done].
Qed.
End Steps.

Lemma inv_init ids : inv (list_to_set ids) (init ids).
Proof.
  assert (L : forall p n, nodes (init ids) !! p = Some n -> p ∈ ids /\ n = MkNode (new_state p ids) Idle).
  { intros p n Hp%elem_of_list_to_map_2. simpl in Hp.
    apply list_elem_of_fmap in Hp as (? & [=-> ->] & ?). done. }
  split; simpl.
  - intros p. rewrite elem_of_list_to_set. split.
    + intros Hp. destruct (list_to_map (M := gmap string node) _ !! p) eqn:E; [done|].
      apply not_elem_of_list_to_map_2 in E. destruct E.
      rewrite map_map. simpl. by rewrite map_id.
    + intros [n Hn]. by apply L in Hn as [].
  - intros p n [Hp ->]%L. split; simpl; try done; try set_solver.
  - constructor.
  - intros p q np nq Hne [Hp ->]%L [Hq ->]%L _ [[r Hr]|Hr]; [by apply elem_of_nil in Hr|].
    simpl in Hr. set_solver.
  - constructor.
  - by intros p q ?%elem_of_nil.
Qed.

(** (C1) Mutual exclusion: in a cluster whose nodes all know each other, over a
    network that delivers messages in any order and with any number of retries,
    where each node acquires at most once and a lease is open whenever it is
    consulted, two nodes are never in the critical section at the same time. *)
Theorem mutex_exclusion lease ids evs c p q :
  run lease evs (init ids) = Some c ->
  forallb acquires_once evs = true -> leases_open lease evs (init ids) ->
  in_critical_section c p -> in_critical_section c q -> p = q.
Proof.
  intros Hr Ho Hl (np & tsp & Hp & Ep) (nq & tsq & Hq & Eq).
  pose proof (inv_run _ _ _ _ _ Ho (inv_init ids) Hl Hr) as HI.
  destruct (decide (p = q)) as [|Hne]; [done|exfalso].
  destruct (ok_cs _ _ _ (inv_node _ _ HI _ _ Hp) _ Ep) as [_ Ha].
  destruct (ok_cs _ _ _ (inv_node _ _ HI _ _ Hq) _ Eq) as [Hself _].
  assert (Hh : holder_is nq p).
  { eapply (inv_grants _ _ HI p q); [done..|by rewrite Ep|]. right. rewrite Ha.
    apply (inv_nodes _ _ HI). eauto. }
  by pose proof (holder_is_unique _ _ _ Hh Hself).
Qed.

(** ** Concrete runs *)

(** A node takes the lock, releases it, and a second node takes it. *)
Definition handover : list event :=
  [EStart "X"; EBroadcast "X"; EDeliver 1; EDeliver 0; EDeliver 0; EDeliver 0; EEnter "X";
   EStart "D"; EBroadcast "D"; EDeliver 1; EDeliver 0; EExit "X"; EDeliver 0; EDeliver 1;
   EDeliver 0; EDeliver 0; EEnter "D"].

Lemma mutex_exclusion_witness :
  exists c, run 1000 handover (init ["D"; "X"; "Z"]) = Some c /\
    in_critical_section c "D" /\ forall q, in_critical_section c q -> "D" = q.
Proof.
  assert (match run 1000 handover (init ["D"; "X"; "Z"]) with
          | Some c => match nodes c !! "D" with
                      | Some n => bool_decide (node_phase n = InCS 3)
                      | None => false
                      end
          | None => false
          end = true) as H by (vm_compute; reflexivity).
  destruct (run 1000 handover (init ["D"; "X"; "Z"])) as [c|] eqn:E; [|done].
  destruct (nodes c !! "D") as [n|] eqn:En; [|done].
  apply bool_decide_eq_true in H.
  assert (in_critical_section c "D") as HD by exact (ex_intro _ n (ex_intro _ 3 (conj En H))).
  exists c. split; [exact eq_refl|]. split; [exact HD|]. intros q Hq.
  apply (mutex_exclusion 1000 ["D"; "X"; "Z"] handover c "D" q E); [reflexivity| |exact HD|exact Hq].
  refine (bool_decide_unpack _ _). vm_compute. exact I.
Defined.

(** Three nodes.  X holds the lock; D and then Z request and defer each other
    under their open leases for X.  X leaves, granting D, and its release makes D
    grant Z (although D's own request is earlier) and Z grant D.  One second
    later the leases have lapsed: D enters; Z's retry is granted by X, whose lease
    for D has lapsed too, and Z enters. *)
Definition lapse : list event :=
  [EStart "X"; EBroadcast "X"; EDeliver 1; EDeliver 0; EDeliver 0; EDeliver 0; EEnter "X";
   EStart "D"; EBroadcast "D"; EDeliver 1; EDeliver 0; EStart "Z"; EBroadcast "Z"; EDeliver 1;
   EDeliver 0; EExit "X"; EDeliver 0; EDeliver 1; EDeliver 0; EDeliver 0; EDeliver 0;
   ETick 1000; EEnter "D"; EBroadcast "Z"; EDeliver 1; EDeliver 1; EEnter "Z"].

(** Without open leases the exclusion fails, in a run with no crash, no
    failed send and no partition: after X releases, D and Z grant each other
    because [handle_release] grants the earliest deferred request even when the
    node has an earlier request of its own, and once the leases lapse both are in
    the critical section. *)
Theorem mutex_exclusion_lapse :
  exists c, run 1000 lapse (init ["D"; "X"; "Z"]) = Some c /\
    in_critical_section c "D" /\ in_critical_section c "Z".
Proof.
  assert (match run 1000 lapse (init ["D"; "X"; "Z"]) with
          | Some c => match nodes c !! "D", nodes c !! "Z" with
                      | Some n, Some m =>
                          bool_decide (node_phase n = InCS 3 /\ node_phase m = InCS 5)
                      | _, _ => false
                      end
          | None => false
          end = true) as H by (vm_compute; reflexivity).
  destruct (run 1000 lapse (init ["D"; "X"; "Z"])) as [c|]; [|done].
  destruct (nodes c !! "D") as [n|] eqn:En, (nodes c !! "Z") as [m|] eqn:Em; try done.
  apply bool_decide_eq_true in H as [Hn Hm].
  exists c. split; [done|]. split; [by exists n, 3|by exists m, 5].
Qed.

(** Two nodes.  A acquires, retrying its request once, so that B sends two replies;
    A enters on the first and leaves.  Then B does the same.  The second replies
    arrive only now, after both have come back for another acquisition. *)
Definition stale : list event :=
  [EStart "A"; EBroadcast "A"; EBroadcast "A"; EDeliver 0; EDeliver 0; EDeliver 0; EEnter "A";
   EExit "A"; EDeliver 1;
   EStart "B"; EBroadcast "B"; EBroadcast "B"; EDeliver 1; EDeliver 1; EDeliver 1; EEnter "B";
   EExit "B"; EDeliver 2;
   EAgain "A"; EStart "A"; EDeliver 0; EEnter "A";
   EAgain "B"; EStart "B"; EDeliver 0; EEnter "B"].

(** A second acquisition breaks the exclusion even when every lease is open
    whenever it is consulted: a reply carries neither the timestamp of the request
    it answers nor a tag, so the second reply to a retried request counts towards
    the node's next request, and two nodes enter without asking each other. *)
Theorem mutex_exclusion_stale_reply :
  exists c, run 1000 stale (init ["A"; "B"]) = Some c /\ leases_open 1000 stale (init ["A"; "B"]) /\
    in_critical_section c "A" /\ in_critical_section c "B".
Proof.
  assert (match run 1000 stale (init ["A"; "B"]) with
          | Some c => match nodes c !! "A", nodes c !! "B" with
                      | Some (MkNode _ (InCS _)), Some (MkNode _ (InCS _)) => true
                      | _, _ => false
                      end
          | None => false
          end = true) as H by (vm_compute; reflexivity).
  destruct (run 1000 stale (init ["A"; "B"])) as [c|]; [|done].
  destruct (nodes c !! "A") as [[sa [|ta|ta|]]|] eqn:Ea; try done.
  destruct (nodes c !! "B") as [[sb [|tb|tb|]]|] eqn:Eb; try done.
  exists c. split; [done|]. split; [refine (bool_decide_unpack _ _); vm_compute; exact I|].
  split; eexists _, _; by split.
Qed.
