(* ===== verification/Advert.v ===== *)
(** * Advert records

    Models [src/bingle_core/src/ddb/advert_record.rs]: [InetSocketAddress] with
    its textual form, the advert record, its signature and its compact CSV form.

    The decimal and IPv4 syntax is that of the Rust standard library
    ([u8], [u16] and [SocketAddrV4]); an IPv6 address parses in the source but is
    then refused, so only the IPv4 syntax is modelled and the text of an error is
    not.  Ed25519, base64, the JSON encoder and the Algorand address decoder are
    parameters, with what the code relies on as hypotheses. *)
From S2P Require Import Prelude NetAddr.

Local Open Scope Z_scope.

(** ** Decimal numbers *)

Definition digit_char (d : Z) : ascii := Ascii.ascii_of_N (Z.to_N (48 + d)).

Definition digit_of (a : ascii) : option Z :=
  let n := Z.of_N (Ascii.N_of_ascii a) in
  if (48 <=? n) && (n <=? 57) then Some (n - 48) else None.

Fixpoint show_dec_go (fuel : nat) (z : Z) (acc : string) : string :=
  match fuel with
  | O => acc
  | S fuel =>
      let acc := String (digit_char (z mod 10)) acc in
      if z <? 10 then acc else show_dec_go fuel (z / 10) acc
  end.

(** The [Display] of an unsigned integer below 10^20. *)
Definition show_dec (z : Z) : string := show_dec_go 20 z EmptyString.

Fixpoint parse_digits (s : string) (acc : Z) : option Z :=
  match s with
  | EmptyString => Some acc
  | String a s =>
      match digit_of a with
      | Some d => parse_digits s (acc * 10 + d)
      | None => None
      end
  end.

(** One group of an IPv4 address: at most three digits, no leading zero. *)
Definition parse_octet (s : string) : option Z :=
  match s with
  | EmptyString => None
  | String a t =>
      if (3 <? Z.of_nat (String.length s)) then None
      else if Ascii.eqb a "0"%char && negb (String.eqb t EmptyString) then None
      else match parse_digits s 0 with
           | Some n => if n <=? 255 then Some n else None
           | None => None
           end
  end.

Definition parse_port (s : string) : option Z :=
  match s with
  | EmptyString => None
  | _ => match parse_digits s 0 with
         | Some n => if n <=? 65535 then Some n else None
         | None => None
         end
  end.

Definition parse_ipv4 (s : string) : option IpAddr :=
  match split_on "."%char s with
  | [a; b; c; d] =>
      match parse_octet a, parse_octet b, parse_octet c, parse_octet d with
      | Some a, Some b, Some c, Some d => Some (V4 a b c d)
      | _, _, _, _ => None
      end
  | _ => None
  end.

(** [str::parse::<SocketAddr>] on the IPv4 form. *)
Definition parse_socket_addr_v4 (s : string) : option SocketAddr :=
  match split_on ":"%char s with
  | [h; p] =>
      match parse_ipv4 h, parse_port p with
      | Some i, Some p => Some (SockAddr i p)
      | _, _ => None
      end
  | _ => None
  end.

Definition show_ipv4 (a b c d : Z) : string :=
  show_dec a +:+ String "."%char (show_dec b +:+ String "."%char (show_dec c +:+ String "."%char (show_dec d))).

(** ** [InetSocketAddress] *)

Record InetSocketAddress : Type := MkInet { host : string; inet_port : Z }.

#[export] Instance InetSocketAddress_eq_dec : EqDecision InetSocketAddress.
Proof. solve_decision. Defined.

(** [From<SocketAddr>]; [show_ipv6] is the textual form of an IPv6 address. *)
Definition inet_from (show_ipv6 : Z -> string) (addr : SocketAddr) : InetSocketAddress :=
  MkInet (match ip addr with V4 a b c d => show_ipv4 a b c d | V6 v => show_ipv6 v end) (port addr).

Definition inet_display (e : InetSocketAddress) : string :=
  host e +:+ String ":"%char (show_dec (inet_port e)).

(** [TryFrom<InetSocketAddress> for SocketAddr]; [None] is an error. *)
Definition inet_try_into (e : InetSocketAddress) : option SocketAddr :=
  parse_socket_addr_v4 (inet_display e).

(** [FromStr]. *)
Definition inet_from_str (s : string) : option InetSocketAddress :=
  match parse_socket_addr_v4 s with
  | Some addr => Some (inet_from (fun _ => EmptyString) addr)
  | None => None
  end.

(** ** The record and its CSV form *)

Record AdvertRecord : Type := MkAdvert {
  id : string;
  endpoint : option InetSocketAddress;
  am_relay : option bool;
  adv_relay_id : option string;
  relay_sig : option string;
  date : string;
  sig : option string
}.

#[export] Instance AdvertRecord_eq_dec : EqDecision AdvertRecord.
Proof. solve_decision. Defined.

Definition set_sig (s : option string) (r : AdvertRecord) : AdvertRecord :=
  MkAdvert (id r) (endpoint r) (am_relay r) (adv_relay_id r) (relay_sig r) (date r) s.

Definition new_unsigned (i : string) (e : option InetSocketAddress) (am : option bool)
  (rid rsig : option string) (d : string) : AdvertRecord := MkAdvert i e am rid rsig d None.

Definition comma : ascii := ","%char.

Fixpoint csv_join (l : list string) : string :=
  match l with
  | [] => EmptyString
  | [x] => x
  | x :: l => x +:+ String comma (csv_join l)
  end.

Definition serialize_csv (r : AdvertRecord) : string :=
  csv_join
    [ default EmptyString (inet_display <$> endpoint r);
      match am_relay r with Some true => "T" | _ => "F" end;
      default EmptyString (adv_relay_id r);
      default EmptyString (relay_sig r);
      date r;
      default EmptyString (sig r) ].

(** [None] for the empty part of a line. *)
Definition non_empty (s : string) : option string :=
  match s with EmptyString => None | _ => Some s end.

Definition deserialize_csv (i csv : string) : option AdvertRecord :=
  match split_on comma csv with
  | [p0; p1; p2; p3; p4; p5] =>
      let ep := match non_empty p0 with None => None | Some s => inet_from_str s end in
      match (if String.eqb p1 "T" then Some true
             else if String.eqb p1 "F" then Some false else None) with
      | None => None
      | Some am =>
          Some (MkAdvert i ep (Some am) (non_empty p2) (non_empty p3) p4 (non_empty p5))
      end
  | _ => None
  end.

(** ** Signatures *)

Section Signature.
Context {SigningKey : Type}.
(** [serde_json::to_vec], Ed25519 signing and verification, base64 and the
    decoder of an Algorand address. *)
Context (to_vec : AdvertRecord -> list Z)
        (sign : SigningKey -> list Z -> list Z)
        (ed25519_verify : list Z -> list Z -> list Z -> bool)
        (valid_key : list Z -> bool)
        (base64_encode : list Z -> string)
        (base64_decode : string -> option (list Z))
        (address_to_byte_key : string -> option (list Z)).

Definition calculate_signature (sk : SigningKey) (r : AdvertRecord) : string :=
  base64_encode (sign sk (to_vec (set_sig None r))).

Definition advert_new (i : string) (e : option InetSocketAddress) (am : option bool)
  (rid rsig : option string) (d : string) (sk : SigningKey) : AdvertRecord :=
  let rec := MkAdvert i e am rid rsig d None in
  set_sig (Some (calculate_signature sk rec)) rec.

Definition verify (r : AdvertRecord) : bool :=
  match sig r with
  | None => false
  | Some sig_str =>
      match address_to_byte_key (id r) with
      | None => false
      | Some pk =>
          if negb (valid_key pk) then false
          else
            match base64_decode sig_str with
            | None => false
            | Some sig_bytes =>
                if negb (Nat.eqb (length sig_bytes) 64) then false
                else ed25519_verify pk (to_vec (set_sig None r)) sig_bytes
            end
      end
  end.

(** Base64 decodes what it encodes; a signature has 64 bytes; a valid signature
    verifies under the public key of the signing key. *)
Context (public_key : SigningKey -> list Z)
        (base64_roundtrip : forall l, base64_decode (base64_encode l) = Some l)
        (sign_length : forall sk m, length (sign sk m) = 64%nat)
        (sign_correct : forall sk m, ed25519_verify (public_key sk) m (sign sk m) = true).

Lemma verify_new i e am rid rsig d sk :
  address_to_byte_key i = Some (public_key sk) -> valid_key (public_key sk) = true ->
  verify (advert_new i e am rid rsig d sk) = true.
Proof using base64_roundtrip sign_length sign_correct.
  intros Ha Hv. unfold verify, advert_new, calculate_signature. simpl.
  rewrite Ha, Hv, base64_roundtrip, sign_length. simpl. apply sign_correct.
Qed.

(** A record made by [AdvertRecord::new] verifies when its id is the address
    of the signing key's public key: the signature is computed and checked over the
    same bytes, those of the record without its [sig] field.  Without its
    signature the record does not verify. *)
Theorem advert_new_verifies i e am rid rsig d sk :
  address_to_byte_key i = Some (public_key sk) -> valid_key (public_key sk) = true ->
  let r := advert_new i e am rid rsig d sk in
  verify r = true /\ set_sig None r = new_unsigned i e am rid rsig d /\
  verify (set_sig None r) = false.
Proof using base64_roundtrip sign_length sign_correct.
  intros Ha Hv r. split_and!; [by apply verify_new|done|done].
Qed.
End Signature.

(** ** Lemmas: decimal numbers *)

Lemma digit_cases (P : Z -> Prop) :
  P 0 -> P 1 -> P 2 -> P 3 -> P 4 -> P 5 -> P 6 -> P 7 -> P 8 -> P 9 ->
  forall d, 0 <= d < 10 -> P d.
Proof.
  intros. assert (d = 0 \/ d = 1 \/ d = 2 \/ d = 3 \/ d = 4 \/ d = 5 \/ d = 6 \/ d = 7 \/
    d = 8 \/ d = 9) by lia. by destruct_or!; subst.
Qed.

Lemma digit_of_char d : 0 <= d < 10 -> digit_of (digit_char d) = Some d.
Proof. revert d. apply digit_cases; reflexivity. Qed.

Lemma parse_show_go n z acc :
  0 <= z < 10 ^ Z.of_nat n -> parse_digits (show_dec_go n z acc) 0 = parse_digits acc z.
Proof.
  revert z acc. induction n as [|n IH]; intros z acc Hz.
  - simpl in Hz. by assert (z = 0) as -> by lia.
  - rewrite Nat2Z.inj_succ, Z.pow_succ_r in Hz by lia. cbn [show_dec_go].
    pose proof (Z.mod_pos_bound z 10 ltac:(lia)) as Hm. pose proof (Z.div_mod z 10 ltac:(lia)) as Hd.
    destruct (Z.ltb_spec z 10) as [Hlt|Hge].
    + cbn [parse_digits]. rewrite digit_of_char, Z.mod_small by lia. done.
    + rewrite IH by (Z.div_mod_to_equations; lia). cbn [parse_digits].
      rewrite digit_of_char by done. f_equal. lia.
Qed.

Lemma show_go_chars c n z acc :
  digit_of c = None -> 0 <= z ->
  string_contains_char c (show_dec_go n z acc) = string_contains_char c acc.
Proof.
  intros Hc. revert z acc. induction n as [|n IH]; intros z acc Hz; simpl; [done|].
  assert (Ascii.eqb (digit_char (z mod 10)) c = false) as Hd.
  { apply Ascii.eqb_neq. intros <-. rewrite digit_of_char in Hc; [done|].
    apply Z.mod_pos_bound. lia. }
  destruct (z <? 10); [|rewrite IH by (apply Z.div_pos; lia)]; simpl; by rewrite Hd.
Qed.

Lemma show_dec_chars c z : digit_of c = None -> 0 <= z -> string_contains_char c (show_dec z) = false.
Proof. intros. unfold show_dec. by rewrite show_go_chars. Qed.

Lemma show_dec_nonempty z : exists a t, show_dec z = String a t.
Proof.
  assert (H : forall n z acc, acc <> EmptyString -> show_dec_go n z acc <> EmptyString).
  { induction n as [|n IH]; intros z' acc Ha; simpl; [done|]. destruct (z' <? 10); [done|].
    by apply IH. }
  unfold show_dec. change (show_dec_go 20 z EmptyString) with
    (if z <? 10 then String (digit_char (z mod 10)) EmptyString
     else show_dec_go 19 (z / 10) (String (digit_char (z mod 10)) EmptyString)).
  destruct (z <? 10); [eauto|].
  destruct (show_dec_go 19 _ _) eqn:E; [|eauto]. by apply H in E.
Qed.

Lemma parse_port_show z : 0 <= z <= 65535 -> parse_port (show_dec z) = Some z.
Proof.
  intros Hz. unfold parse_port. destruct (show_dec_nonempty z) as (a & t & E).
  rewrite E, <- E. unfold show_dec. rewrite parse_show_go by (simpl; lia). simpl.
  destruct (Z.leb_spec z 65535); [done|lia].
Qed.

Fixpoint octets_ok (n : nat) (z : Z) : bool :=
  match n with
  | O => true
  | S n => bool_decide (parse_octet (show_dec z) = Some z) && octets_ok n (z + 1)
  end.

Lemma octets_ok_spec n z x :
  octets_ok n z = true -> z <= x < z + Z.of_nat n -> parse_octet (show_dec x) = Some x.
Proof.
  revert z. induction n as [|n IH]; intros z; simpl; [lia|].
  intros [H1 H2]%andb_true_iff Hx. apply bool_decide_eq_true in H1.
  destruct (decide (x = z)) as [->|]; [done|]. apply (IH (z + 1)); [done|lia].
Qed.

(** All 256 octets, by evaluation. *)
Lemma parse_octet_show z : 0 <= z <= 255 -> parse_octet (show_dec z) = Some z.
Proof. intros Hz. apply (octets_ok_spec 256 0); [vm_compute; reflexivity|lia]. Qed.

(** ** Lemmas: addresses *)

Lemma string_contains_app c s t :
  string_contains_char c (s +:+ t) = string_contains_char c s || string_contains_char c t.
Proof. induction s as [|a s IH]; simpl; [done|]. by rewrite IH, orb_assoc. Qed.

Definition octet (z : Z) : Prop := 0 <= z <= 255.

Lemma show_ipv4_chars ch a b c d :
  digit_of ch = None -> ch <> "."%char -> octet a -> octet b -> octet c -> octet d ->
  string_contains_char ch (show_ipv4 a b c d) = false.
Proof.
  unfold octet. intros Hc Hdot Ha Hb Hcc Hd. unfold show_ipv4.
  do 3 (rewrite string_contains_app; cbn [string_contains_char]).
  rewrite !show_dec_chars by (done || lia).
  assert (Ascii.eqb "."%char ch = false) as -> by (apply Ascii.eqb_neq; congruence). done.
Qed.

Lemma parse_show_ipv4 a b c d :
  octet a -> octet b -> octet c -> octet d -> parse_ipv4 (show_ipv4 a b c d) = Some (V4 a b c d).
Proof.
  unfold octet. intros Ha Hb Hc Hd. unfold parse_ipv4, show_ipv4.
  rewrite !split_on_app by (apply show_dec_chars; [done|lia]).
  rewrite split_on_none by (apply show_dec_chars; [done|lia]).
  by rewrite !parse_octet_show.
Qed.

(** An IPv4 address with a 16-bit port. *)
Definition v4_addr_ok (addr : SocketAddr) : Prop :=
  match ip addr with
  | V4 a b c d => octet a /\ octet b /\ octet c /\ octet d
  | V6 _ => False
  end /\ 0 <= port addr <= 65535.

Lemma parse_display_from f addr :
  v4_addr_ok addr -> parse_socket_addr_v4 (inet_display (inet_from f addr)) = Some addr.
Proof.
  destruct addr as [[a b c d|v] p]; intros [Hi Hp]; simpl in *; [|done].
  destruct Hi as (Ha & Hb & Hc & Hd). unfold parse_socket_addr_v4, inet_display. simpl.
  rewrite split_on_app by by apply show_ipv4_chars.
  rewrite split_on_none by (apply show_dec_chars; [done|lia]).
  by rewrite parse_show_ipv4, parse_port_show.
Qed.

(** Textual round trip of an address: an IPv4 socket address converted to
    [InetSocketAddress] is recovered by [TryFrom], and its printed form parses
    back to the same [InetSocketAddress]. *)
Theorem inet_roundtrip f addr :
  v4_addr_ok addr ->
  inet_try_into (inet_from f addr) = Some addr /\
  inet_from_str (inet_display (inet_from f addr)) = Some (inet_from f addr).
Proof.
  intros H. unfold inet_try_into, inet_from_str. rewrite parse_display_from by done.
  split; [done|]. destruct addr as [[] ?]; [done|]. by destruct H.
Qed.

Lemma inet_roundtrip_witness :
  inet_try_into (MkInet "192.168.0.1" 65535) = Some (SockAddr (V4 192 168 0 1) 65535).
Proof.
  apply (inet_roundtrip (fun _ => EmptyString) (SockAddr (V4 192 168 0 1) 65535)).
  unfold v4_addr_ok, octet. simpl. lia.
Defined.

(** ** The CSV round trip *)

Lemma split_csv_join l :
  l <> [] -> Forall (fun s => string_contains_char comma s = false) l ->
  split_on comma (csv_join l) = l.
Proof.
  intros Hl HF. induction HF as [|x l Hx HF IH]; [done|].
  destruct l as [|y l]; [by apply split_on_none|].
  change (csv_join (x :: y :: l)) with (x +:+ String comma (csv_join (y :: l))).
  rewrite split_on_app by done. f_equal. by apply IH.
Qed.

Definition no_comma (s : string) : Prop := string_contains_char comma s = false.

(** The fields fit the CSV form: no commas, and the endpoint an IPv4 address. *)
Definition csv_safe (r : AdvertRecord) : Prop :=
  match endpoint r with
  | Some e => exists addr, v4_addr_ok addr /\ e = inet_from (fun _ => EmptyString) addr
  | None => True
  end /\
  no_comma (default EmptyString (adv_relay_id r)) /\ no_comma (default EmptyString (relay_sig r)) /\
  no_comma (date r) /\ no_comma (default EmptyString (sig r)).

(** What the CSV form keeps: an absent [am_relay] is read back as false, an empty
    optional field as absent. *)
Definition csv_normal (r : AdvertRecord) : AdvertRecord :=
  MkAdvert (id r) (endpoint r) (Some (default false (am_relay r)))
    (non_empty (default EmptyString (adv_relay_id r)))
    (non_empty (default EmptyString (relay_sig r))) (date r)
    (non_empty (default EmptyString (sig r))).

Lemma inet_display_no_comma addr :
  v4_addr_ok addr -> no_comma (inet_display (inet_from (fun _ => EmptyString) addr)).
Proof.
  destruct addr as [[a b c d|v] p]; intros [Hi Hp]; simpl in *; [|done].
  destruct Hi as (Ha & Hb & Hc & Hd). unfold no_comma, inet_display. simpl host.
  rewrite string_contains_app. cbn [string_contains_char inet_port].
  rewrite show_ipv4_chars, show_dec_chars by (done || (simpl; lia)). done.
Qed.

Lemma inet_display_nonempty e : exists s, non_empty (inet_display e) = Some s /\ s = inet_display e.
Proof.
  unfold inet_display. destruct (host e) as [|a t]; simpl; eauto.
Qed.

(** CSV round trip of an advert record: a record whose fields fit the format
    is read back as its normal form, under the id it was stored with; the normal
    form is the record itself when [am_relay] is set and no optional field is an
    empty string. *)
Theorem csv_roundtrip r :
  csv_safe r ->
  deserialize_csv (id r) (serialize_csv r) = Some (csv_normal r) /\
  (am_relay r <> None -> adv_relay_id r <> Some EmptyString -> relay_sig r <> Some EmptyString ->
   sig r <> Some EmptyString -> csv_normal r = r).
Proof.
  intros (He & H1 & H2 & H3 & H4). split.
  - unfold deserialize_csv, serialize_csv. rewrite split_csv_join; [|done|].
    + assert (match non_empty (default EmptyString (inet_display <$> endpoint r)) with
              | None => None | Some s => inet_from_str s end = endpoint r) as ->.
      { destruct (endpoint r) as [e|]; [|done]. destruct He as (addr & Ha & ->).
        cbn [fmap option_fmap option_map default]. unfold from_option, id.
        destruct (inet_display_nonempty (inet_from (fun _ => EmptyString) addr)) as (? & E & ->).
        simpl. rewrite E. unfold inet_from_str. by rewrite parse_display_from. }
      unfold csv_normal. by destruct (am_relay r) as [[]|].
    + repeat constructor; try done; [|by destruct (am_relay r) as [[]|]].
      destruct (endpoint r) as [e|]; [|done]. destruct He as (addr & Ha & ->).
      by apply inet_display_no_comma.
  - intros A1 A2 A3 A4. destruct r as [i e am rid rs d sg]; unfold csv_normal, non_empty; simpl in *.
    destruct am; [|done].
    assert (forall o : option string, o <> Some EmptyString ->
      match default EmptyString o with EmptyString => None | _ => Some (default EmptyString o) end = o)
      as Hn by (intros [[]|] ?; done).
    f_equal; by apply Hn.
Qed.

Definition ex_record : AdvertRecord :=
  MkAdvert "NODE" (Some (MkInet "10.0.0.7" 9000)) (Some true) None None "2024-01-01" (Some "c2ln").

Lemma csv_roundtrip_witness :
  serialize_csv ex_record = "10.0.0.7:9000,T,,,2024-01-01,c2ln" /\
  deserialize_csv "NODE" "10.0.0.7:9000,T,,,2024-01-01,c2ln" = Some (csv_normal ex_record).
Proof.
  split; [vm_compute; reflexivity|].
  apply (csv_roundtrip ex_record). split_and!; try done.
  exists (SockAddr (V4 10 0 0 7) 9000). split; [unfold v4_addr_ok, octet; simpl; lia|].
  vm_compute. reflexivity.
Defined.

(** An endpoint whose host is a name is silently lost by the CSV form: the
    record is read back without its endpoint. *)
Theorem csv_hostname_lost i h p am rid rsig d sg :
  no_comma h -> parse_ipv4 h = None -> 0 <= p <= 65535 ->
  string_contains_char ":"%char h = false ->
  no_comma (default EmptyString rid) -> no_comma (default EmptyString rsig) -> no_comma d ->
  no_comma (default EmptyString sg) ->
  let r := MkAdvert i (Some (MkInet h p)) am rid rsig d sg in
  exists r', deserialize_csv i (serialize_csv r) = Some r' /\ endpoint r' = None.
Proof.
  intros Hh Hp4 Hp Hc H1 H2 H3 H4 r. unfold deserialize_csv, serialize_csv.
  rewrite split_csv_join; [|done|].
  - simpl. destruct (inet_display_nonempty (MkInet h p)) as (? & E & ->). unfold id in *.
    rewrite E. unfold inet_from_str, parse_socket_addr_v4, inet_display. simpl host.
    rewrite split_on_app by done.
    rewrite split_on_none by (apply show_dec_chars; [done|simpl; lia]).
    rewrite Hp4. destruct am as [[]|]; simpl; eauto.
  - repeat constructor; try done; [|by destruct am as [[]|]].
    simpl. unfold inet_display, no_comma. rewrite string_contains_app.
    cbn [string_contains_char host inet_port]. rewrite Hh, show_dec_chars by (done || lia). done.
Qed.

Lemma csv_hostname_lost_witness :
  exists r', deserialize_csv "NODE" (serialize_csv (MkAdvert "NODE"
    (Some (MkInet "relay.example.org" 9000)) (Some true) None None "2024-01-01" None)) = Some r' /\
    endpoint r' = None.
Proof. apply csv_hostname_lost; first [done | lia | vm_compute; reflexivity]. Defined.

(** An ideal instance of the signature scheme, the base64 text and the JSON
    encoder: enough to show that the hypotheses of [advert_new_verifies] can hold. *)
Module IdealSignature.
Fixpoint pos_text (p : positive) : string :=
  match p with
  | xH => EmptyString
  | xO p => String "0"%char (pos_text p)
  | xI p => String "1"%char (pos_text p)
  end.

Fixpoint text_pos (s : string) : positive :=
  match s with
  | EmptyString => xH
  | String a s => if Ascii.eqb a "0"%char then xO (text_pos s) else xI (text_pos s)
  end.

Definition encode64 (l : list Z) : string := pos_text (encode l).
Definition decode64 (s : string) : option (list Z) := decode (text_pos s).
Definition sign (sk : Z) (m : list Z) : list Z := sk :: Zpos (encode m) :: replicate 62 0.
Definition check (pk m s : list Z) : bool := bool_decide (s = hd 0 pk :: Zpos (encode m) :: replicate 62 0).
Definition public_key (sk : Z) : list Z := [sk].
Definition to_vec (r : AdvertRecord) : list Z :=
  map (fun a => Z.of_N (Ascii.N_of_ascii a)) (String.list_ascii_of_string (serialize_csv r)).
Definition address (i : string) : option (list Z) := if String.eqb i "NODE" then Some [7] else None.

Lemma decode_encode64 l : decode64 (encode64 l) = Some l.
Proof.
  unfold decode64, encode64.
  assert (forall p, text_pos (pos_text p) = p) as -> by (induction p; simpl; congruence).
  apply decode_encode.
Qed.
End IdealSignature.

Lemma advert_new_verifies_witness :
  verify IdealSignature.to_vec IdealSignature.check (fun _ => true) IdealSignature.decode64
    IdealSignature.address
    (advert_new IdealSignature.to_vec IdealSignature.sign IdealSignature.encode64
       "NODE" None (Some false) None None "2024-01-01" 7) = true.
Proof.
  refine (proj1 (advert_new_verifies IdealSignature.to_vec IdealSignature.sign
    IdealSignature.check (fun _ => true) IdealSignature.encode64 IdealSignature.decode64
    IdealSignature.address IdealSignature.public_key IdealSignature.decode_encode64 _ _
    "NODE" None (Some false) None None "2024-01-01" 7 eq_refl eq_refl)).
  - done.
  - intros sk m. by apply bool_decide_eq_true.
Defined.
