(* ===== verification/Ddb.v ===== *)
(** * The advert database of a relay

    Models [src/bingle_core/src/ddb/mod.rs]: the trait [DdbBackend] as the class
    [DdbBackend] with the promises its clients use ([DdbBackendLaws]), the
    in-memory backend with advert expiry, the eviction of relays that lost their
    permission (written against the trait), the advert registration a node
    repeats, and the effective time to live.  The clock is an argument of the
    operations that read it; durations and instants are milliseconds.  A hash map
    iterates in the order of [map_to_list], the source's order is unspecified. *)
From S2P Require Import Prelude NetAddr Advert.

Local Open Scope Z_scope.

(** ** The trait *)

Class DdbBackend (B : Type) := {
  upsert : Z -> AdvertRecord -> B -> B;
  delete : string -> B -> B;
  lookup : Z -> string -> B -> option AdvertRecord;
  make_epoch_info : Z -> B -> list string * option (list InetSocketAddress);
  db_len : Z -> B -> nat;
  sweep_expired : Z -> B -> list string * B
}.

Definition is_relay_record (r : AdvertRecord) : bool := default false (am_relay r).

(** What clients of a backend rely on, for backends that satisfy its invariant. *)
Class DdbBackendLaws (B : Type) `{DdbBackend B} := {
  backend_ok : B -> Prop;
  ok_upsert : forall now r b, backend_ok b -> backend_ok (upsert now r b);
  ok_delete : forall i b, backend_ok b -> backend_ok (delete i b);
  ok_sweep : forall now b, backend_ok b -> backend_ok (sweep_expired now b).2;
  backend_lookup_id : forall now i b r, backend_ok b -> lookup now i b = Some r -> id r = i;
  backend_lookup_delete : forall now i j b,
    lookup now i (delete j b) = if decide (i = j) then None else lookup now i b;
  backend_lookup_upsert_other : forall now now' i r b, i <> id r ->
    lookup now' i (upsert now r b) = lookup now' i b;
  epoch_ids : forall now b i, backend_ok b ->
    i ∈ (make_epoch_info now b).1 <->
    exists r, lookup now i b = Some r /\ is_relay_record r = true;
  epoch_nodup : forall now b, backend_ok b -> NoDup (make_epoch_info now b).1
}.

(** ** Eviction of relays that are no longer permitted *)

Definition relays_to_evict (relay_ids : list string) (my_id : string)
  (permission : string -> option bool) : list string :=
  filter (fun i => permission i = Some false) (filter (fun i => i <> my_id) relay_ids).

(** The lock is released between the snapshot and the deletions; [between] is
    what happens to the backend meanwhile. *)
Definition evict_disallowed_relays `{DdbBackend B} (now : Z) (my_id : string)
  (permission : string -> option bool) (between : B -> B) (b : B) : list string * B :=
  let relay_ids := (make_epoch_info now b).1 in
  let evict := relays_to_evict relay_ids my_id permission in
  (evict, foldl (fun b i => delete i b) (between b) evict).

(** ** Time to live and registrations *)

Definition DEFAULT_ADVERT_TTL : Z := 600000.

Definition effective_advert_ttl (requested : option Z) : option Z :=
  match requested with
  | None => Some DEFAULT_ADVERT_TTL
  | Some ttl => if ttl =? 0 then None else Some ttl
  end.

Inductive AdvertRegistration : Type :=
| RegIp (ep : SocketAddr) (relay : bool)
| RegRelay (rid : string) (rsig : option string).

Definition registration_is_relay (r : AdvertRegistration) : bool :=
  match r with RegIp _ true => true | _ => false end.

(** ** The in-memory backend *)

Record StoredRecord : Type := MkStored { record : AdvertRecord; received : Z }.

Record InMemoryDdbBackend : Type := MkBackend {
  db_map : gmap string StoredRecord;
  advert_ttl : option Z;
  own_id : option string
}.

Definition backend_new : InMemoryDdbBackend := MkBackend ∅ None None.

Definition with_advert_ttl (ttl : option Z) : InMemoryDdbBackend := MkBackend ∅ ttl None.

Definition set_own_id (i : string) (b : InMemoryDdbBackend) : InMemoryDdbBackend :=
  MkBackend (db_map b) (advert_ttl b) (Some i).

Definition is_expired (b : InMemoryDdbBackend) (now : Z) (s : StoredRecord) : bool :=
  match advert_ttl b with
  | None => false
  | Some ttl =>
      if is_relay_record (record s) || bool_decide (own_id b = Some (id (record s))) then false
      else ttl <=? Z.max 0 (now - received s)
  end.

Definition db_values (b : InMemoryDdbBackend) : list StoredRecord := (map_to_list (db_map b)).*2.

Definition live_records (now : Z) (b : InMemoryDdbBackend) : list AdvertRecord :=
  record <$> filter (fun s => is_expired b now s = false) (db_values b).

Definition set_map (m : gmap string StoredRecord) (b : InMemoryDdbBackend) : InMemoryDdbBackend :=
  MkBackend m (advert_ttl b) (own_id b).

Definition mem_upsert (now : Z) (r : AdvertRecord) (b : InMemoryDdbBackend) : InMemoryDdbBackend :=
  set_map (<[id r := MkStored r now]> (db_map b)) b.

Definition mem_delete (i : string) (b : InMemoryDdbBackend) : InMemoryDdbBackend :=
  set_map (base.delete i (db_map b)) b.

Definition mem_lookup (now : Z) (i : string) (b : InMemoryDdbBackend) : option AdvertRecord :=
  match db_map b !! i with
  | Some s => if is_expired b now s then None else Some (record s)
  | None => None
  end.

Definition relay_le (a b : string * option InetSocketAddress) : bool := String.leb a.1 b.1.

Definition epoch_relays (now : Z) (b : InMemoryDdbBackend)
  : list (string * option InetSocketAddress) :=
  sort_by relay_le
    ((fun r => (id r, endpoint r)) <$> filter (fun r => is_relay_record r = true) (live_records now b)).

Definition mem_make_epoch_info (now : Z) (b : InMemoryDdbBackend)
  : list string * option (list InetSocketAddress) :=
  let rels := epoch_relays now b in
  let ids := rels.*1 in
  if forallb (fun p => match p.2 with Some _ => true | None => false end) rels
  then (ids, Some (omap snd rels)) else (ids, None).

(** The messages [handle_init] sends to the new peer. *)
Inductive init_message : Type :=
| InitResponse (db_count : Z) (response_tag : option string)
| DumpResolve (r : AdvertRecord).

Definition record_le (a b : AdvertRecord) : bool := String.leb (id a) (id b).

Definition handle_init (now : Z) (response_tag : option string) (b : InMemoryDdbBackend)
  : list init_message :=
  let records := sort_by record_le (live_records now b) in
  InitResponse (Z.of_nat (length records)) response_tag :: (DumpResolve <$> records).

Definition mem_len (now : Z) (b : InMemoryDdbBackend) : nat := length (live_records now b).

Definition mem_sweep_expired (now : Z) (b : InMemoryDdbBackend)
  : list string * InMemoryDdbBackend :=
  let expired := (fun s => id (record s)) <$> filter (fun s => is_expired b now s = true) (db_values b) in
  (expired, set_map (foldl (fun m i => base.delete i m) (db_map b) expired) b).

#[export] Instance in_memory_backend : DdbBackend InMemoryDdbBackend := {
  upsert := mem_upsert;
  delete := mem_delete;
  lookup := mem_lookup;
  make_epoch_info := mem_make_epoch_info;
  db_len := mem_len;
  sweep_expired := mem_sweep_expired
}.

(** ** Lemmas *)

(** Records are stored under their own id. *)
Definition db_wf (b : InMemoryDdbBackend) : Prop :=
  forall i s, db_map b !! i = Some s -> id (record s) = i.

Lemma elem_of_values s b : s ∈ db_values b <-> exists i, db_map b !! i = Some s.
Proof.
  unfold db_values. rewrite list_elem_of_fmap. split.
  - intros ([i s'] & -> & H%elem_of_map_to_list). eauto.
  - intros [i H%elem_of_map_to_list]. by exists (i, s).
Qed.

Lemma elem_of_live now b r :
  r ∈ live_records now b <->
  exists i s, db_map b !! i = Some s /\ is_expired b now s = false /\ record s = r.
Proof.
  unfold live_records. rewrite list_elem_of_fmap. setoid_rewrite list_elem_of_filter.
  setoid_rewrite elem_of_values. naive_solver.
Qed.

(** The ids of a selection of the stored records are distinct. *)
Lemma nodup_ids b (P : StoredRecord -> Prop) `{forall s, Decision (P s)} :
  db_wf b -> NoDup ((fun s => id (record s)) <$> filter P (db_values b)).
Proof.
  intros Hwf. unfold db_values.
  assert (forall l : list (string * StoredRecord), (forall i s, (i, s) ∈ l -> id (record s) = i) ->
    NoDup l.*1 -> NoDup ((fun s => id (record s)) <$> filter P l.*2)) as H'.
  { induction l as [|[i s] l IH]; intros Hl Hn; [constructor|].
    cbn [fmap list_fmap fst snd] in Hn |- *. apply NoDup_cons in Hn as [Hn1 Hn2]. rewrite filter_cons.
    assert (forall i s, (i, s) ∈ l -> id (record s) = i) as Hl' by (intros; apply Hl; by right).
    case_decide; [|by apply IH]. rewrite fmap_cons. constructor; [|by apply IH].
    intros (s' & E & [_ ([i' s2] & -> & Hin)%list_elem_of_fmap]%list_elem_of_filter)%list_elem_of_fmap.
    apply Hn1. rewrite (Hl i s) in E by by left. simpl in E. rewrite (Hl' _ _ Hin) in E. subst i'.
    apply list_elem_of_fmap. by exists (i, s2). }
  apply H'; [|apply NoDup_fst_map_to_list].
  intros i s Hin%elem_of_map_to_list. by apply Hwf.
Qed.

Lemma lookup_foldl_delete (m : gmap string StoredRecord) l i :
  foldl (fun m i => base.delete i m) m l !! i = if decide (i ∈ l) then None else m !! i.
Proof.
  revert m. induction l as [|j l IH]; intros m; [done|]. cbn [foldl]. rewrite IH.
  destruct (decide (i ∈ l)); [by rewrite decide_True by set_solver|].
  rewrite lookup_delete. destruct (decide (j = i)) as [->|].
  - by rewrite decide_True by set_solver.
  - by rewrite decide_False by set_solver.
Qed.

Lemma elem_of_swept now b i :
  db_wf b -> i ∈ (mem_sweep_expired now b).1 <->
  exists s, db_map b !! i = Some s /\ is_expired b now s = true.
Proof.
  intros Hwf. simpl. rewrite list_elem_of_fmap. setoid_rewrite list_elem_of_filter.
  setoid_rewrite elem_of_values. split.
  - intros (s & -> & Hx & j & Hj). rewrite (Hwf _ _ Hj). eauto.
  - intros (s & Hs & Hx). exists s. rewrite (Hwf _ _ Hs). eauto.
Qed.

Lemma lookup_sweep now b i :
  db_wf b -> db_map (mem_sweep_expired now b).2 !! i =
    match db_map b !! i with
    | Some s => if is_expired b now s then None else Some s
    | None => None
    end.
Proof.
  intros Hwf. pose proof (elem_of_swept now b i Hwf) as H. simpl in *. rewrite lookup_foldl_delete.
  case_decide as Hd.
  - apply H in Hd as (s & -> & ->). done.
  - destruct (db_map b !! i) as [s|] eqn:Hi; [|done].
    destruct (is_expired b now s) eqn:Hx; [|done]. exfalso. apply Hd, H. eauto.
Qed.

Lemma is_expired_mono b now now' s :
  now <= now' -> is_expired b now s = true -> is_expired b now' s = true.
Proof.
  unfold is_expired. intros Hle. destruct (advert_ttl b); [|done].
  destruct (is_relay_record (record s) || _); [done|]. rewrite !Z.leb_le. lia.
Qed.

Lemma relay_le_total x y : relay_le x y = true \/ relay_le y x = true.
Proof. apply string_leb_total. Qed.

Lemma relay_le_trans x y z : relay_le x y = true -> relay_le y z = true -> relay_le x z = true.
Proof. apply string_leb_trans. Qed.

Lemma epoch_relays_ids now b :
  (mem_make_epoch_info now b).1 = (epoch_relays now b).*1.
Proof. unfold mem_make_epoch_info. by case_match. Qed.

Lemma live_ids now b : id <$> live_records now b =
  (fun s => id (record s)) <$> filter (fun s => is_expired b now s = false) (db_values b).
Proof. unfold live_records. by rewrite <- list_fmap_compose. Qed.

Lemma nodup_live_ids now b : db_wf b -> NoDup (id <$> live_records now b).
Proof. intros. rewrite live_ids. by apply nodup_ids. Qed.

Lemma sublist_filter_fmap {A B} (f : A -> B) (P : A -> Prop) `{forall x, Decision (P x)} l :
  sublist (f <$> filter P l) (f <$> l).
Proof.
  induction l as [|x l IH]; [done|]. rewrite filter_cons. case_decide; simpl; by constructor.
Qed.

#[export] Instance in_memory_laws : DdbBackendLaws InMemoryDdbBackend.
Proof.
  refine {| backend_ok := db_wf |}; cbn [upsert delete lookup make_epoch_info sweep_expired in_memory_backend].
  - intros now r b Hwf i s. simpl. rewrite lookup_insert. case_decide; [|apply Hwf].
    intros. by simplify_eq/=.
  - intros i b Hwf j s. simpl. rewrite lookup_delete. case_decide; [done|apply Hwf].
  - intros now b Hwf i s. rewrite lookup_sweep by done.
    destruct (db_map b !! i) eqn:Hi; [|done]. case_match; [done|]. intros. simplify_eq. by apply Hwf.
  - intros now i b r Hwf. unfold mem_lookup. destruct (db_map b !! i) eqn:Hi; [|done].
    case_match; [done|]. intros. simplify_eq. by apply Hwf.
  - intros now i j b. unfold mem_lookup. simpl. rewrite lookup_delete.
    destruct (decide (i = j)) as [->|]; [by rewrite decide_True|by rewrite decide_False].
  - intros now now' i r b Hne. unfold mem_lookup. simpl. by rewrite lookup_insert_ne.
  - intros now b i Hwf. rewrite epoch_relays_ids. unfold epoch_relays.
    rewrite sort_by_Permutation, <- list_fmap_compose, list_elem_of_fmap.
    setoid_rewrite list_elem_of_filter. setoid_rewrite elem_of_live. unfold mem_lookup. split.
    + intros (r & -> & Hr & j & s & Hj & Hx & <-). simpl. rewrite (Hwf _ _ Hj), Hj, Hx. eauto.
    + intros (r & Hl & Hr). destruct (db_map b !! i) as [s|] eqn:Hi; [|done].
      destruct (is_expired b now s) eqn:Hx; simplify_eq.
      exists (record s). simpl. rewrite (Hwf _ _ Hi). eauto 8.
  - intros now b Hwf. rewrite epoch_relays_ids. unfold epoch_relays.
    rewrite sort_by_Permutation, <- list_fmap_compose.
    eapply sublist_NoDup; [by apply (nodup_live_ids now b)|]. apply sublist_filter_fmap.
Defined.

(** ** Theorems *)

(** The trait's promises are kept by any backend that satisfies them:
    evicting relays deletes exactly the relays of the snapshot, other than this
    node, that the chain definitely does not permit; unknown permissions and this
    node's own advert are never touched, and with nothing happening in between no
    forbidden relay is left in the epoch. *)
Theorem evict_disallowed_spec `{DdbBackendLaws B} now my_id permission between (b : B) :
  backend_ok b ->
  let r := evict_disallowed_relays now my_id permission between b in
  (forall i, i ∈ r.1 <-> i <> my_id /\ permission i = Some false /\
     exists a, lookup now i b = Some a /\ is_relay_record a = true) /\
  (forall t i, lookup t i r.2 = if decide (i ∈ r.1) then None else lookup t i (between b)) /\
  (between b = b -> forall i, i ∈ (make_epoch_info now r.2).1 ->
     i = my_id \/ permission i <> Some false).
Proof.
  intros Hok r.
  assert (Hids : forall i, i ∈ r.1 <-> i <> my_id /\ permission i = Some false /\
     exists a, lookup now i b = Some a /\ is_relay_record a = true).
  { intros i. simpl. unfold relays_to_evict. rewrite !list_elem_of_filter, epoch_ids by done.
    naive_solver. }
  assert (Hlk : forall l b' t i, lookup t i (foldl (fun b i => delete i b) b' l) =
    if decide (i ∈ l) then None else lookup t i b').
  { induction l as [|j l IH]; intros b' t i; [by rewrite decide_False by set_solver|].
    cbn [foldl]. rewrite IH, backend_lookup_delete.
    destruct (decide (i ∈ l)); [by rewrite decide_True by set_solver|].
    destruct (decide (i = j)) as [->|].
    - by rewrite decide_True by set_solver.
    - by rewrite decide_False by set_solver. }
  assert (Hok' : forall l b', backend_ok b' -> backend_ok (foldl (fun b i => delete i b) b' l)).
  { induction l; intros b' Hb; simpl; [done|]. by apply IHl, ok_delete. }
  split_and!; [done| |].
  - intros t i. apply Hlk.
  - intros Eb i. unfold r, evict_disallowed_relays. simpl. rewrite Eb, epoch_ids by auto.
    rewrite Hlk. intros (a & Ha & Hr). case_decide as Hd; [done|].
    destruct (decide (i = my_id)); [by left|right]. intros Hp. apply Hd, Hids. eauto.
Qed.

(** The changes a backend goes through. *)
Inductive db_op : Type :=
| DbUpsert (r : AdvertRecord)
| DbDelete (i : string)
| DbSweep
| DbSetOwn (i : string).

Definition run_db_op (now : Z) (op : db_op) (b : InMemoryDdbBackend) : InMemoryDdbBackend :=
  match op with
  | DbUpsert r => mem_upsert now r b
  | DbDelete i => mem_delete i b
  | DbSweep => (mem_sweep_expired now b).2
  | DbSetOwn i => set_own_id i b
  end.

Definition run_db (ops : list (Z * db_op)) (b : InMemoryDdbBackend) : InMemoryDdbBackend :=
  foldl (fun b op => run_db_op op.1 op.2 b) b ops.

Lemma run_db_wf ops b : db_wf b -> db_wf (run_db ops b).
Proof.
  revert b. induction ops as [|[now op] ops IH]; intros b Hwf; simpl; [done|].
  apply IH. destruct op; simpl.
  - exact (ok_upsert now r b Hwf).
  - exact (ok_delete i b Hwf).
  - exact (ok_sweep now b Hwf).
  - done.
Qed.

Lemma with_advert_ttl_wf ttl : db_wf (with_advert_ttl ttl).
Proof. intros i s. simpl. by rewrite lookup_empty. Qed.

(** Sweeping: after any history of the backend, a sweep reports, each once,
    exactly the ids whose advert has expired, and nobody can tell: no lookup from
    then on is changed, and the number of live records is the same. *)
Theorem sweep_unobservable ttl ops now :
  let b := run_db ops (with_advert_ttl ttl) in
  let swept := (mem_sweep_expired now b).1 in
  let b' := (mem_sweep_expired now b).2 in
  NoDup swept /\
  (forall i, i ∈ swept <-> exists s, db_map b !! i = Some s /\ is_expired b now s = true) /\
  (forall t i, now <= t -> mem_lookup t i b' = mem_lookup t i b) /\
  (forall i, is_Some (db_map b' !! i) <-> is_Some (mem_lookup now i b)).
Proof.
  intros b. assert (Hwf : db_wf b) by (apply run_db_wf, with_advert_ttl_wf).
  intros swept b'. split_and!.
  - by apply nodup_ids.
  - intros i. by apply elem_of_swept.
  - intros t i Ht. unfold mem_lookup, b'. rewrite lookup_sweep by done.
    destruct (db_map b !! i) as [s|]; [|done].
    destruct (is_expired b now s) eqn:Hx; [|done].
    by rewrite (is_expired_mono _ _ _ _ Ht Hx).
  - intros i. unfold mem_lookup, b'. rewrite lookup_sweep by done.
    destruct (db_map b !! i) as [s|]; [|done]. by destruct (is_expired b now s).
Qed.

(** An advert is found from its upsert until it expires, and only then is it
    lost: a client's advert is found at [t] exactly when less than the time to live
    has passed since it was received; a relay's advert and this node's own never
    expire; other ids are not affected. *)
Theorem lookup_after_upsert now r t b ttl :
  advert_ttl b = Some ttl -> now <= t ->
  (mem_lookup t (id r) (mem_upsert now r b) = Some r <->
   is_relay_record r = true \/ own_id b = Some (id r) \/ t - now < ttl) /\
  (forall i, i <> id r -> mem_lookup t i (mem_upsert now r b) = mem_lookup t i b).
Proof.
  intros Ht Hle. split.
  - unfold mem_lookup, is_expired. simpl. rewrite lookup_insert_eq. simpl. rewrite Ht.
    destruct (is_relay_record r); simpl; [naive_solver|]. case_bool_decide; simpl; [naive_solver|].
    destruct (Z.leb_spec ttl (Z.max 0 (t - now))); split; intros; try done; try naive_solver lia.
  - intros i Hi. exact (backend_lookup_upsert_other now t i r b Hi).
Qed.

(** The epoch snapshot: the relay ids are strictly sorted, they are exactly the
    live records marked as relays, and the endpoints are given exactly when every
    relay has one, in the order of the ids. *)
Theorem epoch_info_spec ttl ops now :
  let b := run_db ops (with_advert_ttl ttl) in
  let '(ids, eps) := mem_make_epoch_info now b in
  StronglySorted (fun x y => String.leb x y = true) ids /\ NoDup ids /\
  (forall i, i ∈ ids <-> exists r, mem_lookup now i b = Some r /\ is_relay_record r = true) /\
  match eps with
  | Some l => length l = length ids /\
      forall k i e, ids !! k = Some i -> l !! k = Some e ->
        exists r, mem_lookup now i b = Some r /\ endpoint r = Some e
  | None => exists i r, i ∈ ids /\ mem_lookup now i b = Some r /\ endpoint r = None
  end.
Proof.
  intros b. assert (Hwf : db_wf b) by (apply run_db_wf, with_advert_ttl_wf).
  pose proof (epoch_relays_ids now b) as Ei.
  pose proof (epoch_nodup now b Hwf) as Hn. pose proof (fun i => epoch_ids now b i Hwf) as Hi.
  simpl in Hn, Hi. rewrite Ei in Hn. setoid_rewrite Ei in Hi.
  assert (Hpair : forall i o, (i, o) ∈ epoch_relays now b ->
    exists r, mem_lookup now i b = Some r /\ endpoint r = o).
  { intros i o. unfold epoch_relays. rewrite elem_of_sort_by, list_elem_of_fmap.
    intros (r & [=-> ->] & [_ (j & s & Hj & Hx & <-)%elem_of_live]%list_elem_of_filter).
    exists (record s). unfold mem_lookup. by rewrite (Hwf _ _ Hj), Hj, Hx. }
  assert (Hs : StronglySorted (fun x y => String.leb x y = true) (epoch_relays now b).*1).
  { unfold epoch_relays. pose proof (sort_by_sorted relay_le relay_le_total relay_le_trans
      ((fun r => (id r, endpoint r)) <$> filter (fun r => is_relay_record r = true) (live_records now b))) as H.
    induction H as [|x l Hl IH Hx]; simpl; constructor; [done|]. by apply Forall_fmap. }
  unfold mem_make_epoch_info in *. destruct (forallb _ (epoch_relays now b)) eqn:Ef; simpl in *.
  - split_and!; try done.
    + clear -Ef. induction (epoch_relays now b) as [|[i [e|]] l IH]; simpl in *; [done|auto|done].
    + intros k i e Hk Hl. apply Hpair. clear -Ef Hk Hl.
      revert k Hk Hl. induction (epoch_relays now b) as [|[i' [e'|]] l IH]; simpl in *; try done.
      intros [|k] Hk Hl; simpl in *; simplify_eq; [by left|right]. by eapply IH.
  - split_and!; try done.
    assert (exists i, (i, None) ∈ epoch_relays now b) as [i Hin].
    { clear -Ef. induction (epoch_relays now b) as [|[i [e|]] l IH]; simpl in *; [done| |].
      - destruct (IH Ef) as [i' ?]. exists i'. by right.
      - exists i. by left. }
    destruct (Hpair _ _ Hin) as (r & Hr & He). exists i, r. split_and!; [|done..].
    apply list_elem_of_fmap. by exists (i, None).
Qed.

(** Loading from a peer: [handle_init] announces exactly as many records as it
    then sends, which are the live records, each once, in the order of their ids. *)
Theorem handle_init_spec ttl ops now tag :
  let b := run_db ops (with_advert_ttl ttl) in
  exists records,
    handle_init now tag b = InitResponse (Z.of_nat (mem_len now b)) tag :: (DumpResolve <$> records) /\
    length records = mem_len now b /\ NoDup (id <$> records) /\
    StronglySorted (fun x y => record_le x y = true) records /\
    forall r, r ∈ records <-> mem_lookup now (id r) b = Some r.
Proof.
  intros b. assert (Hwf : db_wf b) by (apply run_db_wf, with_advert_ttl_wf).
  exists (sort_by record_le (live_records now b)). unfold handle_init, mem_len.
  rewrite length_sort_by. split_and!; try done.
  - rewrite sort_by_Permutation. by apply nodup_live_ids.
  - apply sort_by_sorted; intros; [apply string_leb_total|by eapply string_leb_trans].
  - intros r. rewrite elem_of_sort_by, elem_of_live. unfold mem_lookup. split.
    + intros (i & s & Hi & Hx & <-). by rewrite (Hwf _ _ Hi), Hi, Hx.
    + destruct (db_map b !! id r) as [s|] eqn:Hi; [|done].
      destruct (is_expired b now s) eqn:Hx; [done|]. intros. simplify_eq. eauto.
Qed.

(** ** The theorems on a concrete backend *)

Definition ex_relay : AdvertRecord :=
  MkAdvert "R" (Some (MkInet "10.0.0.1" 1)) (Some true) None None "d" None.
Definition ex_client : AdvertRecord := MkAdvert "C" None (Some false) (Some "R") None "d" None.
Definition ex_db : InMemoryDdbBackend :=
  run_db [(0, DbUpsert ex_relay); (5, DbUpsert ex_client)] (with_advert_ttl (Some 100)).

Lemma evict_disallowed_spec_witness :
  let r := evict_disallowed_relays 6 "ME" (fun _ => Some false) (fun b => b) ex_db in
  r.1 = ["R"] /\ forall i, i ∈ (make_epoch_info 6 r.2).1 -> i = "ME" \/ Some false <> Some false.
Proof.
  intros r. split; [vm_compute; reflexivity|].
  refine (proj2 (proj2 (evict_disallowed_spec 6 "ME" (fun _ => Some false) (fun b => b) ex_db _)) eq_refl).
  apply run_db_wf, with_advert_ttl_wf.
Defined.

Lemma lookup_after_upsert_witness :
  mem_lookup 50 "C" (mem_upsert 5 ex_client ex_db) = Some ex_client.
Proof.
  refine (proj2 (proj1 (lookup_after_upsert 5 ex_client 50 ex_db 100 eq_refl _)) _); [lia|].
  right. right. lia.
Defined.
