(* ===== verification/RelayCache.v ===== *)
(** * Relays known to a node

    Models, of [src/bingle_core/src/relay/]: the relay entries and the cache of
    them ([relay_finder.rs], [relay_info_cache.rs]), the relays a triangle test
    must not use ([corner_exclusion.rs]), the negative cache of unreachable relays
    ([relay_probe_failures.rs]), the keep-alive schedule ([relay_keep_alive.rs])
    and the discovery closure's treatment of the indexer's answer
    ([discovery.rs]).  [RelayInfo::address] panics on an entry without a usable
    address, so the operations that call it return an [outcome].  Clocks are
    arguments; lock poisoning is not modelled. *)
From S2P Require Import Prelude NetAddr Advert.

Local Open Scope Z_scope.

(** [RelayState] of [src/bingle_core/src/engine/mod.rs]. *)
Inductive RelayState : Type :=
| Unknown | Off | Starting | Loading | Loaded | Available | Own.

#[export] Instance RelayState_eq_dec : EqDecision RelayState.
Proof. solve_decision. Defined.

Record RelayInfo : Type := MkRelay {
  advert_record : AdvertRecord;
  is_root : bool;
  state : option RelayState;
  ttl : option Z;
  last_updated : Z
}.

Definition relay_id_of (r : RelayInfo) : string := Advert.id (advert_record r).

Definition address (r : RelayInfo) : outcome SocketAddr :=
  match endpoint (advert_record r) with
  | None => Panics
  | Some ep => match inet_try_into ep with Some a => Returns a | None => Panics end
  end.

Definition root_with (now : Z) (a : AdvertRecord) (st : option RelayState) (t : option Z)
  : RelayInfo := MkRelay a true st t now.

Definition non_root_with (now : Z) (a : AdvertRecord) (st : option RelayState) (t : option Z)
  : RelayInfo := MkRelay a false st t now.

Definition with_updated (now : Z) (r : RelayInfo) : RelayInfo :=
  MkRelay (advert_record r) (is_root r) (state r) (ttl r) now.

Definition set_state (st : option RelayState) (r : RelayInfo) : RelayInfo :=
  MkRelay (advert_record r) (is_root r) st (ttl r) (last_updated r).

Definition set_ttl (t : option Z) (r : RelayInfo) : RelayInfo :=
  MkRelay (advert_record r) (is_root r) (state r) t (last_updated r).

Definition set_root (b : bool) (r : RelayInfo) : RelayInfo :=
  MkRelay (advert_record r) b (state r) (ttl r) (last_updated r).

(** ** Corner exclusion *)

Definition is_excluded_corner (candidate : SocketAddr) (exclude : list SocketAddr) : bool :=
  existsb (fun seen =>
    if is_loopback (ip seen) && is_loopback (ip candidate)
    then bool_decide (seen = candidate)
    else bool_decide (ip seen = ip candidate)) exclude.

(** ** The cache *)

Abbreviation cache := (list RelayInfo).

Definition relay_leb (a b : RelayInfo) : bool := String.leb (relay_id_of a) (relay_id_of b).

Definition sort_relays (l : cache) : cache := sort_by relay_leb l.

Definition add_relay (r : RelayInfo) (c : cache) : cache * bool :=
  if existsb (fun e => String.eqb (relay_id_of e) (relay_id_of r)) c then (c, false)
  else (sort_relays (c ++ [r]), true).

Definition update_relay (now : Z) (r : RelayInfo) (c : cache) : cache * bool :=
  match list_find (fun e => relay_id_of e = relay_id_of r) c with
  | Some (i, _) => (sort_relays (<[i := with_updated now r]> c), true)
  | None => (c, false)
  end.

Definition delete_relay (rid : string) (c : cache) : cache * bool :=
  let c' := filter (fun e => relay_id_of e <> rid) c in
  (c', negb (Nat.eqb (length c') (length c))).

Definition cache_is_empty (c : cache) : bool := match c with [] => true | _ => false end.

Definition replace_relays (l : cache) (c : cache) : cache := sort_relays l.

Definition list_all_relays (my_id : string) (include_self : bool) (c : cache) : list RelayInfo :=
  sort_relays (if include_self then c else filter (fun r => relay_id_of r <> norm_id my_id) c).

(** [Vec::retain] with a predicate that may panic. *)
Fixpoint retain_outcome (p : RelayInfo -> outcome bool) (l : list RelayInfo)
  : outcome (list RelayInfo) :=
  match l with
  | [] => Returns []
  | r :: l =>
      match p r with
      | Panics => Panics
      | Returns b =>
          match retain_outcome p l with
          | Panics => Panics
          | Returns l => Returns (if b then r :: l else l)
          end
      end
  end.

(** [None]: no relay left. *)
Definition cache_find_relay_excluding (my_id : string) (exclude : list SocketAddr) (c : cache)
  : outcome (option RelayInfo) :=
  match retain_outcome (fun r =>
          if String.eqb (relay_id_of r) (norm_id my_id) then Returns false
          else match address r with
               | Panics => Panics
               | Returns a => Returns (negb (is_excluded_corner a exclude))
               end) c with
  | Panics => Panics
  | Returns l => Returns (head (sort_relays l))
  end.

Definition list_root_relays (my_id : string) (include_self : bool) (c : cache) : list RelayInfo :=
  let roots := filter (fun r => is_root r = true) c in
  sort_relays (if include_self then roots
               else filter (fun r => relay_id_of r <> norm_id my_id) roots).

Definition clear_state_cache (c : cache) : cache := set_state None <$> c.

Definition lookup_root_id (i : string) (c : cache) : outcome (option NetworkEndpoint) :=
  match list_find (fun r => relay_id_of r = norm_id i /\ is_root r = true) c with
  | None => Returns None
  | Some (_, r) =>
      match address r with
      | Panics => Panics
      | Returns a => Returns (Some (new_direct a))
      end
  end.

(** ** The negative cache of unreachable relays *)

Definition RELAY_PROBE_FAILURE_COOLDOWN : Z := 60000.

Abbreviation failures := (gmap string Z).

Definition record_failure (now : Z) (rid : string) (f : failures) : failures := <[rid := now]> f.

Definition record_success (rid : string) (f : failures) : failures := delete rid f.

Definition is_cooling_down (cooldown now : Z) (rid : string) (f : failures) : bool * failures :=
  match f !! rid with
  | Some failed =>
      if Z.max 0 (now - failed) <? cooldown then (true, f) else (false, delete rid f)
  | None => (false, f)
  end.

(** ** The keep-alive schedule *)

(** In nanoseconds; a [Duration] is below 2^64 seconds. *)
Definition duration_limit : Z := 2 ^ 64 * 10 ^ 9.

Definition next_wait (interval base : Z) (consecutive_failures : Z) : Z :=
  if consecutive_failures =? 0 then interval
  else
    let shift := Z.min (consecutive_failures - 1) 16 in
    let factor := Z.shiftl 1 shift in
    let product := base * factor in
    Z.min (if product <? duration_limit then product else interval) interval.

(** The failure counter of the keep-alive loop: [saturating_add] on a [u32]. *)
Definition count_failure (sent_ok : bool) (consecutive_failures : Z) : Z :=
  if sent_ok then 0 else Z.min (consecutive_failures + 1) u32_max.

(** The state of the keep-alive thread: failures in a row, and keep-alives sent. *)
Record keep_alive : Type := MkKeepAlive {
  consecutive_failures : Z;
  send_count : Z
}.

Definition RELAY_KEEP_ALIVE_FAILURE_BASE_BACKOFF : Z := 5 * 10 ^ 9.

(** One round of the loop: the wait, then one send, which succeeds or not. *)
Definition keep_alive_round (interval : Z) (sent_ok : bool) (s : keep_alive) : Z * keep_alive :=
  (next_wait interval RELAY_KEEP_ALIVE_FAILURE_BASE_BACKOFF (consecutive_failures s),
   MkKeepAlive (count_failure sent_ok (consecutive_failures s))
     (if sent_ok then wrap 64 (send_count s + 1) else send_count s)).

(** The rounds for the given results of sending: the waits, and the final state. *)
Fixpoint keep_alive_loop (interval : Z) (results : list bool) (s : keep_alive)
  : list Z * keep_alive :=
  match results with
  | [] => ([], s)
  | sent_ok :: results =>
      let '(w, s) := keep_alive_round interval sent_ok s in
      let '(ws, s) := keep_alive_loop interval results s in
      (w :: ws, s)
  end.

(** ** Discovery *)

(** The entries the indexer answered with, an unreachable indexer being [None]. *)
Definition discover (now : Z) (answer : option (list (string * string))) : list RelayInfo :=
  match answer with
  | None => []
  | Some l =>
      omap (fun p => match deserialize_csv p.1 p.2 with
                     | Some r => Some (root_with now r None None)
                     | None => None
                     end) l
  end.

(** ** Lemmas and theorems *)

Definition cache_wf (c : cache) : Prop :=
  StronglySorted (fun a b => relay_leb a b = true) c /\ NoDup (relay_id_of <$> c).

Lemma relay_leb_total a b : relay_leb a b = true \/ relay_leb b a = true.
Proof. apply string_leb_total. Qed.

Lemma relay_leb_trans a b c : relay_leb a b = true -> relay_leb b c = true -> relay_leb a c = true.
Proof. apply string_leb_trans. Qed.

Lemma sort_relays_sorted l : StronglySorted (fun a b => relay_leb a b = true) (sort_relays l).
Proof. apply sort_by_sorted; [apply relay_leb_total|apply relay_leb_trans]. Qed.

Lemma sort_relays_wf l : NoDup (relay_id_of <$> l) -> cache_wf (sort_relays l).
Proof.
  intros H. split; [apply sort_relays_sorted|]. unfold sort_relays. by rewrite sort_by_Permutation.
Qed.

Lemma filter_ids_nodup (P : RelayInfo -> Prop) `{forall r, Decision (P r)} c :
  NoDup (relay_id_of <$> c) -> NoDup (relay_id_of <$> filter P c).
Proof.
  induction c as [|r c IH]; [done|]. cbn [fmap list_fmap]. intros [Hn Hd]%NoDup_cons.
  rewrite filter_cons. case_decide; [|auto]. cbn [fmap list_fmap]. constructor; [|auto].
  intros (r' & E & [_ Hr']%list_elem_of_filter)%list_elem_of_fmap. apply Hn.
  apply list_elem_of_fmap. eauto.
Qed.

Lemma filter_sorted_relays (P : RelayInfo -> Prop) `{forall r, Decision (P r)} c :
  StronglySorted (fun a b => relay_leb a b = true) c ->
  StronglySorted (fun a b => relay_leb a b = true) (filter P c).
Proof.
  induction 1 as [|r c Hs IH Hr]; [constructor|]. rewrite filter_cons. case_decide; [|done].
  constructor; [done|]. apply Forall_forall. intros x [_ Hx]%list_elem_of_filter.
  by eapply Forall_forall in Hr.
Qed.

Lemma list_find_none_id rid c :
  list_find (fun e => relay_id_of e = rid) c = None <-> rid ∉ relay_id_of <$> c.
Proof.
  rewrite list_find_None, Forall_forall. split.
  - intros H (r & -> & Hr)%list_elem_of_fmap. by eapply H.
  - intros H r Hr E. apply H, list_elem_of_fmap. eauto.
Qed.

Lemma existsb_id rid c :
  existsb (fun e => String.eqb (relay_id_of e) rid) c = true <-> rid ∈ relay_id_of <$> c.
Proof.
  rewrite existsb_exists, list_elem_of_fmap. setoid_rewrite String.eqb_eq.
  setoid_rewrite <- list_elem_of_In. naive_solver.
Qed.

Lemma insert_ids (i : nat) r (c : cache) x :
  c !! i = Some x -> relay_id_of r = relay_id_of x -> relay_id_of <$> <[i := r]> c = relay_id_of <$> c.
Proof.
  intros Hi E. rewrite list_fmap_insert. apply list_insert_id.
  rewrite list_lookup_fmap, Hi. simpl. by rewrite E.
Qed.

Lemma add_relay_spec r c :
  cache_wf c ->
  let '(c', b) := add_relay r c in
  cache_wf c' /\ (b = true <-> relay_id_of r ∉ relay_id_of <$> c) /\
  (if b then c' ≡ₚ r :: c else c' = c).
Proof.
  intros [Hs Hn].
  unfold add_relay. destruct (existsb _ c) eqn:E.
  + apply existsb_id in E. split_and!; [done|naive_solver|done].
  + assert (Hf : relay_id_of r ∉ relay_id_of <$> c).
    { intros H%existsb_id. congruence. }
    split_and!; [|done|unfold sort_relays; by rewrite sort_by_Permutation, Permutation_app_comm].
    apply sort_relays_wf. rewrite fmap_app, NoDup_app. split_and!; [done| |apply NoDup_singleton].
    intros i Hi ->%list_elem_of_singleton. done.
Qed.

Lemma update_relay_spec now r c :
  cache_wf c ->
  let '(c', b) := update_relay now r c in
  cache_wf c' /\ (b = true <-> relay_id_of r ∈ relay_id_of <$> c) /\
  forall x, x ∈ c' <-> if b then x = with_updated now r \/ (x ∈ c /\ relay_id_of x <> relay_id_of r)
                       else x ∈ c.
Proof.
  intros [Hs Hn].
  unfold update_relay. destruct (list_find _ c) as [[i x]|] eqn:E.
  + apply list_find_Some in E as (Hi & Hid & Hbefore).
    assert (Hx : relay_id_of (with_updated now r) = relay_id_of x) by done.
    split_and!.
    * apply sort_relays_wf. by rewrite (insert_ids _ _ _ _ Hi Hx).
    * split; [|done]. intros _. rewrite <- Hid. apply list_elem_of_fmap.
      exists x. split; [done|]. by eapply list_elem_of_lookup_2.
    * intros y. unfold sort_relays. rewrite elem_of_sort_by.
      pose proof (lookup_lt_Some _ _ _ Hi) as Hlt. split.
      -- intros (j & Hj)%list_elem_of_lookup_1. destruct (decide (i = j)) as [<-|Hne].
         ++ left. rewrite list_lookup_insert_eq in Hj by done. congruence.
         ++ right. rewrite list_lookup_insert_ne in Hj by done.
            split; [by eapply list_elem_of_lookup_2|]. intros Ey. apply Hne.
            eapply NoDup_lookup; [exact Hn|rewrite list_lookup_fmap, Hi; done|].
            rewrite list_lookup_fmap, Hj. simpl. congruence.
      -- intros [->|[(j & Hj)%list_elem_of_lookup_1 Hne]].
         ++ eapply list_elem_of_lookup_2. by apply list_lookup_insert_eq.
         ++ apply (list_elem_of_lookup_2 _ j). rewrite list_lookup_insert_ne; [done|].
            intros ->. congruence.
  + apply list_find_none_id in E. split_and!; [done|naive_solver|done].
Qed.

Lemma delete_relay_spec rid c :
  cache_wf c ->
  let '(c', b) := delete_relay rid c in
  cache_wf c' /\ (b = true <-> rid ∈ relay_id_of <$> c) /\
  forall x, x ∈ c' <-> x ∈ c /\ relay_id_of x <> rid.
Proof.
  intros [Hs Hn].
  unfold delete_relay. split_and!.
  + split; [by apply filter_sorted_relays|by apply filter_ids_nodup].
  + rewrite negb_true_iff, Nat.eqb_neq, list_elem_of_fmap. split.
    * intros Hlen. destruct (list_find (fun e => relay_id_of e = rid) c) as [[i x]|] eqn:E.
      -- apply list_find_Some in E as (Hi & <- & _). eauto using list_elem_of_lookup_2.
      -- exfalso. apply Hlen. apply list_find_None in E. f_equal.
         clear -E. induction E as [|y l Hy _ IH]; [done|]. rewrite filter_cons, decide_True by done.
         by rewrite IH.
    * intros (x & -> & Hx) Hlen. pose proof (length_filter_lt
        (fun e => relay_id_of e <> relay_id_of x) c x Hx ltac:(tauto)). lia.
  + intros x. rewrite list_elem_of_filter. tauto.
Qed.

(** The relay cache: adding, updating and deleting keep the entries sorted by id
    with one entry per id.  An addition succeeds exactly when the id is new and then
    adds the entry, an update exactly when the id is present and then replaces the
    entry (with a fresh timestamp) and no other, a deletion removes exactly the entry
    of that id and reports whether there was one; otherwise nothing changes. *)
Theorem relay_cache_ops now r rid c :
  cache_wf c ->
  (let '(c', b) := add_relay r c in
   cache_wf c' /\ (b = true <-> relay_id_of r ∉ relay_id_of <$> c) /\
   (if b then c' ≡ₚ r :: c else c' = c)) /\
  (let '(c', b) := update_relay now r c in
   cache_wf c' /\ (b = true <-> relay_id_of r ∈ relay_id_of <$> c) /\
   forall x, x ∈ c' <-> if b then x = with_updated now r \/ (x ∈ c /\ relay_id_of x <> relay_id_of r)
                        else x ∈ c) /\
  (let '(c', b) := delete_relay rid c in
   cache_wf c' /\ (b = true <-> rid ∈ relay_id_of <$> c) /\
   forall x, x ∈ c' <-> x ∈ c /\ relay_id_of x <> rid).
Proof.
  intros Hwf. split_and!; [by apply add_relay_spec|by apply update_relay_spec|
    by apply delete_relay_spec].
Qed.

Lemma retain_outcome_spec p l :
  match retain_outcome p l with
  | Panics => exists r, r ∈ l /\ p r = Panics
  | Returns l' => (forall r, r ∈ l -> exists b, p r = Returns b) /\
      forall r, r ∈ l' <-> r ∈ l /\ p r = Returns true
  end.
Proof.
  induction l as [|r l IH]; simpl.
  { split; [by intros ? ?%elem_of_nil|]. intros r. rewrite elem_of_nil. naive_solver. }
  destruct (p r) as [b|] eqn:Er; [|exists r; split; [by left|done]].
  destruct (retain_outcome p l) as [l'|].
  - destruct IH as [IH1 IH2]. split.
    + intros x [->|Hx]%elem_of_cons; eauto.
    + intros x. destruct b; rewrite ?elem_of_cons, IH2; split.
      * intros [->|[]]; auto.
      * intros [[->|] ?]; auto.
      * intros []; auto.
      * intros [[->|] ?]; [congruence|auto].
  - destruct IH as (x & Hx & ?). exists x. split; [by right|done].
Qed.

(** The relays [find_relay_excluding] chooses from. *)
Definition eligible (my_id : string) (exclude : list SocketAddr) (c : cache) (r : RelayInfo) : Prop :=
  r ∈ c /\ relay_id_of r <> norm_id my_id /\
  exists a, address r = Returns a /\ is_excluded_corner a exclude = false.

(** Finding a relay in the cache never returns this node nor a relay at an
    excluded address: it returns the entry with the least id among the eligible ones,
    and reports none exactly when none is eligible; it panics only if some other
    node's entry has no usable address. *)
Theorem find_relay_excluding_spec my_id exclude c :
  match cache_find_relay_excluding my_id exclude c with
  | Panics => exists r, r ∈ c /\ relay_id_of r <> norm_id my_id /\ address r = Panics
  | Returns (Some r) => eligible my_id exclude c r /\
      forall r', eligible my_id exclude c r' -> String.leb (relay_id_of r) (relay_id_of r') = true
  | Returns None => forall r, ~ eligible my_id exclude c r
  end.
Proof.
  unfold cache_find_relay_excluding.
  set (p := fun r : RelayInfo => if String.eqb _ _ then _ else _).
  assert (Hp : forall r, (p r = Returns true <-> relay_id_of r <> norm_id my_id /\
      exists a, address r = Returns a /\ is_excluded_corner a exclude = false) /\
      (p r = Panics <-> relay_id_of r <> norm_id my_id /\ address r = Panics)).
  { intros r. unfold p. destruct (String.eqb_spec (relay_id_of r) (norm_id my_id)); [naive_solver|].
    destruct (address r) as [a|].
    - split; [|split; [done|by intros []]]. split.
      + intros E. split; [done|]. exists a. split; [done|]. by destruct (is_excluded_corner a exclude).
      + intros (_ & a' & [=<-] & ->). done.
    - split; [|by split]. split; [done|]. by intros (_ & a' & ? & _). }
  pose proof (retain_outcome_spec p c) as H. destruct (retain_outcome p c) as [l|].
  - destruct H as [_ Hl].
    assert (He : forall r, r ∈ sort_relays l <-> eligible my_id exclude c r).
    { intros r. unfold sort_relays. rewrite elem_of_sort_by, Hl. unfold eligible.
      by rewrite (proj1 (Hp r)). }
    pose proof (sort_relays_sorted l) as Hs. destruct (sort_relays l) as [|r l'] eqn:El; simpl.
    + intros r Hr. apply He in Hr. by apply elem_of_nil in Hr.
    + split; [apply He; by left|]. intros r' [->|Hr']%He%elem_of_cons.
      * destruct (relay_leb_total r r); done.
      * apply StronglySorted_inv in Hs as [_ Hs]. by eapply Forall_forall in Hs.
  - destruct H as (r & Hr & Hx). apply Hp in Hx as [? ?]. eauto.
Qed.

Lemma next_wait_spec interval base k :
  0 < base -> 0 < interval -> 0 <= k ->
  next_wait interval base 0 = interval /\
  0 < next_wait interval base k <= interval /\
  (1 <= k <= 17 -> base * 2 ^ (k - 1) < duration_limit ->
     next_wait interval base k = Z.min (base * 2 ^ (k - 1)) interval) /\
  (1 <= k -> next_wait interval base k <= next_wait interval base (k + 1)).
Proof.
  intros Hb Hi Hk.
  assert (Hf : forall j, 1 <= j -> next_wait interval base j =
    Z.min (if base * 2 ^ Z.min (j - 1) 16 <? duration_limit then base * 2 ^ Z.min (j - 1) 16
           else interval) interval).
  { intros j Hj. unfold next_wait. destruct (Z.eqb_spec j 0); [lia|].
    by rewrite Z.shiftl_mul_pow2, Z.mul_1_l by lia. }
  assert (Hpos : forall j, 1 <= j -> 0 < base * 2 ^ Z.min (j - 1) 16).
  { intros j Hj. apply Z.mul_pos_pos; [lia|]. apply Z.pow_pos_nonneg; lia. }
  split_and!; [done|..].
  - destruct (decide (k = 0)) as [->|]; [done|]. rewrite (Hf k) by lia.
    pose proof (Hpos k ltac:(lia)) as Hp. revert Hp. generalize (base * 2 ^ Z.min (k - 1) 16).
    intros z Hz. destruct (z <? duration_limit); lia.
  - destruct (decide (k = 0)) as [->|]; [done|]. rewrite (Hf k) by lia. apply Z.le_min_r.
  - intros Hk1 Hlim. rewrite (Hf k) by lia. rewrite (Z.min_l (k - 1) 16) by lia.
    destruct (Z.ltb_spec (base * 2 ^ (k - 1)) duration_limit); [done|lia].
  - intros Hk1. rewrite (Hf k), (Hf (k + 1)) by lia.
    assert (base * 2 ^ Z.min (k - 1) 16 <= base * 2 ^ Z.min (k + 1 - 1) 16).
    { apply Z.mul_le_mono_nonneg_l; [lia|]. apply Z.pow_le_mono_r; lia. }
    revert H. generalize (base * 2 ^ Z.min (k - 1) 16), (base * 2 ^ Z.min (k + 1 - 1) 16).
    intros z1 z2 Hz. destruct (Z.ltb_spec z1 duration_limit), (Z.ltb_spec z2 duration_limit); lia.
Qed.

Lemma keep_alive_loop_app interval r1 r2 s :
  keep_alive_loop interval (r1 ++ r2) s =
  let '(w1, s1) := keep_alive_loop interval r1 s in
  let '(w2, s2) := keep_alive_loop interval r2 s1 in (w1 ++ w2, s2).
Proof.
  revert s. induction r1 as [|r r1 IH]; intros s; simpl.
  - by destruct (keep_alive_loop interval r2 s).
  - rewrite IH. destruct (keep_alive_loop interval r1 _) as [w1 s1].
    by destruct (keep_alive_loop interval r2 s1).
Qed.

Lemma keep_alive_failing interval k s :
  0 <= consecutive_failures s -> consecutive_failures s + Z.of_nat k <= u32_max ->
  (keep_alive_loop interval (replicate k false) s).2 =
    MkKeepAlive (consecutive_failures s + Z.of_nat k) (send_count s) /\
  (keep_alive_loop interval (replicate k false) s).1 =
    (fun j => next_wait interval RELAY_KEEP_ALIVE_FAILURE_BASE_BACKOFF
                (consecutive_failures s + Z.of_nat j)) <$> seq 0 k.
Proof.
  revert s. induction k as [|k IH]; intros s H0 H1; cbn [replicate keep_alive_loop].
  - rewrite Z.add_0_r. by destruct s.
  - unfold keep_alive_round. unfold count_failure. rewrite Z.min_l by lia.
    specialize (IH (MkKeepAlive (consecutive_failures s + 1) (send_count s))).
    destruct IH as [IH1 IH2]; cbn [consecutive_failures send_count] in *; [lia|lia|].
    destruct (keep_alive_loop interval (replicate k false) _) as [ws s'].
    cbn [fst snd] in *. subst. split; [f_equal; lia|].
    cbn [seq]. rewrite fmap_cons, Z.add_0_r. f_equal. rewrite <- fmap_S_seq, <- list_fmap_compose.
    apply list_fmap_ext. intros j x _. unfold compose. f_equal. lia.
Qed.

(** The keep-alive loop: after a keep-alive that went out, [k] failures in a
    row are retried after 5 s, 10 s, 20 s, ..., doubling up to 5 s * 2^16 and never
    more than the interval, following a wait of the full interval; the next wait is
    within the interval, and the first success puts the loop back on the interval. *)
Theorem keep_alive_schedule interval rs k s :
  0 < interval -> Z.of_nat k <= u32_max ->
  let '(waits, s') := keep_alive_loop interval (rs ++ true :: replicate k false) s in
  consecutive_failures s' = Z.of_nat k /\
  drop (S (length rs)) waits =
    (fun j => if (j =? 0)%nat then interval
              else Z.min (5 * 10 ^ 9 * 2 ^ Z.min (Z.of_nat j - 1) 16) interval) <$> seq 0 k /\
  Forall (fun w => w <= interval) (drop (S (length rs)) waits) /\
  (keep_alive_loop interval [true; true] s').1 !! 1%nat = Some interval.
Proof.
  intros Hi Hk. rewrite keep_alive_loop_app.
  destruct (keep_alive_loop interval rs s) as [w1 s1] eqn:E1. cbn [keep_alive_loop].
  unfold keep_alive_round at 1. cbn [count_failure].
  assert (length w1 = length rs) as Hl.
  { clear -E1. revert s w1 s1 E1. induction rs as [|r rs IH]; simpl; intros s w1 s1.
    - by intros [= <- <-].
    - destruct (keep_alive_loop interval rs _) as [w2 s2] eqn:E2. intros [= <- <-].
      simpl. f_equal. eapply IH, E2. }
  pose proof (keep_alive_failing interval k (MkKeepAlive 0 (wrap 64 (send_count s1 + 1)))) as [H1 H2];
    [done|done|]. cbn [consecutive_failures send_count] in *.
  destruct (keep_alive_loop interval (replicate k false) _) as [w2 s2]. cbn [fst snd] in *. subst.
  assert (forall j, next_wait interval RELAY_KEEP_ALIVE_FAILURE_BASE_BACKOFF (0 + Z.of_nat j) =
    if (j =? 0)%nat then interval else Z.min (5 * 10 ^ 9 * 2 ^ Z.min (Z.of_nat j - 1) 16) interval) as Hw.
  { intros j. unfold next_wait, RELAY_KEEP_ALIVE_FAILURE_BASE_BACKOFF.
    destruct j as [|j]; [done|]. cbn [Nat.eqb].
    destruct (Z.eqb_spec (0 + Z.of_nat (S j)) 0); [lia|].
    rewrite Z.shiftl_mul_pow2, Z.mul_1_l, Z.add_0_l by lia.
    assert (2 ^ Z.min (Z.of_nat (S j) - 1) 16 <= 2 ^ 16) by (apply Z.pow_le_mono_r; lia).
    change (2 ^ 16) with 65536 in H. unfold duration_limit. change (10 ^ 9) with 1000000000.
    change (2 ^ 64) with 18446744073709551616. destruct (Z.ltb_spec
      (5 * 1000000000 * 2 ^ Z.min (Z.of_nat (S j) - 1) 16)
      (18446744073709551616 * 1000000000)); [done|lia]. }
  replace (drop _ _) with ((fun j => next_wait interval RELAY_KEEP_ALIVE_FAILURE_BASE_BACKOFF
    (0 + Z.of_nat j)) <$> seq 0 k).
  2:{ rewrite <- Hl. rewrite cons_middle, app_assoc.
      rewrite drop_app_length'; [done|]. rewrite length_app. simpl. lia. }
  split_and!; [done| |..].
  - apply list_fmap_ext. intros j x _. apply Hw.
  - apply Forall_fmap, Forall_true. intros j. cbn beta. unfold compose. rewrite Hw.
    destruct (j =? 0)%nat; lia.
  - done.
Qed.

Lemma cooling_stable cooldown now now' rid rid' f :
  now <= now' ->
  (is_cooling_down cooldown now' rid' (is_cooling_down cooldown now rid f).2).1 =
  (is_cooling_down cooldown now' rid' f).1.
Proof.
  intros Hn. unfold is_cooling_down. destruct (f !! rid) as [t0|] eqn:E; [|done].
  destruct (Z.ltb_spec (Z.max 0 (now - t0)) cooldown) as [|Hc]; [done|]. simpl.
  rewrite lookup_delete. case_decide as Hd; [|destruct (f !! rid') as [t1|]; [|done];
    by destruct (Z.max 0 (now' - t1) <? cooldown)]. subst rid'. rewrite E.
  destruct (Z.ltb_spec (Z.max 0 (now' - t0)) cooldown); [lia|done].
Qed.

(** Cooldown: after a failed probe at [t], a relay is left out of selection
    exactly until the cooldown has passed, unless a probe succeeds before; asking
    about one relay never changes the answer for another, nor a later answer for
    the same. *)
Theorem cooldown_spec cooldown t now rid f :
  t <= now ->
  (is_cooling_down cooldown now rid (record_failure t rid f)).1 = (now - t <? cooldown) /\
  (is_cooling_down cooldown now rid (record_success rid f)).1 = false /\
  (forall now' rid', now <= now' ->
     (is_cooling_down cooldown now' rid' (is_cooling_down cooldown now rid f).2).1 =
     (is_cooling_down cooldown now' rid' f).1).
Proof.
  intros Ht. split_and!; unfold record_failure, record_success.
  - unfold is_cooling_down. rewrite lookup_insert_eq, Z.max_r by lia. by destruct (now - t <? cooldown).
  - unfold is_cooling_down. by rewrite lookup_delete_eq.
  - intros now' rid'. apply cooling_stable.
Qed.

(** An unreachable indexer yields no relays, and never a panic of the discovery
    itself; but an entry on chain whose endpoint is not an IPv4 address is accepted
    without an address, and every later use of its address panics. *)
Theorem discover_bad_endpoint_panics now i ep p0 :
  split_on comma ep !! 0%nat = Some p0 -> inet_from_str p0 = None ->
  (exists r, deserialize_csv i ep = Some r) ->
  discover now None = [] /\
  exists r, discover now (Some [(i, ep)]) = [r] /\ relay_id_of r = i /\ address r = Panics /\
    forall my_id, norm_id my_id <> i -> cache_find_relay_excluding my_id [] [r] = Panics.
Proof.
  intros H0 Hp0 [r Hr]. split; [done|]. simpl. rewrite Hr.
  exists (root_with now r None None). split; [done|].
  unfold deserialize_csv in Hr.
  destruct (split_on comma ep) as [|q0 [|p1 [|p2 [|p3 [|p4 [|p5 [|]]]]]]]; simplify_eq/=.
  destruct (if String.eqb p1 "T" then Some true else _) as [am|]; [|done].
  assert (match non_empty p0 with None => None | Some s => inet_from_str s end = None) as Ee
    by (unfold non_empty; by destruct p0).
  rewrite Ee in Hr. simplify_eq. split_and!; [done|done|].
  intros my_id Hne. unfold cache_find_relay_excluding. simpl. unfold relay_id_of. simpl.
  destruct (String.eqb_spec i (norm_id my_id)); [congruence|done].
Qed.

(** ** The theorems on concrete relays *)

Definition ex_entry (i h : string) : RelayInfo :=
  MkRelay (MkAdvert i (Some (MkInet h 9000)) (Some true) None None "d" None) true
    (Some Available) None 0.

Lemma relay_cache_ops_witness :
  let '(c', b) := add_relay (ex_entry "B" "10.0.0.2") [ex_entry "A" "10.0.0.1"] in
  cache_wf c' /\ b = true.
Proof.
  pose proof (relay_cache_ops 0 (ex_entry "B" "10.0.0.2") "A" [ex_entry "A" "10.0.0.1"]) as H.
  destruct H as [H _]; [split; [repeat constructor|apply NoDup_singleton]|].
  split; [apply H|done].
Defined.

Lemma keep_alive_schedule_witness :
  let waits := (keep_alive_loop (600 * 10 ^ 9) [true; false; false; false] (MkKeepAlive 0 0)).1 in
  drop 1 waits = [600 * 10 ^ 9; 5 * 10 ^ 9; 10 * 10 ^ 9].
Proof.
  pose proof (keep_alive_schedule (600 * 10 ^ 9) [] 3 (MkKeepAlive 0 0) ltac:(done) ltac:(done)) as H.
  cbn [app length replicate] in H.
  destruct (keep_alive_loop _ [true; false; false; false] _) as [ws s'].
  destruct H as (_ & H & _). exact H.
Defined.

Lemma cooldown_spec_witness :
  (is_cooling_down RELAY_PROBE_FAILURE_COOLDOWN 59999 "R" (record_failure 0 "R" ∅)).1 = true.
Proof.
  exact (proj1 (cooldown_spec RELAY_PROBE_FAILURE_COOLDOWN 0 59999 "R" ∅ ltac:(lia))).
Defined.

Lemma discover_bad_endpoint_panics_witness :
  exists r, discover 0 (Some [("R", "relay.example.org:9000,T,,,d,")]) = [r] /\ address r = Panics.
Proof.
  destruct (discover_bad_endpoint_panics 0 "R" "relay.example.org:9000,T,,,d,"
    "relay.example.org:9000") as (_ & r & H1 & _ & H2 & _);
    [vm_compute; reflexivity|vm_compute; reflexivity|vm_compute; by eexists|].
  by exists r.
Defined.
