(* ===== verification/RelayUpdater.v ===== *)
(** * Selecting a relay

    Models [src/bingle_core/src/relay/relay_updater.rs] and the parts of
    [relay_finder.rs] that use it: refreshing the cache from the chain or from a
    relay's status, ranking the candidates by this node's id, and the selection
    loop that probes them in rank order.

    The probes run on threads of their own: what the loop observes in iteration
    [i] is [env i], the time it reads and the probe result it receives, if one
    arrives before its timeout.  The effect of a finished probe on the negative
    cache is [record_failure]/[record_success] of [RelayCache]; selection reads that
    cache before it probes.  The loop has fuel; [selection_terminates] gives the
    fuel that suffices. *)
From S2P Require Import Prelude NetAddr Advert RelayCache.

Local Open Scope Z_scope.

Definition LONG_TTL_SECS : Z := 30000.
Definition MEDIUM_TTL_SECS : Z := 300.
Definition SHORT_TTL_SECS : Z := 30.
Definition RELAY_SELECTION_BUDGET : Z := 12000.
Definition RELAY_PREFERENCE_GRACE : Z := 1500.

(** The answer to a status probe. *)
Record DdbRelaysStatusResponse : Type := MkStatus {
  relay_ids : list string;
  relay_states : list RelayState;
  relay_endpoints : option (list InetSocketAddress);
  responder_state : RelayState
}.

Definition ttl_for_state (st : RelayState) : Z :=
  match st with
  | Own => LONG_TTL_SECS
  | Available => MEDIUM_TTL_SECS
  | _ => SHORT_TTL_SECS
  end.

(** What the loop observes in one iteration. *)
Record observation : Type := MkObs {
  obs_now : Z;
  obs_recv : option (nat * result DdbRelaysStatusResponse string)
}.

(** The state of the selection loop. *)
Record selection : Type := MkSel {
  started : nat;
  resolved : nat;
  next_start_at : Z;
  failed_relay_ids : list string;
  sel_cache : cache
}.

Section Updater.
Context (my_id : string).
(** The Algorand address decoder and SHA-512/256. *)
Context (address_to_byte_key : string -> option (list Z)) (sha512_256 : string -> list Z).

Definition my_id_norm : string := norm_id my_id.

(** ** Refreshing the cache *)

Definition init_from_blockchain (discovered : list RelayInfo) (c : cache) : cache :=
  let relays := sort_relays discovered in
  if cache_is_empty relays then c
  else replace_relays
    (map (fun r =>
       let is_own := String.eqb (relay_id_of r) my_id_norm in
       set_root true (set_ttl (Some (if is_own then LONG_TTL_SECS else SHORT_TTL_SECS))
         (set_state (Some (if is_own then Own else Unknown)) r))) relays) c.

(** One entry per id, state and endpoint; [None] if an endpoint is unusable. *)
Fixpoint entries_from_status (now : Z) (today : string) (ids : list string) (sts : list RelayState)
  (eps : list InetSocketAddress) : option (list RelayInfo) :=
  match ids, sts, eps with
  | [], _, _ => Some []
  | i :: ids, st :: sts, ep :: eps =>
      match inet_try_into ep with
      | None => None
      | Some _ =>
          let st := if String.eqb i my_id_norm then Own else st in
          match entries_from_status now today ids sts eps with
          | None => None
          | Some l =>
              Some (root_with now (new_unsigned i (Some ep) (Some true) None None today) (Some st)
                      (Some (ttl_for_state st)) :: l)
          end
      end
  | _, _, _ => None
  end.

Definition update_cache_from_status (now : Z) (today : string) (status : DdbRelaysStatusResponse)
  (c : cache) : cache * bool :=
  match relay_endpoints status with
  | None => (c, false)
  | Some endpoints =>
      if negb (Nat.eqb (length (relay_ids status)) (length (relay_states status)))
         || negb (Nat.eqb (length (relay_ids status)) (length endpoints)) then (c, false)
      else
        match entries_from_status now today (relay_ids status) (relay_states status) endpoints with
        | None => (c, false)
        | Some updated => (replace_relays updated c, true)
        end
  end.

Definition update_cached_relay_state (rid : string) (st : RelayState) (c : cache) : cache :=
  let relays := list_all_relays my_id_norm true c in
  match list_find (fun r => relay_id_of r = rid) relays with
  | Some (i, r) =>
      replace_relays (<[i := set_ttl (Some (ttl_for_state st)) (set_state (Some st) r)]> relays) c
  | None => c
  end.

(** ** Ranking *)

Definition id_bucket_u32 (i : string) : Z :=
  match address_to_byte_key i with
  | Some bytes => from_be_bytes (take 4 bytes)
  | None => from_be_bytes (take 4 (sha512_256 i))
  end.

(** For at least one relay. *)
Definition select_indices (n : nat) (i : string) : nat * nat :=
  if Nat.eqb n 1 then (0%nat, 0%nat)
  else
    let bucket := id_bucket_u32 i in
    let span := u32_max + 1 in
    let partition_size := span / Z.of_nat n in
    let index := (Z.to_nat (bucket / partition_size) mod n)%nat in
    (index, ((index + 1) mod n)%nat).

Definition selection_order (n : nat) (i : string) : list nat :=
  if Nat.eqb n 0 then []
  else
    let preferred := (select_indices n i).1 in
    map (fun offset => ((preferred + offset) mod n)%nat) (List.seq 0 n).

(** [dedup_by]: of neighbours with the same id the first stays. *)
Fixpoint dedup_ids (l : list RelayInfo) : list RelayInfo :=
  match l with
  | [] => []
  | r :: l =>
      match dedup_ids l with
      | [] => [r]
      | r' :: l' => if String.eqb (relay_id_of r) (relay_id_of r') then r :: l' else r :: r' :: l'
      end
  end.

Definition candidates (exclude_ids : list string) (c : cache) : list RelayInfo :=
  dedup_ids (sort_relays
    (filter (fun r => state r <> Some Own /\ relay_id_of r <> my_id_norm /\
                      relay_id_of r ∉ exclude_ids) (list_all_relays my_id_norm true c))).

Definition ranked (l : list RelayInfo) : list RelayInfo :=
  omap (fun i => l !! i) (selection_order (length l) my_id_norm).

(** The candidates not cooling down; asking drops expired failures. *)
Fixpoint not_cooling (cooldown now : Z) (l : list RelayInfo) (f : failures)
  : list RelayInfo * failures :=
  match l with
  | [] => ([], f)
  | r :: l =>
      let '(b, f) := is_cooling_down cooldown now (relay_id_of r) f in
      let '(l, f) := not_cooling cooldown now l f in
      (if b then l else r :: l, f)
  end.

(** The relays to probe, in rank order. *)
Definition to_probe (cooldown now : Z) (l : list RelayInfo) (f : failures)
  : list RelayInfo * failures :=
  let '(probed, f) := not_cooling cooldown now l f in
  (match probed with [] => l | _ => probed end, f).

(** ** The selection loop *)

Definition accept_available (now : Z) (today : string) (candidate : RelayInfo)
  (status : DdbRelaysStatusResponse) (c : cache) : cache * option RelayInfo :=
  let '(c, updated) := update_cache_from_status now today status c in
  if negb updated then (update_cached_relay_state (relay_id_of candidate) Off c, None)
  else
    match list_find (fun r => relay_id_of r = relay_id_of candidate)
            (list_all_relays my_id_norm true c) with
    | Some (_, relay) => (c, Some relay)
    | None =>
        (c, Some (set_ttl (Some MEDIUM_TTL_SECS)
              (set_state (Some Available) (set_root true candidate))))
    end.

Section Loop.
Context (grace deadline : Z) (today : string) (probed : list RelayInfo) (env : nat -> observation).

(** Starts the next probe when all started ones have failed, or the last one has
    not answered within the grace. *)
Definition maybe_start (now : Z) (s : selection) : selection :=
  if decide (started s < length probed)%nat then
    if Nat.eqb (resolved s) (started s) || (next_start_at s <=? now) then
      MkSel (S (started s)) (resolved s) (now + grace) (failed_relay_ids s) (sel_cache s)
    else s
  else s.

(** Until when the loop waits for a result. *)
Definition wake (s : selection) : Z :=
  if decide (started s < length probed)%nat then Z.min deadline (next_start_at s) else deadline.

Definition fail_candidate (rid : string) (c : cache) (s : selection) : selection :=
  MkSel (started s) (S (resolved s)) (next_start_at s) (failed_relay_ids s ++ [rid]) c.

(** The result of one received probe: a relay, or the state to go on with. *)
Definition receive (now : Z) (rank : nat) (res : result DdbRelaysStatusResponse string)
  (s : selection) : outcome (selection * option RelayInfo) :=
  match probed !! rank with
  | None => Panics
  | Some candidate =>
      let rid := relay_id_of candidate in
      match res with
      | Ok status =>
          let c := update_cached_relay_state rid (responder_state status) (sel_cache s) in
          if decide (responder_state status = Available) then
            match accept_available now today candidate status c with
            | (c, Some relay) =>
                Returns (MkSel (started s) (S (resolved s)) (next_start_at s) (failed_relay_ids s) c,
                         Some relay)
            | (c, None) => Returns (fail_candidate rid c s, None)
            end
          else Returns (fail_candidate rid c s, None)
      | Err _ => Returns (fail_candidate rid (update_cached_relay_state rid Off (sel_cache s)) s, None)
      end
  end.

(** Iteration [i]; [None] when the fuel runs out. *)
Fixpoint select_loop (fuel i : nat) (s : selection)
  : option (outcome (selection * option RelayInfo)) :=
  match fuel with
  | O => None
  | S fuel =>
      let now := obs_now (env i) in
      let s := maybe_start now s in
      if Nat.eqb (resolved s) (started s) then Some (Returns (s, None))
      else if deadline <=? now then Some (Returns (s, None))
      else
        match obs_recv (env i) with
        | None => select_loop fuel (S i) s
        | Some (rank, res) =>
            match receive now rank res s with
            | Panics => Some Panics
            | Returns (s, Some relay) => Some (Returns (s, Some relay))
            | Returns (s, None) => select_loop fuel (S i) s
            end
        end
  end.
End Loop.

Definition selection_fuel (probed : list RelayInfo) : nat := 3 * length probed + 2.

(** [relay_select_and_query] without the reports: the cache and negative cache
    afterwards, and the selected relay with the ids of the relays that failed. *)
Definition relay_select_and_query (cooldown budget grace start : Z) (today : string)
  (exclude_ids : list string) (env : nat -> observation) (c : cache) (f : failures)
  : option (outcome (cache * failures * option (RelayInfo * list string))) :=
  match candidates exclude_ids c with
  | [] => Some (Returns (c, f, None))
  | cands =>
      let '(probed, f) := to_probe cooldown start (ranked cands) f in
      match select_loop grace (start + budget) today probed env (selection_fuel probed) 0
              (MkSel 0 0 start [] c) with
      | None => None
      | Some Panics => Some Panics
      | Some (Returns (s, Some relay)) =>
          Some (Returns (sel_cache s, f, Some (relay, failed_relay_ids s)))
      | Some (Returns (s, None)) => Some (Returns (sel_cache s, f, None))
      end
  end.

(** The reports sent to the selected relay, one per failed relay: its address, its
    id and the failed id. *)
Definition report_failed_relays (selected : RelayInfo) (failed : list string)
  : outcome (list (SocketAddr * string * string)) :=
  match failed with
  | [] => Returns []
  | _ => match address selected with
         | Panics => Panics
         | Returns a => Returns (map (fun i => (a, relay_id_of selected, i)) failed)
         end
  end.

(** ** Stale entries *)

Definition relay_expired (now : Z) (r : RelayInfo) : bool :=
  last_updated r + default SHORT_TTL_SECS (ttl r) * 1000 <? now.

Inductive refresh : Type := NoRefresh | FromBlockchain | FromRelay.

(** What [update_when_expired] does. *)
Definition update_when_expired (now : Z) (c : cache) : refresh :=
  let all := list_all_relays my_id_norm true c in
  let root_expired := existsb (relay_expired now) (filter (fun r => is_root r = true) all) in
  let non_root_expired := existsb (relay_expired now) (filter (fun r => is_root r = false) all) in
  if negb root_expired && negb non_root_expired then NoRefresh
  else if root_expired then FromBlockchain else FromRelay.

(** [find_relay_excluding_internal]: the ids of the relays at excluded addresses. *)
Definition exclude_ids_for (exclude : list SocketAddr) (c : cache) : outcome (list string) :=
  match exclude with
  | [] => Returns []
  | _ =>
      match retain_outcome (fun r =>
              match address r with
              | Panics => Panics
              | Returns a => Returns (is_excluded_corner a exclude)
              end) (list_all_relays my_id_norm true c) with
      | Panics => Panics
      | Returns l => Returns (relay_id_of <$> l)
      end
  end.
End Updater.

(** ** Ranking: lemmas *)

Section Ranking.
Context (address_to_byte_key : string -> option (list Z)) (sha512_256 : string -> list Z).
(** A key and a digest are 32 bytes. *)
Context (key_bytes : forall i bytes, address_to_byte_key i = Some bytes ->
           bytes_ok bytes /\ length bytes = 32%nat)
        (digest_bytes : forall i, bytes_ok (sha512_256 i) /\ length (sha512_256 i) = 32%nat).

Lemma bucket_range i : 0 <= id_bucket_u32 address_to_byte_key sha512_256 i <= u32_max.
Proof using key_bytes digest_bytes.
  assert (forall l, bytes_ok l /\ length l = 32%nat -> 0 <= from_be_bytes (take 4 l) <= u32_max) as H.
  { intros l [Hb Hl]. pose proof (from_be_bytes_bound (take 4 l)) as B.
    assert (length (take 4 l) = 4%nat) as E by (rewrite length_take; lia). rewrite E in B.
    change (256 ^ Z.of_nat 4) with (u32_max + 1) in B.
    enough (bytes_ok (take 4 l)) by (apply B in H; lia). by apply Forall_take. }
  unfold id_bucket_u32. destruct (address_to_byte_key i) eqn:E; apply H; eauto.
Qed.

Lemma mod_wrap p a n : (p < n)%nat -> (a < n)%nat ->
  ((p + a) mod n = if decide (p + a < n) then p + a else p + a - n)%nat.
Proof.
  intros Hp Ha. case_decide; [by apply Nat.mod_small|].
  replace (p + a)%nat with ((p + a - n) + 1 * n)%nat by lia.
  rewrite Nat.Div0.mod_add, Nat.mod_small by lia. lia.
Qed.

Lemma preferred_lt n i :
  (0 < n)%nat -> ((select_indices address_to_byte_key sha512_256 n i).1 < n)%nat.
Proof.
  intros Hn. unfold select_indices. destruct (Nat.eqb_spec n 1); simpl; [lia|].
  apply Nat.mod_upper_bound. lia.
Qed.

Lemma selection_order_perm n i :
  selection_order address_to_byte_key sha512_256 n i ≡ₚ List.seq 0 n.
Proof.
  unfold selection_order. destruct (Nat.eqb_spec n 0) as [->|Hn]; [done|].
  pose proof (preferred_lt n i ltac:(lia)) as Hp.
  set (p := (select_indices address_to_byte_key sha512_256 n i).1) in *.
  apply NoDup_Permutation.
  - apply NoDup_fmap_2_strong; [|apply NoDup_ListNoDup, seq_NoDup].
    intros x y [_ Hx]%list_elem_of_In%in_seq [_ Hy]%list_elem_of_In%in_seq. simpl in Hx, Hy.
    rewrite !mod_wrap by lia. repeat case_decide; lia.
  - apply NoDup_ListNoDup, seq_NoDup.
  - intros x. rewrite list_elem_of_fmap. setoid_rewrite list_elem_of_In. setoid_rewrite in_seq. split.
    + intros (a & -> & Ha). pose proof (Nat.mod_upper_bound (p + a) n). lia.
    + intros Hx. exists (if decide (p <= x) then x - p else x + n - p)%nat.
      destruct (decide (p <= x)%nat); (split; [|lia]); rewrite mod_wrap by lia; case_decide; lia.
Qed.

Lemma omap_lookup_seq {A} (l : list A) : omap (fun i => l !! i) (List.seq 0 (length l)) = l.
Proof.
  assert (forall k l', l' = drop k l -> omap (fun i => l !! i) (List.seq k (length l')) = l') as H.
  { intros k l'. revert k. induction l' as [|x l' IH]; intros k E; simpl; [done|].
    assert (l !! k = Some x) as ->.
    { rewrite <- (Nat.add_0_r k), <- lookup_drop, <- E. done. }
    f_equal. apply IH. apply (f_equal tail) in E. simpl in E. rewrite E.
    clear. revert k. induction l as [|y l IH]; intros [|k]; simpl; auto. }
  apply (H 0%nat l). done.
Qed.

Lemma ranked_perm my_id l : ranked my_id address_to_byte_key sha512_256 l ≡ₚ l.
Proof. unfold ranked. rewrite selection_order_perm. by rewrite omap_lookup_seq. Qed.

(** Ranking: for a node id and any number of relays below 2^32, the order is a
    permutation of the relays that starts with the preferred one and continues, with
    wrap-around, with the alternate; the preferred index is the partition of the
    32-bit space the id's bucket falls into. *)
Theorem selection_order_spec n i :
  (0 < n)%nat -> Z.of_nat n <= u32_max ->
  let order := selection_order address_to_byte_key sha512_256 n i in
  let '(preferred, alternate) := select_indices address_to_byte_key sha512_256 n i in
  order ≡ₚ List.seq 0 n /\ order !! 0%nat = Some preferred /\
  ((2 <= n)%nat -> order !! 1%nat = Some alternate /\ alternate <> preferred) /\
  (preferred < n)%nat /\ (alternate < n)%nat /\
  let part := (u32_max + 1) / Z.of_nat n in
  let bucket := id_bucket_u32 address_to_byte_key sha512_256 i in
  ((2 <= n)%nat -> bucket < part * Z.of_nat n ->
     part * Z.of_nat preferred <= bucket < part * (Z.of_nat preferred + 1)).
Proof using key_bytes digest_bytes.
  intros Hn Hlim order. pose proof (selection_order_perm n i) as Hperm. fold order in Hperm.
  pose proof (preferred_lt n i Hn) as Hlt.
  destruct (select_indices address_to_byte_key sha512_256 n i) as [p a] eqn:E. simpl in Hlt.
  assert (Ho : order = map (fun off => ((p + off) mod n)%nat) (List.seq 0 n)).
  { unfold order, selection_order. rewrite E. by destruct (Nat.eqb_spec n 0); [lia|]. }
  assert (Ha : (2 <= n)%nat -> a = ((p + 1) mod n)%nat).
  { unfold select_indices in E. destruct (Nat.eqb_spec n 1); simplify_eq; [lia|done]. }
  assert (Ha1 : (a < n)%nat).
  { destruct (decide (2 <= n)%nat) as [H2|]; [rewrite Ha by done; apply Nat.mod_upper_bound; lia|].
    unfold select_indices in E. destruct (Nat.eqb_spec n 1); simplify_eq; lia. }
  split_and!; [done|..|done|done|].
  - rewrite Ho. destruct n as [|n]; [lia|]. cbn [List.seq map].
    rewrite Nat.add_0_r, Nat.mod_small by done. done.
  - intros H2. split.
    + rewrite Ho, Ha by done. destruct n as [|[|n]]; [lia..|]. done.
    + rewrite Ha by done. rewrite mod_wrap by lia. case_decide; lia.
  - intros part bucket H2 Hb.
    assert (Hp : p = Z.to_nat (bucket / part)).
    { unfold select_indices in E. destruct (Nat.eqb_spec n 1); [lia|]. simplify_eq.
      fold part bucket. apply Nat.mod_small. pose proof (bucket_range i) as Hr. fold bucket in Hr.
      assert (0 < part) by (unfold part; apply Z.div_str_pos; unfold u32_max in *; lia).
      assert (bucket / part < Z.of_nat n) by (apply Z.div_lt_upper_bound; lia).
      assert (0 <= bucket / part) by (apply Z.div_pos; lia). lia. }
    pose proof (bucket_range i) as Hr. fold bucket in Hr.
    assert (0 < part) by (unfold part; apply Z.div_str_pos; unfold u32_max in *; lia).
    rewrite Hp, Z2Nat.id by (apply Z.div_pos; lia).
    pose proof (Z.div_mod bucket part ltac:(lia)). pose proof (Z.mod_pos_bound bucket part ltac:(lia)).
    lia.
Qed.
End Ranking.

Lemma selection_order_spec_witness :
  selection_order (fun _ => None) (fun _ => [128; 0; 0; 0] ++ replicate 28 0) 3 "ME"
    ≡ₚ List.seq 0 3 /\
  selection_order (fun _ => None) (fun _ => [128; 0; 0; 0] ++ replicate 28 0) 3 "ME" = [1; 2; 0]%nat.
Proof.
  pose proof (selection_order_spec (fun _ => None) (fun _ => [128; 0; 0; 0] ++ replicate 28 0)
    ltac:(done) ltac:(split; [repeat constructor; done|done]) 3 "ME" ltac:(lia) ltac:(done)) as H.
  destruct (select_indices _ _ _ _) in H. split; [apply H|vm_compute; reflexivity].
Defined.

(** ** Selection: lemmas *)

Lemma elem_of_dedup r l : r ∈ dedup_ids l -> r ∈ l.
Proof.
  revert r. induction l as [|x l IH]; intros r; simpl; [done|].
  destruct (dedup_ids l) as [|y l'] eqn:E; [set_solver|].
  case_match; rewrite ?elem_of_cons; intros Hr; destruct_or?; subst; auto;
    right; apply IH; rewrite elem_of_cons; auto.
Qed.

Lemma elem_of_list_all r my b c : r ∈ list_all_relays my b c -> r ∈ c.
Proof.
  unfold list_all_relays, sort_relays. rewrite elem_of_sort_by. destruct b; [done|].
  by intros [_ ?]%list_elem_of_filter.
Qed.

Lemma candidates_spec my_id exclude c r :
  r ∈ candidates my_id exclude c ->
  r ∈ c /\ state r <> Some Own /\ relay_id_of r <> norm_id my_id /\ relay_id_of r ∉ exclude.
Proof.
  intros H%elem_of_dedup. unfold sort_relays in H.
  apply elem_of_sort_by, list_elem_of_filter in H as [(? & ? & ?) H2%elem_of_list_all].
  by split_and!.
Qed.

Lemma not_cooling_filter cooldown now l f :
  (not_cooling cooldown now l f).1 =
  filter (fun r => (is_cooling_down cooldown now (relay_id_of r) f).1 = false) l.
Proof.
  assert (H : forall f', (forall rid, (is_cooling_down cooldown now rid f').1 =
      (is_cooling_down cooldown now rid f).1) ->
    (not_cooling cooldown now l f').1 =
    filter (fun r => (is_cooling_down cooldown now (relay_id_of r) f).1 = false) l).
  { induction l as [|r l IH]; intros f' Hf; [done|]. simpl. rewrite filter_cons.
    pose proof (Hf (relay_id_of r)) as Hr.
    pose proof (fun rid => cooling_stable cooldown now now (relay_id_of r) rid f' ltac:(lia)) as Hs.
    destruct (is_cooling_down cooldown now (relay_id_of r) f') as [b f2] eqn:E. simpl in *.
    specialize (IH f2 ltac:(intros; rewrite Hs; auto)).
    destruct (not_cooling cooldown now l f2) as [l2 f3]. simpl in *.
    rewrite <- Hr. destruct b; [by rewrite decide_False|by rewrite decide_True, IH]. }
  by apply H.
Qed.

Lemma to_probe_spec cooldown now l f r :
  r ∈ (to_probe cooldown now l f).1 ->
  r ∈ l /\
  ((exists r', r' ∈ l /\ (is_cooling_down cooldown now (relay_id_of r') f).1 = false) ->
   (is_cooling_down cooldown now (relay_id_of r) f).1 = false).
Proof.
  unfold to_probe. pose proof (not_cooling_filter cooldown now l f) as E.
  destruct (not_cooling cooldown now l f) as [p f']. simpl in *.
  destruct p as [|x p].
  - intros Hr. split; [done|]. intros (r' & Hr' & Hc). exfalso.
    apply (elem_of_nil (A := RelayInfo) r'). rewrite E. by apply list_elem_of_filter.
  - intros Hr. rewrite E in Hr. apply list_elem_of_filter in Hr as [? ?]. auto.
Qed.

Lemma accept_available_id my_id now today cand status c c' relay :
  accept_available my_id now today cand status c = (c', Some relay) ->
  relay_id_of relay = relay_id_of cand.
Proof.
  unfold accept_available. destruct (update_cache_from_status _ _ _ _ _) as [c1 []]; simpl; [|done].
  destruct (list_find _ _) as [[k r]|] eqn:E; intros; simplify_eq; [|done].
  by apply list_find_Some in E as (_ & ? & _).
Qed.

(** The status gives [a] as the address of the relay [i]. *)
Definition listed_at (status : DdbRelaysStatusResponse) (i : string) (a : SocketAddr) : Prop :=
  exists k ep eps, relay_endpoints status = Some eps /\ relay_ids status !! k = Some i /\
    eps !! k = Some ep /\ inet_try_into ep = Some a.

(** Where the address of a relay that was accepted comes from: the status of the relay that
    answered or, when that does not list it, the entry that was probed. *)
Definition address_source (status : DdbRelaysStatusResponse) (cand relay : RelayInfo) : Prop :=
  (exists a, listed_at status (relay_id_of cand) a /\ address relay = Returns a) \/
  (relay_id_of cand ∉ relay_ids status /\ address relay = address cand).

Lemma entries_from_status_at my_id now today ids sts eps l r :
  entries_from_status my_id now today ids sts eps = Some l -> r ∈ l ->
  exists k ep a, ids !! k = Some (relay_id_of r) /\ eps !! k = Some ep /\ inet_try_into ep = Some a /\
    address r = Returns a.
Proof.
  revert sts eps l. induction ids as [|i ids IH]; intros [|st sts] [|ep eps] l E Hr; simplify_eq/=;
    try by apply elem_of_nil in Hr.
  destruct (inet_try_into ep) as [a|] eqn:Ea; [|done].
  destruct (entries_from_status my_id now today ids sts eps) as [l'|] eqn:El; [|done]. simplify_eq.
  apply elem_of_cons in Hr as [->|Hr].
  - exists 0%nat, ep, a. unfold address. simpl. by rewrite Ea.
  - destruct (IH _ _ _ El Hr) as (k & ep' & a' & H). by exists (S k), ep', a'.
Qed.

Lemma entries_from_status_ids my_id now today ids sts eps l :
  entries_from_status my_id now today ids sts eps = Some l -> relay_id_of <$> l = ids.
Proof.
  revert sts eps l. induction ids as [|i ids IH]; intros [|st sts] [|ep eps] l E; simplify_eq/=; try done.
  destruct (inet_try_into ep) as [a|]; [|done].
  destruct (entries_from_status my_id now today ids sts eps) as [l'|] eqn:El; [|done]. simplify_eq/=.
  by rewrite (IH _ _ _ El).
Qed.

Lemma accept_available_address my_id now today cand status c c' relay :
  accept_available my_id now today cand status c = (c', Some relay) -> address_source status cand relay.
Proof.
  unfold accept_available, update_cache_from_status.
  destruct (relay_endpoints status) as [eps|] eqn:Ep; [|done].
  destruct (_ || _); [done|].
  destruct (entries_from_status _ _ _ _ _ _) as [l|] eqn:El; [|done]. simpl.
  unfold list_all_relays, replace_relays, sort_relays.
  destruct (list_find _ _) as [[k r]|] eqn:Ef; intros [= _ <-].
  - apply list_find_Some in Ef as (Hk & Hid & _). left.
    assert (r ∈ l) as Hr by (by apply list_elem_of_lookup_2 in Hk; rewrite !elem_of_sort_by in Hk).
    destruct (entries_from_status_at _ _ _ _ _ _ _ _ El Hr) as (k' & ep & a & H1 & H2 & H3 & H4).
    exists a. split; [|done]. exists k', ep, eps. by rewrite <- Hid.
  - right. split; [|done]. rewrite <- (entries_from_status_ids _ _ _ _ _ _ _ El).
    intros (q & Hq1 & Hq2)%list_elem_of_fmap. apply list_find_None in Ef. rewrite Forall_forall in Ef.
    apply (Ef q); [by rewrite !elem_of_sort_by|done].
Qed.

Section SelectionProofs.
Context (my_id : string) (grace deadline : Z) (today : string) (probed : list RelayInfo)
        (env : nat -> observation).

Lemma receive_selected now rank res s s' relay :
  receive my_id today probed now rank res s = Returns (s', Some relay) ->
  exists cand status, probed !! rank = Some cand /\ res = Ok status /\
    responder_state status = Available /\ relay_id_of relay = relay_id_of cand /\
    failed_relay_ids s' = failed_relay_ids s /\ address_source status cand relay.
Proof.
  unfold receive. destruct (probed !! rank) as [cand|]; [|done].
  destruct res as [status|e]; [|done]. case_decide; [|done].
  destruct (accept_available _ _ _ _ _ _) as [c1 [r|]] eqn:Ea; [|done].
  intros. simplify_eq/=. pose proof (accept_available_address _ _ _ _ _ _ _ _ Ea).
  apply accept_available_id in Ea. eauto 10.
Qed.

Lemma receive_failed now rank res s s' :
  receive my_id today probed now rank res s = Returns (s', None) ->
  started s' = started s /\ resolved s' = S (resolved s) /\
  next_start_at s' = next_start_at s /\
  exists cand, probed !! rank = Some cand /\
    failed_relay_ids s' = failed_relay_ids s ++ [relay_id_of cand].
Proof.
  unfold receive. destruct (probed !! rank) as [cand|]; [|done].
  destruct res as [status|e]; [|intros; simplify_eq/=; eauto 10].
  case_decide; [|intros; simplify_eq/=; eauto 10].
  destruct (accept_available _ _ _ _ _ _) as [c1 [r|]]; intros; simplify_eq/=; eauto 10.
Qed.

Lemma maybe_start_failed now s :
  failed_relay_ids (maybe_start grace probed now s) = failed_relay_ids s.
Proof. unfold maybe_start. repeat case_match; done. Qed.

Lemma select_loop_sound fuel i s s' relay :
  select_loop my_id grace deadline today probed env fuel i s = Some (Returns (s', Some relay)) ->
  (exists j rank cand status, obs_recv (env j) = Some (rank, Ok status) /\
     responder_state status = Available /\ probed !! rank = Some cand /\
     relay_id_of relay = relay_id_of cand /\ address_source status cand relay) /\
  (forall x, x ∈ failed_relay_ids s' -> x ∈ failed_relay_ids s \/ x ∈ relay_id_of <$> probed).
Proof.
  revert i s. induction fuel as [|fuel IH]; intros i s; simpl; [done|].
  destruct (Nat.eqb _ _); [done|]. destruct (deadline <=? _); [done|].
  destruct (obs_recv (env i)) as [[rank res]|] eqn:Er.
  - destruct (receive _ _ _ _ _ _ _) as [[s1 [r|]]|] eqn:Ec; [|..|done].
    + intros. simplify_eq. apply receive_selected in Ec as (cand & status & H1 & -> & H3 & H4 & H5 & H6).
      split; [by exists i, rank, cand, status|]. rewrite H5, maybe_start_failed. auto.
    + intros [H1 H2]%IH. split; [done|]. intros x [Hx|]%H2; [|auto].
      apply receive_failed in Ec as (_ & _ & _ & cand & Hc & Hf).
      rewrite Hf, maybe_start_failed in Hx. apply elem_of_app in Hx as [| ->%list_elem_of_singleton]; [auto|].
      right. apply list_elem_of_fmap. eauto using list_elem_of_lookup_2.
  - intros [H1 H2]%IH. split; [done|]. intros x Hx. apply H2 in Hx. by rewrite maybe_start_failed in Hx.
Qed.

(** ** Termination *)

(** The loop is woken in time, and results carry the rank of a started probe:
    after a timeout the next time read is at least the wake-up time. *)
Fixpoint timely (fuel i : nat) (s : selection) : Prop :=
  match fuel with
  | O => True
  | S fuel =>
      let now := obs_now (env i) in
      let s := maybe_start grace probed now s in
      if Nat.eqb (resolved s) (started s) then True
      else if deadline <=? now then True
      else
        match obs_recv (env i) with
        | None => wake deadline probed s <= obs_now (env (S i)) /\ timely fuel (S i) s
        | Some (rank, res) => (rank < started s)%nat /\
            match receive my_id today probed now rank res s with
            | Returns (s, None) => timely fuel (S i) s
            | _ => True
            end
        end
  end.

Definition woken (i : nat) (s : selection) : bool := wake deadline probed s <=? obs_now (env i).

Lemma select_loop_returns fuel i s :
  (resolved s <= started s)%nat -> (started s <= length probed)%nat -> timely fuel i s ->
  (2 * (length probed - started s) + (length probed - resolved s) +
    (if woken i s then 1 else 2) <= fuel)%nat ->
  exists r, select_loop my_id grace deadline today probed env fuel i s = Some (Returns r).
Proof.
  revert i s. induction fuel as [|fuel IH]; intros i s Hrs Hsl Ht Hf; simpl in *.
  { destruct (woken i s); lia. }
  set (now := obs_now (env i)) in *.
  assert (Hst : (maybe_start grace probed now s = s /\
      (woken i s = true -> deadline <= now)) \/
    (started (maybe_start grace probed now s) = S (started s) /\
     resolved (maybe_start grace probed now s) = resolved s /\ (started s < length probed)%nat)).
  { unfold maybe_start, woken, wake. fold now. case_decide as Hlt; [|left; split; [done|]; lia].
    destruct (Nat.eqb (resolved s) (started s)) eqn:E1; simpl; [by right|].
    destruct (Z.leb_spec (next_start_at s) now); [by right|left]. split; [done|]. lia. }
  set (s1 := maybe_start grace probed now s) in *.
  destruct (Nat.eqb_spec (resolved s1) (started s1)) as [|Hne]; [eauto|].
  destruct (Z.leb_spec deadline now) as [|Hd]; [eauto|].
  assert (Hb : (resolved s1 <= started s1)%nat /\ (started s1 <= length probed)%nat /\
    (2 * (length probed - started s1) + (length probed - resolved s1) + 2 <= S fuel)%nat).
  { destruct Hst as [[-> Hw]|(E1 & E2 & E3)].
    - destruct (woken i s); [specialize (Hw eq_refl); lia|]. lia.
    - rewrite E1, E2. destruct (woken i s); lia. }
  destruct Hb as (Hb1 & Hb2 & Hb3).
  destruct (obs_recv (env i)) as [[rank res]|] eqn:Er.
  - destruct Ht as [Hrank Ht].
    destruct (receive my_id today probed now rank res s1) as [[s2 [r|]]|] eqn:Ec.
    + eauto.
    + pose proof Ec as (G1 & G2 & _)%receive_failed. apply IH; [lia|lia|done|].
      rewrite G1, G2. destruct (woken (S i) s2); lia.
    + exfalso. unfold receive in Ec.
      destruct (lookup_lt_is_Some_2 probed rank ltac:(lia)) as [cand Hcand]. rewrite Hcand in Ec.
      destruct res; [|done]. case_decide; [|done]. by destruct (accept_available _ _ _ _ _ _) as [? []].
  - destruct Ht as [Hw Ht]. apply IH; [done..|].
    assert (woken (S i) s1 = true) as -> by (unfold woken; by apply Z.leb_le). lia.
Qed.
End SelectionProofs.

Section SelectionTheorems.
Context (my_id : string) (address_to_byte_key : string -> option (list Z))
        (sha512_256 : string -> list Z).

(** Selection is sound: a selected relay is the one of the rank that answered with the state
    Available, at the address that it gave for itself or at the known one; it is a known relay other than this node, not marked as our own and not
    excluded; it was not in its cooldown unless every candidate was; and the relays
    reported as failed are candidates that were probed. *)
Theorem selection_sound cooldown budget grace start today exclude env c f c' f' relay failed :
  relay_select_and_query my_id address_to_byte_key sha512_256 cooldown budget grace start today
    exclude env c f = Some (Returns (c', f', Some (relay, failed))) ->
  exists cand j rank status,
    obs_recv (env j) = Some (rank, Ok status) /\ responder_state status = Available /\
    (to_probe cooldown start (ranked my_id address_to_byte_key sha512_256 (candidates my_id exclude c)) f).1
      !! rank = Some cand /\
    relay_id_of relay = relay_id_of cand /\ address_source status cand relay /\ cand ∈ c /\
    state cand <> Some Own /\ relay_id_of cand <> norm_id my_id /\ (relay_id_of cand ∉ exclude) /\
    ((exists r, r ∈ candidates my_id exclude c /\
        (is_cooling_down cooldown start (relay_id_of r) f).1 = false) ->
     (is_cooling_down cooldown start (relay_id_of cand) f).1 = false) /\
    (forall x, x ∈ failed -> x ∈ relay_id_of <$> candidates my_id exclude c).
Proof.
  unfold relay_select_and_query. intros E.
  pose proof (candidates_spec my_id exclude c) as Hspec.
  destruct (candidates my_id exclude c) as [|c0 cs] eqn:Ec; [done|]. rewrite <- Ec in *. clear Ec.
  set (cands := candidates my_id exclude c) in *.
  pose proof (to_probe_spec cooldown start (ranked my_id address_to_byte_key sha512_256 cands) f)
    as Hp.
  destruct (to_probe _ _ _ _) as [probed f1]. simpl in Hp |- *.
  destruct (select_loop _ _ _ _ _ _ _ _ _) as [[[s [r|]]|]|] eqn:El; simplify_eq.
  apply select_loop_sound in El as [(j & rank & cand & status & H1 & H2 & H3 & H4 & H6) H5].
  assert (Hcand : cand ∈ probed) by (by eapply list_elem_of_lookup_2).
  apply Hp in Hcand as [Hin Hcool]. rewrite ranked_perm in Hin.
  destruct (Hspec _ Hin) as (? & ? & ? & ?).
  exists cand, j, rank, status. split_and!; try done.
  - intros (r & Hr & Hc). apply Hcool. exists r. by rewrite ranked_perm.
  - intros x Hx. apply H5 in Hx as [Hx|(r & -> & Hr)%list_elem_of_fmap]; [by apply elem_of_nil in Hx|].
    apply Hp in Hr as [Hr _]. rewrite ranked_perm in Hr. apply list_elem_of_fmap. eauto.
Qed.

(** Selection terminates: when the loop is woken in time, it returns within
    [3 * n + 2] iterations for [n] probed relays, without running out of fuel and
    without an index out of range, whatever the probes answer. *)
Theorem selection_terminates cooldown budget grace start today exclude env c f :
  let probed := (to_probe cooldown start
    (ranked my_id address_to_byte_key sha512_256 (candidates my_id exclude c)) f).1 in
  timely my_id grace (start + budget) today probed env (selection_fuel probed) 0
    (MkSel 0 0 start [] c) ->
  exists r, relay_select_and_query my_id address_to_byte_key sha512_256 cooldown budget grace
    start today exclude env c f = Some (Returns r).
Proof.
  intros probed Ht. unfold relay_select_and_query.
  unfold probed in Ht. clear probed.
  destruct (candidates my_id exclude c) as [|c0 cs]; [eauto|].
  destruct (to_probe _ _ _ _) as [pr f1]. simpl in Ht.
  destruct (select_loop_returns my_id grace (start + budget) today pr env (selection_fuel pr) 0
    (MkSel 0 0 start [] c)) as [[s [r|]] ->]; [simpl; lia..|done| |eauto|eauto].
  simpl. unfold selection_fuel. destruct (woken _ _ _ _ _); lia.
Qed.

(** A live preferred relay is the only one contacted: if the first-ranked relay
    answers Available with a usable status before the first timeout, it is selected
    after starting one probe, and nothing is reported as failed. *)
Theorem selection_prefers_first grace deadline today probed env fuel cand status c start :
  probed !! 0%nat = Some cand -> responder_state status = Available ->
  obs_recv (env 0%nat) = Some (0%nat, Ok status) -> obs_now (env 0%nat) < deadline ->
  (forall c, (update_cache_from_status my_id (obs_now (env 0%nat)) today status c).2 = true) ->
  exists s relay,
    select_loop my_id grace deadline today probed env (S fuel) 0 (MkSel 0 0 start [] c) =
      Some (Returns (s, Some relay)) /\ relay_id_of relay = relay_id_of cand /\
    started s = 1%nat /\ failed_relay_ids s = [].
Proof.
  intros H0 Ha Hr Hd Hu. simpl. unfold maybe_start. simpl.
  rewrite decide_True by (by eapply lookup_lt_Some). simpl.
  destruct (Z.leb_spec deadline (obs_now (env 0%nat))); [lia|]. rewrite Hr. unfold receive.
  rewrite H0, Ha, decide_True by done. cbn [sel_cache].
  destruct (accept_available _ _ _ _ _ _) as [c1 o] eqn:E. destruct o as [r|].
  - do 2 eexists. split; [done|]. apply accept_available_id in E. done.
  - exfalso. unfold accept_available in E.
    specialize (Hu (update_cached_relay_state my_id (relay_id_of cand) Available c)).
    destruct (update_cache_from_status _ _ _ _ _) as [c2 b]. simpl in Hu. subst b. simpl in E.
    by destruct (list_find _ _) as [[? ?]|].
Qed.
End SelectionTheorems.

Lemma entries_from_status_spec my_id now today ids sts eps l :
  length ids = length sts -> length ids = length eps ->
  entries_from_status my_id now today ids sts eps = Some l ->
  relay_id_of <$> l = ids /\
  Forall (fun r => is_root r = true /\ (exists a, address r = Returns a) /\
    (relay_id_of r = norm_id my_id -> state r = Some Own)) l.
Proof.
  revert sts eps l. induction ids as [|i ids IH]; intros [|st sts] [|ep eps] l Hs He E;
    simplify_eq/=; [split; [done|constructor]|].
  destruct (inet_try_into ep) as [a|] eqn:Ea; [|done].
  destruct (entries_from_status my_id now today ids sts eps) as [l'|] eqn:El; [|done].
  destruct (IH sts eps l' ltac:(lia) ltac:(lia) El) as [IH1 IH2]. simplify_eq/=. split; [done|].
  constructor; [|done]. split_and!; [done| |].
  - exists a. unfold address. simpl. by rewrite Ea.
  - simpl. intros Hi. change (i = norm_id my_id) in Hi. subst i. unfold my_id_norm.
    by rewrite String.eqb_refl.
Qed.

(** Refreshing from a relay's status is all or nothing: either the status has one
    state and one usable endpoint per id, and the cache becomes exactly those relays,
    sorted, each with a usable address and our own marked as such, or the cache is
    unchanged. *)
Theorem update_from_status_atomic my_id now today status c :
  let '(c', ok) := update_cache_from_status my_id now today status c in
  if ok then
    relay_id_of <$> c' ≡ₚ relay_ids status /\
    StronglySorted (fun a b => relay_leb a b = true) c' /\
    Forall (fun r => is_root r = true /\ (exists a, address r = Returns a) /\
      (relay_id_of r = norm_id my_id -> state r = Some Own)) c' /\
    length (relay_states status) = length (relay_ids status) /\
    exists eps, relay_endpoints status = Some eps /\ length eps = length (relay_ids status)
  else c' = c.
Proof.
  unfold update_cache_from_status. destruct (relay_endpoints status) as [eps|]; [|done].
  destruct (Nat.eqb_spec (length (relay_ids status)) (length (relay_states status))) as [H1|]; [|done].
  destruct (Nat.eqb_spec (length (relay_ids status)) (length eps)) as [H2|]; [|done]. simpl.
  destruct (entries_from_status _ _ _ _ _ _) as [l|] eqn:E; [|done].
  apply entries_from_status_spec in E as [E1 E2]; [|done..].
  unfold replace_relays. split_and!; try done; eauto using sort_relays_sorted.
  - unfold sort_relays. by rewrite sort_by_Permutation, E1.
  - unfold sort_relays. by rewrite sort_by_Permutation.
Qed.

(** An unreachable indexer never empties the cache: a refresh from the chain that
    discovers nothing keeps the cache; otherwise the cache becomes the discovered
    relays, sorted, all roots, with only our own marked as such. *)
Theorem init_from_blockchain_spec my_id discovered c :
  let c' := init_from_blockchain my_id discovered c in
  (discovered = [] -> c' = c) /\
  (discovered <> [] ->
     relay_id_of <$> c' ≡ₚ relay_id_of <$> discovered /\
     StronglySorted (fun a b => relay_leb a b = true) c' /\
     Forall (fun r => is_root r = true /\
       state r = Some (if decide (relay_id_of r = norm_id my_id) then Own else Unknown)) c').
Proof.
  intros c'. split; [by intros ->|]. intros Hne. unfold c', init_from_blockchain.
  assert (cache_is_empty (sort_relays discovered) = false) as ->.
  { destruct (sort_relays discovered) eqn:E; [|done]. exfalso. apply Hne.
    apply Permutation_nil_r. rewrite <- E. symmetry. apply sort_by_Permutation. }
  set (g := fun r : RelayInfo => set_root _ _). unfold replace_relays, sort_relays. split_and!.
  - rewrite !sort_by_Permutation, <- list_fmap_compose. by apply Permutation_map.
  - apply sort_relays_sorted.
  - rewrite sort_by_Permutation. apply Forall_map, Forall_forall. intros r _.
    unfold g, my_id_norm. simpl. split; [done|]. unfold relay_id_of. simpl.
    destruct (String.eqb_spec (id (advert_record r)) (norm_id my_id));
      [by rewrite decide_True|by rewrite decide_False].
Qed.

(** ** The theorems on a concrete selection

    Two relays; the preferred one does not answer, the other is probed after the
    grace and is selected. *)

Definition ex_relays : cache := [ex_entry "A" "10.0.0.1"; ex_entry "B" "10.0.0.2"].
Definition ex_status : DdbRelaysStatusResponse :=
  MkStatus ["A"; "B"] [Off; Available] (Some [MkInet "10.0.0.1" 9000; MkInet "10.0.0.2" 9000])
    Available.
Definition ex_obs (i : nat) : observation :=
  match i with
  | 0%nat => MkObs 0 None
  | 1%nat => MkObs 1500 None
  | 2%nat => MkObs 12000 None
  | _ => MkObs 12000 None
  end.
Definition ex_obs_live (i : nat) : observation :=
  match i with
  | 0%nat => MkObs 0 None
  | _ => MkObs 1500 (Some (1%nat, Ok ex_status))
  end.
Definition ex_hash (s : string) : list Z := replicate 32 0.
Definition ex_select (env : nat -> observation) :=
  relay_select_and_query "ME" (fun _ => None) ex_hash 60000 12000 1500 0 "today" [] env ex_relays ∅.

Lemma selection_sound_witness :
  exists c f relay failed, ex_select ex_obs_live = Some (Returns (c, f, Some (relay, failed))) /\
    relay_id_of relay = "B" /\
    exists cand j rank status, obs_recv (ex_obs_live j) = Some (rank, Ok status) /\
      responder_state status = Available /\ relay_id_of relay = relay_id_of cand /\ cand ∈ ex_relays.
Proof.
  assert (match ex_select ex_obs_live with
          | Some (Returns (_, _, Some (r, _))) => String.eqb (relay_id_of r) "B" | _ => false end = true)
    as H by (vm_compute; reflexivity).
  destruct (ex_select ex_obs_live) as [[[[c f] [[relay failed]|]]|]|] eqn:E; try discriminate H.
  exists c, f, relay, failed. split; [exact eq_refl|]. split; [by apply String.eqb_eq|].
  destruct (selection_sound "ME" (fun _ => None) ex_hash 60000 12000 1500 0 "today" [] ex_obs_live
    ex_relays ∅ c f relay failed E) as (cand & j & rank & status & H1 & H2 & _ & H3 & _ & H4 & _).
  by exists cand, j, rank, status.
Defined.

Lemma selection_terminates_witness : exists r, ex_select ex_obs = Some (Returns r).
Proof.
  apply (selection_terminates "ME" (fun _ => None) ex_hash 60000 12000 1500 0 "today" [] ex_obs
    ex_relays ∅).
  vm_compute. split_and!; done.
Defined.

Lemma selection_prefers_first_witness :
  exists s relay, select_loop "ME" 1500 12000 "today" ex_relays
    (fun _ => MkObs 0 (Some (0%nat, Ok ex_status))) 1 0 (MkSel 0 0 0 [] ex_relays)
    = Some (Returns (s, Some relay)) /\ relay_id_of relay = "A" /\ started s = 1%nat.
Proof.
  destruct (selection_prefers_first "ME" 1500 12000 "today" ex_relays
    (fun _ => MkObs 0 (Some (0%nat, Ok ex_status))) 0 (ex_entry "A" "10.0.0.1") ex_status ex_relays 0)
    as (s & relay & H1 & H2 & H3 & _); [done..| |].
  - intros c. vm_compute. reflexivity.
  - exists s, relay. by split_and!.
Defined.
