(* ===== verification/StunWire.v ===== *)
(** * STUN packets

    Models the packet codec of
    [src/bingle_core/src/stun/stun_endpoint_finder_impl.rs] (the binding request and
    the parser of mapped addresses) and the answer the test server of
    [simple_stun_server.rs] builds. *)
From S2P Require Import Prelude NetAddr.

Local Open Scope Z_scope.

Definition magic_cookie : list Z := [33; 18; 164; 66].

(** One round of the generator: [seed * k + 1] on 64 bits. *)
Definition next_seed (seed : Z) : Z := wrap 64 (wrap 64 (seed * 6364136223846793005) + 1).

Definition build_binding_request (tick : Z) : list Z :=
  let s1 := next_seed tick in
  let s2 := next_seed s1 in
  let s3 := next_seed s2 in
  [0; 1; 0; 0] ++ magic_cookie ++ take 4 (to_be_bytes 8 s1) ++ take 4 (to_be_bytes 8 s2)
    ++ take 4 (to_be_bytes 8 s3).

Definition XOR_MAPPED_ADDRESS : Z := 32.
Definition MAPPED_ADDRESS : Z := 1.

(** The attribute loop: [rest] is the packet from index [idx] on; the fuel bounds
    the number of attributes. *)
Fixpoint parse_attrs (fuel idx stop : nat) (rest : list Z) : option SocketAddr :=
  match fuel with
  | O => None
  | S fuel =>
      match rest with
      | t0 :: t1 :: l0 :: l1 :: body =>
          if decide (idx + 4 <= stop)%nat then
            let atype := from_be_bytes [t0; t1] in
            let alen := Z.to_nat (from_be_bytes [l0; l1]) in
            let next := parse_attrs fuel (idx + 4 + alen + (4 - alen mod 4) mod 4) stop
                          (drop (alen + (4 - alen mod 4) mod 4) body) in
            if decide (length body < alen)%nat then None
            else if (atype =? XOR_MAPPED_ADDRESS) || (atype =? MAPPED_ADDRESS) then
              if decide (alen < 8)%nat then None
              else
                match body with
                | _ :: family :: p0 :: p1 :: a0 :: a1 :: a2 :: a3 :: _ =>
                    if family =? 1 then
                      let xport := from_be_bytes [p0; p1] in
                      if atype =? XOR_MAPPED_ADDRESS then
                        Some (SockAddr (V4 (Z.lxor a0 33) (Z.lxor a1 18) (Z.lxor a2 164)
                                (Z.lxor a3 66)) (Z.lxor xport 8466))
                      else Some (SockAddr (V4 a0 a1 a2 a3) xport)
                    else next
                | _ => None
                end
            else next
          else None
      | _ => None
      end
  end.

Definition parse_xor_mapped_address (data : list Z) : option SocketAddr :=
  if decide (length data < 20)%nat then None
  else if decide (slice data 4 4 <> magic_cookie) then None
  else
    let msg_len := Z.to_nat (from_be_bytes (slice data 2 2)) in
    parse_attrs (length data) 20 (20 + msg_len) (drop 20 data).

(** ** The test server's answer *)

(** The requester's address perturbed, in the mode that simulates a broken NAT;
    [ip_text_sum] is the 32-bit sum of the characters of the printed address. *)
Definition broken_nat_mapping (ip_text_sum : Z) (ip_bytes : Z * Z * Z * Z) (from_port : Z)
  : Z * (Z * Z * Z * Z) :=
  let seed := Z.lxor from_port (wrap 32 (Z.shiftl ip_text_sum 1)) in
  let '(a, b, c, d) := ip_bytes in
  (1024 + Z.lxor from_port seed mod 50000, (a, b, c, 1 + Z.lxor d seed mod 253)).

Definition xor_mapped_attribute (ip_bytes : Z * Z * Z * Z) (port : Z) : list Z :=
  let '(a, b, c, d) := ip_bytes in
  [0; 32; 0; 8; 0; 1] ++ to_be_bytes 2 (Z.lxor port 8466)
    ++ [Z.lxor a 33; Z.lxor b 18; Z.lxor c 164; Z.lxor d 66].

(** The answer to a binding request, [None] for any other packet. *)
Definition server_response (ip_bytes : Z * Z * Z * Z) (port : Z) (data : list Z)
  : option (list Z) :=
  if decide (length data < 20)%nat then None
  else if decide (take 2 data = [0; 1] /\ slice data 4 4 = magic_cookie) then
    let attribute := xor_mapped_attribute ip_bytes port in
    Some ([1; 1] ++ to_be_bytes 2 (Z.of_nat (length attribute)) ++ magic_cookie
            ++ slice data 8 12 ++ attribute)
  else None.

(** The address the server reports to [from], and the table of the mappings it made
    up: its own view of the source, overridden by [attach_to], perturbed in the mode
    that simulates a broken NAT.  [ip_text] prints an address. *)
Definition reported_address (ip_text : IpAddr -> string) (attach_to : option SocketAddr)
  (broken_nat : bool) (table : gmap SocketAddr (Z * (Z * Z * Z * Z))) (from : SocketAddr)
  : (Z * (Z * Z * Z * Z)) * gmap SocketAddr (Z * (Z * Z * Z * Z)) :=
  let octets i := match i with V4 a b c d => (a, b, c, d) | V6 _ => (127, 0, 0, 1) end in
  let ip_bytes := match attach_to with
                  | Some att => match ip att with V4 a b c d => (a, b, c, d) | V6 _ => octets (ip from) end
                  | None => octets (ip from)
                  end in
  if broken_nat then
    let sum := foldl (fun acc b => wrap 32 (acc + Z.of_N (Ascii.N_of_ascii b))) 0
                 (String.list_ascii_of_string (ip_text (ip from))) in
    let m := broken_nat_mapping sum ip_bytes (port from) in
    (m, match table !! from with Some _ => table | None => <[from := m]> table end)
  else
    (match table !! from with Some m => m | None => (port from, ip_bytes) end, table).

(** The server's loop on one packet. *)
Definition serve (ip_text : IpAddr -> string) (attach_to : option SocketAddr)
  (broken_nat : bool) (from : SocketAddr) (data : list Z)
  (table : gmap SocketAddr (Z * (Z * Z * Z * Z)))
  : option (list Z) * gmap SocketAddr (Z * (Z * Z * Z * Z)) :=
  match server_response (0, 0, 0, 0) 0 data with
  | None => (None, table)
  | Some _ =>
      let '((p, i), table) := reported_address ip_text attach_to broken_nat table from in
      (server_response i p data, table)
  end.

(** ** Lemmas *)

Lemma lxor_width w a b : 0 <= w -> in_width w a -> in_width w b -> in_width w (Z.lxor a b).
Proof.
  unfold in_width. intros Hw Ha Hb.
  assert (0 <= Z.lxor a b) as H0 by (apply Z.lxor_nonneg; lia).
  split; [done|]. destruct (decide (Z.lxor a b = 0)) as [->|Hne]; [lia|].
  apply Z.log2_lt_pow2; [lia|].
  assert (forall x, 0 <= x < 2 ^ w -> x <> 0 -> Z.log2 x < w) as L.
  { intros x Hx Hx0. apply Z.log2_lt_pow2; lia. }
  eapply Z.le_lt_trans; [apply Z.log2_lxor; lia|].
  destruct (decide (a = 0)) as [->|], (decide (b = 0)) as [->|].
  - by rewrite Z.lxor_0_l in Hne.
  - rewrite Z.max_r; [by apply L|]. apply Z.log2_nonneg.
  - rewrite Z.max_l; [by apply L|]. apply Z.log2_nonneg.
  - apply Z.max_lub_lt; by apply L.
Qed.

Lemma lxor_twice a k : Z.lxor (Z.lxor a k) k = a.
Proof. by rewrite Z.lxor_assoc, Z.lxor_nilpotent, Z.lxor_0_r. Qed.

Lemma length_build_binding_request tick : length (build_binding_request tick) = 20%nat.
Proof. done. Qed.

Lemma parse_response tid a b c d p :
  length tid = 12%nat -> in_width 16 p ->
  parse_xor_mapped_address ([1; 1; 0; 12] ++ magic_cookie ++ tid ++ xor_mapped_attribute (a, b, c, d) p)
  = Some (SockAddr (V4 a b c d) p).
Proof.
  intros Ht Hp.
  assert (Hx : in_width 16 (Z.lxor p 8466)) by (apply lxor_width; [lia|done|done]).
  assert (E : from_be_bytes (to_be_bytes 2 (Z.lxor p 8466)) = Z.lxor p 8466).
  { apply from_to_be_bytes_small. unfold in_width in Hx. change (256 ^ Z.of_nat 2) with 65536. lia. }
  unfold parse_xor_mapped_address, xor_mapped_attribute, magic_cookie. cbn [to_be_bytes app] in E |- *.
  revert E. generalize ((Z.lxor p 8466 / 256 ^ Z.of_nat 1) mod 256) as x0.
  generalize ((Z.lxor p 8466 / 256 ^ Z.of_nat 0) mod 256) as x1. intros x1 x0 E.
  rewrite decide_False by (simpl; rewrite length_app, Ht; simpl; lia).
  change (slice _ 4 4) with [33; 18; 164; 66]. rewrite decide_False by tauto.
  change (slice _ 2 2) with [0; 12]. change (Z.to_nat (from_be_bytes [0; 12])) with 12%nat.
  change (drop 20 _) with (drop 12 (tid ++ 0 :: 32 :: 0 :: 8 :: 0 :: 1 :: x0 :: x1 ::
    [Z.lxor a 33; Z.lxor b 18; Z.lxor c 164; Z.lxor d 66])).
  rewrite drop_app_length' by done. cbn [length parse_attrs].
  rewrite decide_True by lia. change (from_be_bytes [0; 32]) with 32.
  change (Z.to_nat (from_be_bytes [0; 8])) with 8%nat.
  cbn -[from_be_bytes Z.lxor]. by rewrite E, !lxor_twice.
Qed.

Lemma server_response_eq ip p tick :
  server_response ip p (build_binding_request tick) =
  Some ([1; 1; 0; 12] ++ magic_cookie ++ slice (build_binding_request tick) 8 12
          ++ xor_mapped_attribute ip p).
Proof. by destruct ip as [[[? ?] ?] ?]. Qed.

Lemma response_parses tick a b c d p resp :
  in_width 16 p ->
  server_response (a, b, c, d) p (build_binding_request tick) = Some resp ->
  parse_xor_mapped_address resp = Some (SockAddr (V4 a b c d) p).
Proof.
  rewrite server_response_eq. intros Hp H. apply (inj Some) in H. rewrite <- H.
  by apply parse_response.
Qed.

(** STUN round trip: the test server answers every binding request, and the
    answer parses to exactly the IPv4 address and port the server reports; the
    request is 20 bytes, all of them bytes, for every tick. *)
Theorem stun_roundtrip tick a b c d p :
  in_width 8 a -> in_width 8 b -> in_width 8 c -> in_width 8 d -> in_width 16 p ->
  let req := build_binding_request tick in
  length req = 20%nat /\ bytes_ok req /\
  exists resp, server_response (a, b, c, d) p req = Some resp /\
    slice resp 8 12 = slice req 8 12 /\ bytes_ok resp /\
    parse_xor_mapped_address resp = Some (SockAddr (V4 a b c d) p).
Proof.
  intros Ha Hb Hc Hd Hp req.
  assert (Hreq : bytes_ok req).
  { unfold req, build_binding_request, magic_cookie.
    repeat (apply Forall_app; split); try (by repeat constructor);
      apply Forall_take, to_be_bytes_ok. }
  split_and!; [done|done|].
  assert (Hlen : length (slice req 8 12) = 12%nat) by done.
  assert (Hsl : bytes_ok (slice req 8 12)) by (by apply Forall_take, Forall_drop).
  assert (Hresp : server_response (a, b, c, d) p req =
    Some ([1; 1; 0; 12] ++ magic_cookie ++ slice req 8 12 ++ xor_mapped_attribute (a, b, c, d) p))
    by (exact (server_response_eq (a, b, c, d) p tick)).
  eexists. split; [exact Hresp|]. clear Hresp. revert Hlen Hsl. generalize (slice req 8 12) as tid.
  clear req Hreq. intros tid Hlen Hsl. split_and!.
  - unfold slice. change (drop 8 _) with (tid ++ xor_mapped_attribute (a, b, c, d) p).
    rewrite <- Hlen. by rewrite take_app_length.
  - unfold xor_mapped_attribute. repeat (apply Forall_app; split);
      first [done | apply to_be_bytes_ok | by repeat constructor | idtac].
    repeat (apply Forall_cons_2; [by apply lxor_width|]). constructor.
  - by apply parse_response.
Qed.

Lemma stun_roundtrip_witness :
  exists resp, server_response (10, 0, 0, 1) 4000 (build_binding_request 7) = Some resp /\
    parse_xor_mapped_address resp = Some (SockAddr (V4 10 0 0 1) 4000).
Proof.
  destruct (stun_roundtrip 7 10 0 0 1 4000) as (_ & _ & resp & H1 & _ & _ & H2); [done..|].
  by exists resp.
Defined.
