(* ===== verification/Stun.v ===== *)
(** * The STUN endpoint finder

    Models the state machine of
    [src/bingle_core/src/stun/stun_endpoint_finder_impl.rs]: polling the servers on
    ticks of 100 ms, classifying what they answered, noticing silence and blocked
    UDP, and dropping dead servers.  The handlers the finder calls are recorded as
    [output]s; [state_change] and the others say whether a handler is installed.
    The thread that ticks and the lock are not modelled: an operation is one
    critical section. *)
From S2P Require Import Prelude NetAddr StunWire.

Local Open Scope Z_scope.

Inductive StunState : Type := SNone | Single | Inconsistent | Consistent | Blocked.

#[export] Instance StunState_eq_dec : EqDecision StunState.
Proof. solve_decision. Defined.

Definition TICK_MS : Z := 100.

Record ServerStatus : Type := MkServer {
  srv_addr : SocketAddr;
  srv_failures : Z;
  responded : bool;
  ever_responded : bool;
  srv_endpoint : option SocketAddr;
  last_polled_tick : option Z
}.

Definition server_new (a : SocketAddr) : ServerStatus := MkServer a 0 false false None None.

(** What [reset_state] and the silence timeout do to a server. *)
Definition forget_round (s : ServerStatus) : ServerStatus :=
  MkServer (srv_addr s) 0 false (ever_responded s) None (last_polled_tick s).

Record Inner : Type := MkInner {
  servers : list ServerStatus;
  st : StunState;
  endpoint : option SocketAddr;
  search_ticks : Z;
  repeat_ticks : Z;
  state_change : bool;
  error_handler : bool;
  send_packet : bool;
  intervals_without_two : Z;
  error_reported : bool;
  last_response_tick : option Z;
  last_request_tick : option Z;
  no_response_ticks : Z;
  current_tick : Z;
  last_poll_tick : option Z
}.

Inductive output : Type :=
| Notify (s : StunState) (ep : option SocketAddr)
| ReportError
| SendTo (addr : SocketAddr) (packet : list Z).

Definition set_servers (l : list ServerStatus) (i : Inner) : Inner :=
  MkInner l (st i) (endpoint i) (search_ticks i) (repeat_ticks i) (state_change i) (error_handler i)
    (send_packet i) (intervals_without_two i) (error_reported i) (last_response_tick i)
    (last_request_tick i) (no_response_ticks i) (current_tick i) (last_poll_tick i).

Definition set_st (s : StunState) (ep : option SocketAddr) (i : Inner) : Inner :=
  MkInner (servers i) s ep (search_ticks i) (repeat_ticks i) (state_change i) (error_handler i)
    (send_packet i) (intervals_without_two i) (error_reported i) (last_response_tick i)
    (last_request_tick i) (no_response_ticks i) (current_tick i) (last_poll_tick i).

Definition set_intervals (n : Z) (reported : bool) (i : Inner) : Inner :=
  MkInner (servers i) (st i) (endpoint i) (search_ticks i) (repeat_ticks i) (state_change i)
    (error_handler i) (send_packet i) n reported (last_response_tick i)
    (last_request_tick i) (no_response_ticks i) (current_tick i) (last_poll_tick i).

Definition set_anchors (resp req : option Z) (i : Inner) : Inner :=
  MkInner (servers i) (st i) (endpoint i) (search_ticks i) (repeat_ticks i) (state_change i)
    (error_handler i) (send_packet i) (intervals_without_two i) (error_reported i) resp req
    (no_response_ticks i) (current_tick i) (last_poll_tick i).

Definition set_clock (tick : Z) (poll : option Z) (i : Inner) : Inner :=
  MkInner (servers i) (st i) (endpoint i) (search_ticks i) (repeat_ticks i) (state_change i)
    (error_handler i) (send_packet i) (intervals_without_two i) (error_reported i)
    (last_response_tick i) (last_request_tick i) (no_response_ticks i) tick poll.

(** ** Classifying what the servers answered *)

Definition classify (endpoints : list SocketAddr) : StunState * option SocketAddr :=
  match endpoints with
  | [] => (SNone, None)
  | [_] => (Single, None)
  | first :: _ =>
      if forallb (fun e => bool_decide (e = first)) endpoints then (Consistent, Some first)
      else (Inconsistent, None)
  end.

Definition recompute_state_and_notify (i : Inner) : Inner * list output :=
  let '(new_state, new_endpoint) := classify (omap srv_endpoint (servers i)) in
  let endpoint_changed :=
    bool_decide (new_state = Consistent) && bool_decide (new_endpoint <> endpoint i) in
  if bool_decide (new_state <> st i) || endpoint_changed then
    (set_st new_state new_endpoint i,
     if state_change i then [Notify new_state new_endpoint] else [])
  else (set_st (st i) new_endpoint i, []).

(** ** The tick *)

Definition is_settled (s : StunState) : bool :=
  match s with Consistent | Inconsistent => true | _ => false end.

Definition choose_interval (i : Inner) : Z :=
  if is_settled (st i) then repeat_ticks i else search_ticks i.

Definition silence_too_long (now : Z) (i : Inner) : bool :=
  match last_request_tick i, last_response_tick i with
  | Some req_t, Some resp_t =>
      (no_response_ticks i <? Z.max 0 (now - req_t)) && (resp_t <? req_t)
  | Some req_t, None => no_response_ticks i <? Z.max 0 (now - req_t)
  | None, _ => false
  end.

(** Step 1: revert after a silence. *)
Definition check_silence (now : Z) (i : Inner) : Inner * list output :=
  if is_settled (st i) && silence_too_long now i then
    recompute_state_and_notify
      (set_servers (forget_round <$> servers i)
         (set_intervals 0 (error_reported i) (set_anchors None None i)))
  else (i, []).

Definition to_poll (i : Inner) : list SocketAddr :=
  match st i with
  | SNone | Single => srv_addr <$> filter (fun s => responded s = false) (servers i)
  | _ => srv_addr <$> servers i
  end.

Definition mark_polled (now : Z) (s : ServerStatus) : ServerStatus :=
  MkServer (srv_addr s) (Z.min (srv_failures s + 1) u8_max) false (ever_responded s) None (Some now).

(** [servers.iter_mut().find(|x| x.addr == addr)]: the first server with the address. *)
Fixpoint update_server (f : ServerStatus -> ServerStatus) (addr : SocketAddr)
  (l : list ServerStatus) : list ServerStatus :=
  match l with
  | [] => []
  | s :: l => if bool_decide (srv_addr s = addr) then f s :: l else s :: update_server f addr l
  end.

Definition poll_one (now : Z) (acc : Inner * list output) (addr : SocketAddr)
  : Inner * list output :=
  let '(i, out) := acc in
  let i := set_servers (update_server (mark_polled now) addr (servers i)) i in
  let i := if is_settled (st i) && bool_decide (last_request_tick i = None)
           then set_anchors (last_response_tick i) (Some now) i else i in
  (i, out ++ (if send_packet i then [SendTo addr (build_binding_request now)] else [])).

(** Step 3: blocked UDP, after three intervals without two answers. *)
Definition check_blocked (i : Inner) : Inner * list output :=
  if is_settled (st i) then (i, [])
  else
    let n := Z.min (intervals_without_two i + 1) u8_max in
    let i := set_intervals n (error_reported i) i in
    if n <? 3 then (i, [])
    else
      let responders := length (filter (fun s => responded s = true) (servers i)) in
      let '(i, out) :=
        if Nat.eqb responders 0 then
          if bool_decide (st i <> Blocked) then
            (set_st Blocked None i, if state_change i then [Notify Blocked None] else [])
          else (i, [])
        else if (responders <? 2)%nat && negb (error_reported i) then
          (set_intervals n true i, if error_handler i then [ReportError] else [])
        else (i, []) in
      if bool_decide (st i <> Blocked) then
        (set_intervals 0 (error_reported i)
           (set_servers ((fun s => if ever_responded s then
              MkServer (srv_addr s) (srv_failures s) false true (srv_endpoint s) (last_polled_tick s)
              else s) <$> servers i) i), out)
      else (i, out).

Definition reset_failures (s : ServerStatus) : ServerStatus :=
  MkServer (srv_addr s) 0 (responded s) (ever_responded s) (srv_endpoint s) (last_polled_tick s).

Definition keep_server (s : ServerStatus) : Prop :=
  srv_failures s < 3 \/ ever_responded s = true.

(** Step 4: drop the servers that never answered. *)
Definition prune (i : Inner) : Inner :=
  if bool_decide (st i = Blocked) then set_servers (reset_failures <$> servers i) i
  else set_servers (filter keep_server (servers i)) i.

Definition poll_due (now : Z) (i : Inner) : bool :=
  match last_poll_tick i with
  | None => true
  | Some last => choose_interval i <=? Z.max 0 (now - last)
  end.

Definition stun_process_tick (i : Inner) : Inner * list output :=
  let now := current_tick i + 1 in
  let i := set_clock now (last_poll_tick i) i in
  let '(i, out1) := check_silence now i in
  if poll_due now i then
    let i := set_clock now (Some now) i in
    let '(i, out2) :=
      match to_poll i with
      | [] => (i, [])
      | addrs =>
          let '(i, sent) := foldl (poll_one now) (i, []) addrs in
          let '(i, out) := check_blocked i in
          (i, sent ++ out)
      end in
    (prune i, out1 ++ out2)
  else (i, out1).

(** ** The other operations *)

Definition inner_new : Inner :=
  MkInner [] SNone None (1000 / TICK_MS) (10000 / TICK_MS) false false false 0 false None None
    (30000 / TICK_MS) 0 None.

(** [init]; [override] is the no-response timeout set for tests. *)
Definition init (addrs : list SocketAddr) (search_time_ms repeat_time_ms : Z)
  (override : option Z) (i : Inner) : Inner :=
  MkInner (server_new <$> addrs) SNone None (Z.max (search_time_ms / TICK_MS) 1)
    (Z.max (repeat_time_ms / TICK_MS) 1) (state_change i) (error_handler i) (send_packet i) 0 false
    None None (match override with Some t => Z.max (t / TICK_MS) 1 | None => 30000 / TICK_MS end)
    0 None.

Definition record_answer (ep : option SocketAddr) (s : ServerStatus) : ServerStatus :=
  MkServer (srv_addr s) 0 true true (match ep with Some e => Some e | None => srv_endpoint s end)
    (last_polled_tick s).

Definition process_packet (from : SocketAddr) (data : list Z) (i : Inner) : Inner * list output :=
  let ep := parse_xor_mapped_address data in
  let i := set_servers (update_server (record_answer ep) from (servers i)) i in
  recompute_state_and_notify (set_anchors (Some (current_tick i)) None i).

Definition reset_state (i : Inner) : Inner :=
  let i := set_st SNone None i in
  let i := set_intervals 0 false i in
  let i := set_anchors None None i in
  let i := set_clock 0 (last_poll_tick i) i in
  set_servers (forget_round <$> servers i) i.

Definition set_handlers (sc eh sp : bool) (i : Inner) : Inner :=
  MkInner (servers i) (st i) (endpoint i) (search_ticks i) (repeat_ticks i) sc eh sp
    (intervals_without_two i) (error_reported i) (last_response_tick i) (last_request_tick i)
    (no_response_ticks i) (current_tick i) (last_poll_tick i).

(** ** Sequences of operations *)

Inductive event : Type :=
| Tick
| Packet (from : SocketAddr) (data : list Z)
| Reset.

Definition run_event (e : event) (i : Inner) : Inner * list output :=
  match e with
  | Tick => stun_process_tick i
  | Packet from data => process_packet from data i
  | Reset => (reset_state i, [])
  end.

Fixpoint run (es : list event) (i : Inner) : Inner * list output :=
  match es with
  | [] => (i, [])
  | e :: es =>
      let '(i, out) := run_event e i in
      let '(i, out') := run es i in
      (i, out ++ out')
  end.

(** What a client of the finder can see. *)
Definition visible (i : Inner) : StunState * option SocketAddr := (st i, endpoint i).

(** [heard v out v']: a client that believes [v] believes [v'] after the
    notifications of [out], each of which told it something new. *)
Inductive heard : StunState * option SocketAddr -> list output ->
  StunState * option SocketAddr -> Prop :=
| heard_nil v : heard v [] v
| heard_notify v s ep out v' :
    (s, ep) <> v -> heard (s, ep) out v' -> heard v (Notify s ep :: out) v'
| heard_error v out v' : heard v out v' -> heard v (ReportError :: out) v'
| heard_send v a p out v' : heard v out v' -> heard v (SendTo a p :: out) v'.

(** An endpoint is known exactly in the consistent state. *)
Definition endpoint_ok (i : Inner) : Prop :=
  match st i with Consistent => is_Some (endpoint i) | _ => endpoint i = None end.

(** ** Lemmas *)

Lemma heard_app v1 v2 v3 o1 o2 : heard v1 o1 v2 -> heard v2 o2 v3 -> heard v1 (o1 ++ o2) v3.
Proof. induction 1; simpl; intros; [done|..]; constructor; auto. Qed.

Lemma classify_cases eps :
  classify eps = (SNone, None) /\ eps = [] \/
  classify eps = (Single, None) /\ length eps = 1%nat \/
  classify eps = (Inconsistent, None) /\ (2 <= length eps)%nat /\ ~ (exists ep, Forall (.= ep) eps) \/
  exists ep, classify eps = (Consistent, Some ep) /\ (2 <= length eps)%nat /\ Forall (.= ep) eps.
Proof.
  destruct eps as [|e [|e' eps]]; simpl; [auto|auto|]. right. right.
  rewrite bool_decide_eq_true_2 by done. cbn [andb].
  destruct (bool_decide (e' = e) && forallb (fun x => bool_decide (x = e)) eps) eqn:E.
  - right. exists e. apply andb_true_iff in E as [E1%bool_decide_eq_true E2].
    split_and!; [done|lia|]. do 2 (constructor; [done|]).
    apply Forall_forall. intros x Hx. rewrite forallb_forall in E2.
    apply (bool_decide_unpack (x = e)). rewrite E2; [done|]. by apply list_elem_of_In.
  - left. split_and!; [done|lia|]. intros (ep & H). inversion H as [|? ? -> H1]; subst.
    inversion H1 as [|? ? -> H2]; subst. apply not_true_iff_false in E. apply E.
    rewrite bool_decide_eq_true_2 by done. apply forallb_forall. intros x Hx%list_elem_of_In.
    apply bool_decide_eq_true. by eapply Forall_forall in H2.
Qed.

Lemma classify_endpoint eps :
  match (classify eps).1 with Consistent => is_Some (classify eps).2 | _ => (classify eps).2 = None end.
Proof.
  destruct (classify_cases eps) as [[E _]|[[E _]|[[E _]|(ep & E & _)]]]; rewrite E; simpl; eauto.
Qed.

Lemma recompute_spec i i' out :
  recompute_state_and_notify i = (i', out) ->
  i' = set_st (classify (omap srv_endpoint (servers i))).1 (classify (omap srv_endpoint (servers i))).2 i /\
  endpoint_ok i' /\
  (endpoint_ok i -> state_change i = true -> heard (visible i) out (visible i')).
Proof.
  unfold recompute_state_and_notify, endpoint_ok, visible.
  pose proof (classify_endpoint (omap srv_endpoint (servers i))) as Hc.
  destruct (classify (omap srv_endpoint (servers i))) as [s ep]; simpl in *.
  destruct (bool_decide (s <> st i)) eqn:B; simpl.
  { apply bool_decide_eq_true in B. intros [= <- <-]. split_and!; [done|done|].
    intros _ ->. repeat constructor. simpl. congruence. }
  apply bool_decide_eq_false, dec_stable in B. subst s.
  destruct (bool_decide (st i = Consistent)) eqn:Bc; simpl.
  - apply bool_decide_eq_true in Bc. rewrite Bc in *.
    case_bool_decide as Be; intros [= <- <-]; cbn; rewrite ?Bc;
      (split_and!; [done|done|]); intros _ Hs; rewrite ?Hs; [constructor; [congruence|constructor]|].
    rewrite Be. constructor.
  - apply bool_decide_eq_false in Bc. intros [= <- <-]. cbn. split_and!; [done|done|].
    intros Hok _. assert (ep = endpoint i) as -> by (destruct (st i); congruence). constructor.
Qed.

(** [same_view i i']: same state, endpoint and state handler. *)
Definition same_view (i i' : Inner) : Prop :=
  visible i' = visible i /\ state_change i' = state_change i.

Lemma same_view_ok i i' : same_view i i' -> endpoint_ok i -> endpoint_ok i'.
Proof. unfold same_view, endpoint_ok, visible. intros [[= -> ->] _]. done. Qed.

Lemma poll_one_view now acc addr :
  same_view acc.1 (poll_one now acc addr).1 /\
  (forall v, heard v acc.2 v -> heard v (poll_one now acc addr).2 v).
Proof.
  destruct acc as [i out]. unfold poll_one. cbn.
  split; [by case_match|]. intros v H. eapply heard_app; [exact H|].
  case_match; repeat constructor.
Qed.

Lemma poll_all_view now addrs acc :
  same_view acc.1 (foldl (poll_one now) acc addrs).1 /\
  (forall v, heard v acc.2 v -> heard v (foldl (poll_one now) acc addrs).2 v).
Proof.
  revert acc. induction addrs as [|a addrs IH]; intros acc; simpl; [done|].
  destruct (IH (poll_one now acc a)) as [[H1 H2] H3].
  destruct (poll_one_view now acc a) as [[H4 H5] H6].
  split; [|auto]. split; congruence.
Qed.

Lemma check_blocked_view i i' out :
  check_blocked i = (i', out) ->
  state_change i' = state_change i /\ (endpoint_ok i -> endpoint_ok i') /\
  (state_change i = true -> heard (visible i) out (visible i')).
Proof.
  unfold check_blocked.
  destruct (is_settled (st i)) eqn:Es; [intros [= <- <-]; by repeat constructor|].
  case_match; [intros [= <- <-]; by repeat constructor|]. cbn.
  repeat case_match; cbn in *; intros; simplify_eq/=; repeat case_bool_decide; simplify_eq/=;
    (split_and!; [done|done|]); intros; unfold visible; cbn; simplify_eq/=;
    repeat constructor; congruence.
Qed.

Lemma prune_view i : same_view i (prune i).
Proof. unfold prune. by case_bool_decide. Qed.

Lemma check_silence_view now i i' out :
  check_silence now i = (i', out) ->
  state_change i' = state_change i /\ (endpoint_ok i -> endpoint_ok i') /\
  (endpoint_ok i -> state_change i = true -> heard (visible i) out (visible i')).
Proof.
  unfold check_silence. case_match.
  - intros (-> & H2 & H3)%recompute_spec. split_and!; [done|done|]. intros Hok. by apply H3.
  - intros [= <- <-]. split_and!; [done|done|]. constructor.
Qed.

Lemma tick_view i i' out :
  stun_process_tick i = (i', out) ->
  state_change i' = state_change i /\ (endpoint_ok i -> endpoint_ok i') /\
  (endpoint_ok i -> state_change i = true -> heard (visible i) out (visible i')).
Proof.
  unfold stun_process_tick. set (now := current_tick i + 1).
  destruct (check_silence now _) as [i1 out1] eqn:E1.
  apply check_silence_view in E1 as (A1 & A2 & A3). change (state_change i1 = state_change i) in A1.
  change (endpoint_ok (set_clock now (last_poll_tick i) i)) with (endpoint_ok i) in A2, A3.
  change (state_change (set_clock now (last_poll_tick i) i)) with (state_change i) in A3.
  change (visible (set_clock now (last_poll_tick i) i)) with (visible i) in A3.
  destruct (poll_due now i1); [|intros [= <- <-]; done].
  set (i2 := set_clock now (Some now) i1).
  destruct (to_poll i2) as [|a addrs] eqn:Ep.
  - intros [= <- <-]. destruct (prune_view i2) as [B1 B2]. rewrite app_nil_r, B1, B2.
    split_and!; [done| |done]. intros H. apply (same_view_ok i2); [done|by apply A2].
  - destruct (foldl (poll_one now) (i2, []) (a :: addrs)) as [i3 sent] eqn:E3.
    destruct (check_blocked i3) as [i4 out4] eqn:E4. intros [= <- <-].
    destruct (poll_all_view now (a :: addrs) (i2, [])) as [[C1 C2] C3]. rewrite E3 in C1, C2, C3.
    apply check_blocked_view in E4 as (D1 & D2 & D3). destruct (prune_view i4) as [B1 B2].
    simpl in *. split_and!; [by rewrite B2, D1, C2|..].
    + intros H. apply (same_view_ok i4); [done|]. apply D2, (same_view_ok i2); [done|by apply A2].
    + intros H Hs. rewrite B1. eapply heard_app; [by apply A3|]. change (visible i1) with (visible i2).
      rewrite <- C1 in *. eapply heard_app; [apply C3; constructor|]. apply D3. by rewrite C2, <- Hs, <- A1.
Qed.

Lemma event_view e i i' out :
  run_event e i = (i', out) ->
  state_change i' = state_change i /\ (endpoint_ok i -> endpoint_ok i') /\
  (e <> Reset -> endpoint_ok i -> state_change i = true -> heard (visible i) out (visible i')).
Proof.
  destruct e as [|from data|]; simpl.
  - intros (H1 & H2 & H3)%tick_view. done.
  - unfold process_packet. intros (-> & H2 & H3)%recompute_spec. split_and!; [done|done|].
    intros _ Hok. by apply H3.
  - intros [= <- <-]. done.
Qed.

Lemma run_view es i i' out :
  run es i = (i', out) -> endpoint_ok i ->
  state_change i' = state_change i /\ endpoint_ok i' /\
  (Forall (fun e => e <> Reset) es -> state_change i = true -> heard (visible i) out (visible i')).
Proof.
  revert i i' out. induction es as [|e es IH]; simpl; intros i i' out.
  - intros [= <- <-] Hok. split_and!; [done|done|]. constructor.
  - destruct (run_event e i) as [i1 out1] eqn:E1. destruct (run es i1) as [i2 out2] eqn:E2.
    intros [= <- <-] Hok. apply event_view in E1 as (A1 & A2 & A3).
    destruct (IH _ _ _ E2 (A2 Hok)) as (B1 & B2 & B3).
    split_and!; [congruence|done|]. intros [He Hes]%Forall_cons Hs.
    eapply heard_app; [by apply A3|]. apply B3; [done|congruence].
Qed.

(** *** Which servers survive *)

Lemma update_server_addrs f addr l :
  (forall s, srv_addr (f s) = srv_addr s) ->
  srv_addr <$> update_server f addr l = srv_addr <$> l.
Proof.
  intros Hf. induction l as [|s l IH]; simpl; [done|].
  case_bool_decide; csimpl; [by rewrite Hf|by rewrite IH].
Qed.

Lemma update_server_elem f addr l s :
  s ∈ l -> exists s', s' ∈ update_server f addr l /\ (s' = s \/ s' = f s).
Proof.
  induction l as [|t l IH]; simpl; [by intros ?%not_elem_of_nil|].
  intros [->|Hs]%elem_of_cons; case_bool_decide.
  - exists (f t). split; [left|by right].
  - exists t. split; [left|by left].
  - exists s. split; [by right|by left].
  - destruct (IH Hs) as (s' & ? & ?). exists s'. split; [by right|done].
Qed.

(** The address has a server that has ever answered. *)
Definition known_good (a : SocketAddr) (i : Inner) : Prop :=
  exists s, s ∈ servers i /\ srv_addr s = a /\ ever_responded s = true.

Lemma known_good_map (f : ServerStatus -> ServerStatus) a i i' :
  (forall s, srv_addr (f s) = srv_addr s /\ ever_responded (f s) = ever_responded s) ->
  servers i' = f <$> servers i -> known_good a i -> known_good a i'.
Proof.
  intros Hf E (s & Hs & <- & He). exists (f s). destruct (Hf s) as [-> ->].
  rewrite E. split; [by apply list_elem_of_fmap_2|done].
Qed.

Lemma known_good_update f addr a i i' :
  (forall s, srv_addr (f s) = srv_addr s /\ (ever_responded s = true -> ever_responded (f s) = true)) ->
  servers i' = update_server f addr (servers i) -> known_good a i -> known_good a i'.
Proof.
  intros Hf E (s & Hs & <- & He).
  destruct (update_server_elem f addr _ s Hs) as (s' & Hs' & [-> | ->]); rewrite <- E in Hs'.
  - by exists s.
  - destruct (Hf s). exists (f s). auto.
Qed.

Lemma known_good_same a i i' : servers i' = servers i -> known_good a i -> known_good a i'.
Proof. unfold known_good. by intros ->. Qed.

Lemma known_good_poll a now addrs acc :
  known_good a acc.1 -> known_good a (foldl (poll_one now) acc addrs).1.
Proof.
  revert acc. induction addrs as [|x addrs IH]; intros [i out] H; simpl; [done|].
  apply IH. cbn. eapply (known_good_update (mark_polled now) x); [|by case_match|exact H]. done.
Qed.

Lemma known_good_blocked a i : known_good a i -> known_good a (check_blocked i).1.
Proof.
  unfold check_blocked. intros H. repeat case_match; simplify_eq/=; try done.
  all: eapply (known_good_map (fun s => if ever_responded s then
       MkServer (srv_addr s) (srv_failures s) false true (srv_endpoint s) (last_polled_tick s)
       else s)); [|done|exact H].
  all: intros s; by destruct (ever_responded s) eqn:?.
Qed.

Lemma known_good_prune a i : known_good a i -> known_good a (prune i).
Proof.
  unfold prune. case_bool_decide.
  - by apply (known_good_map reset_failures).
  - intros (s & Hs & <- & He). exists s. split; [|done]. cbn.
    apply list_elem_of_filter. split; [by right|done].
Qed.

Lemma known_good_recompute a i :
  known_good a i -> known_good a (recompute_state_and_notify i).1.
Proof.
  destruct (recompute_state_and_notify i) as [i' out] eqn:E.
  apply recompute_spec in E as (-> & _). done.
Qed.

Lemma known_good_event a e i : known_good a i -> known_good a (run_event e i).1.
Proof.
  intros H. destruct e as [|from data|]; simpl.
  - unfold stun_process_tick. set (now := current_tick i + 1).
    destruct (check_silence now _) as [i1 out1] eqn:E1.
    assert (known_good a i1) as H1.
    { change i1 with (i1, out1).1. rewrite <- E1. unfold check_silence. case_match; [|done].
      apply known_good_recompute. by eapply (known_good_map forget_round). }
    case_match; [|done]. set (i2 := set_clock now (Some now) i1).
    change (known_good a i2) in H1. destruct (to_poll i2) as [|x addrs]; [by apply known_good_prune|].
    pose proof (known_good_poll a now (x :: addrs) (i2, []) H1) as H3.
    destruct (foldl _ _ _) as [i3 sent]. apply known_good_blocked in H3. simpl in H3.
    destruct (check_blocked i3) as [i4 out4]. by apply known_good_prune.
  - unfold process_packet. apply known_good_recompute.
    by eapply (known_good_update (record_answer (parse_xor_mapped_address data)) from).
  - by eapply (known_good_map forget_round).
Qed.

(** *** While nobody has answered *)

(** No server has ever answered, and none is about to be dropped: [addrs] are still
    all there.  A server's failures do not exceed the intervals counted. *)
Definition unanswered (addrs : list SocketAddr) (i : Inner) : Prop :=
  srv_addr <$> servers i = addrs /\ 0 <= intervals_without_two i /\
  (st i = SNone \/ st i = Blocked) /\
  Forall (fun s => ever_responded s = false /\ responded s = false /\ srv_endpoint s = None /\
    srv_failures s <= intervals_without_two i /\ srv_failures s <= 2 /\
    (st i = Blocked -> srv_failures s = 0)) (servers i).

Lemma poll_all_servers now addrs acc :
  servers (foldl (poll_one now) acc addrs).1 =
    foldl (fun l a => update_server (mark_polled now) a l) (servers acc.1) addrs /\
  intervals_without_two (foldl (poll_one now) acc addrs).1 = intervals_without_two acc.1.
Proof.
  revert acc. induction addrs as [|x addrs IH]; intros [i out]; cbn [foldl]; [done|].
  destruct (IH (poll_one now (i, out) x)) as [-> ->]. cbn. by case_match.
Qed.

Lemma update_server_other f a s l :
  srv_addr s <> a -> update_server f a (s :: l) = s :: update_server f a l.
Proof. intros. simpl. by rewrite bool_decide_eq_false_2. Qed.

(** Polling every address once marks every server once. *)
Lemma poll_everyone f l :
  (forall s, srv_addr (f s) = srv_addr s) -> NoDup (srv_addr <$> l) ->
  foldl (fun l a => update_server f a l) l (srv_addr <$> l) = f <$> l.
Proof.
  intros Hf. induction l as [|s l IH]; [done|].
  rewrite fmap_cons. intros [Hs Hl]%NoDup_cons. cbn [foldl].
  cbn [update_server]. rewrite bool_decide_eq_true_2 by done. rewrite fmap_cons.
  transitivity (f s :: foldl (fun l a => update_server f a l) l (srv_addr <$> l)); [|by rewrite IH].
  clear IH Hl. revert Hs. generalize (srv_addr <$> l) as addrs. revert l.
  intros l addrs. revert l. induction addrs as [|a addrs IHa]; intros l Hs; [done|].
  apply not_elem_of_cons in Hs as [Ha Hs]. cbn [foldl].
  rewrite update_server_other by (by rewrite Hf). by rewrite IHa.
Qed.

Lemma omap_none l : Forall (fun s => srv_endpoint s = None) l -> omap srv_endpoint l = [].
Proof. induction 1 as [|s l H _ IH]; simpl; [done|]. by rewrite H. Qed.

Lemma unanswered_recompute addrs i :
  unanswered addrs i -> unanswered addrs (recompute_state_and_notify i).1.
Proof.
  intros (H1 & H2 & H3 & H4). destruct (recompute_state_and_notify i) as [i' out] eqn:E.
  apply recompute_spec in E as (-> & _). rewrite omap_none
    by (eapply Forall_impl; [exact H4|]; naive_solver). simpl.
  split_and!; [done|done|by left|]. eapply Forall_impl; [exact H4|].
  intros s (? & ? & ? & ? & ? & ?). by split_and!.
Qed.

Definition silent (s : ServerStatus) : Prop :=
  ever_responded s = false /\ responded s = false /\ srv_endpoint s = None.

Lemma prune_blocked i :
  st i = Blocked -> 0 <= intervals_without_two i -> Forall silent (servers i) ->
  unanswered (srv_addr <$> servers i) (prune i).
Proof.
  intros Hb Hn Hs. unfold prune, unanswered. rewrite bool_decide_eq_true_2 by done.
  cbn [servers set_servers st intervals_without_two]. rewrite <- list_fmap_compose.
  split_and!; [done|done|by right|].
  apply Forall_fmap. eapply Forall_impl; [exact Hs|]. intros s (? & ? & ?). cbn.
  split_and!; [done..|lia|lia|done].
Qed.

Lemma prune_searching i :
  st i = SNone -> 0 <= intervals_without_two i <= 2 ->
  Forall (fun s => silent s /\ srv_failures s <= intervals_without_two i) (servers i) ->
  unanswered (srv_addr <$> servers i) (prune i).
Proof.
  intros Hb Hn Hs. unfold prune, unanswered. rewrite bool_decide_eq_false_2 by (by rewrite Hb).
  cbn [servers set_servers st intervals_without_two].
  assert (filter keep_server (servers i) = servers i) as ->.
  { clear Hb. induction Hs as [|s l [_ Hf] _ IH]; [done|].
    rewrite filter_cons_True by (left; lia). by rewrite IH. }
  split_and!; [done|lia|by left|].
  eapply Forall_impl; [exact Hs|]. intros s ((? & ? & ?) & ?).
  split_and!; [done..|lia|by rewrite Hb].
Qed.

(** The end of a polling round in which nobody answered. *)
Lemma unanswered_round i :
  0 <= intervals_without_two i -> st i = SNone \/ st i = Blocked ->
  Forall (fun s => silent s /\ srv_failures s <= intervals_without_two i + 1) (servers i) ->
  unanswered (srv_addr <$> servers i) (prune (check_blocked i).1).
Proof.
  intros H2 H3 H4. unfold check_blocked.
  replace (is_settled (st i)) with false by (by destruct H3 as [-> | ->]).
  assert (Hs : Forall silent (servers i)) by (eapply Forall_impl; [exact H4|]; by intros ? []).
  assert (Hz : length (filter (fun s => responded s = true) (servers i)) = 0%nat).
  { clear -Hs. induction Hs as [|s l (_ & Hs & _) _ IH]; [done|].
    rewrite filter_cons_False by congruence. done. }
  unfold u8_max. destruct (_ <? 3) eqn:En.
  - apply Z.ltb_lt in En. assert (intervals_without_two i <= 1) by lia.
    destruct H3 as [Hst|Hst]; [|apply (prune_blocked (set_intervals _ _ i)); [done|simpl; lia|done]].
    apply (prune_searching (set_intervals _ _ i)); [done|simpl; lia|]. eapply Forall_impl; [exact H4|].
    intros s [? ?]. split; [done|]. simpl. lia.
  - cbn -[Z.min]. rewrite Hz. simpl Nat.eqb. cbv iota.
    destruct H3 as [Hst|Hst]; rewrite Hst; cbn -[Z.min].
    + apply (prune_blocked (set_st Blocked None (set_intervals _ _ i))); simpl; [done|lia|done].
    + rewrite (bool_decide_eq_false_2 (Blocked <> Blocked)) by tauto. cbn -[Z.min].
      rewrite Hst, (bool_decide_eq_false_2 (Blocked <> Blocked)) by tauto.
      apply (prune_blocked (set_intervals _ _ i)); simpl; [done|lia|done].
Qed.

Lemma unanswered_tick addrs i :
  NoDup addrs -> unanswered addrs i -> unanswered addrs (stun_process_tick i).1.
Proof.
  intros Hnd (H1 & H2 & H3 & H4). unfold stun_process_tick. set (now := current_tick i + 1).
  replace (check_silence now _) with (set_clock now (last_poll_tick i) i, @nil output)
    by (unfold check_silence; simpl; by destruct H3 as [-> | ->]).
  case_match; [|done].
  set (i2 := set_clock now (Some now) _). assert (Hp : to_poll i2 = addrs).
  { unfold to_poll, i2. cbn. destruct H3 as [-> | ->]; [|done]. rewrite <- H1. f_equal.
    clear -H4. induction H4 as [|s l (_ & Hs & _) _ IH]; [done|].
    rewrite filter_cons_True by done. by rewrite IH. }
  rewrite Hp. destruct addrs as [|a addrs].
  - apply fmap_nil_inv in H1. unfold prune. cbn. rewrite H1.
    case_bool_decide; unfold unanswered; cbn; by split_and!.
  - pose proof (poll_all_servers now (a :: addrs) (i2, [])) as [A1 A2].
    pose proof (poll_all_view now (a :: addrs) (i2, [])) as [[A3 _] _].
    destruct (foldl (poll_one now) (i2, []) (a :: addrs)) as [i3 sent]. simpl fst in *.
    apply (f_equal fst) in A3. change (st i3 = st i) in A3.
    change (servers i2) with (servers i) in A1. rewrite <- H1, poll_everyone in A1 by (done || by rewrite H1).
    pose proof (unanswered_round i3) as Hr. rewrite A1, A2, A3 in Hr.
    rewrite <- list_fmap_compose in Hr. change (srv_addr ∘ mark_polled now) with srv_addr in Hr.
    rewrite H1 in Hr. destruct (check_blocked i3) as [i4 out]. apply Hr; [done..|].
    apply Forall_fmap. eapply Forall_impl; [exact H4|]. intros s (? & ? & ? & ? & _).
    cbn -[Z.min]. unfold u8_max. split; [done|lia].
Qed.

Lemma unanswered_event addrs e i :
  NoDup addrs -> unanswered addrs i ->
  unanswered addrs (run_event e i).1 \/ exists a, known_good a (run_event e i).1.
Proof.
  intros Hnd Hu. destruct e as [|from data|]; simpl; [left; by apply unanswered_tick|..].
  - unfold process_packet. destruct (decide (from ∈ addrs)) as [Hin|Hout].
    + right. exists from. apply known_good_recompute. destruct Hu as (H1 & _). rewrite <- H1 in Hin.
      clear H1. unfold known_good. cbn. induction (servers i) as [|s l IH]; [by apply not_elem_of_nil in Hin|].
      rewrite fmap_cons in Hin. simpl. case_bool_decide as Hs.
      * eexists. split; [left|]. done.
      * apply elem_of_cons in Hin as [->|Hin]; [done|]. destruct (IH Hin) as (s' & ? & ?).
        exists s'. split; [by right|done].
    + left. apply unanswered_recompute. destruct Hu as (H1 & H2 & H3 & H4).
      assert (update_server (record_answer (parse_xor_mapped_address data)) from (servers i)
              = servers i) as ->.
      { rewrite <- H1 in Hout. clear -Hout. induction (servers i) as [|s l IH]; [done|].
        rewrite fmap_cons in Hout. apply not_elem_of_cons in Hout as [Hs Hl].
        rewrite update_server_other by congruence. by rewrite IH. }
      by split_and!.
  - left. destruct Hu as (H1 & H2 & H3 & H4). unfold reset_state, unanswered.
    cbn [servers st intervals_without_two set_servers set_clock set_anchors set_intervals set_st].
    rewrite <- list_fmap_compose. split_and!; [done|done|by left|].
    apply Forall_fmap. eapply Forall_impl; [exact H4|]. intros s (? & ? & ? & _). by split_and!.
Qed.

Lemma unanswered_init addrs search repeat override i :
  unanswered addrs (init addrs search repeat override i).
Proof.
  unfold unanswered, init. cbn [servers st intervals_without_two].
  rewrite <- list_fmap_compose, list_fmap_id. split_and!; [done|done|by left|].
  apply Forall_fmap, Forall_true. intros a. by split_and!.
Qed.

Lemma run_keeps addrs es i :
  NoDup addrs -> (unanswered addrs i \/ exists a, known_good a i) ->
  unanswered addrs (run es i).1 \/ exists a, known_good a (run es i).1.
Proof.
  intros Hnd. revert i. induction es as [|e es IH]; intros i H; simpl; [done|].
  assert (unanswered addrs (run_event e i).1 \/ exists a, known_good a (run_event e i).1) as H1.
  { destruct H as [H|[a H]]; [by apply unanswered_event|right]. exists a. by apply known_good_event. }
  destruct (run_event e i) as [i1 out1]. apply IH in H1. simpl in H1. by destruct (run es i1).
Qed.

(** *** Two answers *)

Lemma record_answer_endpoints e a l :
  a ∈ srv_addr <$> l -> (forall s, s ∈ l -> srv_addr s = a -> srv_endpoint s = None) ->
  omap srv_endpoint (update_server (record_answer (Some e)) a l) ≡ₚ e :: omap srv_endpoint l.
Proof.
  induction l as [|s l IH]; [by intros ?%not_elem_of_nil|]. rewrite fmap_cons. intros Hin Hn.
  cbn [update_server]. case_bool_decide as Hs.
  - csimpl. rewrite (Hn s); [done|left|done].
  - apply elem_of_cons in Hin as [->|Hin]; [done|].
    assert (omap srv_endpoint (update_server (record_answer (Some e)) a l) ≡ₚ e :: omap srv_endpoint l) as H.
    { apply IH; [done|]. intros s' ?. apply Hn. by right. }
    csimpl. destruct (srv_endpoint s); [|done]. rewrite H. apply Permutation_swap.
Qed.

Lemma update_server_keeps f a b l s :
  a <> b -> (forall x, srv_addr (f x) = srv_addr x) -> s ∈ update_server f a l -> srv_addr s = b -> s ∈ l.
Proof.
  intros Hab Hf. induction l as [|x l IH]; simpl; [done|]. case_bool_decide as Hx.
  - intros [-> |Hs]%elem_of_cons Hb; [congruence|by right].
  - intros [-> |Hs]%elem_of_cons Hb; [left|right; auto].
Qed.

Lemma classify_two eps x y :
  eps ≡ₚ [x; y] ->
  classify eps = if decide (x = y) then (Consistent, Some x) else (Inconsistent, None).
Proof.
  intros H. destruct (classify_cases eps) as [(_ & ->)|[(_ & E)|[(-> & _ & E)|(ep & -> & _ & E)]]].
  - by apply Permutation_nil_l in H.
  - by rewrite H in E.
  - case_decide as D; [|done]. subst. destruct E. exists y. rewrite H. by repeat constructor.
  - rewrite H in E. inversion E as [|? ? -> E1]. inversion E1 as [|? ? -> _].
    by rewrite decide_True.
Qed.

(** ** Theorems *)

(** (C38) STUN: a finder that starts as [init] leaves it knows an endpoint exactly when it is
    in the consistent state, after every sequence of ticks, packets and resets; and
    as long as it is not reset, its state handler hears every change of
    (state, endpoint) and nothing else: starting from the state before, the
    notifications, none of which repeats what the client already knew, end in the
    state after. *)
Theorem stun_notifications_track addrs search repeat override i0 before es :
  state_change i0 = true ->
  Forall (fun e => e <> Reset) es ->
  let i := (run before (init addrs search repeat override i0)).1 in
  endpoint_ok i /\ heard (visible i) (run es i).2 (visible (run es i).1).
Proof.
  intros Hs Hes i. destruct (run before _) as [i1 out1] eqn:E1.
  destruct (run es i) as [i2 out2] eqn:E2.
  destruct (run_view _ _ _ _ E1) as (A1 & A2 & _); [done|].
  destruct (run_view _ _ _ _ E2 A2) as (_ & _ & B). split; [done|].
  apply B; [done|]. unfold i. simpl. rewrite A1. exact Hs.
Qed.

Lemma stun_notifications_track_witness :
  let i0 := set_handlers true true true inner_new in
  let i := (run [Tick] (init [SockAddr (V4 1 1 1 1) 3478] 1000 10000 None i0)).1 in
  endpoint_ok i /\
  heard (visible i) (run [Packet (SockAddr (V4 1 1 1 1) 3478) []; Tick] i).2
    (visible (run [Packet (SockAddr (V4 1 1 1 1) 3478) []; Tick] i).1).
Proof.
  apply (stun_notifications_track [SockAddr (V4 1 1 1 1) 3478] 1000 10000 None
    (set_handlers true true true inner_new) [Tick]
    [Packet (SockAddr (V4 1 1 1 1) 3478) []; Tick]); [done|].
  do 2 (constructor; [discriminate|]). constructor.
Defined.

(** STUN: a server that has ever answered is never dropped, whatever ticks,
    packets and resets follow. *)
Theorem stun_known_good_kept a i es : known_good a i -> known_good a (run es i).1.
Proof.
  revert i. induction es as [|e es IH]; intros i H; simpl; [done|].
  apply (known_good_event a e) in H. destruct (run_event e i) as [i1 out1].
  apply IH in H. simpl in H. by destruct (run es i1).
Qed.

Lemma stun_known_good_kept_witness :
  let a := SockAddr (V4 1 1 1 1) 3478 in
  known_good a (run [Tick; Tick; Reset] (process_packet a [] (init [a] 1000 10000 None inner_new)).1).1.
Proof.
  intros a. apply stun_known_good_kept.
  eexists. split; [left|]. done.
Defined.

(** STUN: however long UDP is blocked, the finder keeps servers to poll: started
    with distinct servers, at least one, it never runs out of them, and it drops none
    of them before some server has answered. *)
Theorem stun_servers_survive addrs search repeat override i0 es :
  NoDup addrs -> addrs <> [] ->
  let i := (run es (init addrs search repeat override i0)).1 in
  servers i <> [] /\
  (Forall (fun s => ever_responded s = false) (servers i) -> srv_addr <$> servers i = addrs).
Proof.
  intros Hnd Hne i.
  destruct (run_keeps addrs es _ Hnd (or_introl (unanswered_init addrs search repeat override i0)))
    as [(H & _)|(a & s & Hs & _ & He)]; fold i in H || fold i in Hs.
  - split; [|done]. intros E. rewrite E in H. by symmetry in H.
  - split; [intros E; rewrite E in Hs; by apply not_elem_of_nil in Hs|].
    intros Hf. eapply Forall_forall in Hf; [|exact Hs]. congruence.
Qed.

Lemma stun_servers_survive_witness :
  let a := SockAddr (V4 1 1 1 1) 3478 in
  servers (run [Tick; Tick; Tick; Tick] (init [a] 100 100 None inner_new)).1 <> [].
Proof.
  intros a. apply (stun_servers_survive [a] 100 100 None inner_new [Tick; Tick; Tick; Tick]).
  - apply NoDup_singleton.
  - done.
Defined.

Lemma reset_silent L n i :
  st i = SNone -> last_poll_tick i = Some L -> current_tick i + Z.of_nat n < L + search_ticks i ->
  1 <= search_ticks i -> 0 <= L ->
  run (replicate n Tick) i = (set_clock (current_tick i + Z.of_nat n) (Some L) i, []).
Proof.
  revert i. induction n as [|n IH]; intros i Hs HL Hn H1 H0.
  - rewrite Z.add_0_r, <- HL. by destruct i.
  - cbn [replicate run run_event]. unfold stun_process_tick, check_silence. cbn. rewrite Hs. cbn.
    unfold poll_due, choose_interval. cbn. rewrite Hs, HL. cbn.
    destruct (_ <=? _) eqn:E; [apply Z.leb_le in E; lia|].
    rewrite IH; cbn; [|done|done|lia..]. unfold set_clock. cbn. do 2 f_equal. lia.
Qed.

(** STUN: a reset sets the clock back to zero and keeps the tick of the last poll, so
    after a reset of a finder that last polled at tick [L] not one packet is sent and
    nothing is reported during the next [n] ticks, for every [n] below
    [L + search_ticks]: the time the finder stays mute grows with its age. *)
Theorem stun_reset_mutes i L n :
  last_poll_tick i = Some L -> 0 <= L -> 1 <= search_ticks i ->
  Z.of_nat n < L + search_ticks i ->
  (run (replicate n Tick) (reset_state i)).2 = [].
Proof. intros HL H0 H1 Hn. by rewrite (reset_silent L). Qed.

Lemma stun_reset_mutes_witness :
  let a := SockAddr (V4 1 1 1 1) 3478 in
  let i := (run (replicate 12 Tick) (init [a] 100 100 None (set_handlers true true true inner_new))).1 in
  last_poll_tick i = Some 12 /\ (run (replicate 12 Tick) (reset_state i)).2 = [].
Proof.
  intros a i. assert (last_poll_tick i = Some 12) as H by reflexivity.
  split; [exact H|]. apply (stun_reset_mutes i 12); [exact H|lia|done|done].
Defined.

(** STUN, from the wire to the state: when the servers [a] and [b] report the
    mapped addresses [ma] and [mb] in answer to the finder's requests, and no other
    server has answered in this round, the finder is consistent with that address if
    they agree and inconsistent if they do not. *)
Theorem stun_two_answers i a b t1 t2 (ma mb : Z * Z * Z * Z) pa pb ra rb :
  a <> b -> a ∈ srv_addr <$> servers i -> b ∈ srv_addr <$> servers i ->
  Forall (fun s => srv_endpoint s = None) (servers i) ->
  in_width 16 pa -> in_width 16 pb ->
  server_response ma pa (build_binding_request t1) = Some ra ->
  server_response mb pb (build_binding_request t2) = Some rb ->
  visible (run [Packet a ra; Packet b rb] i).1 =
    if decide (ma = mb /\ pa = pb)
    then (Consistent, Some (let '(x, y, z, w) := ma in SockAddr (V4 x y z w) pa))
    else (Inconsistent, None).
Proof.
  intros Hab Ha Hb Hn Hpa Hpb Hra Hrb.
  destruct ma as [[[x y] z] w], mb as [[[x' y'] z'] w'].
  assert (parse_xor_mapped_address ra = Some (SockAddr (V4 x y z w) pa)) as Ea
    by (eapply response_parses; eassumption).
  assert (parse_xor_mapped_address rb = Some (SockAddr (V4 x' y' z' w') pb)) as Eb
    by (eapply response_parses; eassumption).
  cbn [run run_event]. unfold process_packet. rewrite Ea, Eb.
  destruct (recompute_state_and_notify _) as [i1 out1] eqn:E1.
  apply recompute_spec in E1 as (-> & _).
  destruct (recompute_state_and_notify _) as [i2 out2] eqn:E2.
  apply recompute_spec in E2 as (-> & _). cbn [fst]. unfold visible. cbn [set_st st endpoint].
  rewrite <- surjective_pairing.
  cbn [servers set_anchors set_servers set_st].
  rewrite (classify_two _ (SockAddr (V4 x' y' z' w') pb) (SockAddr (V4 x y z w) pa)).
  - do 2 case_decide; simplify_eq; naive_solver.
  - rewrite record_answer_endpoints.
    + constructor. rewrite record_answer_endpoints; [|done|].
      * by rewrite omap_none.
      * intros s Hs _. by eapply Forall_forall in Hn.
    + by rewrite update_server_addrs.
    + intros s Hs Hsb. apply (update_server_keeps _ _ b) in Hs; [|done..].
      by eapply Forall_forall in Hn.
Qed.

Lemma stun_two_answers_witness :
  let a := SockAddr (V4 1 1 1 1) 3478 in let b := SockAddr (V4 2 2 2 2) 3478 in
  exists ra rb,
  visible (run [Packet a ra; Packet b rb] (init [a; b] 1000 10000 None inner_new)).1
  = (Consistent, Some (SockAddr (V4 10 0 0 1) 4000)).
Proof.
  intros a b. do 2 eexists.
  rewrite (stun_two_answers _ a b 1 1 (10, 0, 0, 1) (10, 0, 0, 1) 4000 4000);
    [reflexivity|discriminate|by left|by right; left|by repeat constructor|done|done|reflexivity..].
Defined.
