(* ===== verification/Messages.v ===== *)
(** * Messages

    The message types of [src/bingle_core/src/messages/types.rs] that nodes exchange,
    and the payloads a node puts on the wire.  The fields [app], [text] and [data]
    that no handler reads are left out, except the text of a ping; a mutex request
    and release carry no tag because the mutex never sets one. *)
From S2P Require Import Prelude NetAddr Mutex Advert RelayCache RelayUpdater.

Local Open Scope Z_scope.

(** ** Relay messages (app null) *)

Inductive RelayMessage : Type :=
| Call (called_id : string) (tag : option string)
| RelayResponse (channel : option Z) (response_tag : option string)
| TriangleTest1 (checking : InetSocketAddress) (do_not_use : list InetSocketAddress)
    (tag : option string)
| TriangleTest2 (checking_id : string) (checking : InetSocketAddress)
| TriangleTest3
| TriangleTest1Response (no_corner_node : bool) (response_tag : option string)
| Listen (tag : option string)
| RelayCheck (tag : option string)
| ListenResponse (response_tag : option string)
| CheckResponse (relay_state : string) (response_tag : option string)
| KeepAlive
| RelayCalled (channel : Z).

(** ** DDB messages *)

Record DdbUpsertResolve : Type := MkUpsert {
  up_start_id : string;
  up_epoch : Z;
  up_record : AdvertRecord;
  up_original_signature : string;
  up_rippled : bool;
  up_tag : option string;
  up_response_tag : option string
}.

Record DdbDeleteResolve : Type := MkDelete {
  del_start_id : string;
  del_epoch : Z;
  del_original_signature : string;
  del_rippled : bool;
  del_tag : option string;
  del_response_tag : option string
}.

Record DdbSignoff : Type := MkSignoff {
  off_start_id : string;
  off_rippled : bool;
  off_tag : option string;
  off_response_tag : option string
}.

Record DdbSignon : Type := MkSignon {
  on_start_id : string;
  on_original_signature : option string;
  on_rippled : option bool;
  on_tag : option string;
  on_response_tag : option string
}.

Inductive DdbMessage : Type :=
| UpsertResolve (m : DdbUpsertResolve)
| DeleteResolve (m : DdbDeleteResolve)
| Signoff (m : DdbSignoff)
| QueryResolve (id : string) (tag : option string)
| QueryResponse (found : bool) (advert : option AdvertRecord) (tag response_tag : option string)
| UpdateResponse (response_tag : option string)
| Signon (m : DdbSignon)
| SignonResponse (tag response_tag : option string)
| GetRelaysStatus (epoch_id : Z) (tag : option string)
| RelaysStatusResponse (epoch_id tree_order : Z) (status : DdbRelaysStatusResponse)
    (response_tag : option string)
| InitResolve (tag response_tag : option string)
| DdbInitResponse (db_count : Z) (response_tag : option string)
| DdbDumpResolve (r : AdvertRecord) (tag response_tag : option string).

Definition set_up_rippled (m : DdbUpsertResolve) : DdbUpsertResolve :=
  MkUpsert (up_start_id m) (up_epoch m) (up_record m) (up_original_signature m) true (up_tag m)
    (up_response_tag m).

Definition set_del_rippled (m : DdbDeleteResolve) : DdbDeleteResolve :=
  MkDelete (del_start_id m) (del_epoch m) (del_original_signature m) true (del_tag m)
    (del_response_tag m).

Definition set_off_rippled (m : DdbSignoff) : DdbSignoff :=
  MkSignoff (off_start_id m) true (off_tag m) (off_response_tag m).

Definition set_on_rippled (m : DdbSignon) : DdbSignon :=
  MkSignon (on_start_id m) (on_original_signature m) (Some true) (on_tag m) (on_response_tag m).

(** ** Pings and reports of failed relays *)

Inductive PingMessage : Type :=
| Ping (tag response_tag text : option string)
| PingResponse (verified_id : string) (response_tag text : option string).

Record FailVote : Type := MkVote { confirming_id : string; vote_signature : string }.

Record FailReport : Type := MkReport {
  rf_tag : option string;
  rf_response_tag : option string;
  failed_relay_id : string;
  fail_type : string;
  rf_timestamp : string;
  confirmations : list FailVote;
  disputes : list FailVote
}.

(** A [RelayReportFailed] has no votes: its lists are empty. *)
Inductive ReportFailMessage : Type :=
| RelayReportFailed (r : FailReport)
| ReportFailedRipple (r : FailReport)
| ReportFailedRippleResponse (r : FailReport)
| ReportFailedComplete (r : FailReport).

(** ** Messages and payloads *)

Inductive Message : Type :=
| PlainText (text : string)
| MRelay (m : RelayMessage)
| MDdb (m : DdbMessage)
| MPing (m : PingMessage)
| MMutex (m : message)
| MReportFail (m : ReportFailMessage)
| UnknownMessage (raw : string).

(** What goes over the wire: a message, the generic [Fail], the failure object the
    DDB handlers build by hand, or a request: any of them with the field ["tag"] set
    and the field ["responseTag"] removed. *)
Inductive payload : Type :=
| Typed (m : Message)
| FailMsg (reason : string) (response_tag : option string)
| DdbFail (text : string) (response_tag : option string)
| WithTag (tag : string) (p : payload).

Definition report_of (m : ReportFailMessage) : FailReport :=
  match m with
  | RelayReportFailed r | ReportFailedRipple r
  | ReportFailedRippleResponse r | ReportFailedComplete r => r
  end.

Definition retag_report (tag : string) (r : FailReport) : FailReport :=
  MkReport (Some tag) None (failed_relay_id r) (fail_type r) (rf_timestamp r) (confirmations r)
    (disputes r).

(** A message read back after its JSON form got a ["tag"] and lost its ["responseTag"]:
    a type without such fields ignores the tag. *)
Definition retag (tag : string) (m : Message) : Message :=
  match m with
  | MRelay m => MRelay
      match m with
      | Call c _ => Call c (Some tag)
      | RelayResponse ch _ => RelayResponse ch None
      | TriangleTest1 a l _ => TriangleTest1 a l (Some tag)
      | TriangleTest1Response b _ => TriangleTest1Response b None
      | Listen _ => Listen (Some tag)
      | RelayCheck _ => RelayCheck (Some tag)
      | ListenResponse _ => ListenResponse None
      | CheckResponse st _ => CheckResponse st None
      | TriangleTest2 _ _ | TriangleTest3 | KeepAlive | RelayCalled _ => m
      end
  | MDdb m => MDdb
      match m with
      | UpsertResolve u => UpsertResolve (MkUpsert (up_start_id u) (up_epoch u) (up_record u)
          (up_original_signature u) (up_rippled u) (Some tag) None)
      | DeleteResolve d => DeleteResolve (MkDelete (del_start_id d) (del_epoch d)
          (del_original_signature d) (del_rippled d) (Some tag) None)
      | Signoff o => Signoff (MkSignoff (off_start_id o) (off_rippled o) (Some tag) None)
      | QueryResolve i _ => QueryResolve i (Some tag)
      | QueryResponse f a _ _ => QueryResponse f a (Some tag) None
      | UpdateResponse _ => UpdateResponse None
      | Signon o => Signon (MkSignon (on_start_id o) (on_original_signature o) (on_rippled o)
          (Some tag) None)
      | SignonResponse _ _ => SignonResponse (Some tag) None
      | GetRelaysStatus i _ => GetRelaysStatus i (Some tag)
      | RelaysStatusResponse i o st _ => RelaysStatusResponse i o st None
      | InitResolve _ _ => InitResolve (Some tag) None
      | DdbInitResponse n _ => DdbInitResponse n None
      | DdbDumpResolve r _ _ => DdbDumpResolve r (Some tag) None
      end
  | MPing (Ping _ _ text) => MPing (Ping (Some tag) None text)
  | MPing (PingResponse i _ text) => MPing (PingResponse i None text)
  | MMutex (MReply r) => MMutex (MReply (MkResponse (resp_known_ids r) None))
  | MReportFail m => MReportFail
      match m with
      | RelayReportFailed r => RelayReportFailed (retag_report tag r)
      | ReportFailedRipple r => ReportFailedRipple (retag_report tag r)
      | ReportFailedRippleResponse r => ReportFailedRippleResponse (retag_report tag r)
      | ReportFailedComplete r => ReportFailedComplete (retag_report tag r)
      end
  | PlainText _ | MMutex _ | UnknownMessage _ => m
  end.

(** The field ["tag"] of the JSON form. *)
Definition request_tag (p : payload) : option string :=
  match p with
  | Typed (MRelay m) =>
      match m with
      | Call _ t | TriangleTest1 _ _ t | Listen t | RelayCheck t => t
      | _ => None
      end
  | Typed (MDdb m) =>
      match m with
      | UpsertResolve m => up_tag m
      | DeleteResolve m => del_tag m
      | Signoff m => off_tag m
      | Signon m => on_tag m
      | QueryResolve _ t | QueryResponse _ _ t _ | SignonResponse t _ | GetRelaysStatus _ t
      | InitResolve t _ | DdbDumpResolve _ t _ => t
      | _ => None
      end
  | Typed (MPing (Ping t _ _)) => t
  | Typed (MReportFail m) => rf_tag (report_of m)
  | WithTag tag _ => Some tag
  | _ => None
  end.

(** The field ["responseTag"]. *)
Definition response_tag_of (p : payload) : option string :=
  match p with
  | Typed (MRelay m) =>
      match m with
      | RelayResponse _ t | TriangleTest1Response _ t | ListenResponse t | CheckResponse _ t => t
      | _ => None
      end
  | Typed (MDdb m) =>
      match m with
      | UpsertResolve m => up_response_tag m
      | DeleteResolve m => del_response_tag m
      | Signoff m => off_response_tag m
      | Signon m => on_response_tag m
      | QueryResponse _ _ _ t | UpdateResponse t | SignonResponse _ t
      | RelaysStatusResponse _ _ _ t | InitResolve _ t | DdbInitResponse _ t
      | DdbDumpResolve _ _ t => t
      | _ => None
      end
  | Typed (MPing (Ping _ t _ | PingResponse _ t _)) => t
  | Typed (MMutex (MReply r)) => resp_response_tag r
  | Typed (MReportFail m) => rf_response_tag (report_of m)
  | FailMsg _ t | DdbFail _ t => t
  | _ => None
  end.
