(* ===== verification/Handlers.v ===== *)
(** * Message handlers

    Models [src/bingle_core/src/messages/handlers.rs] (the trait's default handlers
    and [DefaultPrintingHandler]), [Router::dispatch_message] of [router.rs], and the
    operations of the engine they call ([ripple_message], [ddb_upsert_record],
    [ddb_delete_record] and the delegations to the TURN handlers and the mutex) of
    [src/bingle_core/src/engine/mod.rs].

    A handler takes the state of the node and returns it with its [output]s, or
    panics.  The blockchain, the handles, the relays a lookup over the network
    finds and the answers of other relays are fields of [env].  A thread a handler
    starts is an output naming what it will do ([RippleLater], [TriangleLater] and
    the like), with the definition of what it does beside it.  The hook by which
    tests drop a [Listen] is left out. *)
From S2P Require Import Prelude NetAddr Turn Mutex Advert Ddb RelayCache RelayUpdater Messages.

Local Open Scope Z_scope.

(** ** The node *)

(** The fields of the router the handlers read. *)
Record router : Type := MkRouter {
  last_from : option SocketAddr;
  last_response_tag : option string;
  r_am_relay : bool;
  has_sender : bool;
  has_on_message : bool;
  has_backend : bool
}.

Inductive EngineState : Type :=
| StunIdentify | TrianglePing | EndpointAvailable | Registered | NATRestricted.

Inductive NatType : Type := NatUnknown | NoConnection | Symmetric | Restricted | FullCone.

#[export] Instance NatType_eq_dec : EqDecision NatType.
Proof. solve_decision. Defined.

(** The atomics of the engine that say how far it has come. *)
Record lifecycle : Type := MkLifecycle {
  endpoint_ready : bool;
  registered_flag : bool;
  nat_restricted : bool;
  state_field : EngineState;
  nat_type : NatType
}.

Definition engine_state (l : lifecycle) : EngineState :=
  if registered_flag l then Registered
  else if endpoint_ready l then EndpointAvailable
  else if nat_restricted l then NATRestricted
  else state_field l.

Definition set_state_internal (s : EngineState) (l : lifecycle) : lifecycle :=
  match s with
  | EndpointAvailable =>
      MkLifecycle true (registered_flag l) (nat_restricted l) (state_field l) (nat_type l)
  | Registered =>
      MkLifecycle (endpoint_ready l) true (nat_restricted l) (state_field l) (nat_type l)
  | NATRestricted =>
      if endpoint_ready l then l
      else MkLifecycle (endpoint_ready l) (registered_flag l) true (state_field l) (nat_type l)
  | StunIdentify | TrianglePing => l
  end.

Definition set_nat_type (t : NatType) (l : lifecycle) : lifecycle :=
  MkLifecycle (endpoint_ready l) (registered_flag l) (nat_restricted l) (state_field l) t.

Record node : Type := MkNodeState {
  issuer : option string;
  backend : InMemoryDdbBackend;
  turn_handler_relay : option relay_state;
  turn_handler_client : option Client.client_state;
  relay_finder : option cache;
  node_relay_state : RelayState;
  last_public_addr : option SocketAddr;
  peer_ddb_records : option nat;
  signon_complete : bool;
  relay_init_mutex : option InnerState;
  life : lifecycle
}.

Definition set_backend (b : InMemoryDdbBackend) (n : node) : node :=
  MkNodeState (issuer n) b (turn_handler_relay n) (turn_handler_client n) (relay_finder n)
    (node_relay_state n) (last_public_addr n) (peer_ddb_records n) (signon_complete n)
    (relay_init_mutex n) (life n).

Definition set_turn_relay (t : relay_state) (n : node) : node :=
  MkNodeState (issuer n) (backend n) (Some t) (turn_handler_client n) (relay_finder n)
    (node_relay_state n) (last_public_addr n) (peer_ddb_records n) (signon_complete n)
    (relay_init_mutex n) (life n).

Definition set_turn_client (t : Client.client_state) (n : node) : node :=
  MkNodeState (issuer n) (backend n) (turn_handler_relay n) (Some t) (relay_finder n)
    (node_relay_state n) (last_public_addr n) (peer_ddb_records n) (signon_complete n)
    (relay_init_mutex n) (life n).

Definition set_finder (f : option cache) (n : node) : node :=
  MkNodeState (issuer n) (backend n) (turn_handler_relay n) (turn_handler_client n) f
    (node_relay_state n) (last_public_addr n) (peer_ddb_records n) (signon_complete n)
    (relay_init_mutex n) (life n).

Definition set_signon_complete (b : bool) (n : node) : node :=
  MkNodeState (issuer n) (backend n) (turn_handler_relay n) (turn_handler_client n) (relay_finder n)
    (node_relay_state n) (last_public_addr n) (peer_ddb_records n) b (relay_init_mutex n) (life n).

Definition set_mutex (m : InnerState) (n : node) : node :=
  MkNodeState (issuer n) (backend n) (turn_handler_relay n) (turn_handler_client n) (relay_finder n)
    (node_relay_state n) (last_public_addr n) (peer_ddb_records n) (signon_complete n) (Some m)
    (life n).

Definition set_life (l : lifecycle) (n : node) : node :=
  MkNodeState (issuer n) (backend n) (turn_handler_relay n) (turn_handler_client n) (relay_finder n)
    (node_relay_state n) (last_public_addr n) (peer_ddb_records n) (signon_complete n)
    (relay_init_mutex n) l.

(** The sender of a message. *)
Record FromStruct : Type := MkFrom {
  from_id : string;
  network_source_key : NetworkEndpoint
}.

(** [Response]: pushed on the dispatch's accumulator, sent back to the sender.
    [Send]: sent at once to a network endpoint.  [MutexSend]: sent by the mutex.
    [OnMessage], [Listening]: the application's callbacks.  [RegisterIp],
    [InitializeRelay], [RegisterWithRelay]: calls of the engine that go over the
    network.  The rest are threads: [RippleLater] ripples the payload after three
    seconds, [SendLater] sends it after ten, [RegisterFullCone] runs
    [triangle_test3_thread], [TriangleLater] runs [post_triangle_relay_register], at
    once or after ten seconds. *)
Inductive output : Type :=
| Response (p : payload)
| Send (to : NetworkEndpoint) (id : string) (p : payload)
| MutexSend (m : send)
| OnMessage (sender_id handle : string) (p : payload)
| Listening (listening : bool) (t : NatType)
| RegisterIp (addr : SocketAddr) (am_relay : bool)
| InitializeRelay
| RegisterWithRelay
| RippleLater (p : payload) (originator : string)
| SendLater (to : NetworkEndpoint) (id : string) (p : payload)
| RegisterFullCone
| TriangleLater (delay_ms : Z).

(** What the answer to a status request was, as [on_relay_report_failed] sees it. *)
Inductive status_answer : Type :=
| NoAnswer
| StatusAnswer (s : RelayState)
| OtherAnswer.

Record env : Type := MkEnv {
  relay_permission : string -> option bool;
  handle_lookup_by_id : string -> option string;
  list_all_relays_found : list RelayInfo;
  ask_status : SocketAddr -> string -> status_answer;
  find_corner : string -> list SocketAddr -> option RelayInfo;
  register_ip_ok : SocketAddr -> bool -> bool
}.

Section Handlers.
(** The primitives of record verification, the text of an IPv6 address, and the
    mutex lease. *)
Context (to_vec : AdvertRecord -> list Z)
        (ed25519_verify : list Z -> list Z -> list Z -> bool)
        (valid_key : list Z -> bool)
        (base64_decode : string -> option (list Z))
        (address_to_byte_key : string -> option (list Z))
        (show_ipv6 : Z -> string) (lease : Z).

(** The surroundings, the clock and the random seed when a message is handled. *)
Section Moment.
Context (e : env) (now seed : Z).

Definition verify_record (r : AdvertRecord) : bool :=
  verify to_vec ed25519_verify valid_key base64_decode address_to_byte_key r.

Inductive RelayGate : Type := Allowed | Rejected.

Definition check_relay_allowed (id : string) : RelayGate :=
  match relay_permission e id with Some true => Allowed | _ => Rejected end.

Definition get_my_id (n : node) : option string := norm_id <$> issuer n.

(** ** Engine operations *)

(** The relays of the backend that have a usable address, other than this node and
    the originator. *)
Definition ripple_message (p : payload) (originator : string) (n : node) : list output :=
  match get_my_id n with
  | None => []
  | Some my_id =>
      let send_to id ep :=
        if decide (id = my_id \/ id = originator) then []
        else match inet_try_into ep with
             | Some addr => [Send (new_direct addr) id p]
             | None => []
             end in
      match mem_make_epoch_info now (backend n) with
      | (ids, Some endpoints) => mjoin (zip_with send_to ids endpoints)
      | (ids, None) =>
          mjoin ((fun id =>
            match mem_lookup now id (backend n) with
            | Some r => match endpoint r with Some ep => send_to id ep | None => [] end
            | None => []
            end) <$> ids)
      end
  end.

Definition ddb_upsert_record (r : AdvertRecord) (n : node) : node :=
  if negb (verify_record r) then n
  else if default false (am_relay r)
          && match check_relay_allowed (id r) with Rejected => true | Allowed => false end
  then n
  else set_backend (mem_upsert now r (backend n)) n.

Definition ddb_delete_record (id : string) (n : node) : node :=
  set_backend (mem_delete id (backend n)) n.

Definition relay_finder_remove_relay (id : string) (n : node) : node :=
  set_finder ((fun c => (delete_relay id c).1) <$> relay_finder n) n.

Definition relay_finder_clear_state_cache (n : node) : node :=
  set_finder (clear_state_cache <$> relay_finder n) n.

Definition mutex_call (h : InnerState -> InnerState * list send) (n : node)
  : node * list output :=
  match relay_init_mutex n with
  | None => (n, [])
  | Some m => let '(m, out) := h m in (set_mutex m n, MutexSend <$> out)
  end.

Definition relay_state_str (s : RelayState) : string :=
  match s with
  | Unknown => "unknown"
  | Off => "off"
  | Starting => "starting"
  | Loading => "loading"
  | Loaded => "loaded"
  | Available => "available"
  | Own => "own"
  end.

(** ** Plain text, pings, unknown messages *)

Definition to_application (from : FromStruct) (p : payload) : list output :=
  let sender_id := norm_id (from_id from) in
  match handle_lookup_by_id e sender_id with
  | Some h => [OnMessage sender_id h p]
  | None => []
  end.

Definition on_plain_text (r : router) (from : FromStruct) (p : payload) : list output :=
  if has_on_message r then to_application from p else [].

Definition on_ping_ping (r : router) (from : FromStruct) (text : option string) (n : node)
  : list output :=
  if has_sender r then
    match get_my_id n with
    | None => []
    | Some my_id =>
        [Send (network_source_key from) (norm_id (from_id from))
           (Typed (MPing (PingResponse my_id (last_response_tag r)
              (Some ("ACK: " +:+ default EmptyString text)))))]
    end
  else [].

Definition on_ping_response (r : router) (from : FromStruct) (response_tag : option string)
  (p : payload) : list output :=
  match response_tag with
  | None => if has_on_message r then to_application from p else []
  | Some _ => []
  end.

(** ** Relay messages *)

Definition on_relay_call (r : router) (from : FromStruct) (called_id : string) (n : node)
  : outcome (node * list output) :=
  if negb (r_am_relay r) then Returns (n, [])
  else
    match last_from r with
    | None => Returns (n, [])
    | Some src =>
        let called_id_raw := norm_id called_id in
        match turn_handler_relay n with
        | None => Panics
        | Some t =>
            match Relay.lookup_addr_by_id called_id_raw t with
            | None => Returns (n, [])
            | Some dest =>
                let '(t, ch) := Relay.handle_call seed (norm_id (from_id from)) called_id_raw src dest t in
                let n := set_turn_relay t n in
                if ch <? 0 then Returns (n, [])
                else
                  Returns (n,
                    (if has_sender r
                     then [Send (new_direct dest) called_id_raw
                             (Typed (MRelay (RelayCalled (wrap 16 ch))))]
                     else []) ++
                    [Response (Typed (MRelay (RelayResponse (Some ch) (last_response_tag r))))])
            end
        end
    end.

Definition on_relay_listen (r : router) (from : FromStruct) (n : node)
  : outcome (node * list output) :=
  if negb (r_am_relay r) then Returns (n, [])
  else
    match last_from r with
    | None => Returns (n, [])
    | Some src =>
        match turn_handler_relay n with
        | None => Panics
        | Some t =>
            let '(t, _) := Relay.handle_listen (norm_id (from_id from)) src t in
            Returns (set_turn_relay t n,
                     [Response (Typed (MRelay (ListenResponse (last_response_tag r))))])
        end
    end.

Definition on_relay_check (r : router) (from : FromStruct) (tag : option string) (n : node)
  : list output :=
  if negb (has_sender r) then [Response (FailMsg "no sender available" (last_response_tag r))]
  else
    [Send (network_source_key from) (norm_id (from_id from))
       (Typed (MRelay (CheckResponse (relay_state_str (node_relay_state n)) tag)))].

Definition on_relay_keep_alive (r : router) (from : FromStruct) (n : node)
  : outcome (node * list output) :=
  if negb (r_am_relay r) then Returns (n, [])
  else
    match last_from r with
    | None => Returns (n, [])
    | Some src =>
        match turn_handler_relay n with
        | None => Panics
        | Some t => Returns (set_turn_relay (Relay.handle_listen (norm_id (from_id from)) src t).1 n, [])
        end
    end.

Definition on_relay_called (r : router) (channel : Z) (n : node) : outcome (node * list output) :=
  match last_from r, last_public_addr n with
  | Some relay_addr, Some my_pub =>
      match turn_handler_client n with
      | None => Panics
      | Some t => Returns (set_turn_client (Client.handle_called relay_addr my_pub channel t) n, [])
      end
  | _, _ => Returns (n, [])
  end.

(** ** The triangle test *)

Fixpoint try_into_all (l : list InetSocketAddress) : option (list SocketAddr) :=
  match l with
  | [] => Some []
  | ep :: l =>
      match inet_try_into ep, try_into_all l with
      | Some a, Some l => Some (a :: l)
      | _, _ => None
      end
  end.

(** [send_triangle_test1_response]. *)
Definition triangle_test1_response (from : FromStruct) (no_corner : bool) (tag : option string)
  (send : NetworkEndpoint -> string -> payload -> output) : list output :=
  let uid := norm_id (from_id from) in
  if decide (uid = EmptyString) then []
  else [send (network_source_key from) uid
          (Typed (MRelay (TriangleTest1Response no_corner tag)))].

(** Asks another relay, a corner, to reach the endpoint, and answers in ten seconds;
    answers at once when there is no corner. *)
Definition on_triangle_test1 (from : FromStruct) (checking : InetSocketAddress)
  (do_not_use : list InetSocketAddress) (tag : option string) (n : node)
  : outcome (list output) :=
  match try_into_all do_not_use with
  | None => Panics
  | Some exclusions =>
      match get_my_id n with
      | None => Returns []
      | Some my_id =>
          match find_corner e my_id exclusions with
          | None => Returns (triangle_test1_response from true tag Send)
          | Some corner =>
              match address corner with
              | Panics => Panics
              | Returns addr =>
                  Returns (Send (new_direct addr) (relay_id_of corner)
                             (Typed (MRelay (TriangleTest2 my_id checking))) ::
                           triangle_test1_response from false tag SendLater)
              end
          end
      end
  end.

Definition on_triangle_test2 (checking_id : string) (checking : InetSocketAddress)
  : outcome (list output) :=
  match inet_try_into checking with
  | None => Panics
  | Some addr => Returns [Send (new_direct addr) (norm_id checking_id) (Typed (MRelay TriangleTest3))]
  end.

Definition on_triangle_test3 (n : node) : node * list output :=
  (set_life (set_nat_type FullCone (set_state_internal EndpointAvailable (life n))) n,
   [RegisterFullCone]).

(** The thread: registers the address, as a relay once it is one. *)
Definition triangle_test3_thread (is_relay_node : bool) (n : node) : node * list output :=
  match last_public_addr n with
  | None => (n, [])
  | Some addr =>
      if register_ip_ok e addr false then
        (set_life (set_state_internal Registered (life n)) n,
         RegisterIp addr false ::
         (if is_relay_node then [InitializeRelay; RegisterIp addr true] else []) ++
         [Listening true FullCone])
      else (n, [RegisterIp addr false])
  end.

Definition on_triangle_test1_response (no_corner : bool) : list output :=
  [TriangleLater (if no_corner then 0 else 10000)].

Definition post_triangle_relay_register (n : node) : node * list output :=
  let l := life n in
  let settled :=
    match engine_state l with EndpointAvailable | Registered => true | _ => false end
    && bool_decide (nat_type l <> NatUnknown) in
  if settled then (n, [])
  else (set_life (set_nat_type Restricted (set_state_internal NATRestricted l)) n, [RegisterWithRelay]).

(** ** DDB messages *)

(** What [relay_state_str] says, read back; anything unexpected is [Off]. *)
Definition parse_relay_state (s : string) : RelayState :=
  if String.eqb s "starting" then Starting
  else if String.eqb s "loading" then Loading
  else if String.eqb s "loaded" then Loaded
  else if String.eqb s "available" then Available
  else if String.eqb s "own" then Own
  else Off.

Definition on_ddb_get_relays_status (r : router) (epoch_id : Z) (tag : option string) (n : node)
  : list output :=
  if negb (r_am_relay r) then [Response (DdbFail "not a relay" (last_response_tag r))]
  else
    let responder := parse_relay_state (relay_state_str (node_relay_state n)) in
    if decide (responder <> Available) then [Response (DdbFail "relay not available" tag)]
    else if negb (has_backend r) then [Response (DdbFail "no ddb backend" (last_response_tag r))]
    else
      let '(ids, endpoints) := mem_make_epoch_info now (backend n) in
      [Response (Typed (MDdb (RelaysStatusResponse epoch_id 2
         (MkStatus ids (replicate (length ids) responder) endpoints responder) tag)))].

Definition init_payload (m : init_message) : payload :=
  match m with
  | InitResponse count tag => Typed (MDdb (DdbInitResponse count tag))
  | DumpResolve r => Typed (MDdb (DdbDumpResolve r None None))
  end.

Definition on_ddb_init_resolve (r : router) (from : FromStruct) (tag : option string) (n : node)
  : list output :=
  if negb (r_am_relay r) then []
  else if negb (has_sender r) then []
  else if negb (has_backend r) then []
  else (fun m => Send (network_source_key from) (norm_id (from_id from)) (init_payload m))
         <$> handle_init now tag (backend n).

Definition on_ddb_upsert_resolve (r : router) (from : FromStruct) (up : DdbUpsertResolve) (n : node)
  : node * list output :=
  let sender_id := norm_id (from_id from) in
  if negb (r_am_relay r) then (n, [])
  else if decide (id (up_record up) <> up_start_id up) then (n, [])
  else if negb (up_rippled up) && bool_decide (id (up_record up) <> sender_id) then (n, [])
  else if decide (up_tag up = None) then (n, [])
  else if negb (verify_record (up_record up)) then (n, [])
  else if default false (am_relay (up_record up))
          && match check_relay_allowed (id (up_record up)) with Rejected => true | Allowed => false end
  then (n, [])
  else
    let n := if has_backend r then set_backend (mem_upsert now (up_record up) (backend n)) n else n in
    if up_rippled up then (n, [])
    else
      (n, (if has_backend r
           then ripple_message (Typed (MDdb (UpsertResolve (set_up_rippled up)))) (up_start_id up) n
           else []) ++
          [Response (Typed (MDdb (UpdateResponse (up_tag up))))]).

Definition on_ddb_delete_resolve (r : router) (from : FromStruct) (m : DdbDeleteResolve) (n : node)
  : node * list output :=
  let sender_id := norm_id (from_id from) in
  if negb (r_am_relay r) then (n, [])
  else if negb (del_rippled m) && bool_decide (del_start_id m <> sender_id) then (n, [])
  else
    let mismatch :=
      match mem_lookup now (del_start_id m) (backend n) with
      | Some rec => negb (del_rippled m) && bool_decide (id rec <> sender_id)
      | None => false
      end in
    if has_backend r && mismatch then (n, [])
    else
      let n := if has_backend r then set_backend (mem_delete (del_start_id m) (backend n)) n else n in
      (n, [Response (Typed (MDdb (UpdateResponse (del_tag m))))] ++
          (if negb (del_rippled m) && has_backend r
           then ripple_message (Typed (MDdb (DeleteResolve (set_del_rippled m)))) (del_start_id m) n
           else [])).

Definition on_ddb_signoff (r : router) (from : FromStruct) (m : DdbSignoff) (n : node)
  : node * list output :=
  let sender_id := norm_id (from_id from) in
  if negb (r_am_relay r) then (n, [])
  else if negb (off_rippled m) && bool_decide (off_start_id m <> sender_id) then (n, [])
  else
    let sender_ep := inet_from show_ipv6 <$> inet_socket_address (network_source_key from) in
    let refused :=
      match mem_lookup now (off_start_id m) (backend n) with
      | Some rec =>
          if off_rippled m then false
          else if bool_decide (id rec <> sender_id) then true
          else match endpoint rec with
               | Some reg_ep => bool_decide (sender_ep <> Some reg_ep)
               | None => false
               end
      | None => false
      end in
    if has_backend r && refused then (n, [])
    else
      let n := if has_backend r then set_backend (mem_delete (off_start_id m) (backend n)) n else n in
      let n := relay_finder_clear_state_cache n in
      (n, if negb (off_rippled m) && has_backend r
          then ripple_message (Typed (MDdb (Signoff (set_off_rippled m)))) (off_start_id m) n
          else []).

Definition on_ddb_query_resolve (r : router) (qid : string) (tag : option string) (n : node)
  : list output :=
  if negb (r_am_relay r) then []
  else
    let advert := if has_backend r then mem_lookup now qid (backend n) else None in
    [Response (Typed (MDdb (QueryResponse (bool_decide (is_Some advert)) advert None tag)))].

Definition on_ddb_dump_resolve (from : FromStruct) (rec : AdvertRecord) (n : node)
  : node * list output :=
  let n := ddb_upsert_record rec n in
  if decide (peer_ddb_records n = Some (mem_len now (backend n))) then
    match get_my_id n with
    | None => (n, [])
    | Some my_id =>
        (n, [Send (network_source_key from) (norm_id (from_id from))
               (Typed (MDdb (Signon (MkSignon my_id None (Some false) None None))))])
    end
  else (n, []).

Definition on_ddb_signon_response (n : node) : node := set_signon_complete true n.

Definition on_ddb_signon (r : router) (from : FromStruct) (m : DdbSignon) : list output :=
  if negb (r_am_relay r) then []
  else if decide (on_rippled m <> Some true /\ on_start_id m <> norm_id (from_id from)) then []
  else
    [Response (Typed (MDdb (SignonResponse None (on_tag m))))] ++
    (if decide (on_rippled m <> Some true)
     then [RippleLater (Typed (MDdb (Signon (set_on_rippled m)))) (on_start_id m)] else []).

(** ** Reports of failed relays *)

Definition mark_relay_as_failed (rid : string) (n : node) : node :=
  relay_finder_remove_relay rid (ddb_delete_record rid n).

(** The relay is asked for its status, unless it is not known. *)
Definition failure_confirmed (rid : string) : outcome bool :=
  match list_find (fun i => relay_id_of i = rid) (list_all_relays_found e) with
  | None => Returns true
  | Some (_, i) =>
      match address i with
      | Panics => Panics
      | Returns addr =>
          Returns (match ask_status e addr rid with
                   | NoAnswer | OtherAnswer => true
                   | StatusAnswer s => bool_decide (s <> Available)
                   end)
      end
  end.

Definition on_relay_report_failed (r : router) (m : FailReport) (n : node)
  : outcome (node * list output) :=
  match failure_confirmed (failed_relay_id m) with
  | Panics => Panics
  | Returns false => Returns (n, [])
  | Returns true =>
      let n := mark_relay_as_failed (failed_relay_id m) n in
      let ripple := MkReport None None (failed_relay_id m) (fail_type m) (rf_timestamp m) [] [] in
      Returns (n, if has_backend r
                  then ripple_message (Typed (MReportFail (ReportFailedRipple ripple)))
                         (failed_relay_id m) n
                  else [])
  end.

Definition on_report_failed_ripple (from : FromStruct) (m : FailReport) (n : node) : node :=
  if existsb (fun i => String.eqb (relay_id_of i) (norm_id (from_id from))) (list_all_relays_found e)
  then mark_relay_as_failed (failed_relay_id m) n else n.

Definition on_report_fail (r : router) (from : FromStruct) (m : ReportFailMessage) (n : node)
  : outcome (node * list output) :=
  if negb (r_am_relay r) then Returns (n, [])
  else
    match m with
    | RelayReportFailed m => on_relay_report_failed r m n
    | ReportFailedRipple m => Returns (on_report_failed_ripple from m n, [])
    | _ => Returns (n, [])
    end.

(** ** Dispatch *)

Definition dispatch_relay (r : router) (from : FromStruct) (m : RelayMessage) (n : node)
  : outcome (node * list output) :=
  match m with
  | Call called_id _ => on_relay_call r from called_id n
  | Listen _ => on_relay_listen r from n
  | RelayCheck tag => Returns (n, on_relay_check r from tag n)
  | KeepAlive => on_relay_keep_alive r from n
  | RelayCalled ch => on_relay_called r ch n
  | TriangleTest1 checking do_not_use tag =>
      match on_triangle_test1 from checking do_not_use tag n with
      | Returns out => Returns (n, out)
      | Panics => Panics
      end
  | TriangleTest2 checking_id checking =>
      match on_triangle_test2 checking_id checking with
      | Returns out => Returns (n, out)
      | Panics => Panics
      end
  | TriangleTest3 => Returns (on_triangle_test3 n)
  | TriangleTest1Response no_corner _ => Returns (n, on_triangle_test1_response no_corner)
  | RelayResponse _ _ | ListenResponse _ | CheckResponse _ _ => Returns (n, [])
  end.

(** A [DeleteResolve] falls in the default branch: it is only logged. *)
Definition dispatch_ddb (r : router) (from : FromStruct) (m : DdbMessage) (n : node)
  : node * list output :=
  match m with
  | UpsertResolve m => on_ddb_upsert_resolve r from m n
  | QueryResolve qid tag => (n, on_ddb_query_resolve r qid tag n)
  | InitResolve tag _ => (n, on_ddb_init_resolve r from tag n)
  | DdbDumpResolve rec _ _ => on_ddb_dump_resolve from rec n
  | GetRelaysStatus epoch tag => (n, on_ddb_get_relays_status r epoch tag n)
  | Signon m => (n, on_ddb_signon r from m)
  | SignonResponse _ _ => (on_ddb_signon_response n, [])
  | Signoff m => on_ddb_signoff r from m n
  | _ => (n, [])
  end.

Definition dispatch_message (r : router) (from : FromStruct) (m : Message) (n : node)
  : outcome (node * list output) :=
  match m with
  | PlainText _ => Returns (n, on_plain_text r from (Typed m))
  | UnknownMessage _ => Returns (n, on_plain_text r from (Typed m))
  | MPing (Ping _ _ text) => Returns (n, on_ping_ping r from text n)
  | MPing (PingResponse _ tag _) => Returns (n, on_ping_response r from tag (Typed m))
  | MRelay m => dispatch_relay r from m n
  | MDdb m => Returns (dispatch_ddb r from m n)
  | MMutex (MRequest q) =>
      Returns (mutex_call (handle_request (default EmptyString (get_my_id n)) lease now (from_id from) q) n)
  | MMutex (MReply q) =>
      Returns (mutex_call (handle_reply (default EmptyString (get_my_id n)) (from_id from) q) n)
  | MMutex (MRelease q) =>
      Returns (mutex_call (handle_release (default EmptyString (get_my_id n)) lease now (from_id from) q) n)
  | MReportFail m => on_report_fail r from m n
  end.

(** ** What may change the database *)

(** The record [s] may be stored now: it verifies, and the chain permits it to be a
    relay if it says so. *)
Definition acceptable (s : StoredRecord) : Prop :=
  received s = now /\ verify_record (record s) = true /\
  (is_relay_record (record s) = true -> relay_permission e (id (record s)) = Some true).

(** The sender may store [rec]: its own record, or one another relay passed on. *)
Inductive may_store (from : FromStruct) (rec : AdvertRecord) : Message -> Prop :=
| store_own up : up_record up = rec -> up_rippled up = false ->
    norm_id (from_id from) = id rec -> may_store from rec (MDdb (UpsertResolve up))
| store_rippled up : up_record up = rec -> up_rippled up = true ->
    may_store from rec (MDdb (UpsertResolve up))
| store_dump tag tag' : may_store from rec (MDdb (DdbDumpResolve rec tag tag')).

(** The message may remove the record of [i]. *)
Inductive may_remove (from : FromStruct) (i : string) (n : node) : Message -> Prop :=
| remove_own so : off_start_id so = i -> off_rippled so = false -> norm_id (from_id from) = i ->
    (forall rec ep, mem_lookup now i (backend n) = Some rec -> endpoint rec = Some ep ->
       inet_from show_ipv6 <$> inet_socket_address (network_source_key from) = Some ep) ->
    may_remove from i n (MDdb (Signoff so))
| remove_rippled so : off_start_id so = i -> off_rippled so = true ->
    may_remove from i n (MDdb (Signoff so))
| remove_unlisted rep : failed_relay_id rep = i ->
    Forall (fun x => relay_id_of x <> i) (list_all_relays_found e) ->
    may_remove from i n (MReportFail (RelayReportFailed rep))
| remove_unreachable rep x addr : failed_relay_id rep = i ->
    x ∈ list_all_relays_found e -> relay_id_of x = i -> address x = Returns addr ->
    ask_status e addr i <> StatusAnswer Available ->
    may_remove from i n (MReportFail (RelayReportFailed rep))
| remove_relayed rep : failed_relay_id rep = i ->
    (exists x, x ∈ list_all_relays_found e /\ relay_id_of x = norm_id (from_id from)) ->
    may_remove from i n (MReportFail (ReportFailedRipple rep)).

(** How a database may differ from the one before at [i]. *)
Definition authorised (from : FromStruct) (m : Message) (n : node)
  (old new : gmap string StoredRecord) : Prop :=
  forall i, new !! i <> old !! i ->
  match new !! i with
  | Some s => id (record s) = i /\ acceptable s /\ may_store from (record s) m
  | None => may_remove from i n m
  end.

Lemma authorised_same from m n db : authorised from m n db db.
Proof using. intros i. done. Qed.

Lemma authorised_insert from m n r db :
  verify_record r = true ->
  (is_relay_record r = true -> relay_permission e (id r) = Some true) ->
  may_store from r m -> authorised from m n db (<[id r := MkStored r now]> db).
Proof using.
  intros Hv Hr Hm i Hi. destruct (decide (i = id r)) as [->|Hne].
  - rewrite lookup_insert_eq. by split_and!.
  - by rewrite lookup_insert_ne in Hi.
Qed.

Lemma authorised_delete from m n i db :
  may_remove from i n m -> authorised from m n db (base.delete i db).
Proof using.
  intros Hm j Hj. destruct (decide (i = j)) as [->|Hne].
  - by rewrite lookup_delete_eq.
  - by rewrite lookup_delete_ne in Hj.
Qed.

Lemma gate_open r :
  default false (am_relay r)
    && match check_relay_allowed (id r) with Rejected => true | Allowed => false end = false ->
  is_relay_record r = true -> relay_permission e (id r) = Some true.
Proof using.
  unfold is_relay_record, check_relay_allowed. intros H Hr. rewrite Hr in H. simpl in H.
  by destruct (relay_permission e (id r)) as [[]|].
Qed.

Lemma upsert_authorised r from up n n' out :
  on_ddb_upsert_resolve r from up n = (n', out) ->
  authorised from (MDdb (UpsertResolve up)) n (db_map (backend n)) (db_map (backend n')).
Proof using.
  unfold on_ddb_upsert_resolve. intros H.
  destruct (r_am_relay r); simpl in H; [|injection H as <- <-; apply authorised_same].
  case_decide as Hid; [injection H as <- <-; apply authorised_same|].
  destruct (negb (up_rippled up) && _) eqn:Hs; [injection H as <- <-; apply authorised_same|].
  case_decide; [injection H as <- <-; apply authorised_same|].
  destruct (verify_record (up_record up)) eqn:Hv; simpl in H; [|injection H as <- <-; apply authorised_same].
  destruct (default false _ && _) eqn:Hg; [injection H as <- <-; apply authorised_same|].
  assert (authorised from (MDdb (UpsertResolve up)) n (db_map (backend n))
    (<[id (up_record up) := MkStored (up_record up) now]> (db_map (backend n)))) as Hok.
  { apply authorised_insert; [done|by apply gate_open|].
    destruct (up_rippled up) eqn:Er; [by eapply store_rippled|].
    apply store_own; [done|done|]. simpl in Hs. by case_bool_decide. }
  destruct (has_backend r), (up_rippled up); injection H as <- <-; done || apply authorised_same.
Qed.

Lemma dump_authorised from rec n n' out tag tag' :
  on_ddb_dump_resolve from rec n = (n', out) ->
  authorised from (MDdb (DdbDumpResolve rec tag tag')) n (db_map (backend n)) (db_map (backend n')).
Proof using.
  unfold on_ddb_dump_resolve. intros H.
  assert (n' = ddb_upsert_record rec n) as ->.
  { destruct (decide _); [destruct (get_my_id _)|]; by injection H. }
  clear H. unfold ddb_upsert_record.
  destruct (verify_record rec) eqn:Hv; simpl; [|apply authorised_same].
  destruct (default false _ && _) eqn:Hg; [apply authorised_same|].
  apply authorised_insert; [done|by apply gate_open|apply store_dump].
Qed.

Lemma signoff_authorised r from so n n' out :
  on_ddb_signoff r from so n = (n', out) ->
  authorised from (MDdb (Signoff so)) n (db_map (backend n)) (db_map (backend n')).
Proof using.
  unfold on_ddb_signoff. intros H.
  destruct (r_am_relay r); simpl in H; [|injection H as <- <-; apply authorised_same].
  destruct (negb (off_rippled so) && _) eqn:Hs; [injection H as <- <-; apply authorised_same|].
  destruct (has_backend r); simpl in H; [|injection H as <- <-; apply authorised_same].
  destruct (match mem_lookup _ _ _ with Some _ => _ | None => _ end) eqn:Hr;
    [injection H as <- <-; apply authorised_same|].
  injection H as <- <-. cbn. apply authorised_delete.
  destruct (off_rippled so) eqn:Er; [by apply remove_rippled|].
  simpl in Hs. case_bool_decide as Hb; [done|].
  apply remove_own; [done|done|done|].
  intros rec ep Hl Hep. rewrite Hl, Hep in Hr. destruct (bool_decide (id rec <> _)); [done|].
  by case_bool_decide.
Qed.

Lemma marked_failed_db rid n : db_map (backend (mark_relay_as_failed rid n)) = base.delete rid (db_map (backend n)).
Proof using. done. Qed.

(** When a report is acted on: the relay is not listed, or it does not answer that it
    is available. *)
Lemma failure_confirmed_cases i :
  failure_confirmed i = Returns true ->
  Forall (fun x => relay_id_of x <> i) (list_all_relays_found e) \/
  exists x addr, x ∈ list_all_relays_found e /\ relay_id_of x = i /\ address x = Returns addr /\
    ask_status e addr i <> StatusAnswer Available.
Proof using.
  unfold failure_confirmed. destruct (list_find _ _) as [[k x]|] eqn:E.
  - apply list_find_Some in E as (Hk & Hid & _). destruct (address x) as [addr|] eqn:Ea; [|done].
    intros [= Hs]. right. exists x, addr. split_and!; [by eapply list_elem_of_lookup_2|done|done|].
    intros Hans. rewrite Hans in Hs. by case_bool_decide.
  - intros _. left. by apply (proj1 (list_find_None _ _)) in E.
Qed.

Lemma report_authorised r from m n n' out :
  on_report_fail r from m n = Returns (n', out) ->
  authorised from (MReportFail m) n (db_map (backend n)) (db_map (backend n')).
Proof using.
  unfold on_report_fail. intros H.
  destruct (r_am_relay r); simpl in H; [|injection H as <- <-; apply authorised_same].
  destruct m as [m|m|m|m]; try (injection H as <- <-; apply authorised_same).
  - unfold on_relay_report_failed in H. destruct (failure_confirmed _) as [[]|] eqn:Hf; [| |done].
    + injection H as <- <-. rewrite marked_failed_db. apply authorised_delete.
      apply failure_confirmed_cases in Hf as [Hf|(x & addr & Hx & Hid & Ha & Hs)];
        [by apply remove_unlisted|by eapply remove_unreachable].
    + injection H as <- <-. apply authorised_same.
  - injection H as <- <-. unfold on_report_failed_ripple.
    destruct (existsb _ _) eqn:Ex; [|apply authorised_same].
    rewrite marked_failed_db. apply authorised_delete. eapply remove_relayed; [done|].
    apply existsb_exists in Ex as (x & Hx & Ex). exists x.
    split; [by apply list_elem_of_In|by apply String.eqb_eq].
Qed.

Lemma relay_backend r from m n n' out :
  dispatch_relay r from m n = Returns (n', out) -> backend n' = backend n.
Proof using.
  intros H.
  destruct m; simpl in H; unfold on_relay_call, on_relay_listen, on_relay_keep_alive, on_relay_called in H;
    repeat case_match; by simplify_eq.
Qed.

Lemma mutex_backend h n n' out : mutex_call h n = (n', out) -> backend n' = backend n.
Proof using.
  unfold mutex_call. destruct (relay_init_mutex n); [destruct (h _)|]; by intros [= <- <-].
Qed.

Lemma dispatch_authorised r from m n n' out :
  dispatch_message r from m n = Returns (n', out) ->
  authorised from m n (db_map (backend n)) (db_map (backend n')).
Proof using.
  destruct m as [t|m|m|[]|[]|m|raw]; simpl; intros H.
  all: try (injection H as <- <-; apply authorised_same).
  - apply relay_backend in H as ->. apply authorised_same.
  - injection H as H. destruct m; simpl in H;
      try (injection H as <- <-; apply authorised_same).
    + by eapply upsert_authorised.
    + by eapply signoff_authorised.
    + by eapply dump_authorised.
  - injection H as H. apply mutex_backend in H as ->. apply authorised_same.
  - injection H as H. apply mutex_backend in H as ->. apply authorised_same.
  - injection H as H. apply mutex_backend in H as ->. apply authorised_same.
  - by eapply report_authorised.
Qed.

(** Handlers change the records of the database, not its time to live nor whose it is. *)
Lemma dispatch_settings r from m n n' out :
  dispatch_message r from m n = Returns (n', out) ->
  advert_ttl (backend n') = advert_ttl (backend n) /\ own_id (backend n') = own_id (backend n).
Proof using.
  destruct m as [t|m|m|[]|[]|m|raw]; simpl; intros H; try (injection H as <- <-; done).
  - by apply relay_backend in H as ->.
  - injection H as H. destruct m; simpl in H;
      unfold on_ddb_upsert_resolve, on_ddb_signoff, on_ddb_dump_resolve, ddb_upsert_record in H;
      repeat case_match; by simplify_eq.
  - injection H as H. by apply mutex_backend in H as ->.
  - injection H as H. by apply mutex_backend in H as ->.
  - injection H as H. by apply mutex_backend in H as ->.
  - unfold on_report_fail, on_relay_report_failed, on_report_failed_ripple in H.
    repeat case_match; by simplify_eq.
Qed.

(** (C2) Authority over the database: whatever message a node dispatches, from whatever
    sender, each record of its DDB that changed was either stored, verified and, if
    it says it is a relay, permitted on the chain, by its owner, by an upsert
    passed on or by a peer's dump; or removed by a signoff of its owner from the
    endpoint it is registered with, by a signoff passed on, by a report that it has
    failed passed on by a listed relay, or by anyone's report that it has failed when
    it is a listed relay that did not answer, on being asked, that it is available,
    or when it is no listed relay at all.  The last case is what the code does: the
    advert of an ordinary node is removed on any sender's report, nothing being asked
    ([report_removes_client]). *)
Theorem dispatch_db_authority r from m n n' out :
  dispatch_message r from m n = Returns (n', out) ->
  authorised from m n (db_map (backend n)) (db_map (backend n')).
Proof using. apply dispatch_authorised. Qed.
End Moment.

(** An advert reaches the readers: a node's own upsert, signed, tagged and
    permitted if it is a relay's, is confirmed with its tag; from then on, until the
    advert expires, a query for the node, from any sender and with any tag, is
    answered with exactly that record. *)
Theorem upsert_then_query e1 t1 s1 r1 from1 up n e2 t2 s2 r2 from2 tag n1 out :
  r_am_relay r1 = true -> r_am_relay r2 = true -> has_backend r1 = true -> has_backend r2 = true ->
  id (up_record up) = up_start_id up -> up_start_id up = norm_id (from_id from1) ->
  up_rippled up = false -> up_tag up <> None -> verify_record (up_record up) = true ->
  (is_relay_record (up_record up) = true -> relay_permission e1 (up_start_id up) = Some true) ->
  dispatch_message e1 t1 s1 r1 from1 (MDdb (UpsertResolve up)) n = Returns (n1, out) ->
  is_expired (backend n) t2 (MkStored (up_record up) t1) = false ->
  Response (Typed (MDdb (UpdateResponse (up_tag up)))) ∈ out /\
  dispatch_message e2 t2 s2 r2 from2 (MDdb (QueryResolve (up_start_id up) tag)) n1 =
    Returns (n1, [Response (Typed (MDdb (QueryResponse true (Some (up_record up)) None tag)))]).
Proof using.
  intros Hr1 Hr2 Hb1 Hb2 Hid Hfrom Hrip Htag Hv Hg H Hexp. simpl in H.
  unfold on_ddb_upsert_resolve in H. rewrite Hr1, Hrip, Hv, Hb1 in H. simpl in H.
  rewrite decide_False in H by tauto. rewrite bool_decide_eq_false_2 in H by (rewrite Hid; tauto).
  rewrite decide_False in H by done.
  assert (default false (am_relay (up_record up)) && match check_relay_allowed e1 (id (up_record up)) with
    | Rejected => true | Allowed => false end = false) as Hgate.
  { unfold is_relay_record in Hg. destruct (default false (am_relay (up_record up))); [|done].
    unfold check_relay_allowed. by rewrite Hid, Hg. }
  rewrite Hgate in H. injection H as <- <-. split; [apply elem_of_app; right; by left|].
  simpl. unfold on_ddb_query_resolve. rewrite Hr2, Hb2. simpl.
  assert (mem_lookup t2 (up_start_id up) (mem_upsert t1 (up_record up) (backend n))
    = Some (up_record up)) as ->.
  { unfold mem_lookup, mem_upsert. simpl. rewrite Hid, lookup_insert_eq. cbn [record].
    change (is_expired (set_map _ _) t2 _) with (is_expired (backend n) t2 (MkStored (up_record up) t1)).
    by rewrite Hexp. }
  by rewrite bool_decide_eq_true_2 by eauto.
Qed.

(** A relay with a free channel answers a call for a registered node. *)
Lemma on_relay_call_answers seed r from called n t a b :
  r_am_relay r = true -> has_sender r = true -> last_from r = Some a ->
  turn_handler_relay n = Some t -> relay_wf t ->
  (exists ch, MIN_CH <= ch <= MAX_CH /\ ch_to_pair t !! ch = None) ->
  Relay.lookup_addr_by_id (norm_id called) t = Some b ->
  exists ch t',
    on_relay_call seed r from called n =
      Returns (set_turn_relay t' n,
        [Send (new_direct b) (norm_id called) (Typed (MRelay (RelayCalled ch)));
         Response (Typed (MRelay (RelayResponse (Some ch) (last_response_tag r))))]) /\
    MIN_CH <= ch <= MAX_CH /\ ch_to_pair t' !! ch = Some (a, b) /\ relay_wf t'.
Proof using.
  intros Hr Hsnd Ha Ht Hwf (free & Hfree & Hfn) Hl. unfold on_relay_call. rewrite Hr, Ha, Ht, Hl. simpl.
  destruct (Relay.handle_call seed (norm_id (from_id from)) (norm_id called) a b t) as [t' ch] eqn:Ec.
  pose proof (handle_call_wf _ _ _ _ _ _ _ _ Hwf Ec) as [Hwf' _].
  assert (MIN_CH <= ch <= MAX_CH /\ ch_to_pair t' !! ch = Some (a, b)) as [Hrange Hmap].
  { destruct (handle_call_cases _ _ _ _ _ _ _ _ Hwf Ec)
      as [[-> Hp]|[(_ & _ & Hn & _)|(_ & _ & Hrg & -> & _)]].
    - apply (wf_inverse _ Hwf) in Hp. split; [by eapply (wf_range _ Hwf)|done].
    - apply (alloc_channel_none _ _ Hn) in Hfree as [? Hx]. congruence.
    - split; [done|]. by rewrite lookup_insert_eq. }
  exists ch, t'. destruct (Z.ltb_spec ch 0) as [|_]; [unfold MIN_CH in *; lia|].
  rewrite Hsnd, wrap_small by (unfold in_width, MIN_CH, MAX_CH in *; lia).
  destruct Hrange. by split_and!.
Qed.

(** A call through a relay: after a client has sent [Listen] from the address [b], a
    [Call] for it from the address [a] is answered with a channel in the TURN range,
    as long as the relay has a free one; the called client is told the same channel
    at [b], and the relay maps the channel to the two addresses. *)
Theorem listen_then_call e1 t1 s1 r1 from1 tag1 e2 t2 s2 r2 from2 called tag2 n t a b n1 out1 :
  r_am_relay r1 = true -> r_am_relay r2 = true -> has_sender r2 = true ->
  last_from r1 = Some b -> last_from r2 = Some a ->
  turn_handler_relay n = Some t -> relay_wf t ->
  (exists ch, MIN_CH <= ch <= MAX_CH /\ ch_to_pair t !! ch = None) ->
  norm_id called = norm_id (from_id from1) ->
  dispatch_message e1 t1 s1 r1 from1 (MRelay (Listen tag1)) n = Returns (n1, out1) ->
  out1 = [Response (Typed (MRelay (ListenResponse (last_response_tag r1))))] /\
  exists ch n2 t2',
    dispatch_message e2 t2 s2 r2 from2 (MRelay (Call called tag2)) n1 =
      Returns (n2, [Send (new_direct b) (norm_id called) (Typed (MRelay (RelayCalled ch)));
                    Response (Typed (MRelay (RelayResponse (Some ch) (last_response_tag r2))))]) /\
    MIN_CH <= ch <= MAX_CH /\ turn_handler_relay n2 = Some t2' /\
    ch_to_pair t2' !! ch = Some (a, b) /\ relay_wf t2'.
Proof using.
  intros Hr1 Hr2 Hsnd Hb Ha Ht Hwf Hfree Hc H. simpl in H.
  unfold on_relay_listen in H. rewrite Hr1, Hb, Ht in H. simpl in H. injection H as <- <-.
  split; [done|]. set (t1' := allow (norm_id (from_id from1)) b t).
  assert (relay_wf t1') as Hwf1.
  { destruct Hwf as [W1 W2 W3]. split; [done|done|]. intros ch p []%W3. split; by apply registered_allow. }
  destruct (on_relay_call_answers s2 r2 from2 called (set_turn_relay t1' n) t1' a b)
    as (ch & t2' & E & Hrange & Hmap & Hwf2); try done.
  { unfold Relay.lookup_addr_by_id. simpl. by rewrite Hc, lookup_insert_eq. }
  exists ch, (set_turn_relay t2' (set_turn_relay t1' n)), t2'. rewrite <- E. destruct Hrange.
  by split_and!.
Qed.

(** A signoff that says it was passed on is believed whoever sends it: any
    sender, relay or not, removes the advert of any node from a relay. *)
Theorem rippled_signoff_unchecked e t s r from victim tag tag' n :
  r_am_relay r = true -> has_backend r = true ->
  exists n' out, dispatch_message e t s r from
      (MDdb (Signoff (MkSignoff victim true tag tag'))) n = Returns (n', out) /\
    mem_lookup t victim (backend n') = None.
Proof using.
  intros Hr Hb. simpl. unfold on_ddb_signoff. rewrite Hr, Hb. simpl.
  destruct (mem_lookup t victim (backend n)); simpl.
  all: eexists _, _; split; [reflexivity|]; unfold mem_lookup; simpl; by rewrite lookup_delete_eq.
Qed.

(** A report that an ordinary node has failed is acted on whoever sends it: the node
    is in no list of relays, so nobody is asked and its advert is removed. *)
Theorem report_removes_client e t s r from victim rep n :
  r_am_relay r = true -> failed_relay_id rep = victim ->
  Forall (fun x => relay_id_of x <> victim) (list_all_relays_found e) ->
  exists n' out, dispatch_message e t s r from (MReportFail (RelayReportFailed rep)) n = Returns (n', out) /\
    mem_lookup t victim (backend n') = None.
Proof using.
  intros Hr Hv Hl. simpl. unfold on_report_fail. rewrite Hr. simpl.
  unfold on_relay_report_failed, failure_confirmed. rewrite Hv, (proj2 (list_find_None _ _) Hl).
  eexists _, _. split; [reflexivity|]. unfold mem_lookup. rewrite marked_failed_db.
  by rewrite lookup_delete_eq.
Qed.

(** A delete is never carried out: the handler for it would remove the sender's own
    advert and confirm, but a dispatched [DeleteResolve] changes nothing and is not
    answered, so the requester's advert stays until it expires. *)
Theorem delete_not_dispatched e t s r from m n :
  dispatch_message e t s r from (MDdb (DeleteResolve m)) n = Returns (n, []) /\
  (r_am_relay r = true -> has_backend r = true -> db_wf (backend n) ->
   del_start_id m = norm_id (from_id from) ->
   mem_lookup t (del_start_id m) (backend (on_ddb_delete_resolve t r from m n).1) = None /\
   Response (Typed (MDdb (UpdateResponse (del_tag m)))) ∈ (on_ddb_delete_resolve t r from m n).2).
Proof using.
  split; [done|]. intros Hr Hb Hwf Hid. unfold on_ddb_delete_resolve. rewrite Hr, Hb. simpl.
  rewrite bool_decide_eq_false_2 by tauto. rewrite andb_false_r.
  replace (match mem_lookup t _ _ with Some _ => _ | None => _ end) with false.
  - simpl. unfold mem_lookup. simpl. rewrite lookup_delete_eq. split; [done|by left].
  - destruct (mem_lookup t (del_start_id m) (backend n)) as [rec|] eqn:E; [|done].
    rewrite bool_decide_eq_false_2; [by rewrite andb_false_r|]. intros Hne. apply Hne.
    rewrite <- Hid. by eapply (backend_lookup_id t (del_start_id m) (backend n)).
Qed.
End Handlers.

(** The triangle test's verdicts: a node that was reached from the corner
    (TriangleTest3) is full-cone with an available endpoint whether the fallback runs
    before or after, and the fallback then changes nothing; a node whose NAT type is
    unknown is classified as restricted and goes to a relay by the fallback, whatever
    flags an earlier registration left behind. *)
Theorem triangle_verdict n :
  let reached n := (on_triangle_test3 n).1 in
  let fallback n := (post_triangle_relay_register n).1 in
  post_triangle_relay_register (reached n) = (reached n, []) /\
  nat_type (life (reached n)) = FullCone /\ nat_type (life (reached (fallback n))) = FullCone /\
  engine_state (life (reached n)) ∈ [EndpointAvailable; Registered] /\
  engine_state (life (reached (fallback n))) ∈ [EndpointAvailable; Registered] /\
  (nat_type (life n) = NatUnknown ->
     nat_type (life (fallback n)) = Restricted /\
     (post_triangle_relay_register n).2 = [RegisterWithRelay]).
Proof.
  assert (forall l, engine_state (set_nat_type FullCone (set_state_internal EndpointAvailable l))
    ∈ [EndpointAvailable; Registered]) as Hs.
  { intros [? [] ? ? ?]; simpl; [right; left|left]. }
  intros reached fallback. unfold reached, fallback, post_triangle_relay_register.
  split_and!; try apply Hs; try done.
  - cbn [on_triangle_test3 fst life set_life]. pose proof (Hs (life n)) as H.
    destruct (engine_state _); try done;
      repeat (apply elem_of_cons in H as [[=]|H]); by apply not_elem_of_nil in H.
  - intros ->. rewrite bool_decide_eq_false_2 by tauto. rewrite andb_false_r. done.
Qed.

(** ** Concrete messages *)

Module HandlersExample.
Definition to_vec (r : AdvertRecord) : list Z := [].
Definition check (pk m s : list Z) : bool := true.
Definition valid_key (pk : list Z) : bool := true.
Definition decode64 (s : string) : option (list Z) := Some (replicate 64 0).
Definition address (i : string) : option (list Z) := Some [].
Definition show_ipv6 (z : Z) : string := EmptyString.
Definition surroundings : env := MkEnv (fun _ => Some true) (fun i => Some i) [] (fun _ _ => NoAnswer)
    (fun _ _ => None) (fun _ _ => true).
Definition alice : SocketAddr := SockAddr (V4 10 0 0 1) 5000.
Definition bob : SocketAddr := SockAddr (V4 10 0 0 2) 5001.
Definition router_for (a : SocketAddr) (tag : string) : router :=
  MkRouter (Some a) (Some tag) true true true true.
Definition relay : node :=
  MkNodeState (Some "R.") (with_advert_ttl (Some 600000)) (Some Relay.new) None (Some []) Available
    (Some (SockAddr (V4 1 2 3 4) 3478)) None false None
    (MkLifecycle true true false StunIdentify FullCone).
Definition alice_record : AdvertRecord :=
  MkAdvert "A" (Some (MkInet "10.0.0.1" 5000)) (Some false) None None "d" (Some "sig").
Definition alice_upsert : DdbUpsertResolve :=
  MkUpsert "A" 0 alice_record EmptyString false (Some "t1") None.
Definition from_alice : FromStruct := MkFrom "A." (new_direct alice).
Definition from_bob : FromStruct := MkFrom "B." (new_direct bob).
Definition dispatch (now : Z) :=
  dispatch_message to_vec check valid_key decode64 address show_ipv6 1000 surroundings now 7.
End HandlersExample.

Lemma dispatch_db_authority_witness :
  let n := HandlersExample.relay in
  let m := MDdb (UpsertResolve HandlersExample.alice_upsert) in
  exists n' out,
    HandlersExample.dispatch 5 (HandlersExample.router_for HandlersExample.alice "t1")
      HandlersExample.from_alice m n = Returns (n', out) /\
    db_map (backend n') !! "A" = Some (MkStored HandlersExample.alice_record 5) /\
    may_store HandlersExample.from_alice HandlersExample.alice_record m.
Proof.
  intros n m. eexists _, _. split; [reflexivity|]. split; [reflexivity|].
  refine (proj2 (proj2 (dispatch_db_authority HandlersExample.to_vec HandlersExample.check
    HandlersExample.valid_key HandlersExample.decode64 HandlersExample.address
    HandlersExample.show_ipv6 1000 HandlersExample.surroundings 5 7
    (HandlersExample.router_for HandlersExample.alice "t1") HandlersExample.from_alice m n _ _ eq_refl
    "A" _))).
  vm_compute. discriminate.
Defined.

Lemma upsert_then_query_witness :
  exists n1 out,
    HandlersExample.dispatch 5 (HandlersExample.router_for HandlersExample.alice "t1")
      HandlersExample.from_alice (MDdb (UpsertResolve HandlersExample.alice_upsert))
      HandlersExample.relay = Returns (n1, out) /\
    HandlersExample.dispatch 9000 (HandlersExample.router_for HandlersExample.bob "t2")
      HandlersExample.from_bob (MDdb (QueryResolve "A" (Some "t2"))) n1 =
    Returns (n1, [Response (Typed (MDdb (QueryResponse true (Some HandlersExample.alice_record) None
      (Some "t2"))))]).
Proof.
  eexists _, _. split; [reflexivity|].
  refine (proj2 (upsert_then_query HandlersExample.to_vec HandlersExample.check
    HandlersExample.valid_key HandlersExample.decode64 HandlersExample.address
    HandlersExample.show_ipv6 1000 HandlersExample.surroundings 5 7
    (HandlersExample.router_for HandlersExample.alice "t1") HandlersExample.from_alice
    HandlersExample.alice_upsert HandlersExample.relay HandlersExample.surroundings 9000 7
    (HandlersExample.router_for HandlersExample.bob "t2") HandlersExample.from_bob (Some "t2") _ _
    _ _ _ _ _ _ _ _ _ _ eq_refl _)); try reflexivity; try discriminate.
Defined.

Lemma listen_then_call_witness :
  exists n1 out1 ch n2 out2,
    HandlersExample.dispatch 5 (HandlersExample.router_for HandlersExample.bob "t1")
      HandlersExample.from_bob (MRelay (Listen (Some "t1"))) HandlersExample.relay = Returns (n1, out1) /\
    HandlersExample.dispatch 6 (HandlersExample.router_for HandlersExample.alice "t2")
      HandlersExample.from_alice (MRelay (Call "B" (Some "t2"))) n1 = Returns (n2, out2) /\
    Response (Typed (MRelay (RelayResponse (Some ch) (Some "t2")))) ∈ out2.
Proof.
  assert (exists n1 out1, HandlersExample.dispatch 5 (HandlersExample.router_for HandlersExample.bob "t1")
    HandlersExample.from_bob (MRelay (Listen (Some "t1"))) HandlersExample.relay = Returns (n1, out1))
    as (n1 & out1 & E) by (eexists _, _; reflexivity).
  exists n1, out1.
  destruct (listen_then_call HandlersExample.to_vec HandlersExample.check
    HandlersExample.valid_key HandlersExample.decode64 HandlersExample.address
    HandlersExample.show_ipv6 1000 HandlersExample.surroundings 5 7
    (HandlersExample.router_for HandlersExample.bob "t1") HandlersExample.from_bob (Some "t1")
    HandlersExample.surroundings 6 7 (HandlersExample.router_for HandlersExample.alice "t2")
    HandlersExample.from_alice "B" (Some "t2") HandlersExample.relay Relay.new HandlersExample.alice
    HandlersExample.bob n1 out1 eq_refl eq_refl eq_refl eq_refl eq_refl eq_refl relay_wf_new)
    as (_ & ch & n2 & t2 & H & _); [by exists MIN_CH|reflexivity|exact E|].
  exists ch, n2. eexists. split; [exact E|]. split; [exact H|]. right. left.
Defined.

Lemma rippled_signoff_unchecked_witness :
  exists n' out,
    HandlersExample.dispatch 5 (HandlersExample.router_for HandlersExample.bob "t")
      HandlersExample.from_bob (MDdb (Signoff (MkSignoff "A" true None None)))
      (set_backend (mem_upsert 0 HandlersExample.alice_record (with_advert_ttl None))
         HandlersExample.relay) = Returns (n', out) /\
    mem_lookup 5 "A" (backend n') = None.
Proof.
  refine (rippled_signoff_unchecked HandlersExample.to_vec HandlersExample.check
    HandlersExample.valid_key HandlersExample.decode64 HandlersExample.address
    HandlersExample.show_ipv6 1000 HandlersExample.surroundings 5 7
    (HandlersExample.router_for HandlersExample.bob "t") HandlersExample.from_bob "A" None None _ _ _);
  reflexivity.
Defined.

Lemma report_removes_client_witness :
  exists n' out,
    HandlersExample.dispatch 5 (HandlersExample.router_for HandlersExample.bob "t")
      HandlersExample.from_bob (MReportFail (RelayReportFailed (MkReport None None "A" EmptyString EmptyString [] [])))
      (set_backend (mem_upsert 0 HandlersExample.alice_record (with_advert_ttl None))
         HandlersExample.relay) = Returns (n', out) /\
    mem_lookup 5 "A" (backend n') = None.
Proof.
  refine (report_removes_client HandlersExample.to_vec HandlersExample.check
    HandlersExample.valid_key HandlersExample.decode64 HandlersExample.address
    HandlersExample.show_ipv6 1000 HandlersExample.surroundings 5 7
    (HandlersExample.router_for HandlersExample.bob "t") HandlersExample.from_bob "A"
    (MkReport None None "A" EmptyString EmptyString [] []) _ _ _ _); [reflexivity|reflexivity|apply Forall_nil; done].
Defined.
