(* ===== verification/EngineIo.v ===== *)
(** * The engine's traffic

    Models the inbound path of [src/bingle_core/src/engine/mod.rs]
    ([install_dtls_handler], [route_incoming], [record_peer_refusal]), the requests
    waiting for a response, [send_to_peer], the router's shared fields
    ([Router::route_with_network] of [messages/router.rs]) and the connection a
    mutex reply is sent over ([relay_init_mutex.rs]).

    A message that is not a response is handled by a thread of its own: [receive]
    leaves it in [threads], [run_thread] runs it.  The router's fields, which
    [receive] overwrites, are read by the threads when they run; what happens
    between is what other threads do.  Payloads stand for their JSON form; a byte
    string that is not JSON is not modelled. *)
From S2P Require Import Prelude NetAddr Turn Mutex Advert Ddb RelayCache RelayUpdater.
From S2P Require Import Messages Handlers.

Local Open Scope Z_scope.

Definition REFUSAL_UNAUTHENTICATED : string := "unauthenticated".

(** In milliseconds. *)
Definition SEND_FAIL_BACKOFF : Z := 30000.

Record ConnectionEntry : Type := MkConnection {
  last_seen : Z;
  peer_id : option string
}.

Record EndpointStatus : Type := MkStatusEntry {
  last_checked_timestamp : Z;
  is_working : bool
}.

Record ResponseWait : Type := MkWait {
  wait_responded : bool;
  wait_response : option payload
}.

#[export] Instance InetSocketAddress_countable : Countable InetSocketAddress.
Proof.
  apply (inj_countable' (fun a => (host a, inet_port a)) (fun p => MkInet p.1 p.2)). by intros [].
Defined.

Record engine : Type := MkEngine {
  eng_node : node;
  eng_router : router;
  connections : gmap NetworkEndpointKey ConnectionEntry;
  endpoint_status : gmap NetworkEndpointKey EndpointStatus;
  seen_endpoints : gset InetSocketAddress;
  pending_responses : gmap Z ResponseWait;
  peer_refusals : list (string * string);
  threads : list (FromStruct * Message)
}.

Definition set_node (n : node) (g : engine) : engine :=
  MkEngine n (eng_router g) (connections g) (endpoint_status g) (seen_endpoints g)
    (pending_responses g) (peer_refusals g) (threads g).
Definition set_router (r : router) (g : engine) : engine :=
  MkEngine (eng_node g) r (connections g) (endpoint_status g) (seen_endpoints g)
    (pending_responses g) (peer_refusals g) (threads g).
Definition set_connections (c : gmap NetworkEndpointKey ConnectionEntry) (g : engine) : engine :=
  MkEngine (eng_node g) (eng_router g) c (endpoint_status g) (seen_endpoints g)
    (pending_responses g) (peer_refusals g) (threads g).
Definition set_status (c : gmap NetworkEndpointKey EndpointStatus) (g : engine) : engine :=
  MkEngine (eng_node g) (eng_router g) (connections g) c (seen_endpoints g)
    (pending_responses g) (peer_refusals g) (threads g).
Definition set_seen (c : gset InetSocketAddress) (g : engine) : engine :=
  MkEngine (eng_node g) (eng_router g) (connections g) (endpoint_status g) c
    (pending_responses g) (peer_refusals g) (threads g).
Definition set_pending (c : gmap Z ResponseWait) (g : engine) : engine :=
  MkEngine (eng_node g) (eng_router g) (connections g) (endpoint_status g) (seen_endpoints g)
    c (peer_refusals g) (threads g).
Definition set_refusals (c : list (string * string)) (g : engine) : engine :=
  MkEngine (eng_node g) (eng_router g) (connections g) (endpoint_status g) (seen_endpoints g)
    (pending_responses g) c (threads g).
Definition set_threads (c : list (FromStruct * Message)) (g : engine) : engine :=
  MkEngine (eng_node g) (eng_router g) (connections g) (endpoint_status g) (seen_endpoints g)
    (pending_responses g) (peer_refusals g) c.

(** ** Waiting for responses *)

Definition register_pending (tag : Z) (g : engine) : engine :=
  set_pending (<[tag := MkWait false None]> (pending_responses g)) g.

Definition remove_pending (tag : Z) (g : engine) : engine :=
  set_pending (base.delete tag (pending_responses g)) g.

(** [wait_for_response] when its wait ends, by a response or by the timeout: the
    response, if any, is taken and the waiter removed. *)
Definition end_wait (tag : Z) (g : engine) : engine * option payload :=
  match pending_responses g !! tag with
  | None => (g, None)
  | Some w => (remove_pending tag g, if wait_responded w then wait_response w else None)
  end.

(** ** Receiving *)

(** [Fail::reason_of]. *)
Fixpoint reason_of (p : payload) : option string :=
  match p with FailMsg reason _ => Some reason | WithTag _ p => reason_of p | _ => None end.

Definition record_peer_refusal (peer : string) (p : payload) (l : list (string * string))
  : list (string * string) :=
  match reason_of p with
  | Some reason =>
      if String.eqb reason REFUSAL_UNAUTHENTICATED
      then filter (fun r => r.1 <> peer) l ++ [(peer, reason)] else l
  | None => l
  end.

(** [from_json_str] on the payload: the failure objects are no typed messages. *)
Fixpoint decode_message (p : payload) : Message :=
  match p with
  | Typed m => m
  | FailMsg reason _ => UnknownMessage reason
  | DdbFail text _ => PlainText text
  | WithTag tag p => retag tag (decode_message p)
  end.

Section Traffic.
(** [Uuid::parse_str], as a number of 128 bits; whether this node is a relay. *)
Context (parse_uuid : string -> option Z) (am_relay : bool) (e : env).

(** The connection the sender is on, with its id. *)
Definition note_connection (now : Z) (k : NetworkEndpointKey) (sender_id : string) (g : engine)
  : engine :=
  let g := set_connections (<[k := MkConnection now (Some sender_id)]> (connections g)) g in
  set_status (<[k := MkStatusEntry now true]> (endpoint_status g)) g.

(** The context of the message for the handlers: overwrites the one before. *)
Definition bind_router (from : NetworkEndpoint) (p : payload) (g : engine) : engine :=
  let r := eng_router g in
  set_router (MkRouter (inet_socket_address from) (request_tag p) am_relay (has_sender r)
                (has_on_message r) true) g.

(** A response is for its waiter only. *)
Definition fulfil (tag : string) (p : payload) (g : engine) : engine * result unit string :=
  match parse_uuid tag with
  | None => (g, Err "invalid responseTag")
  | Some u =>
      match pending_responses g !! u with
      | Some _ => (set_pending (<[u := MkWait true (Some p)]> (pending_responses g)) g, Ok tt)
      | None => (g, Ok tt)
      end
  end.

Definition receive (now : Z) (from : NetworkEndpoint) (iss : string) (p : payload) (g : engine)
  : outcome (engine * list output * result unit string) :=
  let sender_id := norm_id iss in
  match handle_lookup_by_id e sender_id with
  | None =>
      Returns (g,
        match request_tag p with
        | Some tag => [Send from sender_id (FailMsg REFUSAL_UNAUTHENTICATED (Some tag))]
        | None => []
        end, Ok tt)
  | Some _ =>
      match get_key from with
      | Panics | Returns None => Panics
      | Returns (Some k) =>
          let g := bind_router from p (note_connection now k sender_id g) in
          match response_tag_of p with
          | Some tag =>
              let g := set_refusals (record_peer_refusal sender_id p (peer_refusals g)) g in
              let '(g, r) := fulfil tag p g in Returns (g, [], r)
          | None =>
              Returns (set_threads (threads g ++ [(MkFrom iss from, decode_message p)]) g, [], Ok tt)
          end
      end
  end.
End Traffic.

(** ** Handler threads *)

(** The thread at [i] runs its handler with the router as it is now; [dispatch] is
    [dispatch_message] in its surroundings.  A panic ends the thread. *)
Definition run_thread (dispatch : router -> FromStruct -> Message -> node -> outcome (node * list output))
  (i : nat) (g : engine) : engine * list output :=
  match threads g !! i with
  | None => (g, [])
  | Some (from, m) =>
      let g := set_threads (base.delete i (threads g)) g in
      match dispatch (eng_router g) from m (eng_node g) with
      | Panics => (g, [])
      | Returns (n, out) => (set_node n g, out)
      end
  end.

(** The connection a peer was last seen on, for replies of the mutex. *)
Definition live_connection_endpoint (peer : string) (g : engine) : option NetworkEndpoint :=
  let on_peer := filter (fun p => peer_id p.2 = Some peer) (map_to_list (connections g)) in
  let latest := foldl (fun best p =>
    match best with
    | None => Some p
    | Some b => if last_seen b.2 <=? last_seen p.2 then Some p else best
    end) None on_peer in
  match latest with
  | Some (k, _) => new_direct <$> key_inet_socket_address k
  | None => None
  end.

(** ** Sending *)

(** [send_to_peer]; [res] is what the packet transport answers, which is asked only
    when the result says so. *)
Definition send_guard (now : Z) (to : NetworkEndpoint) (g : engine) : outcome (option string) :=
  if is_relay to && bool_decide (relay_channel to = None)
  then Returns (Some "rejecting incomplete relay endpoint")
  else if bool_decide (is_Some (inet_socket_address to))
          && bool_decide (last_public_addr (eng_node g) = inet_socket_address to)
  then Returns (Some "rejecting send to self")
  else
    match get_key to with
    | Panics => Panics
    | Returns None => Returns None
    | Returns (Some k) =>
        match endpoint_status g !! k with
        | Some s =>
            if negb (is_working s) && (Z.max 0 (now - last_checked_timestamp s) <? SEND_FAIL_BACKOFF)
            then Returns (Some "Sending is failing") else Returns None
        | None => Returns None
        end
    end.

Definition see_endpoint (show_ipv6 : Z -> string) (to : NetworkEndpoint) (g : engine) : engine :=
  match inet_socket_address to with
  | Some addr => set_seen ({[inet_from show_ipv6 addr]} ∪ seen_endpoints g) g
  | None => g
  end.

(** After the transport: the status of the endpoint, and the connection. *)
Definition note_sent (now : Z) (to : NetworkEndpoint) (res : result unit string) (g : engine)
  : outcome engine :=
  match get_key to with
  | Panics => Panics
  | Returns None => Returns g
  | Returns (Some k) =>
      let g := set_status (<[k := MkStatusEntry now (is_ok res)]> (endpoint_status g)) g in
      if is_ok res then
        let entry := match connections g !! k with
                     | Some c => MkConnection now (peer_id c)
                     | None => MkConnection now None
                     end in
        Returns (set_connections (<[k := entry]> (connections g)) g)
      else Returns g
  end.

Definition send_to_peer (show_ipv6 : Z -> string) (now : Z) (to : NetworkEndpoint) (res : result unit string) (g : engine)
  : outcome (engine * result unit string) :=
  match send_guard now to g with
  | Panics => Panics
  | Returns (Some err) => Returns (g, Err err)
  | Returns None =>
      let g := see_endpoint show_ipv6 to g in
      match note_sent now to res g with
      | Panics => Panics
      | Returns g => Returns (g, res)
      end
  end.

(** ** Sequences of events *)

Inductive io_event : Type :=
| EvReceive (now : Z) (from : NetworkEndpoint) (iss : string) (p : payload)
| EvThread (i : nat)
| EvSend (now : Z) (to : NetworkEndpoint) (res : result unit string)
| EvRegister (tag : Z)
| EvEndWait (tag : Z).

Section Runs.
Context (parse_uuid : string -> option Z) (am_relay : bool) (e : env) (show_ipv6 : Z -> string)
        (dispatch : router -> FromStruct -> Message -> node -> outcome (node * list output)).

(** A panic of a thread leaves the shared state as it was: on the inbound path and
    on the sending path it comes before any update. *)
Definition io_step (g : engine) (ev : io_event) : engine :=
  match ev with
  | EvReceive now from iss p =>
      match receive parse_uuid am_relay e now from iss p g with
      | Returns (g', _, _) => g'
      | Panics => g
      end
  | EvThread i => (run_thread dispatch i g).1
  | EvSend now to res =>
      match send_to_peer show_ipv6 now to res g with Returns (g', _) => g' | Panics => g end
  | EvRegister tag => register_pending tag g
  | EvEndWait tag => (end_wait tag g).1
  end.

Definition io_run (evs : list io_event) (g : engine) : engine := foldl io_step g evs.

(** The event is a response to the request [u], or touches its waiter. *)
Definition concerns (u : Z) (ev : io_event) : bool :=
  match ev with
  | EvReceive _ _ _ p =>
      match response_tag_of p with
      | Some tag => bool_decide (parse_uuid tag = Some u)
      | None => false
      end
  | EvRegister tag | EvEndWait tag => bool_decide (tag = u)
  | EvThread _ | EvSend _ _ _ => false
  end.

Lemma fulfil_pending_other u tag p g :
  parse_uuid tag <> Some u ->
  pending_responses (fulfil parse_uuid tag p g).1 !! u = pending_responses g !! u.
Proof using.
  intros Hu. unfold fulfil. destruct (parse_uuid tag) as [v|]; [|done].
  destruct (pending_responses g !! v); [|done]. simpl. rewrite lookup_insert_ne; [done|congruence].
Qed.

Lemma io_step_pending u g ev :
  concerns u ev = false -> pending_responses (io_step g ev) !! u = pending_responses g !! u.
Proof using.
  destruct ev as [now from iss p|i|now to res|tag|tag]; simpl; intros Hc.
  - unfold receive. destruct (handle_lookup_by_id e (norm_id iss)); [|done].
    destruct (get_key from) as [[k|]|]; [|done|done].
    destruct (response_tag_of p) as [tag|]; [|done].
    apply bool_decide_eq_false in Hc.
    set (g1 := set_refusals _ _). pose proof (fulfil_pending_other u tag p g1 Hc) as H.
    destruct (fulfil parse_uuid tag p g1) as [g2 r]. exact H.
  - unfold run_thread. destruct (threads g !! i) as [[from m]|]; [|done].
    by destruct (dispatch _ _ _ _) as [[n out]|].
  - unfold send_to_peer. destruct (send_guard now to g) as [[err|]|]; [done| |done].
    unfold see_endpoint, note_sent.
    destruct (get_key to) as [[k|]|], (inet_socket_address to), (is_ok res); done.
  - apply bool_decide_eq_false in Hc. simpl. by rewrite lookup_insert_ne.
  - apply bool_decide_eq_false in Hc. unfold end_wait.
    destruct (pending_responses g !! tag); [|done]. simpl. by rewrite lookup_delete_ne.
Qed.

Lemma io_run_pending u evs g :
  forallb (fun ev => negb (concerns u ev)) evs = true ->
  pending_responses (io_run evs g) !! u = pending_responses g !! u.
Proof using.
  revert g. induction evs as [|ev evs IH]; intros g; simpl; [done|].
  intros [Hc%negb_true_iff He]%andb_true_iff. rewrite IH by done. by apply io_step_pending.
Qed.

(** A response reaches the request that waits for it: between the registration of
    a request and the end of its wait, whatever else the node receives, handles and
    sends, the first authenticated message tagged as its response is what the wait
    returns, and the waiter is gone afterwards; without such a message the wait
    returns nothing. *)
Theorem response_reaches_waiter u tag evs1 evs2 now from iss p h k g :
  parse_uuid tag = Some u -> response_tag_of p = Some tag ->
  handle_lookup_by_id e (norm_id iss) = Some h -> get_key from = Returns (Some k) ->
  forallb (fun ev => negb (concerns u ev)) evs1 = true ->
  forallb (fun ev => negb (concerns u ev)) evs2 = true ->
  let g1 := io_run evs1 (register_pending u g) in
  (end_wait u g1).2 = None /\
  let '(g2, r) := end_wait u (io_run evs2 (io_step g1 (EvReceive now from iss p))) in
  r = Some p /\ pending_responses g2 !! u = None.
Proof using.
  intros Hu Ht Hh Hk H1 H2 g1.
  assert (E1 : pending_responses g1 !! u = Some (MkWait false None)).
  { unfold g1. rewrite io_run_pending by done. simpl. by rewrite lookup_insert_eq. }
  split; [unfold end_wait; by rewrite E1|].
  assert (E2 : pending_responses (io_run evs2 (io_step g1 (EvReceive now from iss p))) !! u
               = Some (MkWait true (Some p))).
  { rewrite io_run_pending by done. simpl. unfold receive. rewrite Hh, Hk, Ht. simpl.
    unfold fulfil. rewrite Hu. simpl. rewrite E1. simpl. by rewrite lookup_insert_eq. }
  unfold end_wait. rewrite E2. simpl. by rewrite lookup_delete_eq.
Qed.

(** Responses and strangers never reach a handler: a message with a response tag
    starts no handler and changes nothing of the node, and it is an error when the
    tag is not a UUID; a message of a sender without a handle changes nothing at
    all, and is refused exactly when it carries a request tag. *)
Theorem inbound_filter now from iss p g :
  (forall h k tag, handle_lookup_by_id e (norm_id iss) = Some h -> get_key from = Returns (Some k) ->
     response_tag_of p = Some tag ->
     exists g' r, receive parse_uuid am_relay e now from iss p g = Returns (g', [], r) /\
       eng_node g' = eng_node g /\ threads g' = threads g /\
       (r = Err "invalid responseTag" <-> parse_uuid tag = None)) /\
  (handle_lookup_by_id e (norm_id iss) = None ->
     exists out, receive parse_uuid am_relay e now from iss p g = Returns (g, out, Ok tt) /\
       (out = [] <-> request_tag p = None)).
Proof using.
  split.
  - intros h k tag Hh Hk Ht. unfold receive. rewrite Hh, Hk, Ht. simpl. unfold fulfil.
    destruct (parse_uuid tag) as [u|]; simpl; [destruct (pending_responses g !! u)|];
      do 2 eexists; (split; [reflexivity|]); by split_and!.
  - intros Hh. unfold receive. rewrite Hh. eexists. split; [reflexivity|].
    by destruct (request_tag p).
Qed.

(** Membership updates of the mutex never arrive: what [broadcast_membership]
    sends is marked with the response tag "membership_only", which is no UUID, so the
    receiving node drops it as an invalid response and its mutex never learns the
    membership. *)
Theorem membership_update_dropped self st to m now from iss h k g :
  parse_uuid membership_only = None ->
  handle_lookup_by_id e (norm_id iss) = Some h -> get_key from = Returns (Some k) ->
  (to, m) ∈ broadcast_membership self st ->
  exists g', receive parse_uuid am_relay e now from iss (Typed (MMutex m)) g
             = Returns (g', [], Err "invalid responseTag") /\
    relay_init_mutex (eng_node g') = relay_init_mutex (eng_node g) /\ threads g' = threads g.
Proof using.
  intros Hu Hh Hk Hm. unfold broadcast_membership in Hm.
  apply list_elem_of_fmap in Hm as (x & [= -> ->] & _).
  unfold receive. rewrite Hh, Hk. simpl. unfold fulfil. rewrite Hu. eexists. by split.
Qed.
End Runs.

(** ** Which address a handler sees *)

Section Listening.
Context (parse_uuid : string -> option Z) (e : env).
Context (to_vec : AdvertRecord -> list Z)
        (ed25519_verify : list Z -> list Z -> list Z -> bool)
        (valid_key : list Z -> bool)
        (base64_decode : string -> option (list Z))
        (address_to_byte_key : string -> option (list Z))
        (show_ipv6 : Z -> string) (lease now' seed : Z).

Let dispatch := dispatch_message to_vec ed25519_verify valid_key base64_decode address_to_byte_key
  show_ipv6 lease e now' seed.

(** On a relay that handles each message before it receives the next, a [Listen]
    registers its sender at the address it came from, and is answered with its tag. *)
Theorem listen_registers_sender now addr iss tag h g t :
  handle_lookup_by_id e (norm_id iss) = Some h -> threads g = [] ->
  turn_handler_relay (eng_node g) = Some t ->
  exists g1, receive parse_uuid true e now (new_direct addr) iss (Typed (MRelay (Listen tag))) g
             = Returns (g1, [], Ok tt) /\
  let '(g2, out) := run_thread dispatch 0 g1 in
  threads g2 = [] /\ out = [Response (Typed (MRelay (ListenResponse tag)))] /\
  exists t2, turn_handler_relay (eng_node g2) = Some t2 /\
    Relay.lookup_addr_by_id (norm_id iss) t2 = Some addr /\
    Relay.lookup_id_by_addr addr t2 = Some (norm_id iss).
Proof using.
  intros Hh Hth Ht. unfold receive. rewrite Hh. simpl. eexists. split; [reflexivity|].
  unfold run_thread. cbn [threads set_threads]. unfold note_connection, bind_router.
  cbn [threads set_threads set_router set_status set_connections]. rewrite Hth. cbn [app lookup list_lookup].
  unfold dispatch. simpl. unfold on_relay_listen. simpl. rewrite Ht.
  split_and!; [done|done|]. eexists. split; [reflexivity|].
  unfold Relay.lookup_addr_by_id, Relay.lookup_id_by_addr. simpl. by rewrite !lookup_insert_eq.
Qed.

(** The sender's address is shared between handler threads: when a second message
    is received before the thread of a [Listen] has read the router, the relay
    registers the first sender at the address of the second, and sends it what is
    meant for the first. *)
Theorem listen_race now1 now2 addr1 addr2 iss1 iss2 tag1 p2 h1 h2 g t :
  handle_lookup_by_id e (norm_id iss1) = Some h1 -> handle_lookup_by_id e (norm_id iss2) = Some h2 ->
  threads g = [] -> turn_handler_relay (eng_node g) = Some t -> response_tag_of p2 = None ->
  let g1 := io_run parse_uuid true e show_ipv6 dispatch
    [EvReceive now1 (new_direct addr1) iss1 (Typed (MRelay (Listen tag1)));
     EvReceive now2 (new_direct addr2) iss2 p2; EvThread 0] g in
  exists t2, turn_handler_relay (eng_node g1) = Some t2 /\
    Relay.lookup_addr_by_id (norm_id iss1) t2 = Some addr2.
Proof using.
  intros Hh1 Hh2 Hth Ht Hp. unfold io_run. cbn [foldl].
  unfold io_step at 3. unfold receive. rewrite Hh1. simpl get_key. cbv iota beta.
  cbn [response_tag_of].
  unfold io_step at 2. unfold receive. rewrite Hh2. simpl get_key. cbv iota beta. rewrite Hp.
  unfold io_step, run_thread. cbn [threads set_threads].
  unfold note_connection, bind_router.
  cbn [threads set_threads set_router set_status set_connections eng_router eng_node]. rewrite Hth.
  cbn [app lookup list_lookup base.delete list_delete]. unfold dispatch.
  simpl. unfold on_relay_listen. simpl. rewrite Ht.
  eexists. split; [reflexivity|]. unfold Relay.lookup_addr_by_id. simpl. by rewrite lookup_insert_eq.
Qed.
End Listening.

Lemma send_guard_status t to g g' k :
  get_key to = Returns (Some k) -> send_guard t to g = Returns None ->
  last_public_addr (eng_node g') = last_public_addr (eng_node g) ->
  forall t', send_guard t' to g' =
    match endpoint_status g' !! k with
    | Some s => if negb (is_working s) && (Z.max 0 (t' - last_checked_timestamp s) <? SEND_FAIL_BACKOFF)
                then Returns (Some "Sending is failing") else Returns None
    | None => Returns None
    end.
Proof.
  intros Hk H Hp t'. unfold send_guard in *. rewrite Hp.
  destruct (is_relay to && _); [done|]. destruct (bool_decide _ && _); [done|]. by rewrite Hk.
Qed.

(** After a failed send, sends to the same endpoint are refused without trying for
    30 seconds, and nothing is recorded; then they are tried again.  A message from
    the endpoint meanwhile lifts the refusal at once.  A send that was tried has its
    address among those seen. *)
Theorem send_backoff show_ipv6 t to err g g1 k :
  send_guard t to g = Returns None -> get_key to = Returns (Some k) ->
  send_to_peer show_ipv6 t to (Err err) g = Returns (g1, Err err) ->
  (forall t' res, t <= t' -> t' < t + SEND_FAIL_BACKOFF ->
     send_to_peer show_ipv6 t' to res g1 = Returns (g1, Err "Sending is failing")) /\
  (forall t', t + SEND_FAIL_BACKOFF <= t' -> send_guard t' to g1 = Returns None) /\
  (forall parse_uuid am_relay e t1 t2 iss p h g2 out r,
     handle_lookup_by_id e (norm_id iss) = Some h ->
     receive parse_uuid am_relay e t1 to iss p g1 = Returns (g2, out, r) ->
     send_guard t2 to g2 = Returns None) /\
  (forall addr, inet_socket_address to = Some addr ->
     inet_from show_ipv6 addr ∈ seen_endpoints g1).
Proof.
  intros Hg Hk H. unfold send_to_peer in H. rewrite Hg in H. unfold note_sent in H. rewrite Hk in H.
  simpl in H. injection H as <-.
  set (g1 := set_status _ (see_endpoint show_ipv6 to g)).
  assert (Hn : eng_node g1 = eng_node g) by (unfold g1, see_endpoint; by destruct (inet_socket_address to)).
  assert (Hst : endpoint_status g1 !! k = Some (MkStatusEntry t false)) by (simpl; apply lookup_insert_eq).
  pose proof (send_guard_status t to g g1 k Hk Hg ltac:(by rewrite Hn)) as Hgd. rewrite Hst in Hgd. simpl in Hgd.
  unfold SEND_FAIL_BACKOFF in *.
  split_and!.
  - intros t' res H1 H2. unfold send_to_peer. rewrite Hgd.
    destruct (Z.ltb_spec (Z.max 0 (t' - t)) 30000); [done|lia].
  - intros t' H1. rewrite Hgd. destruct (Z.ltb_spec (Z.max 0 (t' - t)) 30000); [lia|done].
  - intros pu ar e t1 t2 iss p h g2 out r Hh H2. unfold receive in H2. rewrite Hh, Hk in H2.
    assert (eng_node g2 = eng_node g1 /\ endpoint_status g2 !! k = Some (MkStatusEntry t1 true)) as [E1 E2].
    { destruct (response_tag_of p) as [tag|].
      - destruct (fulfil pu tag p _) as [g3 r3] eqn:Ef. injection H2 as <- <- <-.
        unfold fulfil in Ef. destruct (pu tag) as [u|]; [|by injection Ef as <- <-; simpl; rewrite lookup_insert_eq].
        destruct (pending_responses _ !! u); injection Ef as <- <-; simpl; by rewrite lookup_insert_eq.
      - injection H2 as <- <- <-. simpl. by rewrite lookup_insert_eq. }
    rewrite (send_guard_status t to g g2 k Hk Hg) by (by rewrite E1, Hn). by rewrite E2.
  - intros addr Ha. unfold g1, see_endpoint. rewrite Ha. simpl. set_solver.
Qed.

(** ** Concrete traffic *)

Module TrafficExample.
Definition parse_uuid (s : string) : option Z := if String.eqb s "u1" then Some 1 else None.
Definition eng : engine :=
  MkEngine HandlersExample.relay (MkRouter None None true true true true) ∅ ∅ ∅ ∅ [] [].
Definition status_answer_msg : payload :=
  Typed (MRelay (CheckResponse "available" (Some "u1"))).
Definition other : io_event :=
  EvReceive 3 (new_direct HandlersExample.bob) "B." (Typed (MRelay (Listen (Some "t")))).
End TrafficExample.

Lemma response_reaches_waiter_witness :
  let dispatch := HandlersExample.dispatch 4 in
  let run evs g := io_run TrafficExample.parse_uuid true HandlersExample.surroundings
    HandlersExample.show_ipv6 dispatch evs g in
  let g1 := run [TrafficExample.other] (register_pending 1 TrafficExample.eng) in
  (end_wait 1 (run [EvThread 0] (io_step TrafficExample.parse_uuid true HandlersExample.surroundings
    HandlersExample.show_ipv6 dispatch g1
    (EvReceive 5 (new_direct HandlersExample.alice) "A." TrafficExample.status_answer_msg)))).2
  = Some TrafficExample.status_answer_msg.
Proof.
  intros dispatch run g1.
  pose proof (response_reaches_waiter TrafficExample.parse_uuid true HandlersExample.surroundings
    HandlersExample.show_ipv6 dispatch 1 "u1" [TrafficExample.other] [EvThread 0] 5
    (new_direct HandlersExample.alice) "A." TrafficExample.status_answer_msg "A"
    (MkKey (Some HandlersExample.alice) None None) TrafficExample.eng
    eq_refl eq_refl eq_refl eq_refl eq_refl eq_refl) as [_ H].
  fold run in H. fold g1 in H. destruct (end_wait 1 _) as [g2 r]. apply H.
Defined.

Lemma membership_update_dropped_witness :
  exists g', receive TrafficExample.parse_uuid true HandlersExample.surroundings 5
      (new_direct HandlersExample.alice) "A."
      (Typed (MMutex (MReply (MkResponse (Some {["A"; "B"]}) (Some membership_only)))))
      TrafficExample.eng = Returns (g', [], Err "invalid responseTag").
Proof.
  assert (("B", MReply (MkResponse (Some (dynamic_node_ids (new_state "A" ["A"; "B"])))
    (Some membership_only))) ∈ broadcast_membership "A" (new_state "A" ["A"; "B"])) as Hin.
  { apply list_elem_of_fmap. exists "B". split; [reflexivity|].
    unfold others. apply elem_of_elements. cbn. set_solver. }
  destruct (membership_update_dropped TrafficExample.parse_uuid true HandlersExample.surroundings
    "A" (new_state "A" ["A"; "B"]) "B" _ 5 (new_direct HandlersExample.alice) "A." "A"
    (MkKey (Some HandlersExample.alice) None None) TrafficExample.eng eq_refl eq_refl eq_refl Hin)
    as (g' & H & _).
  exists g'. exact H.
Defined.

Lemma listen_registers_sender_witness :
  exists g1, receive TrafficExample.parse_uuid true HandlersExample.surroundings 5
      (new_direct HandlersExample.bob) "B." (Typed (MRelay (Listen (Some "t")))) TrafficExample.eng
    = Returns (g1, [], Ok tt).
Proof.
  destruct (listen_registers_sender TrafficExample.parse_uuid HandlersExample.surroundings
    HandlersExample.to_vec HandlersExample.check HandlersExample.valid_key HandlersExample.decode64
    HandlersExample.address HandlersExample.show_ipv6 1000 6 7 5 HandlersExample.bob "B." (Some "t")
    "B" TrafficExample.eng Relay.new eq_refl eq_refl eq_refl) as (g1 & H & _).
  exists g1. exact H.
Defined.

Lemma listen_race_witness :
  exists t2, turn_handler_relay (eng_node (io_run TrafficExample.parse_uuid true
      HandlersExample.surroundings HandlersExample.show_ipv6 (HandlersExample.dispatch 6)
      [EvReceive 1 (new_direct HandlersExample.alice) "A." (Typed (MRelay (Listen (Some "t"))));
       EvReceive 2 (new_direct HandlersExample.bob) "B." (Typed (MRelay KeepAlive)); EvThread 0]
      TrafficExample.eng)) = Some t2 /\
    Relay.lookup_addr_by_id "A" t2 = Some HandlersExample.bob.
Proof.
  exact (listen_race TrafficExample.parse_uuid HandlersExample.surroundings
    HandlersExample.to_vec HandlersExample.check HandlersExample.valid_key HandlersExample.decode64
    HandlersExample.address HandlersExample.show_ipv6 1000 6 7 1 2 HandlersExample.alice
    HandlersExample.bob "A." "B." (Some "t") (Typed (MRelay KeepAlive)) "A" "B" TrafficExample.eng
    Relay.new eq_refl eq_refl eq_refl eq_refl eq_refl).
Defined.

Lemma send_backoff_witness :
  exists g1, send_to_peer HandlersExample.show_ipv6 5 (new_direct HandlersExample.bob) (Err "lost")
      TrafficExample.eng = Returns (g1, Err "lost") /\
    send_to_peer HandlersExample.show_ipv6 20000 (new_direct HandlersExample.bob) (Ok tt) g1
    = Returns (g1, Err "Sending is failing").
Proof.
  eexists. split; [reflexivity|].
  refine (proj1 (send_backoff HandlersExample.show_ipv6 5 (new_direct HandlersExample.bob) "lost"
    TrafficExample.eng _ (MkKey (Some HandlersExample.bob) None None) eq_refl eq_refl eq_refl)
    20000 (Ok tt) _ _); unfold SEND_FAIL_BACKOFF; lia.
Defined.
