(* ===== verification/HandleCache.v ===== *)
(** * The cache of handles

    Models [HandleCacheBi] of [src/bingle_core/src/api/bingle_api_impl.rs] and the
    two lookups that use it, [handle_lookup] and [handle_lookup_by_id].  What the
    blockchain answers within its time limit is an argument; the seams for tests are
    left out.  Instants and durations are milliseconds; the cache's lock is held for
    each operation. *)
From S2P Require Import Prelude.

Local Open Scope Z_scope.

Record HandleCacheBi : Type := MkHandleCache {
  handle_to_id : gmap string (string * Z);
  id_to_handle : gmap string (string * Z)
}.

Module HandleCacheOps.

Definition new : HandleCacheBi := MkHandleCache ∅ ∅.

(** [m] without [k], if [m] maps [k] to [v]. *)
Definition delete_if (k v : string) (m : gmap string (string * Z)) : gmap string (string * Z) :=
  match m !! k with
  | Some (v', _) => if String.eqb v' v then base.delete k m else m
  | None => m
  end.

(** Removes the old partner of the handle, then the old partner of the id. *)
Definition insert (handle user_id : string) (now : Z) (c : HandleCacheBi) : HandleCacheBi :=
  let '(h1, i1) :=
    match handle_to_id c !! handle with
    | Some (old_uid, _) =>
        (base.delete handle (handle_to_id c), delete_if old_uid handle (id_to_handle c))
    | None => (handle_to_id c, id_to_handle c)
    end in
  let '(h2, i2) :=
    match i1 !! user_id with
    | Some (old_handle, _) => (delete_if old_handle user_id h1, base.delete user_id i1)
    | None => (h1, i1)
    end in
  MkHandleCache (<[handle := (user_id, now)]> h2) (<[user_id := (handle, now)]> i2).

Definition fresh (now expiry ts : Z) : bool := Z.max 0 (now - ts) <? expiry.

Definition get_id_by_handle (now expiry : Z) (handle : string) (c : HandleCacheBi)
  : HandleCacheBi * option string :=
  match handle_to_id c !! handle with
  | Some (uid, ts) =>
      if fresh now expiry ts then (c, Some uid)
      else (MkHandleCache (base.delete handle (handle_to_id c))
              (delete_if uid handle (id_to_handle c)), None)
  | None => (c, None)
  end.

Definition get_handle_by_id (now expiry : Z) (user_id : string) (c : HandleCacheBi)
  : HandleCacheBi * option string :=
  match id_to_handle c !! user_id with
  | Some (handle, ts) =>
      if fresh now expiry ts then (c, Some handle)
      else (MkHandleCache (delete_if handle user_id (handle_to_id c))
              (base.delete user_id (id_to_handle c)), None)
  | None => (c, None)
  end.

(** What the chain says of a handle or of an address: the partner, if there is one;
    an error, of the Algorand layer or another; or nothing in time. *)
Inductive chain_answer : Type :=
| ChainFound (partner : option string)
| ChainError (algo : bool)
| ChainTimeout.

(** The errors of [handle_lookup]: [LookupFailed] keeps the chain's, [LookupTimeout]
    is the retryable one, [LookupNotConfigured] is there without an app id or a provider. *)
Inductive lookup_error : Type := LookupFailed (algo : bool) | LookupTimeout | LookupNotConfigured.

(** The cache is read before the query and written after it; [between] is what other
    threads do to it meanwhile.  [configured]: there are an app id and a provider. *)
Definition handle_lookup (configured : bool) (expiry now later : Z) (handle : string)
  (answer : chain_answer) (between : HandleCacheBi -> HandleCacheBi) (c : HandleCacheBi)
  : HandleCacheBi * result (option string) lookup_error :=
  match get_id_by_handle now expiry handle c with
  | (c, Some user_id) => (c, Ok (Some user_id))
  | (c, None) =>
      if negb configured then (c, Err LookupNotConfigured)
      else
        let c := between c in
        match answer with
        | ChainFound (Some user_id) => (insert handle user_id later c, Ok (Some user_id))
        | ChainFound None => (c, Ok None)
        | ChainError algo => (c, Err (LookupFailed algo))
        | ChainTimeout => (c, Err LookupTimeout)
        end
  end.

Definition handle_lookup_by_id (configured : bool) (expiry now later : Z) (user_id : string)
  (answer : chain_answer) (between : HandleCacheBi -> HandleCacheBi) (c : HandleCacheBi)
  : HandleCacheBi * option string :=
  match get_handle_by_id now expiry user_id c with
  | (c, Some handle) => (c, Some handle)
  | (c, None) =>
      if negb configured then (c, None)
      else
        let c := between c in
        match answer with
        | ChainFound (Some handle) => (insert handle user_id later c, Some handle)
        | ChainFound None | ChainError _ | ChainTimeout => (c, None)
        end
  end.
End HandleCacheOps.

(** ** The two directions agree *)

Definition cache_wf (c : HandleCacheBi) : Prop :=
  forall h u ts, handle_to_id c !! h = Some (u, ts) <-> id_to_handle c !! u = Some (h, ts).

Lemma delete_if_other k v m i : i <> k -> HandleCacheOps.delete_if k v m !! i = m !! i.
Proof.
  intros Hi. unfold HandleCacheOps.delete_if. destruct (m !! k) as [[v' t]|]; [|done].
  destruct (String.eqb v' v); [|done]. by rewrite lookup_delete_ne.
Qed.

Lemma delete_if_match k v t m : m !! k = Some (v, t) -> HandleCacheOps.delete_if k v m = base.delete k m.
Proof. intros Hk. unfold HandleCacheOps.delete_if. by rewrite Hk, String.eqb_refl. Qed.

(** Removing a pair. *)
Lemma cache_wf_delete h u ts hm im :
  cache_wf (MkHandleCache hm im) -> hm !! h = Some (u, ts) ->
  cache_wf (MkHandleCache (base.delete h hm) (base.delete u im)).
Proof.
  intros Hwf Hh h' u' ts'. specialize (Hwf h' u' ts') as H1. pose proof (proj1 (Hwf h u ts) Hh) as Hu.
  simpl in *. destruct (decide (h = h')) as [->|Hne]; [rewrite lookup_delete_eq|rewrite lookup_delete_ne by done];
  (destruct (decide (u = u')) as [->|Hne']; [rewrite lookup_delete_eq|rewrite lookup_delete_ne by done]).
  - done.
  - split; [done|]. intros H%H1. congruence.
  - split; [|done]. intros H%H1. congruence.
  - done.
Qed.

(** Adding a pair whose members are free. *)
Lemma cache_wf_insert h u ts hm im :
  cache_wf (MkHandleCache hm im) -> hm !! h = None -> im !! u = None ->
  cache_wf (MkHandleCache (<[h := (u, ts)]> hm) (<[u := (h, ts)]> im)).
Proof.
  intros Hwf Hh Hu h' u' ts'. specialize (Hwf h' u' ts') as H1. simpl in *.
  destruct (decide (h = h')) as [->|Hne]; [rewrite lookup_insert_eq|rewrite lookup_insert_ne by done];
  (destruct (decide (u = u')) as [->|Hne']; [rewrite lookup_insert_eq|rewrite lookup_insert_ne by done]).
  - naive_solver.
  - split; [congruence|]. intros H%H1. congruence.
  - split; [|congruence]. intros H%H1. congruence.
  - done.
Qed.

(** On a consistent cache, [insert] removes the pairs of the handle and of the id. *)
Lemma insert_wf h u now c : cache_wf c -> cache_wf (HandleCacheOps.insert h u now c).
Proof.
  intros Hwf. destruct c as [hm im]. unfold HandleCacheOps.insert. simpl.
  assert (exists hm1 im1, (match hm !! h with
    | Some (old, _) => (base.delete h hm, HandleCacheOps.delete_if old h im)
    | None => (hm, im) end) = (hm1, im1) /\ cache_wf (MkHandleCache hm1 im1) /\ hm1 !! h = None)
    as (hm1 & im1 & -> & Hwf1 & Hh1).
  { destruct (hm !! h) as [[old t]|] eqn:E; [|by exists hm, im].
    pose proof (proj1 (Hwf h old t) E) as Eu. simpl in Eu.
    rewrite (delete_if_match _ _ _ _ Eu). do 2 eexists. split; [done|]. rewrite lookup_delete_eq.
    split; [by eapply cache_wf_delete|done]. }
  destruct (im1 !! u) as [[old t]|] eqn:E; [|by apply cache_wf_insert].
  pose proof (proj2 (Hwf1 old u t) E) as Eh. simpl in Eh.
  rewrite (delete_if_match _ _ _ _ Eh). apply cache_wf_insert.
  - by eapply cache_wf_delete.
  - destruct (decide (old = h)) as [->|]; [congruence|]. by rewrite lookup_delete_ne.
  - by rewrite lookup_delete_eq.
Qed.

Lemma get_id_wf now expiry h c : cache_wf c -> cache_wf (HandleCacheOps.get_id_by_handle now expiry h c).1.
Proof.
  intros Hwf. destruct c as [hm im]. unfold HandleCacheOps.get_id_by_handle. simpl.
  destruct (hm !! h) as [[u t]|] eqn:E; [|done]. destruct (HandleCacheOps.fresh now expiry t); [done|].
  simpl. rewrite (delete_if_match _ _ t) by (by apply (proj1 (Hwf h u t))). by eapply cache_wf_delete.
Qed.

Lemma get_handle_wf now expiry u c : cache_wf c -> cache_wf (HandleCacheOps.get_handle_by_id now expiry u c).1.
Proof.
  intros Hwf. destruct c as [hm im]. unfold HandleCacheOps.get_handle_by_id. simpl.
  destruct (im !! u) as [[h t]|] eqn:E; [|done]. destruct (HandleCacheOps.fresh now expiry t); [done|].
  pose proof (proj2 (Hwf h u t) E) as Eh. simpl in *.
  rewrite (delete_if_match _ _ t) by done. by eapply cache_wf_delete.
Qed.

#[export] Hint Resolve insert_wf get_id_wf get_handle_wf : bingle.

Inductive cache_op : Type :=
| OpInsert (handle user_id : string) (now : Z)
| OpGetId (now expiry : Z) (handle : string)
| OpGetHandle (now expiry : Z) (user_id : string).

Definition run_cache_op (c : HandleCacheBi) (op : cache_op) : HandleCacheBi :=
  match op with
  | OpInsert h u now => HandleCacheOps.insert h u now c
  | OpGetId now expiry h => (HandleCacheOps.get_id_by_handle now expiry h c).1
  | OpGetHandle now expiry u => (HandleCacheOps.get_handle_by_id now expiry u c).1
  end.

Definition run_cache_ops (ops : list cache_op) : HandleCacheBi :=
  foldl run_cache_op HandleCacheOps.new ops.

Lemma run_cache_ops_wf ops : cache_wf (run_cache_ops ops).
Proof.
  unfold run_cache_ops. assert (cache_wf HandleCacheOps.new) as H by (intros h u ts; by simplify_map_eq).
  revert H. generalize HandleCacheOps.new. induction ops as [|[] ops IH]; intros c Hc; [done|..];
    simpl; apply IH; simpl; auto with bingle.
Qed.

(** What the lookups answer. *)
Lemma get_id_some now expiry h u c :
  (HandleCacheOps.get_id_by_handle now expiry h c).2 = Some u <->
  exists ts, handle_to_id c !! h = Some (u, ts) /\ HandleCacheOps.fresh now expiry ts = true.
Proof.
  unfold HandleCacheOps.get_id_by_handle. destruct (handle_to_id c !! h) as [[v ts]|]; simpl.
  - destruct (HandleCacheOps.fresh now expiry ts) eqn:E; simpl; (split; [intros [=]; subst; eauto|]);
      intros (ts' & [= -> ->] & H); congruence.
  - split; [done|]. by intros (ts' & [=] & _).
Qed.

Lemma get_handle_some now expiry h u c :
  (HandleCacheOps.get_handle_by_id now expiry u c).2 = Some h <->
  exists ts, id_to_handle c !! u = Some (h, ts) /\ HandleCacheOps.fresh now expiry ts = true.
Proof.
  unfold HandleCacheOps.get_handle_by_id. destruct (id_to_handle c !! u) as [[v ts]|]; simpl.
  - destruct (HandleCacheOps.fresh now expiry ts) eqn:E; simpl; (split; [intros [=]; subst; eauto|]);
      intros (ts' & [= -> ->] & H); congruence.
  - split; [done|]. by intros (ts' & [=] & _).
Qed.

Lemma get_agree now expiry h u c :
  cache_wf c ->
  (HandleCacheOps.get_id_by_handle now expiry h c).2 = Some u <->
  (HandleCacheOps.get_handle_by_id now expiry u c).2 = Some h.
Proof.
  intros Hwf. rewrite get_id_some, get_handle_some. by setoid_rewrite (Hwf h u).
Qed.

Lemma insert_lookup h u t c :
  handle_to_id (HandleCacheOps.insert h u t c) !! h = Some (u, t) /\
  id_to_handle (HandleCacheOps.insert h u t c) !! u = Some (h, t).
Proof.
  unfold HandleCacheOps.insert. destruct (match handle_to_id c !! h with Some _ => _ | None => _ end).
  destruct (match _ !! u with Some _ => _ | None => _ end). simpl. by rewrite !lookup_insert_eq.
Qed.

(** The handle cache never contradicts itself: after any operations, at one moment
    and with one expiry, the cache gives the id [u] for the handle [h] exactly when
    it gives [h] for [u]; an insertion is what both directions answer until it
    expires, and it leaves the id no other handle and the handle no other id. *)
Theorem handle_cache_consistent ops now expiry h u t :
  let c := run_cache_ops ops in
  let c' := HandleCacheOps.insert h u t c in
  ((HandleCacheOps.get_id_by_handle now expiry h c).2 = Some u <->
   (HandleCacheOps.get_handle_by_id now expiry u c).2 = Some h) /\
  ((HandleCacheOps.get_id_by_handle now expiry h c').2 = Some u <->
   HandleCacheOps.fresh now expiry t = true) /\
  (forall h', h' <> h -> (HandleCacheOps.get_id_by_handle now expiry h' c').2 <> Some u) /\
  (forall u', u' <> u -> (HandleCacheOps.get_handle_by_id now expiry u' c').2 <> Some h).
Proof.
  intros c c'. pose proof (run_cache_ops_wf ops) as Hwf. fold c in Hwf.
  destruct (insert_lookup h u t c) as [Hh Hu]. fold c' in Hh, Hu.
  pose proof (insert_wf h u t c Hwf) as Hwf'. fold c' in Hwf'.
  split_and!; [by apply get_agree|rewrite get_id_some, Hh; split; [by intros (ts & [= <-] & H)|by eauto]|..].
  - intros h' Hne H%get_id_some. destruct H as (ts & H & _). apply Hwf' in H. congruence.
  - intros u' Hne H%get_handle_some. destruct H as (ts & H & _). apply Hwf' in H. congruence.
Qed.

(** A lookup of a handle is what the chain says, at most [expiry] old: an id it
    returns was in the cache with a fresh time stamp or is the chain's answer, which
    the cache then holds in both directions; errors and unregistered handles are
    never cached. *)
Theorem handle_lookup_spec configured expiry now later h answer c c' r :
  HandleCacheOps.handle_lookup configured expiry now later h answer (fun c => c) c = (c', r) ->
  match r with
  | Ok (Some u) =>
      (exists ts, handle_to_id c !! h = Some (u, ts) /\ Z.max 0 (now - ts) < expiry /\ c' = c) \/
      (configured = true /\ answer = HandleCacheOps.ChainFound (Some u) /\
       handle_to_id c' !! h = Some (u, later) /\ id_to_handle c' !! u = Some (h, later))
  | _ => (exists u ts, handle_to_id c !! h = Some (u, ts) /\ handle_to_id c' !! h = None) \/ c' = c
  end.
Proof.
  unfold HandleCacheOps.handle_lookup, HandleCacheOps.get_id_by_handle. intros H.
  assert (forall u c1, HandleCacheOps.insert h u later c1 = c' -> 
    handle_to_id c' !! h = Some (u, later) /\ id_to_handle c' !! u = Some (h, later)) as Hins
    by (intros u c1 <-; apply insert_lookup).
  destruct (handle_to_id c !! h) as [[v ts]|] eqn:E.
  - destruct (HandleCacheOps.fresh now expiry ts) eqn:Ef.
    + injection H as <- <-. left. exists ts. split; [done|]. split; [|done]. by apply Z.ltb_lt.
    + destruct configured; [|injection H as <- <-; left; exists v, ts; by simplify_map_eq].
      destruct answer as [[u|]| |]; injection H as H <-; [right; by destruct (Hins _ _ H)|..];
        subst c'; left; exists v, ts; by simplify_map_eq.
  - destruct configured; [|injection H as <- <-; by right].
    destruct answer as [[u|]| |]; injection H as H <-; [right; by destruct (Hins _ _ H)|..];
      subst c'; by right.
Qed.

Lemma handle_lookup_spec_witness :
  let c' := HandleCacheOps.insert "bob" "B" 5 HandleCacheOps.new in
  HandleCacheOps.handle_lookup true 600000 0 5 "bob" (HandleCacheOps.ChainFound (Some "B"))
    (fun c => c) HandleCacheOps.new = (c', Ok (Some "B")) /\
  ((exists ts, handle_to_id HandleCacheOps.new !! "bob" = Some ("B", ts) /\
      Z.max 0 (0 - ts) < 600000 /\ c' = HandleCacheOps.new) \/
   (true = true /\ HandleCacheOps.ChainFound (Some "B") = HandleCacheOps.ChainFound (Some "B") /\
    handle_to_id c' !! "bob" = Some ("B", 5) /\ id_to_handle c' !! "B" = Some ("bob", 5))).
Proof.
  split; [reflexivity|].
  exact (handle_lookup_spec true 600000 0 5 "bob" (HandleCacheOps.ChainFound (Some "B"))
    HandleCacheOps.new _ _ eq_refl).
Defined.
