(* ===== verification/Api.v ===== *)
(** * Sending through the API

    Models, of [src/bingle_core/src/]: the sending path of [api/bingle_api_impl.rs]
    (to an endpoint, to an id, to a handle, with and without waiting for a response),
    the typed causes of failure of [api/bingle_api.rs], the database client
    ([ddb/client.rs]) and the client that opens a relay channel
    ([relay/relay_client.rs]).

    The state is the node's [engine], its cache of handles and what is outside: a
    type [W] with the operations of the class [Outside] (clock, fresh tags, the
    packet transport, what arrives while a request waits, the relay finder, the
    chain's answer about a handle).  What arrives during the transport's own retries
    is counted to the wait that follows.  A computation may panic.

    In the source these parts call each other in a circle: sending to a relay
    endpoint opens a channel with a request to the relay, a request is sent by the
    same function, and the relay's address may need a request to the database.  Here
    they take the procedure that opens a channel as an argument; [relay_call] closes
    the circle and [relay_call_unfolds] is the source's recursion.

    Progress callbacks, time limits and texts of errors are left out, as are the
    signature fields of a text message. *)
From S2P Require Import Prelude NetAddr Turn Mutex Advert Ddb RelayCache RelayUpdater.
From S2P Require Import Messages Handlers EngineIo HandleCache.

Local Open Scope Z_scope.

(** ** Causes of failure *)

Inductive SendFailureKind : Type :=
| HandleNotFound | HandleLookupFailed
| RecipientNotAdvertised | InvalidRecipientId
| NoRelayAvailable | RelayAllocationFailed | PeerUnreachable | NoResponse
| MalformedAdvert | ProtocolError
| NotReady | UnknownCause.

#[export] Instance SendFailureKind_eq_dec : EqDecision SendFailureKind.
Proof. solve_decision. Defined.

Definition is_retryable (k : SendFailureKind) : bool :=
  match k with
  | HandleLookupFailed | RecipientNotAdvertised | NoRelayAvailable | RelayAllocationFailed
  | PeerUnreachable | NoResponse | NotReady => true
  | HandleNotFound | InvalidRecipientId | MalformedAdvert | ProtocolError | UnknownCause => false
  end.

Inductive BingleError : Type :=
| Algo
| Retryable
| HandleTaken (owner : string)
| SendFailed (kind : SendFailureKind)
| OtherError.

(** ** Computations of the API *)

Record api (W : Type) : Type := MkApi {
  outside : W;
  eng : engine;
  handle_cache : HandleCacheBi
}.
Arguments MkApi {W} _ _ _.
Arguments outside {W} _.
Arguments eng {W} _.
Arguments handle_cache {W} _.

Definition M (W A : Type) : Type := api W -> outcome (api W * A).

#[export] Instance M_ret W : MRet (M W) := fun A a s => Returns (s, a).
#[export] Instance M_bind W : MBind (M W) := fun A B k m s =>
  match m s with Returns (s, a) => k a s | Panics => Panics end.

(** Rust's [?]: an error ends the computation. *)
Definition try_bind {W A B} (m : M W (result A BingleError)) (k : A -> M W (result B BingleError))
  : M W (result B BingleError) :=
  m ≫= fun r => match r with Ok a => k a | Err e => mret (Err e) end.

Notation "'let!' x ':=' m 'in' k" := (try_bind m (fun x => k))
  (at level 10, x pattern, m at level 100, k at level 200) : bingle_scope.

Definition panic {W A} : M W A := fun _ => Panics.
Definition get_engine {W} : M W engine := fun s => Returns (s, eng s).
Definition set_engine {W} (g : engine) : M W unit :=
  fun s => Returns (MkApi (outside s) g (handle_cache s), tt).
Definition use {W A} (f : W -> W * A) : M W A :=
  fun s => let '(w, a) := f (outside s) in Returns (MkApi w (eng s) (handle_cache s), a).
Definition lift {W A} (o : outcome A) : M W A :=
  fun s => match o with Returns a => Returns (s, a) | Panics => Panics end.

Class Outside (W : Type) := {
  clock : W -> W * Z;
  new_uuid : W -> W * Z;
  transport_send : NetworkEndpoint -> payload -> W -> W * result unit string;
  meanwhile : W -> W * list io_event;
  find_relay_for : string -> M W (option RelayInfo);
  lookup_root_id : string -> M W (option NetworkEndpoint);
  chain_handle : string -> W -> W * HandleCacheOps.chain_answer
}.

(** The trait [DdbClient]. *)
Record DdbClient (W : Type) : Type := MkDdbClient {
  register_ip : SocketAddr -> bool -> M W (result unit BingleError);
  register_relay : string -> option string -> M W (result unit BingleError);
  ddb_lookup : string -> M W (result NetworkEndpoint BingleError);
  signoff : M W (result unit BingleError);
  start_load_from_peer : string -> M W (result nat BingleError)
}.
Arguments MkDdbClient {W} _ _ _ _ _.
Arguments register_ip {W} _ _ _.
Arguments register_relay {W} _ _ _.
Arguments ddb_lookup {W} _ _.
Arguments signoff {W} _.
Arguments start_load_from_peer {W} _ _.

Definition NullDdbClient (W : Type) : DdbClient W :=
  MkDdbClient (fun _ _ => mret (Err OtherError)) (fun _ _ => mret (Err OtherError))
    (fun _ => mret (Err OtherError)) (mret (Err OtherError)) (fun _ => mret (Err OtherError)).

(** What the code does not define: the text of a UUID and of an IPv6 address, base32
    and the primitives of records ([Advert]); how this node is configured; and the
    handlers, [dispatch_message] at the moment of a run. *)
Record setting (SigningKey : Type) : Type := MkSetting {
  show_uuid : Z -> string;
  parse_uuid : string -> option Z;
  base32_decode : string -> option (list Z);
  show_ipv6 : Z -> string;
  parse_ipv6 : string -> option Z;
  to_vec : AdvertRecord -> list Z;
  sign : SigningKey -> list Z -> list Z;
  ed25519_verify : list Z -> list Z -> list Z -> bool;
  valid_key : list Z -> bool;
  base64_encode : list Z -> string;
  base64_decode : string -> option (list Z);
  address_to_byte_key : string -> option (list Z);
  signing_key : option SigningKey;
  node_is_relay : bool;
  has_app_id : bool;
  has_provider : bool;
  handle_cache_expiry : option Z;
  surroundings : env;
  run_dispatch : router -> FromStruct -> Message -> node -> outcome (node * list output)
}.
Arguments show_uuid {_} _ _.
Arguments parse_uuid {_} _ _.
Arguments base32_decode {_} _ _.
Arguments show_ipv6 {_} _ _.
Arguments parse_ipv6 {_} _ _.
Arguments to_vec {_} _ _.
Arguments sign {_} _ _ _.
Arguments ed25519_verify {_} _ _ _ _.
Arguments valid_key {_} _ _.
Arguments base64_encode {_} _ _.
Arguments base64_decode {_} _ _.
Arguments address_to_byte_key {_} _ _.
Arguments signing_key {_} _.
Arguments node_is_relay {_} _.
Arguments has_app_id {_} _.
Arguments has_provider {_} _.
Arguments handle_cache_expiry {_} _.
Arguments surroundings {_} _.
Arguments run_dispatch {_} _ _ _ _ _.

Definition contains (sub s : string) : bool := bool_decide (is_Some (String.index 0 sub s)).

Section Sending.
Context {SigningKey W : Type} `{Outside W} (cfg : setting SigningKey).

Definition verify_advert (r : AdvertRecord) : bool :=
  verify (to_vec cfg) (ed25519_verify cfg) (valid_key cfg) (base64_decode cfg)
    (address_to_byte_key cfg) r.

Definition my_id : M W (option string) :=
  g ← get_engine; mret (get_my_id (eng_node g)).

(** An Algorand address: base32 of 36 bytes. *)
Definition valid_id (i : string) : bool :=
  match base32_decode cfg i with Some bytes => Nat.eqb (length bytes) 36 | None => false end.

(** ** To a complete endpoint *)

Definition send_over_dtls (nsk : NetworkEndpoint) (p : payload) : M W (result bool BingleError) :=
  g ← get_engine;
  if is_relay nsk && bool_decide (relay_channel nsk = None) then mret (Ok false)
  else if bool_decide (is_Some (inet_socket_address nsk))
          && bool_decide (last_public_addr (eng_node g) = inet_socket_address nsk)
  then mret (Ok false)
  else
    now ← use clock;
    guard ← lift (send_guard now nsk g);
    res ← match guard with
          | None => use (transport_send nsk p)
          | Some _ => mret (Ok tt)
          end;
    gr ← lift (send_to_peer (show_ipv6 cfg) now nsk res g);
    let '(g, sent) := gr in
    _ ← set_engine g;
    match sent with
    | Ok _ => mret (Ok true)
    | Err err => mret (if contains "rejecting" err then Ok false else Err (SendFailed PeerUnreachable))
    end.

(** ** To an endpoint, a channel being opened when it needs one *)

(** [Engine::turn_handle_call_response]. *)
Definition turn_handle_call_response (source dest : SocketAddr) (channel : Z) (rid : string) (n : node)
  : node :=
  let n := match turn_handler_client n with
           | Some t => set_turn_client (Client.handle_call_response source dest channel rid t) n
           | None => n
           end in
  match turn_handler_relay n with
  | Some t => set_turn_relay (Relay.handle_call_response source dest channel rid t) n
  | None => n
  end.

(** Opens a channel: takes the relay endpoint and the id to call. *)
Definition opener : Type := NetworkEndpoint -> string -> M W (result NetworkEndpoint BingleError).

(** The endpoint to use when this node is the relay itself. *)
Definition self_relay_endpoint (nsk : NetworkEndpoint) (user_id : string)
  : M W (result NetworkEndpoint BingleError) :=
  match relay_address nsk with
  | Some a => mret (Ok (new_direct a))
  | None =>
      g ← get_engine;
      match turn_handler_relay (eng_node g) with
      | None => panic
      | Some t =>
          match Relay.lookup_addr_by_id user_id t with
          | Some a => mret (Ok (new_direct a))
          | None => mret (Err (SendFailed RelayAllocationFailed))
          end
      end
  end.

(** Opens the channel and registers it with the TURN handlers. *)
Definition open_channel (call : opener) (nsk : NetworkEndpoint) (user_id : string)
  : M W (result NetworkEndpoint BingleError) :=
  opened ← call nsk user_id;
  match opened with
  | Err _ => mret (Err (SendFailed RelayAllocationFailed))
  | Ok updated =>
      match relay_channel updated, relay_address updated with
      | Some channel, Some relay_addr =>
          match relay_id updated with
          | None => panic
          | Some rid =>
              g ← get_engine;
              _ ← set_engine (set_node (turn_handle_call_response
                    (default relay_addr (inet_socket_address updated)) relay_addr channel rid
                    (eng_node g)) g);
              mret (Ok updated)
          end
      | _, _ => mret (Ok updated)
      end
  end.

Definition effective_endpoint (call : opener) (nsk : NetworkEndpoint) (user_id : string)
  : M W (result NetworkEndpoint BingleError) :=
  match relay_id nsk, relay_channel nsk with
  | Some rid, None =>
      me ← my_id;
      if decide (me = Some rid) then self_relay_endpoint nsk user_id
      else open_channel call nsk user_id
  | _, _ => mret (Ok nsk)
  end.

Definition send_with (call : opener) (nsk : NetworkEndpoint) (user_id : string) (p : payload)
  : M W (result bool BingleError) :=
  if negb (valid_id user_id) then mret (Err (SendFailed InvalidRecipientId))
  else let! effective := effective_endpoint call nsk user_id in send_over_dtls effective p.

(** ** Requests *)

(** The wait for the response to [tag]: whatever arrives, then the end of the wait. *)
Definition await_response (tag : Z) : M W (option payload) :=
  events ← use meanwhile;
  g ← get_engine;
  let '(g, resp) := end_wait tag (io_run (parse_uuid cfg) (node_is_relay cfg) (surroundings cfg)
    (show_ipv6 cfg) (run_dispatch cfg) events g) in
  _ ← set_engine g;
  mret resp.

(** [send_message_to_network_with_response_timeout]. *)
Definition request_with (call : opener) (nsk : NetworkEndpoint) (user_id : string) (p : payload)
  : M W (result payload BingleError) :=
  tag ← use new_uuid;
  g ← get_engine;
  _ ← set_engine (register_pending tag g);
  let! sent := send_with call nsk user_id (WithTag (show_uuid cfg tag) p) in
  if sent then
    resp ← await_response tag;
    mret (ok_or resp (SendFailed NoResponse))
  else mret (Err OtherError).
(** ** The database client *)

Definition NO_DATE : string := "1970-01-01T00:00:00Z".

Definition find_relay : M W (result RelayInfo BingleError) :=
  me ← my_id;
  match me with
  | None => mret (Err OtherError)
  | Some me =>
      found ← find_relay_for me;
      mret (ok_or found Retryable)
  end.

Definition relay_user_id (rid : string) : result string BingleError :=
  if valid_id rid then Ok rid else Err OtherError.

(** The relay to talk to: its endpoint and its id. *)
Definition relay_contact : M W (result (NetworkEndpoint * string) BingleError) :=
  let! relay := find_relay in
  let! user := mret (relay_user_id (relay_id_of relay)) in
  addr ← lift (address relay);
  mret (Ok (new_direct addr, user)).

Definition require_my_id : M W (result string BingleError) :=
  me ← my_id; mret (ok_or me OtherError).

(** A record of this node, signed when the key is there. *)
Definition own_record (me : string) (ep : option InetSocketAddress) (am_relay : bool)
  (rid rsig : option string) : AdvertRecord :=
  match signing_key cfg with
  | Some sk => advert_new (to_vec cfg) (sign cfg) (base64_encode cfg) me ep (Some am_relay) rid rsig
                 NO_DATE sk
  | None => new_unsigned me ep (Some am_relay) rid rsig NO_DATE
  end.

Definition own_upsert (me : string) (r : AdvertRecord) : payload :=
  Typed (MDdb (UpsertResolve (MkUpsert me 1 r (default "SIG" (sig r)) false None None))).

Section Client.
Context (call : opener).

Definition expect_update (resp : payload) : result unit BingleError :=
  match resp with
  | Typed (MDdb (UpdateResponse _)) => Ok tt
  | _ => Err OtherError
  end.

Definition client_register_ip (endpoint : SocketAddr) (am_relay : bool) : M W (result unit BingleError) :=
  let! contact := relay_contact in
  let! me := require_my_id in
  let r := own_record me (Some (inet_from (show_ipv6 cfg) endpoint)) am_relay None None in
  let! resp := request_with call contact.1 contact.2 (own_upsert me r) in
  mret (expect_update resp).

Definition client_register_relay (rid : string) (rsig : option string) : M W (result unit BingleError) :=
  let! relay := find_relay in
  let! user := mret (relay_user_id (relay_id_of relay)) in
  let! _ := mret (relay_user_id rid) in
  addr ← lift (address relay);
  let! me := require_my_id in
  let r := own_record me None (node_is_relay cfg) (Some rid) rsig in
  let! resp := request_with call (new_direct addr) user (own_upsert me r) in
  mret (expect_update resp).

Definition client_signoff : M W (result unit BingleError) :=
  let! contact := relay_contact in
  let! me := require_my_id in
  let! sent := send_with call contact.1 contact.2
                 (Typed (MDdb (Signoff (MkSignoff me false None None)))) in
  mret (if sent : bool then Ok tt else Err OtherError).

(** What a record says about how to reach its node. *)
Definition endpoint_of_advert (r : AdvertRecord) : result NetworkEndpoint BingleError :=
  if negb (verify_advert r) then Err (SendFailed MalformedAdvert)
  else
    match adv_relay_id r with
    | Some rid => Ok (new_relay rid None None)
    | None =>
        match endpoint r with
        | Some ep =>
            match parse_ipv4 (host ep) with
            | Some i => Ok (new_direct (SockAddr i (inet_port ep)))
            | None => Err (SendFailed MalformedAdvert)
            end
        | None => Err (SendFailed MalformedAdvert)
        end
    end.

Definition read_query_response (resp : payload) : result NetworkEndpoint BingleError :=
  match resp with
  | Typed (MDdb (QueryResponse found advert _ _)) =>
      if negb found then Err (SendFailed RecipientNotAdvertised)
      else
        match advert with
        | None => Err (SendFailed MalformedAdvert)
        | Some r => endpoint_of_advert r
        end
  | _ => Err (SendFailed ProtocolError)
  end.

Definition client_lookup (i : string) : M W (result NetworkEndpoint BingleError) :=
  found ← find_relay;
  match found with
  | Err _ => mret (Err (SendFailed NoRelayAvailable))
  | Ok relay =>
      let! user := mret (relay_user_id (relay_id_of relay)) in
      addr ← lift (address relay);
      answered ← request_with call (new_direct addr) user (Typed (MDdb (QueryResolve i None)));
      match answered with
      | Err _ => mret (Err (SendFailed NoRelayAvailable))
      | Ok resp => mret (read_query_response resp)
      end
  end.

(** A count beyond [usize] cannot be reported: [db_count] is an [i64]. *)
Definition client_start_load (peer : string) : M W (result nat BingleError) :=
  root ← lookup_root_id peer;
  let! nsk := match root with Some nsk => mret (Ok nsk) | None => client_lookup peer end in
  match inet_socket_address nsk with
  | None => mret (Err OtherError)
  | Some addr =>
      let! user := mret (relay_user_id peer) in
      let! resp := request_with call (new_direct addr) user (Typed (MDdb (InitResolve None None))) in
      mret match resp with
           | Typed (MDdb (DdbInitResponse count _)) =>
               if count <? 0 then Err OtherError else Ok (Z.to_nat count)
           | _ => Err OtherError
           end
  end.

Definition DdbClientImpl : DdbClient W :=
  MkDdbClient client_register_ip client_register_relay client_lookup client_signoff
    client_start_load.

(** The relays a relay knows; those whose host is no IP address are left out. *)
Definition parse_ip (h : string) : option IpAddr :=
  match parse_ipv4 h with Some i => Some i | None => V6 <$> parse_ipv6 cfg h end.

Definition get_relays_from (relay : RelayInfo)
  : M W (result (list (string * SocketAddr)) BingleError) :=
  addr ← lift (address relay);
  let! user := mret (relay_user_id (relay_id_of relay)) in
  let! resp := request_with call (new_direct addr) user (Typed (MDdb (GetRelaysStatus (-1) None))) in
  mret match resp with
       | Typed (MDdb (RelaysStatusResponse _ _ st _)) =>
           match relay_endpoints st with
           | Some eps =>
               if Nat.eqb (length eps) (length (relay_ids st))
               then Ok (omap (fun p => (fun i => (p.1, SockAddr i (inet_port p.2))) <$> parse_ip (host p.2))
                          (zip (relay_ids st) eps))
               else Ok []
           | None => Ok []
           end
       | _ => Err OtherError
       end.
End Client.

(** ** Opening a channel *)

(** [RelayClient::call], with the request and the lookup it uses. *)
Definition relay_client_call
  (request : NetworkEndpoint -> string -> payload -> M W (result payload BingleError))
  (lookup : string -> M W (result NetworkEndpoint BingleError)) : opener := fun relay_nsk target =>
  match relay_id relay_nsk with
  | None => mret (Err OtherError)
  | Some rid =>
      let! addr :=
        match relay_address relay_nsk with
        | Some a => mret (Ok a)
        | None =>
            resolved ← lookup rid;
            mret match resolved with
                 | Err _ => Err OtherError
                 | Ok nsk => ok_or (inet_socket_address nsk) OtherError
                 end
        end in
      let! resp := request (new_direct addr) rid (Typed (MRelay (Call target None))) in
      mret match resp with
           | Typed (MRelay (RelayResponse (Some ch) _)) =>
               if ch <? 0 then Err OtherError
               else Ok (new_relay rid (Some addr) (Some (wrap 16 ch)))
           | _ => Err OtherError
           end
  end.

(** The database client of the engine: this one, or the null client. *)
Context (null_client : bool).

Definition engine_ddb_client (call : opener) : DdbClient W :=
  if null_client then NullDdbClient W else DdbClientImpl call.

Definition call_with (call : opener) : opener :=
  relay_client_call (request_with call) (ddb_lookup (engine_ddb_client call)).

(** No request of [call_with] opens a channel: whatever stands here is not called. *)
Definition relay_call : opener := call_with (fun _ _ => panic).

Definition ddb_client : DdbClient W := engine_ddb_client relay_call.

(** ** The public operations *)

Definition send_message_to_network := send_with relay_call.

Definition send_message_to_network_with_response := request_with relay_call.

Definition send_message_to_id (user_id : string) (p : payload) : M W (result bool BingleError) :=
  root ← (if has_app_id cfg then lookup_root_id user_id else mret None);
  match root with
  | Some nsk => send_message_to_network nsk user_id p
  | None =>
      let! nsk := ddb_lookup ddb_client user_id in
      send_message_to_network nsk user_id p
  end.

Definition of_lookup_error (e : HandleCacheOps.lookup_error) : BingleError :=
  match e with
  | HandleCacheOps.LookupFailed algo => if algo then Algo else OtherError
  | HandleCacheOps.LookupTimeout => Retryable
  | HandleCacheOps.LookupNotConfigured => OtherError
  end.

(** Default: ten minutes. *)
Definition handle_expiry : Z := default 600000 (handle_cache_expiry cfg).

(** The chain is asked only after a miss. *)
Definition handle_lookup_at (h : string) (now : Z) : M W (result (option string) BingleError) :=
  fun s =>
    let miss := bool_decide
      ((HandleCacheOps.get_id_by_handle now handle_expiry h (handle_cache s)).2 = None) in
    let ask := has_app_id cfg && has_provider cfg in
    let '(w, answer) := if miss && ask then chain_handle h (outside s)
                        else (outside s, HandleCacheOps.ChainTimeout) in
    let '(w, later) := if miss && ask then clock w else (w, now) in
    let '(c, r) := HandleCacheOps.handle_lookup ask handle_expiry now later h answer (fun c => c)
                     (handle_cache s) in
    Returns (MkApi w (eng s) c, map_err of_lookup_error r).

Definition handle_lookup (h : string) : M W (result (option string) BingleError) :=
  use clock ≫= handle_lookup_at h.

Definition send_message_to_handle (h : string) (p : payload) : M W (result bool BingleError) :=
  found ← handle_lookup h;
  match found with
  | Err (SendFailed k) => mret (Err (SendFailed k))
  | Err _ => mret (Err (SendFailed HandleLookupFailed))
  | Ok None => mret (Err (SendFailed HandleNotFound))
  | Ok (Some user_id) => send_message_to_id user_id p
  end.

Definition send_message_to_id_with_response (user_id : string) (p : payload)
  : M W (result payload BingleError) :=
  found ← ddb_lookup ddb_client user_id;
  match found with
  | Err _ => mret (Err OtherError)
  | Ok nsk => send_message_to_network_with_response nsk user_id p
  end.

Definition send_message_to_handle_with_response (h : string) (p : payload)
  : M W (result payload BingleError) :=
  let! found := handle_lookup h in
  match found with
  | None => mret (Err OtherError)
  | Some user_id => send_message_to_id_with_response user_id p
  end.
End Sending.

(** ** Facts about sending *)

Section SendingFacts.
Context {SigningKey W : Type} `{Outside W} (cfg : setting SigningKey).

(** Sending leaves the waiting requests alone. *)
Lemma send_to_peer_pending show now to res g g' r :
  send_to_peer show now to res g = Returns (g', r) -> pending_responses g' = pending_responses g.
Proof using.
  unfold send_to_peer, note_sent, see_endpoint. intros E.
  destruct (send_guard now to g) as [[err|]|]; [by injection E as <- <-| |done].
  destruct (get_key to) as [[k|]|]; [|by destruct (inet_socket_address to); injection E as <- <-|done].
  by destruct (is_ok res), (inet_socket_address to); injection E as <- <-.
Qed.

(** The ways [send_over_dtls] can end. *)
Lemma send_over_dtls_cases nsk p (s s' : api W) r :
  send_over_dtls cfg nsk p s = Returns (s', r) ->
  pending_responses (eng s') = pending_responses (eng s) /\
  handle_cache s' = handle_cache s /\
  (r = Ok true \/ r = Ok false \/ r = Err (SendFailed PeerUnreachable)).
Proof using.
  unfold send_over_dtls, mbind, M_bind, get_engine, mret, M_ret. intros E.
  destruct (is_relay nsk && _); [injection E as <- <-; by eauto|].
  destruct (bool_decide (is_Some _) && _); [injection E as <- <-; by eauto|].
  unfold use, lift, set_engine in E. destruct (clock (outside s)) as [w1 now]. simpl in E.
  destruct (send_guard now nsk (eng s)) as [guard|]; [|done].
  destruct guard as [err|]; simpl in E; [|destruct (transport_send nsk p w1) as [w2 res]; simpl in E].
  all: destruct (send_to_peer (show_ipv6 cfg) now nsk _ (eng s)) as [[g sent]|] eqn:Eg; [|done].
  all: apply send_to_peer_pending in Eg.
  all: destruct sent as [u|e]; [|destruct (contains _ e)]; injection E as <- <-; simpl; eauto.
Qed.

(** The only failure of [effective_endpoint], and when. *)
Lemma effective_endpoint_err call nsk u (s s' : api W) e :
  effective_endpoint call nsk u s = Returns (s', Err e) ->
  e = SendFailed RelayAllocationFailed /\ is_relay nsk = true /\ relay_channel nsk = None.
Proof using.
  unfold effective_endpoint, is_relay. intros E.
  destruct (relay_id nsk) as [rid|], (relay_channel nsk) as [ch|]; try (by simplify_eq).
  split; [|done]. unfold mbind, M_bind, my_id, get_engine, mret, M_ret in E. simpl in E.
  destruct (decide _).
  - unfold self_relay_endpoint, mret, M_ret, mbind, M_bind, get_engine in E.
    destruct (relay_address nsk); [by simplify_eq|].
    destruct (turn_handler_relay _) as [t|]; [|done].
    destruct (Relay.lookup_addr_by_id u t); by simplify_eq.
  - unfold open_channel, mbind, M_bind, mret, M_ret, get_engine, set_engine in E.
    destruct (call nsk u s) as [[s1 [up|e1]]|]; [|by simplify_eq|done].
    destruct (relay_channel up), (relay_address up); try (by simplify_eq).
    destruct (relay_id up); by simplify_eq.
Qed.

(** (C39) Every failure of a send has a typed cause, and only an invalid recipient is
    permanent: an error of [send_message_to_network] is [InvalidRecipientId], exactly
    when the id is no address; [RelayAllocationFailed], only for a relay endpoint
    without a channel; or [PeerUnreachable].  The procedure that opens channels does
    not depend on what it is given to open channels with, so the circle of calls
    between sending, requests and lookups ends. *)
Theorem send_failure_typed null nsk u p (s s' : api W) e :
  (forall call target r, call_with cfg null call nsk target r = relay_call cfg null nsk target r) /\
  (send_message_to_network cfg null nsk u p s = Returns (s', Err e) ->
   exists k, e = SendFailed k /\
     (k = InvalidRecipientId <-> valid_id cfg u = false) /\
     (is_retryable k = false <-> k = InvalidRecipientId) /\
     (k = RelayAllocationFailed -> is_relay nsk = true /\ relay_channel nsk = None) /\
     k ∈ [InvalidRecipientId; RelayAllocationFailed; PeerUnreachable]).
Proof using.
  split; [by destruct null|]. unfold send_message_to_network, send_with.
  destruct (valid_id cfg u) eqn:Ev; simpl.
  2:{ intros [= <- <-]. eexists. split_and!; try done; [set_solver]. }
  intros E. unfold try_bind, mbind, M_bind in E.
  destruct (effective_endpoint (relay_call cfg null) nsk u s) as [[s1 [eff|e1]]|] eqn:Ee; [| |done].
  - apply send_over_dtls_cases in E as (_ & _ & [[=]|[[=]|[= ->]]]). eexists. split_and!; try done; set_solver.
  - injection E as <- <-. apply effective_endpoint_err in Ee as (-> & Hr & Hc).
    eexists. split_and!; try done; set_solver.
Qed.

(** A request waits only if it was sent: when a request to a direct endpoint returns,
    its waiter has been removed if a response came or the wait ended without one; but
    a request that could not be sent returns at once and leaves its waiter in the
    table for good. *)
Theorem request_waiter_leak call a u p (s s' : api W) w tag r :
  new_uuid (outside s) = (w, tag) ->
  request_with cfg call (new_direct a) u p s = Returns (s', r) ->
  pending_responses (eng s') !! tag =
    match r with
    | Ok _ | Err (SendFailed NoResponse) => None
    | Err _ => Some (MkWait false None)
    end.
Proof using.
  intros Ht E. unfold request_with, mbind, M_bind, use, get_engine, set_engine, try_bind in E.
  rewrite Ht in E. simpl in E. unfold send_with in E.
  destruct (valid_id cfg u); [|injection E as <- <-; simpl; by rewrite lookup_insert_eq].
  change (effective_endpoint call (new_direct a) u) with (mret (M := M W) (@Ok _ BingleError (new_direct a))) in E.
  unfold try_bind, mbind, M_bind, mret, M_ret in E. simpl in E.
  match type of E with context [send_over_dtls cfg ?n ?q ?st] =>
    destruct (send_over_dtls cfg n q st) as [[s1 r1]|] eqn:Es; [|done] end.
  apply send_over_dtls_cases in Es as (Hp & _ & Hr). simpl in Hp.
  destruct Hr as [->|[->| ->]].
  2,3: injection E as <- <-; simpl; rewrite Hp; by rewrite lookup_insert_eq.
  unfold await_response, mbind, M_bind, use, get_engine, set_engine in E.
  destruct (meanwhile (outside s1)) as [w1 evs]. simpl in E.
  set (g := io_run _ _ _ _ _ _ _) in E. unfold end_wait in E.
  destruct (pending_responses g !! tag) as [wt|] eqn:Ep.
  - destruct (if wait_responded wt then _ else _); injection E as <- <-; simpl; by rewrite lookup_delete_eq.
  - injection E as <- <-; simpl; done.
Qed.
End SendingFacts.

(** A relay that sends through another relay takes over its own clients' channel: the
    channel number the other relay allocated is entered in this relay's own table, so
    a channel of the same number between [a] and [b] is rebound, and what [a] sends on
    it is no longer forwarded to [b] but received as a message for this relay. *)
Theorem foreign_channel_rebinds n t ch a b relay_addr rid data msg lp :
  turn_handler_relay n = Some t -> relay_wf t -> ch_to_pair t !! ch = Some (a, b) ->
  a <> relay_addr -> build_channel_data ch data = Some msg ->
  exists t' ep ep',
    turn_handler_relay (turn_handle_call_response relay_addr relay_addr ch rid n) = Some t' /\
    Relay.handle_turn_incoming (Some a) (Some lp) msg t = Some (Wrapped b ep data (bool_decide (a = b))) /\
    Relay.handle_turn_incoming (Some a) (Some lp) msg t' = Some (Wrapped relay_addr ep' data true).
Proof.
  intros Ht Hwf Hch Hne Hm. destruct (incoming_mapped t ch a b data msg a lp Hwf Hch Hm) as [ep Hep].
  rewrite decide_True in Hep by done.
  pose proof (wf_range _ Hwf _ _ Hch).
  destruct (parse_build_channel_data ch data msg) as (Hp & Hs & _);
    [unfold in_width, MIN_CH, MAX_CH in *; lia|done|].
  set (t' := Relay.handle_call_response relay_addr relay_addr ch rid t).
  assert (exists ep', Relay.handle_turn_incoming (Some a) (Some lp) msg t'
    = Some (Wrapped relay_addr ep' data true)) as [ep' Hep'].
  { unfold Relay.handle_turn_incoming, t'. rewrite Hp. simpl. rewrite lookup_insert_eq. simpl.
    rewrite lookup_insert_eq, Hs, lookup_insert_ne by done. rewrite !bool_decide_eq_true_2 by done.
    destruct (allowed_addr_to_id t !! a); by eauto. }
  exists t', ep, ep'. split_and!; [|done..]. unfold turn_handle_call_response.
  destruct (turn_handler_client n); simpl; by rewrite Ht.
Qed.

(** ** A node cut off *)

Module ApiExample.
#[export] Instance cut_off : Outside Z := {
  clock := fun w => (w, 0);
  new_uuid := fun w => (w + 1, w);
  transport_send := fun _ _ w => (w, Err "connect timeout");
  meanwhile := fun w => (w, []);
  find_relay_for := fun _ => mret None;
  lookup_root_id := fun _ => mret None;
  chain_handle := fun _ w => (w, HandleCacheOps.ChainTimeout)
}.
Definition cfg : setting Z :=
  MkSetting _ (fun _ => "u1") TrafficExample.parse_uuid (fun _ => Some (replicate 36 0))
    (fun _ => EmptyString) (fun _ => None) (fun _ => []) (fun _ _ => []) (fun _ _ _ => false)
    (fun _ => true) (fun _ => EmptyString) (fun _ => None) (fun _ => None) None false true true None
    HandlersExample.surroundings (fun _ _ _ n => Returns (n, [])).
Definition node : api Z := MkApi 1 TrafficExample.eng HandleCacheOps.new.
End ApiExample.

Lemma request_waiter_leak_witness :
  exists s', request_with (H := ApiExample.cut_off) ApiExample.cfg (fun _ _ => panic) (new_direct HandlersExample.alice) "A"
      (Typed (MRelay (RelayCheck None))) ApiExample.node = Returns (s', Err (SendFailed PeerUnreachable)) /\
    pending_responses (eng s') !! 1 = Some (MkWait false None).
Proof.
  eexists. split; [reflexivity|].
  exact (request_waiter_leak (H := ApiExample.cut_off) ApiExample.cfg (fun _ _ => panic) HandlersExample.alice "A"
    (Typed (MRelay (RelayCheck None))) ApiExample.node _ 2 1 _ eq_refl eq_refl).
Defined.

Lemma foreign_channel_rebinds_witness :
  let r := Relay.handle_call 0 "A" "B" HandlersExample.alice HandlersExample.bob Relay.new in
  exists t' ep, turn_handler_relay (turn_handle_call_response (SockAddr (V4 9 9 9 9) 1)
      (SockAddr (V4 9 9 9 9) 1) r.2 "R2" (set_turn_relay r.1 HandlersExample.relay)) = Some t' /\
    option_map (fun m => Relay.handle_turn_incoming (Some HandlersExample.alice)
      (Some (SockAddr (V4 1 2 3 4) 3478)) m t') (build_channel_data r.2 [1; 2])
    = Some (Some (Wrapped (SockAddr (V4 9 9 9 9) 1) ep [1; 2] true)).
Proof.
  intros r. destruct (build_channel_data r.2 [1; 2]) as [m|] eqn:Em; [|vm_compute in Em; discriminate].
  destruct (foreign_channel_rebinds (set_turn_relay r.1 HandlersExample.relay) r.1 r.2
    HandlersExample.alice HandlersExample.bob (SockAddr (V4 9 9 9 9) 1) "R2" [1; 2] m
    (SockAddr (V4 1 2 3 4) 3478)) as (t' & ep & ep' & H1 & _ & H2).
  - reflexivity.
  - apply (run_ops_wf [OpCall 0 "A" "B" HandlersExample.alice HandlersExample.bob] _ relay_wf_new).
  - vm_compute. reflexivity.
  - discriminate.
  - exact Em.
  - exists t', ep'. split; [exact H1|]. cbn [option_map]. by rewrite H2.
Defined.
