(* ===== verification/EndToEnd.v ===== *)
(** * Nodes and a relay together

    Composes the clients of [Api] with the engine of a relay ([EngineIo],
    [Handlers]): a node's transport hands its messages to the relay, which receives
    them, runs the handler thread and sends its replies back; what a node sends on a
    channel of the relay is recorded.  The theorems follow an advert from its
    registration to a lookup by another node, and a message to a node behind a relay
    from the lookup to the channel. *)
From S2P Require Import Prelude NetAddr Turn Mutex Advert Ddb RelayCache RelayUpdater.
From S2P Require Import Messages Handlers EngineIo HandleCache Api.

Local Open Scope Z_scope.

(** The relay's engine, what it has sent to this node and the node has not yet
    received, what it has put out for others, what the node has sent on channels, the
    next request tag and the time. *)
Record world : Type := MkWorld {
  relay : engine;
  inbox : list io_event;
  others : list output;
  on_channels : list (Z * payload);
  next_tag : Z;
  time : Z
}.

(** Where the relay is, as the finder reports it. *)
Record site : Type := MkSite {
  site_info : RelayInfo;
  site_addr : SocketAddr;
  site_env : env;
  site_lease : Z;
  site_seed : Z
}.

Section World.
Context {SigningKey : Type} (base : setting SigningKey) (st : site).

Definition site_id : string := relay_id_of (site_info st).

Definition relay_dispatch (now : Z) : router -> FromStruct -> Message -> node -> outcome (node * list output) :=
  dispatch_message (to_vec base) (ed25519_verify base) (valid_key base) (base64_decode base)
    (address_to_byte_key base) (show_ipv6 base) (site_lease st) (site_env st) now (site_seed st).

(** The node this is the world of: its id and its address. *)
Section Node.
Context (me : string) (my_addr : SocketAddr).

Definition delivery (now : Z) (o : output) : option io_event :=
  match o with
  | Response p => Some (EvReceive now (new_direct (site_addr st)) site_id p)
  | Send to _ p =>
      if decide (to = new_direct my_addr)
      then Some (EvReceive now (new_direct (site_addr st)) site_id p) else None
  | _ => None
  end.

(** The relay receives the message and handles it: the thread that is started for it
    runs, whatever threads of other messages are still to run. *)
Definition relay_handles (p : payload) (w : world) : world :=
  match receive (parse_uuid base) true (site_env st) (time w) (new_direct my_addr) me p (relay w) with
  | Panics => w
  | Returns (g, out, _) =>
      let '(g, out') := run_thread (relay_dispatch (time w)) (length (threads (relay w))) g in
      MkWorld g (inbox w ++ omap (delivery (time w)) (out ++ out'))
        (others w ++ filter (fun o => delivery (time w) o = None) (out ++ out'))
        (on_channels w) (next_tag w) (time w)
  end.

Definition site_transport (to : NetworkEndpoint) (p : payload) (w : world) : world * result unit string :=
  if decide (to = new_direct (site_addr st)) then (relay_handles p w, Ok tt)
  else
    match relay_channel to with
    | Some ch =>
        if decide (relay_address to = Some (site_addr st))
        then (MkWorld (relay w) (inbox w) (others w) (on_channels w ++ [(ch, p)]) (next_tag w) (time w), Ok tt)
        else (w, Err "unreachable")
    | None => (w, Err "unreachable")
    end.

#[export] Instance site_outside : Outside world := {
  clock := fun w => (w, time w);
  new_uuid := fun w =>
    (MkWorld (relay w) (inbox w) (others w) (on_channels w) (next_tag w + 1) (time w), next_tag w);
  transport_send := site_transport;
  meanwhile := fun w =>
    (MkWorld (relay w) [] (others w) (on_channels w) (next_tag w) (time w), inbox w);
  find_relay_for := fun _ => mret (Some (site_info st));
  lookup_root_id := fun _ => mret None;
  chain_handle := fun _ w => (w, HandleCacheOps.ChainTimeout)
}.
End Node.
End World.

(** The settings of a node with its own key. *)
Definition with_key {SigningKey} (k : option SigningKey) (c : setting SigningKey) : setting SigningKey :=
  MkSetting _ (show_uuid c) (parse_uuid c) (base32_decode c) (show_ipv6 c) (parse_ipv6 c) (to_vec c)
    (sign c) (ed25519_verify c) (valid_key c) (base64_encode c) (base64_decode c)
    (address_to_byte_key c) k (node_is_relay c) (has_app_id c) (has_provider c)
    (handle_cache_expiry c) (surroundings c) (run_dispatch c).

(** A node that can reach the relay now: it knows its own id, the relay's id and
    handle, is not the relay, and does not back off from it or its channels. *)
Record reaches {SigningKey} (cfg : setting SigningKey) (st : site) (me : string) (s : api world)
  : Prop := {
  r_me : get_my_id (eng_node (eng s)) = Some me;
  r_id : valid_id cfg (site_id st) = true;
  r_addr : address (site_info st) = Returns (site_addr st);
  r_other : last_public_addr (eng_node (eng s)) <> Some (site_addr st);
  r_guard : send_guard (time (outside s)) (new_direct (site_addr st)) (eng s) = Returns None;
  r_channels : forall ch, send_guard (time (outside s))
    (new_relay (site_id st) (Some (site_addr st)) (Some ch)) (eng s) = Returns None;
  r_known : is_Some (handle_lookup_by_id (surroundings cfg) (norm_id (site_id st)));
  r_uuid : forall u, parse_uuid cfg (show_uuid cfg u) = Some u;
  r_inbox : inbox (outside s) = []
}.

(** ** A request to the relay *)

(** A peer marked as working does not make the node back off. *)
Lemma guard_no_worse t to g g' k ts :
  eng_node g' = eng_node g ->
  endpoint_status g' = <[k := MkStatusEntry ts true]> (endpoint_status g) ->
  send_guard t to g = Returns None -> send_guard t to g' = Returns None.
Proof.
  intros En Es. unfold send_guard. rewrite En, Es.
  destruct (is_relay to && _); [done|].
  destruct (bool_decide (is_Some (inet_socket_address to)) && _); [done|].
  destruct (get_key to) as [[k'|]|]; try done.
  destruct (decide (k = k')) as [->|Hne]; [by rewrite lookup_insert_eq|by rewrite lookup_insert_ne].
Qed.

(** Receiving from a peer leaves the node as it is and does not make it back off
    from any. *)
Definition no_worse (t : Z) (g g' : engine) : Prop :=
  eng_node g' = eng_node g /\
  forall to, send_guard t to g = Returns None -> send_guard t to g' = Returns None.

Lemma receive_step parse am e show d t a iss p g :
  no_worse t g (io_step parse am e show d g (EvReceive t (new_direct a) iss p)).
Proof.
  unfold no_worse. simpl. unfold receive. simpl. destruct (handle_lookup_by_id e (norm_id iss)); [|done].
  destruct (response_tag_of p) as [tag|]; [|split; [done|intros to; by eapply guard_no_worse]].
  unfold fulfil. destruct (parse tag) as [u|]; [|split; [done|intros to; by eapply guard_no_worse]].
  simpl. destruct (pending_responses g !! u); (split; [done|intros to; by eapply guard_no_worse]).
Qed.

Lemma receive_run parse am e show d t a evs g :
  Forall (fun ev => exists iss p, ev = EvReceive t (new_direct a) iss p) evs ->
  no_worse t g (io_run parse am e show d evs g).
Proof.
  intros Hall. revert g. induction Hall as [|ev evs (iss & p & ->) _ IH]; intros g; [done|].
  destruct (receive_step parse am e show d t a iss p g) as [H1 H2].
  destruct (IH (io_step parse am e show d g (EvReceive t (new_direct a) iss p))) as [H3 H4].
  split; [by rewrite <- H1|]. intros to Ho. by apply H4, H2.
Qed.

(** What the events of a wait give the request [u]. *)
Lemma wait_gives parse am e show d t a iss h u tag resp evs1 evs2 g :
  parse tag = Some u -> response_tag_of resp = Some tag ->
  handle_lookup_by_id e (norm_id iss) = Some h ->
  forallb (fun ev => negb (concerns parse u ev)) evs1 = true ->
  forallb (fun ev => negb (concerns parse u ev)) evs2 = true ->
  is_Some (pending_responses g !! u) ->
  (end_wait u (io_run parse am e show d (evs1 ++ EvReceive t (new_direct a) iss resp :: evs2) g)).2
    = Some resp.
Proof.
  intros Hu Ht Hh H1 H2 [w Hw]. unfold io_run. rewrite foldl_app. cbn [foldl].
  change (foldl (io_step parse am e show d)) with (fun g evs => io_run parse am e show d evs g).
  cbv beta. set (g1 := io_run parse am e show d evs1 g).
  assert (pending_responses g1 !! u = Some w) as E1 by (unfold g1; by rewrite io_run_pending).
  unfold end_wait. rewrite io_run_pending by done.
  unfold io_step. unfold receive. rewrite Hh. simpl get_key. cbv iota beta. rewrite Ht. unfold fulfil.
  rewrite Hu. simpl. rewrite E1. simpl. by rewrite lookup_insert_eq.
Qed.

(** [end_wait] touches only the table of waiters. *)
Lemma end_wait_frame u g :
  eng_node (end_wait u g).1 = eng_node g /\
  (forall t to, send_guard t to (end_wait u g).1 = send_guard t to g).
Proof. unfold end_wait. by destruct (pending_responses g !! u). Qed.

(** Runs the steps of a computation. *)
Ltac mrun := unfold try_bind, mbind, M_bind, mret, M_ret, get_engine, set_engine, use, lift; simpl.

Section Requests.
Context {SigningKey : Type} (base : setting SigningKey) (st : site).
Context (k : option SigningKey) (me : string) (my_addr : SocketAddr).
Let cfg := with_key k base.
Let H := site_outside base st me my_addr.

(** A message the relay takes over the transport. *)
Lemma site_send call p (s : api world) :
  reaches cfg st me s ->
  exists g, send_with (H := H) cfg call (new_direct (site_addr st)) (site_id st) p s
    = Returns (MkApi (relay_handles base st me my_addr p (outside s)) g (handle_cache s), Ok true) /\
  pending_responses g = pending_responses (eng s) /\ no_worse (time (outside s)) (eng s) g.
Proof using.
  intros [Hme Hid Haddr Hoth Hg Hc Hk Hu Hin]. unfold send_with. rewrite Hid. cbn [negb].
  change (effective_endpoint call (new_direct (site_addr st)) (site_id st))
    with (mret (M := M world) (@Ok _ BingleError (new_direct (site_addr st)))).
  unfold send_over_dtls. mrun.
  rewrite bool_decide_eq_false_2 by done. simpl. rewrite Hg. simpl.
  unfold site_transport. rewrite decide_True by done. simpl.
  unfold send_to_peer. rewrite Hg. simpl. eexists. split; [reflexivity|]. split; [done|]. split; [done|].
  intros to. by eapply guard_no_worse.
Qed.

(** A request the relay answers among other messages. *)
Lemma site_request call p (s : api world) g1 g2 out evs1 evs2 resp :
  let t := time (outside s) in
  let tag := show_uuid base (next_tag (outside s)) in
  let answer := EvReceive t (new_direct (site_addr st)) (site_id st) in
  reaches cfg st me s ->
  receive (parse_uuid base) true (site_env st) t (new_direct my_addr) me (WithTag tag p)
    (relay (outside s)) = Returns (g1, [], Ok tt) ->
  run_thread (relay_dispatch base st t) (length (threads (relay (outside s)))) g1 = (g2, out) ->
  omap (delivery st my_addr t) out = (answer <$> evs1) ++ answer resp :: (answer <$> evs2) ->
  response_tag_of resp = Some tag ->
  Forall (fun p => response_tag_of p = None) (evs1 ++ evs2) ->
  exists s', request_with (H := H) cfg call (new_direct (site_addr st)) (site_id st) p s = Returns (s', Ok resp) /\
    relay (outside s') = g2 /\ time (outside s') = t /\ on_channels (outside s') = on_channels (outside s) /\
    others (outside s') = others (outside s) ++ filter (fun o => delivery st my_addr t o = None) out /\
    eng_node (eng s') = eng_node (eng s) /\ reaches cfg st me s'.
Proof using.
  intros t tag answer Hr Hrec Hrun Hout Hresp Hev.
  unfold request_with. mrun.
  set (s1 := MkApi (MkWorld _ _ _ _ _ _) _ _).
  assert (reaches cfg st me s1) as Hr1 by (destruct Hr; by split).
  destruct (site_send call (WithTag tag p) s1 Hr1) as (g & E & Ep & [En Eg]).
  fold tag. rewrite E. unfold await_response. mrun.
  unfold relay_handles. cbn [outside s1 time relay inbox]. fold t. rewrite Hrec, Hrun. cbn [inbox time].
  rewrite (r_inbox _ _ _ _ Hr). cbn [app]. rewrite Hout.
  destruct (r_known _ _ _ _ Hr) as [h Hh].
  assert (forall l, Forall (fun p => response_tag_of p = None) l ->
    forallb (fun ev => negb (concerns (parse_uuid base) (next_tag (outside s)) ev)) (answer <$> l) = true)
    as Hquiet by (intros l Hl; induction Hl as [|q l Hq _ IH]; simpl; [done|by rewrite Hq]).
  apply Forall_app in Hev as [Hev1 Hev2].
  assert (Forall (fun ev => exists iss q, ev = EvReceive t (new_direct (site_addr st)) iss q)
    ((answer <$> evs1) ++ answer resp :: (answer <$> evs2))) as Hall
    by (apply Forall_forall; intros ev [Hi|[->|Hi]%elem_of_cons]%elem_of_app;
        [apply list_elem_of_fmap in Hi as (q & -> & _)| |apply list_elem_of_fmap in Hi as (q & -> & _)];
        unfold answer; eauto).
  pose proof (wait_gives (parse_uuid base) (node_is_relay base) (surroundings base) (show_ipv6 base)
    (run_dispatch base) t (site_addr st) (site_id st) h (next_tag (outside s)) tag resp
    (answer <$> evs1) (answer <$> evs2) g (r_uuid _ _ _ _ Hr _) Hresp Hh (Hquiet _ Hev1) (Hquiet _ Hev2))
    as Hgot.
  destruct (receive_run (parse_uuid base) (node_is_relay base) (surroundings base) (show_ipv6 base)
    (run_dispatch base) t (site_addr st) _ g Hall) as [Hn Ho].
  set (g3 := io_run _ _ _ _ _ _ g) in *. fold answer in Hgot. rewrite En in Hn. cbn [eng s1] in Hn, Ep.
  destruct (end_wait_frame (next_tag (outside s)) g3) as [Fn Fg].
  destruct (end_wait (next_tag (outside s)) g3) as [g4 got]. cbn [fst snd] in Hgot, Fn, Fg.
  rewrite Hgot by (rewrite Ep; simpl; rewrite lookup_insert_eq; by eauto).
  eexists. split; [reflexivity|]. simpl. split_and!; [done..|by rewrite Fn, Hn|].
  destruct Hr as [? ? ? Hpub Hg Hch ? ? ?]. split; try done; simpl.
  - by rewrite Fn, Hn.
  - by rewrite Fn, Hn.
  - rewrite Fg. by apply Ho, Eg.
  - intros ch. rewrite Fg. apply Ho, Eg. apply (Hch ch).
Qed.

(** The router as the handler of the node's request sees it. *)
Definition asked_router (tag : string) (g : engine) : router :=
  MkRouter (Some my_addr) (Some tag) true (has_sender (eng_router g)) (has_on_message (eng_router g)) true.

(** The relay knows the node and can send. *)
Definition serves (g : engine) : Prop :=
  has_sender (eng_router g) = true /\
  is_Some (handle_lookup_by_id (site_env st) (norm_id me)).

Lemma relay_runs t tag p g n out :
  serves g ->
  relay_dispatch base st t (asked_router tag g) (MkFrom me (new_direct my_addr))
    (retag tag (decode_message p)) (eng_node g) = Returns (n, out) ->
  exists g1 g2,
    receive (parse_uuid base) true (site_env st) t (new_direct my_addr) me (WithTag tag p) g
      = Returns (g1, [], Ok tt) /\
    run_thread (relay_dispatch base st t) (length (threads g)) g1 = (g2, out) /\ eng_node g2 = n /\ serves g2.
Proof using.
  intros (Hsnd & [h Hh]) Hd. unfold receive. rewrite Hh. simpl.
  eexists _, _. split; [reflexivity|]. unfold run_thread. simpl.
  rewrite lookup_app_r, Nat.sub_diag by lia. simpl.
  unfold bind_router, asked_router in *. simpl. rewrite Hd.
  split; [reflexivity|]. split; [done|]. split; [done|by eauto].
Qed.

(** A request, from the node's call to the relay's answer. *)
Lemma site_ask call p (s : api world) n out evs1 evs2 resp :
  let t := time (outside s) in
  let tag := show_uuid base (next_tag (outside s)) in
  let answer := EvReceive t (new_direct (site_addr st)) (site_id st) in
  reaches cfg st me s -> serves (relay (outside s)) ->
  relay_dispatch base st t (asked_router tag (relay (outside s))) (MkFrom me (new_direct my_addr))
    (retag tag (decode_message p)) (eng_node (relay (outside s))) = Returns (n, out) ->
  omap (delivery st my_addr t) out = (answer <$> evs1) ++ answer resp :: (answer <$> evs2) ->
  response_tag_of resp = Some tag ->
  Forall (fun p => response_tag_of p = None) (evs1 ++ evs2) ->
  exists s', request_with (H := H) cfg call (new_direct (site_addr st)) (site_id st) p s = Returns (s', Ok resp) /\
    eng_node (relay (outside s')) = n /\ serves (relay (outside s')) /\
    time (outside s') = t /\ on_channels (outside s') = on_channels (outside s) /\
    others (outside s') = others (outside s) ++ filter (fun o => delivery st my_addr t o = None) out /\
    eng_node (eng s') = eng_node (eng s) /\ reaches cfg st me s'.
Proof using.
  intros t tag answer Hr Hs Hd Hout Hresp Hev.
  destruct (relay_runs t tag p _ n out Hs Hd) as (g1 & g2 & E1 & E2 & En & Hs2).
  destruct (site_request call p s g1 g2 out evs1 evs2 resp Hr E1 E2 Hout Hresp Hev)
    as (s' & E & Eg & Et & Ec & Eo & Enode & Hr').
  exists s'. rewrite Eg. by split_and!.
Qed.

(** The relay the node talks to. *)
Lemma site_contact (s : api world) :
  reaches cfg st me s ->
  find_relay (H := H) s = Returns (s, Ok (site_info st)) /\
  relay_user_id cfg (site_id st) = Ok (site_id st) /\
  relay_contact (H := H) cfg s = Returns (s, Ok (new_direct (site_addr st), site_id st)) /\
  require_my_id s = Returns (s, Ok me).
Proof using.
  intros [Hme Hid Haddr _ _ _ _ _ _].
  assert (find_relay (H := H) s = Returns (s, Ok (site_info st))) as Hf
    by (unfold find_relay, my_id; mrun; by rewrite Hme).
  assert (relay_user_id cfg (site_id st) = Ok (site_id st)) as Hu by (unfold relay_user_id; by rewrite Hid).
  split_and!; [done|done| |].
  - unfold relay_contact. mrun. rewrite Hf. change (relay_id_of (site_info st)) with (site_id st).
    rewrite Hu. by rewrite Haddr.
  - unfold require_my_id, my_id. mrun. by rewrite Hme.
Qed.
End Requests.

(** What [ripple_message] sends is its message. *)
Lemma ripple_sends now p who n o :
  o ∈ ripple_message now p who n -> exists to i, o = Send to i p.
Proof.
  unfold ripple_message. destruct (get_my_id n) as [i|]; [|by intros ?%not_elem_of_nil].
  set (send_to := fun id ep => if decide (id = i \/ id = who) then [] else _).
  assert (forall id ep, o ∈ send_to id ep -> exists to i, o = Send to i p) as Hs.
  { intros id ep. unfold send_to. case_decide; [by intros ?%not_elem_of_nil|].
    destruct (inet_try_into ep); [|by intros ?%not_elem_of_nil]. intros ->%list_elem_of_singleton. eauto. }
  destruct (mem_make_epoch_info now (backend n)) as [ids [eps|]]; intros (l & Ho & Hl)%list_elem_of_join.
  - apply elem_of_lookup_zip_with in Hl as (j & x & y & -> & _). by eapply Hs.
  - apply list_elem_of_fmap in Hl as (x & -> & _). destruct (mem_lookup now x (backend n)) as [r|];
      [|by apply not_elem_of_nil in Ho]. destruct (endpoint r); [by eapply Hs|by apply not_elem_of_nil in Ho].
Qed.

(** Those of them that come to the node. *)
Lemma ripples_delivered st my_addr now p l :
  (forall o, o ∈ l -> exists to i, o = Send to i p) ->
  exists m, omap (delivery st my_addr now) l =
    EvReceive now (new_direct (site_addr st)) (site_id st) <$> replicate m p.
Proof.
  induction l as [|o l IH]; intros Hl; [by exists 0%nat|].
  destruct IH as [m Hm]; [intros; apply Hl; by right|].
  destruct (Hl o) as (to & i & ->); [by left|]. csimpl. rewrite Hm.
  case_decide; [by exists (S m)|by exists m].
Qed.

(** ** The relay between two requests *)

(** The message is about the record of [i]: an upsert or a dump of it, its signoff,
    or a report that [i] has failed. *)
Definition names_record (i : string) (m : Message) : bool :=
  match m with
  | MDdb (UpsertResolve up) => bool_decide (id (up_record up) = i)
  | MDdb (DdbDumpResolve rec _ _) => bool_decide (id rec = i)
  | MDdb (Signoff so) => bool_decide (off_start_id so = i)
  | MReportFail (RelayReportFailed rep) | MReportFail (ReportFailedRipple rep) =>
      bool_decide (failed_relay_id rep = i)
  | _ => false
  end.

Section Between.
Context {SigningKey : Type} (base : setting SigningKey).

Definition on_backend (f : InMemoryDdbBackend -> InMemoryDdbBackend) (g : engine) : engine :=
  set_node (set_backend (f (backend (eng_node g))) (eng_node g)) g.

(** What a relay may do up to the time [until] while the record of [i] is left alone:
    anything that does not touch its database, as receiving and sending, the TURN
    tables and the mutex; running the handler of any message that is not about the
    record, from anyone, in any surroundings; storing another record (its own advert, the root
    relays'); the sweep of expired records; and the eviction of relays, whose
    snapshot was taken earlier. *)
Inductive relay_step (i : string) (until : Z) : engine -> engine -> Prop :=
| step_elsewhere g g' : backend (eng_node g') = backend (eng_node g) -> relay_step i until g g'
| step_handler lease e now seed k g from m :
    threads g !! k = Some (from, m) -> names_record i m = false ->
    relay_step i until g (run_thread
      (dispatch_message (to_vec base) (ed25519_verify base) (valid_key base) (base64_decode base)
         (address_to_byte_key base) (show_ipv6 base) lease e now seed) k g).1
| step_store now rec g : id rec <> i -> relay_step i until g (on_backend (mem_upsert now rec) g)
| step_sweep now g : now <= until ->
    relay_step i until g (on_backend (fun b => (mem_sweep_expired now b).2) g)
| step_evict now my_id permission snapshot g : db_wf snapshot ->
    (forall rec, mem_lookup now i snapshot = Some rec -> is_relay_record rec = false) ->
    relay_step i until g
      (on_backend (fun b => (evict_disallowed_relays now my_id permission (fun _ => b) snapshot).2) g).

(** The database holds [s] for [i]. *)
Record holds_record (i : string) (s : StoredRecord) (ttl : option Z) (own : option string)
  (g : engine) : Prop := {
  hr_wf : db_wf (backend (eng_node g));
  hr_record : db_map (backend (eng_node g)) !! i = Some s;
  hr_ttl : advert_ttl (backend (eng_node g)) = ttl;
  hr_own : own_id (backend (eng_node g)) = own
}.

#[local] Instance StoredRecord_eq_dec : EqDecision StoredRecord.
Proof. solve_decision. Defined.

(** A handler leaves the record alone unless its message is about it. *)
Lemma handler_leaves i s ttl own lease e now seed r from m g n out :
  names_record i m = false -> holds_record i s ttl own g ->
  dispatch_message (to_vec base) (ed25519_verify base) (valid_key base) (base64_decode base)
    (address_to_byte_key base) (show_ipv6 base) lease e now seed r from m (eng_node g) = Returns (n, out) ->
  holds_record i s ttl own (set_node n g).
Proof using.
  intros Hm [Hwf Hrec Httl Hown] Hd. pose proof (dispatch_settings _ _ _ _ _ _ _ _ _ _ _ _ _ _ _ _ Hd) as [Et Eo].
  pose proof (dispatch_authorised _ _ _ _ _ _ _ _ _ _ _ _ _ _ _ _ Hd) as Ha. split; simpl; [| |congruence..].
  - intros j x Hj. destruct (decide (db_map (backend n) !! j = db_map (backend (eng_node g)) !! j)) as [E|E].
    + apply Hwf. by rewrite <- E.
    + specialize (Ha j E). rewrite Hj in Ha. apply Ha.
  - rewrite <- Hrec. destruct (decide (db_map (backend n) !! i = db_map (backend (eng_node g)) !! i)) as [E|E]; [done|].
    exfalso. specialize (Ha i E). destruct (db_map (backend n) !! i) as [x|].
    + destruct Ha as (Hid & _ & Hst). destruct Hst; simpl in Hm; apply bool_decide_eq_false in Hm; congruence.
    + destruct Ha; simpl in Hm; apply bool_decide_eq_false in Hm; congruence.
Qed.

(** Eviction deletes the relays of its snapshot only. *)
Lemma eviction_leaves i now my_id permission snapshot b :
  db_wf snapshot -> (forall rec, mem_lookup now i snapshot = Some rec -> is_relay_record rec = false) ->
  let b' := (evict_disallowed_relays now my_id permission (fun _ => b) snapshot).2 in
  advert_ttl b' = advert_ttl b /\ own_id b' = own_id b /\
  (forall j x, db_map b' !! j = Some x -> db_map b !! j = Some x) /\
  db_map b' !! i = db_map b !! i.
Proof using.
  intros Hwf Hi b'. assert (i ∉ relays_to_evict (make_epoch_info now snapshot).1 my_id permission) as Hni.
  { unfold relays_to_evict. rewrite !list_elem_of_filter, epoch_ids by done.
    intros (_ & _ & rec & Hl & Hr). apply Hi in Hl. congruence. }
  unfold b', evict_disallowed_relays. cbn [snd]. generalize dependent b.
  induction (relays_to_evict _ _ _) as [|k l IH]; intros b; [done|]. cbn [foldl].
  apply not_elem_of_cons in Hni as [Hk Hl]. destruct (IH Hl (delete k b)) as (-> & -> & Hj & ->).
  cbn [delete in_memory_backend mem_delete set_map db_map advert_ttl own_id] in *.
  split_and!; [done|done| |by rewrite lookup_delete_ne].
  intros j x [_ Hx]%Hj%lookup_delete_Some. done.
Qed.

Lemma relay_step_holds i s until ttl own g g' :
  is_relay_record (record s) = false -> id (record s) = i ->
  (forall now, now <= until -> forall b, advert_ttl b = ttl -> own_id b = own -> is_expired b now s = false) ->
  relay_step i until g g' -> holds_record i s ttl own g -> holds_record i s ttl own g'.
Proof using.
  intros Hrel Hid Hexp Hstep Hh. destruct Hstep as [g g' E|lease e now seed k g from m Hk Hm|now rec g Hne|now g Hle|now my_id permission snap g Hwf Hsnap].
  - destruct Hh. by split; rewrite E.
  - unfold run_thread. rewrite Hk. cbn [eng_node set_threads].
    destruct (dispatch_message _ _ _ _ _ _ _ _ _ _ _ _ _ _) as [[n out]|] eqn:Ed; simpl.
    + by eapply (handler_leaves i s ttl own _ _ _ _ _ _ _ (set_threads _ g)); [done|destruct Hh; by split|exact Ed].
    + destruct Hh. by split.
  - destruct Hh as [Hwf Hrec Httl Hown]. split; simpl; [|by rewrite lookup_insert_ne|done..].
    intros j x. simpl. rewrite lookup_insert. case_decide; [|apply Hwf]. intros. by simplify_eq.
  - destruct Hh as [Hwf Hrec Httl Hown]. split; unfold on_backend; cbn [eng_node set_node backend set_backend]; [| |done..].
    + intros j x. rewrite lookup_sweep by done. destruct (db_map _ !! j) eqn:Hj; [|done].
      case_match; [done|]. intros. simplify_eq. by apply Hwf.
    + rewrite lookup_sweep, Hrec by done. by rewrite Hexp.
  - destruct Hh as [Hb Hrec Httl Hown].
    destruct (eviction_leaves i now my_id permission snap (backend (eng_node g)) Hwf Hsnap) as (E1 & E2 & E3 & E4).
    split; unfold on_backend; cbn [eng_node set_node backend set_backend];
      [intros j x Hj; by apply Hb, E3|by rewrite E4|by rewrite E1|by rewrite E2].
Qed.

Lemma relay_steps_hold i s until ttl own g g' :
  is_relay_record (record s) = false -> id (record s) = i ->
  (forall now, now <= until -> forall b, advert_ttl b = ttl -> own_id b = own -> is_expired b now s = false) ->
  rtc (relay_step i until) g g' -> holds_record i s ttl own g -> holds_record i s ttl own g'.
Proof using.
  intros Hrel Hid Hexp. induction 1; [done|]. intros Hh. eauto using relay_step_holds.
Qed.

End Between.

(** ** Registration and lookup *)

Section Story.
Context {SigningKey : Type} (base : setting SigningKey) (st : site).
Context (public_key : SigningKey -> list Z)
        (base64_roundtrip : forall l, base64_decode base (base64_encode base l) = Some l)
        (sign_length : forall sk m, length (sign base sk m) = 64%nat)
        (sign_correct : forall sk m, ed25519_verify base (public_key sk) m (sign base sk m) = true).

(** Registering an address puts the node's signed record into the relay's database. *)
Lemma register_ip_stores sk me my_addr (s : api world) addr :
  let cfg := with_key (Some sk) base in
  let H := site_outside base st me my_addr in
  let r := own_record cfg me (Some (inet_from (show_ipv6 base) addr)) false None None in
  reaches cfg st me s -> serves st me (relay (outside s)) -> norm_id me = me ->
  address_to_byte_key base me = Some (public_key sk) -> valid_key base (public_key sk) = true ->
  exists s', register_ip (ddb_client (H := H) cfg false) addr false s = Returns (s', Ok tt) /\
    backend (eng_node (relay (outside s'))) = mem_upsert (time (outside s)) r (backend (eng_node (relay (outside s)))) /\
    serves st me (relay (outside s')) /\ reaches cfg st me s'.
Proof using base64_roundtrip sign_length sign_correct.
  intros cfg H r Hr Hs Hnorm Hkey Hvalid. subst cfg H.
  assert (verify_advert base r = true) as Hv
    by (apply (verify_new _ _ _ _ _ _ _ public_key); auto).
  unfold ddb_client, engine_ddb_client, DdbClientImpl. cbn [register_ip]. unfold client_register_ip.
  destruct (site_contact base st (Some sk) me my_addr s Hr) as (_ & _ & Hc & _).
  mrun. rewrite Hc. cbv beta iota. rewrite (r_me _ _ _ _ Hr). cbn [ok_or fst snd]. cbv beta iota.
  set (t := time (outside s)). set (n := eng_node (relay (outside s))).
  set (tag := show_uuid base (next_tag (outside s))).
  set (up := MkUpsert me 1 r (default "SIG" (sig r)) false (Some tag) None).
  set (n' := set_backend (mem_upsert t r (backend n)) n).
  set (rip := Typed (MDdb (UpsertResolve (set_up_rippled up)))).
  destruct (ripples_delivered st my_addr t rip (ripple_message t rip me n') (ripple_sends _ _ _ _)) as [m Hm].
  destruct (site_ask base st (Some sk) me my_addr
    (relay_call (H := site_outside base st me my_addr) (with_key (Some sk) base) false) (own_upsert me r) s
    n' (ripple_message t rip me n' ++ [Response (Typed (MDdb (UpdateResponse (Some tag))))])
    (replicate m rip) [] (Typed (MDdb (UpdateResponse (Some tag)))) Hr Hs)
    as (s' & E & En & Hs' & _ & _ & _ & _ & Hr').
  - unfold relay_dispatch. simpl. unfold on_ddb_upsert_resolve. simpl. fold r. rewrite Hnorm.
    rewrite decide_False by tauto. rewrite bool_decide_eq_false_2 by tauto.
    unfold verify_advert in Hv. unfold verify_record. rewrite Hv. done.
  - fold t. rewrite omap_app. fold t in Hm. rewrite Hm. done.
  - done.
  - rewrite app_nil_r. by apply Forall_replicate.
  - fold r. rewrite E. eexists. split; [reflexivity|]. by rewrite En.
Qed.

(** A lookup reads the record the relay has. *)
Lemma lookup_reads k me my_addr call (s : api world) i r :
  let H := site_outside base st me my_addr in
  let cfg := with_key k base in
  reaches cfg st me s -> serves st me (relay (outside s)) ->
  mem_lookup (time (outside s)) i (backend (eng_node (relay (outside s)))) = Some r ->
  exists s', client_lookup (H := H) cfg call i s = Returns (s', endpoint_of_advert base r) /\
    eng_node (relay (outside s')) = eng_node (relay (outside s)) /\ serves st me (relay (outside s')) /\
    time (outside s') = time (outside s) /\ on_channels (outside s') = on_channels (outside s) /\
    others (outside s') = others (outside s) /\ eng_node (eng s') = eng_node (eng s) /\ reaches cfg st me s'.
Proof using.
  intros H cfg Hr Hs Hl. subst H cfg. unfold client_lookup.
  destruct (site_contact base st k me my_addr s Hr) as (Hf & Hu & _ & _).
  mrun. rewrite Hf. cbv beta iota. 
  change (relay_id_of (site_info st)) with (site_id st). rewrite Hu. rewrite (r_addr _ _ _ _ Hr).
  set (tag := show_uuid base (next_tag (outside s))).
  destruct (site_ask base st k me my_addr call
    (Typed (MDdb (QueryResolve i None))) s (eng_node (relay (outside s)))
    [Response (Typed (MDdb (QueryResponse true (Some r) None (Some tag))))] [] []
    (Typed (MDdb (QueryResponse true (Some r) None (Some tag)))) Hr Hs) as (s' & E & H1 & H2 & H3 & H4 & H5 & H6 & H7); try done.
  - unfold relay_dispatch. simpl. unfold on_ddb_query_resolve. simpl. rewrite Hl.
    by rewrite bool_decide_eq_true_2 by eauto.
  - rewrite E. exists s'. rewrite H5, filter_cons_False, filter_nil, app_nil_r by done.
    by split_and!.
Qed.

(** What a valid record with an IPv4 address and no relay says. *)
Lemma endpoint_of_direct r f addr :
  verify_advert base r = true -> adv_relay_id r = None -> endpoint r = Some (inet_from f addr) ->
  v4_addr_ok addr -> endpoint_of_advert base r = Ok (new_direct addr).
Proof using.
  intros Hv Hrid Hep. unfold endpoint_of_advert. rewrite Hv, Hrid, Hep. simpl.
  destruct addr as [[a b c d|] pt]; intros [Hip _]; [|done]. simpl in Hip. simpl.
  by rewrite parse_show_ipv4 by tauto.
Qed.

(** (C3) From registration to lookup: a node whose key belongs to its id registers its
    IPv4 address at a relay and the registration succeeds.  Then the relay goes on in
    any way that leaves this record alone: it receives and sends anything, runs the
    handlers of any messages of any nodes but those about the record ([names_record]:
    the node's own next upsert or signoff, copies of either and of the record that are
    passed on, and reports that the node has failed; these do change the record,
    whoever sends them: [rippled_signoff_unchecked], [report_removes_client]), sweeps
    what has expired and evicts relays.  A node that reaches the relay before the
    advert expires and looks the id up gets exactly the registered address.  The run
    goes through both nodes' requests and waits, the relay's inbound path, its router,
    handlers and database, and the signature check on either side; the relay may have
    other messages to handle, but it runs the handler of either request before it
    receives the next message. *)
Theorem register_then_lookup sk a_id a_addr addr (sa : api world) :
  reaches (with_key (Some sk) base) st a_id sa -> serves st a_id (relay (outside sa)) ->
  norm_id a_id = a_id -> address_to_byte_key base a_id = Some (public_key sk) ->
  valid_key base (public_key sk) = true -> v4_addr_ok addr ->
  db_wf (backend (eng_node (relay (outside sa)))) ->
  exists sa',
    register_ip (ddb_client (H := site_outside base st a_id a_addr) (with_key (Some sk) base) false)
      addr false sa = Returns (sa', Ok tt) /\
    serves st a_id (relay (outside sa')) /\
    forall kb b_id b_addr (sb : api world),
      reaches (with_key kb base) st b_id sb -> serves st b_id (relay (outside sb)) ->
      rtc (relay_step base a_id (time (outside sb))) (relay (outside sa')) (relay (outside sb)) ->
      (forall ttl, advert_ttl (backend (eng_node (relay (outside sa)))) = Some ttl ->
         Z.max 0 (time (outside sb) - time (outside sa)) < ttl) ->
      exists sb',
        ddb_lookup (ddb_client (H := site_outside base st b_id b_addr) (with_key kb base) false) a_id sb
          = Returns (sb', Ok (new_direct addr)).
Proof using base64_roundtrip sign_length sign_correct.
  intros Hra Hsa Hnorm Hkey Hvalid Haddr Hwf.
  destruct (register_ip_stores sk a_id a_addr sa addr Hra Hsa Hnorm Hkey Hvalid)
    as (sa' & E & Hdb & Hs' & _).
  exists sa'. split; [exact E|]. split; [exact Hs'|]. intros kb b_id b_addr sb Hrb Hsb Hsteps Httl.
  set (r := own_record _ _ _ _ _ _) in Hdb. set (ta := time (outside sa)) in *.
  set (b0 := backend (eng_node (relay (outside sa)))) in *.
  assert (verify_advert base r = true) as Hv by (apply (verify_new _ _ _ _ _ _ _ public_key); auto).
  assert (forall now, now <= time (outside sb) -> forall b, advert_ttl b = advert_ttl b0 ->
    own_id b = own_id b0 -> is_expired b now (MkStored r ta) = false) as Hexp.
  { intros now Hle b Eb _. unfold is_expired. rewrite Eb. simpl. destruct (advert_ttl b0) as [ttl|]; [|done].
    destruct (bool_decide _); [done|]. specialize (Httl ttl eq_refl). simpl. apply Z.leb_gt. lia. }
  assert (holds_record a_id (MkStored r ta) (advert_ttl b0) (own_id b0) (relay (outside sa'))) as Hh.
  { split; rewrite Hdb; [|by apply lookup_insert_eq|done..].
    intros j x. simpl. rewrite lookup_insert. case_decide; [|apply Hwf]. intros. by simplify_eq. }
  eapply relay_steps_hold in Hh as [_ Hrec Ht Ho]; [|done|done|exact Hexp|exact Hsteps].
  destruct (lookup_reads kb b_id b_addr (relay_call (H := site_outside base st b_id b_addr)
    (with_key kb base) false) sb a_id r Hrb Hsb) as (sb' & Eb & _).
  - unfold mem_lookup. by rewrite Hrec, (Hexp _ (Z.le_refl _) _ Ht Ho).
  - exists sb'. unfold ddb_client, engine_ddb_client, DdbClientImpl. cbn [ddb_lookup]. rewrite Eb.
    by rewrite (endpoint_of_direct r (show_ipv6 base) addr).
Qed.
End Story.

(** ** Sending to a node behind the relay *)

Section Behind.
Context {SigningKey : Type} (base : setting SigningKey) (st : site).

(** Opening a channel. *)
Lemma site_opens k a_id a_addr b_id b_addr (s : api world) t r :
  let cfg := with_key k base in
  let n := eng_node (relay (outside s)) in
  reaches cfg st a_id s -> serves st a_id (relay (outside s)) -> b_addr <> a_addr ->
  turn_handler_relay n = Some t -> relay_wf t ->
  (exists ch, MIN_CH <= ch <= MAX_CH /\ ch_to_pair t !! ch = None) ->
  Relay.lookup_addr_by_id (norm_id b_id) t = Some b_addr ->
  mem_lookup (time (outside s)) (site_id st) (backend n) = Some r ->
  endpoint_of_advert base r = Ok (new_direct (site_addr st)) ->
  exists s' ch t',
    relay_call (H := site_outside base st a_id a_addr) cfg false (new_relay (site_id st) None None) b_id s
      = Returns (s', Ok (new_relay (site_id st) (Some (site_addr st)) (Some ch))) /\
    MIN_CH <= ch <= MAX_CH /\ on_channels (outside s') = on_channels (outside s) /\
    turn_handler_relay (eng_node (relay (outside s'))) = Some t' /\ ch_to_pair t' !! ch = Some (a_addr, b_addr) /\
    Send (new_direct b_addr) (norm_id b_id) (Typed (MRelay (RelayCalled ch))) ∈ others (outside s') /\
    eng_node (eng s') = eng_node (eng s) /\ reaches cfg st a_id s'.
Proof using.
  intros cfg n Hr Hs Hab Ht Hwf Hfree Hl Hdb Hep. subst cfg n.
  unfold relay_call, call_with, relay_client_call. cbn [relay_id relay_address new_relay]. mrun.
  set (blocked := fun (_ : NetworkEndpoint) (_ : string) => panic).
  destruct (lookup_reads base st k a_id a_addr blocked s (site_id st) r Hr Hs Hdb)
    as (s1 & E1 & En1 & Hs1 & Et1 & Ec1 & Eo1 & Ee1 & Hr1).
  rewrite E1, Hep. cbn [ok_or inet_socket_address new_direct]. cbv beta iota.
  set (tag := show_uuid base (next_tag (outside s1))).
  destruct (on_relay_call_answers (site_seed st) (asked_router a_addr tag (relay (outside s1)))
    (MkFrom a_id (new_direct a_addr)) b_id (eng_node (relay (outside s1))) t a_addr b_addr)
    as (ch & t' & Ed & Hrange & Hmap & _); [done|apply Hs1|done|by rewrite En1|done..|].
  set (called := Typed (MRelay (RelayCalled ch))) in Ed. rewrite En1 in Ed.
  set (answer := Typed (MRelay (RelayResponse (Some ch) (Some tag)))) in Ed.
  destruct (site_ask base st k a_id a_addr blocked (Typed (MRelay (Call b_id None))) s1
    (set_turn_relay t' (eng_node (relay (outside s))))
    [Send (new_direct b_addr) (norm_id b_id) called; Response answer] [] [] answer Hr1 Hs1)
    as (s2 & E2 & En2 & _ & _ & Ec2 & Eo2 & Ee2 & Hr2).
  - rewrite En1. exact Ed.
  - csimpl. by rewrite decide_False by (by intros [= ?]).
  - done.
  - by apply Forall_nil.
  - rewrite E2. unfold answer. destruct Hrange as [Hlo Hhi].
    destruct (Z.ltb_spec ch 0) as [|_]; [unfold MIN_CH in *; lia|].
    rewrite wrap_small by (unfold in_width, MIN_CH, MAX_CH in *; lia).
    exists s2, ch, t'. split; [reflexivity|]. split; [done|]. rewrite Ec2, Ec1, En2, Ee2, Ee1.
    split_and!; try done. rewrite Eo2. apply elem_of_app. right.
    apply list_elem_of_filter. split; [|by left]. simpl. by rewrite decide_False by (by intros [= ?]).
Qed.

Lemma call_response_client a b ch rid n :
  turn_handler_client (turn_handle_call_response a b ch rid n) =
    Client.handle_call_response a b ch rid <$> turn_handler_client n.
Proof using.
  unfold turn_handle_call_response. destruct (turn_handler_client n) as [c|] eqn:E; simpl;
    destruct (turn_handler_relay n); done.
Qed.

(** Sending on a channel of the relay. *)
Lemma site_channel k a_id a_addr ch p (s : api world) :
  let cfg := with_key k base in
  send_guard (time (outside s)) (new_relay (site_id st) (Some (site_addr st)) (Some ch)) (eng s)
    = Returns None ->
  exists g, send_over_dtls (H := site_outside base st a_id a_addr) cfg
      (new_relay (site_id st) (Some (site_addr st)) (Some ch)) p s
    = Returns (MkApi (MkWorld (relay (outside s)) (inbox (outside s)) (others (outside s))
        (on_channels (outside s) ++ [(ch, p)]) (next_tag (outside s)) (time (outside s))) g
        (handle_cache s), Ok true) /\ eng_node g = eng_node (eng s).
Proof using.
  intros cfg Hg. subst cfg. unfold send_over_dtls. mrun. rewrite Hg. simpl.
  unfold site_transport. rewrite decide_False by done. simpl. rewrite decide_True by done. simpl.
  unfold send_to_peer. rewrite Hg. simpl. eexists. by split.
Qed.

(** (C4) Sending to a node that listens at a relay: given only the relay's id, the sender
    resolves the relay's address from its advert, has a channel allocated, and its
    message leaves on that channel; the relay maps the channel to the sender's and
    the receiver's address, the receiver is told the same channel at its own address,
    and the sender's TURN tables hold the channel. *)
Theorem relayed_send k a_id a_addr b_id b_addr p (s : api world) t r :
  let cfg := with_key k base in
  let n := eng_node (relay (outside s)) in
  reaches cfg st a_id s -> serves st a_id (relay (outside s)) ->
  a_id <> site_id st -> b_addr <> a_addr -> valid_id cfg b_id = true ->
  turn_handler_relay n = Some t -> relay_wf t ->
  (exists ch, MIN_CH <= ch <= MAX_CH /\ ch_to_pair t !! ch = None) ->
  Relay.lookup_addr_by_id (norm_id b_id) t = Some b_addr ->
  mem_lookup (time (outside s)) (site_id st) (backend n) = Some r ->
  endpoint_of_advert base r = Ok (new_direct (site_addr st)) ->
  exists s' ch t',
    send_message_to_network (H := site_outside base st a_id a_addr) cfg false
      (new_relay (site_id st) None None) b_id p s = Returns (s', Ok true) /\
    MIN_CH <= ch <= MAX_CH /\
    on_channels (outside s') = on_channels (outside s) ++ [(ch, p)] /\
    turn_handler_relay (eng_node (relay (outside s'))) = Some t' /\
    ch_to_pair t' !! ch = Some (a_addr, b_addr) /\
    Send (new_direct b_addr) (norm_id b_id) (Typed (MRelay (RelayCalled ch))) ∈ others (outside s') /\
    turn_handler_client (eng_node (eng s')) =
      Client.handle_call_response (site_addr st) (site_addr st) ch (site_id st)
        <$> turn_handler_client (eng_node (eng s)).
Proof using.
  intros cfg n Hr Hs Hne Hab Hb Ht Hwf Hfree Hl Hdb Hep. subst cfg n.
  destruct (site_opens k a_id a_addr b_id b_addr s t r Hr Hs Hab Ht Hwf Hfree Hl Hdb Hep)
    as (s1 & ch & t' & E1 & Hrange & Ec & Ht' & Hmap & Ho & Ee & Hr1).
  unfold send_message_to_network, send_with. rewrite Hb. cbn [negb].
  unfold effective_endpoint, my_id. mrun. rewrite (r_me _ _ _ _ Hr), decide_False by congruence.
  unfold open_channel. mrun. rewrite E1. simpl.
  set (s2 := MkApi (outside s1) _ _).
  destruct (site_channel k a_id a_addr ch p s2) as (g & E2 & Eg).
  { pose proof (r_channels _ _ _ _ Hr1 ch) as Hg. unfold s2, send_guard in *. simpl in *. exact Hg. }
  rewrite E2. eexists _, ch, t'. split; [reflexivity|]. simpl. rewrite Eg, Ec. simpl. destruct Hrange.
  split_and!; try done. by rewrite <- Ee, <- call_response_client.
Qed.
End Behind.

(** The relay decides who is reached: the lookup of [i] checks the signature of the
    record the relay answers with, and not that the record is one of [i]; a relay
    that files the valid record of another node under [i] sends to that node what is
    meant for [i]. *)
Theorem lookup_foreign_record {SigningKey} (base : setting SigningKey) st k me my_addr (s : api world) i r f addr :
  reaches (with_key k base) st me s -> serves st me (relay (outside s)) ->
  mem_lookup (time (outside s)) i (backend (eng_node (relay (outside s)))) = Some r ->
  id r <> i -> verify_advert base r = true ->
  adv_relay_id r = None -> endpoint r = Some (inet_from f addr) -> v4_addr_ok addr ->
  exists s', ddb_lookup (ddb_client (H := site_outside base st me my_addr) (with_key k base) false) i s
    = Returns (s', Ok (new_direct addr)).
Proof.
  intros Hr Hs Hl Hne Hv Hrid Hep Haddr.
  destruct (lookup_reads base st k me my_addr (relay_call (H := site_outside base st me my_addr)
    (with_key k base) false) s i r Hr Hs Hl) as (s' & E & _).
  exists s'. unfold ddb_client, engine_ddb_client, DdbClientImpl. cbn [ddb_lookup]. rewrite E.
  by rewrite (endpoint_of_direct base r f addr).
Qed.

(** ** Concrete nodes *)

Module StoryExample.
Definition show_tag (u : Z) : string := IdealSignature.encode64 [u].
Definition parse_tag (s : string) : option Z :=
  match IdealSignature.decode64 s with Some [u] => Some u | _ => None end.
(** The key of an id is its length. *)
Definition key_of (i : string) : option (list Z) := Some [Z.of_nat (String.length i)].
Definition everyone : env := MkEnv (fun _ => Some true) (fun i => Some i) [] (fun _ _ => NoAnswer)
    (fun _ _ => None) (fun _ _ => true).
Definition base : setting Z :=
  MkSetting _ show_tag parse_tag (fun _ => Some (replicate 36 0)) (fun _ => EmptyString) (fun _ => None)
    IdealSignature.to_vec IdealSignature.sign IdealSignature.check (fun _ => true)
    IdealSignature.encode64 IdealSignature.decode64 key_of None false true true None everyone
    (fun _ _ _ n => Returns (n, [])).
Definition relay_addr : SocketAddr := SockAddr (V4 192 0 2 1) 3478.
Definition alice_addr : SocketAddr := SockAddr (V4 192 0 2 2) 5000.
Definition bob_addr : SocketAddr := SockAddr (V4 192 0 2 3) 5001.
Definition relay_record : AdvertRecord :=
  advert_new IdealSignature.to_vec IdealSignature.sign IdealSignature.encode64 "R"
    (Some (inet_from (fun _ => EmptyString) relay_addr)) (Some true) None None NO_DATE 1.
Definition where_ : site :=
  MkSite (MkRelay relay_record true (Some Available) None 0) relay_addr everyone 1000 7.
Definition relay_node : node :=
  MkNodeState (Some "R.") (mem_upsert 0 relay_record (with_advert_ttl (Some 600000)))
    (Some (Relay.handle_listen "Bob" bob_addr Relay.new).1) None (Some []) Available
    (Some relay_addr) None false None (MkLifecycle true true false StunIdentify FullCone).
Definition client_node (i : string) : node :=
  MkNodeState (Some i) (with_advert_ttl None) None
    (Some (Client.ClientSt ∅ ∅ ∅ ∅)) (Some []) Off None None false None
    (MkLifecycle true true false StunIdentify FullCone).
Definition engine_of (n : node) : engine :=
  MkEngine n (MkRouter None None true true true true) ∅ ∅ ∅ ∅ [] [].
Definition client (i : string) (g : engine) (t : Z) : api world :=
  MkApi (MkWorld g [] [] [] 1 t) (engine_of (client_node i)) HandleCacheOps.new.

Lemma parse_show u : parse_tag (show_tag u) = Some u.
Proof. unfold parse_tag, show_tag. by rewrite IdealSignature.decode_encode64. Qed.

Lemma sign_correct sk m : IdealSignature.check (IdealSignature.public_key sk) m (IdealSignature.sign sk m) = true.
Proof. by apply bool_decide_eq_true. Qed.

Lemma client_reaches k i g t :
  norm_id i = i -> reaches (with_key k base) where_ i (client i g t).
Proof.
  intros Hi. split; try done; try (by eexists); try (intros u; apply parse_show).
  unfold client, client_node, get_my_id. simpl. by rewrite Hi.
Qed.

Lemma relay_record_verifies : verify_advert base relay_record = true.
Proof.
  apply (verify_new IdealSignature.to_vec IdealSignature.sign IdealSignature.check (fun _ => true)
      IdealSignature.encode64 IdealSignature.decode64 key_of IdealSignature.public_key
      IdealSignature.decode_encode64 (fun _ _ => eq_refl) sign_correct); reflexivity.
Qed.

Lemma relay_record_good : endpoint_of_advert base relay_record = Ok (new_direct relay_addr).
Proof. unfold endpoint_of_advert. rewrite relay_record_verifies. reflexivity. Qed.
End StoryExample.

Lemma register_then_lookup_witness :
  let base := StoryExample.base in
  let st := StoryExample.where_ in
  exists sa',
    register_ip (ddb_client (H := site_outside base st "Alice" StoryExample.alice_addr)
        (with_key (Some 5) base) false) StoryExample.alice_addr false
      (StoryExample.client "Alice" (StoryExample.engine_of StoryExample.relay_node) 0) = Returns (sa', Ok tt) /\
    exists sb', ddb_lookup (ddb_client (H := site_outside base st "Bob" StoryExample.bob_addr)
        (with_key (Some 3) base) false) "Alice"
      (StoryExample.client "Bob" (on_backend (fun b => (mem_sweep_expired 900 b).2) (relay (outside sa'))) 1000)
      = Returns (sb', Ok (new_direct StoryExample.alice_addr)).
Proof.
  intros base st.
  destruct (register_then_lookup base st IdealSignature.public_key IdealSignature.decode_encode64
    (fun _ _ => eq_refl) StoryExample.sign_correct 5 "Alice" StoryExample.alice_addr
    StoryExample.alice_addr (StoryExample.client "Alice" (StoryExample.engine_of StoryExample.relay_node) 0))
    as (sa' & E & (Hsnd & _) & Hb); try reflexivity.
  - by apply StoryExample.client_reaches.
  - split; [reflexivity|]. by eexists.
  - unfold v4_addr_ok, octet. simpl. lia.
  - intros i s. simpl. intros Hi. apply lookup_singleton_Some in Hi as [<- <-]. reflexivity.
  - exists sa'. split; [exact E|].
    apply (Hb (Some 3) "Bob" StoryExample.bob_addr (StoryExample.client "Bob"
      (on_backend (fun b => (mem_sweep_expired 900 b).2) (relay (outside sa'))) 1000)).
    + by apply StoryExample.client_reaches.
    + split; [exact Hsnd|]. by eexists.
    + apply rtc_once, (step_sweep base "Alice" 1000 900). simpl. lia.
    + intros ttl [= <-]. simpl. lia.
Defined.

Lemma relayed_send_witness :
  let base := StoryExample.base in
  let st := StoryExample.where_ in
  exists s' ch,
    send_message_to_network (H := site_outside base st "Alice" StoryExample.alice_addr)
      (with_key (Some 5) base) false (new_relay "R" None None) "Bob" (Typed (PlainText "hello"))
      (StoryExample.client "Alice" (StoryExample.engine_of StoryExample.relay_node) 0) = Returns (s', Ok true) /\
    on_channels (outside s') = [(ch, Typed (PlainText "hello"))].
Proof.
  intros base st.
  destruct (relayed_send base st (Some 5) "Alice" StoryExample.alice_addr "Bob" StoryExample.bob_addr
    (Typed (PlainText "hello"))
    (StoryExample.client "Alice" (StoryExample.engine_of StoryExample.relay_node) 0)
    (Relay.handle_listen "Bob" StoryExample.bob_addr Relay.new).1 StoryExample.relay_record)
    as (s' & ch & t' & E & _ & Ec & _).
  - by apply StoryExample.client_reaches.
  - split; [reflexivity|]. by eexists.
  - discriminate.
  - discriminate.
  - reflexivity.
  - reflexivity.
  - apply (run_ops_wf [OpListen "Bob" StoryExample.bob_addr] Relay.new relay_wf_new).
  - by exists MIN_CH.
  - reflexivity.
  - unfold mem_lookup, mem_upsert. simpl. by rewrite lookup_insert_eq.
  - exact StoryExample.relay_record_good.
  - exists s', ch. split; [exact E|exact Ec].
Defined.

Lemma lookup_foreign_record_witness :
  let st := StoryExample.where_ in
  let g := StoryExample.engine_of (set_backend
    (set_map (<["Alice" := MkStored StoryExample.relay_record 0]> ∅) (with_advert_ttl None))
    StoryExample.relay_node) in
  id StoryExample.relay_record = "R" /\
  exists s', ddb_lookup (ddb_client (H := site_outside StoryExample.base st "Bob" StoryExample.bob_addr)
      (with_key (Some 3) StoryExample.base) false) "Alice" (StoryExample.client "Bob" g 0)
    = Returns (s', Ok (new_direct StoryExample.relay_addr)).
Proof.
  intros st g. split; [reflexivity|].
  apply (lookup_foreign_record StoryExample.base st (Some 3) "Bob" StoryExample.bob_addr
    (StoryExample.client "Bob" g 0) "Alice" StoryExample.relay_record (fun _ => EmptyString)
    StoryExample.relay_addr).
  - by apply StoryExample.client_reaches.
  - split; [reflexivity|]. by eexists.
  - unfold mem_lookup. simpl. by rewrite lookup_insert_eq.
  - discriminate.
  - exact StoryExample.relay_record_verifies.
  - reflexivity.
  - reflexivity.
  - unfold v4_addr_ok, octet. simpl. lia.
Defined.
