(* ===== verification/Envelope.v ===== *)
(** * Sealed envelopes and live signatures

    Models [src/bingle_core/src/crypto/]: the conversion of identity keys
    ([key_convert.rs]), the seal ([hpke_seal.rs]), the envelope that is posted to a
    mailbox ([sealed_envelope.rs]) and the signature of a live text message
    ([live_signature.rs]).

    The curves, Ed25519 and HPKE are the record [primitives]; [PrimitiveLaws] is what
    their documentation promises.  An array of bytes is a list with its length as a
    hypothesis; a Rust [String] is a [string] of UTF-8 bytes. *)
From S2P Require Import Prelude.

Local Open Scope Z_scope.

(** ** Text *)

Fixpoint as_bytes (s : string) : list Z :=
  match s with
  | EmptyString => []
  | String a s => Z.of_N (Ascii.N_of_ascii a) :: as_bytes s
  end.

Fixpoint string_of_bytes (l : list Z) : string :=
  match l with
  | [] => EmptyString
  | b :: l => String (Ascii.ascii_of_N (Z.to_N b)) (string_of_bytes l)
  end.

Definition within (lo hi b : Z) : bool := (lo <=? b) && (b <=? hi).

(** A continuation byte. *)
Definition cont : Z -> bool := within 128 191.

(** What [String::from_utf8] accepts: no overlong form, no surrogate, nothing above
    U+10FFFF. *)
Fixpoint utf8_valid (l : list Z) : bool :=
  match l with
  | [] => true
  | b :: l1 =>
      if within 0 127 b then utf8_valid l1
      else match l1 with
      | [] => false
      | c1 :: l2 =>
          if within 194 223 b then cont c1 && utf8_valid l2
          else match l2 with
          | [] => false
          | c2 :: l3 =>
              if within 224 239 b then
                within (if b =? 224 then 160 else 128) (if b =? 237 then 159 else 191) c1
                && cont c2 && utf8_valid l3
              else match l3 with
              | [] => false
              | c3 :: l4 =>
                  within 240 244 b
                  && within (if b =? 240 then 144 else 128) (if b =? 244 then 143 else 191) c1
                  && cont c2 && cont c3 && utf8_valid l4
              end
          end
      end
  end.

Definition from_utf8 (l : list Z) : option string :=
  if utf8_valid l then Some (string_of_bytes l) else None.

(** ** Constants *)

Definition ENVELOPE_VERSION : Z := 1.
Definition SUITE_HPKE_X25519_HKDF_SHA256_CHACHA20POLY1305 : Z := 1.
Definition ID_LEN : nat := 32.
Definition MESSAGE_ID_LEN : nat := 16.
Definition SIGNATURE_LEN : nat := 64.
Definition SENT_TIME_LEN : nat := 8.
Definition ENC_LEN : nat := 32.
Definition INNER_HEADER_LEN : nat := ID_LEN + SENT_TIME_LEN + MESSAGE_ID_LEN + SIGNATURE_LEN.
Definition ENVELOPE_HEADER_LEN : nat := 1 + 2 + ENC_LEN.

Definition suite_name (suite_id : Z) : option string :=
  if suite_id =? SUITE_HPKE_X25519_HKDF_SHA256_CHACHA20POLY1305
  then Some "HPKE[DHKEM(X25519, HKDF-SHA256), HKDF-SHA256, ChaCha20-Poly1305]"
  else None.

(** ** What is signed *)

Definition i64_to_be_bytes (t : Z) : list Z := to_be_bytes SENT_TIME_LEN (wrap 64 t).
Definition i64_from_be_bytes (l : list Z) : Z := signed 64 (from_be_bytes l).

Definition canonical_signed_message (sender_id recipient_id : list Z) (sent_time : Z)
    (text : string) : list Z :=
  sender_id ++ recipient_id ++ i64_to_be_bytes sent_time ++ as_bytes text.

(** ** The payload and the envelope *)

Record InnerPayload : Type := MkInner {
  in_sender_id : list Z;
  in_sent_time : Z;
  in_message_id : list Z;
  in_signature : list Z;
  in_text : string
}.

Record SealedEnvelope : Type := MkEnvelope {
  env_version : Z;
  env_suite_id : Z;
  env_enc : list Z;
  env_ciphertext : list Z
}.

Record OpenedMessage : Type := MkOpened {
  op_sender_id : list Z;
  op_sent_time : Z;
  op_message_id : list Z;
  op_text : string;
  op_signature : list Z;
  op_suite_id : Z
}.

Inductive SealError : Type := InvalidRecipientPublic | HpkeSeal.
Inductive UnsealError : Type := InvalidRecipientPrivate | InvalidEncappedKey | HpkeOpen.
Inductive EnvelopeSealError : Type := KeyConvert | SealHpke (e : SealError).
Inductive EnvelopeParseError : Type := EnvelopeTooShort | InnerTooShort | InvalidText.
Inductive EnvelopeOpenError : Type :=
| Parse (e : EnvelopeParseError)
| UnknownVersion (v : Z)
| UnknownSuite (s : Z)
| Unseal (e : UnsealError)
| BadSenderKey
| BadSignature.

Definition inner_to_bytes (p : InnerPayload) : list Z :=
  in_sender_id p ++ i64_to_be_bytes (in_sent_time p) ++ in_message_id p
    ++ in_signature p ++ as_bytes (in_text p).

Definition inner_from_bytes (bytes : list Z) : result InnerPayload EnvelopeParseError :=
  if Nat.ltb (length bytes) INNER_HEADER_LEN then Err InnerTooShort
  else
    let id_start := (ID_LEN + SENT_TIME_LEN)%nat in
    let sig_start := (id_start + MESSAGE_ID_LEN)%nat in
    match from_utf8 (drop INNER_HEADER_LEN bytes) with
    | None => Err InvalidText
    | Some text =>
        Ok (MkInner (slice bytes 0 ID_LEN) (i64_from_be_bytes (slice bytes ID_LEN SENT_TIME_LEN))
              (slice bytes id_start MESSAGE_ID_LEN) (slice bytes sig_start SIGNATURE_LEN) text)
    end.

Definition envelope_to_bytes (e : SealedEnvelope) : list Z :=
  env_version e :: to_be_bytes 2 (env_suite_id e) ++ env_enc e ++ env_ciphertext e.

Definition envelope_from_bytes (bytes : list Z) : result SealedEnvelope EnvelopeParseError :=
  if Nat.ltb (length bytes) ENVELOPE_HEADER_LEN then Err EnvelopeTooShort
  else Ok (MkEnvelope (default 0 (bytes !! 0%nat)) (from_be_bytes (slice bytes 1 2))
             (slice bytes 3 ENC_LEN) (drop ENVELOPE_HEADER_LEN bytes)).

Definition associated_data (version suite_id : Z) : list Z := version :: to_be_bytes 2 suite_id.

(** The scalar clamp of RFC 7748, on 32 bytes. *)
Definition clamp_scalar_bytes (bytes : list Z) : list Z :=
  alter (fun b => Z.lor (Z.land b 127) 64) 31%nat (alter (fun b => Z.land b 248) 0%nat bytes).

(** ** The primitives *)

Record primitives (SigningKey : Type) : Type := MkPrimitives {
  signing_key_from_bytes : list Z -> SigningKey;
  verifying_key : SigningKey -> list Z;
  valid_verifying_key : list Z -> bool;
  ed25519_sign : SigningKey -> list Z -> list Z;
  ed25519_verify : list Z -> list Z -> list Z -> bool;
  to_montgomery : list Z -> list Z;
  to_scalar_bytes : SigningKey -> list Z;
  kem_public_ok : list Z -> bool;
  kem_private_ok : list Z -> bool;
  kem_encapped_ok : list Z -> bool;
  single_shot_seal : Z -> list Z -> list Z -> list Z -> option (list Z * list Z);
  single_shot_open : list Z -> list Z -> list Z -> list Z -> option (list Z);
  x25519_public : list Z -> list Z
}.
Arguments signing_key_from_bytes {_} _ _.
Arguments verifying_key {_} _ _.
Arguments valid_verifying_key {_} _ _.
Arguments ed25519_sign {_} _ _ _.
Arguments ed25519_verify {_} _ _ _ _.
Arguments to_montgomery {_} _ _.
Arguments to_scalar_bytes {_} _ _.
Arguments kem_public_ok {_} _ _.
Arguments kem_private_ok {_} _ _.
Arguments kem_encapped_ok {_} _ _.
Arguments single_shot_seal {_} _ _ _ _ _.
Arguments single_shot_open {_} _ _ _ _ _.
Arguments x25519_public {_} _ _.

Section Envelopes.
Context {SigningKey : Type} (P : primitives SigningKey).

Definition ed25519_pub_to_x25519 (pub : list Z) : option (list Z) :=
  if valid_verifying_key P pub then Some (to_montgomery P pub) else None.

Definition ed25519_secret_to_x25519 (k : SigningKey) : list Z :=
  clamp_scalar_bytes (to_scalar_bytes P k).

(** [seed] is the randomness the operating system supplied to this call. *)
Definition hpke_seal (seed : Z) (recipient_pub aad plaintext : list Z)
  : result (list Z * list Z) SealError :=
  if negb (kem_public_ok P recipient_pub) then Err InvalidRecipientPublic
  else ok_or (single_shot_seal P seed recipient_pub plaintext aad) HpkeSeal.

Definition hpke_unseal (recipient_priv enc aad ciphertext : list Z)
  : result (list Z) UnsealError :=
  if negb (kem_private_ok P recipient_priv) then Err InvalidRecipientPrivate
  else if negb (kem_encapped_ok P enc) then Err InvalidEncappedKey
  else ok_or (single_shot_open P recipient_priv enc ciphertext aad) HpkeOpen.

Definition new_signed (sender : SigningKey) (recipient_id : list Z) (sent_time : Z)
    (message_id : list Z) (text : string) : InnerPayload :=
  let sender_id := verifying_key P sender in
  let message := canonical_signed_message sender_id recipient_id sent_time text in
  MkInner sender_id sent_time message_id (ed25519_sign P sender message) text.

Definition inner_verify (p : InnerPayload) (recipient_id : list Z)
  : result unit EnvelopeOpenError :=
  if negb (valid_verifying_key P (in_sender_id p)) then Err BadSenderKey
  else if ed25519_verify P (in_sender_id p)
            (canonical_signed_message (in_sender_id p) recipient_id (in_sent_time p) (in_text p))
            (in_signature p)
  then Ok tt else Err BadSignature.

Definition envelope_seal (seed : Z) (recipient_pub : list Z) (inner : InnerPayload)
  : result SealedEnvelope EnvelopeSealError :=
  let? recipient_x := ok_or (ed25519_pub_to_x25519 recipient_pub) KeyConvert in
  let aad := associated_data ENVELOPE_VERSION SUITE_HPKE_X25519_HKDF_SHA256_CHACHA20POLY1305 in
  let? (enc, ct) := map_err SealHpke (hpke_seal seed recipient_x aad (inner_to_bytes inner)) in
  Ok (MkEnvelope ENVELOPE_VERSION SUITE_HPKE_X25519_HKDF_SHA256_CHACHA20POLY1305 enc ct).

Definition envelope_unseal (e : SealedEnvelope) (k : SigningKey)
  : result InnerPayload EnvelopeOpenError :=
  if negb (env_version e =? ENVELOPE_VERSION) then Err (UnknownVersion (env_version e))
  else match suite_name (env_suite_id e) with
  | None => Err (UnknownSuite (env_suite_id e))
  | Some _ =>
      let? inner := map_err Unseal (hpke_unseal (ed25519_secret_to_x25519 k) (env_enc e)
                      (associated_data (env_version e) (env_suite_id e)) (env_ciphertext e)) in
      map_err Parse (inner_from_bytes inner)
  end.

(** [message_id] is the random identifier drawn for this message. *)
Definition seal (seed : Z) (message_id recipient_pub : list Z) (sender : SigningKey)
    (sent_time : Z) (text : string) : result (list Z) EnvelopeSealError :=
  let inner := new_signed sender recipient_pub sent_time message_id text in
  let? e := envelope_seal seed recipient_pub inner in
  Ok (envelope_to_bytes e).

Definition seal_from_private_key (seed : Z) (message_id private_key recipient_pub : list Z)
    (sent_time : Z) (text : string) : result (list Z) EnvelopeSealError :=
  seal seed message_id recipient_pub (signing_key_from_bytes P private_key) sent_time text.

Definition unseal (k : SigningKey) (bytes : list Z) : result OpenedMessage EnvelopeOpenError :=
  let? e := map_err Parse (envelope_from_bytes bytes) in
  let? inner := envelope_unseal e k in
  let? _ := inner_verify inner (verifying_key P k) in
  Ok (MkOpened (in_sender_id inner) (in_sent_time inner) (in_message_id inner) (in_text inner)
        (in_signature inner) (env_suite_id e)).

Definition unseal_with_private_key (private_key bytes : list Z)
  : result OpenedMessage EnvelopeOpenError :=
  unseal (signing_key_from_bytes P private_key) bytes.

(** ** The signature of a live text message

    A text message as the fields the function reads and writes; [None] is a JSON
    value that is not a text message. *)
Record text_fields : Type := MkTextFields {
  tf_text : string;
  tf_sent_time : option Z;
  tf_signature : option string
}.

Definition sign_text_message (base64_encode : list Z -> string) (message : option text_fields)
    (k : SigningKey) (recipient_id : list Z) (now_ms : Z) : option text_fields * bool :=
  match message with
  | None => (None, false)
  | Some m =>
      let sent_time := default now_ms (tf_sent_time m) in
      let sender_id := verifying_key P k in
      let signed := canonical_signed_message sender_id recipient_id sent_time (tf_text m) in
      (Some (MkTextFields (tf_text m) (Some sent_time)
               (Some (base64_encode (ed25519_sign P k signed)))), true)
  end.

(** ** What the primitives promise *)

(** [x25519_public s] is the public key of the secret [s]. *)
Class PrimitiveLaws : Prop := {
  verifying_key_ok k : bytes_ok (verifying_key P k) /\ length (verifying_key P k) = ID_LEN;
  verifying_key_valid k : valid_verifying_key P (verifying_key P k) = true;
  signature_ok k m : bytes_ok (ed25519_sign P k m) /\ length (ed25519_sign P k m) = SIGNATURE_LEN;
  verify_sign k m : ed25519_verify P (verifying_key P k) m (ed25519_sign P k m) = true;
  scalar_converts k :
    x25519_public P (clamp_scalar_bytes (to_scalar_bytes P k)) = to_montgomery P (verifying_key P k);
  own_scalar_ok k : kem_private_ok P (clamp_scalar_bytes (to_scalar_bytes P k)) = true;
  seal_shape seed pk pt aad enc ct :
    single_shot_seal P seed pk pt aad = Some (enc, ct) ->
    bytes_ok enc /\ length enc = ENC_LEN /\ kem_encapped_ok P enc = true /\ bytes_ok ct;
  open_seal seed s pt aad enc ct :
    single_shot_seal P seed (x25519_public P s) pt aad = Some (enc, ct) ->
    single_shot_open P s enc ct aad = Some pt;
  open_other_aad seed s pt aad aad' enc ct :
    single_shot_seal P seed (x25519_public P s) pt aad = Some (enc, ct) -> aad' <> aad ->
    single_shot_open P s enc ct aad' = None
}.
End Envelopes.

(** ** Lemmas: text *)

Lemma as_bytes_ok s : bytes_ok (as_bytes s).
Proof.
  induction s as [|a s IH]; constructor; [|done]. unfold in_width. change (2 ^ 8) with 256.
  pose proof (Ascii.N_ascii_bounded a). lia.
Qed.

Lemma string_of_as_bytes s : string_of_bytes (as_bytes s) = s.
Proof.
  induction s as [|a s IH]; simpl; [done|].
  by rewrite N2Z.id, Ascii.ascii_N_embedding, IH.
Qed.

Lemma as_bytes_of_bytes l : bytes_ok l -> as_bytes (string_of_bytes l) = l.
Proof.
  induction 1 as [|b l Hb _ IH]; simpl; [done|]. unfold in_width in Hb.
  change (2 ^ 8) with 256 in Hb.
  rewrite Ascii.N_ascii_embedding, Z2N.id, IH by lia. done.
Qed.

Lemma from_utf8_as_bytes s : utf8_valid (as_bytes s) = true -> from_utf8 (as_bytes s) = Some s.
Proof. unfold from_utf8. intros ->. by rewrite string_of_as_bytes. Qed.

Lemma as_bytes_inj s t : as_bytes s = as_bytes t -> s = t.
Proof. intros E. by rewrite <- (string_of_as_bytes s), E, string_of_as_bytes. Qed.

(** ** Lemmas: the wire form *)

Lemma length_i64_bytes t : length (i64_to_be_bytes t) = SENT_TIME_LEN.
Proof. apply length_to_be_bytes. Qed.

Lemma i64_bytes_ok t : bytes_ok (i64_to_be_bytes t).
Proof. apply to_be_bytes_ok. Qed.

Lemma i64_roundtrip t : - 2 ^ 63 <= t < 2 ^ 63 -> i64_from_be_bytes (i64_to_be_bytes t) = t.
Proof.
  intros Ht. unfold i64_from_be_bytes, i64_to_be_bytes, wrap.
  rewrite from_to_be_bytes_small by (apply Z.mod_pos_bound; lia). by apply signed_wrap.
Qed.

Lemma i64_from_bytes_bounds l : - 2 ^ 63 <= i64_from_be_bytes l < 2 ^ 63.
Proof.
  unfold i64_from_be_bytes, signed. change (64 - 1) with 63.
  pose proof (Z.mod_pos_bound (from_be_bytes l + 2 ^ 63) (2 ^ 64)). lia.
Qed.

Lemma i64_bytes_roundtrip l :
  bytes_ok l -> length l = SENT_TIME_LEN -> i64_to_be_bytes (i64_from_be_bytes l) = l.
Proof.
  intros Hl Hn. unfold i64_to_be_bytes, i64_from_be_bytes.
  pose proof (from_be_bytes_bound l Hl) as B. rewrite Hn in B. change (256 ^ _) with (2 ^ 64) in B.
  rewrite <- Hn. etrans; [|exact (to_from_be_bytes l Hl)]. apply to_be_bytes_mod.
  rewrite Hn. change (256 ^ _) with (2 ^ 64). unfold wrap, signed. rewrite Z.mod_mod by lia.
  change (64 - 1) with 63. rewrite Zminus_mod_idemp_l. f_equal. lia.
Qed.

(** Reads the [n] bytes in the middle of a concatenation. *)
Lemma slice_middle {A} (l1 l2 l3 : list A) a n :
  length l1 = a -> length l2 = n -> slice (l1 ++ l2 ++ l3) a n = l2.
Proof. intros <- <-. unfold slice. by rewrite drop_app_length, take_app_length. Qed.

Lemma slice_split {A} (l : list A) a n b :
  (a + n <= length l)%nat -> b = (a + n)%nat -> drop a l = slice l a n ++ drop b l.
Proof. intros H ->. unfold slice. by rewrite <- drop_drop, take_drop. Qed.

Lemma inner_roundtrip p :
  length (in_sender_id p) = ID_LEN -> length (in_message_id p) = MESSAGE_ID_LEN ->
  length (in_signature p) = SIGNATURE_LEN -> - 2 ^ 63 <= in_sent_time p < 2 ^ 63 ->
  utf8_valid (as_bytes (in_text p)) = true ->
  inner_from_bytes (inner_to_bytes p) = Ok p.
Proof.
  destruct p as [sid t mid sig txt]. cbn [in_sender_id in_sent_time in_message_id in_signature in_text].
  intros H1 H2 H3 Ht Hu. pose proof (length_i64_bytes t) as H4.
  unfold inner_from_bytes, inner_to_bytes. cbn [in_sender_id in_sent_time in_message_id in_signature in_text].
  set (bt := i64_to_be_bytes t) in *. set (tx := as_bytes txt) in *.
  assert (length (sid ++ bt ++ mid ++ sig ++ tx) = (INNER_HEADER_LEN + length tx)%nat) as Hlen.
  { rewrite !length_app, H1, H2, H3, H4. unfold INNER_HEADER_LEN. lia. }
  rewrite Hlen. destruct (Nat.ltb_spec (INNER_HEADER_LEN + length tx) INNER_HEADER_LEN); [lia|].
  assert (drop INNER_HEADER_LEN (sid ++ bt ++ mid ++ sig ++ tx) = tx) as ->.
  { rewrite !app_assoc. apply drop_app_length'. rewrite !length_app, H1, H2, H3, H4. done. }
  unfold tx at 1. rewrite from_utf8_as_bytes by done. f_equal. f_equal.
  - exact (slice_middle [] sid _ 0 ID_LEN eq_refl H1).
  - rewrite (slice_middle sid bt _ ID_LEN SENT_TIME_LEN H1 H4). by apply i64_roundtrip.
  - rewrite (app_assoc sid). apply slice_middle; [|done]. by rewrite length_app, H1, H4.
  - rewrite (app_assoc sid), (app_assoc (sid ++ bt)). apply slice_middle; [|done].
    rewrite !length_app, H1, H2, H4. done.
Qed.

Lemma inner_from_bytes_ok l p :
  inner_from_bytes l = Ok p ->
  (INNER_HEADER_LEN <= length l)%nat /\
  length (in_sender_id p) = ID_LEN /\ length (in_message_id p) = MESSAGE_ID_LEN /\
  length (in_signature p) = SIGNATURE_LEN /\ - 2 ^ 63 <= in_sent_time p < 2 ^ 63.
Proof.
  unfold inner_from_bytes. destruct (Nat.ltb_spec (length l) INNER_HEADER_LEN) as [|H]; [done|].
  destruct (from_utf8 _); [|done]. intros [= <-]. cbn [in_sender_id in_sent_time in_message_id in_signature].
  unfold INNER_HEADER_LEN, ID_LEN, SENT_TIME_LEN, MESSAGE_ID_LEN, SIGNATURE_LEN in *.
  pose proof (i64_from_bytes_bounds (slice l 32 8)) as []. split_and!; [lia|apply slice_length; lia..|done|done].
Qed.

Lemma inner_to_from_bytes l p :
  bytes_ok l -> inner_from_bytes l = Ok p -> inner_to_bytes p = l.
Proof.
  intros Hl. unfold inner_from_bytes.
  destruct (Nat.ltb_spec (length l) INNER_HEADER_LEN) as [|H]; [done|].
  destruct (from_utf8 _) as [t|] eqn:Et; [|done]. intros [= <-].
  unfold from_utf8 in Et. case_match; simplify_eq. unfold inner_to_bytes.
  cbn [in_sender_id in_sent_time in_message_id in_signature in_text].
  assert (forall a n, bytes_ok (slice l a n)) as Hs by (intros; by apply Forall_take, Forall_drop).
  rewrite as_bytes_of_bytes by by apply Forall_drop.
  unfold INNER_HEADER_LEN, ID_LEN, SENT_TIME_LEN, MESSAGE_ID_LEN, SIGNATURE_LEN in *.
  rewrite i64_bytes_roundtrip by (first [apply Hs | apply slice_length; unfold SENT_TIME_LEN; lia]).
  rewrite <- (slice_split l 56 64) by lia. rewrite <- (slice_split l 40 16) by lia.
  rewrite <- (slice_split l 32 8) by lia. by rewrite <- (slice_split l 0 32) by lia.
Qed.

Lemma envelope_roundtrip e :
  length (env_enc e) = ENC_LEN -> in_width 16 (env_suite_id e) ->
  envelope_from_bytes (envelope_to_bytes e) = Ok e.
Proof.
  destruct e as [v s enc ct]. cbn [env_enc env_suite_id]. intros He Hs.
  unfold envelope_from_bytes, envelope_to_bytes. cbn [env_version env_suite_id env_enc env_ciphertext].
  assert (length (v :: to_be_bytes 2 s ++ enc ++ ct) = (ENVELOPE_HEADER_LEN + length ct)%nat) as Hlen.
  { cbn [length]. rewrite !length_app, length_to_be_bytes, He. done. }
  rewrite Hlen. destruct (Nat.ltb_spec (ENVELOPE_HEADER_LEN + length ct) ENVELOPE_HEADER_LEN); [lia|].
  f_equal. f_equal.
  - etrans; [apply f_equal; exact (slice_middle [v] (to_be_bytes 2 s) (enc ++ ct) 1 2 eq_refl eq_refl)|].
    by apply from_to_be_bytes_small.
  - exact (slice_middle (v :: to_be_bytes 2 s) enc ct 3 ENC_LEN eq_refl He).
  - rewrite app_comm_cons, app_assoc. apply drop_app_length'. cbn [length app].
    rewrite length_app, length_to_be_bytes, He. done.
Qed.

Lemma envelope_to_from_bytes l e :
  bytes_ok l -> envelope_from_bytes l = Ok e -> envelope_to_bytes e = l.
Proof.
  intros Hl. unfold envelope_from_bytes.
  destruct (Nat.ltb_spec (length l) ENVELOPE_HEADER_LEN) as [|H]; [done|]. intros [= <-].
  unfold ENVELOPE_HEADER_LEN, ENC_LEN in *. destruct l as [|v l]; [simpl in H; lia|].
  unfold envelope_to_bytes. cbn [env_version env_suite_id env_enc env_ciphertext lookup list_lookup default].
  change (1 + 2 + 32)%nat with 35%nat in *.
  assert (length (slice (v :: l) 1 2) = 2%nat) as H2 by (apply slice_length; lia).
  rewrite <- H2 at 1. rewrite to_from_be_bytes by by apply Forall_take, Forall_drop.
  rewrite <- (slice_split (v :: l) 3 32) by (cbn [length] in *; lia).
  rewrite <- (slice_split (v :: l) 1 2) by (cbn [length] in *; lia). done.
Qed.

Lemma canonical_inj s r t x s' r' t' x' :
  length s = ID_LEN -> length s' = ID_LEN -> length r = ID_LEN -> length r' = ID_LEN ->
  - 2 ^ 63 <= t < 2 ^ 63 -> - 2 ^ 63 <= t' < 2 ^ 63 ->
  canonical_signed_message s r t x = canonical_signed_message s' r' t' x' ->
  s = s' /\ r = r' /\ t = t' /\ x = x'.
Proof.
  unfold canonical_signed_message. intros H1 H2 H3 H4 Ht Ht' E.
  apply app_inj_1 in E as [-> E]; [|congruence]. apply app_inj_1 in E as [-> E]; [|congruence].
  apply app_inj_1 in E as [E ->%as_bytes_inj]; [|by rewrite !length_i64_bytes].
  split_and!; try done. by rewrite <- (i64_roundtrip t), E, i64_roundtrip.
Qed.

(** ** Lemmas: clamping *)

Lemma byte_cases (P : Z -> bool) b :
  forallb P (seqZ 0 256) = true -> in_width 8 b -> P b = true.
Proof.
  intros H Hb. rewrite forallb_forall in H. apply H, list_elem_of_In, elem_of_seqZ.
  unfold in_width in Hb. change (2 ^ 8) with 256 in Hb. lia.
Qed.

Lemma clamp_low b : in_width 8 b -> Z.land b 248 mod 8 = 0 /\ 0 <= Z.land b 248 < 256.
Proof.
  intros Hb. pose proof (byte_cases (fun b => (Z.land b 248 mod 8 =? 0)
    && (0 <=? Z.land b 248) && (Z.land b 248 <? 256)) b eq_refl Hb) as H.
  cbn beta in H. lia.
Qed.

Lemma clamp_high b : in_width 8 b -> 64 <= Z.lor (Z.land b 127) 64 < 128.
Proof.
  intros Hb. pose proof (byte_cases (fun b => (64 <=? Z.lor (Z.land b 127) 64)
    && (Z.lor (Z.land b 127) 64 <? 128)) b eq_refl Hb) as H.
  cbn beta in H. lia.
Qed.

(** A byte string of 32 bytes as its first, its middle and its last bytes. *)
Lemma scalar_shape (l : list Z) :
  length l = 32%nat -> exists a m z, l = a :: m ++ [z] /\ length m = 30%nat.
Proof.
  intros H. destruct l as [|a l]; [done|]. destruct l as [|z m _] using rev_ind; [done|].
  exists a, m, z. split; [done|]. cbn [length] in H. rewrite length_app in H. cbn [length] in H. lia.
Qed.

Lemma clamp_shape a m z :
  length m = 30%nat ->
  clamp_scalar_bytes (a :: m ++ [z]) = Z.land a 248 :: m ++ [Z.lor (Z.land z 127) 64].
Proof.
  intros Hm. unfold clamp_scalar_bytes. cbn [alter list_alter]. f_equal.
  rewrite <- Hm. change (list_alter ?f) with (alter (M := list Z) f).
  rewrite <- (Nat.add_0_r (length m)). by rewrite alter_app_r.
Qed.

Lemma from_be_bytes_app l1 l2 :
  from_be_bytes (l1 ++ l2) = from_be_bytes l1 * 256 ^ Z.of_nat (length l2) + from_be_bytes l2.
Proof.
  unfold from_be_bytes. rewrite <- be_value_shift. generalize 0.
  induction l1 as [|b l1 IH]; intros acc; simpl; [done|apply IH].
Qed.

(** ** Theorems *)

(** An X25519 secret made from an identity key is a clamped scalar: read as a
    little-endian number it is a multiple of eight in the range from [2^254] to
    [2^255], and clamping it again changes nothing. *)
Theorem clamp_range (l : list Z) :
  bytes_ok l -> length l = 32%nat ->
  let n := from_be_bytes (rev (clamp_scalar_bytes l)) in
  2 ^ 254 <= n < 2 ^ 255 /\ n mod 8 = 0 /\
  bytes_ok (clamp_scalar_bytes l) /\
  clamp_scalar_bytes (clamp_scalar_bytes l) = clamp_scalar_bytes l.
Proof.
  intros Hok Hlen. apply scalar_shape in Hlen as (a & m & z & -> & Hm).
  apply Forall_cons in Hok as [Ha [Hmid Hz]%Forall_app]. rewrite Forall_singleton in Hz.
  rewrite !clamp_shape by done. pose proof (clamp_low a Ha) as [L1 L2]. pose proof (clamp_high z Hz) as U.
  cbn zeta. split_and!.
  1,2,3: cbn [rev]; rewrite rev_app_distr; cbn [rev app];
    rewrite from_be_bytes_cons, from_be_bytes_app, length_app, length_rev, Hm;
    change (Z.of_nat (30 + length [Z.land a 248])) with 31;
    change (Z.of_nat (length [Z.land a 248])) with 1;
    change (from_be_bytes [Z.land a 248]) with (Z.land a 248);
    (assert (bytes_ok (rev m)) as Hr by (by apply Forall_rev));
    pose proof (from_be_bytes_bound _ Hr) as B; rewrite length_rev, Hm in B;
    change (Z.of_nat 30) with 30 in B.
  - lia.
  - lia.
  - rewrite Z.pow_1_r. replace 256 with (32 * 8) at 2 by lia.
    change (256 ^ 31) with (256 ^ 30 * 32 * 8). rewrite !Z.mul_assoc, Z.add_assoc, <- Z.mul_add_distr_r.
    by rewrite Z.add_comm, Z.mod_add by lia.
  - constructor; [|apply Forall_app; split; [done|constructor; [|constructor]]];
      unfold in_width; change (2 ^ 8) with 256; lia.
  - f_equal; [|do 2 f_equal]; apply Z.bits_inj'; intros n Hn; rewrite !Z.land_spec || rewrite !Z.lor_spec, !Z.land_spec, !Z.lor_spec, !Z.land_spec;
      repeat match goal with |- context [Z.testbit ?x n] => destruct (Z.testbit x n) end; done.
Qed.

Lemma clamp_range_witness :
  let n := from_be_bytes (rev (clamp_scalar_bytes (to_be_bytes 32 7))) in
  2 ^ 254 <= n < 2 ^ 255 /\ n mod 8 = 0 /\
  bytes_ok (clamp_scalar_bytes (to_be_bytes 32 7)) /\
  clamp_scalar_bytes (clamp_scalar_bytes (to_be_bytes 32 7)) = clamp_scalar_bytes (to_be_bytes 32 7).
Proof. apply (clamp_range (to_be_bytes 32 7)); [apply to_be_bytes_ok|reflexivity]. Defined.

Section Correctness.
Context {SigningKey : Type} (P : primitives SigningKey).
Context {laws : PrimitiveLaws P}.

Lemma new_signed_verifies sender recipient_id t mid text :
  inner_verify P (new_signed P sender recipient_id t mid text) recipient_id = Ok tt.
Proof using laws.
  unfold inner_verify, new_signed. cbn [in_sender_id in_sent_time in_signature in_text].
  rewrite (verifying_key_valid P), (verify_sign P). done.
Qed.

(** Sealing for a key whose conversion the KEM accepts ends in the AEAD's answer. *)
Lemma envelope_seal_spec seed recipient inner e :
  envelope_seal P seed (verifying_key P recipient) inner = Ok e ->
  env_version e = ENVELOPE_VERSION /\
  env_suite_id e = SUITE_HPKE_X25519_HKDF_SHA256_CHACHA20POLY1305 /\
  single_shot_seal P seed (x25519_public P (ed25519_secret_to_x25519 P recipient))
    (inner_to_bytes inner) (associated_data (env_version e) (env_suite_id e))
  = Some (env_enc e, env_ciphertext e).
Proof using laws.
  unfold envelope_seal, ed25519_pub_to_x25519, ed25519_secret_to_x25519.
  rewrite (verifying_key_valid P), (scalar_converts P). cbn [ok_or result_bind].
  unfold hpke_seal. destruct (kem_public_ok P _); [|done]. cbn [negb].
  destruct (single_shot_seal P seed _ _ _) as [[enc ct]|] eqn:E; [|done].
  cbn. intros [= <-]. done.
Qed.

Lemma envelope_seal_header seed pub inner e :
  envelope_seal P seed pub inner = Ok e ->
  length (env_enc e) = ENC_LEN /\ in_width 16 (env_suite_id e).
Proof using laws.
  unfold envelope_seal, hpke_seal. destruct (ed25519_pub_to_x25519 P pub) as [x|]; [|done].
  cbn [ok_or result_bind]. destruct (kem_public_ok P x); [|done]. cbn [negb].
  destruct (single_shot_seal P seed x _ _) as [[enc ct]|] eqn:E; [|done].
  intros [= <-]. split; [|done]. by apply (seal_shape P) in E as (_ & ? & _).
Qed.

Lemma envelope_unseal_seal seed recipient inner e :
  envelope_seal P seed (verifying_key P recipient) inner = Ok e ->
  envelope_unseal P e recipient = map_err Parse (inner_from_bytes (inner_to_bytes inner)).
Proof using laws.
  intros H. apply envelope_seal_spec in H as (Hv & Hs & E).
  unfold envelope_unseal, suite_name. rewrite Hv, Hs in *. rewrite !Z.eqb_refl. cbn [negb].
  unfold hpke_unseal. change (ed25519_secret_to_x25519 P recipient) with
    (clamp_scalar_bytes (to_scalar_bytes P recipient)) in *.
  rewrite (own_scalar_ok P). cbn [negb].
  pose proof (seal_shape P _ _ _ _ _ _ E) as (_ & _ & -> & _). cbn [negb].
  by rewrite (open_seal P _ _ _ _ _ _ E).
Qed.

(** (C22) Round trip of store-and-forward: what a sender seals for a recipient, the
    recipient opens to the same text and send time, attributed to the sender's
    identity key, with a signature that verifies under that key over exactly this
    sender, recipient, time and text. *)
Theorem seal_then_open seed mid (sender recipient : SigningKey) t text bytes :
  length mid = MESSAGE_ID_LEN -> - 2 ^ 63 <= t < 2 ^ 63 -> utf8_valid (as_bytes text) = true ->
  seal P seed mid (verifying_key P recipient) sender t text = Ok bytes ->
  exists sig,
    unseal P recipient bytes
      = Ok (MkOpened (verifying_key P sender) t mid text sig
              SUITE_HPKE_X25519_HKDF_SHA256_CHACHA20POLY1305) /\
    ed25519_verify P (verifying_key P sender)
      (canonical_signed_message (verifying_key P sender) (verifying_key P recipient) t text) sig
    = true.
Proof using laws.
  intros Hmid Ht Hu. unfold seal.
  set (inner := new_signed P sender (verifying_key P recipient) t mid text).
  destruct (envelope_seal P seed _ inner) as [e|] eqn:E; [|done]. intros [= <-].
  exists (in_signature inner). split; [|by apply (verify_sign P)].
  unfold unseal. rewrite envelope_roundtrip by (by eapply envelope_seal_header).
  cbn [map_err result_bind]. rewrite (envelope_unseal_seal _ _ _ _ E).
  pose proof (verifying_key_ok P sender) as [_ Hs].
  rewrite inner_roundtrip; [|done|done|by apply (signature_ok P)|done|done].
  cbn [map_err result_bind].
  assert (inner_verify P inner (verifying_key P recipient) = Ok tt) as -> by apply new_signed_verifies.
  cbn [result_bind].
  by apply envelope_seal_spec in E as (_ & -> & _).
Qed.

(** (C23) Whatever bytes a recipient opens, whoever made them: they have the current
    version and a known suite, the fields have the lengths and ranges of their Rust
    types, and the signature verifies under the named sender over this sender, this
    recipient, the time and the text that are returned. *)
Theorem open_authentic (recipient : SigningKey) bytes m :
  unseal P recipient bytes = Ok m ->
  (exists e, envelope_from_bytes bytes = Ok e /\ env_version e = ENVELOPE_VERSION) /\
  is_Some (suite_name (op_suite_id m)) /\
  length (op_sender_id m) = ID_LEN /\ length (op_message_id m) = MESSAGE_ID_LEN /\
  length (op_signature m) = SIGNATURE_LEN /\ - 2 ^ 63 <= op_sent_time m < 2 ^ 63 /\
  valid_verifying_key P (op_sender_id m) = true /\
  ed25519_verify P (op_sender_id m)
    (canonical_signed_message (op_sender_id m) (verifying_key P recipient) (op_sent_time m) (op_text m))
    (op_signature m) = true.
Proof using.
  unfold unseal. destruct (envelope_from_bytes bytes) as [e|] eqn:Ee; [|done]. cbn [map_err result_bind].
  unfold envelope_unseal.
  destruct (env_version e =? ENVELOPE_VERSION) eqn:Ev; [|done]. cbn [negb].
  destruct (suite_name (env_suite_id e)) eqn:Es; [|done].
  destruct (hpke_unseal P _ _ _ _) as [inner|]; [|done]. cbn [map_err result_bind].
  destruct (inner_from_bytes inner) as [p|] eqn:Ep; [|done]. cbn [map_err result_bind].
  unfold inner_verify. destruct (valid_verifying_key P (in_sender_id p)) eqn:Ek; [|done]. cbn [negb].
  destruct (ed25519_verify P _ _ _) eqn:Eg; [|done]. cbn [result_bind]. intros [= <-].
  apply inner_from_bytes_ok in Ep as (_ & ? & ? & ? & ?).
  cbn [op_sender_id op_message_id op_signature op_sent_time op_suite_id op_text].
  split_and!; try done; try lia. exists e. split; [done|lia].
Qed.

(** The clear header is authenticated: when the version or the suite of a sealed
    message is changed in transit, the recipient refuses it, and names the cause when
    it does not know the version or the suite. *)
Theorem header_tamper_refused seed (recipient : SigningKey) inner e v s :
  in_width 16 s ->
  envelope_seal P seed (verifying_key P recipient) inner = Ok e ->
  (v, s) <> (env_version e, env_suite_id e) ->
  let bytes := envelope_to_bytes (MkEnvelope v s (env_enc e) (env_ciphertext e)) in
  unseal P recipient bytes
  = Err (if negb (v =? ENVELOPE_VERSION) then UnknownVersion v
         else if bool_decide (suite_name s = None) then UnknownSuite s
         else Unseal HpkeOpen).
Proof using laws.
  intros Hs He Hne. cbn zeta. pose proof (envelope_seal_header _ _ _ _ He) as [Hl _].
  apply envelope_seal_spec in He as (Ev & Esu & E).
  unfold unseal. rewrite envelope_roundtrip by done. cbn [map_err result_bind].
  unfold envelope_unseal. cbn [env_version env_suite_id env_enc env_ciphertext].
  destruct (v =? ENVELOPE_VERSION) eqn:Hv; [|done]. cbn [negb]. apply Z.eqb_eq in Hv as ->.
  destruct (suite_name s) eqn:Hn; [|done]. rewrite bool_decide_eq_false_2 by done.
  unfold hpke_unseal. change (ed25519_secret_to_x25519 P recipient) with
    (clamp_scalar_bytes (to_scalar_bytes P recipient)) in *.
  rewrite (own_scalar_ok P). cbn [negb].
  pose proof (seal_shape P _ _ _ _ _ _ E) as (_ & _ & -> & _). cbn [negb].
  erewrite (open_other_aad P); [done|exact E|]. intros [= _ Hs' Hs''].
  unfold suite_name in Hn. destruct (s =? _) eqn:Heq; [|done]. apply Z.eqb_eq in Heq. congruence.
Qed.

(** A payload signed for one recipient is of no use for another: if the byte
    string it was made for is the only one its signature verifies, then no other
    recipient [b] accepts the payload, however it was sealed again. *)
Theorem replay_refused (sender b : SigningKey) a_id t text mid :
  let m := canonical_signed_message (verifying_key P sender) a_id t text in
  (forall m', ed25519_verify P (verifying_key P sender) m' (ed25519_sign P sender m) = true -> m' = m) ->
  length a_id = ID_LEN -> a_id <> verifying_key P b -> - 2 ^ 63 <= t < 2 ^ 63 ->
  inner_verify P (new_signed P sender a_id t mid text) (verifying_key P b) = Err BadSignature.
Proof using laws.
  intros m Hu Hl Hne Ht. unfold inner_verify, new_signed. cbn [in_sender_id in_sent_time in_signature in_text].
  rewrite (verifying_key_valid P). cbn [negb].
  destruct (ed25519_verify P _ _ _) eqn:E; [|done]. exfalso. subst m. apply Hu, canonical_inj in E;
    try done; try (by apply (verifying_key_ok P)). naive_solver.
Qed.
End Correctness.

(** The signature a live message carries is the one its sealed form would carry, and
    signing a message again, for the same recipient, changes nothing. *)
Lemma live_signature_agrees {SigningKey} (P : primitives SigningKey) b64 m k rid now mid :
  let '(m', ok) := sign_text_message P b64 (Some m) k rid now in
  ok = true /\
  m' = Some (MkTextFields (tf_text m) (Some (default now (tf_sent_time m)))
         (Some (b64 (in_signature (new_signed P k rid (default now (tf_sent_time m)) mid (tf_text m)))))) /\
  forall now', sign_text_message P b64 m' k rid now' = (m', true).
Proof. cbn. split_and!; done. Qed.

(** ** Instances of the primitives

    A signature is a checksum and the seal appends the associated data: enough to
    satisfy the laws, which say nothing about secrecy. *)
Module Toy.

Definition checksum (pub m : list Z) : list Z := to_be_bytes 64 (from_be_bytes (pub ++ m)).

Definition toy_enc (seed : Z) : list Z := to_be_bytes 32 seed.

Definition toy_seal (seed : Z) (pk pt aad : list Z) : option (list Z * list Z) :=
  if decide (bytes_ok pt /\ bytes_ok aad /\ (length aad < 256)%nat)
  then Some (toy_enc seed, Z.of_nat (length aad) :: aad ++ pt) else None.

Definition toy_open (sk enc ct aad : list Z) : option (list Z) :=
  match ct with
  | [] => None
  | n :: rest =>
      if decide (n = Z.of_nat (length aad) /\ take (length aad) rest = aad)
      then Some (drop (length aad) rest) else None
  end.

Definition toy_with (sig : list Z -> list Z -> list Z) : primitives Z :=
  MkPrimitives Z from_be_bytes (to_be_bytes 32) (fun _ => true)
    (fun k m => sig (to_be_bytes 32 k) m)
    (fun pub m s => bool_decide (s = sig pub m))
    clamp_scalar_bytes (to_be_bytes 32) (fun _ => true) (fun _ => true) (fun _ => true)
    toy_seal toy_open (fun s => s).

Lemma toy_with_laws sig :
  (forall pub m, bytes_ok (sig pub m) /\ length (sig pub m) = SIGNATURE_LEN) ->
  PrimitiveLaws (toy_with sig).
Proof.
  intros Hsig. split; cbn [toy_with verifying_key valid_verifying_key ed25519_sign ed25519_verify to_scalar_bytes
    x25519_public to_montgomery kem_private_ok kem_encapped_ok single_shot_seal single_shot_open].
  - intros k. split; [apply to_be_bytes_ok|apply length_to_be_bytes].
  - done.
  - intros k m. apply Hsig.
  - intros k m. by apply bool_decide_eq_true_2.
  - done.
  - done.
  - unfold toy_seal. intros seed pk pt aad enc ct. case_decide as H; [|done]. destruct H as (H1 & H2 & H3).
    intros [= <- <-]. split_and!; [apply to_be_bytes_ok|apply length_to_be_bytes|done|].
    constructor; [unfold in_width; change (2 ^ 8) with 256; lia|by apply Forall_app].
  - unfold toy_seal, toy_open. intros seed s pt aad enc ct. case_decide; [|done]. intros [= <- <-].
    rewrite decide_True by (by rewrite take_app_length). by rewrite drop_app_length.
  - unfold toy_seal, toy_open. intros seed s pt aad aad' enc ct. case_decide; [|done]. intros [= <- <-] Hne.
    rewrite decide_False; [done|]. intros [Hn Ht]. apply Hne. rewrite <- Ht.
    replace (length aad') with (length aad) by lia. by rewrite take_app_length.
Qed.

Definition toy : primitives Z := toy_with checksum.

#[export] Instance toy_laws : PrimitiveLaws toy.
Proof. apply toy_with_laws. intros. split; [apply to_be_bytes_ok|apply length_to_be_bytes]. Qed.

(** A signature that singles out one message. *)
Definition mark (special pub m : list Z) : list Z :=
  if decide (m = special) then to_be_bytes 64 0 else to_be_bytes 64 1.

Lemma mark_laws special : PrimitiveLaws (toy_with (mark special)).
Proof.
  apply toy_with_laws. intros pub m. unfold mark.
  case_decide; (split; [apply to_be_bytes_ok|apply length_to_be_bytes]).
Qed.

Definition hello_bytes : list Z := Eval vm_compute in
  default [] (result_ok
    (seal toy 5 (to_be_bytes 16 9) (verifying_key toy 2) 1 1700000000000 "hello")).

(** The same message with the version changed to two. *)
Definition tampered_bytes : list Z := Eval vm_compute in alter (fun _ => 2) 0%nat hello_bytes.
End Toy.

Lemma seal_then_open_witness :
  exists sig,
    unseal Toy.toy 2 Toy.hello_bytes
      = Ok (MkOpened (to_be_bytes 32 1) 1700000000000 (to_be_bytes 16 9) "hello" sig 1) /\
    ed25519_verify Toy.toy (to_be_bytes 32 1)
      (canonical_signed_message (to_be_bytes 32 1) (to_be_bytes 32 2) 1700000000000 "hello") sig = true.
Proof.
  apply (seal_then_open Toy.toy (laws := Toy.toy_laws) 5 (to_be_bytes 16 9) 1 2); vm_compute; first [done|split; congruence].
Defined.

Lemma open_authentic_witness :
  ed25519_verify Toy.toy (to_be_bytes 32 1)
    (canonical_signed_message (to_be_bytes 32 1) (to_be_bytes 32 2) 1700000000000 "hello")
    (Toy.checksum (to_be_bytes 32 1)
       (canonical_signed_message (to_be_bytes 32 1) (to_be_bytes 32 2) 1700000000000 "hello")) = true.
Proof.
  refine (proj2 (proj2 (proj2 (proj2 (proj2 (proj2 (proj2
    (open_authentic Toy.toy 2 Toy.hello_bytes
      (MkOpened (to_be_bytes 32 1) 1700000000000 (to_be_bytes 16 9) "hello"
         (Toy.checksum (to_be_bytes 32 1)
            (canonical_signed_message (to_be_bytes 32 1) (to_be_bytes 32 2) 1700000000000 "hello")) 1)
      _)))))))).
  vm_compute. reflexivity.
Defined.

Lemma header_tamper_refused_witness :
  unseal Toy.toy 2 Toy.tampered_bytes = Err (UnknownVersion 2).
Proof.
  apply (header_tamper_refused Toy.toy (laws := Toy.toy_laws) 5 2
    (new_signed Toy.toy 1 (to_be_bytes 32 2) 1700000000000 (to_be_bytes 16 9) "hello")
    (MkEnvelope 1 1 (slice Toy.hello_bytes 3 32) (drop 35 Toy.hello_bytes)) 2 1);
    vm_compute; first [done|split; congruence].
Defined.

Lemma replay_refused_witness :
  let m := canonical_signed_message (to_be_bytes 32 1) (to_be_bytes 32 2) 7 "hello" in
  inner_verify (Toy.toy_with (Toy.mark m))
    (new_signed (Toy.toy_with (Toy.mark m)) 1 (to_be_bytes 32 2) 7 (to_be_bytes 16 9) "hello")
    (to_be_bytes 32 3) = Err BadSignature.
Proof.
  intros m. apply (replay_refused (Toy.toy_with (Toy.mark m)) (laws := Toy.mark_laws m) 1 3).
  - intros m' H. cbn [Toy.toy_with ed25519_verify ed25519_sign verifying_key] in H.
    apply bool_decide_eq_true_1 in H. unfold Toy.mark in H. rewrite (decide_True (P := m = m)) in H by done.
    case_decide; [done|]. vm_compute in H. discriminate H.
  - reflexivity.
  - vm_compute. congruence.
  - lia.
Defined.
