(* ===== verification/LocalTypes.v ===== *)
(** * The data of the local client

    Models [src/bingle_local/src/api/bingle_local_api.rs] (messages, contacts, key
    pairs, message identifiers) and the errors the client classifies
    ([bingle_core/src/api/bingle_api.rs]), here with their texts, which the client
    stores and shows.

    The progress of a message is a Rust [f32] between [0.0] and [1.0]; every writer
    of it passes [0.0], [1.0] or a percentage divided by a hundred, so it is an
    integer number of hundredths here.  Times are integers: milliseconds since the
    epoch where the source has [i64], milliseconds of the monotonic clock where it
    has [Instant]. *)
From S2P Require Import Prelude Advert.
From S2P Require Import Envelope Api.

Local Open Scope Z_scope.

(** ** Errors *)

(** The payload of [Algo] is the blockchain layer's error: whether its kind is
    [HostUnreachable], and its text. *)
Inductive BingleError : Type :=
| Algo (host_unreachable : bool) (text : string)
| Retryable (text : string)
| HandleTaken (owner : string)
| Send (kind : SendFailureKind) (detail : string)
| Other (text : string).

#[export] Instance BingleError_eq_dec : EqDecision BingleError.
Proof. solve_decision. Defined.

(** The derived [Debug] text of a cause. *)
Definition kind_name (k : SendFailureKind) : string :=
  match k with
  | HandleNotFound => "HandleNotFound"
  | HandleLookupFailed => "HandleLookupFailed"
  | RecipientNotAdvertised => "RecipientNotAdvertised"
  | InvalidRecipientId => "InvalidRecipientId"
  | NoRelayAvailable => "NoRelayAvailable"
  | RelayAllocationFailed => "RelayAllocationFailed"
  | PeerUnreachable => "PeerUnreachable"
  | NoResponse => "NoResponse"
  | MalformedAdvert => "MalformedAdvert"
  | ProtocolError => "ProtocolError"
  | NotReady => "NotReady"
  | UnknownCause => "Unknown"
  end.

(** The [Display] text. *)
Definition error_to_string (e : BingleError) : string :=
  match e with
  | Algo _ t => "Blockchain error: " +:+ t
  | Retryable t => "Retryable error: " +:+ t
  | HandleTaken o => "Handle already in use by " +:+ o
  | Send k d => "Send failed (" +:+ kind_name k +:+ "): " +:+ d
  | Other t => t
  end.

(** The error without its text, as the sending path of the API returns it. *)
Definition erase_error (e : BingleError) : Api.BingleError :=
  match e with
  | Algo _ _ => Api.Algo
  | Retryable _ => Api.Retryable
  | HandleTaken o => Api.HandleTaken o
  | Send k _ => Api.SendFailed k
  | Other _ => Api.OtherError
  end.

Definition algo_host_unreachable (e : BingleError) : bool :=
  match e with Algo u _ => u | _ => false end.

(** ** Contacts, keys, messages *)

Inductive ContactSource : Type := Manual | Received.

#[export] Instance ContactSource_eq_dec : EqDecision ContactSource.
Proof. solve_decision. Defined.

(** The additional fields of a contact are always empty. *)
Record Contact : Type := MkContact { contact_handle : string; contact_id : string }.

Inductive DeliveryRoute : Type := Direct | StoreAndForward.

#[export] Instance DeliveryRoute_eq_dec : EqDecision DeliveryRoute.
Proof. solve_decision. Defined.

Record Message : Type := MkMessage {
  msg_id : string;
  sender_handle : string;
  recipient_handles : list string;
  timestamp : Z;
  text : string;
  cipher_suite : option string;
  progress : option Z;
  failure_reason : option string;
  failure_kind : option SendFailureKind;
  sent_time : option Z;
  delivered_time : option Z;
  signature : option string;
  delivery_route : option DeliveryRoute;
  store_and_forward_failure : option string
}.

#[export] Instance Message_eq_dec : EqDecision Message.
Proof. solve_decision. Defined.

Record Keypair : Type := MkKeypair { key_id : string; passphrase : string }.

#[export] Instance Keypair_eq_dec : EqDecision Keypair.
Proof. solve_decision. Defined.

(** Amounts of ALGO are in millionths, the unit of the chain. *)
Record KeypairStatus : Type := MkKeypairStatus {
  status : string;
  status_id : option string;
  status_handle : option string;
  required_algo : option Z;
  stale : bool
}.

#[export] Instance KeypairStatus_eq_dec : EqDecision KeypairStatus.
Proof. solve_decision. Defined.

Definition REQUIRED_ALGO : Z := 1500000.

Record MessagingSettings : Type := MkMessagingSettings {
  set_store_and_forward_send : bool;
  set_store_and_forward_receive : bool;
  set_notify_on_giveup : bool;
  set_notify_gateway_url : option string
}.

Inductive MailboxPollStatus : Type :=
| Drained
| Unreachable (reason : string)
| Skipped.

Record MailboxPoll : Type := MkMailboxPoll {
  poll_messages : list Message;
  poll_status : MailboxPollStatus
}.

Definition MailboxPoll_skipped : MailboxPoll := MkMailboxPoll [] Skipped.

(** ** Identifiers *)

Definition hex_digit (d : Z) : ascii :=
  Ascii.ascii_of_N (Z.to_N (if d <? 10 then 48 + d else 87 + d)).

Fixpoint hex_id (bytes : list Z) : string :=
  match bytes with
  | [] => EmptyString
  | b :: bytes => String (hex_digit (b / 16)) (String (hex_digit (b mod 16)) (hex_id bytes))
  end.

(** [random] is what the operating system's generator returned; [nanos] the clock,
    of which the sixteen bytes in little-endian order stand in when it failed. *)
Definition new_message_id (random : option (list Z)) (nanos : Z) : string :=
  hex_id (match random with Some b => b | None => rev (to_be_bytes 16 nanos) end).

Definition show_i64 (z : Z) : string :=
  if z <? 0 then String "-"%char (show_dec (- z)) else show_dec z.

Definition legacy_message_id (timestamp : Z) : string := "legacy-" +:+ show_i64 timestamp.

(** ** Messages *)

Definition with_store_and_forward_failure (reason : string) (sf : option string) : string :=
  match sf with
  | Some sf => reason +:+ " (store-and-forward failed: " +:+ sf +:+ ")"
  | None => reason
  end.

Definition display_failure_reason (m : Message) : option string :=
  (fun r => with_store_and_forward_failure r (store_and_forward_failure m)) <$> failure_reason m.

Definition order_time (m : Message) : Z :=
  default (timestamp m) (match sent_time m with Some t => Some t | None => delivered_time m end).

(** A received message, made from an opened envelope. *)
Definition from_opened (base64_encode : list Z -> string) (opened : OpenedMessage)
    (sender : string) (recipients : list string) (delivered : Z) : Message :=
  MkMessage (hex_id (op_message_id opened)) sender recipients delivered (op_text opened)
    (suite_name (op_suite_id opened)) (Some 100) None None
    (Some (op_sent_time opened)) (Some delivered) (Some (base64_encode (op_signature opened)))
    (Some StoreAndForward) None.

(** A message awaits delivery. *)
Definition is_pending (m : Message) : bool :=
  match progress m with Some p => p <? 100 | None => false end.

(** ** Computations of the client

    A state [S] is passed along; an operation of the source that may fail returns a
    [result], and [let*] is Rust's [?]. *)

Definition ST (S A : Type) : Type := S -> S * A.

#[export] Instance ST_ret S : MRet (ST S) := fun A a s => (s, a).
#[export] Instance ST_bind S : MBind (ST S) := fun A B k m s => let '(s, a) := m s in k a s.

Definition st_try {S A B E} (m : ST S (result A E)) (k : A -> ST S (result B E))
  : ST S (result B E) :=
  m ≫= fun r => match r with Ok a => k a | Err e => mret (Err e) end.

Notation "'let*' x ':=' m 'in' k" := (st_try m (fun x => k))
  (at level 10, x pattern, m at level 100, k at level 200) : bingle_scope.

Definition get_st {S} : ST S S := fun s => (s, s).
Definition modify {S} (f : S -> S) : ST S unit := fun s => (f s, tt).

(** A Hoare triple: from a state with [P], [m] ends with a result and a state with [Q]. *)
Definition triple {S A} (P : S -> Prop) (m : ST S A) (Q : A -> S -> Prop) : Prop :=
  forall s, P s -> Q (m s).2 (m s).1.

(** [m] keeps the invariant [P]. *)
Definition keeps {S A} (P : S -> Prop) (m : ST S A) : Prop := triple P m (fun _ => P).

Section Triples.
Context {S : Type}.

Lemma triple_ret {A} (P : S -> Prop) (a : A) Q : (forall s, P s -> Q a s) -> triple P (mret a) Q.
Proof. intros H s Hs. by apply H. Qed.

Lemma triple_bind {A B} (P : S -> Prop) (m : ST S A) (k : A -> ST S B) R Q :
  triple P m R -> (forall a, triple (R a) (k a) Q) -> triple P (m ≫= k) Q.
Proof.
  intros Hm Hk s Hs. specialize (Hm s Hs). unfold mbind, ST_bind.
  destruct (m s) as [s1 a]. by apply Hk.
Qed.

Lemma triple_try {A B E} (P : S -> Prop) (m : ST S (result A E)) (k : A -> ST S (result B E)) R Q :
  triple P m R -> (forall a, triple (R (Ok a)) (k a) Q) ->
  (forall e s, R (Err e) s -> Q (Err e) s) -> triple P (st_try m k) Q.
Proof.
  intros Hm Hk He. eapply triple_bind; [exact Hm|]. intros [a|e]; [apply Hk|].
  intros s Hs. by apply He.
Qed.

Lemma triple_conseq {A} (P P' : S -> Prop) (m : ST S A) Q Q' :
  triple P' m Q' -> (forall s, P s -> P' s) -> (forall a s, Q' a s -> Q a s) -> triple P m Q.
Proof. intros Hm HP HQ s Hs. by apply HQ, Hm, HP. Qed.

Lemma triple_run {A} (P : S -> Prop) (m : ST S A) Q s s' a :
  triple P m Q -> P s -> m s = (s', a) -> Q a s'.
Proof. intros Hm Hs E. specialize (Hm s Hs). by rewrite E in Hm. Qed.

Lemma keeps_ret {A} (P : S -> Prop) (a : A) : keeps P (mret a).
Proof. by intros s Hs. Qed.

Lemma keeps_bind {A B} (P : S -> Prop) (m : ST S A) (k : A -> ST S B) :
  keeps P m -> (forall a, keeps P (k a)) -> keeps P (m ≫= k).
Proof. intros. by eapply triple_bind. Qed.

Lemma keeps_try {A B E} (P : S -> Prop) (m : ST S (result A E)) (k : A -> ST S (result B E)) :
  keeps P m -> (forall a, keeps P (k a)) -> keeps P (st_try m k).
Proof. intros. by eapply triple_try. Qed.
End Triples.

#[export] Hint Resolve keeps_ret keeps_bind keeps_try : bingle.

(** ** Lemmas: identifiers *)

Lemma hex_digit_inj a b : 0 <= a < 16 -> 0 <= b < 16 -> hex_digit a = hex_digit b -> a = b.
Proof.
  intros Ha Hb E. apply (f_equal Ascii.N_of_ascii) in E. unfold hex_digit in E.
  rewrite !Ascii.N_ascii_embedding in E by (repeat case_match; lia).
  repeat case_match; lia.
Qed.

Lemma hex_id_inj l1 l2 : bytes_ok l1 -> bytes_ok l2 -> hex_id l1 = hex_id l2 -> l1 = l2.
Proof.
  intros H1. revert l2. induction H1 as [|a l1 Ha _ IH]; intros l2 H2 E.
  - by destruct l2.
  - destruct H2 as [|b l2 Hb H2]; [done|]. cbn [hex_id] in E.
    injection E as Eh El E. unfold in_width in *. change (2 ^ 8) with 256 in *.
    apply hex_digit_inj in Eh; [|Z.div_mod_to_equations; lia..].
    apply hex_digit_inj in El; [|Z.div_mod_to_equations; lia..].
    f_equal; [|by apply IH]. rewrite (Z.div_mod a 16), (Z.div_mod b 16) by lia. congruence.
Qed.

(** No digit of a hexadecimal identifier is the [l] of a legacy one. *)
Lemma hex_digit_not_l d : 0 <= d < 16 -> hex_digit d <> "l"%char.
Proof.
  intros Hd E. apply (f_equal Ascii.N_of_ascii) in E. unfold hex_digit in E.
  rewrite Ascii.N_ascii_embedding in E by (repeat case_match; lia).
  change (Ascii.N_of_ascii "l"%char) with 108%N in E. repeat case_match; lia.
Qed.

Lemma hex_id_not_legacy l t : bytes_ok l -> hex_id l <> legacy_message_id t.
Proof.
  intros [|b l' Hb _]; [done|]. cbn [hex_id]. intros [=E].
  unfold in_width in Hb. change (2 ^ 8) with 256 in Hb.
  eapply hex_digit_not_l; [|exact E]. Z.div_mod_to_equations; lia.
Qed.

Lemma show_dec_inj a b : 0 <= a < 10 ^ 20 -> 0 <= b < 10 ^ 20 -> show_dec a = show_dec b -> a = b.
Proof.
  intros Ha Hb E. unfold show_dec in E.
  apply (f_equal (fun s => parse_digits s 0)) in E.
  rewrite !(parse_show_go 20) in E by (change (Z.of_nat 20) with 20; lia). by simplify_eq/=.
Qed.

Lemma show_i64_inj a b : - 2 ^ 63 <= a < 2 ^ 63 -> - 2 ^ 63 <= b < 2 ^ 63 ->
  show_i64 a = show_i64 b -> a = b.
Proof.
  assert (forall z t, 0 <= z -> show_dec z = String "-"%char t -> False) as N.
  { intros z t Hz E. pose proof (show_dec_chars "-"%char z eq_refl Hz) as H.
    by rewrite E in H. }
  unfold show_i64. intros Ha Hb E.
  destruct (a <? 0) eqn:Ea, (b <? 0) eqn:Eb.
  - injection E as E. apply show_dec_inj in E; lia.
  - exfalso. symmetry in E. apply N in E; lia.
  - exfalso. apply N in E; lia.
  - apply show_dec_inj in E; lia.
Qed.

Lemma legacy_message_id_inj a b : - 2 ^ 63 <= a < 2 ^ 63 -> - 2 ^ 63 <= b < 2 ^ 63 ->
  legacy_message_id a = legacy_message_id b -> a = b.
Proof. unfold legacy_message_id. intros Ha Hb E. simplify_eq/=. by apply show_i64_inj. Qed.

Lemma new_message_id_hex random nanos :
  (forall b, random = Some b -> bytes_ok b) ->
  exists l, bytes_ok l /\ new_message_id random nanos = hex_id l.
Proof.
  intros H. unfold new_message_id. destruct random as [b|]; [by eauto|].
  eexists. split; [|done]. apply Forall_rev, to_be_bytes_ok.
Qed.
