(* ===== verification/SendRetry.v ===== *)
(** * The retry policy of the local client

    Models [src/bingle_local/src/api/send_retry.rs]: the classification of a failed
    send, the choice of the next pending message, and the record of recipients found
    offline. *)
From S2P Require Import Prelude LocalTypes.
From S2P Require Import Api.
Import LocalTypes.

Local Open Scope Z_scope.

Definition RETRY_BACKOFF : Z := 10000.
Definition OFFLINE_WINDOW : Z := 60000.

(** ** Classification *)

Definition ascii_lower (a : ascii) : ascii :=
  let n := Ascii.N_of_ascii a in
  if ((65 <=? n) && (n <=? 90))%N then Ascii.ascii_of_N (n + 32) else a.

Fixpoint to_ascii_lowercase (s : string) : string :=
  match s with
  | EmptyString => EmptyString
  | String a s => String (ascii_lower a) (to_ascii_lowercase s)
  end.

(** The words that mark an untyped error as one of connectivity. *)
Definition transient_words : list string :=
  ["retryable"; "send returned false"; "no available relay"; "no relay"; "unreachable";
   "no route"; "noconnection"].

Definition is_transient_send_failure (err : string) : bool :=
  let e := to_ascii_lowercase err in existsb (fun w => contains w e) transient_words.

Definition pending_failure_reason (err : string) (transient : bool) : string :=
  if transient then "Recipient unreachable — will keep retrying"
  else "Message failed to send: " +:+ err.

Record SendFailure : Type := MkSendFailure { sf_kind : SendFailureKind; sf_reason : string }.

Definition humanize_failure (kind : SendFailureKind) (detail : string) : string :=
  match kind with
  | HandleNotFound => "No account is registered for that handle"
  | HandleLookupFailed =>
      "Could not reach the network to look up the handle — will keep retrying"
  | RecipientNotAdvertised => "Recipient is not connected right now — will keep retrying"
  | InvalidRecipientId => "The recipient address is not valid"
  | NoRelayAvailable => "No relay available to route the message — will keep retrying"
  | RelayAllocationFailed =>
      "Could not open a relay channel to the recipient — will keep retrying"
  | PeerUnreachable => "Recipient unreachable — will keep retrying"
  | NoResponse => "No response from the recipient — will keep retrying"
  | MalformedAdvert => "The recipient's connection record is invalid"
  | ProtocolError => "Unexpected response from the network"
  | NotReady => "Not ready to send yet — will keep retrying"
  | UnknownCause => "Message failed to send: " +:+ detail
  end.

Definition classify_legacy_error (err : BingleError) : SendFailure :=
  let detail := error_to_string err in
  let kind :=
    match err with
    | Algo _ _ => NotReady
    | Retryable _ => PeerUnreachable
    | _ => if is_transient_send_failure detail then PeerUnreachable else UnknownCause
    end in
  MkSendFailure kind (humanize_failure kind detail).

Definition classify_send_error (r : result bool BingleError) : option SendFailure :=
  match r with
  | Ok true => None
  | Ok false =>
      Some (MkSendFailure UnknownCause
              (humanize_failure UnknownCause "message not accepted by recipient"))
  | Err (Send kind detail) => Some (MkSendFailure kind (humanize_failure kind detail))
  | Err other => Some (classify_legacy_error other)
  end.

(** ** The next message *)

Definition older (a b : Message) : bool := order_time a <=? order_time b.

Definition eligible (retry_after : gmap string Z) (now : Z) (m : Message) : bool :=
  match retry_after !! msg_id m with Some deadline => deadline <=? now | None => true end.

Definition select_sendable_message (pending : list Message) (retry_after : gmap string Z) (now : Z)
  : option Message :=
  find (eligible retry_after now) (sort_by older pending).

(** ** Recipients found offline *)

Definition indicates_peer_offline (k : SendFailureKind) : bool :=
  match k with
  | PeerUnreachable | RelayAllocationFailed | RecipientNotAdvertised | NoResponse => true
  | _ => false
  end.

Record OfflineWindow : Type := MkOfflineWindow { window : Z; until : gmap string Z }.

Definition OfflineWindow_new (w : Z) : OfflineWindow := MkOfflineWindow w ∅.

Definition mark_offline (recipient : string) (now : Z) (o : OfflineWindow) : OfflineWindow :=
  MkOfflineWindow (window o)
    (<[recipient := now + window o]> (filter (fun kv => now < kv.2) (until o))).

Definition is_offline (recipient : string) (now : Z) (o : OfflineWindow) : bool :=
  match until o !! recipient with Some deadline => now <? deadline | None => false end.

Definition clear_offline (recipient : string) (o : OfflineWindow) : OfflineWindow :=
  MkOfflineWindow (window o) (base.delete recipient (until o)).

(** ** Lemmas: the first match in sorted order *)

Section FindSorted.
Context {A : Type} (le : A -> A -> bool) (p : A -> bool).
Context (le_tot : forall x y, le x y = true \/ le y x = true).
Context (le_tr : forall x y z, le x y = true -> le y z = true -> le x z = true).

(** The better of a new element and the best so far; the new one comes earlier in
    the list and wins a tie. *)
Definition prefer (x : A) (best : option A) : option A :=
  match best with
  | None => if p x then Some x else None
  | Some y => if p x && le x y then Some x else Some y
  end.

Lemma find_insert_by x s :
  StronglySorted (fun a b => le a b = true) s ->
  find p (insert_by le x s) = prefer x (find p s).
Proof using le_tr.
  induction 1 as [|y s Hs IH Hy]; cbn [insert_by find]; [done|].
  destruct (le x y) eqn:E.
  - cbn [find]. destruct (p x) eqn:Ex.
    + destruct (p y) eqn:Ey; [by cbn; rewrite Ex, E|].
      destruct (find p s) as [z|] eqn:Ez; cbn; rewrite Ex; [|done].
      apply find_some in Ez as [Hz _]. rewrite Forall_forall in Hy.
      specialize (Hy z ltac:(by apply list_elem_of_In)).
      by rewrite (le_tr x y z E Hy).
    + destruct (p y); cbn; [by rewrite Ex|]. destruct (find p s); cbn; by rewrite Ex.
  - cbn [find]. destruct (p y) eqn:Ey; [cbn; by rewrite E, andb_false_r|]. apply IH.
Qed.

Lemma find_sort_by l : find p (sort_by le l) = foldr prefer None l.
Proof using le_tot le_tr.
  induction l as [|x l IH]; [done|]. cbn [sort_by foldr].
  change (foldr (insert_by le) [] l) with (sort_by le l).
  rewrite find_insert_by, IH by (by apply sort_by_sorted). done.
Qed.

(** What [prefer] computes: the first of the least matching elements. *)
Definition first_least (l : list A) (x : A) : Prop :=
  exists l1 l2, l = l1 ++ x :: l2 /\ p x = true /\
    (forall y, y ∈ l1 -> p y = true -> le y x = false) /\
    (forall y, y ∈ l2 -> p y = true -> le x y = true).

Lemma prefer_spec l :
  match foldr prefer None l with
  | Some x => first_least l x
  | None => forall y, y ∈ l -> p y = false
  end.
Proof using le_tot le_tr.
  induction l as [|a l IH]; cbn [foldr]; [by intros y Hy%not_elem_of_nil|].
  destruct (foldr prefer None l) as [x|]; cbn [prefer].
  - destruct IH as (l1 & l2 & -> & Hx & H1 & H2).
    destruct (p a) eqn:Ea, (le a x) eqn:Ex; cbn [andb];
      try (exists (a :: l1), l2; split_and!; [done|done| |done];
           intros y [->|Hy]%elem_of_cons Hp; [congruence|by apply H1]).
    exists [], (l1 ++ x :: l2). split_and!; [done|done|by intros y Hy%not_elem_of_nil|].
    intros y [Hy|[->|Hy]%elem_of_cons]%elem_of_app Hp; [|done|by eapply le_tr; [|apply H2]].
    specialize (H1 y Hy Hp). destruct (le_tot x y) as [Hxy|]; [by eapply le_tr|congruence].
  - destruct (p a) eqn:Ea.
    + exists [], l. split_and!; [done|done|by intros y Hy%not_elem_of_nil|].
      intros y Hy Hp. by rewrite IH in Hp.
    + intros y [->|Hy]%elem_of_cons; [done|by apply IH].
Qed.
End FindSorted.

Lemma older_tot a b : older a b = true \/ older b a = true.
Proof. unfold older. lia. Qed.

Lemma older_tr a b c : older a b = true -> older b c = true -> older a c = true.
Proof. unfold older. lia. Qed.

(** The scheduler's choice is fair: the message picked is one whose backoff has
    ended, no eligible message is older in send order, and among equally old ones it
    is the first queued; a message still backing off is never picked and never keeps
    another one waiting; and nothing is picked only when nothing is eligible. *)
Theorem select_sendable_spec pending retry_after now :
  match select_sendable_message pending retry_after now with
  | Some m =>
      exists l1 l2, pending = l1 ++ m :: l2 /\ eligible retry_after now m = true /\
        (forall m', m' ∈ l1 -> eligible retry_after now m' = true -> order_time m < order_time m') /\
        (forall m', m' ∈ l2 -> eligible retry_after now m' = true -> order_time m <= order_time m')
  | None => forall m', m' ∈ pending -> eligible retry_after now m' = false
  end.
Proof.
  unfold select_sendable_message. rewrite find_sort_by by eauto using older_tot, older_tr.
  pose proof (prefer_spec older (eligible retry_after now) older_tot older_tr pending) as H.
  destruct (foldr _ None pending) as [m|]; [|done].
  destruct H as (l1 & l2 & -> & He & H1 & H2). exists l1, l2. split_and!; [done|done|..].
  - intros m' Hm Hp. specialize (H1 m' Hm Hp). unfold older in H1. lia.
  - intros m' Hm Hp. specialize (H2 m' Hm Hp). unfold older in H2. lia.
Qed.

(** A picked message is pending and eligible. *)
Lemma select_sendable_elem pending retry_after now m :
  select_sendable_message pending retry_after now = Some m ->
  m ∈ pending /\ eligible retry_after now m = true.
Proof.
  unfold select_sendable_message. intros [Hin He]%find_some. split; [|done].
  by apply list_elem_of_In, elem_of_sort_by in Hin.
Qed.

(** ** Lemmas: text *)

Lemma lower_app s t : to_ascii_lowercase (s +:+ t) = to_ascii_lowercase s +:+ to_ascii_lowercase t.
Proof. induction s as [|a s IH]; [done|]. change (String a s +:+ t) with (String a (s +:+ t)). simpl. by rewrite IH. Qed.

Lemma prefix_app w t : String.prefix w (w +:+ t) = true.
Proof.
  induction w as [|a w IH]; [by destruct t|].
  change (String a w +:+ t) with (String a (w +:+ t)). cbn [String.prefix].
  by destruct (Ascii.ascii_dec a a).
Qed.

Lemma index_prefix w t : w <> EmptyString -> String.index 0 w (w +:+ t) = Some 0%nat.
Proof.
  intros H. destruct w as [|a w]; [done|]. pose proof (prefix_app (String a w) t) as Hp.
  change (String a w +:+ t) with (String a (w +:+ t)) in *. cbn [String.index]. by rewrite Hp.
Qed.

(** Classification: a send is a success exactly when it reports delivery; the
    typed cause the sending path returned is kept; an untyped error that is marked
    retryable, or comes from the blockchain, is one to retry, and the keyword test
    agrees on the former; and the reason shown to the user promises another try
    exactly when the policy makes one. *)
Theorem classify_sound (r : result bool BingleError) :
  (classify_send_error r = None <-> r = Ok true) /\
  (forall e k, r = Err e -> erase_error e = Api.SendFailed k ->
     sf_kind <$> classify_send_error r = Some k) /\
  (forall t, r = Err (Retryable t) ->
     is_retryable <$> (sf_kind <$> classify_send_error r) = Some true /\
     is_transient_send_failure (error_to_string (Retryable t)) = true) /\
  (forall u t, r = Err (Algo u t) -> is_retryable <$> (sf_kind <$> classify_send_error r) = Some true) /\
  (forall f, classify_send_error r = Some f -> sf_kind f <> UnknownCause ->
     contains "will keep retrying" (sf_reason f) = is_retryable (sf_kind f)).
Proof.
  split_and!.
  - destruct r as [[]|[]]; cbn; split; congruence.
  - intros e k -> H. destruct e; cbn in H; simplify_eq. done.
  - intros t ->. split; [done|]. unfold is_transient_send_failure, transient_words. cbn [existsb].
    apply orb_true_intro. left. unfold contains. apply bool_decide_eq_true_2.
    change (error_to_string (Retryable t)) with ("Retryable" +:+ (" error: " +:+ t)).
    rewrite lower_app. change (to_ascii_lowercase "Retryable") with "retryable"%string.
    by rewrite index_prefix.
  - by intros u t ->.
  - intros f Hf Hk.
    assert (exists d, sf_reason f = humanize_failure (sf_kind f) d) as [d ->].
    { destruct r as [[]|e]; [done| |].
      - exists "message not accepted by recipient"%string. by injection Hf as <-.
      - exists (match e with Send _ d => d | _ => error_to_string e end).
        by destruct e; injection Hf as <-. }
    destruct (sf_kind f); done.
Qed.

(** ** The offline window against a history

    What happened to recipients, oldest first: a failed send that found one offline,
    or a sign of life. *)
Inductive offline_event : Type :=
| Failed (recipient : string) (at_ : Z)
| Heard (recipient : string).

Definition offline_step (o : OfflineWindow) (e : offline_event) : OfflineWindow :=
  match e with
  | Failed r t => mark_offline r t o
  | Heard r => clear_offline r o
  end.

(** The last failure of [r] that no sign of life followed. *)
Definition last_failure (r : string) (acc : option Z) (e : offline_event) : option Z :=
  match e with
  | Failed r' t => if decide (r' = r) then Some t else acc
  | Heard r' => if decide (r' = r) then None else acc
  end.

(** The failures carry a clock that does not run backwards. *)
Fixpoint clock_ok (from : Z) (evs : list offline_event) (now : Z) : Prop :=
  match evs with
  | [] => from <= now
  | Failed _ t :: evs => from <= t /\ clock_ok t evs now
  | Heard _ :: evs => clock_ok from evs now
  end.

(** The map holds the open windows; what it dropped had lapsed by [from]. *)
Definition window_rel (w from : Z) (o : OfflineWindow) (lf : string -> option Z) : Prop :=
  window o = w /\
  forall r, match until o !! r with
            | Some d => exists t, lf r = Some t /\ d = t + w
            | None => match lf r with Some t => t + w <= from | None => True end
            end.

Lemma window_rel_later w from from' o lf :
  from <= from' -> window_rel w from o lf -> window_rel w from' o lf.
Proof.
  intros Hle [Hw H]. split; [done|]. intros r. specialize (H r).
  destruct (until o !! r); [done|]. destruct (lf r); [lia|done].
Qed.

Lemma window_rel_mark w from o lf r t :
  from <= t -> window_rel w from o lf ->
  window_rel w t (mark_offline r t o) (fun q => last_failure q (lf q) (Failed r t)).
Proof.
  intros Hle [Hw H]. split; [done|]. intros q. cbn [mark_offline until last_failure].
  destruct (decide (r = q)) as [->|Hne].
  - rewrite lookup_insert_eq. exists t. by rewrite Hw.
  - rewrite lookup_insert_ne by done. specialize (H q). rewrite map_lookup_filter.
    destruct (until o !! q) as [d|]; cbn.
    + destruct H as (t' & -> & ->). case_guard; cbn; [by eexists|cbn in *; lia].
    + destruct (lf q); [lia|done].
Qed.

Lemma window_rel_clear w from o lf r :
  window_rel w from o lf ->
  window_rel w from (clear_offline r o) (fun q => last_failure q (lf q) (Heard r)).
Proof.
  intros [Hw H]. split; [done|]. intros q. cbn [clear_offline until last_failure].
  destruct (decide (r = q)) as [->|Hne].
  - by rewrite lookup_delete_eq.
  - rewrite lookup_delete_ne by done. apply H.
Qed.

Lemma window_rel_run w evs : forall from o lf now,
  clock_ok from evs now -> window_rel w from o lf ->
  window_rel w now (foldl offline_step o evs) (fun q => foldl (last_failure q) (lf q) evs).
Proof.
  induction evs as [|[r t|r] evs IH]; intros from o lf now Hc H; cbn [foldl].
  - by eapply window_rel_later.
  - destruct Hc as [Hle Hc]. apply (IH t _ (fun q => last_failure q (lf q) (Failed r t))); [done|].
    by eapply window_rel_mark.
  - apply (IH from _ (fun q => last_failure q (lf q) (Heard r))); [done|]. by apply window_rel_clear.
Qed.

(** The offline record implements its specification: after any history of
    failures and signs of life, a recipient counts as offline exactly when its last
    failure, not followed by a sign of life, is less than a window ago, although the
    record forgets lapsed entries at every failure. *)
Theorem offline_window_spec w evs r now start :
  clock_ok start evs now ->
  is_offline r now (foldl offline_step (OfflineWindow_new w) evs)
  = match foldl (last_failure r) None evs with
    | Some t => now <? t + w
    | None => false
    end.
Proof.
  intros Hc.
  assert (window_rel w start (OfflineWindow_new w) (fun _ => None)) as H0 by done.
  pose proof (window_rel_run w evs start _ _ now Hc H0) as [_ H]. specialize (H r). cbn beta in H.
  unfold is_offline. destruct (until _ !! r) as [d|].
  - destruct H as (t & -> & ->). done.
  - destruct (foldl (last_failure r) None evs); [|done]. lia.
Qed.

Lemma offline_window_spec_witness :
  is_offline "bob" 50000
    (foldl offline_step (OfflineWindow_new OFFLINE_WINDOW)
       [Failed "bob" 1000; Heard "bob"; Failed "eve" 2000; Failed "bob" 3000]) = true.
Proof. rewrite (offline_window_spec _ _ _ _ 0); [reflexivity|cbn; lia]. Defined.
