(* ===== verification/Mailbox.v ===== *)
(** * The client of the mailbox

    Models [src/bingle_local/src/api/sidewinder/mailbox.rs]: posting to a recipient's
    queue and popping one's own, over a node found on the chain, with failover between
    nodes before a transaction is submitted, and polling until it is final.

    The client crate [sidewinder_ops] is the class [Sidewinder]: a world [W] with what
    its functions answer.  Of its enumerations the source names some values and asks
    one predicate; those are what is here.  A client is the node it is bound to.  The
    texts of errors are shortened. *)
From S2P Require Import Prelude LocalTypes.

Local Open Scope Z_scope.

(** ** What the client crate supplies *)

(** Every stage but the final one, with the crate's [is_unsuccessful] and its name. *)
Inductive Stage : Type :=
| StageFinal
| StageOther (unsuccessful : bool) (name : string).

#[export] Instance Stage_eq_dec : EqDecision Stage.
Proof. solve_decision. Defined.

Definition is_unsuccessful (s : Stage) : bool :=
  match s with StageFinal => false | StageOther u _ => u end.

Inductive SidewinderErrorKind : Type :=
| NotFound | IdentityRefused | HostUnreachable | TransientFailure | OtherKind.

#[export] Instance SidewinderErrorKind_eq_dec : EqDecision SidewinderErrorKind.
Proof. solve_decision. Defined.

(** An [anyhow::Error]: the typed error inside it, if there is one, and its text. *)
Record client_error : Type := MkClientError {
  typed : option (SidewinderErrorKind * string);
  error_text : string
}.

Record SuggestedParams : Type := MkSuggestedParams {
  min_fee : Z;
  last_round : Z;
  max_validity_window : Z;
  instance_id : string
}.

Record PendingTransaction : Type := MkPendingTransaction {
  stage : Stage;
  tx_error : option string;
  tx_result : option (list Z)
}.

Record DiscoveredNode : Type := MkDiscoveredNode { node_name : string; base_url : option string }.

Record TransactionRequest : Type := MkTransactionRequest {
  txn_type : Z;
  args : list (list Z);
  max_fee : Z;
  first_valid : Z;
  last_valid : Z;
  instance : string;
  note : Z
}.

Class Sidewinder (W : Type) := {
  instant : W -> W * Z;
  sleep_ms : Z -> W -> W;
  unique_note : W -> W * Z;
  resolve_nodes : Z -> W -> W * result (list DiscoveredNode) string;
  connect : DiscoveredNode -> W -> W * result unit string;
  params : DiscoveredNode -> W -> W * result SuggestedParams client_error;
  submit_transaction : DiscoveredNode -> TransactionRequest -> W -> W * result string client_error;
  watch : DiscoveredNode -> string -> W -> W * result PendingTransaction client_error
}.

(** ** Configuration and pure parts *)

Definition MAILBOX_POST_TYPE : Z := 1.
Definition MAILBOX_POP_TYPE : Z := 2.
Definition DEFAULT_FINALITY_TIMEOUT : Z := 120000.
Definition NOT_FOUND_BACKOFF : Z := 500.
Definition IDENTITY_REFUSED_BACKOFF : Z := 600000.

Record MailboxConfig : Type := MkMailboxConfig {
  app_id : Z;
  post_type : Z;
  pop_type : Z;
  finality_timeout : Z
}.

Definition discovered (app : Z) : MailboxConfig :=
  MkMailboxConfig app MAILBOX_POST_TYPE MAILBOX_POP_TYPE DEFAULT_FINALITY_TIMEOUT.

Definition from_app_id (app : option Z) : option MailboxConfig :=
  match app with
  | Some a => if a =? 0 then None else Some (discovered a)
  | None => None
  end.

Definition should_forward_send (send_gate sidewinder_configured : bool) : bool :=
  send_gate && sidewinder_configured.

Definition pending_forward_recipients (message_id : string) (recipients : list string)
    (forwarded : gset (string * string)) : list string :=
  filter (fun h => (message_id, h) ∉ forwarded) recipients.

Inductive PostOutcome : Type := Posted | PostRefused (stage : Stage) (reason : string).

Inductive WatchProgress : Type :=
| InFlight
| WatchFinal
| FinalWithError (reason : string)
| WatchRefused (stage : Stage) (reason : string).

Definition classify_watch (p : PendingTransaction) : WatchProgress :=
  let reason := default "no reason given"%string (tx_error p) in
  if decide (stage p = StageFinal) then
    match tx_error p with Some _ => FinalWithError reason | None => WatchFinal end
  else if is_unsuccessful (stage p) then WatchRefused (stage p) reason
  else InFlight.

Inductive Finality : Type :=
| Finalised (p : PendingTransaction)
| FinalityRefused (stage : Stage) (reason : string).

Definition next_node_index (active count : nat) : option nat :=
  let next := S active in if Nat.ltb next count then Some next else None.

Definition is_transport_error (e : BingleError) : bool :=
  match e with Retryable _ => true | _ => false end.

Definition map_connect_error (e : string) : BingleError :=
  Retryable ("sidewinder mutual-TLS connect failed: " +:+ e).

Definition is_not_found (e : client_error) : bool :=
  match typed e with Some (NotFound, _) => true | _ => false end.

Definition identity_refusal_message (e : client_error) : option string :=
  match typed e with Some (IdentityRefused, m) => Some m | _ => None end.

Definition identity_refusal_holds (refused_at : option Z) (now : Z) : bool :=
  match refused_at with
  | Some t => Z.max 0 (now - t) <? IDENTITY_REFUSED_BACKOFF
  | None => false
  end.

Definition map_error (operation : string) (e : client_error) : BingleError :=
  match typed e with
  | Some (HostUnreachable, m) | Some (TransientFailure, m) =>
      Retryable ("sidewinder " +:+ operation +:+ ": " +:+ m)
  | _ => Other ("sidewinder " +:+ operation +:+ " failed: " +:+ error_text e)
  end.

Definition build_post_request (ty : Z) (recipient : string) (message : list Z)
    (p : SuggestedParams) (nonce : Z) : TransactionRequest :=
  MkTransactionRequest ty [Envelope.as_bytes recipient; message] (min_fee p) (last_round p)
    (last_round p + max_validity_window p) (instance_id p) nonce.

Definition build_pop_request (ty : Z) (p : SuggestedParams) (nonce : Z) : TransactionRequest :=
  MkTransactionRequest ty [] (min_fee p) (last_round p)
    (last_round p + max_validity_window p) (instance_id p) nonce.

(** ** The mailbox and its connection *)

Record Mailbox : Type := MkMailbox {
  mb_app_id : Z;
  mb_nodes : list DiscoveredNode;
  mb_active : nat;
  mb_client : DiscoveredNode;
  mb_post_type : Z;
  mb_pop_type : Z;
  mb_finality_timeout : Z;
  mb_identity_refusal : option string
}.

Definition set_transport (nodes : list DiscoveredNode) (active : nat) (client : DiscoveredNode)
    (m : Mailbox) : Mailbox :=
  MkMailbox (mb_app_id m) nodes active client (mb_post_type m) (mb_pop_type m)
    (mb_finality_timeout m) (mb_identity_refusal m).

Definition set_refusal (r : option string) (m : Mailbox) : Mailbox :=
  MkMailbox (mb_app_id m) (mb_nodes m) (mb_active m) (mb_client m) (mb_post_type m)
    (mb_pop_type m) (mb_finality_timeout m) r.

Section Operations.
Context {W : Type} `{Sidewinder W}.

(** Computations over the mailbox and the world. *)
Definition MB (A : Type) : Type := ST (Mailbox * W) A.

Definition in_world {A} (f : W -> W * A) : MB A :=
  fun '(m, w) => let '(w, a) := f w in ((m, w), a).
Definition get_mb : MB Mailbox := fun '(m, w) => ((m, w), m).
Definition mod_mb (f : Mailbox -> Mailbox) : MB unit := fun '(m, w) => ((f m, w), tt).

Definition resolve_reachable (app : Z) (w : W) : W * result (list DiscoveredNode) BingleError :=
  let '(w, r) := resolve_nodes app w in
  (w, match r with
      | Err e => Err (Retryable ("sidewinder discovery failed: " +:+ e))
      | Ok nodes =>
          match filter (fun n => is_Some (base_url n)) nodes with
          | [] => Err (Retryable "no permitted cluster node has published a reachable endpoint")
          | reachable => Ok reachable
          end
      end).

(** [Mailbox::new] with [connect_discovered]. *)
Definition mailbox_new (cfg : MailboxConfig) (w : W) : W * result Mailbox BingleError :=
  let '(w, r) := resolve_reachable (app_id cfg) w in
  match r with
  | Err e => (w, Err e)
  | Ok nodes =>
      match nodes with
      | [] => (w, Err (Other "unreachable"))
      | n :: _ =>
          let '(w, c) := connect n w in
          match c with
          | Err e => (w, Err (map_connect_error e))
          | Ok _ => (w, Ok (MkMailbox (app_id cfg) nodes 0 n (post_type cfg) (pop_type cfg)
                              (finality_timeout cfg) None))
          end
      end
  end.

(** Moves to the next node, or resolves the set once more; the boolean that tracks
    the latter is passed in and returned. *)
Definition advance_or_reresolve (reresolved : bool) : MB (result bool BingleError * bool) :=
  m ← get_mb;
  match next_node_index (mb_active m) (length (mb_nodes m)) with
  | Some next =>
      _ ← mod_mb (set_transport (mb_nodes m) next (mb_client m));
      match mb_nodes m !! next with
      | None => mret (Err (Other "unreachable"), reresolved)
      | Some n =>
          c ← in_world (connect n);
          match c with
          | Err e => mret (Err (map_connect_error e), reresolved)
          | Ok _ => _ ← mod_mb (set_transport (mb_nodes m) next n); mret (Ok true, reresolved)
          end
      end
  | None =>
      if reresolved then mret (Ok false, true)
      else
        r ← in_world (resolve_reachable (mb_app_id m));
        match r with
        | Err e => mret (Err e, true)
        | Ok nodes =>
            _ ← mod_mb (set_transport nodes 0 (mb_client m));
            match nodes with
            | [] => mret (Err (Other "unreachable"), true)
            | n :: _ =>
                c ← in_world (connect n);
                match c with
                | Err e => mret (Err (map_connect_error e), true)
                | Ok _ => _ ← mod_mb (set_transport nodes 0 n); mret (Ok true, true)
                end
            end
        end
  end.

(** The loop of [params_with_failover]; [None] when the fuel runs out. *)
Fixpoint params_loop (fuel : nat) (reresolved : bool)
  : MB (option (result SuggestedParams BingleError)) :=
  match fuel with
  | O => mret None
  | S fuel =>
      m ← get_mb;
      probed ← in_world (params (mb_client m));
      match probed with
      | Ok p => mret (Some (Ok p))
      | Err ce =>
          let e := map_error "params" ce in
          match identity_refusal_message ce with
          | Some refusal => _ ← mod_mb (set_refusal (Some refusal)); mret (Some (Err e))
          | None =>
              if is_transport_error e then
                adv ← advance_or_reresolve reresolved;
                match adv with
                | (Err e', _) => mret (Some (Err e'))
                | (Ok false, _) => mret (Some (Err e))
                | (Ok true, reresolved) => params_loop fuel reresolved
                end
              else mret (Some (Err e))
          end
      end
  end.

Definition params_with_failover (fuel : nat) : MB (option (result SuggestedParams BingleError)) :=
  _ ← mod_mb (set_refusal None); params_loop fuel false.

(** The loop of [poll_to_final]. *)
Fixpoint poll_loop (fuel : nat) (deadline : Z) (operation txid : string)
  : MB (option (result Finality BingleError)) :=
  match fuel with
  | O => mret None
  | S fuel =>
      let again :=
        now ← in_world instant;
        if deadline <=? now
        then mret (Some (Err (Retryable ("sidewinder " +:+ operation +:+ " did not finalise"))))
        else poll_loop fuel deadline operation txid in
      m ← get_mb;
      seen ← in_world (watch (mb_client m) txid);
      match seen with
      | Ok pending =>
          match classify_watch pending with
          | InFlight => again
          | WatchFinal => mret (Some (Ok (Finalised pending)))
          | FinalWithError reason =>
              mret (Some (Err (Other ("sidewinder " +:+ operation +:+ " finalised with error: "
                                        +:+ reason))))
          | WatchRefused stage reason => mret (Some (Ok (FinalityRefused stage reason)))
          end
      | Err e =>
          if is_not_found e
          then _ ← in_world (fun w => (sleep_ms NOT_FOUND_BACKOFF w, tt)); again
          else mret (Some (Err (map_error operation e)))
      end
  end.

Definition poll_to_final (fuel : nat) (operation txid : string)
  : MB (option (result Finality BingleError)) :=
  m ← get_mb;
  now ← in_world instant;
  poll_loop fuel (now + mb_finality_timeout m) operation txid.

Definition submit_and_finalize (fuel : nat) (operation : string) (request : TransactionRequest)
  : MB (option (result Finality BingleError)) :=
  m ← get_mb;
  r ← in_world (submit_transaction (mb_client m) request);
  match r with
  | Err e => mret (Some (Err (map_error operation e)))
  | Ok txid => poll_to_final fuel operation txid
  end.

Definition try_post (fuel : nat) (recipient : string) (message : list Z)
  : MB (option (result PostOutcome BingleError)) :=
  p ← params_with_failover fuel;
  match p with
  | None => mret None
  | Some (Err e) => mret (Some (Err e))
  | Some (Ok p) =>
      nonce ← in_world unique_note;
      m ← get_mb;
      f ← submit_and_finalize fuel "post"
            (build_post_request (mb_post_type m) recipient message p nonce);
      mret (match f with
            | None => None
            | Some (Err e) => Some (Err e)
            | Some (Ok (Finalised _)) => Some (Ok Posted)
            | Some (Ok (FinalityRefused stage reason)) => Some (Ok (PostRefused stage reason))
            end)
  end.

Definition post (fuel : nat) (recipient : string) (message : list Z)
  : MB (option (result unit BingleError)) :=
  r ← try_post fuel recipient message;
  mret (match r with
        | None => None
        | Some (Err e) => Some (Err e)
        | Some (Ok Posted) => Some (Ok tt)
        | Some (Ok (PostRefused _ reason)) =>
            Some (Err (Other ("sidewinder post refused: " +:+ reason)))
        end).

Definition pop (fuel : nat) : MB (option (result (option (list Z)) BingleError)) :=
  p ← params_with_failover fuel;
  match p with
  | None => mret None
  | Some (Err e) => mret (Some (Err e))
  | Some (Ok p) =>
      nonce ← in_world unique_note;
      m ← get_mb;
      f ← submit_and_finalize fuel "pop" (build_pop_request (mb_pop_type m) p nonce);
      mret (match f with
            | None => None
            | Some (Err e) => Some (Err e)
            | Some (Ok (FinalityRefused _ reason)) =>
                Some (Err (Other ("sidewinder pop refused: " +:+ reason)))
            | Some (Ok (Finalised pending)) =>
                Some (Ok (match tx_result pending with
                          | Some [] | None => None
                          | Some bytes => Some bytes
                          end))
            end)
  end.
End Operations.

(** ** The interface the store uses

    A mailbox that can be opened, posted to and popped; each operation returns the
    mailbox as it left it. *)
Class MailboxClient (W : Type) := {
  open_mailbox : MailboxConfig -> W -> W * result Mailbox BingleError;
  mailbox_post : Mailbox -> string -> list Z -> W -> W * (Mailbox * result PostOutcome BingleError);
  mailbox_pop : Mailbox -> W -> W * (Mailbox * result (option (list Z)) BingleError)
}.

(** The operations above, given fuel; [mailbox_terminates] says how much is enough. *)
Definition run_mailbox {W A} (f : MB (W := W) (option (result A BingleError))) (m : Mailbox) (w : W)
  : W * (Mailbox * result A BingleError) :=
  let '((m, w), r) := f (m, w) in (w, (m, default (Err (Retryable "out of fuel")) r)).

Definition mailbox_client {W} `{Sidewinder W} (fuel : nat) : MailboxClient W := {|
  open_mailbox := mailbox_new;
  mailbox_post m recipient message := run_mailbox (try_post fuel recipient message) m;
  mailbox_pop m := run_mailbox (pop fuel) m
|}.

(** ** What the theorems assume of the client crate *)

(** The clock, read without effect; time passes while a read of a transaction waits. *)
Class SidewinderTime (W : Type) `{Sidewinder W} (time : W -> Z) (node_bound : nat) : Prop := {
  instant_time w : instant w = (w, time w);
  watch_time n txid w : time w + 1 <= time (watch n txid w).1;
  sleep_time ms w : 0 <= ms -> time w <= time (sleep_ms ms w);
  resolve_bound app w nodes : (resolve_nodes app w).2 = Ok nodes -> (length nodes <= node_bound)%nat
}.

(** The transactions submitted so far; only [submit_transaction] adds one. *)
Class SidewinderLog (W : Type) `{Sidewinder W} (sent : W -> list TransactionRequest) : Prop := {
  instant_sent w : sent (instant w).1 = sent w;
  sleep_sent ms w : sent (sleep_ms ms w) = sent w;
  note_sent_log w : sent (unique_note w).1 = sent w;
  resolve_sent app w : sent (resolve_nodes app w).1 = sent w;
  connect_sent n w : sent (connect n w).1 = sent w;
  params_sent n w : sent (params n w).1 = sent w;
  watch_sent n txid w : sent (watch n txid w).1 = sent w;
  submit_sent n rq w : sent (submit_transaction n rq w).1 = sent w ++ [rq]
}.

(** Runs the binds of a computation that is in head position of the goal or of [H]. *)
Ltac st_unfold := unfold mbind, ST_bind, mret, ST_ret, in_world, get_mb, mod_mb in *.
Ltac st_case H :=
  match type of H with
  | context [match ?f ?w with (_, _) => _ end] =>
      lazymatch type of (f w) with
      | prod _ _ => let E := fresh "E" in destruct (f w) as [? ?] eqn:E
      end
  end.

Section Facts.
Context {W : Type} `{Sidewinder W}.

Lemma resolve_reachable_ok app (w w' : W) nodes :
  resolve_reachable app w = (w', Ok nodes) ->
  w' = (resolve_nodes app w).1 /\ exists all, (resolve_nodes app w).2 = Ok all /\
    (length nodes <= length all)%nat /\ (0 < length nodes)%nat.
Proof using.
  unfold resolve_reachable. destruct (resolve_nodes app w) as [w1 [all|e]]; [|done].
  pose proof (length_filter (fun n => is_Some (base_url n)) all) as Hl.
  destruct (filter _ all) as [|n ns]; [done|]. intros [= <- <-]. split; [done|].
  exists all. cbn in *. split_and!; [done|done|lia].
Qed.

Lemma resolve_reachable_world app (w : W) :
  (resolve_reachable app w).1 = (resolve_nodes app w).1.
Proof using. unfold resolve_reachable. by destruct (resolve_nodes app w). Qed.

(** The ways [advance_or_reresolve] can end with a new connection. *)
Lemma advance_true r (m m' : Mailbox) (w w' : W) r' :
  advance_or_reresolve r (m, w) = ((m', w'), (Ok true, r')) ->
  (r' = r /\ mb_nodes m' = mb_nodes m /\ mb_active m' = S (mb_active m) /\
   (S (mb_active m) < length (mb_nodes m))%nat /\ mb_nodes m' !! mb_active m' = Some (mb_client m')) \/
  (r = false /\ r' = true /\ mb_active m' = 0%nat /\
   next_node_index (mb_active m) (length (mb_nodes m)) = None /\
   mb_nodes m' !! 0%nat = Some (mb_client m') /\
   exists all, (resolve_nodes (mb_app_id m) w).2 = Ok all /\ (length (mb_nodes m') <= length all)%nat).
Proof using.
  unfold advance_or_reresolve. st_unfold. unfold next_node_index.
  destruct (Nat.ltb_spec (S (mb_active m)) (length (mb_nodes m))) as [Hlt|Hge].
  - destruct (mb_nodes m !! S (mb_active m)) as [n|] eqn:En; [|done].
    destruct (connect n w) as [w1 [[]|e]]; [|done]. intros [= <- <- <-]. left. done.
  - destruct r; [done|]. destruct (resolve_reachable (mb_app_id m) w) as [w1 [nodes|e]] eqn:Er; [|done].
    apply resolve_reachable_ok in Er as [_ (all & Hall & Hle & _)].
    destruct nodes as [|n ns]; [done|]. destruct (connect n w1) as [w2 [[]|e]]; [|done].
    intros [= <- <- <-]. right. split_and!; [done|done|done| |done|].
    + destruct (Nat.ltb_spec (S (mb_active m)) (length (mb_nodes m))); [lia|done].
    + by exists all.
Qed.

(** The mailbox's parameters are kept. *)
Lemma advance_frame r (m m' : Mailbox) (w w' : W) x :
  advance_or_reresolve r (m, w) = ((m', w'), x) ->
  mb_post_type m' = mb_post_type m /\ mb_pop_type m' = mb_pop_type m /\
  mb_finality_timeout m' = mb_finality_timeout m.
Proof using.
  unfold advance_or_reresolve. st_unfold.
  destruct (next_node_index _ _) as [next|].
  - destruct (mb_nodes m !! next) as [n|]; [|by intros [= <- <- <-]].
    by destruct (connect n w) as [w1 [[]|e]]; intros [= <- <- <-].
  - destruct r; [by intros [= <- <- <-]|].
    destruct (resolve_reachable (mb_app_id m) w) as [w1 [nodes|e]]; [|by intros [= <- <- <-]].
    destruct nodes as [|n ns]; [by intros [= <- <- <-]|].
    by destruct (connect n w1) as [w2 [[]|e]]; intros [= <- <- <-].
Qed.

(** One turn of the loop: it ends, or goes on after a new connection. *)
Lemma params_loop_step fuel r (m m' : Mailbox) (w w' : W) x :
  params_loop (S fuel) r (m, w) = ((m', w'), x) ->
  (exists p, (params (mb_client m) w).2 = Ok p /\ m' = m /\
     w' = (params (mb_client m) w).1 /\ x = Some (Ok p)) \/
  (exists e, x = Some (Err e)) \/
  (exists m1 w1 w2 r1, w1 = (params (mb_client m) w).1 /\
     advance_or_reresolve r (m, w1) = ((m1, w2), (Ok true, r1)) /\
     params_loop fuel r1 (m1, w2) = ((m', w'), x)).
Proof using.
  cbn [params_loop]. st_unfold. destruct (params (mb_client m) w) as [w1 [p|ce]].
  { intros [= <- <- <-]. left. by exists p. }
  destruct (identity_refusal_message ce); [intros [= <- <- <-]; right; left; by eexists|].
  destruct (is_transport_error _); [|intros [= <- <- <-]; right; left; by eexists].
  destruct (advance_or_reresolve r (m, w1)) as [[m1 w2] [[[]|e] r1]] eqn:Ea;
    [|intros [= <- <- <-]; right; left; by eexists..].
  intros E. right. right. by exists m1, w1, w2, r1.
Qed.

(** ** Termination *)

Section Termination.
Context (time : W -> Z) (B : nat) `{!SidewinderTime W time B}.

(** Connections the loop can still try. *)
Definition remaining (r : bool) (m : Mailbox) : nat :=
  (length (mb_nodes m) - 1 - mb_active m) + if r then 0 else B.

Lemma advance_decreases r (m m' : Mailbox) (w w' : W) r' :
  advance_or_reresolve r (m, w) = ((m', w'), (Ok true, r')) ->
  (remaining r' m' < remaining r m)%nat.
Proof using All.
  intros [(-> & Hn & Ha & Hlt & _)|(-> & -> & Ha & _ & Hc & all & Hall & Hle)]%advance_true;
    unfold remaining.
  - rewrite Hn, Ha. lia.
  - apply resolve_bound in Hall. apply lookup_lt_Some in Hc. rewrite Ha. lia.
Qed.

Lemma params_loop_total fuel : forall r (m m' : Mailbox) (w w' : W) x,
  (remaining r m < fuel)%nat ->
  params_loop fuel r (m, w) = ((m', w'), x) -> is_Some x.
Proof using All.
  induction fuel as [|fuel IH]; intros r m m' w w' x Hlt E; [lia|].
  apply params_loop_step in E as [(p & _ & _ & _ & ->)|[[e ->]|(m1 & w1 & w2 & r1 & -> & Ea & E)]];
    [by eexists..|].
  apply advance_decreases in Ea. eapply IH; [|exact E]. lia.
Qed.

Lemma poll_loop_total fuel : forall deadline op txid (m m' : Mailbox) (w w' : W) x,
  deadline - time w < Z.of_nat fuel -> 0 < Z.of_nat fuel ->
  poll_loop fuel deadline op txid (m, w) = ((m', w'), x) -> is_Some x.
Proof using All.
  induction fuel as [|fuel IH]; intros deadline op txid m m' w w' x Hlt Hpos E; [lia|].
  cbn [poll_loop] in E. st_unfold.
  pose proof (watch_time (mb_client m) txid w) as Ht.
  destruct (watch (mb_client m) txid w) as [w1 [p|e]]; cbn [fst] in Ht.
  - destruct (classify_watch p); [|simplify_eq; by eexists..].
    rewrite instant_time in E. destruct (Z.leb_spec deadline (time w1)); [simplify_eq; by eexists|].
    eapply IH; [| |exact E]; lia.
  - destruct (is_not_found e); [|simplify_eq; by eexists].
    pose proof (sleep_time NOT_FOUND_BACKOFF w1 ltac:(done)) as Hs. rewrite instant_time in E.
    destruct (Z.leb_spec deadline (time (sleep_ms NOT_FOUND_BACKOFF w1))); [simplify_eq; by eexists|].
    eapply IH; [| |exact E]; lia.
Qed.

Lemma submit_total fuel op rq (m m' : Mailbox) (w w' : W) x :
  mb_finality_timeout m < Z.of_nat fuel -> 0 < Z.of_nat fuel ->
  submit_and_finalize fuel op rq (m, w) = ((m', w'), x) -> is_Some x.
Proof using All.
  intros Hf Hp. unfold submit_and_finalize, poll_to_final. st_unfold.
  destruct (submit_transaction (mb_client m) rq w) as [w1 [txid|e]]; [|intros; simplify_eq; by eexists].
  rewrite instant_time. intros E. eapply poll_loop_total; [| |exact E]; lia.
Qed.
End Termination.

(** The loop keeps what later steps read. *)
Lemma params_loop_frame fuel : forall r (m m' : Mailbox) (w w' : W) x,
  params_loop fuel r (m, w) = ((m', w'), Some (Ok x)) ->
  mb_post_type m' = mb_post_type m /\ mb_pop_type m' = mb_pop_type m /\
  mb_finality_timeout m' = mb_finality_timeout m /\
  (mb_nodes m !! mb_active m = Some (mb_client m) -> mb_nodes m' !! mb_active m' = Some (mb_client m')).
Proof using.
  induction fuel as [|fuel IH]; intros r m m' w w' x E; [by st_unfold|].
  apply params_loop_step in E as [(p & _ & -> & _ & _)|[[e E]|(m1 & w1 & w2 & r1 & _ & Ea & E)]]; [done..|].
  apply IH in E as (-> & -> & -> & Hk). pose proof (advance_frame _ _ _ _ _ _ Ea) as (-> & -> & ->).
  split_and!; [done..|]. intros _. apply Hk.
  apply advance_true in Ea as [(_ & _ & _ & _ & Hc)|(_ & _ & -> & _ & Hc & _)]; done.
Qed.
End Facts.

(** ** Submissions *)

Section Submissions.
Context {W : Type} `{Sidewinder W} (sent : W -> list TransactionRequest) `{!SidewinderLog W sent}.

Lemma advance_sent r (m m' : Mailbox) (w w' : W) x :
  advance_or_reresolve r (m, w) = ((m', w'), x) -> sent w' = sent w.
Proof using All.
  unfold advance_or_reresolve. st_unfold.
  destruct (next_node_index _ _) as [next|].
  - destruct (mb_nodes m !! next) as [n|]; [|by intros [= <- <- <-]].
    pose proof (connect_sent n w) as Hc.
    by destruct (connect n w) as [w1 [[]|e]]; intros [= <- <- <-].
  - destruct r; [by intros [= <- <- <-]|].
    pose proof (resolve_sent (mb_app_id m) w) as Hr. rewrite <- resolve_reachable_world in Hr.
    destruct (resolve_reachable (mb_app_id m) w) as [w1 [nodes|e]]; [|by intros [= <- <- <-]].
    destruct nodes as [|n ns]; [by intros [= <- <- <-]|].
    pose proof (connect_sent n w1) as Hc. cbn [fst] in Hr.
    by destruct (connect n w1) as [w2 [[]|e]]; intros [= <- <- <-]; cbn [fst] in Hc; rewrite Hc.
Qed.

Lemma params_loop_sent fuel : forall r (m m' : Mailbox) (w w' : W) x,
  params_loop fuel r (m, w) = ((m', w'), x) -> sent w' = sent w.
Proof using All.
  induction fuel as [|fuel IH]; intros r m m' w w' x; [by st_unfold; intros [= <- <- <-]|].
  cbn [params_loop]. st_unfold. pose proof (params_sent (mb_client m) w) as Hp.
  destruct (params (mb_client m) w) as [w1 [p|ce]]; cbn [fst] in Hp; [by intros [= <- <- <-]|].
  destruct (identity_refusal_message ce); [by intros [= <- <- <-]|].
  destruct (is_transport_error _); [|by intros [= <- <- <-]].
  destruct (advance_or_reresolve r (m, w1)) as [[m1 w2] [[[]|e] r1]] eqn:Ea;
    apply advance_sent in Ea; rewrite Hp in Ea; [|by intros [= <- <- <-]..].
  intros E%IH. congruence.
Qed.

Lemma poll_loop_sent fuel : forall deadline op txid (m m' : Mailbox) (w w' : W) x,
  poll_loop fuel deadline op txid (m, w) = ((m', w'), x) -> sent w' = sent w.
Proof using All.
  induction fuel as [|fuel IH]; intros deadline op txid m m' w w' x; [by st_unfold; intros [= <- <- <-]|].
  cbn [poll_loop]. st_unfold. pose proof (watch_sent (mb_client m) txid w) as Hw.
  destruct (watch (mb_client m) txid w) as [w1 [p|e]]; cbn [fst] in Hw.
  - destruct (classify_watch p); try by intros [= <- <- <-].
    pose proof (instant_sent w1) as Hi. destruct (instant w1) as [w2 t]; cbn [fst] in Hi.
    destruct (deadline <=? t); [intros [= <- <- <-]; congruence|]. intros E%IH. congruence.
  - destruct (is_not_found e); [|by intros [= <- <- <-]].
    pose proof (sleep_sent NOT_FOUND_BACKOFF w1) as Hs.
    pose proof (instant_sent (sleep_ms NOT_FOUND_BACKOFF w1)) as Hi.
    destruct (instant _) as [w2 t]; cbn [fst] in Hi.
    destruct (deadline <=? t); [intros [= <- <- <-]; congruence|]. intros E%IH. congruence.
Qed.

(** What polling for the transaction [txid] at the node [n] does to the world: it reads
    the transaction there, reads the clock, and sleeps. *)
Inductive polling (n : DiscoveredNode) (txid : string) : W -> W -> Prop :=
| polling_watch w : polling n txid w (watch n txid w).1
| polling_instant w : polling n txid w (instant w).1
| polling_sleep w : polling n txid w (sleep_ms NOT_FOUND_BACKOFF w).

(** A poll says a transaction is final only when its last read of it said so. *)
Lemma poll_loop_final fuel : forall deadline op txid (m m' : Mailbox) (w w' : W) p,
  poll_loop fuel deadline op txid (m, w) = ((m', w'), Some (Ok (Finalised p))) ->
  stage p = StageFinal /\ tx_error p = None /\
  exists w1, rtc (polling (mb_client m) txid) w w1 /\ watch (mb_client m) txid w1 = (w', Ok p).
Proof using.
  induction fuel as [|fuel IH]; intros deadline op txid m m' w w' p; [by st_unfold|].
  cbn [poll_loop]. st_unfold.
  pose proof (polling_watch (mb_client m) txid w) as Hw.
  destruct (watch (mb_client m) txid w) as [w1 [q|e]] eqn:Ew; cbn [fst] in Hw.
  - unfold classify_watch. case_decide as Hs.
    + destruct (tx_error q) eqn:Et; [done|]. intros [= <- <- <-]. split_and!; [done|done|].
      exists w. by split.
    + destruct (is_unsuccessful (stage q)); [done|]. pose proof (polling_instant (mb_client m) txid w1) as Hi.
      destruct (instant w1) as [w2 t]. destruct (deadline <=? t); [done|].
      intros (? & ? & w3 & Hr & E)%IH. split_and!; [done..|]. exists w3. split; [|done].
      do 2 (eapply rtc_l; [eassumption|]). exact Hr.
  - destruct (is_not_found e); [|done].
    pose proof (polling_sleep (mb_client m) txid w1) as Hs.
    pose proof (polling_instant (mb_client m) txid (sleep_ms NOT_FOUND_BACKOFF w1)) as Hi.
    destruct (instant _) as [w2 t]. destruct (deadline <=? t); [done|].
    intros (? & ? & w3 & Hr & E)%IH. split_and!; [done..|]. exists w3. split; [|done].
    do 3 (eapply rtc_l; [eassumption|]). exact Hr.
Qed.

(** A submission that is final was watched under the id the node gave it. *)
Lemma submit_final fuel op rq (m m' : Mailbox) (w w' : W) p :
  submit_and_finalize fuel op rq (m, w) = ((m', w'), Some (Ok (Finalised p))) ->
  stage p = StageFinal /\ tx_error p = None /\
  exists w1 txid w2, submit_transaction (mb_client m) rq w = (w1, Ok txid) /\
    rtc (polling (mb_client m) txid) w1 w2 /\ watch (mb_client m) txid w2 = (w', Ok p).
Proof using.
  unfold submit_and_finalize, poll_to_final. st_unfold.
  destruct (submit_transaction (mb_client m) rq w) as [w1 [txid|e]]; [|done].
  pose proof (polling_instant (mb_client m) txid w1) as Hi. destruct (instant w1) as [w2 t].
  intros (? & ? & w3 & Hr & E)%poll_loop_final. split_and!; [done..|]. exists w1, txid, w3.
  split_and!; [done| |done]. eapply rtc_l; [exact Hi|exact Hr].
Qed.

Lemma submit_sends fuel op rq (m m' : Mailbox) (w w' : W) x :
  submit_and_finalize fuel op rq (m, w) = ((m', w'), x) -> sent w' = sent w ++ [rq].
Proof using All.
  unfold submit_and_finalize, poll_to_final. st_unfold.
  pose proof (submit_sent (mb_client m) rq w) as Hs.
  destruct (submit_transaction (mb_client m) rq w) as [w1 [txid|e]]; cbn [fst] in Hs;
    [|by intros [= <- <- <-]].
  pose proof (instant_sent w1) as Hi. destruct (instant w1) as [w2 t]; cbn [fst] in Hi.
  intros E%poll_loop_sent. congruence.
Qed.

(** (C24) A post never reaches the node twice: whatever nodes fail and whatever else
    goes wrong, one call of [try_post] submits at most one transaction, the one with
    the recipient as queue key and the message as value, once, at one node; it submits
    none when it reports an error before.  It reports success only when that node
    accepted the submission and gave it an id, and the last thing the call did was to
    read the transaction of this id at this node, which was final without an error. *)
Theorem post_submits_once fuel recipient message (m m' : Mailbox) (w w' : W) r :
  try_post fuel recipient message (m, w) = ((m', w'), r) ->
  (sent w' = sent w /\ (r = None \/ exists e, r = Some (Err e))) \/
  (exists n rq w1 w2 submitted, submit_transaction n rq w1 = (w2, submitted) /\
     sent w1 = sent w /\ sent w' = sent w ++ [rq] /\ txn_type rq = mb_post_type m /\
     args rq = [Envelope.as_bytes recipient; message] /\
     (r = Some (Ok Posted) ->
        exists txid w3 p, submitted = Ok txid /\ rtc (polling n txid) w2 w3 /\
          watch n txid w3 = (w', Ok p) /\ stage p = StageFinal /\ tx_error p = None)).
Proof using All.
  unfold try_post, params_with_failover. st_unfold.
  destruct (params_loop fuel false (set_refusal None m, w)) as [[m1 w1] [[p|e]|]] eqn:Ep;
    pose proof (params_loop_sent _ _ _ _ _ _ _ Ep) as Hp.
  2: by intros [= <- <- <-]; left; eauto.
  2: by intros [= <- <- <-]; left; eauto.
  apply params_loop_frame in Ep as (Hty & _).
  pose proof (note_sent_log w1) as Hn. destruct (unique_note w1) as [w2 nonce]; cbn [fst] in Hn.
  set (rq := build_post_request _ _ _ _ _).
  destruct (submit_and_finalize fuel "post" rq (m1, w2)) as [[m2 w3] f] eqn:Ef. intros [= <- <- <-].
  right. destruct (submit_transaction (mb_client m1) rq w2) as [w4 submitted] eqn:Es.
  exists (mb_client m1), rq, w2, w4, submitted.
  split_and!; [done|by rewrite Hn, Hp|by rewrite (submit_sends _ _ _ _ _ _ _ _ Ef), Hn, Hp|done|done|].
  intros Hr. destruct f as [[[q|]|]|]; simplify_eq.
  apply submit_final in Ef as (Hst & He & w5 & txid & w6 & Es' & Hrtc & Hw).
  rewrite Es in Es'. injection Es' as <- ->. by exists txid, w6, q.
Qed.
End Submissions.

(** (C35) Posting and popping come to an end: with time passing at every read of the
    transaction and at most [B] nodes per resolution, failover tries at most the
    nodes left, one more resolution and its nodes, and polling stops at the finality
    timeout, so both operations return within the fuel named here. *)
Theorem mailbox_terminates {W} `{Sidewinder W} (time : W -> Z) (B : nat) `{!SidewinderTime W time B}
    fuel recipient message (m : Mailbox) (w : W) :
  (length (mb_nodes m) + B < fuel)%nat -> mb_finality_timeout m < Z.of_nat fuel ->
  is_Some (try_post fuel recipient message (m, w)).2 /\ is_Some (pop fuel (m, w)).2.
Proof.
  intros Hf Ht. assert (0 < Z.of_nat fuel) as Hpos by lia.
  unfold try_post, pop, params_with_failover. st_unfold.
  destruct (params_loop fuel false (set_refusal None m, w)) as [[m1 w1] r] eqn:Ep.
  assert (is_Some r) as [[p|e] ->]; [|cbn; eauto..].
  { eapply (params_loop_total time B); [|exact Ep]. unfold remaining. cbn. lia. }
  apply params_loop_frame in Ep as (_ & _ & Hto & _). cbn [set_refusal mb_finality_timeout] in Hto.
  destruct (unique_note w1) as [w2 nonce]. rewrite <- Hto in Ht. split.
  - destruct (submit_and_finalize fuel "post" _ (m1, w2)) as [[m2 w3] f] eqn:Ef.
    apply (submit_total time B) in Ef as [[[]|] ->]; cbn; eauto.
  - destruct (submit_and_finalize fuel "pop" _ (m1, w2)) as [[m2 w3] f] eqn:Ef.
    apply (submit_total time B) in Ef as [[[]|] ->]; cbn; eauto.
Qed.

(** ** A small world

    Nodes behave by their name: ["down"] does not answer, ["misconfigured"] cannot be
    connected to, any other node works and finalises what it is given at once. *)
Module SmallWorld.

Record world : Type := MkWorld {
  w_time : Z;
  w_sent : list TransactionRequest;
  w_nodes : list DiscoveredNode
}.

Definition tick (w : world) : world := MkWorld (w_time w + 1) (w_sent w) (w_nodes w).
Definition down (n : DiscoveredNode) : bool := bool_decide (node_name n = "down"%string).
Definition unreachable_error : client_error :=
  MkClientError (Some (HostUnreachable, "connection refused"%string)) "connection refused".

#[export] Instance small_sidewinder : Sidewinder world := {|
  instant w := (w, w_time w);
  sleep_ms ms w := MkWorld (w_time w + ms) (w_sent w) (w_nodes w);
  unique_note w := (w, Z.of_nat (length (w_sent w)));
  resolve_nodes _ w := (w, Ok (take 8 (w_nodes w)));
  connect n w := (w, if bool_decide (node_name n = "misconfigured"%string)
                     then Err "bad certificate"%string else Ok tt);
  params n w := (tick w, if down n then Err unreachable_error
                         else Ok (MkSuggestedParams 1000 7 100 "i"));
  submit_transaction n rq w := (MkWorld (w_time w) (w_sent w ++ [rq]) (w_nodes w), Ok "tx"%string);
  watch n txid w := (tick w, Ok (MkPendingTransaction StageFinal None (Some [])))
|}.

#[export] Instance small_time : SidewinderTime world w_time 8.
Proof.
  split; cbn; try done; [lia..|]. intros _ w nodes [= <-]. rewrite length_take. lia.
Qed.

#[export] Instance small_log : SidewinderLog world w_sent.
Proof. by split. Qed.

Definition node (name : string) : DiscoveredNode := MkDiscoveredNode name (Some "https://node"%string).

Definition fresh_world (names : list string) : world := MkWorld 0 [] (node <$> names).

(** The mailbox a client builds over these nodes. *)
Definition open_mailbox (names : list string) : result Mailbox BingleError :=
  (mailbox_new (discovered 5) (fresh_world names)).2.

Definition over (names : list string) : Mailbox :=
  MkMailbox 5 (node <$> names) 0 (node (default ""%string (head names))) 1 2 20 None.
End SmallWorld.

Existing Instances SmallWorld.small_sidewinder SmallWorld.small_time SmallWorld.small_log.

Lemma post_submits_once_witness :
  let names := ["down"; "good"]%string in
  let rq := MkTransactionRequest 1 [Envelope.as_bytes "bob"; [1; 2]] 1000 7 107 "i" 0 in
  let w' := SmallWorld.MkWorld 3 [rq] (SmallWorld.node <$> names) in
  try_post 30 "bob" [1; 2] (SmallWorld.over names, SmallWorld.fresh_world names)
  = ((MkMailbox 5 (SmallWorld.node <$> names) 1 (SmallWorld.node "good") 1 2 20 None, w'),
     Some (Ok Posted)) /\
  exists n txid w1 p, watch n txid w1 = (w', Ok p) /\ stage p = StageFinal.
Proof.
  intros names rq w'.
  assert (try_post 30 "bob" [1; 2] (SmallWorld.over names, SmallWorld.fresh_world names)
    = ((MkMailbox 5 (SmallWorld.node <$> names) 1 (SmallWorld.node "good") 1 2 20 None, w'),
       Some (Ok Posted))) as E by (vm_compute; reflexivity).
  split; [exact E|].
  destruct (post_submits_once SmallWorld.w_sent _ _ _ _ _ _ _ _ E)
    as [[H _]|(n & rq' & w1 & w2 & sub & _ & _ & _ & _ & _ & Hf)].
  - discriminate H.
  - destruct (Hf eq_refl) as (txid & w3 & p & _ & _ & Hw & Hs & _). exists n, txid, w3, p. split; [exact Hw|exact Hs].
Defined.

Lemma mailbox_terminates_witness :
  is_Some (try_post 30 "bob" [1] (SmallWorld.over ["down"; "good"], SmallWorld.fresh_world ["down"; "good"])).2 /\
  is_Some (pop 30 (SmallWorld.over ["down"; "good"], SmallWorld.fresh_world ["down"; "good"])).2.
Proof.
  apply (mailbox_terminates SmallWorld.w_time 8); cbn; lia.
Defined.

(** Failover stops at a node that cannot be connected to: with the active node
    down and the next one misconfigured, a post fails although the third node would
    take it, nothing is submitted, and the connection is left on the first node while
    the cursor names the second; a mailbox whose first node is misconfigured cannot
    be opened at all. *)
Theorem failover_stops_at_connect :
  let names := ["down"; "misconfigured"; "good"]%string in
  let '((m, w), r) := try_post 30 "bob" [1] (SmallWorld.over names, SmallWorld.fresh_world names) in
  r = Some (Err (map_connect_error "bad certificate")) /\
  SmallWorld.w_sent w = [] /\
  mb_active m = 1%nat /\ mb_client m = SmallWorld.node "down" /\
  is_ok (SmallWorld.open_mailbox ["misconfigured"; "good"]) = false /\
  (try_post 30 "bob" [1] (SmallWorld.over ["down"; "good"], SmallWorld.fresh_world names)).2
  = Some (Ok Posted).
Proof. vm_compute. done. Qed.
