(* ===== verification/Account.v ===== *)
(** * The account of the local client

    Models, of [src/bingle_local/src/api/]: the state behind the client
    ([bingle_local_api_impl/local_state.rs]), the key pair, its recovery, its status
    and its registration ([bingle_local_api_impl.rs], [registration.rs]), the notify
    gateway ([notify/]); and [src/bingle_core/src/blockchain/account_status.rs].

    The state is in three parts: the account and its caches, the store of contacts and
    messages, the configuration.  The world [W] has the clock, randomness, the chain
    and the gateway (classes [Sidewinder], [LocalWorld]); the pure functions of the
    crate [algo_ops] are the record [algo].  A cached [AlgoOps] is the passphrase it
    signs with.  Locks are taken and released within one operation, so operations are
    atomic here; poisoning is left out. *)
From S2P Require Import Prelude LocalTypes Mailbox.
From S2P Require Import Envelope.

Local Open Scope Z_scope.

(** ** Configuration and state *)

Record LocalApiConfig : Type := MkConfig {
  cfg_app_id : Z;
  cfg_asset_id : Z;
  notify_on_giveup : bool;
  notify_gateway_url : option string;
  notify_env : string;
  sidewinder : option MailboxConfig;
  store_and_forward_send : bool;
  store_and_forward_receive : bool
}.

Definition default_notify_env : string := "sandbox".

Definition default_config : LocalApiConfig :=
  MkConfig 0 0 true None default_notify_env None false false.

Definition with_notify (app asset : Z) (on_giveup : option bool) (url : option string)
  : LocalApiConfig :=
  MkConfig app asset (default true on_giveup) url default_notify_env None false false.

Definition with_sidewinder (s : option MailboxConfig) (c : LocalApiConfig) : LocalApiConfig :=
  MkConfig (cfg_app_id c) (cfg_asset_id c) (notify_on_giveup c) (notify_gateway_url c)
    (notify_env c) s (store_and_forward_send c) (store_and_forward_receive c).

Definition with_store_and_forward (send receive : option bool) (c : LocalApiConfig)
  : LocalApiConfig :=
  MkConfig (cfg_app_id c) (cfg_asset_id c) (notify_on_giveup c) (notify_gateway_url c)
    (notify_env c) (sidewinder c) (default false send) (default false receive).

Definition validate_store_and_forward (c : LocalApiConfig) : result unit string :=
  if (store_and_forward_send c || store_and_forward_receive c)
     && bool_decide (sidewinder c = None)
  then Err "store-and-forward is enabled but no Sidewinder Mailbox is configured"%string
  else Ok tt.

Record account : Type := MkAccount {
  keypair : option Keypair;
  recovery_keypair : option Keypair;
  algo_ops : option string;
  own_handle : option string;
  own_handle_app_id : option Z;
  live_app_confirmed : option Z;
  last_status : option KeypairStatus;
  last_network_check : option (bool * Z)
}.

Record store : Type := MkStore {
  contacts : gmap string (string * ContactSource * bool);
  messages : list Message;
  nudged_messages : gset string;
  forwarded_messages : gset (string * string);
  refused_forwards : gmap (string * string) string;
  mailbox_identity_refused_at : option Z;
  mailbox_identity_refusal_reason : option string
}.

Record LocalState : Type := MkLocalState {
  acct : account;
  st : store;
  config : LocalApiConfig
}.

Definition LocalState_new (c : LocalApiConfig) : LocalState :=
  MkLocalState (MkAccount None None None None None None None None)
    (MkStore ∅ [] ∅ ∅ ∅ None None) c.

Definition set_keypair (k : option Keypair) (a : account) : account :=
  MkAccount k (recovery_keypair a) (algo_ops a) (own_handle a) (own_handle_app_id a)
    (live_app_confirmed a) (last_status a) (last_network_check a).
Definition set_recovery (k : option Keypair) (a : account) : account :=
  MkAccount (keypair a) k (algo_ops a) (own_handle a) (own_handle_app_id a)
    (live_app_confirmed a) (last_status a) (last_network_check a).
Definition set_ops (o : option string) (a : account) : account :=
  MkAccount (keypair a) (recovery_keypair a) o (own_handle a) (own_handle_app_id a)
    (live_app_confirmed a) (last_status a) (last_network_check a).
Definition set_memo (h : option string) (app : option Z) (a : account) : account :=
  MkAccount (keypair a) (recovery_keypair a) (algo_ops a) h app
    (live_app_confirmed a) (last_status a) (last_network_check a).
Definition set_live (app : option Z) (a : account) : account :=
  MkAccount (keypair a) (recovery_keypair a) (algo_ops a) (own_handle a) (own_handle_app_id a)
    app (last_status a) (last_network_check a).
Definition set_last_status (s : option KeypairStatus) (a : account) : account :=
  MkAccount (keypair a) (recovery_keypair a) (algo_ops a) (own_handle a) (own_handle_app_id a)
    (live_app_confirmed a) s (last_network_check a).
Definition set_network_check (c : option (bool * Z)) (a : account) : account :=
  MkAccount (keypair a) (recovery_keypair a) (algo_ops a) (own_handle a) (own_handle_app_id a)
    (live_app_confirmed a) (last_status a) c.

Definition on_acct (f : account -> account) (s : LocalState) : LocalState :=
  MkLocalState (f (acct s)) (st s) (config s).
Definition on_store (f : store -> store) (s : LocalState) : LocalState :=
  MkLocalState (acct s) (f (st s)) (config s).
Definition on_config (f : LocalApiConfig -> LocalApiConfig) (s : LocalState) : LocalState :=
  MkLocalState (acct s) (st s) (f (config s)).

(** ** The gateway's envelopes *)

Record AlertRequest : Type := MkAlertRequest {
  al_iss : string; al_audience : string; al_nonce : string; al_exp : Z; al_sig : string
}.

Record RegisterRequest : Type := MkRegisterRequest {
  rg_iss : string; rg_token : string; rg_env : string; rg_topic : option string;
  rg_nonce : string; rg_exp : Z; rg_sig : string
}.

Definition ALERT_EXP_SECS : Z := 45.
Definition REGISTER_EXP_SECS : Z := 45.

Definition alert_exp (now_secs : Z) : Z := now_secs + ALERT_EXP_SECS.

Definition alert_status_accepted (status : Z) : bool :=
  ((200 <=? status) && (status <? 300)) || (status =? 429).

Definition encode_apns_token (raw : list Z) : result string BingleError :=
  match raw with
  | [] => Err (Other "APNs device token must not be empty")
  | _ => Ok (hex_id raw)
  end.

(** The newline between the environment and the topic. *)
Definition newline : string := String (Ascii.ascii_of_N 10) EmptyString.

(** ** What the client does not define *)

(** Pure functions of [algo_ops], with base64. *)
Record algo : Type := MkAlgo {
  address_from_passphrase : string -> result string string;
  seed_from_passphrase : string -> result (list Z) string;
  address_to_byte_key : string -> result (list Z) string;
  byte_key_to_address : list Z -> option string;
  sign_notify_envelope :
    string -> string -> string -> string -> string -> string -> string -> Z -> result string BingleError;
  base64_encode : list Z -> string;
  base64_no_pad : list Z -> string
}.

(** The chain, as an account's [AlgoOps] and [AlgoBingle] ask it; the first argument
    is the passphrase they are built with. *)
Class LocalWorld (W : Type) := {
  epoch_ms : W -> W * option Z;
  epoch_nanos : W -> W * Z;
  random_bytes : nat -> W -> W * option (list Z);
  seal_random : W -> W * (Z * list Z);
  fresh_keypair : W -> W * Keypair;
  address_str : string -> W -> W * result string BingleError;
  chain_handle_lookup : string -> W -> W * result (option string) BingleError;
  chain_handle_for_address : Z -> string -> W -> W * result (option string) BingleError;
  chain_successor_app : Z -> W -> W * result (option Z) BingleError;
  chain_opted_in_asset : Z -> string -> W -> W * result bool BingleError;
  chain_opted_in_app : Z -> string -> W -> W * result bool BingleError;
  chain_balance : string -> W -> W * result (option Z) BingleError;
  chain_required_funding : W -> W * result Z BingleError;
  chain_bingle_price : Z -> W -> W * result Z BingleError;
  tx_opt_in_app : string -> Z -> W -> W * result unit BingleError;
  tx_opt_in_asset : string -> Z -> W -> W * result unit BingleError;
  tx_buy_bingle : string -> Z -> Z -> Z -> W -> W * result unit BingleError;
  tx_register : string -> Z -> Z -> string -> W -> W * result unit BingleError;
  tx_migrate : string -> Z -> W -> W * result (option string) BingleError;
  post_alert : string -> AlertRequest -> W -> W;
  post_register : string -> RegisterRequest -> W -> W * result bool BingleError
}.

(** ** Registration, over the trait [RegistrationOps] *)

Record RegistrationOps (W : Type) : Type := MkRegistrationOps {
  ro_self_address : W -> W * result string BingleError;
  ro_handle_lookup : string -> W -> W * result (option string) BingleError;
  ro_is_opted_in_app : W -> W * result bool BingleError;
  ro_is_opted_in_asset : W -> W * result bool BingleError;
  ro_opt_in_app : W -> W * result unit BingleError;
  ro_opt_in_to_asset : W -> W * result unit BingleError;
  ro_get_bingle_price : W -> W * result Z BingleError;
  ro_buy_bingle : Z -> W -> W * result unit BingleError;
  ro_register : string -> W -> W * result unit BingleError
}.
Arguments MkRegistrationOps {W} _ _ _ _ _ _ _ _ _.
Arguments ro_self_address {W} _ _.
Arguments ro_handle_lookup {W} _ _ _.
Arguments ro_is_opted_in_app {W} _ _.
Arguments ro_is_opted_in_asset {W} _ _.
Arguments ro_opt_in_app {W} _ _.
Arguments ro_opt_in_to_asset {W} _ _.
Arguments ro_get_bingle_price {W} _ _.
Arguments ro_buy_bingle {W} _ _ _.
Arguments ro_register {W} _ _ _.

(** An opt-in that is skipped when it was made before. *)
Definition opt_in_once {W} (check : ST W (result bool BingleError)) (opt_in : ST W (result unit BingleError))
  : ST W (result unit BingleError) :=
  let* already := check in if already then mret (Ok tt) else opt_in.

(** The owner of a handle, unless it is this account. *)
Definition other_owner (self_address : string) (owner : option string) : option string :=
  match owner with
  | Some o => if decide (o = self_address) then None else Some o
  | None => None
  end.

Definition run_registration {W} (ops : RegistrationOps W) (handle : string)
  : ST W (result unit BingleError) :=
  let* self_address := ro_self_address ops in
  let* owner := ro_handle_lookup ops handle in
  match other_owner self_address owner with
  | Some other => mret (Err (HandleTaken other))
  | None =>
      let* _ := opt_in_once (ro_is_opted_in_app ops) (ro_opt_in_app ops) in
      let* _ := opt_in_once (ro_is_opted_in_asset ops) (ro_opt_in_to_asset ops) in
      let* price := ro_get_bingle_price ops in
      let* _ := ro_buy_bingle ops price in
      ro_register ops handle
  end.

(** [ChainRegistrationOps], for the account of a passphrase. *)
Definition ChainRegistrationOps {W} `{LocalWorld W} (pass : string) (app asset : Z) : RegistrationOps W :=
  MkRegistrationOps (address_str pass) chain_handle_lookup
    (fun w => (let* a := address_str pass in chain_opted_in_app app a) w)
    (fun w => (let* a := address_str pass in chain_opted_in_asset asset a) w)
    (tx_opt_in_app pass app) (tx_opt_in_asset pass asset) (chain_bingle_price app)
    (tx_buy_bingle pass app asset) (tx_register pass app asset).

(** ** Status facts *)

Record AccountStatusFacts : Type := MkFacts {
  f_address : string;
  f_has_asset : bool;
  f_handle : option string;
  f_balance : Z;
  f_required_funding : Z
}.

Definition is_registered (f : AccountStatusFacts) : bool :=
  f_has_asset f && bool_decide (is_Some (f_handle f)).

(** The reads of [AccountStatusReads] for the account of [pass]. *)
Definition resolve_account_status {W} `{LocalWorld W} (pass address : string) (app asset fallback : Z)
  : ST W (result AccountStatusFacts BingleError) :=
  let* has_asset := (if 0 <? asset then chain_opted_in_asset asset address else mret (Ok false)) in
  let* handle := (if has_asset && (0 <? app) then chain_handle_for_address app address
                  else mret (Ok None)) in
  if has_asset && bool_decide (is_Some handle)
  then mret (Ok (MkFacts address has_asset handle 0 fallback))
  else
    let* balance := chain_balance pass in
    target ← chain_required_funding;
    mret (Ok (MkFacts address has_asset handle (default 0 balance)
                (match target with Ok t => t | Err _ => fallback end))).

Definition fresh_status (s : string) (id handle : option string) (required : option Z) : KeypairStatus :=
  MkKeypairStatus s id handle required false.

Definition keypair_status_from_facts (id : string) (has_asset : bool) (handle : option string)
    (balance required : Z) : KeypairStatus :=
  if has_asset && bool_decide (is_Some handle) then fresh_status "ACTIVE" (Some id) handle None
  else if required <=? balance then fresh_status "FUNDED" (Some id) None None
  else fresh_status "UNFUNDED" (Some id) None (Some (Z.max 0 (required - balance))).

Definition status_or_last_known (err : BingleError) (cached : option KeypairStatus)
  : result KeypairStatus BingleError :=
  if algo_host_unreachable err then
    match cached with
    | Some c => Ok (MkKeypairStatus (status c) (status_id c) (status_handle c) (required_algo c) true)
    | None => Err err
    end
  else Err err.

Section Client.
Context {W : Type} `{LocalWorld W} (A : algo).

(** Computations of the client. *)
Definition L (B : Type) : Type := ST (LocalState * W) B.

Definition outside {B} (f : W -> W * B) : L B :=
  fun '(s, w) => let '(w, b) := f w in ((s, w), b).
Definition get_state : L LocalState := fun '(s, w) => ((s, w), s).
Definition update (f : LocalState -> LocalState) : L unit := fun '(s, w) => ((f s, w), tt).
Definition update_acct (f : account -> account) : L unit := update (on_acct f).
Definition update_store (f : store -> store) : L unit := update (on_store f).

(** Elapsed since a time read earlier, never negative. *)
Definition now_millis : L Z := t ← outside epoch_ms; mret (default 0 t).
Definition now_secs : L Z := t ← outside epoch_ms; mret (default 0 t / 1000).

(** ** Key pairs *)

(** A key pair takes effect: what was known of the account before is dropped. *)
Definition install_keypair (kp : Keypair) (a : account) : account :=
  set_ops None (set_last_status None (set_live None (set_memo None None (set_keypair (Some kp) a)))).

Definition generate_keypair : L (result Keypair BingleError) :=
  kp ← outside fresh_keypair;
  _ ← update_acct (install_keypair kp);
  mret (Ok kp).

Definition import_keypair (pass : string) : L (result Keypair BingleError) :=
  match address_from_passphrase A pass with
  | Err e => mret (Err (Other e))
  | Ok id =>
      let kp := MkKeypair id pass in
      _ ← update_acct (install_keypair kp);
      mret (Ok kp)
  end.

Definition get_keypair : L (result (option Keypair) BingleError) :=
  s ← get_state; mret (Ok (keypair (acct s))).

Definition begin_recovery_keypair : L (result Keypair BingleError) :=
  s ← get_state;
  match keypair (acct s) with
  | None => mret (Err (Other "no keypair to recover: generate or import one first"))
  | Some _ =>
      match recovery_keypair (acct s) with
      | Some kp => mret (Ok kp)
      | None =>
          kp ← outside fresh_keypair;
          _ ← update_acct (set_recovery (Some kp));
          mret (Ok kp)
      end
  end.

Definition get_recovery_keypair : L (result (option Keypair) BingleError) :=
  s ← get_state; mret (Ok (recovery_keypair (acct s))).

Definition complete_recovery_keypair : L (result Keypair BingleError) :=
  s ← get_state;
  match recovery_keypair (acct s) with
  | None => mret (Err (Other "no recovery is pending"))
  | Some pending =>
      let* kp := import_keypair (passphrase pending) in
      _ ← update_acct (set_recovery None);
      mret (Ok kp)
  end.

(** The cached signer, or one for the current key pair. *)
Definition get_algo_ops : L (result string BingleError) :=
  s ← get_state;
  match algo_ops (acct s) with
  | Some ops => mret (Ok ops)
  | None =>
      match keypair (acct s) with
      | None => mret (Err (Other "no keypair"))
      | Some kp => _ ← update_acct (set_ops (Some (passphrase kp))); mret (Ok (passphrase kp))
      end
  end.

(** ** Status *)

Definition account_status_from_chain (pass address : string) (app asset : Z)
  : L (result KeypairStatus BingleError) :=
  let* f := outside (resolve_account_status pass address app asset REQUIRED_ALGO) in
  mret (Ok (keypair_status_from_facts (f_address f) (f_has_asset f) (f_handle f) (f_balance f)
              (f_required_funding f))).

Definition fallback_status (err : BingleError) : L (result KeypairStatus BingleError) :=
  s ← get_state; mret (status_or_last_known err (last_status (acct s))).

Definition cache_status (status : KeypairStatus) : L unit :=
  s ← get_state;
  _ ← match status_handle status with
      | Some h => update_acct (set_memo (Some h) (Some (cfg_app_id (config s))))
      | None => mret tt
      end;
  update_acct (set_last_status (Some status)).

(** Whether the app of [pass] has a successor; an error counts as none. *)
Definition successor_app (app : Z) : L (result (option Z) BingleError) :=
  outside (chain_successor_app app).

(** The memoized handle is for the app this client is configured for. *)
Definition memo_valid (s : LocalState) : option string :=
  match own_handle (acct s) with
  | Some h =>
      if (cfg_app_id (config s) =? 0)
         || bool_decide (own_handle_app_id (acct s) = Some (cfg_app_id (config s)))
      then Some h else None
  | None => None
  end.

Definition upgrade_required (id : string) : KeypairStatus :=
  fresh_status "UPGRADE_REQUIRED" (Some id) None None.

(** Serving the memo: once per session the successor pointer is read. *)
Definition memo_status (id handle : string) : L (result KeypairStatus BingleError) :=
  s ← get_state;
  let app := cfg_app_id (config s) in
  let active := mret (Ok (fresh_status "ACTIVE" (Some id) (Some handle) None)) in
  if (0 <? app) && negb (bool_decide (live_app_confirmed (acct s) = Some app)) then
    ops ← get_algo_ops;
    match ops with
    | Err _ => active
    | Ok _ =>
        succ ← successor_app app;
        match succ with
        | Ok (Some _) => mret (Ok (upgrade_required id))
        | Ok None => _ ← update_acct (set_live (Some app)); active
        | Err _ => active
        end
    end
  else active.

(** Without a memo: the successor pointer, then the account itself. *)
Definition chain_status (id : string) : L (result KeypairStatus BingleError) :=
  s ← get_state;
  let app := cfg_app_id (config s) in
  superseded ← (if 0 <? app then
                  ops ← get_algo_ops;
                  match ops with
                  | Err _ => mret false
                  | Ok _ =>
                      succ ← successor_app app;
                      mret (match succ with Ok (Some _) => true | _ => false end)
                  end
                else mret false);
  if (superseded : bool) then mret (Ok (upgrade_required id))
  else
    let* pass := get_algo_ops in
    r ← account_status_from_chain pass id app (cfg_asset_id (config s));
    match r with
    | Err e => fallback_status e
    | Ok status => _ ← cache_status status; mret (Ok status)
    end.

Definition keypair_status : L (result KeypairStatus BingleError) :=
  s ← get_state;
  match keypair (acct s) with
  | None => mret (Ok (fresh_status "None" None None None))
  | Some kp =>
      match memo_valid s with
      | Some h => memo_status (key_id kp) h
      | None => chain_status (key_id kp)
      end
  end.

Definition inspect_passphrase (pass : string) : L (result KeypairStatus BingleError) :=
  match address_from_passphrase A pass with
  | Err e => mret (Err (Other e))
  | Ok address =>
      s ← get_state;
      account_status_from_chain pass address (cfg_app_id (config s)) (cfg_asset_id (config s))
  end.

(** [resolve_sender_handle] is given the cached handle and how to ask for the status. *)
Definition resolve_sender_handle (cached : option string)
    (fetch_status : L (result KeypairStatus BingleError)) : L (result string BingleError) :=
  match cached with
  | Some h => mret (Ok h)
  | None =>
      let* s := fetch_status in
      mret (ok_or (status_handle s) (Other "No handle registered for current keypair"))
  end.

Definition sender_handle : L (result string BingleError) :=
  s ← get_state; resolve_sender_handle (own_handle (acct s)) keypair_status.

Definition NETWORK_CHECK_TTL : Z := 5000.

Definition network_probe `{Sidewinder W} : L (result bool BingleError) :=
  ops ← get_algo_ops;
  available ← match ops with
              | Err _ => mret false
              | Ok pass =>
                  b ← outside (chain_balance pass);
                  mret (match b with Ok _ => true | Err e => negb (algo_host_unreachable e) end)
              end;
  now ← outside instant;
  _ ← update_acct (set_network_check (Some (available, now)));
  mret (Ok available).

Definition network_available `{Sidewinder W} (force_recheck : bool) : L (result bool BingleError) :=
  s ← get_state;
  match last_network_check (acct s) with
  | Some (available, at_) =>
      if force_recheck then network_probe
      else
        now ← outside instant;
        if Z.max 0 (now - at_) <? NETWORK_CHECK_TTL then mret (Ok available) else network_probe
  | None => network_probe
  end.

(** ** Registration *)

Definition register_keypair (handle : string) : L (result bool BingleError) :=
  s ← get_state;
  let app := cfg_app_id (config s) in
  if app =? 0 then mret (Err (Other "app_id not set in config"))
  else if cfg_asset_id (config s) =? 0 then mret (Err (Other "asset_id not set in config"))
  else
    let* pass := get_algo_ops in
    let* _ := outside (run_registration (ChainRegistrationOps pass app (cfg_asset_id (config s))) handle) in
    _ ← update_acct (set_memo (Some handle) (Some app));
    mret (Ok true).

Definition ensure_local_migrated : L (result (option string) BingleError) :=
  s ← get_state;
  let app := cfg_app_id (config s) in
  if app =? 0 then mret (Err (Other "app_id not set in config"))
  else
    let* pass := get_algo_ops in
    outside (tx_migrate pass app).

(** ** The gateway *)

Definition fresh_nonce : L string :=
  r ← outside (random_bytes 16);
  match r with
  | Some b => mret (base64_no_pad A b)
  | None => n ← outside epoch_nanos; mret (base64_no_pad A (rev (to_be_bytes 16 n)))
  end.

Definition build_alert_request (pass iss audience nonce : string) (exp : Z) : result AlertRequest BingleError :=
  let? sig := sign_notify_envelope A pass "alert" iss audience "" "" nonce exp in
  Ok (MkAlertRequest iss audience nonce exp sig).

Fixpoint post_alerts (url pass iss : string) (exp : Z) (recipients : list string) : L unit :=
  match recipients with
  | [] => mret tt
  | audience :: recipients =>
      nonce ← fresh_nonce;
      _ ← match build_alert_request pass iss audience nonce exp with
          | Ok req => outside (fun w => (post_alert url req w, tt))
          | Err _ => mret tt
          end;
      post_alerts url pass iss exp recipients
  end.

Definition post_giveup_alerts (url pass iss : string) (recipients : list string) : L unit :=
  now ← now_secs; post_alerts url pass iss (alert_exp now) recipients.

Definition notify_giveup (recipients : list string) : L unit :=
  s ← get_state;
  if negb (notify_on_giveup (config s)) then mret tt
  else match notify_gateway_url (config s) with
  | None => mret tt
  | Some url =>
      match recipients with
      | [] => mret tt
      | _ =>
          iss ← sender_handle;
          match iss with
          | Err _ => mret tt
          | Ok iss =>
              ops ← get_algo_ops;
              match ops with
              | Err _ => mret tt
              | Ok pass => post_giveup_alerts url pass iss recipients
              end
          end
      end
  end.

Definition sign_register_envelope (pass iss token env : string) (topic : option string) (nonce : string)
    (exp : Z) : result string BingleError :=
  let env_and_topic := match topic with Some t => env +:+ newline +:+ t | None => env end in
  sign_notify_envelope A pass "register" iss "" token env_and_topic nonce exp.

Definition build_register_request (pass iss token env : string) (topic : option string) (nonce : string)
    (exp : Z) : result RegisterRequest BingleError :=
  let? sig := sign_register_envelope pass iss token env topic nonce exp in
  Ok (MkRegisterRequest iss token env topic nonce exp sig).

Definition build_fresh_register_request (pass iss token env : string) (topic : option string)
  : L (result RegisterRequest BingleError) :=
  nonce ← fresh_nonce;
  now ← now_secs;
  mret (build_register_request pass iss token env topic nonce (now + REGISTER_EXP_SECS)).

Definition register_apns_token (token : list Z) : L (result bool BingleError) :=
  match encode_apns_token token with
  | Err e => mret (Err e)
  | Ok token_hex =>
      s ← get_state;
      match notify_gateway_url (config s) with
      | None => mret (Err (Other "notify_gateway_url is not configured; cannot register APNs token"))
      | Some url =>
          let* iss := sender_handle in
          let* pass := get_algo_ops in
          let* req := build_fresh_register_request pass iss token_hex (notify_env (config s)) None in
          outside (post_register url req)
      end
  end.
End Client.

(** ** Registration: what is spent *)

Inductive tx : Type := TxOptInApp | TxOptInAsset | TxBuy (price : Z) | TxRegister (handle : string).

(** The step [t] is in the log after it when it succeeded; when it failed it may be there or
    not, since a step that the chain took can fail afterwards. *)
Definition step_in_log (t : tx) (before after : list tx) (ok : bool) : Prop :=
  after = before ++ [t] \/ (ok = false /\ after = before).

(** [log] lists the transactions that took effect: reads add none, and a step at most its
    own. *)
Class RegistrationLog {W} (ops : RegistrationOps W) (log : W -> list tx) : Prop := {
  log_self w : log (ro_self_address ops w).1 = log w;
  log_lookup h w : log (ro_handle_lookup ops h w).1 = log w;
  log_check_app w : log (ro_is_opted_in_app ops w).1 = log w;
  log_check_asset w : log (ro_is_opted_in_asset ops w).1 = log w;
  log_price w : log (ro_get_bingle_price ops w).1 = log w;
  log_opt_app w : step_in_log TxOptInApp (log w) (log (ro_opt_in_app ops w).1) (is_ok (ro_opt_in_app ops w).2);
  log_opt_asset w :
    step_in_log TxOptInAsset (log w) (log (ro_opt_in_to_asset ops w).1) (is_ok (ro_opt_in_to_asset ops w).2);
  log_buy p w : step_in_log (TxBuy p) (log w) (log (ro_buy_bingle ops p w).1) (is_ok (ro_buy_bingle ops p w).2);
  log_register h w : step_in_log (TxRegister h) (log w) (log (ro_register ops h w).1) (is_ok (ro_register ops h w).2)
}.

Section Spending.
Context {W : Type} (ops : RegistrationOps W) (log : W -> list tx) `{!RegistrationLog ops log}.

(** The log is [l]. *)
Definition logged (l : list tx) (w : W) : Prop := log w = l.

Lemma read_logged {B} (m : ST W B) l : (forall w, log (m w).1 = log w) -> triple (logged l) m (fun _ => logged l).
Proof using. intros H w Hw. unfold logged in *. by rewrite H. Qed.

Lemma step_logged (m : ST W (result unit BingleError)) t l :
  (forall w, step_in_log t (log w) (log (m w).1) (is_ok (m w).2)) ->
  triple (logged l) m (fun r w => step_in_log t l (log w) (is_ok r)).
Proof using. intros H w Hw. unfold logged in *. specialize (H w). by rewrite Hw in H. Qed.

(** After an opt-in the log has grown by nothing or by it. *)
Lemma opt_in_logged check opt_in t l :
  (forall w, log (check w).1 = log w) ->
  (forall w, step_in_log t (log w) (log (opt_in w).1) (is_ok (opt_in w).2)) ->
  triple (logged l) (opt_in_once check opt_in) (fun _ w => logged l w \/ logged (l ++ [t]) w).
Proof using.
  intros Hc Ho. unfold opt_in_once. eapply triple_try; [by apply read_logged| |by left].
  intros [].
  - intros w Hw. by left.
  - eapply triple_conseq; [apply (step_logged _ t l Ho)|done|]. intros r w [Hw|[_ Hw]]; [by right|by left].
Qed.

(** What a run may have spent when it stopped. *)
Definition spent_ok (h : string) (l : list tx) (r : result unit BingleError) (w : W) : Prop :=
  exists a b, (a = [] \/ a = [TxOptInApp]) /\ (b = [] \/ b = [TxOptInAsset]) /\
    match r with
    | Ok _ => exists p, log w = l ++ a ++ b ++ [TxBuy p; TxRegister h]
    | Err _ => exists c p, log w = l ++ a ++ b ++ c /\ c `prefix_of` [TxBuy p; TxRegister h]
    end.

Lemma purchase_logged h l a b :
  (a = [] \/ a = [TxOptInApp]) -> (b = [] \/ b = [TxOptInAsset]) ->
  triple (logged (l ++ a ++ b))
    (let* price := ro_get_bingle_price ops in
     let* _ := ro_buy_bingle ops price in
     ro_register ops h) (spent_ok h l).
Proof using All.
  intros Ha Hb.
  assert (forall e w c p, log w = l ++ a ++ b ++ c -> c `prefix_of` [TxBuy p; TxRegister h] -> spent_ok h l (Err e) w)
    as Herr by (intros e w c p ? ?; exists a, b; eauto 6).
  eapply triple_try; [apply read_logged, log_price| |].
  2: { intros e w Hw. apply (Herr e w [] 0); [by rewrite app_nil_r|]. apply prefix_nil. }
  intros p. eapply triple_try; [apply (step_logged _ (TxBuy p)), log_buy| |].
  2: { intros e w [Hw|[_ Hw]].
       - apply (Herr e w [TxBuy p] p); [by rewrite Hw, <- !app_assoc|]. by exists [TxRegister h].
       - apply (Herr e w [] 0); [by rewrite app_nil_r|]. apply prefix_nil. }
  intros []. cbn [is_ok]. intros w0 [Hw0|[? _]]; [|done]. revert w0 Hw0.
  eapply triple_conseq; [apply (step_logged _ (TxRegister h)), log_register|by intros s Hs; exact Hs|].
  intros [[]|e] w Hw.
  - exists a, b. split_and!; try done. exists p. destruct Hw as [->|[? _]]; [by rewrite <- !app_assoc|done].
  - destruct Hw as [Hw|[_ Hw]].
    + apply (Herr e w [TxBuy p; TxRegister h] p); [by rewrite Hw, <- !app_assoc|done].
    + apply (Herr e w [TxBuy p] p); [by rewrite Hw, <- !app_assoc|]. by exists [TxRegister h].
Qed.

Lemma registration_logged h l :
  triple (logged l)
    (let* _ := opt_in_once (ro_is_opted_in_app ops) (ro_opt_in_app ops) in
     let* _ := opt_in_once (ro_is_opted_in_asset ops) (ro_opt_in_to_asset ops) in
     let* price := ro_get_bingle_price ops in
     let* _ := ro_buy_bingle ops price in
     ro_register ops h) (spent_ok h l).
Proof using All.
  assert (forall a b e w, (a = [] \/ a = [TxOptInApp]) -> (b = [] \/ b = [TxOptInAsset]) -> log w = l ++ a ++ b ->
    spent_ok h l (Err e) w) as Herr.
  { intros a b e w Ha Hb Hw. exists a, b. split_and!; try done. exists [], 0. rewrite app_nil_r. split; [done|apply prefix_nil]. }
  eapply triple_try; [apply (opt_in_logged _ _ TxOptInApp); [apply log_check_app|apply log_opt_app]| |].
  2: { intros e w [Hw|Hw].
       - apply (Herr [] []); [by left|by left|]. by rewrite !app_nil_r.
       - apply (Herr [TxOptInApp] []); [by right|by left|]. by rewrite app_nil_r. }
  intros [].
  assert (forall a, (a = [] \/ a = [TxOptInApp]) -> triple (logged (l ++ a))
    (let* _ := opt_in_once (ro_is_opted_in_asset ops) (ro_opt_in_to_asset ops) in
     let* price := ro_get_bingle_price ops in
     let* _ := ro_buy_bingle ops price in
     ro_register ops h) (spent_ok h l)) as Hrest.
  { intros a Ha. eapply triple_try;
      [apply (opt_in_logged _ _ TxOptInAsset); [apply log_check_asset|apply log_opt_asset]| |].
    2: { intros e w [Hw|Hw]; [apply (Herr a []); [done|by left|by rewrite app_nil_r]|].
         apply (Herr a [TxOptInAsset]); [done|by right|by rewrite Hw, app_assoc]. }
    intros [] w [Hw|Hw].
    - apply (purchase_logged h l a []); [done|by left|]. unfold logged. by rewrite app_nil_r.
    - apply (purchase_logged h l a [TxOptInAsset]); [done|by right|]. unfold logged. by rewrite Hw, app_assoc. }
  intros w [Hw|Hw]; [apply (Hrest []); [by left|]|apply (Hrest [TxOptInApp]); [by right|done]].
  unfold logged. by rewrite app_nil_r.
Qed.

Lemma nothing_spent h l e w : log w = l -> spent_ok h l (Err e) w.
Proof using.
  intros Hw. exists [], []. split; [by left|]. split; [by left|]. exists [], 0. rewrite !app_nil_r.
  split; [done|apply prefix_nil].
Qed.

(** Registering a handle spends in order and only when the handle is free: a
    handle owned by another account ends the run with [HandleTaken] and no transaction;
    otherwise the transactions are the missing opt-ins, one purchase and the
    registration, in this order and cut short when one fails; a run that succeeds has
    made them all. *)
Theorem registration_spends h w w' r :
  run_registration ops h w = (w', r) ->
  (forall w1 w2 self o, ro_self_address ops w = (w1, Ok self) ->
     ro_handle_lookup ops h w1 = (w2, Ok (Some o)) -> o <> self ->
     r = Err (HandleTaken o) /\ log w' = log w) /\
  spent_ok h (log w) r w'.
Proof using All.
  intros E. unfold run_registration, st_try, mbind, ST_bind in E.
  pose proof (log_self w) as Hs. destruct (ro_self_address ops w) as [w1 [self|e]]; cbn [fst] in Hs.
  2: { injection E as <- <-. split; [done|]. by apply nothing_spent. }
  pose proof (log_lookup h w1) as Hl. destruct (ro_handle_lookup ops h w1) as [w2 [owner|e]] eqn:El; cbn [fst] in Hl.
  2: { injection E as <- <-. split; [intros; simplify_eq; congruence|]. apply nothing_spent. by rewrite Hl. }
  destruct (other_owner self owner) as [o|] eqn:Eo.
  - injection E as <- <-. unfold other_owner in Eo. destruct owner as [o'|]; [|done]. case_decide; simplify_eq.
    split.
    { intros w1' w2' self' o' [= -> ->] E2 Hne. rewrite El in E2. injection E2 as -> ->. split; congruence. }
    apply nothing_spent. by rewrite Hl.
  - split.
    + intros w1' w2' self' o' [= -> ->] E2 Hne. rewrite El in E2. injection E2 as -> ->.
      unfold other_owner in Eo. by case_decide.
    + rewrite <- Hs, <- Hl. exact (triple_run _ _ _ w2 w' r (registration_logged h (log w2)) eq_refl E).
Qed.
End Spending.

(** A chain on which the registration itself fails a number of times first. *)
Module FlakyChain.

Record chain : Type := MkChain { in_app : bool; in_asset : bool; failures : nat; log : list tx }.

Definition add (t : tx) (c : chain) : chain := MkChain (in_app c) (in_asset c) (failures c) (log c ++ [t]).

Definition ops : RegistrationOps chain :=
  MkRegistrationOps (fun c => (c, Ok "ME"%string)) (fun _ c => (c, Ok None))
    (fun c => (c, Ok (in_app c))) (fun c => (c, Ok (in_asset c)))
    (fun c => (MkChain true (in_asset c) (failures c) (log c ++ [TxOptInApp]), Ok tt))
    (fun c => (MkChain (in_app c) true (failures c) (log c ++ [TxOptInAsset]), Ok tt))
    (fun c => (c, Ok 1000000))
    (fun p c => (add (TxBuy p) c, Ok tt))
    (fun h c => match failures c with
                | O => (add (TxRegister h) c, Ok tt)
                | S n => (MkChain (in_app c) (in_asset c) n (log c), Err (Retryable "timeout"))
                end).

#[export] Instance ops_log : RegistrationLog ops log.
Proof.
  split; try done; try by left. intros h w. cbn. destruct (failures w); [by left|by right].
Qed.
End FlakyChain.

Lemma registration_spends_witness :
  spent_ok FlakyChain.log "bob" [] (Ok tt)
    (FlakyChain.MkChain true true 0 [TxOptInApp; TxBuy 1000000; TxRegister "bob"]).
Proof.
  refine (proj2 (registration_spends FlakyChain.ops FlakyChain.log (RegistrationLog0 := FlakyChain.ops_log) "bob"
    (FlakyChain.MkChain false true 0 []) _ _ _)). reflexivity.
Defined.

(** A retry after a failed registration pays again: the opt-ins are skipped the
    second time, the purchase is not. *)
Theorem retry_buys_again :
  let c0 := FlakyChain.MkChain false false 1 [] in
  let '(c1, r1) := run_registration FlakyChain.ops "bob" c0 in
  let '(c2, r2) := run_registration FlakyChain.ops "bob" c1 in
  r1 = Err (Retryable "timeout") /\ r2 = Ok tt /\
  FlakyChain.log c2
  = [TxOptInApp; TxOptInAsset; TxBuy 1000000; TxBuy 1000000; TxRegister "bob"].
Proof. done. Qed.

(** ** What a status says *)

(** [registered address app handle]: the chain has the handle of the account in the
    app's local state, once and for all. *)
Class ChainTruth (W : Type) `{LocalWorld W} (A : algo) (registered : string -> Z -> string -> Prop)
  : Prop := {
  truth_handle app a w h :
    (chain_handle_for_address app a w).2 = Ok (Some h) -> registered a app h;
  truth_register pass app asset h w id :
    (tx_register pass app asset h w).2 = Ok tt -> address_from_passphrase A pass = Ok id ->
    registered id app h;
  truth_fresh w : address_from_passphrase A (passphrase (fresh_keypair w).2) = Ok (key_id (fresh_keypair w).2)
}.

Section Status.
Context {W : Type} `{LocalWorld W} (A : algo) (registered : string -> Z -> string -> Prop).
Context `{!ChainTruth W A registered}.

(** What is remembered of a handle holds for the account in use. *)
Definition known (k : option Keypair) (app : Z) (h : string) : Prop :=
  exists kp, k = Some kp /\ registered (key_id kp) app h.

Definition status_sound (k : option Keypair) (app : Z) (s : KeypairStatus) : Prop :=
  (status s = "ACTIVE"%string -> is_Some (status_handle s)) /\
  (forall h, status_handle s = Some h -> 0 < app -> known k app h).

Record acct_ok (s : LocalState) : Prop := {
  ok_keypair kp : keypair (acct s) = Some kp \/ recovery_keypair (acct s) = Some kp ->
    address_from_passphrase A (passphrase kp) = Ok (key_id kp);
  ok_ops p : algo_ops (acct s) = Some p ->
    exists kp, keypair (acct s) = Some kp /\ p = passphrase kp;
  ok_memo h app kp : own_handle (acct s) = Some h -> own_handle_app_id (acct s) = Some app -> 0 < app ->
    keypair (acct s) = Some kp -> registered (key_id kp) app h;
  ok_last x : last_status (acct s) = Some x -> status_sound (keypair (acct s)) (cfg_app_id (config s)) x
}.

(** The invariant, with the configuration and the key pair of the moment. *)
Definition J (c : LocalApiConfig) (k : option Keypair) (sw : LocalState * W) : Prop :=
  acct_ok sw.1 /\ config sw.1 = c /\ keypair (acct sw.1) = k.

Lemma outside_J {B} c k (f : W -> W * B) : keeps (J c k) (outside f).
Proof using. intros [s w] Hs. unfold outside. by destruct (f w). Qed.

Lemma outside_result {B} c k (f : W -> W * B) :
  triple (J c k) (outside f) (fun b sw => J c k sw /\ exists w, b = (f w).2).
Proof using.
  intros [s w] Hs. unfold outside. destruct (f w) as [w' b] eqn:E. split; [done|]. exists w. by rewrite E.
Qed.

Lemma get_algo_ops_J c k :
  triple (J c k) get_algo_ops (fun r sw => J c k sw /\
    forall p, r = Ok p -> exists kp, k = Some kp /\ p = passphrase kp).
Proof using.
  intros [s w] (Hok & <- & <-). unfold get_algo_ops, mbind, ST_bind, get_state. cbn [fst].
  destruct (algo_ops (acct s)) as [ops|] eqn:Eo.
  { split; [done|]. intros p [= <-]. by apply (ok_ops s Hok). }
  destruct (keypair (acct s)) as [kp|] eqn:Ek; [|by split].
  split; [|intros p [= <-]; by exists kp]. split_and!; [|done|done].
  split; cbn; [apply Hok|intros p [= <-]; by exists kp|apply Hok|apply Hok].
Qed.

Lemma get_algo_ops_keeps c k : keeps (J c k) get_algo_ops.
Proof using. eapply triple_conseq; [apply get_algo_ops_J|done|]. by intros a s [? _]. Qed.

(** A fresh status without a handle says nothing that could be wrong. *)
Lemma handleless_sound k app x req id :
  x <> "ACTIVE"%string -> status_sound k app (fresh_status x id None req).
Proof using. by split. Qed.

Lemma resolve_sound pass a app asset fb w f :
  (resolve_account_status pass a app asset fb w).2 = Ok f ->
  f_address f = a /\ (forall h, f_handle f = Some h -> 0 < app -> registered a app h).
Proof using All.
  unfold resolve_account_status, st_try, mbind, ST_bind, mret, ST_ret.
  destruct (if 0 <? asset then _ else _) as [r w1] eqn:E1. 
  destruct w1 as [has|e]; [|done].
  destruct (has && (0 <? app)) eqn:Eh.
  - destruct (chain_handle_for_address app a r) as [w2 [ho|e]] eqn:E2; [|done].
    assert (forall h, ho = Some h -> registered a app h) as Ht.
    { intros h ->. apply (truth_handle app a r). by rewrite E2. }
    destruct (has && bool_decide (is_Some ho)); [intros [= <-]; by cbn; eauto|].
    destruct (chain_balance pass w2) as [w3 [b|e]]; [|done].
    destruct (chain_required_funding w3) as [w4 t]. intros [= <-]. cbn. eauto.
  - destruct (has && bool_decide _); [intros [= <-]; by cbn|].
    destruct (chain_balance pass r) as [w3 [b|e]]; [|done].
    destruct (chain_required_funding w3) as [w4 t]. intros [= <-]. by cbn.
Qed.

Lemma facts_sound kp app f :
  f_address f = key_id kp -> (forall h, f_handle f = Some h -> 0 < app -> registered (key_id kp) app h) ->
  status_sound (Some kp) app
    (keypair_status_from_facts (f_address f) (f_has_asset f) (f_handle f) (f_balance f) (f_required_funding f)).
Proof using.
  intros Ha Hh. unfold keypair_status_from_facts.
  destruct (f_has_asset f && bool_decide (is_Some (f_handle f))) eqn:E.
  - apply andb_true_iff in E as [_ E%bool_decide_eq_true_1]. split; [done|].
    intros h Hs Hp. exists kp. eauto.
  - destruct (_ <=? _); by apply handleless_sound.
Qed.

Lemma cache_status_J c kp x :
  status_sound (Some kp) (cfg_app_id c) x ->
  triple (J c (Some kp)) (cache_status x) (fun _ => J c (Some kp)).
Proof using.
  intros Hx [s w] (Hok & <- & Hk). cbn [fst] in *. unfold cache_status, mbind, ST_bind, get_state. cbn [fst].
  destruct (status_handle x) as [h|] eqn:Eh; cbn; (split_and!; [|done|done]);
    split; cbn; try apply Hok; try (intros ? [= <-]; by rewrite Hk).
  intros h' app kp' [= <-] [= <-] Hp. rewrite Hk. intros [= <-].
  destruct Hx as [_ Hx]. by destruct (Hx h Eh Hp) as (kp' & [= <-] & Hr).
Qed.

Lemma status_or_last_known_sound k app err cached x :
  (forall y, cached = Some y -> status_sound k app y) ->
  status_or_last_known err cached = Ok x -> status_sound k app x.
Proof using.
  intros Hc. unfold status_or_last_known. destruct (algo_host_unreachable err); [|done].
  destruct cached as [y|]; [|done]. intros [= <-]. by apply (Hc y).
Qed.

(** The results a status computation may have. *)
Definition sound_result (c : LocalApiConfig) (k : option Keypair)
    (r : result KeypairStatus BingleError) (sw : LocalState * W) : Prop :=
  J c k sw /\ forall x, r = Ok x -> status_sound k (cfg_app_id c) x.

Lemma sound_ret c k x : status_sound k (cfg_app_id c) x -> triple (J c k) (mret (Ok x)) (sound_result c k).
Proof using. intros Hx sw Hs. split; [done|]. by intros y [= <-]. Qed.

(** Reading the state: its configuration and key pair are those of the invariant. *)
Lemma get_state_J {B} c k (m : LocalState -> L B) Q :
  (forall s, acct_ok s -> config s = c -> keypair (acct s) = k -> triple (J c k) (m s) Q) ->
  triple (J c k) (get_state ≫= m) Q.
Proof using. intros Hm [s w] (Hok & Hc & Hk). by apply (Hm s Hok Hc Hk). Qed.

Lemma memo_status_sound c kp h :
  (0 < cfg_app_id c -> registered (key_id kp) (cfg_app_id c) h) ->
  triple (J c (Some kp)) (memo_status (key_id kp) h) (sound_result c (Some kp)).
Proof using.
  intros Hr. apply get_state_J. intros s _ -> _. cbn zeta.
  set (active := mret (Ok (fresh_status "ACTIVE" (Some (key_id kp)) (Some h) None)) : L (W := W) _).
  assert (triple (J c (Some kp)) active (sound_result c (Some kp))) as Hact.
  { apply sound_ret. split; [done|]. intros h' [= <-] Hp. exists kp. eauto. }
  destruct (_ && _); [|exact Hact].
  eapply triple_bind; [apply get_algo_ops_keeps|]. intros [p|e]; [|exact Hact].
  eapply triple_bind; [apply outside_J|]. intros [[succ|]|e]; [| |exact Hact].
  - apply sound_ret. by apply handleless_sound.
  - apply (triple_bind _ _ _ (fun _ => J c (Some kp))); [|intros _; exact Hact]. intros [s' w] (Hok & Hc & Hk).
    split_and!; [|done|done]. split; apply Hok.
Qed.

Lemma account_status_sound c kp pass asset :
  triple (J c (Some kp)) (account_status_from_chain pass (key_id kp) (cfg_app_id c) asset)
    (sound_result c (Some kp)).
Proof using All.
  unfold account_status_from_chain. eapply triple_try; [apply outside_result| |].
  - intros f. apply triple_ret. intros sw [Hs [w E]]. split; [done|]. intros x [= <-].
    symmetry in E. apply resolve_sound in E as [Ha Hh]. by apply facts_sound.
  - intros e sw [Hs _]. by split.
Qed.

Lemma fallback_sound c k e : triple (J c k) (fallback_status e) (sound_result c k).
Proof using.
  apply get_state_J. intros s Hok Hc Hk. apply triple_ret. intros sw Hs. split; [done|]. intros x.
  apply status_or_last_known_sound. rewrite <- Hk, <- Hc. apply (ok_last s Hok).
Qed.

Lemma chain_status_sound c kp :
  triple (J c (Some kp)) (chain_status (key_id kp)) (sound_result c (Some kp)).
Proof using All.
  apply get_state_J. intros s _ -> _. cbn zeta.
  eapply (triple_bind _ _ _ (fun _ => J c (Some kp))).
  { destruct (0 <? _); [|by intros sw Hs]. eapply triple_bind; [apply get_algo_ops_keeps|].
    intros [p|e]; [|by intros sw Hs]. eapply triple_bind; [apply outside_J|]. by intros succ sw Hs. }
  intros []; [apply sound_ret; by apply handleless_sound|].
  eapply triple_try; [apply get_algo_ops_keeps| |by intros e sw Hs].
  intros pass. eapply triple_bind; [apply account_status_sound|]. intros [x|e].
  - intros sw [Hs Hx]. specialize (Hx x eq_refl). revert sw Hs.
    apply (triple_bind _ _ _ (fun _ => J c (Some kp))); [by apply cache_status_J|].
    intros _. by apply sound_ret.
  - eapply triple_conseq; [apply fallback_sound|by intros sw [Hs _]|done].
Qed.

Lemma keypair_status_sound c k : triple (J c k) keypair_status (sound_result c k).
Proof using All.
  apply get_state_J. intros s Hok Hc Hk. rewrite Hk.
  destruct k as [kp|]; [|apply sound_ret; by apply handleless_sound].
  destruct (memo_valid s) as [h|] eqn:Em; [apply memo_status_sound|apply chain_status_sound].
  intros Hp. unfold memo_valid in Em. destruct (own_handle (acct s)) as [h'|] eqn:Eo; [|done].
  rewrite Hc in Em.
  destruct (_ || _) eqn:Ec; simplify_eq. apply orb_true_iff in Ec as [Ec|Ec%bool_decide_eq_true_1].
  - lia.
  - by apply (ok_memo s Hok h _ kp Eo Ec Hp).
Qed.

(** ** Operations on the account *)

Inductive acct_op : Type :=
| OpGenerate | OpImport (pass : string) | OpBeginRecovery | OpCompleteRecovery
| OpStatus | OpRegister (handle : string) | OpOps.

Definition run_op (o : acct_op) : L (W := W) unit :=
  match o with
  | OpGenerate => _ ← generate_keypair; mret tt
  | OpImport pass => _ ← import_keypair A pass; mret tt
  | OpBeginRecovery => _ ← begin_recovery_keypair; mret tt
  | OpCompleteRecovery => _ ← complete_recovery_keypair A; mret tt
  | OpStatus => _ ← keypair_status; mret tt
  | OpRegister h => _ ← register_keypair h; mret tt
  | OpOps => _ ← get_algo_ops; mret tt
  end.

Fixpoint run_ops (ops : list acct_op) : L (W := W) unit :=
  match ops with [] => mret tt | o :: ops => _ ← run_op o; run_ops ops end.

Definition I (c : LocalApiConfig) (sw : LocalState * W) : Prop := acct_ok sw.1 /\ config sw.1 = c.

Lemma keeps_J_I {B} (m : L B) c : (forall k, keeps (J c k) m) -> keeps (I c) m.
Proof using. intros Hm sw [Hs Hc]. destruct (Hm (keypair (acct sw.1)) sw) as (? & ? & ?); by split. Qed.

Lemma get_state_I {B} c (m : LocalState -> L B) :
  (forall s, keeps (I c) (m s)) -> keeps (I c) (get_state ≫= m).
Proof using. intros Hm [s w] Hs. by apply (Hm s). Qed.

(** A consistent key pair may be installed; the recovery pair stays or goes. *)
Lemma install_ok kp s :
  address_from_passphrase A (passphrase kp) = Ok (key_id kp) -> acct_ok s ->
  acct_ok (on_acct (install_keypair kp) s).
Proof using.
  intros Hkp Hok. split; cbn; try done. intros kp' [[= <-]|Hr]; [done|]. apply (ok_keypair s Hok). by right.
Qed.

Lemma import_I c pass : keeps (I c) (import_keypair A pass).
Proof using.
  unfold import_keypair. destruct (address_from_passphrase A pass) as [id|e] eqn:E; [|by intros sw Hs].
  intros [s w] [Hs Hc]. split; [|done]. by apply install_ok.
Qed.

(** A registration that succeeded ended with the transaction that registers. *)
Lemma run_registration_ok {W'} (ops : RegistrationOps W') h w w' :
  run_registration ops h w = (w', Ok tt) -> exists w1, (ro_register ops h w1).2 = Ok tt.
Proof using.
  intros E.
  assert (triple (fun _ => True) (run_registration ops h)
    (fun r _ => r = Ok tt -> exists w1, (ro_register ops h w1).2 = Ok tt)) as Ht.
  { unfold run_registration. repeat (eapply triple_try with (R := fun _ _ => True);
      [done| |by intros]; intros ?). destruct (other_owner _ _); [by intros w1 _|].
    repeat (eapply triple_try with (R := fun _ _ => True); [done| |by intros]; intros ?).
    intros w1 _ Hr. by exists w1. }
  specialize (Ht w Logic.I). rewrite E in Ht. by apply Ht.
Qed.

Lemma register_I c h : keeps (I c) (register_keypair h).
Proof using All.
  apply keeps_J_I. intros k. apply get_state_J. intros s _ -> _. cbn zeta.
  destruct (_ =? 0); [by intros sw Hs|]. destruct (_ =? 0); [by intros sw Hs|].
  eapply triple_try; [apply get_algo_ops_J| |by intros e sw [Hs _]].
  intros pass. eapply (triple_try _ _ _ (fun r sw => J c k sw /\
    (r = Ok tt -> exists kp, k = Some kp /\ registered (key_id kp) (cfg_app_id c) h))).
  - intros [s' w] [(Hok & Hc & Hk) Hp]. destruct (Hp pass eq_refl) as (kp & -> & ->). cbn [fst] in *.
    unfold outside. destruct (run_registration _ h w) as [w' r] eqn:Er. split; [done|]. cbn. intros ->.
    apply run_registration_ok in Er as [w1 Er]. exists kp. split; [done|].
    eapply truth_register; [exact Er|]. apply (ok_keypair s' Hok). by left.
  - intros [] [s' w] [(Hok & Hc & Hk) Hp]. destruct (Hp eq_refl) as (kp & -> & Hr).
    split_and!; [|done|done]. split; cbn; try apply Hok. intros h' app kp' [= <-] [= <-] _.
    intros Hk'. change (keypair (acct s') = Some kp') in Hk'. cbn in Hk. congruence.
  - by intros e sw [Hs _].
Qed.

Lemma run_op_I c o : keeps (I c) (run_op o).
Proof using All.
  destruct o; cbn [run_op]; (apply keeps_bind; [|by intros _ sw Hs]).
  - intros [s w] [Hs Hc]. pose proof (truth_fresh (A := A) w) as Hf.
    unfold generate_keypair, mbind, ST_bind, outside. destruct (fresh_keypair w) as [w' kp].
    split; [|done]. by apply install_ok.
  - apply import_I.
  - intros [s w] [Hs Hc]. pose proof (truth_fresh (A := A) w) as Hf.
    unfold begin_recovery_keypair, mbind, ST_bind, outside, get_state.
    destruct (keypair (acct s)) eqn:Ek, (recovery_keypair (acct s)) eqn:Er; try done.
    destruct (fresh_keypair w) as [w' kp]. split; [|done]. cbn [fst snd] in *.
    split; cbn; try apply Hs. intros kp' [Hk|[= <-]]; [|done]. apply (ok_keypair s Hs). by left.
  - apply get_state_I. intros s. destruct (recovery_keypair (acct s)) as [kp|]; [|by intros sw Hs].
    apply keeps_try; [apply import_I|].
    intros kp' [s' w'] [Hs' Hc']. split; [|done]. split; cbn; try apply Hs'.
    intros kp2 [Hk|]; [|done]. apply (ok_keypair s' Hs'). by left.
  - apply keeps_J_I. intros k. eapply triple_conseq; [apply keypair_status_sound|done|]. by intros r sw [Hs _].
  - apply register_I.
  - apply keeps_J_I. intros k. apply get_algo_ops_keeps.
Qed.

Lemma run_ops_I c ops : keeps (I c) (run_ops ops).
Proof using All.
  induction ops as [|o ops IH]; cbn [run_ops]; [by intros sw Hs|].
  apply keeps_bind; [apply run_op_I|by intros _].
Qed.

(** A client says ACTIVE only of a registered account: after any sequence of
    generating, importing, recovering and registering key pairs and of status reads,
    whatever the chain answers, a status with a handle (and ACTIVE has one), fresh,
    memoized or repeated during an outage, names a handle that is registered for the
    key pair in use under the app the client is configured for. *)
Theorem active_means_registered c ops w s' w' s'' w'' x :
  run_ops ops (LocalState_new c, w) = ((s', w'), tt) ->
  keypair_status (s', w') = ((s'', w''), Ok x) -> 0 < cfg_app_id c ->
  (status x = "ACTIVE"%string -> is_Some (status_handle x)) /\
  (forall h, status_handle x = Some h ->
     exists kp, keypair (acct s'') = Some kp /\ registered (key_id kp) (cfg_app_id c) h).
Proof using All.
  intros Hrun Hst Hpos.
  assert (I c (LocalState_new c, w)) as H0.
  { split; [|done]. split; cbn; try done. by intros kp [|]. }
  pose proof (triple_run _ _ _ _ _ _ (run_ops_I c ops) H0 Hrun) as [Hok Hc].
  destruct (triple_run _ _ _ _ _ _ (keypair_status_sound c (keypair (acct s'))) ltac:(done) Hst)
    as [(_ & _ & Hk) Hx]. destruct (Hx x eq_refl) as [Ha Hh]. split; [done|].
  intros h E. cbn [fst] in Hk. rewrite Hk. by apply Hh.
Qed.
End Status.

(** ** A small world

    An account's address is its passphrase and its handle is its address; the handle
    ["nobody"] has no account.  The mailbox node answers while [w_up]; a submitted pop
    takes the head of [w_queue].. *)
Module SmallClient.

Record world : Type := MkWorld {
  w_time : Z;
  w_up : bool;
  w_sent : list TransactionRequest;
  w_queue : list (list Z);
  w_result : list Z;
  w_alerts : list AlertRequest;
  w_popped : list (list Z)
}.

Definition fresh_world (up : bool) (queue : list (list Z)) : world := MkWorld 1000 up [] queue [] [] [].

Definition tick (w : world) : world :=
  MkWorld (w_time w + 1) (w_up w) (w_sent w) (w_queue w) (w_result w) (w_alerts w) (w_popped w).

Definition node : DiscoveredNode := MkDiscoveredNode "n" (Some "https://n"%string).

Definition submit (rq : TransactionRequest) (w : world) : world :=
  if txn_type rq =? MAILBOX_POP_TYPE
  then MkWorld (w_time w) (w_up w) (w_sent w ++ [rq]) (tail (w_queue w))
         (default [] (head (w_queue w))) (w_alerts w) (w_popped w)
  else MkWorld (w_time w) (w_up w) (w_sent w ++ [rq]) (w_queue w) [] (w_alerts w) (w_popped w).

#[export] Instance client_sidewinder : Sidewinder world := {|
  instant w := (w, w_time w);
  sleep_ms ms w := MkWorld (w_time w + ms) (w_up w) (w_sent w) (w_queue w) (w_result w) (w_alerts w) (w_popped w);
  unique_note w := (w, Z.of_nat (length (w_sent w)));
  resolve_nodes _ w := (w, Ok [node]);
  connect _ w := (w, Ok tt);
  params _ w := (tick w, if w_up w then Ok (MkSuggestedParams 1000 7 100 "i")
                         else Err SmallWorld.unreachable_error);
  submit_transaction _ rq w := (submit rq w, Ok "tx"%string);
  watch _ _ w := (tick w, Ok (MkPendingTransaction StageFinal None (Some (w_result w))))
|}.

Definition with_alert (a : AlertRequest) (w : world) : world :=
  MkWorld (w_time w) (w_up w) (w_sent w) (w_queue w) (w_result w) (w_alerts w ++ [a]) (w_popped w).

#[export] Instance client_world : LocalWorld world := {|
  epoch_ms w := (tick w, Some (w_time w));
  epoch_nanos w := (w, w_time w);
  random_bytes n w := (tick w, Some (to_be_bytes n (w_time w)));
  seal_random w := (tick w, (w_time w, to_be_bytes 16 (w_time w)));
  fresh_keypair w := (tick w, MkKeypair "fresh" "fresh");
  address_str p w := (w, Ok p);
  chain_handle_lookup h w := (w, Ok (if decide (h = "nobody"%string) then None else Some h));
  chain_handle_for_address _ a w := (w, Ok (Some a));
  chain_successor_app _ w := (w, Ok None);
  chain_opted_in_asset _ _ w := (w, Ok true);
  chain_opted_in_app _ _ w := (w, Ok true);
  chain_balance _ w := (w, Ok (Some 2000000));
  chain_required_funding w := (w, Ok 1000000);
  chain_bingle_price _ w := (w, Ok 1000000);
  tx_opt_in_app _ _ w := (w, Ok tt);
  tx_opt_in_asset _ _ w := (w, Ok tt);
  tx_buy_bingle _ _ _ _ w := (w, Ok tt);
  tx_register p _ _ h w := (w, if decide (h = p) then Ok tt else Err (Other "not yours"));
  tx_migrate _ _ w := (w, Ok None);
  post_alert _ a w := with_alert a w;
  post_register _ _ w := (w, Ok true)
|}.

Definition client_algo : algo :=
  MkAlgo (fun p => Ok p) (fun p => Ok (as_bytes p))
    (fun a => Ok (to_be_bytes 32 (from_be_bytes (as_bytes a))))
    (fun b => Some (string_of_bytes (filter (fun z => z <> 0) b)))
    (fun _ _ _ _ _ _ _ _ => Ok "sig"%string) string_of_bytes string_of_bytes.

#[export] Instance client_truth : ChainTruth world client_algo (fun a _ h => a = h).
Proof.
  split; cbn.
  - by intros app a w h [= <-].
  - intros pass app asset h w id. case_decide; [|done]. intros _ [= <-]. done.
  - done.
Qed.

(** Store-and-forward on, both ways. *)
Definition client_config : LocalApiConfig :=
  MkConfig 5 6 true (Some "https://notify"%string) "sandbox" (Some (MkMailboxConfig 5 1 2 20)) true true.
End SmallClient.

Existing Instances SmallClient.client_sidewinder SmallClient.client_world SmallClient.client_truth.

Lemma active_means_registered_witness :
  let ops := [OpImport "bob"; OpRegister "bob"; OpGenerate; OpImport "bob"]%string in
  let c := SmallClient.client_config in
  let w := SmallClient.fresh_world true [] in
  let s1 := (run_ops SmallClient.client_algo ops (LocalState_new c, w)).1 in
  exists s2 x, keypair_status s1 = (s2, Ok x) /\ status x = "ACTIVE"%string /\
    (exists kp, keypair (acct s2.1) = Some kp /\ key_id kp = "bob"%string).
Proof.
  intros ops c w s1.
  pose (r := keypair_status s1).
  exists r.1, (fresh_status "ACTIVE" (Some "bob"%string) (Some "bob"%string) None).
  split; [vm_compute; reflexivity|]. split; [reflexivity|].
  refine (proj2 (active_means_registered SmallClient.client_algo (fun a _ h => a = h) c ops w
    s1.1 s1.2 r.1.1 r.1.2 (fresh_status "ACTIVE" (Some "bob"%string) (Some "bob"%string) None)
    _ _ _) "bob"%string eq_refl); vm_compute; reflexivity.
Defined.
