(* ===== verification/LocalStore.v ===== *)
(** * Contacts and messages of the local client

    Models, of [src/bingle_local/src/api/]: contacts, received and queued messages,
    status updates, saving and loading ([bingle_local_api_impl.rs]), and
    store-and-forward: posting a message whose delivery failed to the recipients'
    mailboxes and reading one's own ([bingle_local_api_impl/store_and_forward.rs]).

    The mailbox is used through [MailboxClient]; the primitives of the envelope and
    [algo_ops] are parameters.  The state file is a record: what the JSON of the
    source carries, field by field. *)
From S2P Require Import Prelude LocalTypes SendRetry Mailbox Account.
From S2P Require Import Envelope Api.
Import Account LocalTypes.

Local Open Scope Z_scope.

(** ** Text that is empty after trimming *)

(** The characters with the Unicode property White_Space, as UTF-8. *)
Fixpoint blank_bytes (l : list Z) : bool :=
  match l with
  | [] => true
  | b :: l1 =>
      if within 9 13 b || (b =? 32) then blank_bytes l1
      else match l1 with
      | [] => false
      | c :: l2 =>
          if b =? 194 then ((c =? 133) || (c =? 160)) && blank_bytes l2
          else match l2 with
          | [] => false
          | d :: l3 =>
              (((b =? 225) && (c =? 154) && (d =? 128))
               || ((b =? 226) && (c =? 128) && (within 128 138 d || (d =? 168) || (d =? 169) || (d =? 175)))
               || ((b =? 226) && (c =? 129) && (d =? 159))
               || ((b =? 227) && (c =? 128) && (d =? 128))) && blank_bytes l3
          end
      end
  end.

(** [s.trim().is_empty()] *)
Definition is_blank (s : string) : bool := blank_bytes (as_bytes s).

(** ** Setters *)

Definition set_contacts (c : gmap string (string * ContactSource * bool)) (s : store) : store :=
  MkStore c (messages s) (nudged_messages s) (forwarded_messages s) (refused_forwards s)
    (mailbox_identity_refused_at s) (mailbox_identity_refusal_reason s).
Definition set_messages (m : list Message) (s : store) : store :=
  MkStore (contacts s) m (nudged_messages s) (forwarded_messages s) (refused_forwards s)
    (mailbox_identity_refused_at s) (mailbox_identity_refusal_reason s).
Definition set_nudged (n : gset string) (s : store) : store :=
  MkStore (contacts s) (messages s) n (forwarded_messages s) (refused_forwards s)
    (mailbox_identity_refused_at s) (mailbox_identity_refusal_reason s).
Definition set_forwarded (f : gset (string * string)) (s : store) : store :=
  MkStore (contacts s) (messages s) (nudged_messages s) f (refused_forwards s)
    (mailbox_identity_refused_at s) (mailbox_identity_refusal_reason s).
Definition set_refused (r : gmap (string * string) string) (s : store) : store :=
  MkStore (contacts s) (messages s) (nudged_messages s) (forwarded_messages s) r
    (mailbox_identity_refused_at s) (mailbox_identity_refusal_reason s).
Definition set_identity_refused (at_ : option Z) (reason : option string) (s : store) : store :=
  MkStore (contacts s) (messages s) (nudged_messages s) (forwarded_messages s) (refused_forwards s)
    at_ reason.

Definition other_error (text : string) : BingleError := Other text.

(** ** Contacts, as operations on the store *)

Definition add_contact (handle id : string) (source : ContactSource) (s : store)
  : store * result unit BingleError :=
  if is_blank handle then (s, Err (Other "handle cannot be empty"))
  else if is_blank id then (s, Err (Other "id cannot be empty"))
  else match contacts s !! id with
  | Some _ => (s, Err (Other "contact already exists"))
  | None => (set_contacts (<[id := (handle, source, false)]> (contacts s)) s, Ok tt)
  end.

Definition set_contact_blocked (id : string) (blocked : bool) (s : store)
  : store * result unit BingleError :=
  if is_blank id then (s, Err (Other "id cannot be empty"))
  else match contacts s !! id with
  | Some (handle, source, _) =>
      (set_contacts (<[id := (handle, source, blocked)]> (contacts s)) s, Ok tt)
  | None => (s, Err (Other "contact not found"))
  end.

Definition block_contact (id : string) := set_contact_blocked id true.
Definition unblock_contact (id : string) := set_contact_blocked id false.

Definition remove_contact (id : string) (s : store) : store * result unit BingleError :=
  if is_blank id then (s, Err (Other "id cannot be empty"))
  else match contacts s !! id with
  | Some _ => (set_contacts (base.delete id (contacts s)) s, Ok tt)
  | None => (s, Err (Other "contact not found"))
  end.

Definition is_blocked (id : string) (s : store) : result bool BingleError :=
  if is_blank id then Err (Other "id cannot be empty")
  else Ok (match contacts s !! id with Some (_, _, b) => b | None => false end).

Definition contacts_with_blocked (blocked : bool) (s : store) : list Contact :=
  (fun '(id, (handle, _, _)) => MkContact handle id)
    <$> filter (fun '(_, (_, _, flag)) => flag = blocked) (map_to_list (contacts s)).

Definition get_contacts (s : store) : list Contact := contacts_with_blocked false s.
Definition get_blocked_contacts (s : store) : list Contact := contacts_with_blocked true s.

Definition is_mailbox_sender_blocked (sender_address : option string) (s : store) : bool :=
  match sender_address with
  | Some addr => match is_blocked addr s with Ok true => true | _ => false end
  | None => false
  end.

(** ** Messages held *)

Definition holds_received_copy (ms : list Message) (sender : string) (sent : option Z) (txt : string)
  : bool :=
  match sent with
  | None => false
  | Some t =>
      existsb (fun m => bool_decide (sent_time m = Some t) && bool_decide (sender_handle m = sender)
                        && bool_decide (text m = txt)) (rev ms)
  end.

(** [iter_mut().find]: the first message with the id. *)
Fixpoint update_first (id : string) (f : Message -> Message) (ms : list Message) : list Message :=
  match ms with
  | [] => []
  | m :: ms => if decide (msg_id m = id) then f m :: ms else m :: update_first id f ms
  end.

Definition find_message (id : string) (ms : list Message) : option Message :=
  find (fun m => bool_decide (msg_id m = id)) ms.

Definition get_pending_messages (s : store) : list Message :=
  filter (fun m => is_pending m = true) (messages s).

Definition get_messages (s : store) : list Message := sort_by older (messages s).

Definition any_recipient_forwarded (id : string) (s : store) : bool :=
  existsb (fun p => bool_decide (p.1 = id)) (elements (forwarded_messages s)).

Definition record_mailbox_message (m : Message) (s : store) : store * bool :=
  if holds_received_copy (messages s) (sender_handle m) (sent_time m) (text m) then (s, false)
  else (set_messages (messages s ++ [m]) s, true).

(** The changes of [update_message_status] to the message itself. *)
Definition with_status (p : Z) (reason : option string) (kind : option SendFailureKind)
    (route : option DeliveryRoute) (m : Message) : Message :=
  let replace := bool_decide (is_Some reason) || (100 <=? p) in
  MkMessage (msg_id m) (sender_handle m) (recipient_handles m) (timestamp m) (text m)
    (cipher_suite m) (Some p)
    (if replace then reason else failure_reason m) (if replace then kind else failure_kind m)
    (sent_time m) (delivered_time m) (signature m) route
    (match route with Some _ => None | None => store_and_forward_failure m end).

Inductive ForwardOutcome : Type :=
| ForwardDisabled
| Forwarded
| NotForwarded (reason : string).

(** The changes of [apply_forward_outcome] to the message. *)
Definition with_outcome (o : ForwardOutcome) (m : Message) : Message :=
  match o with
  | Forwarded =>
      MkMessage (msg_id m) (sender_handle m) (recipient_handles m) (timestamp m) (text m)
        (cipher_suite m) (Some 100) None None (sent_time m) (delivered_time m) (signature m)
        (Some StoreAndForward) None
  | ForwardDisabled | NotForwarded _ =>
      MkMessage (msg_id m) (sender_handle m) (recipient_handles m) (timestamp m) (text m)
        (cipher_suite m) (progress m) (failure_reason m) (failure_kind m) (sent_time m)
        (delivered_time m) (signature m) (delivery_route m)
        (match o with NotForwarded r => Some r | _ => None end)
  end.

Definition refused_note (handle reason : string) : string :=
  "the Mailbox node refused the post to '" +:+ handle +:+ "' (" +:+ reason +:+ ")".

Definition identity_refusal_note (s : store) : string :=
  match mailbox_identity_refusal_reason s with
  | Some reason => "the Mailbox node refused this account (" +:+ reason +:+ ")"
  | None => "the Mailbox node refused this account"
  end.

Definition join_notes (notes : list string) : string := String.concat "; " notes.

(** The recipients not refused this session, and a note for each refused one. *)
Fixpoint split_refused (id : string) (refused : gmap (string * string) string) (hs : list string)
  : list string * list string :=
  match hs with
  | [] => ([], [])
  | h :: hs =>
      let '(pending, notes) := split_refused id refused hs in
      match refused !! (id, h) with
      | Some reason => (pending, refused_note h reason :: notes)
      | None => (h :: pending, notes)
      end
  end.

(** ** The state file *)

(** An entry of the posted set; older files name the message by its time. *)
Record ForwardedEntry : Type := MkForwardedEntry {
  fe_message_id : option string;
  fe_timestamp : option Z;
  fe_handle : string
}.

Record SavedState : Type := MkSavedState {
  sv_keypair : option Keypair;
  sv_recovery_keypair : option Keypair;
  sv_contacts : list (string * (string * ContactSource * bool));
  sv_messages : list Message;
  sv_own_handle : option string;
  sv_own_handle_app_id : option Z;
  sv_forwarded : list ForwardedEntry
}.

Definition save (s : LocalState) : SavedState :=
  MkSavedState (keypair (acct s)) (recovery_keypair (acct s)) (map_to_list (contacts (st s)))
    (messages (st s)) (own_handle (acct s)) (own_handle_app_id (acct s))
    ((fun '(id, h) => MkForwardedEntry (Some id) None h) <$> elements (forwarded_messages (st s))).

Definition set_msg_id (id : string) (m : Message) : Message :=
  MkMessage id (sender_handle m) (recipient_handles m) (timestamp m) (text m) (cipher_suite m)
    (progress m) (failure_reason m) (failure_kind m) (sent_time m) (delivered_time m) (signature m)
    (delivery_route m) (store_and_forward_failure m).

Definition with_legacy_id (m : Message) : Message :=
  if decide (msg_id m = EmptyString) then set_msg_id (legacy_message_id (timestamp m)) m else m.

Definition forwarded_entry (e : ForwardedEntry) : option (string * string) :=
  match fe_message_id e, fe_timestamp e with
  | Some id, _ => Some (id, fe_handle e)
  | None, Some t => Some (legacy_message_id t, fe_handle e)
  | None, None => None
  end.

(** [map.clear()] and one [insert] per entry. *)
Definition load_contacts (l : list (string * (string * ContactSource * bool)))
  : gmap string (string * ContactSource * bool) :=
  foldl (fun m kv => <[kv.1 := kv.2]> m) ∅ l.

Definition load (f : SavedState) (s : LocalState) : LocalState :=
  MkLocalState
    (MkAccount (sv_keypair f) (sv_recovery_keypair f) None (sv_own_handle f) (sv_own_handle_app_id f)
       (live_app_confirmed (acct s)) None (last_network_check (acct s)))
    (MkStore (load_contacts (sv_contacts f)) (with_legacy_id <$> sv_messages f)
       (nudged_messages (st s)) (list_to_set (omap forwarded_entry (sv_forwarded f)))
       (refused_forwards (st s)) (mailbox_identity_refused_at (st s))
       (mailbox_identity_refusal_reason (st s)))
    (config s).

(** ** Settings *)

Definition set_store_and_forward (send receive : bool) (c : LocalApiConfig) : LocalApiConfig :=
  MkConfig (cfg_app_id c) (cfg_asset_id c) (notify_on_giveup c) (notify_gateway_url c) (notify_env c)
    (sidewinder c) send receive.

Definition set_notify (enabled : bool) (url : option string) (c : LocalApiConfig) : LocalApiConfig :=
  MkConfig (cfg_app_id c) (cfg_asset_id c) enabled url (notify_env c) (sidewinder c)
    (store_and_forward_send c) (store_and_forward_receive c).

Definition messaging_settings (c : LocalApiConfig) : MessagingSettings :=
  MkMessagingSettings (store_and_forward_send c) (store_and_forward_receive c) (notify_on_giveup c)
    (notify_gateway_url c).

(** ** Operations with effects *)

Section Operations.
Context {W SigningKey : Type} `{LocalWorld W} `{Sidewinder W} `{MailboxClient W}.
Context (A : algo) (P : primitives SigningKey).

Definition in_store {B} (f : store -> store * B) : L (W := W) B :=
  fun '(s, w) => let '(x, b) := f (st s) in ((on_store (fun _ => x) s, w), b).

Definition fresh_message_id : L (W := W) string :=
  r ← outside (random_bytes 16);
  n ← match r with Some _ => mret 0 | None => outside epoch_nanos end;
  mret (new_message_id r n).

(** The checks shared by stored and queued messages, without the sender. *)
Definition check_message (recipients : list string) (txt : string) : option BingleError :=
  match recipients with
  | [] => Some (Other "recipient_handles cannot be empty")
  | _ =>
      if existsb is_blank recipients
      then Some (Other "recipient_handles cannot contain empty handles")
      else if is_blank txt then Some (Other "text cannot be empty") else None
  end.

Definition store_live_message (sender : string) (recipients : list string) (at_ : Z) (txt : string)
    (suite : option string) (sent : option Z) (sig : option string)
  : L (W := W) (result (option string) BingleError) :=
  if is_blank sender then mret (Err (Other "sender_handle cannot be empty"))
  else match check_message recipients txt with
  | Some e => mret (Err e)
  | None =>
      id ← fresh_message_id;
      let m := MkMessage id sender recipients at_ txt suite (Some 100) None None sent None sig
                 (Some Direct) None in
      in_store (fun s =>
        if holds_received_copy (messages s) sender sent txt then (s, Ok None)
        else (set_messages (messages s ++ [m]) s, Ok (Some id)))
  end.

Definition add_message (sender : string) (recipients : list string) (at_ : Z) (txt : string)
    (suite : option string) : L (W := W) (result string BingleError) :=
  let* id := store_live_message sender recipients at_ txt suite None None in
  mret (ok_or id (Other "message treated as a duplicate")).

(** The JSON of a received message, as the fields that are read; [json] is its text. *)
Definition add_received_message (sender : string) (recipients : list string) (at_ : Z)
    (txt : option string) (json : string) (suite : option string) (sent : option Z)
    (sig : option string) : L (W := W) (result (option string) BingleError) :=
  store_live_message sender recipients at_ (default json txt) suite sent sig.

Definition queue_message (recipients : list string) (txt : string)
  : L (W := W) (result unit BingleError) :=
  let* sender := Account.sender_handle in
  match check_message recipients txt with
  | Some e => mret (Err e)
  | None =>
      now ← outside epoch_ms;
      match now with
      | None => mret (Err (Other "second time provided was later than self"))
      | Some t =>
          id ← fresh_message_id;
          let m := MkMessage id sender recipients t txt None (Some 0) None None None None None None None in
          _ ← update_store (fun s => set_messages (messages s ++ [m]) s);
          mret (Ok tt)
      end
  end.

(** ** Store-and-forward: posting *)

Definition mailbox_identity_refusal_holds : L (W := W) bool :=
  s ← get_state;
  now ← outside instant;
  mret (identity_refusal_holds (mailbox_identity_refused_at (st s)) now).

Definition note_mailbox_identity_refused (reason : string) : L (W := W) unit :=
  now ← outside instant;
  update_store (set_identity_refused (Some now) (Some reason)).

Definition get_mailbox : L (W := W) (result Mailbox BingleError) :=
  s ← get_state;
  match sidewinder (config s) with
  | None => mret (Err (Other "no sidewinder node configured for store-and-forward"))
  | Some cfg => let* _ := get_algo_ops in outside (open_mailbox cfg)
  end.

Definition seal_error_text (e : EnvelopeSealError) : string :=
  match e with
  | KeyConvert => "invalid recipient identity key"
  | SealHpke _ => "envelope seal failed"
  end.

Definition stage_text (s : Stage) : string :=
  match s with StageFinal => "Final" | StageOther _ n => n end.

(** One recipient of the loop: the notes so far, and whether to go on. *)
Definition forward_one (id : string) (private_key : list Z) (sent : Z) (txt h : string)
    (mb : Mailbox) (notes : list string) : L (W := W) (Mailbox * list string * bool) :=
  found ← outside (chain_handle_lookup h);
  match found with
  | Ok None => mret (mb, notes ++ ["no account for '" +:+ h +:+ "'"], true)
  | Err e => mret (mb, notes ++ ["could not look up '" +:+ h +:+ "' (" +:+ error_to_string e +:+ ")"], true)
  | Ok (Some address) =>
      match address_to_byte_key A address with
      | Err e => mret (mb, notes ++ ["invalid address for '" +:+ h +:+ "' (" +:+ e +:+ ")"], true)
      | Ok recipient_pub =>
          rnd ← outside seal_random;
          match seal_from_private_key P rnd.1 rnd.2 private_key recipient_pub sent txt with
          | Err e =>
              mret (mb, notes ++ ["could not seal the message for '" +:+ h +:+ "' ("
                                    +:+ seal_error_text e +:+ ")"], true)
          | Ok sealed =>
              posted ← outside (mailbox_post mb address sealed);
              let '(mb, r) := posted in
              match r with
              | Ok Posted =>
                  _ ← update_store (fun s => set_forwarded ({[(id, h)]} ∪ forwarded_messages s) s);
                  mret (mb, notes, true)
              | Ok (PostRefused stage reason) =>
                  let reason := stage_text stage +:+ ": " +:+ reason in
                  _ ← update_store (fun s => set_refused (<[(id, h) := reason]> (refused_forwards s)) s);
                  mret (mb, notes ++ [refused_note h reason], true)
              | Err e =>
                  match mb_identity_refusal mb with
                  | Some reason =>
                      _ ← note_mailbox_identity_refused reason;
                      s ← get_state;
                      mret (mb, notes ++ [identity_refusal_note (st s)], false)
                  | None =>
                      mret (mb, notes ++ ["Mailbox post to '" +:+ h +:+ "' failed ("
                                            +:+ error_to_string e +:+ ")"], true)
                  end
              end
          end
      end
  end.

Fixpoint forward_loop (id : string) (private_key : list Z) (sent : Z) (txt : string)
    (hs : list string) (mb : Mailbox) (notes : list string) : L (W := W) (list string) :=
  match hs with
  | [] => mret notes
  | h :: hs =>
      r ← forward_one id private_key sent txt h mb notes;
      let '(mb, notes, go_on) := r in
      if (go_on : bool) then forward_loop id private_key sent txt hs mb notes else mret notes
  end.

Definition forward_message_to_mailbox (id : string) (sent : Z) (recipients : list string) (txt : string)
  : L (W := W) ForwardOutcome :=
  s ← get_state;
  if negb (should_forward_send (store_and_forward_send (config s))
             (bool_decide (is_Some (sidewinder (config s)))))
  then mret ForwardDisabled
  else
    match pending_forward_recipients id recipients (forwarded_messages (st s)) with
    | [] => mret Forwarded
    | unposted =>
        held ← mailbox_identity_refusal_holds;
        if (held : bool) then mret (NotForwarded (identity_refusal_note (st s)))
        else
          let '(todo, notes) := split_refused id (refused_forwards (st s)) unposted in
          match todo with
          | [] => mret (NotForwarded (join_notes notes))
          | _ =>
              match keypair (acct s) with
              | None => mret (NotForwarded "no keypair to sign the post")
              | Some kp =>
                  match seed_from_passphrase A (passphrase kp) with
                  | Err e => mret (NotForwarded ("cannot derive the signing key (" +:+ e +:+ ")"))
                  | Ok private_key =>
                      ops ← get_algo_ops;
                      match ops with
                      | Err e => mret (NotForwarded ("no Algorand client (" +:+ error_to_string e +:+ ")"))
                      | Ok _ =>
                          opened ← get_mailbox;
                          match opened with
                          | Err e =>
                              mret (NotForwarded ("Mailbox unavailable (" +:+ error_to_string e +:+ ")"))
                          | Ok mb =>
                              notes ← forward_loop id private_key sent txt todo mb notes;
                              s ← get_state;
                              mret (if forallb (fun h => bool_decide ((id, h) ∈ forwarded_messages (st s)))
                                         recipients
                                    then Forwarded
                                    else match notes with
                                         | [] => NotForwarded "not every recipient was posted"
                                         | _ => NotForwarded (join_notes notes)
                                         end)
                          end
                      end
                  end
              end
          end
    end.

Definition apply_forward_outcome (id : string) (o : ForwardOutcome) : L (W := W) bool :=
  in_store (fun s =>
    match find_message id (messages s) with
    | None => (s, false)
    | Some _ =>
        (set_messages (update_first id (with_outcome o) (messages s)) s,
         match o with Forwarded => true | _ => false end)
    end).

Definition update_message_status (id : string) (p : Z) (reason : option string)
    (kind : option SendFailureKind) : L (W := W) (result unit BingleError) :=
  s ← get_state;
  let route :=
    if (100 <=? p) && bool_decide (reason = None)
    then Some (if any_recipient_forwarded id (st s) then StoreAndForward else Direct)
    else None in
  match find_message id (messages (st s)) with
  | None => mret (Err (Other ("Message with id " +:+ id +:+ " not found")))
  | Some m =>
      _ ← update_store (fun s => set_messages (update_first id (with_status p reason kind route) (messages s)) s);
      match failure_reason (with_status p reason kind route m) with
      | None => mret (Ok tt)
      | Some _ =>
          s ← get_state;
          _ ← update_store (fun s => set_nudged ({[id]} ∪ nudged_messages s) s);
          _ ← (if bool_decide (id ∈ nudged_messages (st s)) then mret tt
               else notify_giveup A (recipient_handles m));
          outcome ← forward_message_to_mailbox id (timestamp m) (recipient_handles m) (text m);
          _ ← apply_forward_outcome id outcome;
          mret (Ok tt)
      end
  end.

Fixpoint forward_each (pending : list Message) (count : nat) : L (W := W) nat :=
  match pending with
  | [] => mret count
  | m :: pending =>
      outcome ← forward_message_to_mailbox (msg_id m) (timestamp m) (recipient_handles m) (text m);
      complete ← apply_forward_outcome (msg_id m) outcome;
      forward_each pending (if (complete : bool) then S count else count)
  end.

Definition forward_pending_to_mailbox : L (W := W) (result nat BingleError) :=
  s ← get_state;
  if negb (store_and_forward_send (config s)) then mret (Ok 0%nat)
  else n ← forward_each (get_pending_messages (st s)) 0; mret (Ok n).

(** ** Store-and-forward: reading *)

(** What one popped envelope becomes: a message that was stored, or nothing. *)
Definition receive_envelope (private_key : list Z) (own : option string) (bytes : list Z)
  : L (W := W) (option Message) :=
  match unseal_with_private_key P private_key bytes with
  | Err _ => mret None
  | Ok opened =>
      let sender_address := byte_key_to_address A (op_sender_id opened) in
      s ← get_state;
      if is_mailbox_sender_blocked sender_address (st s) then mret None
      else
        handle ← match sender_address with
                 | None => mret None
                 | Some addr =>
                     r ← outside (chain_handle_for_address (cfg_app_id (config s)) addr);
                     mret (match r with Ok h => h | Err _ => None end)
                 end;
        let sender := match handle with
                      | Some h => h
                      | None => default "unknown"%string sender_address
                      end in
        delivered ← now_millis;
        let m := from_opened (base64_encode A) opened sender
                   (match own with Some h => [h] | None => [] end) delivered in
        stored ← in_store (record_mailbox_message m);
        mret (if (stored : bool) then Some m else None)
  end.

(** The messages read so far, in the order they were read. *)
Fixpoint poll_loop (fuel : nat) (private_key : list Z) (own : option string) (mb : Mailbox)
    (acc : list Message) : L (W := W) (option (list Message * MailboxPollStatus)) :=
  match fuel with
  | O => mret None
  | S fuel =>
      popped ← outside (mailbox_pop mb);
      let '(mb, r) := popped in
      match r with
      | Ok None => mret (Some (acc, Drained))
      | Ok (Some bytes) =>
          m ← receive_envelope private_key own bytes;
          poll_loop fuel private_key own mb (match m with Some m => acc ++ [m] | None => acc end)
      | Err (Retryable reason) => mret (Some (acc, Unreachable reason))
      | Err e =>
          match mb_identity_refusal mb with
          | Some reason => _ ← note_mailbox_identity_refused reason; mret (Some (acc, Skipped))
          | None => mret (Some (acc, Unreachable (error_to_string e)))
          end
      end
  end.

(** The batch is kept in a map ordered by time and read sequence. *)
Definition poll_mailbox (fuel : nat) : L (W := W) (option MailboxPoll) :=
  s ← get_state;
  if negb (store_and_forward_receive (config s)) || bool_decide (sidewinder (config s) = None)
  then mret (Some MailboxPoll_skipped)
  else
    held ← mailbox_identity_refusal_holds;
    if (held : bool) then mret (Some MailboxPoll_skipped)
    else match keypair (acct s) with
    | None => mret (Some MailboxPoll_skipped)
    | Some kp =>
        match seed_from_passphrase A (passphrase kp) with
        | Err _ => mret (Some MailboxPoll_skipped)
        | Ok private_key =>
            ops ← get_algo_ops;
            match ops with
            | Err _ => mret (Some MailboxPoll_skipped)
            | Ok _ =>
                opened ← get_mailbox;
                match opened with
                | Err e => mret (Some (MkMailboxPoll [] (Unreachable (error_to_string e))))
                | Ok mb =>
                    own ← Account.sender_handle;
                    r ← poll_loop fuel private_key (result_ok own) mb [];
                    mret ((fun '(read, status) => MkMailboxPoll (sort_by older read) status) <$> r)
                end
            end
        end
    end.
End Operations.

(** [popped] is what the mailbox has handed out so far: [Mailbox::pop] adds what it returns,
    the clock, the reads of the chain and opening a mailbox add nothing. *)
Class MailboxLog (W : Type) `{LocalWorld W} `{Sidewinder W} `{MailboxClient W} (popped : W -> list (list Z))
  : Prop := {
  log_epoch w : popped (epoch_ms w).1 = popped w;
  log_instant w : popped (instant w).1 = popped w;
  log_handle app a w : popped (chain_handle_for_address app a w).1 = popped w;
  log_successor app w : popped (chain_successor_app app w).1 = popped w;
  log_asset asset a w : popped (chain_opted_in_asset asset a w).1 = popped w;
  log_balance pass w : popped (chain_balance pass w).1 = popped w;
  log_funding w : popped (chain_required_funding w).1 = popped w;
  log_open cfg w : popped (open_mailbox cfg w).1 = popped w;
  log_pop mb w : popped (mailbox_pop mb w).1 =
    popped w ++ match (mailbox_pop mb w).2.2 with Ok (Some bytes) => [bytes] | _ => [] end
}.

(** ** Rules for computations of the client *)

Section Rules.
Context {W : Type}.

(** A predicate on the client's state, whatever the world. *)
Definition on_state (Q : LocalState -> Prop) (sw : LocalState * W) : Prop := Q sw.1.

Lemma keeps_outside {B} Q (f : W -> W * B) : keeps (on_state Q) (outside f).
Proof. intros [s w] Hs. unfold outside. by destruct (f w). Qed.

Lemma keeps_update Q f : (forall s, Q s -> Q (f s)) -> keeps (on_state Q) (update f).
Proof. intros Hf [s w] Hs. by apply Hf. Qed.

Lemma keeps_get {B} Q (k : LocalState -> L (W := W) B) :
  (forall s, Q s -> keeps (on_state Q) (k s)) -> keeps (on_state Q) (get_state ≫= k).
Proof. intros Hk [s w] Hs. by apply (Hk s Hs). Qed.

Lemma keeps_in_store {B} Q (f : store -> store * B) :
  (forall s, Q s -> Q (on_store (fun _ => (f (st s)).1) s)) -> keeps (on_state Q) (in_store f).
Proof.
  intros Hf [s w] Hs. specialize (Hf s Hs). unfold in_store, on_state. by destruct (f (st s)).
Qed.

(** [Q] does not depend on the account. *)
Definition acct_free (Q : LocalState -> Prop) : Prop := forall f s, Q s -> Q (on_acct f s).

Lemma keeps_update_acct Q f : acct_free Q -> keeps (on_state Q) (update_acct f).
Proof. intros HQ. apply keeps_update. intros s Hs. by apply HQ. Qed.
End Rules.

#[export] Hint Resolve keeps_outside keeps_update_acct : bingle.

(** Walks through a computation, leaving the updates of the state. *)
Ltac keep :=
  repeat first
    [ match goal with H : context [keeps _ _] |- _ => apply H end
    | match goal with
      | |- keeps _ (mret _) => apply keeps_ret
      | |- keeps _ (outside _) => apply keeps_outside
      | |- keeps _ (update_acct _) => apply keeps_update_acct; assumption
      | |- keeps _ (get_state ≫= _) => apply keeps_get; intros ? ?
      | |- keeps _ (st_try _ _) => apply keeps_try; [|intros ?]
      | |- keeps _ (_ ≫= _) => apply keeps_bind; [|intros ?]
      | |- keeps _ (match ?x with _ => _ end) => destruct x
      end
    | progress cbn zeta ].

Section Frames.
Context {W SigningKey : Type} `{LocalWorld W} `{Sidewinder W} `{MailboxClient W}.
Context (A : algo) (P : primitives SigningKey) (Q : LocalState -> Prop) (HQ : acct_free Q).

Lemma keeps_get_algo_ops : keeps (on_state Q) (get_algo_ops (W := W)).
Proof using HQ. unfold get_algo_ops. keep. Qed.

Hint Resolve keeps_get_algo_ops : bingle.

Lemma keeps_keypair_status : keeps (on_state Q) (keypair_status (W := W)).
Proof using HQ.
  pose proof keeps_get_algo_ops.
  unfold keypair_status, memo_status, chain_status, successor_app, account_status_from_chain,
    fallback_status, cache_status. keep.
Qed.

Lemma keeps_sender_handle : keeps (on_state Q) (Account.sender_handle (W := W)).
Proof using HQ.
  pose proof keeps_keypair_status. unfold Account.sender_handle, resolve_sender_handle. keep.
Qed.

Lemma keeps_now_millis : keeps (on_state Q) (now_millis (W := W)).
Proof using. unfold now_millis. keep. Qed.

Lemma keeps_post_alerts url pass iss exp hs : keeps (on_state Q) (post_alerts (W := W) A url pass iss exp hs).
Proof using.
  induction hs as [|h hs IH]; cbn [post_alerts]; [apply keeps_ret|]. unfold fresh_nonce. keep.
Qed.

Lemma keeps_notify_giveup hs : keeps (on_state Q) (notify_giveup (W := W) A hs).
Proof using HQ.
  pose proof keeps_sender_handle. pose proof keeps_get_algo_ops. pose proof keeps_post_alerts as Hp.
  unfold notify_giveup, post_giveup_alerts, now_secs. keep.
Qed.

Lemma keeps_fresh_id : keeps (on_state Q) (fresh_message_id (W := W)).
Proof using. unfold fresh_message_id. keep. Qed.

Lemma keeps_get_mailbox : keeps (on_state Q) (get_mailbox (W := W)).
Proof using HQ. pose proof keeps_get_algo_ops. unfold get_mailbox. keep. Qed.

Lemma keeps_refusal_holds : keeps (on_state Q) (mailbox_identity_refusal_holds (W := W)).
Proof using. unfold mailbox_identity_refusal_holds. keep. Qed.

Lemma keeps_acct_op o : keeps (on_state Q) (run_op A o : L (W := W) unit).
Proof using HQ.
  pose proof keeps_get_algo_ops. pose proof keeps_keypair_status.
  destruct o; cbn [run_op]; unfold generate_keypair, import_keypair, begin_recovery_keypair,
    complete_recovery_keypair, import_keypair, register_keypair; keep.
Qed.

(** What forwarding may change: the posted set grows, refusals are noted. *)
Class ForwardStable : Prop := {
  stable_forwarded p s : Q s -> Q (on_store (fun x => set_forwarded ({[p]} ∪ forwarded_messages x) x) s);
  stable_refused k r s : Q s -> Q (on_store (fun x => set_refused (<[k := r]> (refused_forwards x)) x) s);
  stable_identity a r s : Q s -> Q (on_store (set_identity_refused a r) s)
}.

Context {FS : ForwardStable}.

Lemma keeps_note_refused r : keeps (on_state Q) (note_mailbox_identity_refused (W := W) r).
Proof using FS.
  unfold note_mailbox_identity_refused. keep. apply keeps_update. intros x. apply stable_identity.
Qed.

Lemma keeps_forward_one id pk sent txt h mb notes :
  keeps (on_state Q) (forward_one (W := W) A P id pk sent txt h mb notes).
Proof using FS.
  pose proof keeps_note_refused. unfold forward_one. keep.
  - apply keeps_update. intros x. apply stable_forwarded.
  - apply keeps_update. intros x. apply stable_refused.
Qed.

Lemma keeps_forward_loop id pk sent txt hs : forall mb notes,
  keeps (on_state Q) (forward_loop (W := W) A P id pk sent txt hs mb notes).
Proof using FS.
  induction hs as [|h hs IH]; intros mb notes; cbn [forward_loop]; [apply keeps_ret|].
  apply keeps_bind; [apply keeps_forward_one|]. intros [[mb' notes'] []]; [apply IH|apply keeps_ret].
Qed.

Lemma keeps_forward id sent hs txt : keeps (on_state Q) (forward_message_to_mailbox (W := W) A P id sent hs txt).
Proof using HQ FS.
  pose proof keeps_refusal_holds. pose proof keeps_get_algo_ops. pose proof keeps_get_mailbox.
  pose proof keeps_forward_loop as Hl. unfold forward_message_to_mailbox. keep.
Qed.
End Frames.

(** ** The invariant of the store *)

(** What makes two received messages copies of one another. *)
Definition copy_key (m : Message) : option (Z * string * string) :=
  (fun t => (t, sender_handle m, text m)) <$> sent_time m.

(** A message with a route is complete and shows no failure. *)
Definition route_ok (m : Message) : Prop :=
  is_Some (delivery_route m) ->
  is_pending m = false /\ failure_reason m = None.

Record messages_ok (ms : list Message) : Prop := {
  ok_routes : Forall route_ok ms;
  ok_copies : NoDup (omap copy_key ms)
}.

Definition store_ok (s : LocalState) : Prop := messages_ok (messages (st s)).

Lemma holds_received_copy_spec ms sender t txt :
  holds_received_copy ms sender (Some t) txt = true <-> (t, sender, txt) ∈ omap copy_key ms.
Proof.
  unfold holds_received_copy. rewrite existsb_exists, list_elem_of_omap. split.
  - intros (m & Hin & Hm). apply in_rev, list_elem_of_In in Hin. exists m. split; [done|].
    rewrite !andb_true_iff, !bool_decide_eq_true in Hm. destruct Hm as [[E1 E2] E3].
    unfold copy_key. rewrite E1. cbn. by rewrite E2, E3.
  - intros (m & Hin & Hm). exists m. split; [by apply in_rev; rewrite rev_involutive; apply list_elem_of_In|].
    unfold copy_key in Hm. destruct (sent_time m); cbn in Hm; simplify_eq. by rewrite !bool_decide_eq_true_2.
Qed.

Lemma messages_ok_snoc ms m :
  messages_ok ms -> route_ok m -> holds_received_copy ms (sender_handle m) (sent_time m) (text m) = false ->
  messages_ok (ms ++ [m]).
Proof.
  intros [Hr Hc] Hm Hh. split; [by apply Forall_app; split; [|constructor]|].
  rewrite omap_app. apply NoDup_app. split; [done|]. cbn [omap list_omap].
  destruct (copy_key m) as [k|] eqn:Ek; [|split; [by intros k _ ?%not_elem_of_nil|constructor]].
  unfold copy_key in Ek. destruct (sent_time m) as [t|]; cbn in Ek; simplify_eq.
  split; [|apply NoDup_singleton]. intros k Hk ->%list_elem_of_singleton.
  apply holds_received_copy_spec in Hk. congruence.
Qed.

Lemma messages_ok_update id f ms :
  (forall m, m ∈ ms -> route_ok m -> route_ok (f m)) -> (forall m, copy_key (f m) = copy_key m) ->
  messages_ok ms -> messages_ok (update_first id f ms).
Proof.
  intros Hf Hk [Hr Hc]. split.
  - clear Hc. induction Hr as [|m ms Hm Hr IH]; cbn [update_first]; [constructor|]. case_decide.
    + constructor; [|done]. apply Hf; [by left|done].
    + constructor; [done|]. apply IH. intros m' Hin. apply Hf. by right.
  - assert (omap copy_key (update_first id f ms) = omap copy_key ms) as ->; [|done].
    clear Hr Hc Hf. induction ms as [|m ms IH]; cbn [update_first]; [done|]. case_decide; csimpl.
    + by rewrite Hk.
    + by rewrite IH.
Qed.

Lemma with_status_route p reason kind fwd m :
  let route := if (100 <=? p) && bool_decide (reason = None) then Some fwd else None in
  route_ok (with_status p reason kind route m).
Proof.
  cbn zeta. intros Hr. unfold with_status in *. cbn in *.
  destruct ((100 <=? p) && bool_decide (reason = None)) eqn:E; [|by destruct Hr].
  apply andb_true_iff in E as [Ep Er%bool_decide_eq_true_1]. subst reason.
  unfold is_pending. cbn. rewrite Ep. split; [lia|done].
Qed.

Lemma with_outcome_route o m : route_ok m -> route_ok (with_outcome o m).
Proof. intros Hr. by destruct o. Qed.

Lemma with_outcome_key o m : copy_key (with_outcome o m) = copy_key m.
Proof. by destruct o. Qed.

(** Elements with the same key are at the same place. *)
Lemma omap_NoDup_inj {B K} (f : B -> option K) l i j x y k :
  NoDup (omap f l) -> l !! i = Some x -> l !! j = Some y -> f x = Some k -> f y = Some k -> i = j.
Proof.
  revert i j. induction l as [|a l IH]; intros i j Hn Hi Hj Hx Hy; [done|].
  assert (forall n z, l !! n = Some z -> f z = Some k -> k ∈ omap f l) as Hin.
  { intros n z Hz Hk. apply list_elem_of_omap. exists z. split; [by eapply list_elem_of_lookup_2|done]. }
  csimpl in Hn. destruct i as [|i], j as [|j]; cbn in Hi, Hj; simplify_eq; [done|..].
  - rewrite Hx in Hn. apply NoDup_cons in Hn as [Hn _]. by destruct (Hn (Hin _ _ Hj Hy)).
  - rewrite Hy in Hn. apply NoDup_cons in Hn as [Hn _]. by destruct (Hn (Hin _ _ Hi Hx)).
  - f_equal. eapply IH; try done. destruct (f a); [by apply NoDup_cons in Hn as [_ Hn]|done].
Qed.

(** ** Sequences of operations *)

Inductive store_op : Type :=
| AddContact (handle id : string) (source : ContactSource)
| SetBlocked (id : string) (blocked : bool)
| RemoveContact (id : string)
| AddMessage (sender : string) (recipients : list string) (at_ : Z) (txt : string) (suite : option string)
| AddReceived (sender : string) (recipients : list string) (at_ : Z) (txt : option string) (json : string)
    (suite : option string) (sent : option Z) (sig : option string)
| QueueMessage (recipients : list string) (txt : string)
| UpdateStatus (id : string) (p : Z) (reason : option string) (kind : option SendFailureKind)
| ForwardPending
| Poll (fuel : nat)
| SetGates (send receive : bool)
| SetNotify (enabled : bool) (url : option string)
| Restart
| AcctOp (o : acct_op).

Section StoreOps.
Context {W SigningKey : Type} `{LocalWorld W} `{Sidewinder W} `{MailboxClient W}.
Context (A : algo) (P : primitives SigningKey).

(** A restart saves the state and loads it again into a new process. *)
Definition restart (s : LocalState) : LocalState := load (save s) (LocalState_new (config s)).

Definition run_store_op (o : store_op) : L (W := W) unit :=
  match o with
  | AddContact h id src => _ ← in_store (add_contact h id src); mret tt
  | SetBlocked id b => _ ← in_store (set_contact_blocked id b); mret tt
  | RemoveContact id => _ ← in_store (remove_contact id); mret tt
  | AddMessage s r t x c => _ ← add_message s r t x c; mret tt
  | AddReceived s r t x j c n g => _ ← add_received_message s r t x j c n g; mret tt
  | QueueMessage r x => _ ← queue_message r x; mret tt
  | UpdateStatus id p r k => _ ← update_message_status A P id p r k; mret tt
  | ForwardPending => _ ← forward_pending_to_mailbox A P; mret tt
  | Poll fuel => _ ← poll_mailbox A P fuel; mret tt
  | SetGates a b => update (on_config (set_store_and_forward a b))
  | SetNotify e u => update (on_config (set_notify e u))
  | Restart => update restart
  | AcctOp o => run_op A o
  end.

Fixpoint run_store_ops (ops : list store_op) : L (W := W) unit :=
  match ops with [] => mret tt | o :: ops => _ ← run_store_op o; run_store_ops ops end.

(** What a predicate must survive to hold throughout. *)
Class StoreStable (Q : LocalState -> Prop) : Prop := {
  ss_acct : acct_free Q;
  ss_forward : ForwardStable Q;
  ss_contacts c s : Q s -> Q (on_store (set_contacts c) s);
  ss_config f s : Q s -> Q (on_config f s);
  ss_nudged n s : Q s -> Q (on_store (set_nudged n) s);
  ss_push m s : route_ok m ->
    holds_received_copy (messages (st s)) (sender_handle m) (sent_time m) (text m) = false ->
    Q s -> Q (on_store (set_messages (messages (st s) ++ [m])) s);
  ss_status id p r k fwd s : Q s ->
    Q (on_store (set_messages (update_first id (with_status p r k
        (if (100 <=? p) && bool_decide (r = None) then Some fwd else None)) (messages (st s)))) s);
  ss_outcome id o s : Q s ->
    Q (on_store (set_messages (update_first id (with_outcome o) (messages (st s)))) s);
  ss_restart s : Q s -> Q (restart s)
}.

Section Stable.
Context (Q : LocalState -> Prop) {SS : StoreStable Q}.

Lemma on_store_id s : on_store (fun _ => st s) s = s.
Proof using. by destruct s. Qed.

Lemma keeps_store_live sender rs t x c n g :
  keeps (on_state Q) (store_live_message (W := W) sender rs t x c n g).
Proof using SS.
  pose proof (keeps_fresh_id (W := W) Q). unfold store_live_message. keep.
  apply keeps_in_store. intros s Hs.
  destruct (holds_received_copy _ _ _ _) eqn:E; cbn [fst]; [by rewrite on_store_id|].
  by apply (ss_push (MkMessage _ _ _ _ _ _ _ _ _ _ _ _ _ _)).
Qed.

Lemma keeps_queue rs x : keeps (on_state Q) (queue_message (W := W) rs x).
Proof using SS.
  pose proof (keeps_fresh_id (W := W) Q). pose proof (keeps_sender_handle (W := W) Q ss_acct).
  unfold queue_message. keep. apply keeps_update. intros s Hs.
  apply (ss_push (MkMessage _ _ _ _ _ _ _ _ _ _ _ _ _ _)); [by intros [? ?]|done|done].
Qed.

Lemma keeps_apply_outcome id o : keeps (on_state Q) (apply_forward_outcome (W := W) id o).
Proof using SS.
  apply keeps_in_store. intros s Hs. destruct (find_message _ _); cbn [fst]; [|by rewrite on_store_id].
  by apply ss_outcome.
Qed.

Lemma keeps_update_status id p r k : keeps (on_state Q) (update_message_status (W := W) A P id p r k).
Proof using SS.
  pose proof (keeps_notify_giveup (W := W) A Q ss_acct).
  pose proof (fun id sent hs txt => keeps_forward (W := W) A P Q ss_acct (FS := ss_forward) id sent hs txt).
  pose proof keeps_apply_outcome. unfold update_message_status. keep.
  - apply keeps_update. intros s' Hs. by apply ss_status.
  - apply keeps_update. intros s' Hs. by apply ss_nudged.
Qed.

Lemma keeps_forward_each ms : forall n, keeps (on_state Q) (forward_each (W := W) A P ms n).
Proof using SS.
  induction ms as [|m ms IH]; intros n; cbn [forward_each]; [apply keeps_ret|].
  pose proof (fun id sent hs txt => keeps_forward (W := W) A P Q ss_acct (FS := ss_forward) id sent hs txt).
  pose proof keeps_apply_outcome. keep.
Qed.

Lemma keeps_receive_envelope pk own bytes : keeps (on_state Q) (receive_envelope (W := W) A P pk own bytes).
Proof using SS.
  pose proof (keeps_now_millis (W := W) Q). unfold receive_envelope. keep.
  all: apply keeps_in_store; intros s' Hs; unfold record_mailbox_message;
    destruct (holds_received_copy _ _ _ _) eqn:E; cbn [fst]; [by rewrite on_store_id|];
    apply (ss_push (from_opened _ _ _ _ _)); [by intros _|done|done].
Qed.

Lemma keeps_poll_loop fuel : forall pk own mb acc,
  keeps (on_state Q) (poll_loop (W := W) A P fuel pk own mb acc).
Proof using SS.
  induction fuel as [|fuel IH]; intros pk own mb acc; cbn [poll_loop]; [apply keeps_ret|].
  pose proof keeps_receive_envelope.
  pose proof (fun r => keeps_note_refused (W := W) Q (FS := ss_forward) r). keep.
Qed.

Lemma keeps_poll fuel : keeps (on_state Q) (poll_mailbox (W := W) A P fuel).
Proof using SS.
  pose proof keeps_poll_loop. pose proof (keeps_sender_handle (W := W) Q ss_acct).
  pose proof (keeps_get_mailbox (W := W) Q ss_acct). pose proof (keeps_refusal_holds (W := W) Q).
  pose proof (keeps_get_algo_ops (W := W) Q ss_acct). unfold poll_mailbox. keep.
Qed.

Lemma keeps_contact_op {B} (f : store -> store * B) :
  (forall s, exists c, (f s).1 = set_contacts c s) -> keeps (on_state Q) (in_store (W := W) f).
Proof using SS.
  intros Hf. apply keeps_in_store. intros s Hs. destruct (Hf (st s)) as [c ->]. by apply (ss_contacts c).
Qed.

Lemma set_contacts_id s : set_contacts (contacts s) s = s.
Proof using. by destruct s. Qed.

Lemma keeps_store_op o : keeps (on_state Q) (run_store_op o).
Proof using SS.
  assert (forall (s : store) r, exists c, (s, r : result unit BingleError).1 = set_contacts c s) as Hid.
  { intros s r. exists (contacts s). by rewrite set_contacts_id. }
  pose proof keeps_store_live. pose proof keeps_queue. pose proof keeps_update_status.
  pose proof keeps_forward_each. pose proof keeps_poll.
  pose proof (keeps_acct_op (W := W) A Q ss_acct).
  destruct o; cbn [run_store_op]; unfold add_message, add_received_message, forward_pending_to_mailbox; keep.
  - apply keeps_contact_op. intros s. unfold add_contact. repeat case_match; eauto.
  - apply keeps_contact_op. intros s. unfold set_contact_blocked. repeat case_match; eauto.
  - apply keeps_contact_op. intros s. unfold remove_contact. repeat case_match; eauto.
  - apply keeps_update. intros s Hs. by apply ss_config.
  - apply keeps_update. intros s Hs. by apply ss_config.
  - apply keeps_update. intros s Hs. by apply ss_restart.
Qed.

Lemma keeps_store_ops ops : keeps (on_state Q) (run_store_ops ops).
Proof using SS.
  induction ops as [|o ops IH]; cbn [run_store_ops]; [apply keeps_ret|].
  apply keeps_bind; [apply keeps_store_op|by intros _].
Qed.
End Stable.
End StoreOps.

(** ** Saving and loading *)

Lemma load_saved_forwarded (F : gset (string * string)) :
  (list_to_set (omap forwarded_entry
     ((fun '(id, h) => MkForwardedEntry (Some id) None h) <$> elements F)) : gset (string * string)) = F.
Proof.
  assert (forall l : list (string * string),
    omap forwarded_entry ((fun '(id, h) => MkForwardedEntry (Some id) None h) <$> l) = l) as E.
  { induction l as [|[id h] l IH]; [done|]. csimpl. by rewrite IH. }
  rewrite E. apply list_to_set_elements_L.
Qed.

Lemma load_contacts_foldl l : forall m : gmap string (string * ContactSource * bool),
  NoDup l.*1 -> (forall k, k ∈ l.*1 -> m !! k = None) ->
  foldl (fun m kv => <[kv.1 := kv.2]> m) m l = list_to_map l ∪ m.
Proof.
  induction l as [|[k v] l IH]; intros m Hn Hm; cbn [foldl]; [by rewrite list_to_map_nil, (left_id_L ∅ (∪))|].
  csimpl in Hn. apply NoDup_cons in Hn as [Hk Hn]. rewrite IH; [|done|].
  - cbn [list_to_map foldr uncurry fst snd]. rewrite <- insert_union_l.
    rewrite insert_union_r; [done|]. by apply not_elem_of_list_to_map_1.
  - intros k' Hk'. rewrite lookup_insert_ne; [apply Hm; by right|]. cbn. intros <-. done.
Qed.

Lemma load_saved_contacts (m : gmap string (string * ContactSource * bool)) :
  load_contacts (map_to_list m) = m.
Proof.
  unfold load_contacts. rewrite load_contacts_foldl; [|apply NoDup_fst_map_to_list|done].
  by rewrite list_to_map_to_list, (right_id_L ∅ (∪)).
Qed.

Lemma with_legacy_id_fix m : with_legacy_id (with_legacy_id m) = with_legacy_id m.
Proof.
  unfold with_legacy_id. destruct (decide (msg_id m = EmptyString)) as [E|E]; [|by rewrite decide_False].
  by rewrite decide_False.
Qed.

(** Saving and loading: whatever process loads the file, it has the key pairs, the
    memoized handle and its app, the contacts with their blocked flags and the posted
    set exactly as saved, no cached signer or status, and the messages in order with
    everything but an empty identifier, which becomes the one derived from the time;
    what is loaded is saved and loaded again without a change. *)
Theorem save_load_roundtrip (s s0 : LocalState) :
  let s' := load (save s) s0 in
  keypair (acct s') = keypair (acct s) /\ recovery_keypair (acct s') = recovery_keypair (acct s) /\
  own_handle (acct s') = own_handle (acct s) /\
  own_handle_app_id (acct s') = own_handle_app_id (acct s) /\
  algo_ops (acct s') = None /\ last_status (acct s') = None /\
  contacts (st s') = contacts (st s) /\
  forwarded_messages (st s') = forwarded_messages (st s) /\
  messages (st s') = with_legacy_id <$> messages (st s) /\
  (Forall (fun m => msg_id m <> EmptyString) (messages (st s)) -> messages (st s') = messages (st s)) /\
  (forall s1, messages (st (load (save s') s1)) = messages (st s') /\
              Forall (fun m => msg_id m <> EmptyString) (messages (st s'))).
Proof.
  cbn zeta. unfold save, load.
  cbn [acct st keypair recovery_keypair own_handle own_handle_app_id algo_ops last_status contacts
       forwarded_messages messages sv_keypair sv_recovery_keypair sv_contacts sv_messages sv_own_handle
       sv_own_handle_app_id sv_forwarded].
  rewrite load_saved_forwarded, load_saved_contacts. split_and!; try done.
  - intros Hm. induction Hm as [|m ms Hid Hm IH]; [done|]. csimpl. rewrite IH. f_equal.
    unfold with_legacy_id. by rewrite decide_False.
  - intros s1. split.
    + rewrite <- list_fmap_compose. apply list_fmap_ext. intros i m _. cbn. apply with_legacy_id_fix.
    + apply Forall_fmap, Forall_true. intros m. cbn. unfold with_legacy_id. by case_decide.
Qed.

(** ** Instances of [StoreStable] *)

#[export] Instance store_ok_forward : ForwardStable store_ok.
Proof. by split. Qed.

#[export] Instance store_ok_stable : StoreStable store_ok.
Proof.
  split; try done.
  - by intros f s.
  - intros m s Hr Hh Hs. by apply messages_ok_snoc.
  - intros id p r k fwd s Hs. apply messages_ok_update; [|by intros m|done].
    intros m _ _. apply with_status_route.
  - intros id o s Hs. apply messages_ok_update; [|apply with_outcome_key|done].
    intros m _. apply with_outcome_route.
  - intros s [Hr Hc]. unfold store_ok, restart, load, save. cbn [st messages sv_messages].
    assert (forall m, copy_key (with_legacy_id m) = copy_key m) as Hk.
    { intros m. unfold with_legacy_id. by case_decide. }
    split.
    + apply Forall_fmap. eapply Forall_impl; [exact Hr|]. intros m Hm. cbn. unfold with_legacy_id.
      by case_decide.
    + assert (omap copy_key (with_legacy_id <$> messages (st s)) = omap copy_key (messages (st s))) as ->; [|done].
      clear Hr Hc. induction (messages (st s)) as [|m ms IH]; [done|]. csimpl. by rewrite Hk, IH.
Qed.

Definition posted_at_least (F : gset (string * string)) (s : LocalState) : Prop :=
  F ⊆ forwarded_messages (st s).

#[export] Instance posted_forward F : ForwardStable (posted_at_least F).
Proof. split; unfold posted_at_least; cbn; [set_solver|done|done]. Qed.

#[export] Instance posted_stable F : StoreStable (posted_at_least F).
Proof.
  split; try done; try apply posted_forward; try by intros f s.
  intros s Hs. unfold posted_at_least, restart, load, save. cbn [st forwarded_messages sv_forwarded].
  by rewrite load_saved_forwarded.
Qed.

Section Theorems.
Context {W SigningKey : Type} `{LocalWorld W} `{Sidewinder W} `{MailboxClient W}.
Context (A : algo) (P : primitives SigningKey).

(** (C21) The store stays consistent: through every sequence of contact, message, status,
    forwarding, polling, settings and account operations and restarts, whatever the
    network answers, a message shown as delivered is not pending and shows no failure,
    and a message that arrived twice, live and through the mailbox, is held once: no
    two messages have the same sender, send time and text. *)
Theorem store_invariant c ops w s' w' :
  run_store_ops A P ops (LocalState_new c, w) = ((s', w'), tt) ->
  (forall m, m ∈ messages (st s') -> is_Some (delivery_route m) ->
     is_pending m = false /\ failure_reason m = None) /\
  (forall i j m1 m2 t, messages (st s') !! i = Some m1 -> messages (st s') !! j = Some m2 ->
     sent_time m1 = Some t -> sent_time m2 = Some t -> sender_handle m1 = sender_handle m2 ->
     text m1 = text m2 -> i = j).
Proof using.
  intros Hrun.
  assert (on_state store_ok (LocalState_new c, w)) as Hinit by (split; constructor).
  destruct (triple_run _ _ _ _ _ _ (keeps_store_ops A P store_ok ops) Hinit Hrun) as [Hr Hc].
  cbn [fst] in *. rewrite Forall_forall in Hr. split; [intros m Hm; by apply Hr|].
  intros i j m1 m2 t Hi Hj T1 T2 Hs Ht.
  eapply (omap_NoDup_inj copy_key _ i j m1 m2 (t, sender_handle m1, text m1)); try done;
    unfold copy_key; [by rewrite T1|by rewrite T2, Hs, Ht].
Qed.

(** ** Forwarding *)

(** A sealed copy of the message was posted to the mailbox of the account of [h]. *)
Definition posted_copy (pk : list Z) (sent : Z) (txt h : string) : Prop :=
  exists address pub rnd sealed mb (w0 w1 : W),
    (chain_handle_lookup h w0).2 = Ok (Some address) /\
    address_to_byte_key A address = Ok pub /\
    seal_from_private_key P rnd.1 rnd.2 pk pub sent txt = Ok sealed /\
    (mailbox_post mb address sealed w1).2.2 = Ok Posted.

(** The posted set has grown from [F] only by copies posted for this message. *)
Definition grown (F : gset (string * string)) (id : string) (hs : list string) (pk : list Z) (sent : Z)
    (txt : string) (s : LocalState) : Prop :=
  forall p, p ∈ forwarded_messages (st s) ->
    p ∈ F \/ (p.1 = id /\ p.2 ∈ hs /\ posted_copy pk sent txt p.2).

Lemma forward_one_grown F id hs pk sent txt h mb notes :
  h ∈ hs -> keeps (on_state (grown F id hs pk sent txt)) (forward_one (W := W) A P id pk sent txt h mb notes).
Proof using.
  intros Hh [s w] Hs. unfold forward_one, mbind, ST_bind, outside, mret, ST_ret.
  destruct (chain_handle_lookup h w) as [w1 [[address|]|e]] eqn:El; [|done|done].
  destruct (address_to_byte_key A address) as [pub|e] eqn:Ea; [|done].
  destruct (seal_random w1) as [w2 rnd].
  destruct (seal_from_private_key P rnd.1 rnd.2 pk pub sent txt) as [sealed|e] eqn:Es; [|done].
  destruct (mailbox_post mb address sealed w2) as [w3 [mb' r]] eqn:Ep.
  destruct r as [[|stage reason]|e]; cbn; [|done|].
  - intros p [->%elem_of_singleton|Hp]%elem_of_union; [|by apply Hs]. right. split_and!; [done|done|].
    exists address, pub, rnd, sealed, mb, w, w2. cbn [snd]. by rewrite El, Ep.
  - destruct (mb_identity_refusal mb'); [|done].
    unfold note_mailbox_identity_refused, mbind, ST_bind, outside. by destruct (instant w3).
Qed.

Lemma forward_loop_grown F id hs pk sent txt todo : forall mb notes,
  (forall h, h ∈ todo -> h ∈ hs) ->
  keeps (on_state (grown F id hs pk sent txt)) (forward_loop (W := W) A P id pk sent txt todo mb notes).
Proof using.
  induction todo as [|h todo IH]; intros mb notes Hsub; cbn [forward_loop]; [apply keeps_ret|].
  apply keeps_bind; [apply forward_one_grown, Hsub; by left|].
  intros [[mb' notes'] []]; [apply IH|apply keeps_ret]. intros h' Hh'. apply Hsub. by right.
Qed.

Lemma split_refused_sub id refused hs h : h ∈ (split_refused id refused hs).1 -> h ∈ hs.
Proof using.
  induction hs as [|a hs IH]; cbn [split_refused]; [done|].
  destruct (split_refused id refused hs) as [pending notes].
  destruct (refused !! (id, a)); cbn; [by right; apply IH|].
  intros [->|Hh]%elem_of_cons; [by left|right; by apply IH].
Qed.

(** The key that signs the forwarded copies. *)
Definition own_private_key (s : LocalState) : option (list Z) :=
  match keypair (acct s) with
  | Some kp => result_ok (seed_from_passphrase A (passphrase kp))
  | None => None
  end.

(** Forwarding is switched on and there is a mailbox to post to. *)
Definition gate_on (c : LocalApiConfig) : bool :=
  should_forward_send (store_and_forward_send c) (bool_decide (is_Some (sidewinder c))).

(** What [forward_message_to_mailbox] achieves, by its outcome. *)
Definition forward_post (s : LocalState) (id : string) (sent : Z) (hs : list string) (txt : string)
    (o : ForwardOutcome) (sw : LocalState * W) : Prop :=
  let F' := forwarded_messages (st sw.1) in
  (forall p, p ∈ F' -> p ∈ forwarded_messages (st s) \/
     (p.1 = id /\ p.2 ∈ hs /\ exists pk, own_private_key s = Some pk /\ posted_copy pk sent txt p.2)) /\
  match o with
  | Forwarded => gate_on (config s) = true /\ forall h, h ∈ hs -> (id, h) ∈ F'
  | NotForwarded _ => exists h, h ∈ hs /\ (id, h) ∉ F'
  | ForwardDisabled => gate_on (config s) = false
  end.

Lemma forward_unchanged s id sent hs txt o (sw : LocalState * W) :
  forwarded_messages (st sw.1) = forwarded_messages (st s) ->
  match o with
  | Forwarded => gate_on (config s) = true /\ forall h, h ∈ hs -> (id, h) ∈ forwarded_messages (st s)
  | NotForwarded _ => exists h, h ∈ hs /\ (id, h) ∉ forwarded_messages (st s)
  | ForwardDisabled => gate_on (config s) = false
  end -> forward_post s id sent hs txt o sw.
Proof using. unfold forward_post. intros ->. split; [by left|done]. Qed.

Lemma forallb_forwarded (id : string) (hs : list string) (F : gset (string * string)) :
  if forallb (fun h => bool_decide ((id, h) ∈ F)) hs then forall h, h ∈ hs -> (id, h) ∈ F
  else exists h, h ∈ hs /\ (id, h) ∉ F.
Proof using.
  induction hs as [|a hs IH]; cbn [forallb]; [by intros h ?%not_elem_of_nil|].
  destruct (bool_decide ((id, a) ∈ F)) eqn:E; cbn [andb].
  - apply bool_decide_eq_true_1 in E. destruct (forallb _ hs).
    + intros h [->|Hh]%elem_of_cons; [done|by apply IH].
    + destruct IH as (h & Hh & Hn). exists h. split; [by right|done].
  - apply bool_decide_eq_false_1 in E. exists a. split; [by left|done].
Qed.

(** The world may move, the posted set does not. *)
Definition same_posted (s0 : LocalState) (s : LocalState) : Prop :=
  forwarded_messages (st s) = forwarded_messages (st s0).

Lemma same_posted_free s0 : acct_free (same_posted s0).
Proof using. by intros f s. Qed.

(** The tail of the function, once a signer and a mailbox are there. *)
Lemma forward_tail s id sent hs txt pk todo mb notes :
  gate_on (config s) = true -> own_private_key s = Some pk -> (forall h, h ∈ todo -> h ∈ hs) ->
  triple (on_state (same_posted s))
    (notes ← forward_loop (W := W) A P id pk sent txt todo mb notes;
     s ← get_state;
     mret (if forallb (fun h => bool_decide ((id, h) ∈ forwarded_messages (st s))) hs then Forwarded
           else match notes with
                | [] => NotForwarded "not every recipient was posted"
                | _ => NotForwarded (join_notes notes)
                end))
    (forward_post s id sent hs txt).
Proof using.
  intros Hg Hpk Hsub.
  eapply (triple_conseq _ (on_state (grown (forwarded_messages (st s)) id hs pk sent txt)));
    [|intros sw Hs p Hp; left; by rewrite <- Hs|intros a sw Hq; exact Hq].
  eapply triple_bind; [by apply forward_loop_grown|]. intros notes' [s' w] Hs.
  unfold mbind, ST_bind, get_state, mret, ST_ret. cbn [fst snd].
  pose proof (forallb_forwarded id hs (forwarded_messages (st s'))) as Hf.
  split.
  - intros p Hp. destruct (Hs p Hp) as [?|(? & ? & ?)]; [by left|right; eauto].
  - destruct (forallb _ hs); [by split|]. destruct notes'; exact Hf.
Qed.

Lemma forward_refused_ret s id sent hs txt reason :
  (exists h, h ∈ hs /\ (id, h) ∉ forwarded_messages (st s)) ->
  triple (on_state (same_posted s)) (mret (NotForwarded reason)) (forward_post s id sent hs txt).
Proof using. intros Hsome. apply triple_ret. intros sw Hs. by apply forward_unchanged. Qed.

Lemma triple_get {B} s (k : LocalState -> L (W := W) B) Q :
  triple (fun sw => sw.1 = s) (k s) Q -> triple (fun sw => sw.1 = s) (get_state ≫= k) Q.
Proof using. intros Hk [s' w] Hs. cbn in Hs. subst s'. by apply Hk. Qed.

Lemma forward_spec s id sent hs txt :
  triple (fun sw => sw.1 = s) (forward_message_to_mailbox (W := W) A P id sent hs txt)
    (forward_post s id sent hs txt).
Proof using.
  unfold forward_message_to_mailbox. apply triple_get.
  change (should_forward_send _ _) with (gate_on (config s)).
  destruct (gate_on (config s)) eqn:Eg; cbn [negb].
  2: { apply triple_ret. intros sw Hs. by apply forward_unchanged; [rewrite Hs|]. }
  assert (forall h, (h ∈ pending_forward_recipients id hs (forwarded_messages (st s))) <->
    (~ ((id, h) ∈ forwarded_messages (st s)) /\ h ∈ hs)) as Hun
    by (intros h; unfold pending_forward_recipients; by rewrite list_elem_of_filter).
  destruct (pending_forward_recipients id hs (forwarded_messages (st s))) as [|h0 rest].
  { apply triple_ret. intros sw Hs. apply forward_unchanged; [by rewrite Hs|].
    split; [done|]. intros h Hh. destruct (decide ((id, h) ∈ forwarded_messages (st s))) as [|n]; [done|].
    by destruct (not_elem_of_nil h); apply Hun. }
  assert (exists h, h ∈ hs /\ (id, h) ∉ forwarded_messages (st s)) as Hsome.
  { exists h0. destruct (proj1 (Hun h0)) as [? ?]; [by left|done]. }
  pose proof (fun r => forward_refused_ret s id sent hs txt r Hsome) as Hno.
  pose proof (fun h Hin => split_refused_sub id (refused_forwards (st s)) (h0 :: rest) h Hin) as Hsub.
  eapply (triple_conseq _ (on_state (same_posted s))); [|intros sw Hs; by rewrite <- Hs|intros a sw Hq; exact Hq].
  eapply triple_bind; [apply keeps_refusal_holds|]. intros [|]; [apply Hno|].
  destruct (split_refused id (refused_forwards (st s)) (h0 :: rest)) as [todo notes]. cbn [fst] in Hsub.
  destruct todo as [|h1 todo]; [apply Hno|].
  destruct (keypair (acct s)) as [kp|] eqn:Ek; [|apply Hno].
  destruct (seed_from_passphrase A (passphrase kp)) as [pk|e] eqn:Epk; [|apply Hno].
  eapply triple_bind; [apply keeps_get_algo_ops, same_posted_free|]. intros [ops|e]; [|apply Hno].
  eapply triple_bind; [apply keeps_get_mailbox, same_posted_free|]. intros [mb|e]; [|apply Hno].
  apply forward_tail; [done|unfold own_private_key; by rewrite Ek, Epk|].
  intros h Hh. by apply Hun, Hsub.
Qed.

(** Forwarding says what it did: a message is reported handed off only when every
    recipient has been posted to, and not handed off only when one has not; the record
    of posts never loses an entry and gains one only for a recipient of this message
    whose handle resolved to an address and to whose mailbox a copy of the text, signed
    with this account's key and stamped with the send time, was posted and finalised. *)
Theorem forward_sound s w s' w' id sent hs txt o :
  forward_message_to_mailbox A P id sent hs txt (s, w) = ((s', w'), o) ->
  forwarded_messages (st s) ⊆ forwarded_messages (st s') /\
  messages (st s') = messages (st s) /\ contacts (st s') = contacts (st s) /\
  forward_post s id sent hs txt o (s', w').
Proof using.
  intros E. split_and!.
  - pose proof (keeps_forward (W := W) A P (posted_at_least (forwarded_messages (st s)))
      ss_acct id sent hs txt) as Hk.
    apply (triple_run _ _ _ _ _ _ Hk) in E; [done|]. cbn. unfold on_state, posted_at_least. done.
  - assert (acct_free (fun x => messages (st x) = messages (st s))) as Ha by (by intros f x).
    assert (ForwardStable (fun x => messages (st x) = messages (st s))) as Hf by (by split).
    by apply (triple_run _ _ _ _ _ _ (keeps_forward (W := W) A P _ Ha id sent hs txt)) in E.
  - assert (acct_free (fun x => contacts (st x) = contacts (st s))) as Ha by (by intros f x).
    assert (ForwardStable (fun x => contacts (st x) = contacts (st s))) as Hf by (by split).
    by apply (triple_run _ _ _ _ _ _ (keeps_forward (W := W) A P _ Ha id sent hs txt)) in E.
  - by apply (triple_run _ _ _ _ _ _ (forward_spec s id sent hs txt)) in E.
Qed.

Lemma forward_done s w id sent hs txt :
  (forall h, h ∈ hs -> (id, h) ∈ forwarded_messages (st s)) ->
  forward_message_to_mailbox (W := W) A P id sent hs txt (s, w)
  = ((s, w), if gate_on (config s) then Forwarded else ForwardDisabled).
Proof using.
  intros Hall. unfold forward_message_to_mailbox, mbind, ST_bind, get_state.
  change (should_forward_send _ _) with (gate_on (config s)). destruct (gate_on (config s)); [|done]. cbn [negb].
  assert (pending_forward_recipients id hs (forwarded_messages (st s)) = []) as ->; [|done].
  unfold pending_forward_recipients. apply elem_of_nil_inv. intros h [Hn Hh]%list_elem_of_filter. by apply Hn, Hall.
Qed.

(** (C25) A message is posted to each mailbox once: when it has been handed off, then
    whatever operations and restarts follow, handing it off again, even for other
    recipients among the same ones or in another order, touches neither the network
    nor the state. *)
Theorem forward_once s w s1 w1 id sent hs txt ops s2 w2 hs' sent' txt' :
  forward_message_to_mailbox A P id sent hs txt (s, w) = ((s1, w1), Forwarded) ->
  run_store_ops A P ops (s1, w1) = ((s2, w2), tt) ->
  (forall h, h ∈ hs' -> h ∈ hs) ->
  exists o, forward_message_to_mailbox A P id sent' hs' txt' (s2, w2) = ((s2, w2), o) /\
    (o = Forwarded \/ o = ForwardDisabled).
Proof using.
  intros E Hrun Hsub.
  apply (triple_run _ _ _ _ _ _ (forward_spec s id sent hs txt)) in E as [_ [_ Hall]]; [|done].
  pose proof (keeps_store_ops A P (posted_at_least (forwarded_messages (st s1))) ops) as Hk.
  apply (triple_run _ _ _ _ _ _ Hk) in Hrun; [|unfold on_state, posted_at_least; done].
  rewrite forward_done; [|intros h Hh; apply Hrun, Hall, Hsub, Hh].
  eexists. split; [done|]. destruct (gate_on _); auto.
Qed.

(** ** Reading the mailbox *)

(** [m] is what the envelope [bytes] says: it opened with this account's key, and its
    sender is not among the blocked contacts [C]. *)
Definition envelope_message (C : gmap string (string * ContactSource * bool)) (pk bytes : list Z) (m : Message)
  : Prop :=
  exists opened,
    unseal_with_private_key P pk bytes = Ok opened /\
    text m = op_text opened /\ sent_time m = Some (op_sent_time opened) /\
    msg_id m = hex_id (op_message_id opened) /\
    delivery_route m = Some StoreAndForward /\ is_pending m = false /\
    forall addr, byte_key_to_address A (op_sender_id opened) = Some addr -> is_blank addr = false ->
      match C !! addr with Some (_, _, blocked) => blocked = false | None => True end.

(** Why an envelope leaves no message, when [held] is in the history: it does not open, its
    sender is a blocked contact, or a copy of its message is held. *)
Inductive passed_over (C : gmap string (string * ContactSource * bool)) (pk : list Z) (held : list Message)
  (bytes : list Z) : Prop :=
| does_not_open e : unseal_with_private_key P pk bytes = Err e -> passed_over C pk held bytes
| sender_blocked opened addr h src : unseal_with_private_key P pk bytes = Ok opened ->
    byte_key_to_address A (op_sender_id opened) = Some addr -> C !! addr = Some (h, src, true) ->
    passed_over C pk held bytes
| copy_held m x : envelope_message C pk bytes m -> x ∈ held -> sent_time x = sent_time m ->
    sender_handle x = sender_handle m -> text x = text m -> passed_over C pk held bytes.

(** [new] is what the envelopes leave, in this order, when [held] is in the history: a
    message of each, and none of those that are passed over. *)
Inductive read_batch (C : gmap string (string * ContactSource * bool)) (pk : list Z)
  : list Message -> list (list Z) -> list Message -> Prop :=
| read_end held : read_batch C pk held [] []
| read_kept held bytes rest m new : envelope_message C pk bytes m ->
    holds_received_copy held (sender_handle m) (sent_time m) (text m) = false ->
    read_batch C pk (held ++ [m]) rest new -> read_batch C pk held (bytes :: rest) (m :: new)
| read_passed held bytes rest new : passed_over C pk held bytes ->
    read_batch C pk held rest new -> read_batch C pk held (bytes :: rest) new.

(** The store holds [ms] and the contacts are [C]. *)
Definition holding (C : gmap string (string * ContactSource * bool)) (ms : list Message) (s : LocalState)
  : Prop := contacts (st s) = C /\ messages (st s) = ms.

Lemma holding_free C ms : acct_free (holding C ms).
Proof using. by intros f s. Qed.

Lemma not_blocked_spec addr s :
  is_mailbox_sender_blocked (Some addr) s = false -> is_blank addr = false ->
  match contacts s !! addr with Some (_, _, blocked) => blocked = false | None => True end.
Proof using.
  unfold is_mailbox_sender_blocked, is_blocked. intros Hb Hn. rewrite Hn in Hb.
  destruct (contacts s !! addr) as [[[h src] []]|]; done.
Qed.

Lemma blocked_spec who s :
  is_mailbox_sender_blocked who s = true ->
  exists addr h src, who = Some addr /\ contacts s !! addr = Some (h, src, true).
Proof using.
  unfold is_mailbox_sender_blocked, is_blocked. destruct who as [addr|]; [|done].
  destruct (is_blank addr); [done|]. destruct (contacts s !! addr) as [[[h src] []]|] eqn:E; [|done..]. eauto.
Qed.

Lemma received_copy_in ms sender sent txt :
  holds_received_copy ms sender sent txt = true ->
  exists x, x ∈ ms /\ sent_time x = sent /\ sender_handle x = sender /\ text x = txt.
Proof using.
  unfold holds_received_copy. destruct sent as [t|]; [|done].
  intros (x & Hx & [[Ht Hh]%andb_true_iff Htx]%andb_true_iff)%existsb_exists. exists x.
  split; [by apply list_elem_of_In, in_rev|]. by split_and!; eapply bool_decide_eq_true_1.
Qed.

Lemma receive_envelope_spec C ms pk own bytes :
  triple (on_state (holding C ms)) (receive_envelope (W := W) A P pk own bytes)
    (fun r => on_state (fun s =>
       match r with
       | Some m => holding C (ms ++ [m]) s /\ envelope_message C pk bytes m /\
                   holds_received_copy ms (sender_handle m) (sent_time m) (text m) = false
       | None => holding C ms s /\ passed_over C pk ms bytes
       end)).
Proof using.
  unfold receive_envelope. destruct (unseal_with_private_key P pk bytes) as [opened|e] eqn:Eu;
    [|by intros sw Hs; split; [|by eapply does_not_open]]. cbn zeta.
  intros [s w] [HC Hm]. unfold mbind, ST_bind, get_state. cbn [fst] in *.
  destruct (is_mailbox_sender_blocked _ (st s)) eqn:Eb.
  { split; [done|]. apply blocked_spec in Eb as (addr & h & src & Ha & Hc). eapply sender_blocked; [done..|]. by rewrite <- HC. }
  set (who := match byte_key_to_address A (op_sender_id opened) with Some _ => _ | None => _ end).
  assert (forall x, (who x).1.1 = x.1) as Hwho.
  { intros [x y]. subst who. destruct (byte_key_to_address _ _); [|done]. unfold outside.
    by destruct (chain_handle_for_address _ _ _). }
  specialize (Hwho (s, w)). destruct (who (s, w)) as [[s1 w1] h]. cbn in Hwho. subst s1.
  unfold now_millis, mbind, ST_bind, outside. destruct (epoch_ms w1) as [w2 t]. unfold mret, ST_ret.
  unfold in_store, record_mailbox_message. rewrite Hm. set (m := from_opened _ opened _ _ _).
  assert (envelope_message C pk bytes m) as He.
  { exists opened. split_and!; try done. intros addr Ha Hbl. rewrite Ha in Eb.
    rewrite <- HC. by apply not_blocked_spec. }
  destruct (holds_received_copy ms _ _ _) eqn:Ec; cbn; [rewrite on_store_id|by split_and!].
  split; [done|]. apply received_copy_in in Ec as (x & Hx & ? & ? & ?). by eapply copy_held.
Qed.

Lemma holding_note C ms r : keeps (on_state (holding C ms)) (note_mailbox_identity_refused (W := W) r).
Proof using. intros [s w] Hs. unfold note_mailbox_identity_refused, mbind, ST_bind, outside. by destruct (instant w). Qed.

Lemma poll_loop_spec fuel : forall C ms pk own mb acc,
  triple (on_state (holding C (ms ++ acc))) (poll_loop (W := W) A P fuel pk own mb acc)
    (fun r => on_state (fun s => forall acc' status, r = Some (acc', status) -> holding C (ms ++ acc') s)).
Proof using.
  induction fuel as [|fuel IH]; intros C ms pk own mb acc; cbn [poll_loop]; [by intros sw Hs|].
  assert (forall r : MailboxPollStatus, triple (on_state (W := W) (holding C (ms ++ acc))) (mret (Some (acc, r)))
    (fun r => on_state (fun s => forall acc' status, r = Some (acc', status) -> holding C (ms ++ acc') s))) as Hret.
  { intros r sw Hs acc' status [= <- <-]. done. }
  eapply triple_bind; [apply keeps_outside|]. intros [mb' [[bytes|]|e]].
  - eapply triple_bind; [apply receive_envelope_spec|]. intros [m|].
    + intros sw [Hs _]. rewrite <- app_assoc in Hs. revert sw Hs. apply IH.
    + intros sw [Hs _]. revert sw Hs. apply IH.
  - apply Hret.
  - destruct e; try apply Hret; destruct (mb_identity_refusal mb'); try apply Hret;
      (apply (triple_bind _ _ _ (fun _ => on_state (holding C (ms ++ acc))));
         [apply holding_note|intros _; apply Hret]).
Qed.

(** The poll ended with a batch that was appended to what the store held. *)
Definition poll_post (s : LocalState) (r : option MailboxPoll) (sw : LocalState * W) : Prop :=
  forall p, r = Some p -> exists new,
    contacts (st sw.1) = contacts (st s) /\ messages (st sw.1) = messages (st s) ++ new /\
    poll_messages p = sort_by older new.

Lemma poll_nothing s status :
  triple (on_state (holding (contacts (st s)) (messages (st s)))) (mret (Some (MkMailboxPoll [] status)))
    (poll_post s).
Proof using.
  intros sw [HC Hm] p [= <-]. exists []. rewrite app_nil_r. by split_and!.
Qed.

Lemma poll_spec s fuel : triple (fun sw => sw.1 = s) (poll_mailbox (W := W) A P fuel) (poll_post s).
Proof using.
  apply triple_get.
  eapply (triple_conseq _ (on_state (holding (contacts (st s)) (messages (st s)))));
    [|intros sw Hs; unfold on_state, holding; by rewrite Hs|intros a sw Hq; exact Hq].
  pose proof (poll_nothing s) as Hno. set (C := contacts (st s)) in *. set (ms := messages (st s)) in *.
  destruct (_ || _); [apply Hno|].
  eapply triple_bind; [apply keeps_refusal_holds|]. intros [|]; [apply Hno|].
  destruct (keypair (acct s)) as [kp|] eqn:Ek; [|apply Hno].
  destruct (seed_from_passphrase A (passphrase kp)) as [pk|e] eqn:Epk; [|apply Hno].
  eapply triple_bind; [apply keeps_get_algo_ops, holding_free|]. intros [ops|e]; [|apply Hno].
  eapply triple_bind; [apply keeps_get_mailbox, holding_free|]. intros [mb|e]; [|apply Hno].
  eapply triple_bind; [apply keeps_sender_handle, holding_free|]. intros own.
  eapply triple_bind.
  { apply (triple_conseq _ (on_state (holding C (ms ++ []))) _ _ _ (poll_loop_spec fuel C ms pk (result_ok own) mb [])); [intros sw Hs; by rewrite app_nil_r|intros a sw Hq; exact Hq]. }
  intros r. apply triple_ret. intros sw Hs p Hp. destruct r as [[acc status]|]; [|done].
  cbn in Hp. injection Hp as <-. destruct (Hs acc status eq_refl) as [HC Hm]. by exists acc.
Qed.

(** *** What was popped *)

Section Popped.
Context (popped : W -> list (list Z)) `{!MailboxLog W popped}.

Definition logged (l : list (list Z)) (sw : LocalState * W) : Prop := popped sw.2 = l.

Lemma logged_outside {B} l (f : W -> W * B) : (forall w, popped (f w).1 = popped w) -> keeps (logged l) (outside f).
Proof using. intros Hf [s w] Hl. unfold outside, logged in *. specialize (Hf w). destruct (f w). cbn in *. congruence. Qed.

Lemma logged_update l f : keeps (logged l) (update (W := W) f).
Proof using. by intros [s w] Hl. Qed.

Lemma logged_get {B} l (k : LocalState -> L (W := W) B) : (forall s, keeps (logged l) (k s)) -> keeps (logged l) (get_state ≫= k).
Proof using. intros Hk [s w] Hl. by apply (Hk s). Qed.

(** Walks through a computation that pops nothing. *)
Ltac logs :=
  repeat first
    [ match goal with H : context [keeps _ _] |- _ => apply H end
    | match goal with
      | |- keeps _ (mret _) => apply keeps_ret
      | |- keeps _ (outside _) => apply logged_outside; intros ?; first [apply log_epoch|apply log_instant|apply log_successor|apply log_handle|apply log_open]
      | |- keeps _ (update _) => apply logged_update
      | |- keeps _ (update_acct _) => apply logged_update
      | |- keeps _ (update_store _) => apply logged_update
      | |- keeps _ (get_state ≫= _) => apply logged_get; intros ?
      | |- keeps _ (st_try _ _) => apply keeps_try; [|intros ?]
      | |- keeps _ (_ ≫= _) => apply keeps_bind; [|intros ?]
      | |- keeps _ (match ?x with _ => _ end) => destruct x
      end
    | progress cbn zeta ].

Lemma logged_facts pass a app asset fallback w :
  popped (resolve_account_status pass a app asset fallback w).1 = popped w.
Proof using All.
  assert (forall l, keeps (fun w => popped w = l) (resolve_account_status pass a app asset fallback)) as Hk.
  { intros l. unfold resolve_account_status. apply keeps_try.
    { destruct (0 <? asset); [|apply keeps_ret]. intros x <-. apply log_asset. }
    intros has. apply keeps_try. { destruct (has && (0 <? app)); [|apply keeps_ret]. intros x <-. apply log_handle. }
    intros h. destruct (has && _); [apply keeps_ret|].
    apply keeps_try; [intros x <-; apply log_balance|]. intros bal.
    apply keeps_bind; [intros x <-; apply log_funding|]. intros ?. apply keeps_ret. }
  by apply Hk.
Qed.

Lemma logged_ops l : keeps (logged l) (get_algo_ops (W := W)).
Proof using. unfold get_algo_ops. logs. Qed.

Lemma logged_sender_handle l : keeps (logged l) (Account.sender_handle (W := W)).
Proof using All.
  pose proof (logged_ops l) as Ho.
  assert (forall pass a app asset, keeps (logged l) (account_status_from_chain (W := W) pass a app asset)) as Ha.
  { intros. unfold account_status_from_chain. apply keeps_try; [|intros; apply keeps_ret].
    apply logged_outside. intros w. apply logged_facts. }
  assert (keeps (logged l) (keypair_status (W := W))) as Hk
    by (unfold keypair_status, memo_status, chain_status, successor_app, fallback_status, cache_status; logs).
  unfold Account.sender_handle, resolve_sender_handle. logs.
Qed.

Lemma logged_receive l pk own bytes : keeps (logged l) (receive_envelope (W := W) A P pk own bytes).
Proof using All.
  unfold receive_envelope, now_millis. logs. intros [s1 w1] Hl. unfold in_store. by destruct (record_mailbox_message _ _).
Qed.

(** The holdings of the store and what was popped so far. *)
Definition reading C ms l (sw : LocalState * W) : Prop := on_state (holding C ms) sw /\ logged l sw.

Lemma reading_keeps {B} C ms l (m : L (W := W) B) :
  keeps (on_state (holding C ms)) m -> keeps (logged l) m -> keeps (reading C ms l) m.
Proof using. intros H1' H2' sw [Ha Hb]. split; [by apply H1'|by apply H2']. Qed.

Lemma poll_loop_reads fuel : forall C ms pk own mb acc l,
  triple (reading C (ms ++ acc) l) (poll_loop (W := W) A P fuel pk own mb acc)
    (fun r sw => forall acc' status, r = Some (acc', status) -> exists batch new,
       acc' = acc ++ new /\ holding C (ms ++ acc') sw.1 /\ popped sw.2 = l ++ batch /\ read_batch C pk (ms ++ acc) batch new).
Proof using All.
  induction fuel as [|fuel IH]; intros C ms pk own mb acc l; cbn [poll_loop]; [by intros sw Hs|].
  assert (forall r : MailboxPollStatus, triple (reading C (ms ++ acc) l) (mret (Some (acc, r)))
    (fun r sw => forall acc' status, r = Some (acc', status) -> exists batch new,
       acc' = acc ++ new /\ holding C (ms ++ acc') sw.1 /\ popped sw.2 = l ++ batch /\ read_batch C pk (ms ++ acc) batch new)) as Hret.
  { intros r sw [Hh Hl] acc' status [= <- <-]. exists [], []. rewrite !app_nil_r. split_and!; [done|exact Hh|done|constructor]. }
  eapply (triple_bind _ _ _ (fun p => reading C (ms ++ acc)
    (l ++ match p.2 with Ok (Some bytes) => [bytes] | _ => [] end))).
  { intros [s w] [Hh Hl]. unfold outside, reading, logged in *. pose proof (log_pop mb w) as Hp.
    destruct (mailbox_pop mb w) as [w' [mb' r]]. cbn in *. split; [exact Hh|]. by rewrite Hp, Hl. }
  intros [mb' [[bytes|]|e]]; cbn [snd].
  - eapply (triple_bind _ _ _ (fun r sw => match r with
      | Some m => reading C (ms ++ acc ++ [m]) (l ++ [bytes]) sw /\ envelope_message C pk bytes m /\
                  holds_received_copy (ms ++ acc) (sender_handle m) (sent_time m) (text m) = false
      | None => reading C (ms ++ acc) (l ++ [bytes]) sw /\ passed_over C pk (ms ++ acc) bytes
      end)).
    { intros sw [Hh Hl]. pose proof (receive_envelope_spec C (ms ++ acc) pk own bytes sw Hh) as Hr.
      pose proof (logged_receive (l ++ [bytes]) pk own bytes sw Hl) as Hl'.
      destruct (receive_envelope A P pk own bytes sw) as [sw' [m|]]; cbn [fst snd] in *; destruct Hr as [Hr Hm].
      - split; [|done]. split; [by rewrite app_assoc|done].
      - by split. }
    intros [m|].
    + intros sw [Hs [He Hc]] acc' status E. destruct (IH C ms pk own mb' (acc ++ [m]) (l ++ [bytes]) sw Hs acc' status E)
        as (batch & new & -> & Hh & Hp & Hb). exists (bytes :: batch), (m :: new). rewrite <- !app_assoc in *.
      split_and!; [done|exact Hh|by rewrite Hp|]. apply read_kept; [done|done|]. by rewrite <- app_assoc.
    + intros sw [Hs Hpass] acc' status E. destruct (IH C ms pk own mb' acc (l ++ [bytes]) sw Hs acc' status E)
        as (batch & new & -> & Hh & Hp & Hb). exists (bytes :: batch), new. rewrite <- app_assoc in Hp.
      split_and!; [done|exact Hh|by rewrite Hp|]. by apply read_passed.
  - rewrite app_nil_r. apply Hret.
  - rewrite app_nil_r. destruct e; try apply Hret; destruct (mb_identity_refusal mb'); try apply Hret;
      (apply (triple_bind _ _ _ (fun _ => reading C (ms ++ acc) l)); [|intros _; apply Hret]);
      apply reading_keeps; try apply holding_note; unfold note_mailbox_identity_refused; logs.
Qed.

Lemma poll_reads s l fuel :
  triple (fun sw => sw.1 = s /\ logged l sw) (poll_mailbox (W := W) A P fuel)
    (fun r sw => forall p, r = Some p -> exists batch new,
       holding (contacts (st s)) (messages (st s) ++ new) sw.1 /\
       poll_messages p = sort_by older new /\ popped sw.2 = l ++ batch /\
       ((batch = [] /\ new = []) \/ exists pk, own_private_key s = Some pk /\
          read_batch (contacts (st s)) pk (messages (st s)) batch new)).
Proof using All.
  set (Q := fun r sw => _).
  assert (forall status, triple (reading (contacts (st s)) (messages (st s)) l)
    (mret (Some (MkMailboxPoll [] status))) Q) as Hno.
  { intros status sw [Hh Hl] p [= <-]. exists [], []. rewrite !app_nil_r. split_and!; [exact Hh|done|done|by left]. }
  assert (forall B (k : LocalState -> L (W := W) B) (R : B -> LocalState * W -> Prop),
    triple (reading (contacts (st s)) (messages (st s)) l) (k s) R ->
    triple (fun sw => sw.1 = s /\ logged l sw) (get_state ≫= k) R) as Hget.
  { intros B k R Hk [s' w] [Hs Hl]. cbn in Hs. subst s'. by apply Hk. }
  apply Hget. clear Hget.
  destruct (_ || _); [apply Hno|].
  eapply triple_bind; [apply reading_keeps; [apply keeps_refusal_holds|unfold mailbox_identity_refusal_holds; logs]|].
  intros [|]; [apply Hno|].
  destruct (keypair (acct s)) as [kp|] eqn:Ek; [|apply Hno].
  destruct (seed_from_passphrase A (passphrase kp)) as [pk|e] eqn:Epk; [|apply Hno].
  eapply triple_bind; [apply reading_keeps; [apply keeps_get_algo_ops, holding_free|apply logged_ops]|]. intros [ops|e]; [|apply Hno].
  eapply triple_bind; [apply reading_keeps; [apply keeps_get_mailbox, holding_free|]|].
  { pose proof (logged_ops l). unfold get_mailbox. logs. }
  intros [mb|e]; [|apply Hno].
  eapply triple_bind; [apply reading_keeps; [apply keeps_sender_handle, holding_free|apply logged_sender_handle]|]. intros own.
  eapply triple_bind.
  { eapply (triple_conseq _ _ _ _ _ (poll_loop_reads fuel (contacts (st s)) (messages (st s)) pk (result_ok own) mb [] l));
      [intros sw Hs; by rewrite app_nil_r|intros a sw Hq; exact Hq]. }
  intros r. apply triple_ret. intros sw Hs p Hp. destruct r as [[acc status]|]; [|done].
  cbn in Hp. injection Hp as <-. destruct (Hs acc status eq_refl) as (batch & new & -> & Hh & Hpop & Hb).
  exists batch, new. split_and!; [exact Hh|done|done|]. right. exists pk. rewrite app_nil_r in Hb.
  split; [unfold own_private_key; by rewrite Ek, Epk|done].
Qed.

End Popped.

(** ** Status updates *)

Lemma find_update_first id f ms :
  (forall m, msg_id (f m) = msg_id m) ->
  find_message id (update_first id f ms) = f <$> find_message id ms.
Proof using.
  intros Hf. unfold find_message. induction ms as [|m ms IH]; [done|]. cbn [update_first find].
  destruct (decide (msg_id m = id)) as [E|E].
  - rewrite (bool_decide_eq_true_2 _ E). cbn [find]. by rewrite Hf, (bool_decide_eq_true_2 _ E).
  - rewrite (bool_decide_eq_false_2 _ E). cbn [find]. by rewrite (bool_decide_eq_false_2 _ E), IH.
Qed.

Lemma update_first_twice id f g ms :
  (forall m, msg_id (f m) = msg_id m) ->
  update_first id g (update_first id f ms) = update_first id (fun m => g (f m)) ms.
Proof using.
  intros Hf. induction ms as [|m ms IH]; [done|]. cbn [update_first]. case_decide as E; cbn [update_first].
  - rewrite decide_True by (by rewrite Hf). done.
  - rewrite decide_False by done. by rewrite IH.
Qed.

(** One step of a run: a read or an update of the state. *)
Ltac run_state E :=
  match type of E with
  | (get_state ≫= ?k) (?s, ?w) = ?r => change (k s (s, w) = r) in E
  | (update_store ?f ≫= ?k) (?s, ?w) = ?r => change (k tt (on_store f s, w) = r) in E
  end; cbn beta zeta in E.

(** The messages are [ms], [id] has been nudged for and the settings are [c]. *)
Definition failing (ms : list Message) (id : string) (c : LocalApiConfig) (s : LocalState) : Prop :=
  messages (st s) = ms /\ id ∈ nudged_messages (st s) /\ config s = c.

Lemma failing_free ms id c : acct_free (failing ms id c).
Proof using. by intros f s. Qed.

#[local] Instance failing_forward ms id c : ForwardStable (failing ms id c).
Proof using. by split. Qed.

(** A failed send: the message after the outcome of forwarding, the rest as it was. *)
Definition failed_post (id : string) (hs : list string) (ms : list Message) (c : LocalApiConfig)
    (sw : LocalState * W) : Prop :=
  exists o, messages (st sw.1) = update_first id (with_outcome o) ms /\
    id ∈ nudged_messages (st sw.1) /\ config sw.1 = c /\
    (o = Forwarded <-> (gate_on c = true /\ forall h, h ∈ hs -> (id, h) ∈ forwarded_messages (st sw.1))).

Lemma forward_failed id sent hs txt ms c m :
  find_message id ms = Some m ->
  triple (on_state (failing ms id c))
    (outcome ← forward_message_to_mailbox (W := W) A P id sent hs txt;
     _ ← apply_forward_outcome id outcome;
     mret (Ok tt : result unit BingleError))
    (fun r sw => r = Ok tt /\ failed_post id hs ms c sw).
Proof using.
  intros Hm [s w] Hs.
  pose proof (keeps_forward A P (failing ms id c) (failing_free _ _ _) id sent hs txt (s, w) Hs) as Hf.
  pose proof (forward_spec s id sent hs txt (s, w) eq_refl) as [_ Hp].
  unfold mbind, ST_bind. destruct (forward_message_to_mailbox A P id sent hs txt (s, w)) as [[s1 w1] o].
  destruct Hf as (Hms & Hn & Hc). destruct Hs as (_ & _ & Hc0). cbn [fst snd] in *.
  unfold apply_forward_outcome, in_store. rewrite Hms, Hm. cbn [fst snd mret ST_ret].
  split; [done|]. exists o. cbn. split_and!; [done|done|done|]. rewrite <- Hc0. split.
  - intros ->. exact Hp.
  - intros [Hg Hall]. destruct o; [congruence|done|]. destruct Hp as (h & Hh & Hno). by destruct (Hno (Hall h Hh)).
Qed.

(** The same with the nudge before it, run from a state. *)
Lemma failed_run id ms c m (nudged : bool) sent hs txt s w s' w' r :
  find_message id ms = Some m -> failing ms id c s ->
  (_ ← (if nudged then mret tt else notify_giveup A hs);
   outcome ← forward_message_to_mailbox (W := W) A P id sent hs txt;
   _ ← apply_forward_outcome id outcome;
   mret (Ok tt : result unit BingleError)) (s, w) = ((s', w'), r) ->
  r = Ok tt /\ failed_post id hs ms c (s', w').
Proof using.
  intros Hm Hs E. refine (triple_run (on_state (failing ms id c)) _ (fun r sw => r = Ok tt /\ failed_post id hs ms c sw)
    (s, w) _ _ _ Hs E).
  apply (triple_bind _ _ _ (fun _ => on_state (failing ms id c))).
  - destruct nudged; [apply keeps_ret|]. apply (keeps_notify_giveup A), failing_free.
  - intros _. by eapply forward_failed.
Qed.

(** The route of a report of success. *)
Definition status_route (id : string) (p : Z) (reason : option string) (s : LocalState) : option DeliveryRoute :=
  if (100 <=? p) && bool_decide (reason = None)
  then Some (if any_recipient_forwarded id (st s) then StoreAndForward else Direct) else None.

(** A status report changes the message; when that leaves it with a failure it also tries
    to forward it. *)
Lemma update_status_run s w s' w' id p reason kind r :
  update_message_status A P id p reason kind (s, w) = ((s', w'), r) ->
  match find_message id (messages (st s)) with
  | None => is_ok r = false /\ s' = s /\ w' = w
  | Some m =>
      let f := with_status p reason kind (status_route id p reason s) in
      r = Ok tt /\ config s' = config s /\
      match failure_reason (f m) with
      | None => w' = w /\ messages (st s') = update_first id f (messages (st s))
      | Some _ => failed_post id (recipient_handles m) (update_first id f (messages (st s))) (config s) (s', w')
      end
  end.
Proof using.
  unfold update_message_status. intros E. run_state E. fold (status_route id p reason s) in E.
  destruct (find_message id (messages (st s))) as [m|] eqn:Em; [|by injection E as <- <- <-].
  cbn zeta. set (f := with_status p reason kind (status_route id p reason s)) in *. run_state E.
  destruct (failure_reason (f m)) eqn:Ef; [|by injection E as <- <- <-].
  run_state E. run_state E.
  apply (failed_run id (update_first id f (messages (st s))) (config s) (f m)) in E as [-> Hp].
  - split_and!; [done| |done]. by destruct Hp as (o & _ & _ & Hc & _).
  - by rewrite find_update_first, Em.
  - split_and!; [done|cbn; set_solver|done].
Qed.

(** A status report does what it says.  For an unknown message it fails and changes
    nothing.  A report of success completes the message, clears its failure and sets its
    route, through the mailbox exactly when a recipient was forwarded to, without
    touching the network.  A report of failure records the reason and the cause, remembers
    that the recipients were nudged, and tries to forward: the message is complete by
    store-and-forward exactly when every recipient has been posted to, and otherwise keeps
    the reported progress, reason and cause. *)
Theorem status_update_spec s w s' w' id p reason kind r :
  update_message_status A P id p reason kind (s, w) = ((s', w'), r) ->
  match find_message id (messages (st s)) with
  | None => is_ok r = false /\ s' = s /\ w' = w
  | Some m =>
      r = Ok tt /\
      match reason with
      | None => 100 <= p -> w' = w /\
          messages (st s') = update_first id (with_status p None kind
            (Some (if any_recipient_forwarded id (st s) then StoreAndForward else Direct))) (messages (st s))
      | Some _ =>
          failed_post id (recipient_handles m)
            (update_first id (with_status p reason kind None) (messages (st s))) (config s) (s', w')
      end
  end.
Proof using.
  intros E%update_status_run. unfold status_route in E.
  destruct (find_message id (messages (st s))) as [m|]; [|done]. destruct E as (-> & _ & E). split; [done|].
  destruct reason as [x|].
  - rewrite (bool_decide_eq_false_2 (Some x = None)), andb_false_r in E by done. exact E.
  - intros Hp. rewrite (bool_decide_eq_true_2 (None = None)), andb_true_r in E by done.
    cbn [failure_reason with_status] in E. destruct (100 <=? p) eqn:Ep; [|lia]. by rewrite orb_true_r in E.
Qed.
End Theorems.

(** ** Runs in the small world *)

Module Demo.

(** The mailbox of the client, which remembers what it has handed out. *)
Definition with_popped (bytes : list (list Z)) (w : SmallClient.world) : SmallClient.world :=
  SmallClient.MkWorld (SmallClient.w_time w) (SmallClient.w_up w) (SmallClient.w_sent w) (SmallClient.w_queue w)
    (SmallClient.w_result w) (SmallClient.w_alerts w) bytes.

#[export] Instance demo_mailbox : MailboxClient SmallClient.world := {|
  open_mailbox := mailbox_new;
  mailbox_post m recipient message := run_mailbox (try_post 40 recipient message) m;
  mailbox_pop m w :=
    let '(w', (m', r)) := run_mailbox (pop 40) m w in
    (with_popped (SmallClient.w_popped w ++ match r with Ok (Some bytes) => [bytes] | _ => [] end) w', (m', r))
|}.

#[export] Instance demo_log : MailboxLog SmallClient.world SmallClient.w_popped.
Proof.
  split; try done. intros m w. cbn. by destruct (run_mailbox (pop 40) m w) as [w' [m' [[b|]|e]]].
Qed.

Definition run (ops : list store_op) (up : bool) (queue : list (list Z)) :=
  run_store_ops SmallClient.client_algo Toy.toy ops
    (LocalState_new SmallClient.client_config, SmallClient.fresh_world up queue).

(** Bob has queued a message for Alice. *)
Definition queued : LocalState * SmallClient.world := Eval vm_compute in
  (run [AcctOp (OpImport "bob"); AcctOp OpStatus; QueueMessage ["alice"]%string "hi"] true []).1.

Definition queued_id : string := Eval vm_compute in
  default EmptyString (msg_id <$> head (messages (st queued.1))).

(** What arrives at Bob from Alice: sealed for his key. *)
Definition from_alice : list Z := Eval vm_compute in
  default [] (result_ok (seal_from_private_key Toy.toy 5 (to_be_bytes 16 9) (as_bytes "alice")
                           (to_be_bytes 32 (from_be_bytes (as_bytes "bob"))) 777 "hello")).

(** A client of Bob's with that envelope in his mailbox, twice. *)
Definition waiting : LocalState * SmallClient.world := Eval vm_compute in
  (run [AcctOp (OpImport "bob")] true [from_alice; from_alice]).1.

(** After forwarding, and after a restart with other settings. *)
Definition handed_off : LocalState * SmallClient.world := Eval vm_compute in
  (forward_message_to_mailbox SmallClient.client_algo Toy.toy queued_id 5 ["alice"]%string "hi" queued).1.

Definition restarted : LocalState * SmallClient.world := Eval vm_compute in
  (run_store_ops SmallClient.client_algo Toy.toy [Restart; SetNotify false None] handed_off).1.
End Demo.

Existing Instances Demo.demo_mailbox Demo.demo_log.

Lemma store_invariant_witness :
  let ops := [AddReceived "alice" ["bob"] 5 (Some "x") "" None (Some 3) None;
              AddReceived "alice" ["bob"] 9 (Some "x") "" None (Some 3) None]%string in
  let s := (Demo.run ops true []).1.1 in
  length (messages (st s)) = 1%nat /\
  (forall m, m ∈ messages (st s) -> is_Some (delivery_route m) -> is_pending m = false /\ failure_reason m = None).
Proof.
  intros ops s. split; [vm_compute; reflexivity|].
  refine (proj1 (store_invariant SmallClient.client_algo Toy.toy SmallClient.client_config ops
    (SmallClient.fresh_world true []) s (Demo.run ops true []).1.2 _)).
  vm_compute. reflexivity.
Defined.

Lemma forward_sound_witness :
  (Demo.queued_id, "alice"%string) ∈ forwarded_messages (st Demo.handed_off.1).
Proof.
  assert (forward_message_to_mailbox SmallClient.client_algo Toy.toy Demo.queued_id 5 ["alice"]%string "hi"
    (Demo.queued.1, Demo.queued.2) = ((Demo.handed_off.1, Demo.handed_off.2), Forwarded)) as E
    by (vm_compute; reflexivity).
  pose proof (forward_sound SmallClient.client_algo Toy.toy _ _ _ _ _ _ _ _ _ E) as (_ & _ & _ & _ & _ & Hall).
  refine (Hall "alice"%string _). left.
Defined.

Lemma forward_once_witness :
  exists o, forward_message_to_mailbox SmallClient.client_algo Toy.toy Demo.queued_id 6 ["alice"]%string "hi"
    (Demo.restarted.1, Demo.restarted.2) = ((Demo.restarted.1, Demo.restarted.2), o) /\
    (o = Forwarded \/ o = ForwardDisabled).
Proof.
  assert (forward_message_to_mailbox SmallClient.client_algo Toy.toy Demo.queued_id 5 ["alice"]%string "hi"
    (Demo.queued.1, Demo.queued.2) = ((Demo.handed_off.1, Demo.handed_off.2), Forwarded)) as E1
    by (vm_compute; reflexivity).
  assert (run_store_ops SmallClient.client_algo Toy.toy [Restart; SetNotify false None]
    (Demo.handed_off.1, Demo.handed_off.2) = ((Demo.restarted.1, Demo.restarted.2), tt)) as E2
    by (vm_compute; reflexivity).
  pose proof (forward_once SmallClient.client_algo Toy.toy _ _ _ _ _ _ _ _ _ _ _ ["alice"]%string 6 "hi" E1 E2) as F.
  refine (F _). intros h Hh. exact Hh.
Defined.


Lemma status_update_spec_witness :
  let r := update_message_status SmallClient.client_algo Toy.toy Demo.queued_id 100 None None Demo.queued in
  r.2 = Ok tt /\ get_pending_messages (st r.1.1) = [].
Proof.
  intros r.
  destruct (status_update_spec SmallClient.client_algo Toy.toy Demo.queued.1 Demo.queued.2 r.1.1 r.1.2
    Demo.queued_id 100 None None r.2 ltac:(vm_compute; reflexivity)) as [Hr Hm].
  split; [exact Hr|]. destruct Hm as [_ Hm]; [lia|]. unfold get_pending_messages. rewrite Hm. vm_compute. reflexivity.
Defined.

(** A bare report of progress forwards: when a message whose earlier attempt failed
    while the mailbox was down is tried again, the first progress of the new direct
    attempt, half done and with no failure, posts the message to the mailbox and shows it
    as delivered by store-and-forward while that attempt is still running. *)
Theorem progress_report_forwards :
  let fail := update_message_status SmallClient.client_algo Toy.toy Demo.queued_id 0
                (Some "Recipient unreachable — will keep retrying"%string) (Some PeerUnreachable)
                (Demo.queued.1, SmallClient.MkWorld 2000 false [] [] [] [] []) in
  let again := update_message_status SmallClient.client_algo Toy.toy Demo.queued_id 50 None None
                 (fail.1.1, SmallClient.fresh_world true []) in
  (is_pending <$> messages (st fail.1.1)) = [true] /\
  (progress <$> messages (st again.1.1)) = [Some 100] /\
  (delivery_route <$> messages (st again.1.1)) = [Some StoreAndForward] /\
  length (SmallClient.w_sent again.1.2) = 1%nat.
Proof. vm_compute. done. Qed.
