(* ===== verification/PendingSender.v ===== *)
(** * The background sender of pending messages

    Models [src/bingle_local/src/api/pending_sender.rs]: one attempt at a message
    ([send_one]), a turn of the scheduler ([run_scheduler]), the flush on exit
    ([PendingSender::shutdown]), and the threads of the scheduler, the worker and the
    client that shuts down, as a step relation on what they share.

    The traits [OutboundStore] and [MessageDelivery] are classes.  The theorems about
    the sender are proved from the laws of [OutboundLaws], which the instance over the
    local store ([LocalOutboundStore]) satisfies. *)
From S2P Require Import Prelude LocalTypes SendRetry Mailbox Account LocalStore.
From S2P Require Import Envelope Api.
Import Account LocalTypes.

Local Open Scope Z_scope.

(** ** The store as the sender sees it *)

(** The trait [OutboundStore]; a percentage is the source's fraction times 100. *)
Class OutboundStore (S : Type) := {
  pending_messages : S -> result (list Message) BingleError;
  record_status : string -> Z -> option string -> option SendFailureKind -> ST S (result unit BingleError);
  store_and_forward_send : S -> bool;
  is_handed_off : string -> S -> bool;
  shown_failure_reason : string -> S -> option string
}.

(** What sending uses of the system: the delivery of a text with its send time to a
    recipient, which reports percentages in order and returns or panics ([None]); the
    clock; the check that the transport is ready. *)
Class SenderWorld (D : Type) := {
  deliver : string -> string -> Z -> D -> D * (list Z * option (result bool BingleError));
  instant_now : D -> D * Z;
  ready : D -> D * bool
}.

(** The message [id] holds after a record of [p], [reason] and [kind], given the
    message before and whether the store forwards. *)
Definition recorded (forwards : bool) (p : Z) (reason : option string) (m m' : Message) : Prop :=
  recipient_handles m' = recipient_handles m /\ text m' = text m /\ timestamp m' = timestamp m /\
  msg_id m' = msg_id m /\
  match reason with
  | None => 100 <= p -> progress m' = Some p /\ failure_reason m' = None
  | Some r =>
      (forwards = true /\ progress m' = Some 100 /\ failure_reason m' = None /\
       delivery_route m' = Some StoreAndForward) \/
      (progress m' = Some p /\ failure_reason m' = Some r)
  end.

(** What a store promises the sender.  [entry] is the message with an identifier. *)
Class OutboundLaws (S : Type) `{OutboundStore S} := {
  entry : string -> S -> option Message;
  store_wf : S -> Prop;
  entry_id : forall id s m, entry id s = Some m -> msg_id m = id;
  pending_spec : forall s, store_wf s -> exists ms, pending_messages s = Ok ms /\ NoDup (msg_id <$> ms) /\
    forall m, m ∈ ms <-> entry (msg_id m) s = Some m /\ is_pending m = true;
  record_spec : forall id p reason kind s m, store_wf s -> entry id s = Some m ->
    exists s' m', record_status id p reason kind s = (s', Ok tt) /\ store_wf s' /\
      entry id s' = Some m' /\ recorded (store_and_forward_send s) p reason m m' /\
      (forall id', id' <> id -> entry id' s' = entry id' s) /\
      store_and_forward_send s' = store_and_forward_send s;
  handed_off_spec : forall id s, store_wf s ->
    is_handed_off id s = match entry id s with
                         | Some m => bool_decide (progress m = Some 100) && bool_decide (failure_reason m = None)
                         | None => false
                         end;
  shown_reason_spec : forall id s, store_wf s ->
    shown_failure_reason id s = entry id s ≫= display_failure_reason
}.

(** ** Outcomes and reports *)

Inductive SendOutcome : Type :=
| Delivered
| ForwardedTo (reason : string)
| Retrying (reason : string)
| Failed (reason : string).

Record SendReport : Type := MkSendReport {
  rep_id : string;
  rep_recipients : list string;
  rep_outcome : SendOutcome;
  previously_failed : bool
}.

Record PendingSenderOptions : Type := MkPendingSenderOptions {
  tick : Z;
  retries_enabled : bool;
  watchdog : Z;
  offline_window : Z
}.

Definition PendingSenderOptions_new : PendingSenderOptions :=
  MkPendingSenderOptions 200 true 45000 OFFLINE_WINDOW.

Record ShutdownEntry : Type := MkShutdownEntry { se_id : string; se_recipients : list string }.

Inductive NotSentReason : Type :=
| StoreForwardOff
| PostFailed
| InFlight
| DeadlineReached.

Record ShutdownReport : Type := MkShutdownReport {
  forwarded : list ShutdownEntry;
  not_sent : list (ShutdownEntry * NotSentReason)
}.

Inductive Event : Type :=
| Done (id : string) (report : SendReport)
| Wake
| Stop.

(** ** One attempt *)

Section Sending.
Context {S D : Type} `{OutboundStore S} `{SenderWorld D}.

(** The store, the recipients found offline and the rest of the system. *)
Record Sender : Type := MkSender { sd_store : S; sd_offline : OfflineWindow; sd_world : D }.

Definition in_world {A} (f : D -> D * A) : ST Sender A :=
  fun s => let '(w, a) := f (sd_world s) in (MkSender (sd_store s) (sd_offline s) w, a).
Definition on_offline (f : OfflineWindow -> OfflineWindow) : ST Sender unit :=
  modify (fun s => MkSender (sd_store s) (f (sd_offline s)) (sd_world s)).
Definition in_outbound {A} (f : ST S A) : ST Sender A :=
  fun s => let '(t, a) := f (sd_store s) in (MkSender t (sd_offline s) (sd_world s), a).

(** The progress callback, for each percentage reported. *)
Fixpoint report_progress (id : string) (percents : list Z) : ST Sender unit :=
  match percents with
  | [] => mret tt
  | p :: percents => _ ← in_outbound (record_status id p None None); report_progress id percents
  end.

(** Whether the recipient is skipped: the clock is read only when forwarding. *)
Definition recently_offline (forwarding : bool) (recipient : string) : ST Sender bool :=
  if forwarding then
    now ← in_world instant_now;
    s ← get_st;
    mret (is_offline recipient now (sd_offline s))
  else mret false.

(** The recipients in order, with the failure of the last attempt that failed. *)
Fixpoint attempt (msg : Message) (forwarding : bool) (recipients : list string) (last : option SendFailure)
  : ST Sender (option SendFailure) :=
  match recipients with
  | [] => mret last
  | recipient :: recipients =>
      skip ← recently_offline forwarding recipient;
      if (skip : bool)
      then mret (classify_send_error (Err (Send PeerUnreachable (recipient +:+ " is offline (a recent send failed)"))))
      else
        r ← in_world (deliver recipient (text msg) (timestamp msg));
        _ ← report_progress (msg_id msg) r.1;
        match classify_send_error (default (Err (Send NotReady "send panicked")) r.2) with
        | None => _ ← on_offline (clear_offline recipient); attempt msg forwarding recipients last
        | Some failure =>
            _ ← (if indicates_peer_offline (sf_kind failure) then
                   now ← in_world instant_now; on_offline (mark_offline recipient now)
                 else mret tt);
            if is_retryable (sf_kind failure) then mret (Some failure)
            else attempt msg forwarding recipients (Some failure)
        end
  end.

Definition record_outcome (msg : Message) (retries : bool) (last : option SendFailure)
  : ST Sender SendOutcome :=
  match last with
  | None => _ ← in_outbound (record_status (msg_id msg) 100 None None); mret Delivered
  | Some failure =>
      let transient := retries && is_retryable (sf_kind failure) in
      _ ← in_outbound (record_status (msg_id msg) (if transient then 0 else 100)
                         (Some (sf_reason failure)) (Some (sf_kind failure)));
      s ← get_st;
      if store_and_forward_send (sd_store s) && is_handed_off (msg_id msg) (sd_store s)
      then mret (ForwardedTo (sf_reason failure))
      else
        let reason := default (sf_reason failure) (shown_failure_reason (msg_id msg) (sd_store s)) in
        mret (if transient then Retrying reason else Failed reason)
  end.

Definition send_one (msg : Message) (retries : bool) : ST Sender SendReport :=
  s ← get_st;
  last ← attempt msg (store_and_forward_send (sd_store s)) (recipient_handles msg) None;
  outcome ← record_outcome msg retries last;
  mret (MkSendReport (msg_id msg) (recipient_handles msg) outcome (bool_decide (is_Some (failure_reason msg)))).

(** ** The scheduler *)

(** The variables of the scheduler's loop. *)
Record SchedulerState : Type := MkSchedulerState {
  sc_in_flight : option (string * Z);
  warned_stuck : bool;
  retry_after : gmap string Z
}.

Definition SchedulerState_new : SchedulerState := MkSchedulerState None false ∅.

(** An event taken at [now]; [None] is the timeout of a tick.  Also whether the loop
    goes on, and the report handed to the callback. *)
Definition handle_event (e : option Event) (now : Z) (s : SchedulerState)
  : bool * option SendReport * SchedulerState :=
  match e with
  | Some (Done id report) =>
      let retry := match rep_outcome report with
                   | Retrying _ => <[id := now + RETRY_BACKOFF]> (retry_after s)
                   | _ => base.delete id (retry_after s)
                   end in
      let mine := match sc_in_flight s with Some (t, _) => bool_decide (t = id) | None => false end in
      (true, Some report,
       MkSchedulerState (if mine then None else sc_in_flight s) (if mine then false else warned_stuck s) retry)
  | Some Wake | None => (true, None, s)
  | Some Stop => (false, None, s)
  end.

(** The watchdog: a send taking long is noted once. *)
Definition note_stuck (o : PendingSenderOptions) (now : Z) (s : SchedulerState) : SchedulerState :=
  match sc_in_flight s with
  | Some (_, since) =>
      if negb (warned_stuck s) && (watchdog o <? now - since)
      then MkSchedulerState (sc_in_flight s) true (retry_after s) else s
  | None => s
  end.

(** The choice of the next message: [is_ready] is the readiness check, [pending] what the
    store returned, [now] and [started] the clock at the choice and at the hand-off. *)
Definition pick (is_ready : bool) (pending : result (list Message) BingleError) (now started : Z)
    (s : SchedulerState) : option Message * SchedulerState :=
  if bool_decide (sc_in_flight s = None) && is_ready then
    let pending := match pending with Ok ms => ms | Err _ => [] end in
    let retry := filter (fun kv => kv.1 ∈ msg_id <$> pending) (retry_after s) in
    match select_sendable_message pending retry now with
    | Some msg => (Some msg, MkSchedulerState (Some (msg_id msg, started)) (warned_stuck s) retry)
    | None => (None, MkSchedulerState (sc_in_flight s) (warned_stuck s) retry)
    end
  else (None, s).

(** ** The flush on exit *)

Definition exit_failure : result bool BingleError :=
  Err (Send PeerUnreachable "not delivered before exit").

(** One message still pending: why it was not handed off, if it was not. *)
Definition flush_one (still : option string) (forwarding : bool) (until_ : Z) (msg : Message)
  : ST Sender (option NotSentReason) :=
  if bool_decide (still = Some (msg_id msg)) then mret (Some InFlight)
  else if negb forwarding then mret (Some StoreForwardOff)
  else
    now ← in_world instant_now;
    if until_ <=? now then mret (Some DeadlineReached)
    else
      _ ← (match classify_send_error exit_failure with
           | Some failure =>
               in_outbound (record_status (msg_id msg) 0 (Some (sf_reason failure)) (Some (sf_kind failure)))
           | None => mret (Ok tt)
           end);
      s ← get_st;
      mret (if is_handed_off (msg_id msg) (sd_store s) then None else Some PostFailed).

Definition note_flushed (msg : Message) (r : option NotSentReason) (report : ShutdownReport) : ShutdownReport :=
  let entry := MkShutdownEntry (msg_id msg) (recipient_handles msg) in
  match r with
  | None => MkShutdownReport (forwarded report ++ [entry]) (not_sent report)
  | Some reason => MkShutdownReport (forwarded report) (not_sent report ++ [(entry, reason)])
  end.

Fixpoint flush_loop (still : option string) (forwarding : bool) (until_ : Z) (pending : list Message)
    (report : ShutdownReport) : ST Sender ShutdownReport :=
  match pending with
  | [] => mret report
  | msg :: pending =>
      r ← flush_one still forwarding until_ msg;
      flush_loop still forwarding until_ pending (note_flushed msg r report)
  end.

(** [shutdown], after the scheduler has stopped and the wait for the message in flight
    has ended with [still]. *)
Definition flush (still : option string) (until_ : Z) : ST Sender ShutdownReport :=
  s ← get_st;
  let pending := match pending_messages (sd_store s) with Ok ms => ms | Err _ => [] end in
  flush_loop still (store_and_forward_send (sd_store s)) until_ pending (MkShutdownReport [] []).

(** [peer_seen], apart from the wake. *)
Definition peer_seen (recipient : string) : ST Sender unit := on_offline (clear_offline recipient).

(** [PendingSender::is_offline] *)
Definition sender_is_offline (recipient : string) : ST Sender bool :=
  now ← in_world instant_now; s ← get_st; mret (is_offline recipient now (sd_offline s)).
End Sending.
Arguments Sender S D : clear implicits.

(** ** What an attempt does *)

(** A record of the calls to the delivery: recipient, text, send time and result. *)
Record DeliveryCall : Type := MkDeliveryCall {
  dc_recipient : string; dc_text : string; dc_time : Z; dc_result : option (result bool BingleError)
}.

Class SenderLog (D : Type) `{SenderWorld D} := {
  sent_log : D -> list DeliveryCall;
  deliver_logs : forall r t z w,
    sent_log (deliver r t z w).1 = sent_log w ++ [MkDeliveryCall r t z (deliver r t z w).2.2];
  now_logs : forall w, sent_log (instant_now w).1 = sent_log w
}.

Definition delivered_call (c : DeliveryCall) : Prop := dc_result c = Some (Ok true).
Definition call_of (msg : Message) (c : DeliveryCall) : Prop :=
  dc_text c = text msg /\ dc_time c = timestamp msg.

Lemma classify_none r : classify_send_error r = None <-> r = Ok true.
Proof. by destruct r as [[]|[]]. Qed.

Lemma bind_run {S A B} (m : ST S A) (k : A -> ST S B) s s2 b :
  (m ≫= k) s = (s2, b) -> exists s1 a, m s = (s1, a) /\ k a s1 = (s2, b).
Proof. unfold mbind, ST_bind. destruct (m s) as [s1 a]. eauto. Qed.

Section Attempts.
Context {S D : Type} `{OutboundLaws S} `{SenderLog D}.

(** The store differs from [t0] at most in the entry of [msg], which is still the same
    message. *)
Definition tracks (t0 : S) (msg : Message) (t : S) : Prop :=
  store_wf t /\ store_and_forward_send t = store_and_forward_send t0 /\
  (forall id, id <> msg_id msg -> entry id t = entry id t0) /\
  exists m, entry (msg_id msg) t = Some m /\ recipient_handles m = recipient_handles msg.

Lemma record_tracks t0 msg t p reason kind :
  tracks t0 msg t -> tracks t0 msg (record_status (msg_id msg) p reason kind t).1.
Proof.
  intros (Hwf & Hg & Ho & m & Hm & Hr).
  destruct (record_spec (msg_id msg) p reason kind t m Hwf Hm) as (t' & m' & -> & Hwf' & Hm' & Hrec & Ho' & Hg').
  cbn [fst]. split_and!; [done|by rewrite Hg'|by intros id Hid; rewrite Ho', Ho|].
  exists m'. split; [done|]. by destruct Hrec as [-> _].
Qed.

Lemma report_progress_tracks t0 msg ps : forall s : Sender S D,
  tracks t0 msg (sd_store s) ->
  tracks t0 msg (sd_store (report_progress (msg_id msg) ps s).1) /\
  sd_offline (report_progress (msg_id msg) ps s).1 = sd_offline s /\
  sd_world (report_progress (msg_id msg) ps s).1 = sd_world s.
Proof.
  induction ps as [|p ps IH]; intros s Hs; [done|]. cbn [report_progress].
  unfold mbind, ST_bind, in_outbound.
  pose proof (record_tracks t0 msg _ p None None Hs) as Hs'.
  destruct (record_status (msg_id msg) p None None (sd_store s)) as [t r]. cbn [fst] in Hs'.
  by apply (IH (MkSender t (sd_offline s) (sd_world s))).
Qed.

(** What an attempt at [rs] leaves behind. *)
Definition attempted (t0 : S) (msg : Message) (rs : list string) (s s' : Sender S D)
    (last last' : option SendFailure) : Prop :=
  tracks t0 msg (sd_store s') /\
  exists calls, sent_log (sd_world s') = sent_log (sd_world s) ++ calls /\
    Forall (call_of msg) calls /\ (dc_recipient <$> calls) `prefix_of` rs /\
    (last' = None <-> last = None /\ dc_recipient <$> calls = rs /\ Forall delivered_call calls).

Lemma attempted_nothing t0 msg rs s s' last f :
  tracks t0 msg (sd_store s') -> sent_log (sd_world s') = sent_log (sd_world s) -> rs <> [] ->
  attempted t0 msg rs s s' last (Some f).
Proof.
  intros Ht Hl Hrs. split; [done|]. exists []. rewrite app_nil_r. split_and!; [done|done|apply prefix_nil|].
  split; [done|]. intros (_ & Hc & _). by destruct Hrs.
Qed.

(** One call, then the rest. *)
Lemma attempted_call t0 msg r rs s s1 s' last last1 last' c :
  sent_log (sd_world s1) = sent_log (sd_world s) ++ [c] -> call_of msg c -> dc_recipient c = r ->
  (last1 = None <-> last = None /\ delivered_call c) ->
  attempted t0 msg rs s1 s' last1 last' -> attempted t0 msg (r :: rs) s s' last last'.
Proof.
  intros Hl Hc <- Hd (Ht & calls & Hl' & Hcs & Hp & Hiff). split; [done|].
  exists (c :: calls). rewrite Hl', Hl, <- app_assoc. split_and!; [done|by constructor| |].
  - by apply prefix_cons.
  - rewrite Hiff, Hd. split.
    + intros ((? & ?) & <- & ?). cbn. split_and!; [done|done|by constructor].
    + intros (? & [=Hrs] & Hall). rewrite Forall_cons in Hall. naive_solver.
Qed.

(** A call after which the attempt ends with a failure. *)
Lemma attempted_last t0 msg r rs s s' last f c :
  tracks t0 msg (sd_store s') -> sent_log (sd_world s') = sent_log (sd_world s) ++ [c] -> call_of msg c ->
  dc_recipient c = r -> ~ delivered_call c -> attempted t0 msg (r :: rs) s s' last (Some f).
Proof.
  intros Ht Hl Hc <- Hd. split; [done|]. exists [c]. split_and!; [done|by constructor| |].
  - apply prefix_cons, prefix_nil.
  - split; [done|]. intros (_ & _ & Hall). destruct Hd. by inversion Hall.
Qed.

Lemma recently_offline_run f r (s : Sender S D) :
  exists w b, recently_offline f r s = (MkSender (sd_store s) (sd_offline s) w, b) /\
    sent_log w = sent_log (sd_world s).
Proof.
  unfold recently_offline. destruct f; [|exists (sd_world s), false; by destruct s].
  unfold mbind, ST_bind, in_world. pose proof (now_logs (sd_world s)) as Hn.
  destruct (instant_now (sd_world s)) as [w now]. by eexists w, _.
Qed.

(** A failed call: what is noted of the recipient. *)
Lemma mark_run (b : bool) r (s : Sender S D) :
  exists o w, (if b then now ← in_world instant_now; on_offline (mark_offline r now) else mret tt) s =
      (MkSender (sd_store s) o w, tt) /\ sent_log w = sent_log (sd_world s).
Proof.
  destruct b; [|exists (sd_offline s), (sd_world s); by destruct s].
  unfold mbind, ST_bind, in_world. pose proof (now_logs (sd_world s)) as Hn.
  destruct (instant_now (sd_world s)) as [w now]. by eexists _, w.
Qed.

Lemma attempt_spec t0 msg f rs : forall (s : Sender S D) last s' last',
  tracks t0 msg (sd_store s) -> attempt msg f rs last s = (s', last') ->
  attempted t0 msg rs s s' last last'.
Proof.
  induction rs as [|r rs IH]; intros s last s' last' Ht; cbn [attempt].
  { intros [= <- <-]. split; [done|]. exists []. rewrite app_nil_r. cbn. split_and!; [done|done|done|naive_solver]. }
  intros (s0 & b & E0 & E)%bind_run. destruct (recently_offline_run f r s) as (w & b' & Er & Hw).
  rewrite Er in E0. injection E0 as <- <-.
  destruct b'; [injection E as <- <-; by apply attempted_nothing|].
  apply bind_run in E as (s1 & res & E1 & E). unfold in_world in E1. cbn [sd_world sd_store sd_offline] in E1.
  pose proof (deliver_logs r (text msg) (timestamp msg) w) as Hd.
  destruct (deliver r (text msg) (timestamp msg) w) as [w1 d]. cbn [fst snd] in Hd.
  injection E1 as <- <-. destruct d as [ps res]. cbn [fst snd] in Hd, E.
  apply bind_run in E as (s2 & [] & E2 & E).
  destruct (report_progress_tracks t0 msg ps (MkSender (sd_store s) (sd_offline s) w1) Ht) as (Ht1 & _ & Hw1).
  rewrite E2 in Ht1, Hw1. cbn [fst sd_world] in Ht1, Hw1. rewrite Hw, <- Hw1 in Hd. clear E2 Er.
  destruct (classify_send_error _) as [f'|] eqn:Ec; apply bind_run in E as (s3 & [] & E3 & E).
  - assert (~ delivered_call (MkDeliveryCall r (text msg) (timestamp msg) res)) as Hn.
    { intros Hdel. cbn in Hdel. by rewrite Hdel in Ec. }
    destruct (mark_run (indicates_peer_offline (sf_kind f')) r s2) as (o & w2 & Em & Hw2).
    rewrite Em in E3. injection E3 as <-.
    destruct (is_retryable (sf_kind f')).
    + injection E as <- <-. eapply attempted_last; [exact Ht1|cbn; rewrite Hw2; exact Hd|done|done|done].
    + eapply (attempted_call _ _ _ _ _ (MkSender (sd_store s2) o w2) _ _ (Some f'));
        [cbn; rewrite Hw2; exact Hd|done|done|naive_solver|by apply IH].
  - apply classify_none in Ec. injection E3 as <-.
    eapply attempted_call; [| | | |by eapply IH; [|exact E]]; [exact Hd|done|done|].
    destruct res as [res|]; cbn in Ec; [|done]. subst. unfold delivered_call. cbn. naive_solver.
Qed.

(** What recording the outcome of an attempt leaves in the entry. *)
Definition outcome_recorded (forwards retries : bool) (last : option SendFailure) (m : Message)
    (o : SendOutcome) : Prop :=
  match o with
  | Delivered => last = None /\ progress m = Some 100 /\ failure_reason m = None
  | ForwardedTo r =>
      (exists f, last = Some f /\ r = sf_reason f) /\ forwards = true /\
      progress m = Some 100 /\ failure_reason m = None /\ delivery_route m = Some StoreAndForward
  | Retrying r =>
      (exists f, last = Some f /\ is_retryable (sf_kind f) = true) /\ retries = true /\
      progress m = Some 0 /\ display_failure_reason m = Some r
  | Failed r =>
      (exists f, last = Some f /\ (retries = false \/ is_retryable (sf_kind f) = false)) /\
      progress m = Some 100 /\ display_failure_reason m = Some r
  end.

Lemma record_outcome_spec t0 msg retries last (s s' : Sender S D) o :
  tracks t0 msg (sd_store s) -> record_outcome msg retries last s = (s', o) ->
  tracks t0 msg (sd_store s') /\ sd_world s' = sd_world s /\ sd_offline s' = sd_offline s /\
  exists m, entry (msg_id msg) (sd_store s') = Some m /\
    outcome_recorded (store_and_forward_send t0) retries last m o.
Proof.
  intros Ht E. pose proof Ht as (Hwf & Hg & _ & m & Hm & _).
  destruct last as [f|]; cbn [record_outcome] in E; apply bind_run in E as (s1 & r & E1 & E);
    unfold in_outbound in E1;
    match type of E1 with context [record_status ?i ?p ?x ?k ?t] =>
      pose proof (record_tracks t0 msg t p x k Ht) as Ht';
      destruct (record_spec i p x k t m Hwf Hm) as (t' & m' & Er & Hwf' & Hm' & Hrec & _ & Hg')
    end; rewrite Er in E1, Ht'; injection E1 as <- <-; cbn [fst] in Ht'.
  2: { injection E as <- <-. cbn [sd_store sd_world sd_offline]. split_and!; [done..|]. exists m'.
       destruct Hrec as (_ & _ & _ & _ & Hrec). destruct (Hrec ltac:(lia)). done. }
  apply bind_run in E as (s2 & s2' & [= <- <-] & E). cbn [sd_store] in E.
  rewrite handed_off_spec, shown_reason_spec, Hm', Hg', Hg in E by done. cbn [mbind option_bind] in E.
  destruct Hrec as (_ & _ & _ & _ & [(Hf & Hp & Hr & Hroute)|[Hp Hr]]).
  - rewrite Hg in Hf. rewrite Hf, Hp, Hr, !bool_decide_eq_true_2 in E by done. injection E as <- <-.
    cbn [sd_store sd_world sd_offline]. split_and!; [done..|]. exists m'. cbn. eauto 10.
  - rewrite Hr, (bool_decide_eq_false_2 (Some _ = None)), !andb_false_r in E by done.
    unfold display_failure_reason in E. rewrite Hr in E. cbn [fmap option_fmap option_map default] in E.
    injection E as <- <-. cbn [sd_store sd_world sd_offline]. split_and!; [done..|]. exists m'. split; [done|].
    destruct retries, (is_retryable (sf_kind f)) eqn:Ek; cbn [andb outcome_recorded] in Hp |- *;
      unfold display_failure_reason; rewrite Hr; (split; [exists f; auto|done]).
Qed.

Lemma tracks_refl t msg :
  store_wf t -> entry (msg_id msg) t = Some msg -> tracks t msg t.
Proof. intros Hwf Hm. split_and!; [done..|]. by exists msg. Qed.

Lemma send_one_run msg retries (s s' : Sender S D) rep :
  store_wf (sd_store s) -> entry (msg_id msg) (sd_store s) = Some msg ->
  send_one msg retries s = (s', rep) ->
  exists s1 last m,
    attempt msg (store_and_forward_send (sd_store s)) (recipient_handles msg) None s = (s1, last) /\
    rep = MkSendReport (msg_id msg) (recipient_handles msg) (rep_outcome rep) (bool_decide (is_Some (failure_reason msg))) /\
    attempted (sd_store s) msg (recipient_handles msg) s s' None last /\
    sd_world s' = sd_world s1 /\ sd_offline s' = sd_offline s1 /\
    entry (msg_id msg) (sd_store s') = Some m /\
    outcome_recorded (store_and_forward_send (sd_store s)) retries last m (rep_outcome rep).
Proof.
  intros Hwf Hm E. pose proof (tracks_refl _ _ Hwf Hm) as Ht. unfold send_one in E.
  apply bind_run in E as (? & ? & [= <- <-] & E). apply bind_run in E as (s1 & last & Ea & E).
  apply bind_run in E as (s2 & o & Eo & [= <- <-]).
  destruct (attempt_spec _ _ _ _ _ _ _ _ Ht Ea) as (Ht1 & Hatt).
  destruct (record_outcome_spec _ _ _ _ _ _ _ Ht1 Eo) as (Ht2 & Hw & Ho & m & Hm' & Hrec).
  exists s1, last, m. split_and!; [done|done| |done|done|done|done].
  split; [done|]. by rewrite Hw.
Qed.

(** (C20) An attempt reports what it did and what it recorded.  The message is offered,
    with its text and its send time, to a first part of its recipients in order.  It is
    reported delivered exactly when every recipient has accepted it, and is then complete
    and without a failure in the store; reported forwarded, it is complete by
    store-and-forward; reported as being retried or as failed, it is respectively pending
    or complete and shows the reported reason.  No other message changes. *)
Theorem send_one_truthful msg retries (s s' : Sender S D) rep :
  store_wf (sd_store s) -> entry (msg_id msg) (sd_store s) = Some msg ->
  send_one msg retries s = (s', rep) ->
  rep_id rep = msg_id msg /\ rep_recipients rep = recipient_handles msg /\
  store_wf (sd_store s') /\
  (forall id, id <> msg_id msg -> entry id (sd_store s') = entry id (sd_store s)) /\
  (exists calls, sent_log (sd_world s') = sent_log (sd_world s) ++ calls /\
    Forall (call_of msg) calls /\ (dc_recipient <$> calls) `prefix_of` recipient_handles msg /\
    (rep_outcome rep = Delivered <-> dc_recipient <$> calls = recipient_handles msg /\ Forall delivered_call calls)) /\
  exists m, entry (msg_id msg) (sd_store s') = Some m /\
    match rep_outcome rep with
    | Delivered => progress m = Some 100 /\ failure_reason m = None
    | ForwardedTo _ => progress m = Some 100 /\ failure_reason m = None /\ delivery_route m = Some StoreAndForward
    | Retrying r => is_pending m = true /\ display_failure_reason m = Some r
    | Failed r => is_pending m = false /\ display_failure_reason m = Some r
    end.
Proof.
  intros Hwf Hm E.
  destruct (send_one_run _ _ _ _ _ Hwf Hm E) as (s1 & last & m & _ & -> & [Ht Hcalls] & _ & _ & Hm' & Hrec).
  destruct Ht as (Hwf' & _ & Ho & _). destruct Hcalls as (calls & Hl & Hc & Hp & Hiff).
  cbn [rep_id rep_recipients rep_outcome]. split_and!; [done|done|done|done| |].
  - exists calls. split_and!; [done|done|done|]. transitivity (last = None); [|rewrite Hiff; naive_solver].
    unfold outcome_recorded in Hrec. destruct (rep_outcome rep); naive_solver.
  - exists m. split; [done|]. unfold outcome_recorded, is_pending in *.
    destruct (rep_outcome rep); [naive_solver..| |]; destruct Hrec as (? & Hrec); [destruct Hrec as (_ & -> & ?)|destruct Hrec as (-> & ?)]; done.
Qed.

(** A recipient known to be offline is not tried: with forwarding on, when the first
    recipient of a message is within its offline window, the attempt makes no delivery at
    all, and the message is handed to the mailbox, or keeps its place in the queue when
    that fails and retries are on. *)
Theorem offline_recipient_skipped msg r rs retries (s s' : Sender S D) rep :
  store_wf (sd_store s) -> entry (msg_id msg) (sd_store s) = Some msg ->
  store_and_forward_send (sd_store s) = true -> recipient_handles msg = r :: rs ->
  is_offline r (instant_now (sd_world s)).2 (sd_offline s) = true ->
  send_one msg retries s = (s', rep) ->
  sent_log (sd_world s') = sent_log (sd_world s) /\ sd_offline s' = sd_offline s /\
  match rep_outcome rep with
  | Delivered => False
  | ForwardedTo reason => reason = humanize_failure PeerUnreachable ""
  | Retrying _ => retries = true
  | Failed _ => retries = false
  end.
Proof.
  intros Hwf Hm Hg Hr Hoff E.
  destruct (send_one_run _ _ _ _ _ Hwf Hm E) as (s1 & last & m & Ea & _ & _ & Hw & Ho & _ & Hrec).
  rewrite Hg, Hr in Ea. cbn [attempt recently_offline] in Ea.
  apply bind_run in Ea as (s2 & b & E1 & Ea). apply bind_run in E1 as (s3 & now & E2 & E1).
  unfold in_world in E2. pose proof (now_logs (sd_world s)) as Hn.
  destruct (instant_now (sd_world s)) as [w t]. injection E2 as <- <-. cbn [fst snd] in *.
  apply bind_run in E1 as (? & ? & [= <- <-] & [= <- <-]). cbn [sd_offline] in Ea. rewrite Hoff in Ea.
  injection Ea as <- <-. rewrite Hw, Ho. split_and!; [done|done|].
  unfold outcome_recorded in Hrec. destruct (rep_outcome rep) as [|x|x|x]; destruct Hrec as [Hl Hrec]; [done|..].
  - by destruct Hl as (f & [= <-] & ->).
  - by destruct Hrec.
  - by destruct Hl as (f & [= <-] & [?|?]).
Qed.

(** ** What the flush does *)

(** What became of the pending message [m], with the store [t0] before and [t] after. *)
Definition flush_result (t0 : S) (still : option string) (t : S) (m : Message)
    (r : option NotSentReason) : Prop :=
  match r with
  | None =>
      store_and_forward_send t0 = true /\ still <> Some (msg_id m) /\
      exists m', entry (msg_id m) t = Some m' /\ recipient_handles m' = recipient_handles m /\
        progress m' = Some 100 /\ failure_reason m' = None /\ delivery_route m' = Some StoreAndForward
  | Some PostFailed =>
      store_and_forward_send t0 = true /\ still <> Some (msg_id m) /\
      exists m', entry (msg_id m) t = Some m' /\ is_pending m' = true /\ is_Some (failure_reason m')
  | Some InFlight => still = Some (msg_id m) /\ entry (msg_id m) t = Some m
  | Some StoreForwardOff =>
      store_and_forward_send t0 = false /\ still <> Some (msg_id m) /\ entry (msg_id m) t = Some m
  | Some DeadlineReached => still <> Some (msg_id m) /\ entry (msg_id m) t = Some m
  end.

Lemma flush_result_frame t0 still t t' m r :
  entry (msg_id m) t' = entry (msg_id m) t -> flush_result t0 still t m r -> flush_result t0 still t' m r.
Proof. unfold flush_result. by intros ->. Qed.

Lemma flush_one_spec t0 still until_ m (s s' : Sender S D) r :
  store_wf (sd_store s) -> entry (msg_id m) (sd_store s) = Some m ->
  store_and_forward_send (sd_store s) = store_and_forward_send t0 ->
  flush_one still (store_and_forward_send t0) until_ m s = (s', r) ->
  flush_result t0 still (sd_store s') m r /\ tracks (sd_store s) m (sd_store s') /\
  sent_log (sd_world s') = sent_log (sd_world s) /\ sd_offline s' = sd_offline s.
Proof.
  intros Hwf Hm Hg E. pose proof (tracks_refl _ _ Hwf Hm) as Ht. unfold flush_one in E.
  destruct (decide (still = Some (msg_id m))) as [Hs|Hs].
  { rewrite bool_decide_eq_true_2 in E by done. by injection E as <- <-. }
  rewrite bool_decide_eq_false_2 in E by done.
  destruct (store_and_forward_send t0) eqn:Ef; cbn [negb] in E; [|by injection E as <- <-].
  apply bind_run in E as (s1 & now & E1 & E). unfold in_world in E1. pose proof (now_logs (sd_world s)) as Hn.
  destruct (instant_now (sd_world s)) as [w t]. injection E1 as <- <-. cbn [fst] in Hn.
  destruct (until_ <=? t); [by injection E as <- <-|]. cbn [classify_send_error exit_failure sf_reason sf_kind] in E.
  apply bind_run in E as (s2 & x & E2 & E). unfold in_outbound in E2. cbn [sd_store sd_world sd_offline] in E2.
  match type of E2 with context [record_status ?i ?p ?x ?k ?t] =>
    pose proof (record_tracks _ m t p x k Ht) as Ht';
    destruct (record_spec i p x k t m Hwf Hm) as (t' & m' & Er & Hwf' & Hm' & Hrec & _ & Hg')
  end. rewrite Er in E2, Ht'. injection E2 as <- <-. cbn [fst] in Ht'.
  apply bind_run in E as (? & ? & [= <- <-] & [= <- <-]). cbn [sd_store sd_world sd_offline].
  split_and!; [|done|done|done]. rewrite handed_off_spec, Hm' by done.
  destruct Hrec as (Hr & _ & _ & _ & [(_ & Hp & Hf & Hroute)|[Hp Hf]]).
  - rewrite Hp, Hf, !bool_decide_eq_true_2 by done. cbn. eauto 10.
  - rewrite Hp, Hf, (bool_decide_eq_false_2 (Some 0 = Some 100)) by done. cbn. rewrite Ef. split_and!; [done..|].
    exists m'. unfold is_pending. by rewrite Hp, Hf.
Qed.

Definition shutdown_entry (m : Message) : ShutdownEntry := MkShutdownEntry (msg_id m) (recipient_handles m).

(** The report of the results [rs] for the messages [ms]. *)
Definition report_of (ms : list Message) (rs : list (option NotSentReason)) : ShutdownReport :=
  MkShutdownReport
    (omap (fun p => match p.2 with None => Some (shutdown_entry p.1) | Some _ => None end) (zip ms rs))
    (omap (fun p => (fun reason => (shutdown_entry p.1, reason)) <$> p.2) (zip ms rs)).

Lemma flush_loop_spec t0 still until_ ms : forall (s s' : Sender S D) acc report,
  store_wf (sd_store s) -> NoDup (msg_id <$> ms) ->
  (forall m, m ∈ ms -> entry (msg_id m) (sd_store s) = Some m) ->
  store_and_forward_send (sd_store s) = store_and_forward_send t0 ->
  flush_loop still (store_and_forward_send t0) until_ ms acc s = (s', report) ->
  exists rs, Forall2 (flush_result t0 still (sd_store s')) ms rs /\
    forwarded report = forwarded acc ++ forwarded (report_of ms rs) /\
    not_sent report = not_sent acc ++ not_sent (report_of ms rs) /\
    (forall id, id ∉ msg_id <$> ms -> entry id (sd_store s') = entry id (sd_store s)) /\
    sent_log (sd_world s') = sent_log (sd_world s).
Proof.
  induction ms as [|m ms IH]; intros s s' acc report Hwf Hnd Hms Hg; cbn [flush_loop].
  { intros [= <- <-]. exists []. cbn. rewrite !app_nil_r. by split_and!. }
  intros (s1 & r & E1 & E)%bind_run. cbn in Hnd. apply NoDup_cons in Hnd as [Hni Hnd].
  destruct (flush_one_spec _ _ _ _ _ _ _ Hwf (Hms m ltac:(left)) Hg E1) as (Hr & (Hwf1 & Hg1 & Ho1 & _) & Hl & _).
  edestruct IH as (rs & Hrs & Hf & Hn & Ho & Hl'); [exact Hwf1|exact Hnd| | |exact E|].
  - intros m' Hm'. rewrite Ho1; [by apply Hms; right|]. intros Heq. apply Hni. rewrite <- Heq.
    by apply list_elem_of_fmap_2.
  - by rewrite Hg1.
  - exists (r :: rs). split_and!.
    + constructor; [|done]. eapply flush_result_frame; [|exact Hr]. by apply Ho.
    + rewrite Hf. destruct r; cbn; [done|]. by rewrite <- app_assoc.
    + rewrite Hn. destruct r; cbn; [|done]. by rewrite <- app_assoc.
    + cbn. intros id Hid. rewrite not_elem_of_cons in Hid. rewrite Ho, Ho1; naive_solver.
    + by rewrite Hl', Hl.
Qed.

(** The flush on exit accounts for every pending message once.  Its report lists
    exactly the messages that were pending, in their order, each as forwarded or as not
    sent: a forwarded one is complete by store-and-forward, and was not the one still in
    flight; one whose post failed is still pending, with a reason; the one in flight, and
    those left because forwarding is off or the time was up, are untouched.  Nothing is
    delivered directly, and no message that was not pending changes. *)
Theorem flush_accounts still until_ (s s' : Sender S D) report :
  store_wf (sd_store s) -> flush still until_ s = (s', report) ->
  exists pending rs, pending_messages (sd_store s) = Ok pending /\
    report = report_of pending rs /\ Forall2 (flush_result (sd_store s) still (sd_store s')) pending rs /\
    sent_log (sd_world s') = sent_log (sd_world s) /\
    (forall id m, entry id (sd_store s) = Some m -> is_pending m = false -> entry id (sd_store s') = Some m).
Proof.
  intros Hwf E. unfold flush in E. apply bind_run in E as (? & ? & [= <- <-] & E).
  destruct (pending_spec _ Hwf) as (ms & Ems & Hnd & Hms). rewrite Ems in E.
  destruct (flush_loop_spec _ _ _ _ _ _ _ _ Hwf Hnd (fun m Hm => proj1 (proj1 (Hms m) Hm)) eq_refl E)
    as (rs & Hrs & Hf & Hn & Ho & Hl).
  exists ms, rs. split_and!; [done| |done|done|].
  - destruct report. cbn in Hf, Hn. unfold report_of. by subst.
  - intros id m Hm Hp. rewrite Ho; [done|]. intros (m' & -> & Hm')%list_elem_of_fmap.
    apply Hms in Hm' as [He Hp']. congruence.
Qed.

End Attempts.

(** ** The local store as the sender's store *)

(** Writing the state file. *)
Class StateFiles (W : Type) := {
  write_state : string -> SavedState -> W -> W * result unit BingleError
}.

Lemma NoDup_key_inj {X K} (f : X -> K) (l : list X) x y :
  NoDup (f <$> l) -> x ∈ l -> y ∈ l -> f x = f y -> x = y.
Proof.
  induction l as [|a l IH]; [by intros _ ?%not_elem_of_nil|]. cbn. intros [Hni Hnd]%NoDup_cons Hx Hy Hf.
  apply elem_of_cons in Hx as [->|Hx], Hy as [->|Hy]; [done| | |by apply IH].
  - destruct Hni. rewrite Hf. by apply list_elem_of_fmap_2.
  - destruct Hni. rewrite <- Hf. by apply list_elem_of_fmap_2.
Qed.

Section LocalOutbound.
Context {W SigningKey : Type} `{LocalWorld W} `{Sidewinder W} `{MailboxClient W} `{StateFiles W}.
Context (A : algo) (P : primitives SigningKey) (state_file : option string).

(** A status update, then the state file when there is one; a failed save is only
    logged. *)
Definition local_update_status (id : string) (p : Z) (reason : option string) (kind : option SendFailureKind)
  : L (W := W) (result unit BingleError) :=
  let* _ := update_message_status A P id p reason kind in
  _ ← match state_file with
      | Some path => s ← get_state; outside (write_state path (save s))
      | None => mret (Ok tt)
      end;
  mret (Ok tt).

Definition local_is_handed_off (id : string) (s : LocalState) : bool :=
  match find_message id (get_messages (st s)) with
  | Some m => bool_decide (progress m = Some 100) && bool_decide (failure_reason m = None)
  | None => false
  end.

Definition local_display_failure_reason (id : string) (s : LocalState) : option string :=
  find_message id (get_messages (st s)) ≫= display_failure_reason.

#[local] Instance LocalOutboundStore : OutboundStore (LocalState * W) := {|
  pending_messages := fun sw => Ok (get_pending_messages (st sw.1));
  record_status := local_update_status;
  store_and_forward_send := fun sw => Account.store_and_forward_send (config sw.1);
  is_handed_off := fun id sw => local_is_handed_off id sw.1;
  shown_failure_reason := fun id sw => local_display_failure_reason id sw.1
|}.

Definition ids (s : LocalState) : list string := msg_id <$> messages (st s).

Lemma find_message_id id ms m : find_message id ms = Some m -> m ∈ ms /\ msg_id m = id.
Proof using. intros [Hin He%bool_decide_eq_true]%find_some. by rewrite list_elem_of_In. Qed.

Lemma find_message_unique id ms m :
  NoDup (msg_id <$> ms) -> m ∈ ms -> msg_id m = id -> find_message id ms = Some m.
Proof using.
  intros Hnd Hin <-. destruct (find_message (msg_id m) ms) as [m'|] eqn:E.
  - apply find_message_id in E as [Hin' Hid]. f_equal. by apply (NoDup_key_inj msg_id ms).
  - eapply find_none in E; [|by apply list_elem_of_In]. by rewrite bool_decide_eq_false in E.
Qed.

Lemma find_message_sorted id ms :
  NoDup (msg_id <$> ms) -> find_message id (sort_by older ms) = find_message id ms.
Proof using.
  intros Hnd. destruct (find_message id ms) as [m|] eqn:E.
  - apply find_message_id in E as [Hin Hid]. apply find_message_unique; [|by rewrite sort_by_Permutation|done].
    by rewrite sort_by_Permutation.
  - destruct (find_message id (sort_by older ms)) as [m|] eqn:E'; [|done].
    apply find_message_id in E' as [Hin Hid]. rewrite sort_by_Permutation in Hin.
    by rewrite (find_message_unique id ms m) in E.
Qed.

Lemma find_update_other id id' f ms :
  (forall m, msg_id (f m) = msg_id m) -> id' <> id ->
  find_message id' (update_first id f ms) = find_message id' ms.
Proof using.
  intros Hf Hne. unfold find_message. induction ms as [|m ms IH]; [done|]. cbn [update_first].
  destruct (decide (msg_id m = id)) as [Hm|Hm]; cbn [find].
  - rewrite Hf, Hm, bool_decide_eq_false_2 by done. done.
  - by rewrite IH.
Qed.

Lemma ids_update id f ms :
  (forall m, msg_id (f m) = msg_id m) -> msg_id <$> update_first id f ms = msg_id <$> ms.
Proof using.
  intros Hf. induction ms as [|m ms IH]; [done|]. cbn [update_first].
  destruct (decide (msg_id m = id)); cbn; [by rewrite Hf|by f_equal].
Qed.

Lemma with_outcome_id o m : msg_id (with_outcome o m) = msg_id m.
Proof using. by destruct o. Qed.

(** A status update of a message that is there: one message changes. *)
Lemma update_status_frame s w s' w' id p reason kind r m :
  update_message_status A P id p reason kind (s, w) = ((s', w'), r) ->
  find_message id (messages (st s)) = Some m ->
  exists f, messages (st s') = update_first id f (messages (st s)) /\
    (forall m, msg_id (f m) = msg_id m) /\ config s' = config s /\ r = Ok tt /\
    recorded (Account.store_and_forward_send (config s)) p reason m (f m).
Proof using.
  intros E%update_status_run Hm. rewrite Hm in E. destruct E as (-> & Hc & E).
  set (f := with_status p reason kind (status_route id p reason s)) in *.
  destruct (failure_reason (f m)) as [x|] eqn:Ef.
  - destruct E as (o & Hms & _ & _ & Ho). cbn [fst] in Hms.
    rewrite update_first_twice in Hms by done. exists (fun m => with_outcome o (f m)).
    split_and!; [done|by intros ?; rewrite with_outcome_id|done|done|].
    split_and!; [by destruct o..|]. destruct reason as [y|].
    + destruct o; [right; by destruct m| |right; by destruct m]. left.
      destruct Ho as [[Hg _] _]; [done|]. split_and!; [|done..].
      unfold gate_on, should_forward_send in Hg. by apply andb_true_iff in Hg as [? _].
    + intros Hp. exfalso. unfold f in Ef. cbn [failure_reason with_status] in Ef.
      rewrite (proj2 (Z.leb_le 100 p)), orb_true_r in Ef by done. done.
  - destruct E as [_ Hms]. exists f. split_and!; [done..|]. split_and!; [done..|].
    unfold f in *. cbn [failure_reason with_status progress] in *.
    destruct reason as [y|]; [done|]. done.
Qed.

Lemma local_update_run id p reason kind s w s' w' :
  update_message_status A P id p reason kind (s, w) = ((s', w'), Ok tt) ->
  exists w2, local_update_status id p reason kind (s, w) = ((s', w2), Ok tt).
Proof using.
  intros E. unfold local_update_status, st_try, mbind, ST_bind. rewrite E.
  destruct state_file as [path|]; [|by exists w']. cbn.
  destruct (write_state path (save s') w') as [w2 r2]. by exists w2.
Qed.

#[local] Instance LocalOutboundLaws : @OutboundLaws (LocalState * W) LocalOutboundStore.
Proof using.
  refine (Build_OutboundLaws _ _ (fun id sw => find_message id (messages (st sw.1)))
            (fun sw => NoDup (ids sw.1)) _ _ _ _ _).
  - intros id s m Hm. by apply find_message_id in Hm as [_ ?].
  - intros [s w] Hnd. eexists. split; [done|]. cbn [fst]. split.
    + unfold get_pending_messages. eapply sublist_NoDup; [exact Hnd|]. apply fmap_sublist, sublist_filter.
    + intros m. unfold get_pending_messages. rewrite list_elem_of_filter. split.
      * intros [Hp Hin]. split; [|done]. by apply find_message_unique.
      * intros [Hm Hp]. split; [done|]. by apply find_message_id in Hm as [? _].
  - intros id p reason kind [s w] m Hnd Hm. cbn [fst] in Hm.
    destruct (update_message_status A P id p reason kind (s, w)) as [[s' w'] r] eqn:E.
    destruct (update_status_frame _ _ _ _ _ _ _ _ _ _ E Hm) as (f & Hms & Hf & Hc & -> & Hrec).
    destruct (local_update_run id p reason kind s w s' w' E) as [w2 Hrun].
    exists (s', w2), (f m). cbn [fst]. split_and!; [exact Hrun| | |done| |].
    + unfold ids. by rewrite Hms, ids_update.
    + by rewrite Hms, find_update_first, Hm.
    + intros id' Hne. by rewrite Hms, find_update_other.
    + unfold store_and_forward_send, LocalOutboundStore. cbn. by rewrite Hc.
  - intros id [s w] Hnd. unfold is_handed_off, LocalOutboundStore, local_is_handed_off, get_messages.
    by rewrite find_message_sorted.
  - intros id [s w] Hnd. unfold shown_failure_reason, LocalOutboundStore, local_display_failure_reason, get_messages.
    by rewrite find_message_sorted.
Defined.
End LocalOutbound.

(** ** Runs in the small world *)

Module SmallSender.

#[export] Instance small_files : StateFiles SmallClient.world := {|
  write_state := fun _ _ w => (w, Ok tt)
|}.

(** The delivery answers from a script; a call past its end is accepted.  The clock
    advances by one at each reading. *)
Record script : Type := MkScript {
  answers : list (list Z * option (result bool BingleError));
  calls : list DeliveryCall;
  clock : Z
}.

Definition run_deliver (r t : string) (z : Z) (w : script) :=
  let a := default ([], Some (Ok true)) (head (answers w)) in
  (MkScript (tail (answers w)) (calls w ++ [MkDeliveryCall r t z a.2]) (clock w), a).

#[export] Instance scripted : SenderWorld script := {|
  deliver := run_deliver;
  instant_now := fun w => (MkScript (answers w) (calls w) (clock w + 1), clock w);
  ready := fun w => (w, true)
|}.

#[export] Instance scripted_log : SenderLog script := {|
  sent_log := calls;
  deliver_logs := fun _ _ _ _ => eq_refl;
  now_logs := fun _ => eq_refl
|}.

#[export] Instance small_store : OutboundStore (LocalState * SmallClient.world) :=
  LocalOutboundStore SmallClient.client_algo Toy.toy (Some "state.json"%string).
#[export] Instance small_laws : OutboundLaws (LocalState * SmallClient.world) :=
  LocalOutboundLaws SmallClient.client_algo Toy.toy (Some "state.json"%string).

Definition sender_of (sw : LocalState * SmallClient.world) (a : list (list Z * option (result bool BingleError)))
  : Sender (LocalState * SmallClient.world) script :=
  MkSender sw (OfflineWindow_new OFFLINE_WINDOW) (MkScript a [] 1000).

Definition unreachable : list Z * option (result bool BingleError) :=
  ([10; 100], Some (Err (Send PeerUnreachable "no answer"))).

(** A message for Alice, her mailbox down or up, and the delivery failing. *)
Definition lone : Sender (LocalState * SmallClient.world) script := Eval vm_compute in
  sender_of (Demo.queued.1, SmallClient.MkWorld 2000 false [] [] [] [] []) [unreachable].
Definition lone_msg : Message := Eval vm_compute in
  default (MkMessage "" "" [] 0 "" None None None None None None None None None) (head (messages (st (sd_store lone).1))).
Definition tried := Eval vm_compute in send_one lone_msg true lone.

(** The same after a failure has opened Alice's offline window, and a client about to
    exit. *)
Definition avoiding : Sender (LocalState * SmallClient.world) script := Eval vm_compute in
  MkSender (sd_store lone) (mark_offline "alice" 900 (OfflineWindow_new OFFLINE_WINDOW)) (MkScript [] [] 1000).
Definition skipped := Eval vm_compute in send_one lone_msg true avoiding.
Definition leaving : Sender (LocalState * SmallClient.world) script := Eval vm_compute in
  sender_of Demo.queued [].
Definition flushed := Eval vm_compute in flush None 99999 leaving.

(** A message for two recipients. *)
Definition pair : Sender (LocalState * SmallClient.world) script := Eval vm_compute in
  sender_of (Demo.run [AcctOp (OpImport "bob"); AcctOp OpStatus; QueueMessage ["alice"; "carol"]%string "hi"] true []).1
    [([10; 100], Some (Ok true))].
Definition pair_msg : Message := Eval vm_compute in
  default lone_msg (head (messages (st (sd_store pair).1))).
End SmallSender.

Existing Instances SmallSender.small_files SmallSender.scripted SmallSender.scripted_log
  SmallSender.small_store SmallSender.small_laws.

Lemma send_one_truthful_witness :
  exists m reason, rep_outcome SmallSender.tried.2 = Retrying reason /\
    entry (msg_id SmallSender.lone_msg) (sd_store SmallSender.tried.1) = Some m /\
    is_pending m = true /\ display_failure_reason m = Some reason.
Proof.
  assert (send_one SmallSender.lone_msg true SmallSender.lone = (SmallSender.tried.1, SmallSender.tried.2)) as E
    by (vm_compute; reflexivity).
  assert (store_wf (sd_store SmallSender.lone)) as Hwf by (vm_compute; apply NoDup_singleton).
  assert (entry (msg_id SmallSender.lone_msg) (sd_store SmallSender.lone) = Some SmallSender.lone_msg) as Hm
    by (vm_compute; reflexivity).
  pose proof (send_one_truthful _ _ _ _ _ Hwf Hm E) as (_ & _ & _ & _ & _ & m & He & Ho).
  assert (exists r, rep_outcome SmallSender.tried.2 = Retrying r) as [r Er] by (eexists; vm_compute; reflexivity).
  rewrite Er in Ho. exists m, r. split; [exact Er|]. split; [exact He|exact Ho].
Defined.

Lemma offline_recipient_skipped_witness :
  sent_log (sd_world SmallSender.skipped.1) = sent_log (sd_world SmallSender.avoiding) /\
  sent_log (sd_world SmallSender.avoiding) = [].
Proof.
  assert (send_one SmallSender.lone_msg true SmallSender.avoiding =
          (SmallSender.skipped.1, SmallSender.skipped.2)) as E by (vm_compute; reflexivity).
  assert (store_wf (sd_store SmallSender.avoiding)) as Hwf by (vm_compute; apply NoDup_singleton).
  assert (entry (msg_id SmallSender.lone_msg) (sd_store SmallSender.avoiding) = Some SmallSender.lone_msg) as Hm
    by (vm_compute; reflexivity).
  assert (store_and_forward_send (sd_store SmallSender.avoiding) = true) as Hg by (vm_compute; reflexivity).
  assert (recipient_handles SmallSender.lone_msg = ["alice"]%string) as Hr by (vm_compute; reflexivity).
  assert (is_offline "alice" (instant_now (sd_world SmallSender.avoiding)).2 (sd_offline SmallSender.avoiding) = true)
    as Ho by (vm_compute; reflexivity).
  pose proof (offline_recipient_skipped _ _ _ _ _ _ _ Hwf Hm Hg Hr Ho E) as [Hl _].
  split; [exact Hl|vm_compute; reflexivity].
Defined.

Lemma flush_accounts_witness :
  exists pending rs, pending_messages (sd_store SmallSender.leaving) = Ok pending /\
    SmallSender.flushed.2 = report_of pending rs /\ length (forwarded SmallSender.flushed.2) = 1%nat.
Proof.
  assert (flush None 99999 SmallSender.leaving = (SmallSender.flushed.1, SmallSender.flushed.2)) as E
    by (vm_compute; reflexivity).
  assert (store_wf (sd_store SmallSender.leaving)) as Hwf by (vm_compute; apply NoDup_singleton).
  pose proof (flush_accounts _ _ _ _ _ Hwf E) as (ms & rs & Hp & Hrep & _).
  exists ms, rs. split; [exact Hp|]. split; [exact Hrep|vm_compute; reflexivity].
Defined.

(** A message for several recipients is complete after the first: when the direct
    send to Alice, the first of two recipients, reports its hundred percent, the message
    is shown as delivered.  At that point, before Carol has been tried, nothing is
    pending, the flush on exit does not mention the message, and a client restarted from
    its state file does not send it to Carol. *)
Theorem first_recipient_completes :
  let s := (attempt SmallSender.pair_msg true ["alice"]%string None SmallSender.pair).1 in
  recipient_handles SmallSender.pair_msg = ["alice"; "carol"]%string /\
  (dc_recipient <$> SmallSender.calls (sd_world s)) = ["alice"]%string /\
  (delivery_route <$> messages (st (sd_store s).1)) = [Some Direct] /\
  (flush (Some (msg_id SmallSender.pair_msg)) 99999 s).2 = MkShutdownReport [] [] /\
  get_pending_messages (st (restart (sd_store s).1)) = [].
Proof. vm_compute. done. Qed.

(** A failed send passes through delivered: the direct send reports a hundred percent
    when it fails as well, and the message is shown, and saved, as delivered directly
    until the failure is recorded. *)
Theorem failure_shown_delivered :
  let s := (attempt SmallSender.lone_msg true ["alice"]%string None SmallSender.lone) in
  is_Some s.2 /\
  (delivery_route <$> messages (st (sd_store s.1).1)) = [Some Direct] /\
  (is_pending <$> messages (st (restart (sd_store s.1).1))) = [false].
Proof. vm_compute. split_and!; eauto. Qed.
