(* ===== verification/SenderThreads.v ===== *)
(** * The threads of the background sender

    Models the concurrency of [src/bingle_local/src/api/pending_sender.rs]: the
    scheduler ([run_scheduler]), the worker (the closure of [PendingSender::start]) and a
    client that calls [shutdown], with what they share: the store, the message in
    flight, the two channels and the flag [running].  A step is one access to what is
    shared; the steps of the threads interleave in any order, and the client may queue
    messages and wake the sender at any time.

    The clock, the readiness check, the results of deliveries and the deadline of the
    shutdown are left open: each step is possible whatever they are. *)
From S2P Require Import Prelude LocalTypes SendRetry PendingSender.
From S2P Require Import Api.
Import LocalTypes.

Local Open Scope Z_scope.

(** ** The state *)

(** Where the scheduler is: at the top of its loop, waiting for an event, with a message
    picked and not yet marked, with one marked and not yet handed over, or ended. *)
Inductive SchedulerPc : Type :=
| STop
| SRecv
| SPicked (m : Message)
| SMarked (m : Message)
| SExited.

(** Where the worker is: waiting for work, in [send_one], with the outcome recorded, with
    the mark cleared, or ended. *)
Inductive WorkerPc : Type :=
| WWaiting
| WSending (m : Message)
| WRecorded (report : SendReport)
| WCleared (report : SendReport)
| WGone.

(** Where the call of [shutdown] is: not made, the flag cleared, the stop event sent, the
    scheduler joined, the wait for the message in flight over, flushing, or done. *)
Inductive ShutdownPc : Type :=
| MRunning
| MFlagged
| MStopping
| MJoined
| MWaited (still : option string)
| MFlushing (still : option string) (todo : list Message)
| MDone (still : option string).

(** What is observed of a message: a direct attempt starts, an attempt ends with every
    recipient reached, the flush posts it. *)
Inductive Action : Type :=
| Sent (id : string)
| Completed (id : string)
| Posted (id : string).

#[export] Instance Action_eq_dec : EqDecision Action.
Proof. solve_decision. Defined.

Record system (S : Type) : Type := MkSystem {
  sy_store : S;
  sy_sched : SchedulerPc;
  sy_locals : SchedulerState;
  sy_shared : option string;
  sy_events : list Event;
  sy_work : list Message;
  sy_worker : WorkerPc;
  sy_running : bool;
  sy_main : ShutdownPc;
  sy_trace : list Action
}.
Arguments MkSystem {S} _ _ _ _ _ _ _ _ _ _.
Arguments sy_store {S} _.
Arguments sy_sched {S} _.
Arguments sy_locals {S} _.
Arguments sy_shared {S} _.
Arguments sy_events {S} _.
Arguments sy_work {S} _.
Arguments sy_worker {S} _.
Arguments sy_running {S} _.
Arguments sy_main {S} _.
Arguments sy_trace {S} _.

Section Threads.
Context {S : Type} `{OutboundLaws S} (options : PendingSenderOptions).

(** The client queues messages: nothing that is there changes. *)
Definition queued_more (t t' : S) : Prop :=
  store_wf t' /\ forall id m, entry id t = Some m -> entry id t' = Some m.

(** The rest of a turn of the scheduler, after an event: the watchdog and the choice. *)
Definition turn (e : option Event) (now started : Z) (is_ready : bool)
    (pending : result (list Message) BingleError) (l : SchedulerState) : SchedulerPc * SchedulerState :=
  let '(go, _, l1) := handle_event e now l in
  if go then
    let '(picked, l2) := pick is_ready pending now started (note_stuck options now l1) in
    (match picked with Some m => SPicked m | None => STop end, l2)
  else (SExited, l1).

Inductive scheduler_step : system S -> system S -> Prop :=
| sched_check t l sh ev wk wp (run : bool) mn tr :
    scheduler_step (MkSystem t STop l sh ev wk wp run mn tr)
      (MkSystem t (if run then SRecv else SExited) l sh ev wk wp run mn tr)
| sched_event t l sh e ev wk wp run mn tr now started is_ready :
    scheduler_step (MkSystem t SRecv l sh (e :: ev) wk wp run mn tr)
      (MkSystem t (turn (Some e) now started is_ready (pending_messages t) l).1
         (turn (Some e) now started is_ready (pending_messages t) l).2 sh ev wk wp run mn tr)
| sched_tick t l sh ev wk wp run mn tr now started is_ready :
    scheduler_step (MkSystem t SRecv l sh ev wk wp run mn tr)
      (MkSystem t (turn None now started is_ready (pending_messages t) l).1
         (turn None now started is_ready (pending_messages t) l).2 sh ev wk wp run mn tr)
| sched_mark t m l sh ev wk wp run mn tr :
    scheduler_step (MkSystem t (SPicked m) l sh ev wk wp run mn tr)
      (MkSystem t (SMarked m) l (Some (msg_id m)) ev wk wp run mn tr)
| sched_hand_over t m l sh ev wk wp run mn tr :
    wp <> WGone ->
    scheduler_step (MkSystem t (SMarked m) l sh ev wk wp run mn tr)
      (MkSystem t STop l sh ev (wk ++ [m]) wp run mn tr)
| sched_worker_gone t m l sh ev wk run mn tr :
    scheduler_step (MkSystem t (SMarked m) l sh ev wk WGone run mn tr)
      (MkSystem t SExited l None ev wk WGone run mn tr).

(** The worker; while in [send_one] it records progress and outcomes of its message. *)
Inductive worker_step : system S -> system S -> Prop :=
| worker_takes t sp l sh ev m wk run mn tr :
    worker_step (MkSystem t sp l sh ev (m :: wk) WWaiting run mn tr)
      (MkSystem t sp l sh ev wk (WSending m) run mn (tr ++ [Sent (msg_id m)]))
| worker_records t sp l sh ev wk m run mn tr p reason kind :
    worker_step (MkSystem t sp l sh ev wk (WSending m) run mn tr)
      (MkSystem (record_status (msg_id m) p reason kind t).1 sp l sh ev wk (WSending m) run mn tr)
| worker_delivered t sp l sh ev wk m run mn tr report :
    rep_id report = msg_id m -> rep_outcome report = Delivered ->
    worker_step (MkSystem t sp l sh ev wk (WSending m) run mn tr)
      (MkSystem (record_status (msg_id m) 100 None None t).1 sp l sh ev wk (WRecorded report) run mn
         (tr ++ [Completed (msg_id m)]))
| worker_failed t sp l sh ev wk m run mn tr report p reason kind :
    rep_id report = msg_id m -> rep_outcome report <> Delivered ->
    worker_step (MkSystem t sp l sh ev wk (WSending m) run mn tr)
      (MkSystem (record_status (msg_id m) p (Some reason) kind t).1 sp l sh ev wk (WRecorded report) run mn tr)
| worker_clears t sp l sh ev wk report run mn tr :
    worker_step (MkSystem t sp l sh ev wk (WRecorded report) run mn tr)
      (MkSystem t sp l None ev wk (WCleared report) run mn tr)
| worker_reports t sp l sh ev wk report run mn tr :
    sp <> SExited ->
    worker_step (MkSystem t sp l sh ev wk (WCleared report) run mn tr)
      (MkSystem t sp l sh (ev ++ [Done (rep_id report) report]) wk WWaiting run mn tr)
| worker_no_scheduler t l sh ev wk report run mn tr :
    worker_step (MkSystem t SExited l sh ev wk (WCleared report) run mn tr)
      (MkSystem t SExited l sh ev wk WGone run mn tr)
| worker_no_work t l sh ev run mn tr :
    worker_step (MkSystem t SExited l sh ev [] WWaiting run mn tr)
      (MkSystem t SExited l sh ev [] WGone run mn tr).

(** The client: waking, queueing, and the call of [shutdown]. *)
Inductive client_step : system S -> system S -> Prop :=
| client_wakes t sp l sh ev wk wp run mn tr :
    client_step (MkSystem t sp l sh ev wk wp run mn tr) (MkSystem t sp l sh (ev ++ [Wake]) wk wp run mn tr)
| client_queues t t' sp l sh ev wk wp run mn tr :
    queued_more t t' ->
    client_step (MkSystem t sp l sh ev wk wp run mn tr) (MkSystem t' sp l sh ev wk wp run mn tr)
| shutdown_flags t sp l sh ev wk wp run tr :
    client_step (MkSystem t sp l sh ev wk wp run MRunning tr) (MkSystem t sp l sh ev wk wp false MFlagged tr)
| shutdown_stops t sp l sh ev wk wp run tr :
    client_step (MkSystem t sp l sh ev wk wp run MFlagged tr) (MkSystem t sp l sh (ev ++ [Stop]) wk wp run MStopping tr)
| shutdown_joins t l sh ev wk wp run tr :
    client_step (MkSystem t SExited l sh ev wk wp run MStopping tr) (MkSystem t SExited l sh ev wk wp run MJoined tr)
| shutdown_waits t sp l sh ev wk wp run tr :
    client_step (MkSystem t sp l sh ev wk wp run MJoined tr) (MkSystem t sp l sh ev wk wp run (MWaited sh) tr)
| shutdown_reads t sp l sh ev wk wp run still tr pending :
    pending_messages t = Ok pending ->
    client_step (MkSystem t sp l sh ev wk wp run (MWaited still) tr)
      (MkSystem t sp l sh ev wk wp run (MFlushing still pending) tr)
| shutdown_posts t sp l sh ev wk wp run still m ms tr reason kind :
    still <> Some (msg_id m) ->
    client_step (MkSystem t sp l sh ev wk wp run (MFlushing still (m :: ms)) tr)
      (MkSystem (record_status (msg_id m) 0 (Some reason) kind t).1 sp l sh ev wk wp run (MFlushing still ms)
         (tr ++ [Posted (msg_id m)]))
| shutdown_skips t sp l sh ev wk wp run still m ms tr :
    client_step (MkSystem t sp l sh ev wk wp run (MFlushing still (m :: ms)) tr)
      (MkSystem t sp l sh ev wk wp run (MFlushing still ms) tr)
| shutdown_ends t sp l sh ev wk wp run still tr :
    client_step (MkSystem t sp l sh ev wk wp run (MFlushing still []) tr)
      (MkSystem t sp l sh ev wk wp run (MDone still) tr).

Definition step (s s' : system S) : Prop := scheduler_step s s' \/ worker_step s s' \/ client_step s s'.

(** [PendingSender::start]; a thread that could not be started has ended. *)
Inductive started : system S -> Prop :=
| started_sender t sp wp :
    store_wf t -> sp = STop \/ sp = SExited -> wp = WWaiting \/ wp = WGone ->
    started (MkSystem t sp SchedulerState_new None [] [] wp true MRunning []).

Definition reachable (s : system S) : Prop := exists s0, started s0 /\ rtc step s0 s.

(** ** One message at a time *)

(** The message a thread holds before [send_one], the one it is sending, and the one whose
    outcome is recorded. *)
Definition chosen (sp : SchedulerPc) : list string :=
  match sp with SPicked m | SMarked m => [msg_id m] | _ => [] end.
Definition marked (sp : SchedulerPc) : list string :=
  match sp with SMarked m => [msg_id m] | _ => [] end.
Definition sending (wp : WorkerPc) : list string :=
  match wp with WSending m => [msg_id m] | WRecorded r => [rep_id r] | _ => [] end.
Definition cleared (wp : WorkerPc) : list string :=
  match wp with WCleared r => [rep_id r] | _ => [] end.
Definition done_ids (ev : list Event) : list string :=
  omap (fun e => match e with Done id _ => Some id | _ => None end) ev.

(** Every message between the choice and the report of its outcome. *)
Definition busy (s : system S) : list string :=
  chosen (sy_sched s) ++ done_ids (sy_events s) ++ (msg_id <$> sy_work s) ++ sending (sy_worker s) ++
  cleared (sy_worker s).

(** Those for which the mark is set. *)
Definition in_hand (s : system S) : list string :=
  marked (sy_sched s) ++ (msg_id <$> sy_work s) ++ sending (sy_worker s).

Record one_at_a_time (s : system S) : Prop := {
  one_busy : (length (busy s) <= 1)%nat;
  one_local : sy_sched s <> SExited ->
    busy s = option_list (fst <$> sc_in_flight (sy_locals s));
  one_shared : sy_shared s = head (in_hand s)
}.

Lemma pick_busy is_ready pending now started l m l' :
  pick is_ready pending now started l = (m, l') ->
  (sc_in_flight l = None -> option_list (fst <$> sc_in_flight l') = option_list (msg_id <$> m)) /\
  (is_Some (sc_in_flight l) -> m = None /\ l' = l) .
Proof using.
  unfold pick. intros E. destruct (sc_in_flight l) as [[i z]|] eqn:El.
  - rewrite bool_decide_eq_false_2 in E by done. by injection E as <- <-.
  - split; [intros _|by intros [? ?]]. rewrite bool_decide_eq_true_2 in E by done.
    destruct is_ready; [|by injection E as <- <-; rewrite El].
    cbn [andb] in E. destruct (select_sendable_message _ _ _) as [x|]; by injection E as <- <-.
Qed.

Lemma note_stuck_in_flight now l : sc_in_flight (note_stuck options now l) = sc_in_flight l.
Proof using. unfold note_stuck. by repeat case_match. Qed.

(** A turn taken when the busy messages, the event included, are those in flight. *)
Lemma turn_busy e now started is_ready pending l rest :
  option_list (fst <$> sc_in_flight l) = done_ids (option_list e) ++ rest ->
  (length (done_ids (option_list e) ++ rest) <= 1)%nat ->
  let r := turn e now started is_ready pending l in
  (length (chosen r.1 ++ rest) <= 1)%nat /\
  (r.1 <> SExited -> chosen r.1 ++ rest = option_list (fst <$> sc_in_flight r.2)) /\ marked r.1 = [].
Proof using.
  intros Hl Hlen r. subst r. unfold turn.
  destruct (handle_event e now l) as [[go rep] l1] eqn:Eh.
  assert (go = true -> option_list (fst <$> sc_in_flight l1) = rest) as Hrest.
  { intros ->. destruct e as [[id r| |]|]; cbn in Eh, Hl, Hlen; simplify_eq; try done.
    destruct (sc_in_flight l) as [[i z]|]; cbn in Hl; [|done]. injection Hl as -> <-. by rewrite bool_decide_eq_true_2. }
  destruct go; cbn [fst snd].
  2:{ split_and!; [|done|done]. rewrite length_app in Hlen. cbn. lia. }
  specialize (Hrest eq_refl).
  destruct (pick is_ready pending now started (note_stuck options now l1)) as [m l2] eqn:Ep.
  apply pick_busy in Ep as [Hn Hs]. rewrite note_stuck_in_flight in Hn, Hs. cbn [fst snd].
  destruct (sc_in_flight l1) as [[i z]|] eqn:E1; cbn in Hrest; subst rest.
  - destruct Hs as [-> ->]; [done|]. rewrite note_stuck_in_flight, E1. by split_and!.
  - specialize (Hn eq_refl). destruct m as [m|]; cbn in Hn |- *; rewrite Hn; split_and!; auto.
Qed.

Ltac see_system :=
  unfold busy, in_hand in *;
  cbn [sy_store sy_sched sy_locals sy_shared sy_events sy_work sy_worker sy_running sy_main sy_trace
       chosen marked sending cleared app head option_list] in *;
  cbn [length] in *; rewrite ?length_app, ?length_fmap, ?fmap_app in *; cbn [length app] in *.

Lemma done_ids_app ev1 ev2 : done_ids (ev1 ++ ev2) = done_ids ev1 ++ done_ids ev2.
Proof using. apply omap_app. Qed.

Lemma one_started s : started s -> one_at_a_time s.
Proof using. destruct 1 as [t sp wp _ [-> | ->] [-> | ->]]; constructor; cbn; auto with lia. Qed.

Lemma one_turn t l sh e ev ev' wk wp run mn tr now started rdy :
  done_ids ev = done_ids (option_list e) ++ done_ids ev' ->
  one_at_a_time (MkSystem t SRecv l sh ev wk wp run mn tr) ->
  one_at_a_time (MkSystem t (turn e now started rdy (pending_messages t) l).1
     (turn e now started rdy (pending_messages t) l).2 sh ev' wk wp run mn tr).
Proof using.
  intros Hev [Hb Hl Hs]. specialize (Hl ltac:(done)). unfold busy in Hb, Hl.
  cbn [sy_sched sy_events sy_work sy_worker sy_locals chosen app] in Hb, Hl.
  rewrite Hev, <- app_assoc in Hb, Hl.
  destruct (turn_busy e now started rdy (pending_messages t) l _ (eq_sym Hl) Hb) as (Hb' & Hl' & Hm).
  constructor; [exact Hb'|exact Hl'|]. unfold in_hand. cbn [sy_sched sy_shared sy_work sy_worker]. rewrite Hm. exact Hs.
Qed.

Lemma one_scheduler s s' : one_at_a_time s -> scheduler_step s s' -> one_at_a_time s'.
Proof using.
  intros Hone Hst. destruct Hst as [t l sh ev wk wp run mn tr|t l sh e ev wk wp run mn tr now started rdy
    |t l sh ev wk wp run mn tr now started rdy|t m l sh ev wk wp run mn tr|t m l sh ev wk wp run mn tr Hw|t m l sh ev wk run mn tr].
  - destruct Hone as [Hb Hl Hs]. destruct run; constructor; auto; by intros.
  - eapply (one_turn _ _ _ (Some e)); [|exact Hone]. cbn. by destruct e.
  - by eapply (one_turn _ _ _ None); [|exact Hone].
  - destruct Hone as [Hb Hl Hs]. constructor; [exact Hb|intros _; exact (Hl ltac:(done))|done].
  - destruct Hone as [Hb Hl Hs]. specialize (Hl ltac:(done)). see_system.
    assert (wk = [] /\ sending wp = [] /\ cleared wp = [] /\ done_ids ev = []) as (-> & Hsd & Hc & Hd).
    { repeat split; apply nil_length_inv; lia. }
    constructor; see_system; rewrite ?Hsd, ?Hc, ?Hd in *; cbn; auto.
  - destruct Hone as [Hb Hl Hs]. see_system. assert (wk = [] /\ done_ids ev = []) as (-> & Hd).
    { split; apply nil_length_inv; lia. }
    constructor; see_system; rewrite ?Hd; cbn; auto with lia. done.
Qed.

Lemma one_worker s s' : one_at_a_time s -> worker_step s s' -> one_at_a_time s'.
Proof using.
  intros [Hb Hl Hs] Hst. destruct Hst as [t sp l sh ev m wk run mn tr|? ? ? ? ? ? m|? ? ? ? ? ? m ? ? ? rep Hr|
    ? ? ? ? ? ? m ? ? ? rep ? ? ? Hr|t sp l sh ev wk rep run mn tr|t sp l sh ev wk rep run mn tr Hsp| |]; see_system.
  - assert (wk = []) as -> by (apply nil_length_inv; lia). cbn [fmap list_fmap app length] in *.
    constructor; see_system; [lia|exact Hl|exact Hs].
  - by constructor; see_system.
  - constructor; see_system; rewrite ?Hr; done.
  - constructor; see_system; rewrite ?Hr; done.
  - assert (wk = [] /\ marked sp = []) as (-> & Hm).
    { split; [apply nil_length_inv; lia|]. destruct sp; cbn in Hb |- *; done || lia. }
    constructor; see_system; [lia|exact Hl|]. by rewrite Hm.
  - specialize (Hl Hsp). assert (wk = []) as -> by (apply nil_length_inv; lia).
    constructor; see_system; [|intros _|exact Hs].
    + rewrite done_ids_app, length_app. cbn. lia.
    + rewrite done_ids_app, app_nil_r. exact Hl.
  - constructor; see_system; [lia|done|exact Hs].
  - constructor; see_system; [lia|done|exact Hs].
Qed.

Lemma one_client s s' : one_at_a_time s -> client_step s s' -> one_at_a_time s'.
Proof using.
  intros [Hb Hl Hs] Hst. destruct Hst; constructor; see_system; rewrite ?done_ids_app, ?app_nil_r; auto.
  all: by cbn [done_ids omap list_omap]; rewrite ?app_nil_r.
Qed.

Lemma in_hand_busy s : (length (in_hand s) <= length (busy s))%nat.
Proof using. unfold in_hand, busy. rewrite !length_app. destruct (sy_sched s); cbn; lia. Qed.

Lemma in_hand_shared s id : one_at_a_time s -> id ∈ in_hand s -> sy_shared s = Some id.
Proof using.
  intros [Hb _ ->] Hid. pose proof (in_hand_busy s) as Hle.
  destruct (in_hand s) as [|x [|y l]]; [by apply not_elem_of_nil in Hid| |cbn in Hle; lia].
  by apply list_elem_of_singleton in Hid as ->.
Qed.

(** ** The flush and the worker *)

(** The messages a direct attempt is still to come for, or is running for. *)
Definition upcoming (s : system S) : list string :=
  chosen (sy_sched s) ++ (msg_id <$> sy_work s) ++
  match sy_worker s with WSending m => [msg_id m] | _ => [] end.

(** What [shutdown] knows of the message in flight, once it has stopped waiting. *)
Definition waited (mn : ShutdownPc) : option (option string) :=
  match mn with MWaited still | MFlushing still _ | MDone still => Some still | _ => None end.

Definition flushing (mn : ShutdownPc) : option (option string) :=
  match mn with MFlushing still _ | MDone still => Some still | _ => None end.

Lemma flushing_waited mn still : flushing mn = Some still -> waited mn = Some still.
Proof using. by destruct mn. Qed.

(** No attempt starts after the post, and no second post. *)
Definition ordered (tr : list Action) : Prop :=
  forall t1 id t2, tr = t1 ++ Posted id :: t2 -> (Sent id ∉ t2) /\ Posted id ∉ t2.

Record flush_ok (s : system S) : Prop := {
  fo_joined : sy_main s = MJoined \/ is_Some (waited (sy_main s)) -> sy_sched s = SExited;
  fo_still : forall still id, waited (sy_main s) = Some still -> id ∈ in_hand s -> still = Some id;
  fo_wf : store_wf (sy_store s);
  fo_upcoming : forall id, id ∈ upcoming s -> is_Some (entry id (sy_store s)) /\ Completed id ∉ sy_trace s;
  fo_completed : forall id, Completed id ∈ sy_trace s ->
    exists m, entry id (sy_store s) = Some m /\ is_pending m = false;
  fo_todo : forall still ms, sy_main s = MFlushing still ms -> NoDup (msg_id <$> ms) /\
    forall m, m ∈ ms -> is_Some (entry (msg_id m) (sy_store s)) /\ (Posted (msg_id m) ∉ sy_trace s) /\
      (still <> Some (msg_id m) -> Completed (msg_id m) ∉ sy_trace s);
  fo_posted : forall id, Posted id ∈ sy_trace s -> (Completed id ∉ sy_trace s) /\
    exists still, flushing (sy_main s) = Some still /\ still <> Some id;
  fo_ordered : ordered (sy_trace s)
}.

Lemma ordered_snoc tr a :
  ordered tr -> (forall id, a = Sent id \/ a = Posted id -> Posted id ∉ tr) -> ordered (tr ++ [a]).
Proof using.
  intros Ho Ha t1 id t2 E. destruct t2 as [|x t2 _] using rev_ind.
  - by split; apply not_elem_of_nil.
  - change (t1 ++ Posted id :: t2 ++ [x]) with (t1 ++ (Posted id :: t2) ++ [x]) in E.
    rewrite app_assoc in E. apply app_inj_tail in E as [E ->].
    destruct (Ho _ _ _ E) as [Hs Hp]. rewrite !not_elem_of_app, !list_elem_of_singleton.
    assert (Posted id ∈ tr) as Hin by (rewrite E; set_solver).
    split; (split; [done|]); intros <-; eapply Ha; eauto.
Qed.

Lemma record_frame t id p reason kind :
  store_wf t -> is_Some (entry id t) ->
  store_wf (record_status id p reason kind t).1 /\
  (forall id', is_Some (entry id' t) -> is_Some (entry id' (record_status id p reason kind t).1)) /\
  (forall id', id' <> id -> entry id' (record_status id p reason kind t).1 = entry id' t).
Proof using.
  intros Hwf [m Hm]. destruct (record_spec id p reason kind t m Hwf Hm) as (t' & m' & -> & Hwf' & Hm' & _ & Ho & _).
  cbn [fst]. split_and!; [done| |done]. intros id' Hs. destruct (decide (id' = id)) as [->|Hne]; [by eexists|by rewrite Ho].
Qed.

Lemma turn_picks e now started rdy pending l m :
  m ∈ chosen (turn e now started rdy pending l).1 ->
  exists ms x, pending = Ok ms /\ x ∈ ms /\ m = msg_id x.
Proof using.
  unfold turn. destruct (handle_event e now l) as [[[] rep] l1]; [|by intros ?%not_elem_of_nil].
  unfold pick. destruct (bool_decide _ && rdy); [|by intros ?%not_elem_of_nil].
  destruct pending as [ms|]; [|by intros ?%not_elem_of_nil]. cbn [fst].
  destruct (select_sendable_message ms _ now) as [x|] eqn:E; [|by intros ?%not_elem_of_nil].
  intros ->%list_elem_of_singleton.
  exists ms, x. by apply select_sendable_elem in E as [? _].
Qed.

Lemma pending_open t ms m (tr : list Action) :
  store_wf t -> pending_messages t = Ok ms -> m ∈ ms ->
  (forall id, Completed id ∈ tr -> exists m, entry id t = Some m /\ is_pending m = false) ->
  is_Some (entry (msg_id m) t) /\ Completed (msg_id m) ∉ tr.
Proof using.
  intros Hwf Hms Hin Hc. destruct (pending_spec t Hwf) as (ms' & Hms' & _ & Hp).
  rewrite Hms in Hms'. injection Hms' as <-. apply Hp in Hin as [He Hpend]. split; [by eexists|].
  intros (m' & He' & Hn)%Hc. congruence.
Qed.

Ltac see_flush :=
  unfold upcoming, in_hand in *;
  cbn [sy_store sy_sched sy_locals sy_shared sy_events sy_work sy_worker sy_running sy_main sy_trace
       waited flushing chosen marked sending cleared app] in *.

Lemma flush_started s : started s -> flush_ok s.
Proof using.
  destruct 1 as [t sp wp Hwf [-> | ->] [-> | ->]]; constructor; see_flush; try done;
    try (by intros [?|[? ?]]); try (by intros ? ?%elem_of_nil); try (by intros ? ?%not_elem_of_nil).
  all: intros t1 id t2 E; by destruct t1.
Qed.

(** The steps of the scheduler change neither the store nor the trace nor the flush. *)
Lemma flush_sched t sp l sh ev wk wp run mn tr sp' l' sh' ev' wk' run' :
  flush_ok (MkSystem t sp l sh ev wk wp run mn tr) -> sp <> SExited ->
  (forall id, id ∈ chosen sp' ++ (msg_id <$> wk') -> id ∈ chosen sp ++ (msg_id <$> wk) \/
     exists ms m, pending_messages t = Ok ms /\ m ∈ ms /\ id = msg_id m) ->
  flush_ok (MkSystem t sp' l' sh' ev' wk' wp run' mn tr).
Proof using.
  intros [Hj Hst Hwf Hup Hc Ht Hp Ho] Hsp Hin. see_flush.
  assert (forall still, waited mn <> Some still) as Hw.
  { intros still Hs. apply Hsp, Hj. right. by exists still. }
  constructor; see_flush; try done.
  - intros Hor. exfalso. apply Hsp, Hj. done.
  - intros still id Hs. by apply Hw in Hs.
  - intros id. rewrite app_assoc, elem_of_app. intros [[Hid|(ms & m & Hms & Hm & ->)]%Hin|Hid].
    + apply Hup. set_solver.
    + by eapply pending_open.
    + apply Hup. set_solver.
Qed.

Lemma flush_scheduler s s' : flush_ok s -> scheduler_step s s' -> flush_ok s'.
Proof using.
  intros Hok Hst. destruct Hst; eapply flush_sched; try exact Hok; try done; cbn [chosen app].
  - destruct run; cbn; set_solver.
  - intros id [(ms & m & ? & ? & ->)%turn_picks|Hid]%elem_of_app; [right; eauto|by left].
  - intros id [(ms & m & ? & ? & ->)%turn_picks|Hid]%elem_of_app; [right; eauto|by left].
  - set_solver.
  - intros id. rewrite fmap_app. set_solver.
  - set_solver.
Qed.

(** A record of [id], which is upcoming and, if the flush has begun, the one it leaves
    alone. *)
Lemma flush_record t sp l sh ev wk wp run mn tr id p reason kind :
  flush_ok (MkSystem t sp l sh ev wk wp run mn tr) -> is_Some (entry id t) -> Completed id ∉ tr ->
  flush_ok (MkSystem (record_status id p reason kind t).1 sp l sh ev wk wp run mn tr).
Proof using.
  intros [Hj Hst Hwf Hup Hc Ht Hp Ho] Hid Hnc. see_flush.
  destruct (record_frame t id p reason kind Hwf Hid) as (Hwf' & Hs & Hf).
  constructor; see_flush; try done.
  - intros i Hi. destruct (Hup i Hi). eauto.
  - intros i Hi. destruct (Hc i Hi) as (m & Hm & Hpend). exists m. rewrite Hf; [done|]. by intros ->.
  - intros still ms Hmn. destruct (Ht still ms Hmn) as [Hnd Hall]. split; [done|]. intros m Hm.
    destruct (Hall m Hm). eauto.
Qed.

(** The worker moves on without completing a message. *)
Lemma flush_moves t sp l sh ev wk wp run mn tr sh' ev' wk' wp' :
  flush_ok (MkSystem t sp l sh ev wk wp run mn tr) ->
  upcoming (MkSystem t sp l sh ev wk' wp' run mn tr) ⊆ upcoming (MkSystem t sp l sh ev wk wp run mn tr) ->
  in_hand (MkSystem t sp l sh ev wk' wp' run mn tr) ⊆ in_hand (MkSystem t sp l sh ev wk wp run mn tr) ->
  flush_ok (MkSystem t sp l sh' ev' wk' wp' run mn tr).
Proof using.
  intros [Hj Hst Hwf Hup Hc Ht Hp Ho] H1 H2. constructor; see_flush; try done.
  - intros still id Hs Hid. by apply Hst, H2.
  - intros id Hid. by apply Hup, H1.
Qed.

(** Once the flush has begun, what is in hand has not been posted. *)
Lemma in_hand_not_posted s id : flush_ok s -> id ∈ in_hand s -> Posted id ∉ sy_trace s.
Proof using.
  intros Hok Hid Hp. destruct (fo_posted _ Hok _ Hp) as (_ & still & Hs & Hne).
  apply Hne, (fo_still _ Hok); [by apply flushing_waited|done].
Qed.

Lemma flush_sent t sp l sh ev wk wp run mn tr id :
  flush_ok (MkSystem t sp l sh ev wk wp run mn tr) -> id ∈ in_hand (MkSystem t sp l sh ev wk wp run mn tr) ->
  flush_ok (MkSystem t sp l sh ev wk wp run mn (tr ++ [Sent id])).
Proof using.
  intros Hok Hid. pose proof (in_hand_not_posted _ _ Hok Hid) as Hnp. destruct Hok as [Hj Hst Hwf Hup Hc Ht Hp Ho].
  assert (forall i, Completed i ∈ tr ++ [Sent id] -> Completed i ∈ tr) as Hci.
  { intros i [Hi|[=]%list_elem_of_singleton]%elem_of_app. done. }
  assert (forall i, Posted i ∈ tr ++ [Sent id] -> Posted i ∈ tr) as Hpi.
  { intros i [Hi|[=]%list_elem_of_singleton]%elem_of_app. done. }
  constructor; see_flush; try done.
  - intros i Hi. destruct (Hup i Hi). eauto.
  - intros i Hi. by apply Hc, Hci.
  - intros still ms Hmn. destruct (Ht still ms Hmn) as [Hnd Hall]. split; [done|]. intros m Hm.
    destruct (Hall m Hm) as (? & ? & Hx). split_and!; [done|by intros ?%Hpi|by intros Hne ?%Hci; apply Hx].
  - intros i Hi%Hpi. destruct (Hp i Hi). eauto.
  - apply ordered_snoc; [done|]. intros i [[= ->]|[=]]. done.
Qed.

Lemma flush_delivered t sp l sh ev wk m run mn tr report :
  one_at_a_time (MkSystem t sp l sh ev wk (WSending m) run mn tr) ->
  flush_ok (MkSystem t sp l sh ev wk (WSending m) run mn tr) -> rep_id report = msg_id m ->
  flush_ok (MkSystem (record_status (msg_id m) 100 None None t).1 sp l sh ev wk (WRecorded report) run mn
    (tr ++ [Completed (msg_id m)])).
Proof using.
  intros [Hone _ _] Hok Hr. pose proof (in_hand_not_posted _ (msg_id m) Hok) as Hnp.
  assert (msg_id m ∈ in_hand (MkSystem t sp l sh ev wk (WSending m) run mn tr)) as Hin by (unfold in_hand; cbn; set_solver).
  destruct (fo_upcoming _ Hok (msg_id m)) as [[m0 Hm0] Hn]; [unfold upcoming; cbn; set_solver|].
  destruct Hok as [Hj Hst Hwf Hup Hc Ht Hp Ho]. see_system. see_flush.
  destruct (record_frame t (msg_id m) 100 None None Hwf (ex_intro _ m0 Hm0)) as (Hwf' & Hsm & Hf).
  destruct (record_spec (msg_id m) 100 None None t m0 Hwf Hm0) as (t' & m' & Er & _ & Hm' & Hrec & _).
  rewrite Er in *. cbn [fst] in *.
  assert (chosen sp = [] /\ wk = []) as [Hch ->] by (split; apply nil_length_inv; lia).
  assert (forall i, Completed i ∈ tr ++ [Completed (msg_id m)] -> Completed i ∈ tr \/ i = msg_id m) as Hci.
  { intros i [Hi|[=]%list_elem_of_singleton]%elem_of_app; auto. }
  assert (forall i, Posted i ∈ tr ++ [Completed (msg_id m)] -> Posted i ∈ tr) as Hpi.
  { intros i [Hi|[=]%list_elem_of_singleton]%elem_of_app. done. }
  constructor; see_flush; try done.
  - intros still i Hs Hi. apply (Hst still i Hs). by rewrite Hr in Hi.
  - intros i Hi. rewrite Hch in Hi. by apply not_elem_of_nil in Hi.
  - intros i Hi. destruct (decide (i = msg_id m)) as [->|Hne].
    + exists m'. split; [done|]. destruct Hrec as (_ & _ & _ & _ & Hrec). unfold is_pending. by destruct Hrec as [-> _].
    + destruct (Hci i Hi) as [Hi'|?]; [|done]. destruct (Hc i Hi') as (x & Hx & ?). exists x. by rewrite Hf.
  - intros still ms Hmn. destruct (Ht still ms Hmn) as [Hnd Hall]. split; [done|]. intros x Hx.
    destruct (Hall x Hx) as (? & ? & Hx'). split_and!; [by apply Hsm|by eauto|].
    intros Hne [Hi|Heq]%Hci; [by apply Hx'|]. apply Hne. rewrite Heq. apply Hst; [by rewrite Hmn|done].
  - intros i Hi%Hpi. destruct (Hp i Hi) as [Hni ?]. split; [|done]. intros [?| ->]%Hci; [done|]. by apply Hnp.
  - apply ordered_snoc; [done|]. by intros i [[=]|[=]].
Qed.

Lemma flush_worker s s' : one_at_a_time s -> flush_ok s -> worker_step s s' -> flush_ok s'.
Proof using.
  intros Hone Hok Hst. destruct Hst as [t sp l sh ev m wk run mn tr|t sp l sh ev wk m run mn tr p reason kind|
    t sp l sh ev wk m run mn tr rep Hr Hdel|t sp l sh ev wk m run mn tr rep p reason kind Hr Hdel|
    t sp l sh ev wk rep run mn tr|t sp l sh ev wk rep run mn tr Hsp|t l sh ev wk rep run mn tr|t l sh ev run mn tr].
  - apply flush_sent; [|unfold in_hand; cbn; set_solver].
    eapply flush_moves; [done|..]; unfold upcoming, in_hand; cbn; set_solver.
  - destruct (fo_upcoming _ Hok (msg_id m)) as [He Hn]; [unfold upcoming; cbn; set_solver|]. by apply flush_record.
  - by apply flush_delivered.
  - destruct (fo_upcoming _ Hok (msg_id m)) as [He Hn]; [unfold upcoming; cbn; set_solver|].
    eapply flush_moves; [by apply flush_record|..]; unfold upcoming, in_hand; cbn; rewrite ?Hr; set_solver.
  - eapply flush_moves; [done|..]; unfold upcoming, in_hand; cbn; set_solver.
  - eapply flush_moves; [done|..]; unfold upcoming, in_hand; cbn; set_solver.
  - eapply flush_moves; [done|..]; unfold upcoming, in_hand; cbn; set_solver.
  - eapply flush_moves; [done|..]; unfold upcoming, in_hand; cbn; set_solver.
Qed.

(** A step of [shutdown] that neither records nor posts. *)
Lemma flush_main t sp l sh ev wk wp run mn tr ev' run' mn' :
  flush_ok (MkSystem t sp l sh ev wk wp run mn tr) ->
  (mn' = MJoined \/ is_Some (waited mn') -> sp = SExited) ->
  (forall still id, waited mn' = Some still ->
     id ∈ in_hand (MkSystem t sp l sh ev wk wp run mn tr) -> still = Some id) ->
  (forall still ms, mn' = MFlushing still ms -> NoDup (msg_id <$> ms) /\
    forall m, m ∈ ms -> is_Some (entry (msg_id m) t) /\ (Posted (msg_id m) ∉ tr) /\
      (still <> Some (msg_id m) -> Completed (msg_id m) ∉ tr)) ->
  (forall still, flushing mn = Some still -> flushing mn' = Some still) ->
  flush_ok (MkSystem t sp l sh ev' wk wp run' mn' tr).
Proof using.
  intros [Hj Hst Hwf Hup Hc Ht Hp Ho] H1 H2 H3 H4. constructor; see_flush; try done.
  intros id Hid. destruct (Hp id Hid) as (? & still & ? & ?). split; [done|]. exists still. eauto.
Qed.

Lemma flush_queues t t' sp l sh ev wk wp run mn tr :
  flush_ok (MkSystem t sp l sh ev wk wp run mn tr) -> queued_more t t' ->
  flush_ok (MkSystem t' sp l sh ev wk wp run mn tr).
Proof using.
  intros [Hj Hst Hwf Hup Hc Ht Hp Ho] [Hwf' Hmore].
  assert (forall id, is_Some (entry id t) -> is_Some (entry id t')) as Hs.
  { intros id [m Hm]. exists m. by apply Hmore. }
  constructor; see_flush; try done.
  - intros id Hid. destruct (Hup id Hid). eauto.
  - intros id Hid. destruct (Hc id Hid) as (m & ? & ?). eauto.
  - intros still ms Hmn. destruct (Ht still ms Hmn) as [? Hall]. split; [done|]. intros m Hm.
    destruct (Hall m Hm) as (? & ? & ?). eauto.
Qed.

Lemma flush_posts t sp l sh ev wk wp run still m ms tr reason kind :
  flush_ok (MkSystem t sp l sh ev wk wp run (MFlushing still (m :: ms)) tr) -> still <> Some (msg_id m) ->
  flush_ok (MkSystem (record_status (msg_id m) 0 (Some reason) kind t).1 sp l sh ev wk wp run (MFlushing still ms)
    (tr ++ [Posted (msg_id m)])).
Proof using.
  intros Hok Hne. destruct (fo_todo _ Hok still (m :: ms) eq_refl) as [Hnd Hall].
  destruct (Hall m ltac:(left)) as (He & Hnp & Hnc). specialize (Hnc Hne).
  apply (flush_record _ _ _ _ _ _ _ _ _ _ (msg_id m) 0 (Some reason) kind) in Hok; [|done|done].
  cbn in Hnd. apply NoDup_cons in Hnd as [Hni Hnd].
  destruct Hok as [Hj Hst Hwf Hup Hc Ht Hp Ho]. see_flush.
  assert (forall i, Completed i ∈ tr ++ [Posted (msg_id m)] -> Completed i ∈ tr) as Hci.
  { intros i [Hi|[=]%list_elem_of_singleton]%elem_of_app. done. }
  assert (forall i, Posted i ∈ tr ++ [Posted (msg_id m)] -> Posted i ∈ tr \/ i = msg_id m) as Hpi.
  { intros i [Hi|[=]%list_elem_of_singleton]%elem_of_app; auto. }
  constructor; see_flush; try done.
  - intros _. apply Hj. by right; eexists.
  - intros i Hi. destruct (Hup i Hi). eauto.
  - intros i Hi. by apply Hc, Hci.
  - intros still' ms' [= <- <-]. split; [done|]. intros x Hx.
    destruct (Ht still (m :: ms) eq_refl) as [_ Hall']. destruct (Hall' x ltac:(by right)) as (? & ? & Hxc).
    split_and!; [done| |by intros ? ?%Hci; apply Hxc].
    intros [?|Heq]%Hpi; [done|]. apply Hni. rewrite <- Heq. by apply list_elem_of_fmap_2.
  - intros i [Hi| ->]%Hpi.
    + destruct (Hp i Hi) as [? ?]. split; [by intros ?%Hci|done].
    + split; [by intros ?%Hci|]. by exists still.
  - apply ordered_snoc; [done|]. intros i [[=]|[= <-]]. done.
Qed.

Ltac by_main Hok := eapply flush_main; [exact Hok|..]; cbn [waited flushing]; try done.

Lemma flush_client s s' : one_at_a_time s -> flush_ok s -> client_step s s' -> flush_ok s'.
Proof using.
  intros Hone Hok Hst. pose proof Hok as [Hj Hs Hwf Hup Hc Ht Hp Ho].
  destruct Hst; see_flush; try (by_main Hok; fail).
  - by eapply flush_queues.
  - by_main Hok. by intros [?|[? ?]].
  - by_main Hok. by intros [?|[? ?]].
  - by_main Hok; [intros _; apply Hj; by left|].
    intros still id [= <-] Hid. exact (in_hand_shared _ _ Hone Hid).
  - by_main Hok; [intros _; apply Hj; by right; eexists|].
    intros still' ms [= <- <-]. destruct (pending_spec t Hwf) as (ms' & Hms & Hnd & _). split; [congruence|].
    intros m Hm. destruct (pending_open t pending m tr Hwf) as [? ?]; [done..|]. split_and!; [done| |done].
    by intros (_ & ? & ? & _)%Hp.
  - by apply flush_posts.
  - by_main Hok; [intros _; apply Hj; by right; eexists|].
    destruct (Ht _ _ eq_refl) as [Hnd Hall]. intros still' ms' [= <- <-]. apply NoDup_cons in Hnd as [_ Hnd].
    split; [done|]. intros x Hx. apply Hall. by right.
  - by_main Hok. intros _. apply Hj. by right; eexists.
Qed.

Lemma ok_reachable s : reachable s -> one_at_a_time s /\ flush_ok s.
Proof using.
  intros (s0 & H0' & Hst). assert (one_at_a_time s0 /\ flush_ok s0) as Hok.
  { split; [by apply one_started|by apply flush_started]. }
  clear H0'. induction Hst as [|s0 s1 s2 Hst _ IH]; [done|].
  apply IH. destruct Hok as [H1 H2]. destruct Hst as [Hst|[Hst|Hst]].
  - eauto using one_scheduler, flush_scheduler.
  - eauto using one_worker, flush_worker.
  - eauto using one_client, flush_client.
Qed.

(** One message at a time: whatever the interleaving, at most one message is between
    the scheduler's mark and the record of its outcome, and the shared mark names exactly
    that message, so that a reader who finds no mark knows that nothing is in flight. *)
Theorem single_flight s :
  reachable s ->
  (length (in_hand s) <= 1)%nat /\ sy_shared s = head (in_hand s).
Proof using.
  intros [[Hb _ Hs] _]%ok_reachable. split; [|done]. by rewrite in_hand_busy.
Qed.

(** (C5) Exit never sends a message twice.  However the threads interleave, and whenever
    the wait for the message in flight was cut short, a message that the flush posts to the
    mailboxes was not delivered directly to all its recipients and never is; no direct
    attempt at it starts after the post, none is running when it is posted, and it is
    posted once. *)
Theorem exit_sends_once s :
  reachable s ->
  (forall id, Posted id ∈ sy_trace s -> Completed id ∉ sy_trace s) /\
  ordered (sy_trace s) /\
  (forall id, Posted id ∈ sy_trace s -> id ∉ in_hand s).
Proof using.
  intros [_ Hok]%ok_reachable. split_and!.
  - intros id Hp. by apply (fo_posted _ Hok).
  - apply (fo_ordered _ Hok).
  - intros id Hp Hin. by apply (in_hand_not_posted _ _ Hok Hin).
Qed.

(** ** The code of the threads makes these steps *)

Section Refines.
Context {D : Type} `{SenderWorld D}.
Context (sp : SchedulerPc) (l : SchedulerState) (sh : option string) (ev : list Event) (wk : list Message)
  (run : bool).

(** A system whose worker is sending, with this store. *)
Definition while_sending (m : Message) (mn : ShutdownPc) (tr : list Action) (t : S) : system S :=
  MkSystem t sp l sh ev wk (WSending m) run mn tr.

Lemma progress_steps m mn tr ps : forall (s s' : Sender S D) u,
  report_progress (msg_id m) ps s = (s', u) ->
  rtc worker_step (while_sending m mn tr (sd_store s)) (while_sending m mn tr (sd_store s')).
Proof using.
  induction ps as [|p ps IH]; intros s s' u E; cbn [report_progress] in E; [by injection E as <- <-|].
  apply bind_run in E as (s1 & r & E1 & E). unfold in_outbound in E1.
  eapply rtc_l; [|by eapply IH]. destruct (record_status (msg_id m) p None None (sd_store s)) as [t' r'] eqn:Er.
  injection E1 as <- <-. cbn [sd_store].
  pose proof (worker_records (sd_store s) sp l sh ev wk m run mn tr p None None) as Hst. by rewrite Er in Hst.
Qed.

Lemma attempt_steps m mn tr f rs : forall last (s s' : Sender S D) last',
  attempt m f rs last s = (s', last') ->
  rtc worker_step (while_sending m mn tr (sd_store s)) (while_sending m mn tr (sd_store s')).
Proof using.
  induction rs as [|r rs IH]; intros last s s' last' E; cbn [attempt] in E; [by injection E as <- <-|].
  apply bind_run in E as (s1 & skip & E1 & E).
  assert (sd_store s1 = sd_store s) as Hs1.
  { unfold recently_offline in E1. destruct f; [|by injection E1 as <- <-].
    apply bind_run in E1 as (s2 & now & E2 & E1). unfold in_world in E2. destruct (instant_now (sd_world s)).
    injection E2 as <- <-. by apply bind_run in E1 as (? & ? & [= <- <-] & [= <- <-]). }
  rewrite <- Hs1. destruct skip; [by injection E as <- <-|].
  apply bind_run in E as (s2 & res & E2 & E). unfold in_world in E2. destruct (deliver _ _ _ _) as [w2 d].
  injection E2 as <- <-. apply bind_run in E as (s3 & [] & E3 & E).
  etrans; [by eapply (progress_steps m mn tr) in E3|].
  destruct (classify_send_error _) as [fl|]; apply bind_run in E as (s4 & [] & E4 & E).
  - assert (sd_store s4 = sd_store s3) as <-.
    { destruct (indicates_peer_offline (sf_kind fl)); [|by injection E4 as <-].
      apply bind_run in E4 as (s5 & now & E5 & E4). unfold in_world in E5. destruct (instant_now (sd_world s3)).
      injection E5 as <- <-. by injection E4 as <-. }
    destruct (is_retryable (sf_kind fl)); [by injection E as <- <-|]. by eapply IH.
  - injection E4 as <-. by eapply IH in E.
Qed.

(** (C33) The worker's code makes only the steps of the worker: a run of [send_one] is a
    sequence of them, from the message taken to the outcome recorded, and counts as a
    completed delivery exactly when it reports one. *)
Theorem send_one_refines m mn tr retries (s s' : Sender S D) rep :
  send_one m retries s = (s', rep) ->
  rtc worker_step (MkSystem (sd_store s) sp l sh ev wk (WSending m) run mn tr)
    (MkSystem (sd_store s') sp l sh ev wk (WRecorded rep) run mn
       (match rep_outcome rep with Delivered => tr ++ [Completed (msg_id m)] | _ => tr end)).
Proof using.
  unfold send_one. intros E. apply bind_run in E as (? & ? & [= <- <-] & E).
  apply bind_run in E as (s1 & last & Ea & E). apply bind_run in E as (s2 & o & Eo & [= <- <-]).
  eapply rtc_r; [by eapply (attempt_steps m mn tr)|]. unfold while_sending. cbn [rep_outcome].
  destruct last as [f|]; cbn [record_outcome] in Eo; apply bind_run in Eo as (s3 & r & E3 & Eo);
    unfold in_outbound in E3.
  - assert (sd_store s2 = (record_status (msg_id m) (if retries && is_retryable (sf_kind f) then 0 else 100)
              (Some (sf_reason f)) (Some (sf_kind f)) (sd_store s1)).1 /\ o <> Delivered) as [-> Ho].
    { destruct (record_status _ _ _ _ _) as [t' r']. injection E3 as <- <-.
      apply bind_run in Eo as (? & ? & [= <- <-] & Eo). destruct (_ && _); injection Eo as <- <-; [done|].
      split; [done|]. by destruct (retries && _). }
    destruct o; [done|..]; by apply worker_failed.
  - destruct (record_status _ _ _ _ _) as [t' r'] eqn:Er. injection E3 as <- <-. injection Eo as <- <-. cbn [sd_store].
    pose proof (worker_delivered (sd_store s1) sp l sh ev wk m run mn tr
      (MkSendReport (msg_id m) (recipient_handles m) Delivered (bool_decide (is_Some (failure_reason m)))) eq_refl eq_refl) as Hst.
    by rewrite Er in Hst.
Qed.
End Refines.
End Threads.

(** ** Runs in the small world *)

Module SmallThreads.
Definition options : PendingSenderOptions := PendingSenderOptions_new.
Definition store : Account.LocalState * Account.SmallClient.world := sd_store SmallSender.leaving.
Definition msg : Message := SmallSender.lone_msg.

Definition start : system _ := MkSystem store STop SchedulerState_new None [] [] WWaiting true MRunning [].
Definition picked : SchedulerState := MkSchedulerState (Some (msg_id msg, 7)) false ∅.

(** The message is marked; and, in another run, the sender has been shut down and the
    flush has posted it. *)
Definition busy_state : system _ :=
  MkSystem store (SMarked msg) picked (Some (msg_id msg)) [] [] WWaiting true MRunning [].
Definition left_state : system _ :=
  MkSystem (record_status (msg_id msg) 0 (Some "x"%string) None store).1 SExited SchedulerState_new None [Stop] []
    WWaiting false (MFlushing None []) [Posted (msg_id msg)].

Lemma start_ok : started start.
Proof. constructor; [|by left|by left]. vm_compute. apply NoDup_singleton. Qed.

Lemma turn_ok : turn options None 6 7 true (pending_messages store) SchedulerState_new = (SPicked msg, picked).
Proof. vm_compute. reflexivity. Qed.

Lemma reach_busy : reachable options busy_state.
Proof.
  exists start. split; [apply start_ok|]. unfold start, busy_state.
  eapply rtc_l; [left; apply (sched_check options)|].
  eapply rtc_l; [left; apply (sched_tick options) with (now := 6) (started := 7) (is_ready := true)|].
  rewrite turn_ok. apply rtc_once. left. apply (sched_mark options).
Qed.

Lemma reach_left : reachable options left_state.
Proof.
  exists start. split; [apply start_ok|]. unfold start, left_state.
  eapply rtc_l; [right; right; apply shutdown_flags|].
  eapply rtc_l; [right; right; apply shutdown_stops|].
  eapply rtc_l; [left; apply (sched_check options)|].
  eapply rtc_l; [right; right; apply shutdown_joins|].
  eapply rtc_l; [right; right; apply shutdown_waits|].
  assert (pending_messages store = Ok [msg]) as Hp by (vm_compute; reflexivity).
  eapply rtc_l; [right; right; by apply shutdown_reads|].
  apply rtc_once. right. right. by apply (shutdown_posts _ _ _ _ _ _ _ _ _ _ _ []).
Qed.
End SmallThreads.

Lemma single_flight_witness : sy_shared SmallThreads.busy_state = head (in_hand SmallThreads.busy_state).
Proof. exact (proj2 (single_flight SmallThreads.options SmallThreads.busy_state SmallThreads.reach_busy)). Defined.

Lemma exit_sends_once_witness :
  Completed (msg_id SmallThreads.msg) ∉ sy_trace SmallThreads.left_state.
Proof.
  refine (proj1 (exit_sends_once SmallThreads.options SmallThreads.left_state SmallThreads.reach_left) _ _). left.
Defined.

Lemma send_one_refines_witness :
  rtc worker_step
    (MkSystem (sd_store SmallSender.lone) STop SchedulerState_new None [] [] (WSending SmallSender.lone_msg) true MRunning [])
    (MkSystem (sd_store SmallSender.tried.1) STop SchedulerState_new None [] [] (WRecorded SmallSender.tried.2) true MRunning []).
Proof.
  assert (send_one SmallSender.lone_msg true SmallSender.lone = (SmallSender.tried.1, SmallSender.tried.2)) as E
    by (vm_compute; reflexivity).
  exact (send_one_refines STop SchedulerState_new None [] [] true SmallSender.lone_msg MRunning [] _ _ _ _ E).
Defined.
