(* ===== verification/Lifecycle.v ===== *)
(** * The life cycle of the engine

    Models, of [src/bingle_core/src/engine/mod.rs]: the reactions to what STUN finds
    (consistent, inconsistent, blocked, silent), the registration with a relay and its
    refresh, the keep-alive, foreground and background, relay initialization, start and
    stop; [engine/advert_lifecycle.rs]; and the operations of
    [api/bingle_api_impl.rs] through which the database is registered with, refreshed
    and signed off from.

    The state extends that of [Api] (with the node, the connections and the handle
    cache) by the engine's timers, tasks and what it remembers.  A task is a flag, or
    the target it works on: its loop calls the operations modelled here.  Each operation
    runs without another one in between; [AdvertThreads] has the interleavings of those
    that register and sign off.  The relay
    finder is a parameter; [RelayUpdater] models its selection. *)
From S2P Require Import Prelude NetAddr Advert Ddb RelayCache Turn Mutex Stun Messages Handlers EngineIo HandleCache Api.
Import Api.

Local Open Scope Z_scope.

(** ** Constants and options, in milliseconds *)

Definition REGISTER_WATCHDOG : Z := 30000.
Definition REREGISTER_DEBOUNCE : Z := 5000.
Definition PENDING_IP_CHANGE_POLLS : Z := 3.
Definition LISTEN_ATTEMPTS : nat := 3.

Record options : Type := MkOptions {
  o_handle : string;
  o_static_ip : option SocketAddr;
  o_stun_servers : list SocketAddr;
  o_advert_ttl : option Z
}.

(** ** Observing the public address *)

Inductive PublicAddrChange : Type :=
| Unchanged
| PortOnly
| PendingIpDebounce
| AddrReset.

#[export] Instance PublicAddrChange_eq_dec : EqDecision PublicAddrChange.
Proof. solve_decision. Defined.

(** The candidate address seen before, with how often in a row, and the verdict. *)
Definition classify_public_addr_change (prev new : option SocketAddr) (pending : option (IpAddr * Z))
  : option (IpAddr * Z) * PublicAddrChange :=
  match prev, new with
  | None, _ => (None, Unchanged)
  | Some _, None => (None, AddrReset)
  | Some prev, Some new =>
      if decide (new = prev) then (None, Unchanged)
      else if decide (ip new = ip prev) then (None, PortOnly)
      else
        let count := match pending with
                     | Some (i, n) => if decide (i = ip new) then n + 1 else 1
                     | None => 1
                     end in
        if PENDING_IP_CHANGE_POLLS <=? count then (None, AddrReset)
        else (Some (ip new, count), PendingIpDebounce)
  end.

(** ** The state *)

(** What the engine tells the application and the transport. *)
Inductive life_note : Type :=
| ListeningNote (listening : bool) (t : NatType)
| ForgetPeers
| PublicEndpoint (addr : option SocketAddr)
| TransportUp
| TransportDown.

Record life (W : Type) : Type := MkLife {
  lf_api : api W;
  pending_ip_change : option (IpAddr * Z);
  last_registered_relay : option RelayInfo;
  last_reregister_at : option Z;
  register_attempt_at : option Z;
  relay_keep_alive : option (string * SocketAddr);
  relay_permission_refresher : bool;
  advert_registration : option AdvertRegistration;
  advert_refresher : bool;
  advert_sweeper : bool;
  stun : option Inner;
  notes : list life_note
}.
Arguments MkLife {W} _ _ _ _ _ _ _ _ _ _ _ _.
Arguments lf_api {W} _.
Arguments pending_ip_change {W} _.
Arguments last_registered_relay {W} _.
Arguments last_reregister_at {W} _.
Arguments register_attempt_at {W} _.
Arguments relay_keep_alive {W} _.
Arguments relay_permission_refresher {W} _.
Arguments advert_registration {W} _.
Arguments advert_refresher {W} _.
Arguments advert_sweeper {W} _.
Arguments stun {W} _.
Arguments notes {W} _.

Section Setters.
Context {W : Type}.

Definition set_api (a : api W) (f : life W) : life W :=
  MkLife a (pending_ip_change f) (last_registered_relay f) (last_reregister_at f) (register_attempt_at f)
    (relay_keep_alive f) (relay_permission_refresher f) (advert_registration f) (advert_refresher f)
    (advert_sweeper f) (stun f) (notes f).
Definition set_pending_ip (p : option (IpAddr * Z)) (f : life W) : life W :=
  MkLife (lf_api f) p (last_registered_relay f) (last_reregister_at f) (register_attempt_at f)
    (relay_keep_alive f) (relay_permission_refresher f) (advert_registration f) (advert_refresher f)
    (advert_sweeper f) (stun f) (notes f).
Definition set_home_relay (r : option RelayInfo) (f : life W) : life W :=
  MkLife (lf_api f) (pending_ip_change f) r (last_reregister_at f) (register_attempt_at f)
    (relay_keep_alive f) (relay_permission_refresher f) (advert_registration f) (advert_refresher f)
    (advert_sweeper f) (stun f) (notes f).
Definition set_reregister_at (t : option Z) (f : life W) : life W :=
  MkLife (lf_api f) (pending_ip_change f) (last_registered_relay f) t (register_attempt_at f)
    (relay_keep_alive f) (relay_permission_refresher f) (advert_registration f) (advert_refresher f)
    (advert_sweeper f) (stun f) (notes f).
Definition set_attempt_at (t : option Z) (f : life W) : life W :=
  MkLife (lf_api f) (pending_ip_change f) (last_registered_relay f) (last_reregister_at f) t
    (relay_keep_alive f) (relay_permission_refresher f) (advert_registration f) (advert_refresher f)
    (advert_sweeper f) (stun f) (notes f).
Definition set_keep_alive (k : option (string * SocketAddr)) (f : life W) : life W :=
  MkLife (lf_api f) (pending_ip_change f) (last_registered_relay f) (last_reregister_at f)
    (register_attempt_at f) k (relay_permission_refresher f) (advert_registration f) (advert_refresher f)
    (advert_sweeper f) (stun f) (notes f).
Definition set_permission_refresher (b : bool) (f : life W) : life W :=
  MkLife (lf_api f) (pending_ip_change f) (last_registered_relay f) (last_reregister_at f)
    (register_attempt_at f) (relay_keep_alive f) b (advert_registration f) (advert_refresher f)
    (advert_sweeper f) (stun f) (notes f).
Definition set_registration (r : option AdvertRegistration) (f : life W) : life W :=
  MkLife (lf_api f) (pending_ip_change f) (last_registered_relay f) (last_reregister_at f)
    (register_attempt_at f) (relay_keep_alive f) (relay_permission_refresher f) r (advert_refresher f)
    (advert_sweeper f) (stun f) (notes f).
Definition set_refresher (b : bool) (f : life W) : life W :=
  MkLife (lf_api f) (pending_ip_change f) (last_registered_relay f) (last_reregister_at f)
    (register_attempt_at f) (relay_keep_alive f) (relay_permission_refresher f) (advert_registration f) b
    (advert_sweeper f) (stun f) (notes f).
Definition set_sweeper (b : bool) (f : life W) : life W :=
  MkLife (lf_api f) (pending_ip_change f) (last_registered_relay f) (last_reregister_at f)
    (register_attempt_at f) (relay_keep_alive f) (relay_permission_refresher f) (advert_registration f)
    (advert_refresher f) b (stun f) (notes f).
Definition set_stun (i : option Inner) (f : life W) : life W :=
  MkLife (lf_api f) (pending_ip_change f) (last_registered_relay f) (last_reregister_at f)
    (register_attempt_at f) (relay_keep_alive f) (relay_permission_refresher f) (advert_registration f)
    (advert_refresher f) (advert_sweeper f) i (notes f).
Definition add_note (n : life_note) (f : life W) : life W :=
  MkLife (lf_api f) (pending_ip_change f) (last_registered_relay f) (last_reregister_at f)
    (register_attempt_at f) (relay_keep_alive f) (relay_permission_refresher f) (advert_registration f)
    (advert_refresher f) (advert_sweeper f) (stun f) (notes f ++ [n]).
End Setters.

(** ** Setters of the node *)

Definition set_public_addr (a : option SocketAddr) (n : node) : node :=
  MkNodeState (issuer n) (backend n) (turn_handler_relay n) (turn_handler_client n) (relay_finder n)
    (node_relay_state n) a (peer_ddb_records n) (signon_complete n) (relay_init_mutex n) (Handlers.life n).
Definition set_node_relay_state (s : RelayState) (n : node) : node :=
  MkNodeState (issuer n) (backend n) (turn_handler_relay n) (turn_handler_client n) (relay_finder n)
    s (last_public_addr n) (peer_ddb_records n) (signon_complete n) (relay_init_mutex n) (Handlers.life n).
Definition set_peer_records (c : option nat) (n : node) : node :=
  MkNodeState (issuer n) (backend n) (turn_handler_relay n) (turn_handler_client n) (relay_finder n)
    (node_relay_state n) (last_public_addr n) c (signon_complete n) (relay_init_mutex n) (Handlers.life n).

Definition set_state_field (s : EngineState) (l : lifecycle) : lifecycle :=
  MkLifecycle (endpoint_ready l) (registered_flag l) (nat_restricted l) s (nat_type l).
Definition clear_flags (l : lifecycle) : lifecycle :=
  MkLifecycle false false false (state_field l) (nat_type l).

(** The relay finder: finding a relay for an id, and its lists of relays; each works on
    the finder's cache and may talk to relays.  Also the date as a text. *)
Class Finder (W : Type) := {
  finder_find : string -> cache -> W -> W * (cache * option RelayInfo);
  finder_roots : string -> bool -> cache -> W -> W * (cache * list RelayInfo);
  finder_all : string -> bool -> cache -> W -> W * (cache * list RelayInfo);
  rfc3339_now : W -> W * string
}.

Section Engine.
Context {W SigningKey : Type} `{Outside W} `{Finder W} (cfg : setting SigningKey) (null_client : bool)
  (opts : options).

(** ** Computations of the engine *)

Definition LM (A : Type) : Type := life W -> outcome (life W * A).

#[local] Instance LM_ret : MRet LM := fun A a f => Returns (f, a).
#[local] Instance LM_bind : MBind LM := fun A B k m f =>
  match m f with Returns (f, a) => k a f | Panics => Panics end.

Definition gets {A} (g : life W -> A) : LM A := fun f => Returns (f, g f).
Definition modifies (g : life W -> life W) : LM unit := fun f => Returns (g f, tt).

(** An operation of the API. *)
Definition via_api {A} (m : M W A) : LM A := fun f =>
  match m (lf_api f) with Returns (a, x) => Returns (set_api a f, x) | Panics => Panics end.

Definition lnode (f : life W) : node := eng_node (Api.eng (lf_api f)).
Definition ml (f : life W) : lifecycle := Handlers.life (lnode f).

Definition on_node (g : node -> node) : LM unit :=
  modifies (fun f =>
    set_api (MkApi (Api.outside (lf_api f)) (set_node (g (lnode f)) (Api.eng (lf_api f)))
               (handle_cache (lf_api f))) f).
Definition on_life (g : lifecycle -> lifecycle) : LM unit :=
  on_node (fun n => set_life (g (Handlers.life n)) n).
Definition on_engine (g : engine -> engine) : LM unit :=
  modifies (fun f =>
    set_api (MkApi (Api.outside (lf_api f)) (g (Api.eng (lf_api f))) (handle_cache (lf_api f))) f).
Definition outside_world {A} (g : W -> W * A) : LM A := via_api (use g).
Definition lifts {A} (o : outcome A) : LM A :=
  fun f => match o with Returns a => Returns (f, a) | Panics => Panics end.

(** ** Small operations *)

Definition notify_listening (b : bool) : LM unit :=
  f ← gets ml; modifies (add_note (ListeningNote b (nat_type f))).

(** [BingleApiImpl::notify_listening] *)
Definition api_notify_listening (b : bool) (t : NatType) : LM unit := modifies (add_note (ListeningNote b t)).

Definition set_last_public_addr (a : option SocketAddr) : LM unit :=
  _ ← on_node (set_public_addr a); modifies (add_note (PublicEndpoint a)).

Definition set_relay_state (s : RelayState) : LM unit := on_node (set_node_relay_state s).

(** This node's id, or its handle before the id is known. *)
Definition own_id : LM string :=
  n ← gets lnode; mret (match issuer n with Some i => norm_id i | None => o_handle opts end).

Definition upsert_roots (now : Z) (roots : list RelayInfo) (b : InMemoryDdbBackend) : InMemoryDdbBackend :=
  foldl (fun b r => mem_upsert now (advert_record r) b) b roots.

Definition upsert_roots_into_backend (roots : list RelayInfo) : LM unit :=
  now ← outside_world clock;
  on_node (fun n => set_backend (upsert_roots now roots (backend n)) n).

Definition count_peer_states (peers : list RelayInfo) : nat * nat :=
  (length (filter (fun r => state r = Some Available) peers),
   length (filter (fun r => state r = Some Starting) peers)).

(** ** The keep-alive and the permission refresh *)

Definition start_relay_keep_alive (rid : string) (addr : SocketAddr) : LM unit :=
  modifies (set_keep_alive (Some (rid, addr))).
Definition stop_relay_keep_alive : LM unit := modifies (set_keep_alive None).

Definition start_relay_permission_refresh : LM unit := modifies (set_permission_refresher true).
Definition stop_relay_permission_refresh : LM unit := modifies (set_permission_refresher false).

Definition ensure_relay_keep_alive_running : LM unit :=
  running ← gets relay_keep_alive;
  match running with
  | Some _ => mret tt
  | None =>
      remembered ← gets last_registered_relay;
      match remembered with
      | None => mret tt
      | Some relay =>
          addr ← lifts (address relay);
          start_relay_keep_alive (relay_id_of relay) addr
      end
  end.

(** ** The advert *)

Definition stop_advert_refresh : LM unit := modifies (set_refresher false).

Definition start_advert_refresh : LM unit :=
  match o_advert_ttl opts with
  | None => mret tt
  | Some _ => modifies (set_refresher true)
  end.

Definition note_advert_registered (r : AdvertRegistration) : LM unit :=
  _ ← modifies (set_registration (Some r));
  if registration_is_relay r then stop_advert_refresh else start_advert_refresh.

(** With no pass of the refresh under way: [AdvertThreads.signing_step] has the wait for one, which
    may itself register. *)
Definition take_advert_registration : LM (option AdvertRegistration) :=
  _ ← stop_advert_refresh;
  r ← gets advert_registration;
  _ ← modifies (set_registration None);
  mret r.

Definition start_advert_expiry_sweep : LM unit :=
  _ ← on_node (fun n => match issuer n with
                        | Some i => set_backend (set_own_id (norm_id i) (backend n)) n
                        | None => n
                        end);
  match o_advert_ttl opts with None => mret tt | Some _ => modifies (set_sweeper true) end.
Definition stop_advert_expiry_sweep : LM unit := modifies (set_sweeper false).

Definition sweep_expired_adverts : LM (list string) :=
  now ← outside_world clock;
  n ← gets lnode;
  let '(expired, b) := mem_sweep_expired now (backend n) in
  _ ← on_node (set_backend b);
  mret expired.

(** [BingleApiImpl::ddb_register_ip], [ddb_register_relay] and [ddb_signoff] *)
Definition client : DdbClient W := ddb_client cfg null_client.

Definition ddb_register_ip (addr : SocketAddr) (am_relay : bool) : LM (result unit BingleError) :=
  r ← via_api (register_ip client addr am_relay);
  match r with
  | Err e => mret (Err e)
  | Ok _ => _ ← note_advert_registered (RegIp addr am_relay); mret (Ok tt)
  end.

Definition ddb_register_relay (rid : string) (rsig : option string) : LM (result unit BingleError) :=
  r ← via_api (register_relay client rid rsig);
  match r with
  | Err e => mret (Err e)
  | Ok _ => _ ← note_advert_registered (RegRelay rid rsig); mret (Ok tt)
  end.

Definition ddb_signoff : LM (result unit BingleError) :=
  _ ← take_advert_registration; via_api (signoff client).

(** ** Registering with a relay *)

(** [turn_client_handle_listen_response]: the client handler is there from the start. *)
Definition turn_client_handle_listen_response (addr : SocketAddr) (rid : string) : LM unit :=
  n ← gets lnode;
  match turn_handler_client n with
  | None => lifts Panics
  | Some t => on_node (set_turn_client (Client.handle_listen_response addr rid t))
  end.

(** The attempts left to make at sending Listen. *)
Fixpoint listen_loop (relay : RelayInfo) (addr : SocketAddr) (attempts : nat) : LM bool :=
  match attempts with
  | O => mret false
  | S attempts =>
      r ← via_api (send_message_to_network_with_response cfg null_client (new_direct addr) (relay_id_of relay)
                     (Typed (MRelay (Listen None))));
      match r with
      | Ok resp =>
          match resp with
          | Typed (MRelay (ListenResponse _)) =>
              _ ← turn_client_handle_listen_response addr (relay_id_of relay);
              mret true
          | _ => mret false
          end
      | Err _ => listen_loop relay addr attempts
      end
  end.

Definition send_relay_listen (relay : RelayInfo) : LM bool :=
  addr ← lifts (address relay);
  listen_loop relay addr LISTEN_ATTEMPTS.

(** [finder.find_relay] on the finder the engine holds, if it holds one. *)
Definition find_with_cached (me : string) : LM (option (option RelayInfo)) :=
  n ← gets lnode;
  match relay_finder n with
  | None => mret None
  | Some c =>
      r ← outside_world (finder_find me c);
      _ ← on_node (set_finder (Some r.1));
      mret (Some r.2)
  end.

(** The relay to register with: the given one, or one the finder finds.  A finder built
    here, for want of one, is not kept. *)
Definition choose_relay (override : option RelayInfo) : LM (option RelayInfo) :=
  match override with
  | Some relay => mret (Some relay)
  | None =>
      me ← own_id;
      found ← find_with_cached me;
      match found with
      | Some found => mret found
      | None =>
          if has_app_id cfg then
            r ← outside_world (finder_find me []);
            mret r.2
          else mret None
      end
  end.

(** With no other thread in between: [AdvertThreads.registering_step] has the sections under the
    locks, which have this effect when nothing interrupts them
    ([AdvertThreads.registration_alone]). *)
Definition register_with_relay (override : option RelayInfo) : LM bool :=
  chosen ← choose_relay override;
  match chosen with
  | None => mret false
  | Some relay =>
      addr ← lifts (address relay);
      listening ← send_relay_listen relay;
      if negb listening then mret false
      else
        r ← ddb_register_relay (relay_id_of relay) None;
        match r with
        | Err _ => mret false
        | Ok _ =>
            _ ← on_life (set_state_internal Registered);
            _ ← api_notify_listening true Restricted;
            _ ← modifies (set_home_relay (Some relay));
            _ ← start_relay_keep_alive (relay_id_of relay) addr;
            mret true
        end
  end.

Definition switch_home_relay (failed : string) : LM bool :=
  _ ← on_node (relay_finder_remove_relay failed);
  register_with_relay None.

Definition reregister_or_switch (relay : RelayInfo) : LM bool :=
  ok ← register_with_relay (Some relay);
  if (ok : bool) then mret true else switch_home_relay (relay_id_of relay).

(** ** Reconnecting *)

(** Whether a refresh is due at [now]. *)
Definition refresh_due (now : Z) (last : option Z) : bool :=
  match last with Some t => negb (now - t <? REREGISTER_DEBOUNCE) | None => true end.

Definition is_registered_state (s : EngineState) : bool :=
  match s with Registered => true | _ => false end.

Definition refresh_relay_registration : LM unit :=
  l ← gets ml;
  if negb (is_registered_state (engine_state l)) then mret tt
  else
    remembered ← gets last_registered_relay;
    match remembered with
    | None => mret tt
    | Some relay =>
        now ← outside_world clock;
        last ← gets last_reregister_at;
        if negb (refresh_due now last) then mret tt
        else
          _ ← modifies (set_reregister_at (Some now));
          _ ← reregister_or_switch relay;
          mret tt
    end.

Definition on_outbound_session_established (ep : NetworkEndpoint) : LM unit :=
  remembered ← gets last_registered_relay;
  match remembered with
  | None => mret tt
  | Some relay =>
      addr ← lifts (address relay);
      if bool_decide (inet_socket_address ep = Some addr) then refresh_relay_registration else mret tt
  end.

Definition renew_home_relay_listen : LM bool :=
  l ← gets ml;
  if negb (is_registered_state (engine_state l)) then mret true
  else
    remembered ← gets last_registered_relay;
    match remembered with
    | None => mret true
    | Some relay =>
        ok ← send_relay_listen relay;
        if (ok : bool) then mret true
        else _ ← switch_home_relay (relay_id_of relay); mret false
    end.

Definition on_foreground : LM unit :=
  _ ← refresh_relay_registration; ensure_relay_keep_alive_running.
Definition on_background : LM unit := stop_relay_keep_alive.

(** A pass of the advert refresh. *)
Definition advert_refresh_pass : LM unit :=
  r ← gets advert_registration;
  match r with
  | None => mret tt
  | Some (RegIp addr am_relay) => _ ← via_api (register_ip client addr am_relay); mret tt
  | Some (RegRelay rid rsig) =>
      advertise ← renew_home_relay_listen;
      if (advertise : bool) then _ ← via_api (register_relay client rid rsig); mret tt
      else mret tt
  end.

(** ** What STUN found *)

(** No relay, or nothing to send to: wait for STUN to find the address again. *)
Definition give_up_connection : LM unit :=
  _ ← on_life (set_nat_type NoConnection);
  _ ← on_life (set_state_field StunIdentify);
  _ ← notify_listening false;
  modifies (fun f => set_stun (Stun.reset_state <$> stun f) f).

(** Everything bound to the old address is dropped. *)
Definition tear_down : LM unit :=
  _ ← on_life (set_state_field TrianglePing);
  _ ← on_life (set_nat_type NatUnknown);
  _ ← notify_listening false;
  _ ← stop_relay_keep_alive;
  _ ← modifies (add_note ForgetPeers);
  on_engine (set_connections ∅).

(** The observed address takes effect; also whether it was a change that tore down. *)
Definition commit_address (public_addr : option SocketAddr) : LM bool :=
  n ← gets lnode;
  pending ← gets pending_ip_change;
  let '(pending, change) := classify_public_addr_change (last_public_addr n) public_addr pending in
  _ ← modifies (set_pending_ip pending);
  let changed := bool_decide (change = AddrReset) in
  _ ← (if changed then tear_down else mret tt);
  _ ← (if bool_decide (change = PendingIpDebounce) then mret tt else set_last_public_addr public_addr);
  mret changed.

(** After a change, the remembered relay first. *)
Definition reregister_after (changed : bool) : LM bool :=
  if changed then
    remembered ← gets last_registered_relay;
    match remembered with
    | Some relay => reregister_or_switch relay
    | None => mret false
    end
  else mret false.

(** The triangle test is running and is not to be run again. *)
Definition triangle_pending (changed : bool) (now : Z) (attempt : option Z) (l : lifecycle) : bool :=
  negb changed && match state_field l with TrianglePing => true | _ => false end &&
  negb (match engine_state l with TrianglePing => true | _ => false end &&
        match attempt with Some t => REGISTER_WATCHDOG <=? now - t | None => false end).

(** [TriangleTest1] to the chosen relay, when the engine has its way of sending. *)
Definition send_triangle (public_addr : option SocketAddr) (relay : RelayInfo) (addr : SocketAddr) : LM unit :=
  g ← gets (fun f => Api.eng (lf_api f));
  let msg := Typed (MRelay (TriangleTest1 (inet_from (show_ipv6 cfg) (default addr public_addr))
                              (elements (seen_endpoints g)) None)) in
  _ ← via_api (send_message_to_network cfg null_client (new_direct addr) (relay_id_of relay) msg);
  mret tt.

(** The finder to use: the one held, or a new one. *)
Definition finder_cache : LM (option cache) :=
  n ← gets lnode;
  mret (match relay_finder n with
        | Some c => Some c
        | None => if has_app_id cfg then Some [] else None
        end).

(** The relay to test against.  The finder is kept when it finds one. *)
Definition drive_triangle (public_addr : option SocketAddr) : LM unit :=
  match public_addr with
  | None => give_up_connection
  | Some _ =>
      me ← own_id;
      c ← finder_cache;
      match c with
      | None => mret tt
      | Some c =>
          c ← (if node_is_relay cfg then
                 roots ← outside_world (finder_roots me true c);
                 _ ← upsert_roots_into_backend roots.2;
                 mret roots.1
               else mret c);
          r ← outside_world (finder_find me c);
          match r.2 with
          | None =>
              n ← gets lnode;
              _ ← (match relay_finder n with Some _ => on_node (set_finder (Some r.1)) | None => mret tt end);
              give_up_connection
          | Some relay =>
              addr ← lifts (address relay);
              _ ← on_node (set_finder (Some r.1));
              send_triangle public_addr relay addr
          end
      end
  end.

Definition stun_consistent_process (public_addr : option SocketAddr) : LM unit :=
  changed ← commit_address public_addr;
  done ← reregister_after changed;
  if (done : bool) then mret tt
  else
    now ← outside_world clock;
    attempt ← gets register_attempt_at;
    l ← gets ml;
    if triangle_pending changed now attempt l then mret tt
    else
      _ ← on_life (set_state_field TrianglePing);
      _ ← modifies (set_attempt_at (Some now));
      drive_triangle public_addr.

Definition stun_inconsistent_process : LM unit := _ ← register_with_relay None; mret tt.

Definition on_stun_blocked : LM unit :=
  _ ← stop_relay_keep_alive;
  _ ← on_life (set_nat_type NoConnection);
  _ ← on_life (set_state_field StunIdentify);
  notify_listening false.

Definition on_stun_none : LM unit :=
  _ ← stop_relay_keep_alive;
  _ ← on_life (set_nat_type NatUnknown);
  _ ← on_life clear_flags;
  _ ← on_life (set_state_field StunIdentify);
  notify_listening false.

(** The state handler the engine gives to the finder ([start_stun_find]). *)
Definition on_stun_state (s : StunState) (ep : option SocketAddr) : LM unit :=
  match s with
  | Consistent => stun_consistent_process ep
  | Inconsistent => stun_inconsistent_process
  | Blocked => on_stun_blocked
  | SNone => on_stun_none
  | Single => mret tt
  end.

(** ** Relay initialization *)

Definition fallback_addr : SocketAddr := SockAddr (V4 0 0 0 0) 0.

(** [finder.list_all_relays] and [list_root_relays] on the finder held. *)
Definition held_relays (lister : string -> bool -> cache -> W -> W * (cache * list RelayInfo)) (me : string)
    (include_self : bool) : LM (list RelayInfo) :=
  n ← gets lnode;
  match relay_finder n with
  | None => mret []
  | Some c =>
      r ← outside_world (lister me include_self c);
      _ ← on_node (set_finder (Some r.1));
      mret r.2
  end.

(** This node among the relays, with a signed record, when it is not listed. *)
Definition with_self (me : string) (relays : list RelayInfo) : LM (list RelayInfo) :=
  if bool_decide (me ∈ relay_id_of <$> relays) then mret relays
  else
    match signing_key cfg with
    | None => mret relays
    | Some sk =>
        n ← gets lnode;
        date ← outside_world rfc3339_now;
        now ← outside_world clock;
        let r := advert_new (to_vec cfg) (sign cfg) (base64_encode cfg) me
                   (Some (inet_from (show_ipv6 cfg) (default fallback_addr (last_public_addr n))))
                   (Some true) None None date sk in
        mret (relays ++ [root_with now r (Some Starting) None])
    end.

Definition await_signon_complete : LM bool :=
  events ← outside_world meanwhile;
  _ ← on_engine (io_run (parse_uuid cfg) (node_is_relay cfg) (surroundings cfg) (show_ipv6 cfg)
                   (run_dispatch cfg) events);
  n ← gets lnode;
  mret (signon_complete n).

(** The database is copied from a peer; then this node's own record is added. *)
Definition load_from_peer (me peer : string) : LM unit :=
  _ ← on_node (set_signon_complete false);
  r ← via_api (start_load_from_peer client peer);
  match r with
  | Err _ => mret tt
  | Ok count =>
      _ ← on_node (set_peer_records (Some count));
      _ ← set_relay_state Loading;
      _ ← await_signon_complete;
      n ← gets lnode;
      now ← outside_world clock;
      let ep := Some (inet_from (show_ipv6 cfg) (default fallback_addr (last_public_addr n))) in
      on_node (fun n => set_backend (mem_upsert now (own_record cfg me ep true None None) (backend n)) n)
  end.

(** What is done holding the mutex; the wait for it is that of [Mutex] and [MutexCluster]. *)
Definition initialize_cs (me : string) (relays : list RelayInfo) : LM unit :=
  _ ← set_relay_state Starting;
  _ ← on_node (fun n => set_finder (clear_state_cache <$> relay_finder n) n);
  _ ← held_relays finder_all me true;
  peers ← held_relays finder_roots me false;
  if Nat.eqb (count_peer_states peers).1 0 then
    now ← outside_world clock;
    on_node (fun n => set_backend (upsert_roots now relays (backend n)) n)
  else
    peers ← held_relays finder_roots me false;
    match peers with
    | [] => mret tt
    | first :: _ => load_from_peer me (relay_id_of first)
    end.

Definition initialize_relay : LM unit :=
  n ← gets lnode;
  match relay_finder n with
  | None => mret tt
  | Some _ =>
      _ ← set_relay_state Off;
      me ← own_id;
      relays ← held_relays finder_all me true;
      relays ← with_self me relays;
      _ ← held_relays finder_roots me false;
      let ids := relay_id_of <$> filter (fun r => state r <> Some Off) relays in
      _ ← on_node (set_mutex (new_state me ids));
      _ ← initialize_cs me relays;
      _ ← set_relay_state Available;
      _ ← start_relay_permission_refresh;
      start_advert_expiry_sweep
  end.

(** ** Starting and stopping *)

(** The thread of [start_with_addr] on a relay. *)
Definition static_relay_thread (addr : SocketAddr) : LM unit :=
  _ ← initialize_relay;
  _ ← ddb_register_ip addr true;
  _ ← on_life (set_state_internal Registered);
  api_notify_listening true FullCone.

(** [bind_ok]: the socket, the multiplexer and DTLS could be started. *)
Definition start_with_addr (addr : SocketAddr) (bind_ok : bool) : LM (result unit BingleError) :=
  _ ← set_last_public_addr (Some addr);
  if negb bind_ok then mret (Err OtherError)
  else
    _ ← modifies (add_note TransportUp);
    _ ← (if has_app_id cfg then on_node (set_finder (Some [])) else mret tt);
    _ ← on_life (set_nat_type FullCone);
    _ ← ddb_register_ip addr false;
    n ← gets lnode;
    _ ← (if node_is_relay cfg then
           match relay_finder n with
           | Some _ => static_relay_thread addr
           | None =>
               _ ← set_relay_state Available;
               _ ← notify_listening true;
               on_life (set_state_internal Registered)
           end
         else
           _ ← notify_listening true;
           on_life (set_state_internal Registered));
    mret (Ok tt).

Definition start (bind_ok : bool) : LM (result unit BingleError) :=
  match o_static_ip opts with
  | Some addr => start_with_addr addr bind_ok
  | None =>
      _ ← on_life (set_state_field StunIdentify);
      if negb bind_ok then mret (Err OtherError)
      else
        _ ← modifies (add_note TransportUp);
        let finder := set_handlers true false true inner_new in
        match o_stun_servers opts with
        | [] => _ ← modifies (set_stun (Some finder)); mret (Err OtherError)
        | servers =>
            _ ← modifies (set_stun (Some (Stun.init servers 2000 60000 None finder)));
            mret (Ok tt)
        end
  end.

Definition stop : LM unit :=
  _ ← stop_relay_keep_alive;
  _ ← stop_relay_permission_refresh;
  _ ← stop_advert_refresh;
  _ ← stop_advert_expiry_sweep;
  _ ← modifies (add_note TransportDown);
  _ ← modifies (set_stun None);
  _ ← on_life (set_state_field StunIdentify);
  _ ← on_life clear_flags;
  _ ← on_life (set_nat_type NatUnknown);
  _ ← set_last_public_addr None;
  modifies (set_home_relay None).

(** [BingleApiImpl::stop]: the sign-off is waited for as long as it takes here, where the
    code gives up after two seconds. *)
Definition api_stop : LM unit :=
  _ ← api_notify_listening false NatUnknown;
  r ← take_advert_registration;
  _ ← (match r with
       | Some _ => if node_is_relay cfg then mret tt else _ ← via_api (signoff client); mret tt
       | None => mret tt
       end);
  stop.
End Engine.

(** ** When an observation resets *)

(** The committed address and the pending candidate, through observations. *)
Definition observe (s : option SocketAddr * option (IpAddr * Z)) (o : option SocketAddr)
  : option SocketAddr * option (IpAddr * Z) :=
  let '(pending, change) := classify_public_addr_change s.1 o s.2 in
  (if bool_decide (change = PendingIpDebounce) then s.1 else o, pending).

Definition observed (h : list (option SocketAddr)) : option SocketAddr * option (IpAddr * Z) :=
  foldl observe (None, None) h.

(** What the candidate says of the observations so far. *)
Definition candidate_ok (h : list (option SocketAddr)) (c : option SocketAddr) (p : option (IpAddr * Z)) : Prop :=
  match c, p with
  | None, p => p = None
  | Some c, None => forall h' y, h = h' ++ [Some y] -> ip y = ip c
  | Some c, Some (i, n) =>
      i <> ip c /\ exists h' y, h = h' ++ [Some y] /\ ip y = i /\
      ((n = 1 /\ forall h'' x, h' = h'' ++ [Some x] -> ip x <> i) \/
       (n = 2 /\ exists h'' x, h' = h'' ++ [Some x] /\ ip x = i))
  end.

Lemma candidate_ok_observed h : candidate_ok h (observed h).1 (observed h).2.
Proof.
  induction h as [|o h IH] using rev_ind; [done|].
  unfold observed. rewrite foldl_snoc. fold (observed h). destruct (observed h) as [c p]. cbn [fst snd] in *.
  unfold observe. cbn [fst snd]. destruct c as [c|].
  2: { cbn. destruct o as [o|]; [|done]. cbn. intros h' y [_ [= ->]]%app_inj_tail. done. }
  destruct o as [n|]; cbn [classify_public_addr_change]; [|done].
  destruct (decide (n = c)) as [->|Hn].
  { cbn. intros h' y [_ [= ->]]%app_inj_tail. done. }
  destruct (decide (ip n = ip c)) as [Hip|Hip].
  { cbn. intros h' y [_ [= ->]]%app_inj_tail. done. }
  destruct p as [[i k]|]; cbn [candidate_ok] in IH.
  - destruct IH as (Hi & h' & y & -> & Hy & Hk). destruct (decide (i = ip n)) as [Hin|Hin].
    + destruct Hk as [[-> Hx]|[-> (h'' & x & -> & Hx)]].
      * cbn. split; [done|]. exists (h' ++ [Some y]), n. split_and!; [done|done|]. right. split; [done|].
        exists h', y. by subst.
      * cbn. intros h1 z [_ [= ->]]%app_inj_tail. done.
    + cbn. split; [done|]. exists (h' ++ [Some y]), n. split_and!; [done|done|]. left. split; [done|].
      intros h'' x [_ [= ->]]%app_inj_tail. congruence.
  - cbn. split; [done|]. exists h, n. split_and!; [done|done|]. left. split; [done|].
    intros h'' x ->. rewrite (IH h'' x eq_refl). congruence.
Qed.

(** A change of the public address tears the connections down exactly when the address
    is lost or a new host has been seen three times in a row.  After any observations,
    whatever the changes of port and the addresses that came and went, the next one
    resets if and only if there is a committed address and either none is observed, or a
    host other than the committed one is, and it is also that of the last two
    observations. *)
Theorem address_reset_exact h o :
  (classify_public_addr_change (observed h).1 o (observed h).2).2 = AddrReset <->
  exists c, (observed h).1 = Some c /\
    (o = None \/ exists n h' x y, o = Some n /\ ip n <> ip c /\ h = h' ++ [Some x; Some y] /\ ip x = ip n /\ ip y = ip n).
Proof.
  pose proof (candidate_ok_observed h) as Hok. destruct (observed h) as [[c|] p]; cbn [fst snd] in *.
  2: { cbn. split; [done|]. by intros (c & ? & _). }
  destruct o as [n|]; [|cbn; split; [eauto|done]].
  cbn [classify_public_addr_change].
  destruct (decide (n = c)) as [->|Hn].
  { split; [done|]. intros (c' & [= <-] & [?|(n' & ? & ? & ? & [= <-] & ? & _)]); done. }
  destruct (decide (ip n = ip c)) as [Hip|Hip].
  { split; [done|]. intros (c' & [= <-] & [?|(n' & ? & ? & ? & [= <-] & ? & _)]); done. }
  assert (forall h' x y, h' ++ [Some x; Some y] = (h' ++ [Some x]) ++ [Some (y : SocketAddr)]) as Happ.
  { intros. by rewrite <- app_assoc. }
  destruct p as [[i k]|]; cbn [candidate_ok] in Hok.
  - destruct Hok as (Hi & h' & y & -> & Hy & Hk). destruct (decide (i = ip n)) as [Hin|Hin].
    + destruct Hk as [[-> Hx]|[-> (h'' & x & -> & Hx)]]; cbn.
      * split; [done|]. intros (c' & [= <-] & [?|(n' & h1 & x & y' & [= <-] & _ & E & Hx' & _)]); [done|].
        rewrite Happ in E. apply app_inj_tail in E as [E _]. apply Hx in E. congruence.
      * split; [|done]. intros _. exists c. split; [done|]. right. exists n, h'', x, y.
        split_and!; [done|done|by rewrite Happ|congruence|congruence].
    + cbn. split; [done|]. intros (c' & [= <-] & [?|(n' & h1 & x & y' & [= <-] & _ & E & _ & Hy')]); [done|].
      rewrite Happ in E. apply app_inj_tail in E as [_ [= ->]]. congruence.
  - cbn. split; [done|]. intros (c' & [= <-] & [?|(n' & h1 & x & y' & [= <-] & _ & E & _ & Hy')]); [done|].
    rewrite Happ in E. apply Hok in E. congruence.
Qed.

(** ** Registration *)

Section Registration.
Context {W SigningKey : Type} `{Outside W} `{Finder W} (cfg : setting SigningKey) (null_client : bool)
  (opts : options).
#[local] Existing Instances LM_ret LM_bind.

(** What is remembered of the registration. *)
Definition kept (f : life W) :=
  (last_registered_relay f, relay_keep_alive f, advert_registration f, advert_refresher f).

Definition keeps_kept {A} (m : LM (W := W) A) : Prop :=
  forall f f' a, m f = Returns (f', a) -> kept f' = kept f.

Lemma lm_bind_inv {A B} (m : LM (W := W) A) (k : A -> LM (W := W) B) f f2 b :
  (m ≫= k) f = Returns (f2, b) -> exists f1 a, m f = Returns (f1, a) /\ k a f1 = Returns (f2, b).
Proof using. unfold mbind, LM_bind. destruct (m f) as [[f1 a]|]; [eauto|done]. Qed.

Lemma kept_bind {A B} (m : LM (W := W) A) (k : A -> LM (W := W) B) :
  keeps_kept m -> (forall a, keeps_kept (k a)) -> keeps_kept (m ≫= k).
Proof using.
  intros Hm Hk f f2 b (f1 & a & E1 & E2)%lm_bind_inv. rewrite (Hk _ _ _ _ E2). by apply (Hm _ _ _ E1).
Qed.

Lemma kept_ret {A} (a : A) : keeps_kept (mret a).
Proof using. by intros f f' a' [= <- <-]. Qed.

Lemma kept_gets {A} (g : life W -> A) : keeps_kept (gets g).
Proof using. by intros f f' a' [= <- <-]. Qed.

Lemma kept_modifies g : (forall f, kept (g f) = kept f) -> keeps_kept (modifies (W := W) g).
Proof using. intros Hg f f' a' [= <- <-]. apply Hg. Qed.

Lemma kept_via_api {A} (m : M W A) : keeps_kept (via_api m).
Proof using. intros f f' a. unfold via_api. destruct (m (lf_api f)) as [[? ?]|]; [|done]. by intros [= <- <-]. Qed.

Lemma kept_lifts {A} (o : outcome A) : keeps_kept (lifts (W := W) o).
Proof using. intros f f' a. unfold lifts. destruct o; [|done]. by intros [= <- <-]. Qed.
End Registration.

#[export] Hint Resolve kept_bind kept_ret kept_gets kept_via_api kept_lifts : bingle.
#[export] Hint Extern 1 (keeps_kept (modifies _)) => apply kept_modifies; done : bingle.

(** Solves that an operation leaves alone what is remembered. *)
Ltac kept_solve :=
  repeat first
    [ progress intros
    | match goal with
      | |- keeps_kept (mbind _ _) => apply kept_bind
      | |- keeps_kept (match ?x with _ => _ end) => destruct x
      end
    | solve [eauto with bingle] ].

Section Spec.
Context {W SigningKey : Type} `{Outside W} `{Finder W} (cfg : setting SigningKey) (null_client : bool)
  (opts : options).
#[local] Existing Instances LM_ret LM_bind.

Lemma kept_on_node g : keeps_kept (on_node (W := W) g).
Proof using. apply kept_modifies. done. Qed.
Lemma kept_on_life g : keeps_kept (on_life (W := W) g).
Proof using. apply kept_on_node. Qed.
Lemma kept_on_engine g : keeps_kept (on_engine (W := W) g).
Proof using. apply kept_modifies. done. Qed.
Lemma kept_outside {A} (g : W -> W * A) : keeps_kept (outside_world g).
Proof using. apply kept_via_api. Qed.
#[local] Hint Resolve kept_on_node kept_on_life kept_on_engine kept_outside : bingle.

Lemma kept_listen relay addr n : keeps_kept (listen_loop cfg null_client relay addr n).
Proof using. induction n as [|n IH]; cbn [listen_loop]; [kept_solve|]. unfold turn_client_handle_listen_response. kept_solve. Qed.
#[local] Hint Resolve kept_listen : bingle.

Lemma kept_choose o : keeps_kept (choose_relay (W := W) cfg opts o).
Proof using. unfold choose_relay, own_id, find_with_cached. kept_solve. Qed.
#[local] Hint Resolve kept_choose : bingle.

Lemma kept_send_listen relay : keeps_kept (send_relay_listen cfg null_client relay).
Proof using. unfold send_relay_listen. kept_solve. Qed.
#[local] Hint Resolve kept_send_listen : bingle.

(** What is remembered after an advert was registered. *)
Definition after_note (r : AdvertRegistration) (f : life W) :=
  (last_registered_relay f, relay_keep_alive f, Some r,
   if registration_is_relay r then false
   else match o_advert_ttl opts with Some _ => true | None => advert_refresher f end).

Lemma note_run r (f f' : life W) u : note_advert_registered opts r f = Returns (f', u) -> kept f' = after_note r f.
Proof using.
  unfold note_advert_registered. intros E. apply lm_bind_inv in E as (f1 & ? & [= <- <-] & E).
  unfold after_note. destruct (registration_is_relay r); [by injection E as <- <-|].
  unfold start_advert_refresh in E. destruct (o_advert_ttl opts); by injection E as <- <-.
Qed.

(** A registration with the database, by the client's call and the note of it. *)
Lemma registered_run (m : M W (result unit BingleError)) (r : AdvertRegistration) (f f' : life W) res :
  (x ← via_api m;
   match x with
   | Err e => mret (Err e)
   | Ok _ => _ ← note_advert_registered opts r; mret (Ok tt)
   end) f = Returns (f', res) ->
  kept f' = match res with Ok _ => after_note r f | Err _ => kept f end.
Proof using.
  intros E. apply lm_bind_inv in E as (f1 & x & E1 & E). apply kept_via_api in E1.
  destruct x as [u|e]; [|injection E as <- <-; exact E1].
  apply lm_bind_inv in E as (f2 & u2 & E2 & [= <- <-]). apply note_run in E2. rewrite E2.
  unfold kept in E1. injection E1 as Ha Hb Hc Hd. unfold after_note. by rewrite Ha, Hb, Hd.
Qed.

Lemma register_relay_run rid rsig (f f' : life W) res :
  ddb_register_relay cfg null_client opts rid rsig f = Returns (f', res) ->
  kept f' = match res with Ok _ => after_note (RegRelay rid rsig) f | Err _ => kept f end.
Proof using. apply registered_run. Qed.

Lemma register_ip_run addr b (f f' : life W) res :
  ddb_register_ip cfg null_client opts addr b f = Returns (f', res) ->
  kept f' = match res with Ok _ => after_note (RegIp addr b) f | Err _ => kept f end.
Proof using. apply registered_run. Qed.

(** What a registration with [relay] leaves, given what was remembered. *)
Definition registered_with (relay : RelayInfo) (f f' : life W) : Prop :=
  exists addr, address relay = Returns addr /\
    kept f' = (Some relay, Some (relay_id_of relay, addr), Some (RegRelay (relay_id_of relay) None),
               match o_advert_ttl opts with Some _ => true | None => advert_refresher f end) /\
    engine_state (ml f') = Registered.

Lemma register_with_relay_run override (f f' : life W) b :
  register_with_relay cfg null_client opts override f = Returns (f', b) ->
  if b then exists relay, (forall r, override = Some r -> relay = r) /\ registered_with relay f f'
  else kept f' = kept f.
Proof using.
  unfold register_with_relay. intros E. apply lm_bind_inv in E as (f1 & chosen & E1 & E).
  pose proof (kept_choose override _ _ _ E1) as K1. destruct chosen as [relay|]; [|by injection E as <- <-].
  apply lm_bind_inv in E as (f2 & addr & E2 & E). pose proof (kept_lifts _ _ _ _ E2) as K2.
  apply lm_bind_inv in E as (f3 & listening & E3 & E). pose proof (kept_send_listen _ _ _ _ E3) as K3.
  assert (kept f3 = kept f) as K by congruence.
  destruct listening; cbn [negb] in E; [|injection E as <- <-; exact K].
  apply lm_bind_inv in E as (f4 & res & E4 & E). pose proof (register_relay_run _ _ _ _ _ E4) as K4.
  destruct res as [u|e]; [|injection E as <- <-; congruence].
  apply lm_bind_inv in E as (f5 & ? & [= <- <-] & E). apply lm_bind_inv in E as (f6 & ? & [= <- <-] & E).
  apply lm_bind_inv in E as (f7 & ? & [= <- <-] & E). apply lm_bind_inv in E as (f8 & ? & [= <- <-] & [= <- <-]).
  exists relay. split.
  - intros r ->. cbn in E1. by injection E1 as _ <-.
  - exists addr. unfold lifts in E2. destruct (address relay); [|done]. injection E2 as _ ->. split; [done|].
    unfold kept in K, K4. injection K as _ _ _ Hd. injection K4 as _ _ Hc4 Hd4. unfold kept.
    cbn -[engine_state]. rewrite Hc4, Hd4, Hd. done.
Qed.

(** Registering with a relay is all or nothing for what the engine remembers.  When it
    succeeds, the engine is registered, the relay is its home relay, the one given if one
    was, the keep-alive runs towards the address of that relay, and the advert to be
    repeated names it; when it fails, whatever the step, home relay, keep-alive and
    advert are as they were. *)
Theorem register_with_relay_spec override (f f' : life W) b :
  register_with_relay cfg null_client opts override f = Returns (f', b) ->
  if b then
    exists relay addr, (forall r, override = Some r -> relay = r) /\ address relay = Returns addr /\
      engine_state (ml f') = Registered /\ last_registered_relay f' = Some relay /\
      relay_keep_alive f' = Some (relay_id_of relay, addr) /\
      advert_registration f' = Some (RegRelay (relay_id_of relay) None)
  else
    last_registered_relay f' = last_registered_relay f /\ relay_keep_alive f' = relay_keep_alive f /\
    advert_registration f' = advert_registration f /\ advert_refresher f' = advert_refresher f.
Proof using.
  intros E%register_with_relay_run. destruct b.
  - destruct E as (relay & Hr & addr & Ha & Hk & Hs). exists relay, addr.
    unfold kept in Hk. injection Hk as Hh Hka Hreg _. done.
  - unfold kept in E. by injection E as -> -> -> ->.
Qed.

(** ** The registration stays coherent *)

(** What is remembered fits together: the keep-alive and the advert are those of the home
    relay, and the refresh runs exactly when there is an advert that expires. *)
Record coherent (f : life W) : Prop := {
  co_keep_alive : forall rid addr, relay_keep_alive f = Some (rid, addr) ->
    exists r, last_registered_relay f = Some r /\ relay_id_of r = rid /\ address r = Returns addr;
  co_advert : forall rid rsig, advert_registration f = Some (RegRelay rid rsig) ->
    exists r, last_registered_relay f = Some r /\ relay_id_of r = rid;
  co_refresh : advert_refresher f = true <->
    is_Some (o_advert_ttl opts) /\ exists r, advert_registration f = Some r /\ registration_is_relay r = false
}.

Definition keeps_coherent {A} (m : LM (W := W) A) : Prop :=
  forall f f' a, m f = Returns (f', a) -> coherent f -> coherent f'.

Lemma coherent_kept f f' : kept f' = kept f -> coherent f -> coherent f'.
Proof using.
  unfold kept. intros [= Ha Hb Hc Hd] [H1 H2 H3]. split; [rewrite Ha, Hb|rewrite Ha, Hc|rewrite Hc, Hd]; done.
Qed.

Lemma coherent_frame {A} (m : LM A) : keeps_kept m -> keeps_coherent m.
Proof using. intros Hm f f' a E. by apply coherent_kept, (Hm _ _ _ E). Qed.

Lemma coherent_bind {A B} (m : LM A) (k : A -> LM B) :
  keeps_coherent m -> (forall a, keeps_coherent (k a)) -> keeps_coherent (m ≫= k).
Proof using. intros Hm Hk f f2 b (f1 & a & E1 & E2)%lm_bind_inv Hf. by eapply Hk, Hm. Qed.

Lemma coherent_register_ip addr b : keeps_coherent (ddb_register_ip cfg null_client opts addr b).
Proof using.
  intros f f' res E Hf. apply register_ip_run in E. destruct res as [u|e]; [|by eapply coherent_kept].
  destruct Hf as [H1 H2 H3]. unfold kept, after_note in E. injection E as Ha Hb Hc Hd.
  split; [rewrite Ha, Hb; done|by rewrite Hc|]. rewrite Hc, Hd. cbn. destruct b.
  - split; [done|]. by intros (_ & r & [= <-] & ?).
  - destruct (o_advert_ttl opts) eqn:Et; [split; eauto|]. split; [|by intros ([? ?] & _)].
    intros Hr. apply H3 in Hr as [[? ?] _]. done.
Qed.

Lemma coherent_register_relay override : keeps_coherent (register_with_relay cfg null_client opts override).
Proof using.
  intros f f' b E Hf. apply register_with_relay_run in E. destruct b; [|by eapply coherent_kept].
  destruct E as (relay & _ & addr & Ha & Hk & _). destruct Hf as [_ _ H3].
  unfold kept in Hk. injection Hk as Hh Hka Hreg Hd.
  split.
  - intros rid a Heq. rewrite Hka in Heq. injection Heq as <- <-. eauto.
  - intros rid rsig Heq. rewrite Hreg in Heq. injection Heq as <- <-. eauto.
  - rewrite Hreg, Hd. destruct (o_advert_ttl opts) eqn:Et; [split; eauto|]. split; [|by intros ([? ?] & _)].
    intros Hr. apply H3 in Hr as [[? ?] _]. done.
Qed.

Lemma coherent_stop_keep_alive : keeps_coherent stop_relay_keep_alive.
Proof using. intros f f' a [= <- <-] [_ H2 H3]. by split. Qed.

Lemma coherent_ensure : keeps_coherent ensure_relay_keep_alive_running.
Proof using.
  intros f f' a E Hf. unfold ensure_relay_keep_alive_running in E.
  apply lm_bind_inv in E as (? & ? & [= <- <-] & E). destruct (relay_keep_alive f); [by injection E as <- <-|].
  apply lm_bind_inv in E as (? & ? & [= <- <-] & E). destruct (last_registered_relay f) as [r|] eqn:Er; [|by injection E as <- <-].
  apply lm_bind_inv in E as (f1 & addr & E1 & [= <- <-]). unfold lifts in E1.
  destruct (address r) eqn:Ea; [|done]. injection E1 as <- <-. destruct Hf as [_ H2 H3]. split; [|done|done].
  intros rid x [= <- <-]. eauto.
Qed.

Lemma coherent_take : keeps_coherent take_advert_registration.
Proof using.
  intros f f' a E [H1 _ _]. unfold take_advert_registration in E.
  apply lm_bind_inv in E as (? & ? & [= <- <-] & E). apply lm_bind_inv in E as (? & ? & [= <- <-] & E).
  apply lm_bind_inv in E as (? & ? & [= <- <-] & [= <- <-]).
  split; [done|done|]. cbn. split; [done|]. by intros (_ & r & ? & _).
Qed.

#[local] Hint Resolve coherent_bind coherent_register_ip coherent_register_relay coherent_stop_keep_alive
  coherent_ensure coherent_take : bingle.

Ltac coherent_solve :=
  repeat first
    [ progress intros
    | solve [eauto with bingle]
    | solve [apply coherent_frame; kept_solve]
    | match goal with
      | |- keeps_coherent (mbind _ _) => apply coherent_bind
      | |- keeps_coherent (match ?x with _ => _ end) => destruct x
      end ].

Lemma coherent_switch rid : keeps_coherent (switch_home_relay cfg null_client opts rid).
Proof using. unfold switch_home_relay. coherent_solve. Qed.
#[local] Hint Resolve coherent_switch : bingle.

Lemma coherent_reregister relay : keeps_coherent (reregister_or_switch cfg null_client opts relay).
Proof using. unfold reregister_or_switch. coherent_solve. Qed.
#[local] Hint Resolve coherent_reregister : bingle.

Lemma coherent_refresh : keeps_coherent (refresh_relay_registration cfg null_client opts).
Proof using. unfold refresh_relay_registration. coherent_solve. Qed.
#[local] Hint Resolve coherent_refresh : bingle.

Lemma coherent_notify b : keeps_coherent (notify_listening (W := W) b).
Proof using. unfold notify_listening. coherent_solve. Qed.
#[local] Hint Resolve coherent_notify : bingle.

Lemma coherent_tear_down : keeps_coherent (tear_down (W := W)).
Proof using. unfold tear_down. coherent_solve. Qed.
#[local] Hint Resolve coherent_tear_down : bingle.

Lemma coherent_give_up : keeps_coherent (give_up_connection (W := W)).
Proof using. unfold give_up_connection. coherent_solve. Qed.
#[local] Hint Resolve coherent_give_up : bingle.

Lemma coherent_commit a : keeps_coherent (commit_address (W := W) a).
Proof using. unfold commit_address, set_last_public_addr. coherent_solve. Qed.
#[local] Hint Resolve coherent_commit : bingle.

Lemma coherent_drive a : keeps_coherent (drive_triangle cfg null_client opts a).
Proof using.
  unfold drive_triangle, own_id, finder_cache, upsert_roots_into_backend, send_triangle. coherent_solve.
Qed.
#[local] Hint Resolve coherent_drive : bingle.

Lemma coherent_consistent a : keeps_coherent (stun_consistent_process cfg null_client opts a).
Proof using. unfold stun_consistent_process, reregister_after. coherent_solve. Qed.
#[local] Hint Resolve coherent_consistent : bingle.

Lemma coherent_stun st ep : keeps_coherent (on_stun_state cfg null_client opts st ep).
Proof using.
  destruct st; cbn [on_stun_state]; unfold on_stun_none, on_stun_blocked, stun_inconsistent_process; coherent_solve.
Qed.
#[local] Hint Resolve coherent_stun : bingle.

Lemma kept_held lister me b : keeps_kept (held_relays (W := W) lister me b).
Proof using. unfold held_relays. kept_solve. Qed.
#[local] Hint Resolve kept_held : bingle.

Lemma kept_initialize : keeps_kept (initialize_relay cfg null_client opts).
Proof using.
  unfold initialize_relay, initialize_cs, own_id, with_self, load_from_peer, await_signon_complete, set_relay_state,
    start_relay_permission_refresh, start_advert_expiry_sweep. kept_solve.
Qed.
#[local] Hint Resolve kept_initialize : bingle.

Lemma coherent_start b : keeps_coherent (start cfg null_client opts b).
Proof using.
  unfold start, start_with_addr, static_relay_thread, set_last_public_addr, set_relay_state, api_notify_listening.
  coherent_solve.
Qed.

Lemma api_stop_kept (f f' : life W) u :
  api_stop cfg null_client f = Returns (f', u) ->
  kept f' = (None, None, None, false) /\ stun f' = None /\ last_public_addr (lnode f') = None /\
  ml f' = MkLifecycle false false false StunIdentify NatUnknown.
Proof using.
  unfold api_stop, take_advert_registration. intros E.
  apply lm_bind_inv in E as (? & ? & [= <- <-] & E). apply lm_bind_inv in E as (f1 & r & E1 & E).
  apply lm_bind_inv in E1 as (? & ? & [= <- <-] & E1). apply lm_bind_inv in E1 as (? & ? & [= <- <-] & E1).
  apply lm_bind_inv in E1 as (? & ? & [= <- <-] & [= <- <-]).
  apply lm_bind_inv in E as (f2 & u2 & E2 & E). cbn in E2.
  set (f1 := set_registration None _) in E2.
  assert (advert_registration f2 = None) as Hr.
  { assert (kept f2 = kept f1) as K; [|by unfold kept in K; injection K as _ _ -> _].
    revert E2. destruct (advert_registration f); [destruct (node_is_relay cfg)|]; intros E2;
      [by injection E2 as <- <-| |by injection E2 as <- <-].
    apply lm_bind_inv in E2 as (f3 & ? & E3 & [= <- <-]). by apply kept_via_api in E3. }
  clear E2. unfold stop in E.
  repeat (let f3 := fresh "f" in apply lm_bind_inv in E as (f3 & ? & [= <- <-] & E)).
  injection E as <- <-. unfold kept. cbn. by rewrite Hr.
Qed.

Lemma coherent_api_stop : keeps_coherent (api_stop cfg null_client).
Proof using.
  intros f f' u E _. apply api_stop_kept in E as [E _]. unfold kept in E. injection E as Ha Hb Hc Hd.
  split; [by rewrite Hb|by rewrite Hc|]. rewrite Hc, Hd. split; [done|]. by intros (_ & r & ? & _).
Qed.
#[local] Hint Resolve coherent_start coherent_api_stop : bingle.

(** What happens to an engine: what STUN finds, the host application coming and going, a
    new outbound session, a pass of the advert refresh, the registrations the handlers'
    threads make, sign-off, start, stop, and traffic, which changes the API's part of the
    state only. *)
Inductive life_op : Type :=
| OpStun (s : StunState) (ep : option SocketAddr)
| OpForeground
| OpBackground
| OpSession (ep : NetworkEndpoint)
| OpRefreshPass
| OpRegisterWithRelay
| OpRegisterIp (addr : SocketAddr) (am_relay : bool)
| OpInitializeRelay
| OpSignoff
| OpStart (bind_ok : bool)
| OpStop
| OpTraffic (g : api W -> api W).

Definition run_life_op (o : life_op) : LM unit :=
  match o with
  | OpStun s ep => on_stun_state cfg null_client opts s ep
  | OpForeground => on_foreground cfg null_client opts
  | OpBackground => on_background
  | OpSession ep => on_outbound_session_established cfg null_client opts ep
  | OpRefreshPass => advert_refresh_pass cfg null_client opts
  | OpRegisterWithRelay => _ ← register_with_relay cfg null_client opts None; mret tt
  | OpRegisterIp addr b => _ ← ddb_register_ip cfg null_client opts addr b; mret tt
  | OpInitializeRelay => initialize_relay cfg null_client opts
  | OpSignoff => _ ← ddb_signoff cfg null_client; mret tt
  | OpStart b => _ ← start cfg null_client opts b; mret tt
  | OpStop => api_stop cfg null_client
  | OpTraffic g => modifies (fun f => set_api (g (lf_api f)) f)
  end.

Fixpoint run_life (ops : list life_op) : LM unit :=
  match ops with
  | [] => mret tt
  | o :: ops => _ ← run_life_op o; run_life ops
  end.

(** An engine that has not been started. *)
Definition engine_new (a : api W) : life W := MkLife a None None None None None false None false false None [].

Lemma coherent_run ops : keeps_coherent (run_life ops).
Proof using.
  induction ops as [|o ops IH]; cbn [run_life]; [coherent_solve|]. apply coherent_bind; [|done].
  destruct o; cbn [run_life_op];
    unfold on_foreground, on_background, on_outbound_session_established, advert_refresh_pass,
      renew_home_relay_listen, ddb_signoff; coherent_solve.
Qed.

(** What the engine remembers of its registration is coherent between operations that do not
    overlap ([AdvertThreads.registrations_cross] has two that do).  Through any sequence of STUN results, reconnections, advert refreshes, registrations, sign-offs,
    starts and stops, with whatever traffic in between: a keep-alive runs only towards the
    address of the home relay; an advert that names a relay names the home relay; and the
    refresh runs exactly when adverts expire and there is one of a client to repeat. *)
Theorem registration_coherent a ops (f : life W) :
  run_life ops (engine_new a) = Returns (f, tt) ->
  (forall rid addr, relay_keep_alive f = Some (rid, addr) ->
    exists r, last_registered_relay f = Some r /\ relay_id_of r = rid /\ address r = Returns addr) /\
  (forall rid rsig, advert_registration f = Some (RegRelay rid rsig) ->
    exists r, last_registered_relay f = Some r /\ relay_id_of r = rid) /\
  (advert_refresher f = true <->
    is_Some (o_advert_ttl opts) /\ exists r, advert_registration f = Some r /\ registration_is_relay r = false).
Proof using.
  intros E. assert (coherent f) as [Hk Ha Hr].
  { eapply coherent_run; [exact E|]. split; [done|done|]. cbn. split; [done|]. by intros (_ & r & ? & _). }
  exact (conj Hk (conj Ha Hr)).
Qed.

(** A node that was stopped starts from nothing: whatever it was doing, after [stop] it
    is registered nowhere and remembers neither address, relay nor advert; the first
    address STUN reports then is no change that tears anything down, whatever it is, and
    the triangle test is run for it, whatever the watchdog holds. *)
Theorem stop_restarts_identification (f f' : life W) u o now attempt :
  api_stop cfg null_client f = Returns (f', u) ->
  engine_state (ml f') = StunIdentify /\ relay_keep_alive f' = None /\ last_registered_relay f' = None /\
  advert_registration f' = None /\ advert_refresher f' = false /\
  classify_public_addr_change (last_public_addr (lnode f')) o (pending_ip_change f') = (None, Unchanged) /\
  triangle_pending false now attempt (ml f') = false.
Proof using.
  intros E. apply api_stop_kept in E as (Hk & _ & Ha & Hl). unfold kept in Hk. injection Hk as Hh Hka Hr Hf.
  rewrite Ha, Hl. done.
Qed.

(** A registered node whose STUN servers are blocked has given up its keep-alive and says
    it has no connection, and still counts as registered, where [on_stun_none] clears the
    flags: the later triangle test then registers with no relay, and the watchdog never
    runs the test again. *)
Theorem blocked_strands_client (f : life W) :
  registered_flag (ml f) = true ->
  exists f', on_stun_blocked f = Returns (f', tt) /\
    relay_keep_alive f' = None /\ nat_type (ml f') = NoConnection /\ engine_state (ml f') = Registered /\
    (post_triangle_relay_register (lnode f')).2 = [] /\
    (forall now attempt, triangle_pending false now attempt (set_state_field TrianglePing (ml f')) = true).
Proof using.
  intros Hr. unfold ml, lnode in *. eexists. split; [reflexivity|]. unfold ml, lnode.
  unfold post_triangle_relay_register, triangle_pending, engine_state. cbn. destruct (Handlers.life _) as [e r ? ? ?].
  cbn in *. subst r. done.
Qed.

(** The same node when the servers fall silent. *)
Theorem none_reidentifies (f : life W) :
  exists f', on_stun_none f = Returns (f', tt) /\ relay_keep_alive f' = None /\
    engine_state (ml f') = StunIdentify /\
    (forall now attempt, triangle_pending false now attempt (ml f') = false).
Proof using. eexists. split; [reflexivity|]. done. Qed.
End Spec.

(** ** A concrete engine *)

Module SmallEngine.
Definition relay_addr : SocketAddr := SockAddr (V4 192 0 2 1) 3478.
Definition my_addr : SocketAddr := SockAddr (V4 192 0 2 2) 5000.
Definition home : RelayInfo :=
  MkRelay (MkAdvert "R" (Some (MkInet "192.0.2.1" 3478)) (Some true) None None "d" (Some "sig")) true
    (Some Available) None 0.

(** A relay that answers every request; the world is the answer under way. *)
Definition answer (p : payload) : payload :=
  match p with
  | WithTag _ (Typed (MRelay (Listen _))) => Typed (MRelay (ListenResponse (Some "u1")))
  | _ => Typed (MDdb (UpdateResponse (Some "u1")))
  end.
#[export] Instance there : Outside (option payload) := {
  clock := fun w => (w, 0);
  new_uuid := fun w => (w, 1);
  transport_send := fun _ p _ => (Some (answer p), Ok tt);
  meanwhile := fun w =>
    (None, match w with Some p => [EvReceive 0 (new_direct relay_addr) "R" p] | None => [] end);
  find_relay_for := fun _ => mret (Some home);
  lookup_root_id := fun _ => mret None;
  chain_handle := fun _ w => (w, HandleCacheOps.ChainTimeout)
}.
#[export] Instance finds : Finder (option payload) := {
  finder_find := fun _ c w => (w, (c, Some home));
  finder_roots := fun _ _ c w => (w, (c, []));
  finder_all := fun _ _ c w => (w, (c, []));
  rfc3339_now := fun w => (w, EmptyString)
}.
Definition cfg : setting Z :=
  MkSetting _ (fun _ => "u1") TrafficExample.parse_uuid (fun _ => Some (replicate 36 0))
    (fun _ => EmptyString) (fun _ => None) (fun _ => []) (fun _ _ => []) (fun _ _ _ => true)
    (fun _ => true) (fun _ => EmptyString) (fun _ => Some []) (fun _ => Some []) None false true true None
    HandlersExample.surroundings (fun _ _ _ n => Returns (n, [])).
Definition opts : options := MkOptions "alice" None [SockAddr (V4 192 0 2 9) 3478] (Some 600000).
Definition idle : life (option payload) :=
  engine_new (MkApi None
    (MkEngine (MkNodeState (Some "Alice") (with_advert_ttl None) None (Some (Client.ClientSt ∅ ∅ ∅ ∅)) (Some [])
       Off None None false None (MkLifecycle false false false StunIdentify NatUnknown))
       (MkRouter None None true true true true) ∅ ∅ ∅ ∅ [] [])
    HandleCacheOps.new).
Definition script : list (life_op (W := option payload)) :=
  [OpStart true; OpStun Consistent (Some my_addr); OpRegisterWithRelay; OpRefreshPass; OpForeground].
Definition left (x : outcome (life (option payload) * unit)) : life (option payload) :=
  match x with Returns (f, _) => f | Panics => idle end.
Definition busy : life (option payload) := Eval vm_compute in left (run_life cfg false opts script idle).

(** A relay cut off from its peers, of which the finder lists one. *)
#[export] Instance lonely : Finder Z := {
  finder_find := fun _ c w => (w, (c, None));
  finder_roots := fun _ _ c w => (w, (c, [home]));
  finder_all := fun _ _ c w => (w, (c, [home]));
  rfc3339_now := fun w => (w, EmptyString)
}.
Definition relay_engine : life Z := engine_new ApiExample.node.
End SmallEngine.
#[local] Existing Instances SmallEngine.there SmallEngine.finds SmallEngine.lonely.

Lemma register_with_relay_spec_witness :
  let f := SmallEngine.idle in
  exists f', register_with_relay SmallEngine.cfg false SmallEngine.opts None f = Returns (f', true) /\
    exists relay addr, address relay = Returns addr /\ relay_keep_alive f' = Some (relay_id_of relay, addr).
Proof.
  intros f. destruct (register_with_relay SmallEngine.cfg false SmallEngine.opts None f) as [[f' b]|] eqn:E;
    [|vm_compute in E; discriminate].
  assert (b = true) as ->.
  { enough (match register_with_relay SmallEngine.cfg false SmallEngine.opts None f with
            | Returns (_, b) => b | Panics => true end = true) as Hb by (rewrite E in Hb; exact Hb).
    vm_compute. reflexivity. }
  exists f'. split; [reflexivity|].
  destruct (register_with_relay_spec SmallEngine.cfg false SmallEngine.opts None f f' true E)
    as (relay & addr & _ & Ha & _ & _ & Hk & _). exists relay, addr. exact (conj Ha Hk).
Defined.

Lemma registration_coherent_witness :
  let f := SmallEngine.busy in
  run_life SmallEngine.cfg false SmallEngine.opts SmallEngine.script SmallEngine.idle = Returns (f, tt) /\
  is_Some (relay_keep_alive f) /\ advert_refresher f = true /\
  exists r, last_registered_relay f = Some r /\ relay_id_of r = "R".
Proof.
  intros f.
  assert (run_life SmallEngine.cfg false SmallEngine.opts SmallEngine.script SmallEngine.idle = Returns (f, tt)) as E
    by (vm_compute; reflexivity).
  pose proof (registration_coherent SmallEngine.cfg false SmallEngine.opts _ _ _ E) as (_ & Ha & _).
  split; [exact E|]. split; [by eexists|]. split; [reflexivity|]. apply (Ha "R" None). reflexivity.
Defined.

Lemma stop_restarts_identification_witness :
  exists f', api_stop SmallEngine.cfg false SmallEngine.busy = Returns (f', tt) /\
    classify_public_addr_change (last_public_addr (lnode f')) None (pending_ip_change f') = (None, Unchanged).
Proof.
  destruct (api_stop SmallEngine.cfg false SmallEngine.busy) as [[f' []]|] eqn:E; [|vm_compute in E; discriminate].
  exists f'. split; [reflexivity|].
  apply (stop_restarts_identification SmallEngine.cfg false SmallEngine.busy f' tt None 0 None E).
Defined.

(** A relay that could not load the database from its peer is marked available all the
    same, and without its own record. *)
Theorem failed_load_available :
  exists f', initialize_relay (H := ApiExample.cut_off) ApiExample.cfg false SmallEngine.opts SmallEngine.relay_engine
      = Returns (f', tt) /\
    node_relay_state (lnode f') = Available /\ relay_permission_refresher f' = true /\
    db_map (backend (lnode f')) = db_map (backend (lnode SmallEngine.relay_engine)).
Proof. eexists. split; [vm_compute; reflexivity|]. vm_compute. done. Qed.
