(* ===== verification/AdvertThreads.v ===== *)
(** * The threads that register a node's advert

    Models [src/bingle_core/src/engine/advert_lifecycle.rs] and the part of
    [register_with_relay] of [src/bingle_core/src/engine/mod.rs] that keeps what was registered,
    at the grain of their locks.  [Lifecycle] has each operation as one step; here the passes of
    the advert refresh, the threads that register and the threads that sign off interleave.

    The advert registration, the refresher, the home relay and the keep-alive are each under
    a lock of their own.  [pool] has all threads; a refresh is one of them and is named by its
    index, which is what the [refresher] slot holds.  A stop takes the refresh out of the
    slot, clears its flag, and waits until its pass is over: [Periodic] has that wait in
    detail, here the refresh looks at its flag before each pass.  What the network answers
    is the argument [answer] of a step.  [taken_by] is what no thread reads: which thread took
    a refresh out of the slot. *)
From S2P Require Import Prelude NetAddr Advert Ddb RelayCache Lifecycle.

Local Open Scope Z_scope.

(** The relay that was chosen, and its address. *)
Abbreviation relay_target := (RelayInfo * SocketAddr)%type.

(** [ddb_register_ip] and [ddb_register_relay], with what [register_with_relay] does next when
    they are called from it.  [ToTake], [ToClear] and [ToJoin] are [stop_advert_refresh]. *)
Inductive registering : Type :=
| ToSend (r : AdvertRegistration) (then_home : option relay_target)
| ToNote (r : AdvertRegistration) (then_home : option relay_target)
| ToStart (then_home : option relay_target)
| ToTake (then_home : option relay_target)
| ToClear (t : nat) (then_home : option relay_target)
| ToJoin (t : nat) (then_home : option relay_target)
| ToRemember (home : relay_target)
| ToKeepAlive (home : relay_target)
| Finished.

(** A refresh: between passes, reading the registration, renewing the listen, repeating the
    registration, registering elsewhere, or over. *)
Inductive passing : Type :=
| TWait
| TRead
| TRenew (rid : string) (rsig : option string)
| TRegister (r : AdvertRegistration)
| TSwitch (p : registering)
| TExited.

(** [ddb_signoff]; [n] is how many threads there were when it emptied the slot. *)
Inductive signing : Type :=
| SStart
| SClear (n t : nat)
| SJoin (n t : nat)
| STake (n : nat)
| SSend (n : nat)
| SDone (n : nat).

Inductive thread : Type :=
| Task (running : bool) (p : passing)
| Registrar (p : registering)
| Signer (p : signing).

(** What the DDB client sends, and the thread it is called from. *)
Inductive request : Type :=
| Advertised (i : nat) (r : AdvertRegistration)
| SignedOff (i : nat).

Record world : Type := MkWorld {
  advert : option AdvertRegistration;
  refresher : option nat;
  home : option RelayInfo;
  keep_alive : option (string * SocketAddr);
  pool : list thread;
  taken_by : gmap nat nat;
  wire : list request
}.

(** Whether a request succeeds, a relay still listens, the owner of a refresh is still there;
    and the relay that was found elsewhere and answered Listen. *)
Record answer : Type := MkAnswer { ok : bool; found : option relay_target }.

Definition set_advert (r : option AdvertRegistration) (w : world) : world :=
  MkWorld r (refresher w) (home w) (keep_alive w) (pool w) (taken_by w) (wire w).
Definition set_home (r : RelayInfo) (w : world) : world :=
  MkWorld (advert w) (refresher w) (Some r) (keep_alive w) (pool w) (taken_by w) (wire w).
Definition set_keep_alive (k : string * SocketAddr) (w : world) : world :=
  MkWorld (advert w) (refresher w) (home w) (Some k) (pool w) (taken_by w) (wire w).
Definition set_pool (p : list thread) (w : world) : world :=
  MkWorld (advert w) (refresher w) (home w) (keep_alive w) p (taken_by w) (wire w).
Definition set_refresher (r : option nat) (w : world) : world :=
  MkWorld (advert w) r (home w) (keep_alive w) (pool w) (taken_by w) (wire w).
Definition send (q : request) (w : world) : world :=
  MkWorld (advert w) (refresher w) (home w) (keep_alive w) (pool w) (taken_by w) (wire w ++ [q]).

Definition clear_flag (th : thread) : thread := match th with Task _ p => Task false p | th => th end.
Definition exited (th : thread) : bool := match th with Task _ TExited => true | _ => false end.

Section Steps.
(** Whether adverts expire. *)
Context (expires : bool).

(** [stop_advert_refresh]: thread [i] empties the slot. *)
Definition take_refresher (i : nat) (w : world) : world * option nat :=
  match refresher w with
  | None => (w, None)
  | Some t =>
      (MkWorld (advert w) None (home w) (keep_alive w) (pool w) (<[t := i]> (taken_by w)) (wire w), Some t)
  end.

(** [start_advert_refresh] *)
Definition start_refresher (w : world) : world :=
  if expires then
    match refresher w with
    | Some _ => w
    | None => set_refresher (Some (length (pool w))) (set_pool (pool w ++ [Task true TWait]) w)
    end
  else w.

Definition next_home (h : option relay_target) : registering :=
  match h with Some h => ToRemember h | None => Finished end.

(** The next section of a registration in thread [i]; [None] while it waits. *)
Definition registering_step (a : answer) (i : nat) (p : registering) (w : world) : option (world * registering) :=
  match p with
  | ToSend r h => Some (send (Advertised i r) w, if ok a then ToNote r h else Finished)
  | ToNote r h => Some (set_advert (Some r) w, if registration_is_relay r then ToTake h else ToStart h)
  | ToStart h => Some (start_refresher w, next_home h)
  | ToTake h =>
      let '(w, old) := take_refresher i w in
      Some (w, match old with Some t => ToClear t h | None => next_home h end)
  | ToClear t h =>
      Some (set_pool (alter clear_flag t (pool w)) w, if Nat.eqb t i then next_home h else ToJoin t h)
  | ToJoin t h =>
      match pool w !! t with
      | Some th => if exited th then Some (w, next_home h) else None
      | None => None
      end
  | ToRemember h => Some (set_home h.1 w, ToKeepAlive h)
  | ToKeepAlive h => Some (set_keep_alive (relay_id_of h.1, h.2) w, Finished)
  | Finished => None
  end.

Definition signing_step (i : nat) (p : signing) (w : world) : option (world * signing) :=
  match p with
  | SStart =>
      let n := length (pool w) in
      let '(w, old) := take_refresher i w in
      Some (w, match old with Some t => SClear n t | None => STake n end)
  | SClear n t => Some (set_pool (alter clear_flag t (pool w)) w, SJoin n t)
  | SJoin n t =>
      match pool w !! t with
      | Some th => if exited th then Some (w, STake n) else None
      | None => None
      end
  | STake n => Some (set_advert None w, SSend n)
  | SSend n => Some (send (SignedOff i) w, SDone n)
  | SDone _ => None
  end.

(** The next section of the refresh [i]. *)
Definition passing_step (a : answer) (i : nat) (running : bool) (p : passing) (w : world) : option (world * passing) :=
  match p with
  | TWait => Some (w, if running then TRead else TExited)
  | TRead =>
      Some (w, if ok a then
                 match advert w with
                 | None => TWait
                 | Some (RegRelay rid rsig) => TRenew rid rsig
                 | Some r => TRegister r
                 end
               else TExited)
  | TRenew rid rsig =>
      Some (w, if ok a then TRegister (RegRelay rid rsig)
               else match home w with
                    | None => TRegister (RegRelay rid rsig)
                    | Some _ =>
                        match found a with
                        | None => TWait
                        | Some h => TSwitch (ToSend (RegRelay (relay_id_of h.1) None) (Some h))
                        end
                    end)
  | TRegister r => Some (send (Advertised i r) w, TWait)
  | TSwitch p =>
      match registering_step a i p w with
      | None => None
      | Some (w, p) => Some (w, match p with Finished => TWait | p => TSwitch p end)
      end
  | TExited => None
  end.

(** Thread [i] goes on. *)
Definition advance (a : answer) (i : nat) (w : world) : option world :=
  match pool w !! i with
  | None => None
  | Some (Task running p) =>
      match passing_step a i running p w with
      | None => None
      | Some (w, p) => Some (set_pool (alter (fun th => match th with Task b _ => Task b p | th => th end) i (pool w)) w)
      end
  | Some (Registrar p) =>
      match registering_step a i p w with
      | None => None
      | Some (w, p) => Some (set_pool (alter (fun _ => Registrar p) i (pool w)) w)
      end
  | Some (Signer p) =>
      match signing_step i p w with
      | None => None
      | Some (w, p) => Some (set_pool (alter (fun _ => Signer p) i (pool w)) w)
      end
  end.

(** A thread registers, only stops the refresh, or signs off. *)
Definition begins (th : thread) : bool :=
  match th with Registrar (ToSend _ _) | Registrar (ToTake None) | Signer SStart => true | _ => false end.

Inductive step : world -> world -> Prop :=
| step_begin th w : begins th = true -> step w (set_pool (pool w ++ [th]) w)
| step_thread a i w w' : advance a i w = Some w' -> step w w'.
End Steps.

Definition idle : world := MkWorld None None None None [] ∅ [].

(** ** Who stops a refresh *)

(** The refresh that a thread took out of the slot and has not seen over. *)
Definition holding (th : thread) : option nat :=
  match th with
  | Signer (SClear _ t) | Signer (SJoin _ t) | Registrar (ToClear t _) | Registrar (ToJoin t _)
  | Task _ (TSwitch (ToClear t _)) | Task _ (TSwitch (ToJoin t _)) => Some t
  | _ => None
  end.

(** A refresh that is not over. *)
Definition live (th : thread) : bool := match th with Task _ _ => negb (exited th) | _ => false end.

Definition epoch (th : thread) : option nat :=
  match th with
  | Signer (SClear n _) | Signer (SJoin n _) | Signer (STake n) | Signer (SSend n) | Signer (SDone n) => Some n
  | _ => None
  end.

(** A pass registers a client only, so it never stops the refresh. *)
Definition sane (th : thread) : bool :=
  match th with
  | Task _ (TSwitch p) =>
      match p with
      | ToSend r _ | ToNote r _ => negb (registration_is_relay r)
      | ToTake _ | ToClear _ _ | ToJoin _ _ => false
      | _ => true
      end
  | _ => true
  end.

Definition held (w : world) (t j : nat) : Prop := exists th, pool w !! j = Some th /\ holding th = Some t.

Record refresh_inv (w : world) : Prop := {
  ri_sane : forall i th, pool w !! i = Some th -> sane th = true;
  ri_slot : forall t, refresher w = Some t -> (t < length (pool w))%nat /\ taken_by w !! t = None;
  ri_held : forall t j, held w t j -> (t < length (pool w))%nat;
  ri_taken : forall t j, taken_by w !! t = Some j -> (t < length (pool w))%nat;
  ri_stopped : forall t th, pool w !! t = Some th -> live th = true ->
    refresher w = Some t \/ exists j, taken_by w !! t = Some j /\ held w t j;
  ri_epoch : forall i th n, pool w !! i = Some th -> epoch th = Some n ->
    (n <= length (pool w))%nat /\ forall t, refresher w = Some t -> (n <= t)%nat
}.

(** How a step of thread [i] may change the slot. *)
Inductive slot_change (i : nat) (w w' : world) : Prop :=
| slot_same : refresher w' = refresher w -> taken_by w' = taken_by w -> slot_change i w w'
| slot_taken t : refresher w = Some t -> refresher w' = None -> taken_by w' = <[t := i]> (taken_by w) -> held w' t i ->
    slot_change i w w'
| slot_filled : refresher w = None -> refresher w' = Some (length (pool w)) -> taken_by w' = taken_by w ->
    (length (pool w) < length (pool w'))%nat -> slot_change i w w'.

(** What a thread that is there before a step may become, and what one that is not may be. *)
Definition evolves (w w' : world) (th th' : thread) : Prop :=
  (live th' = true -> live th = true) /\ sane th' = true /\
  (forall t, holding th' = Some t -> holding th = Some t \/ refresher w = Some t) /\
  (epoch th' = epoch th \/ epoch th' = None \/ (epoch th' = Some (length (pool w)) /\ refresher w' = None)).

Definition newborn (w w' : world) (k : nat) (th' : thread) : Prop :=
  k = length (pool w) /\ sane th' = true /\ holding th' = None /\ epoch th' = None /\ (live th' = true -> refresher w' = Some k).

Lemma refresh_inv_evolves i w w' :
  refresh_inv w -> (length (pool w) <= length (pool w'))%nat ->
  (forall k th', pool w' !! k = Some th' ->
    (exists th, pool w !! k = Some th /\ evolves w w' th th') \/ newborn w w' k th') ->
  (forall t j, held w t j -> held w' t j \/ forall th, pool w' !! t = Some th -> live th = false) ->
  slot_change i w w' -> refresh_inv w'.
Proof.
  intros [Hs Hg Hh Ht Hl He] Hlen Hev Hheld Hslot. constructor.
  - intros k th' Hk. destruct (Hev k th' Hk) as [(th & _ & _ & ? & _)|(_ & ? & _)]; done.
  - intros t Ht'. destruct Hslot as [E1 E2|t0 E0 E1 E2 _|E0 E1 E2 Hlt].
    + rewrite E1 in Ht'. rewrite E2. destruct (Hg t Ht'). split; [lia|done].
    + congruence.
    + rewrite E1 in Ht'. injection Ht' as <-. split; [lia|]. rewrite E2.
      destruct (taken_by w !! length (pool w)) eqn:E; [|done]. apply Ht in E. lia.
  - intros t j (th' & Hj & Hth'). destruct (Hev j th' Hj) as [(th & Hth & _ & _ & Hho & _)|(_ & _ & Hno & _)]; [|congruence].
    destruct (Hho t Hth') as [Hho'|Hr]; [|apply Hg in Hr as [Hr _]; lia].
    assert (t < length (pool w))%nat; [|lia]. apply (Hh t j). by exists th.
  - intros t j Htj. destruct Hslot as [_ E2|t0 E0 _ E2 _|_ _ E2 _]; rewrite E2 in Htj.
    + apply Ht in Htj. lia.
    + destruct (decide (t0 = t)) as [->|Hne]; [apply Hg in E0; lia|].
      rewrite lookup_insert_ne in Htj by done. apply Ht in Htj. lia.
    + apply Ht in Htj. lia.
  - intros t th' Ht' Hlive. destruct (Hev t th' Ht') as [(th & Hth & Hl' & _)|(_ & _ & _ & _ & Hr)]; [|left; auto].
    destruct (Hl t th Hth (Hl' Hlive)) as [Hr|(j & Hj & Hhj)].
    + destruct Hslot as [E1 E2|t0 E0 E1 E2 Hi|E0 E1 E2 _]; [left; congruence|right|congruence].
      assert (t0 = t) as -> by congruence. exists i. rewrite E2, lookup_insert_eq. done.
    + right. exists j. destruct (Hheld t j Hhj) as [Hh'|Hdead]; [|rewrite (Hdead _ Ht') in Hlive; done].
      split; [|done]. destruct Hslot as [_ E2|t0 E0 _ E2 _|_ _ E2 _]; rewrite E2; [done| |done].
      rewrite lookup_insert_ne; [done|]. intros ->. apply Hg in E0 as [_ E0]. congruence.
  - intros k th' n Hk Hn. destruct (Hev k th' Hk) as [(th & Hth & _ & _ & _ & He')|(_ & _ & _ & Hnone & _)]; [|congruence].
    destruct He' as [E|[E|[E Hr]]]; [|congruence|].
    + rewrite E in Hn. destruct (He k th n Hth Hn) as [H1 H2]. split; [lia|]. intros t Hr.
      destruct Hslot as [E1 _|t0 E0 E1 _ _|E0 E1 _ _]; [apply H2; congruence|congruence|].
      rewrite E1 in Hr. injection Hr as <-. lia.
    + assert (n = length (pool w)) as -> by congruence. split; [lia|]. intros t Ht'. congruence.
Qed.

(** A flag may have been cleared. *)
Definition same (th th1 : thread) : Prop := th1 = th \/ th1 = clear_flag th.

Lemma same_facts th th1 :
  same th th1 -> live th1 = live th /\ holding th1 = holding th /\ epoch th1 = epoch th /\ sane th1 = sane th.
Proof. intros [-> | ->]; [done|]. destruct th as [b p|p|p]; [by destruct p|done..]. Qed.

(** What a section does to the other threads: it clears a flag, or starts a refresh. *)
Record grown (w w1 : world) : Prop := {
  gr_back : forall k th1, pool w1 !! k = Some th1 ->
    (exists th, pool w !! k = Some th /\ same th th1) \/
    (k = length (pool w) /\ th1 = Task true TWait /\ refresher w1 = Some k);
  gr_forth : forall k th, pool w !! k = Some th -> exists th1, pool w1 !! k = Some th1 /\ same th th1
}.

Lemma grown_length w w1 : grown w w1 -> (length (pool w) <= length (pool w1))%nat.
Proof.
  intros [_ Hf]. destruct (decide (length (pool w) = 0)%nat) as [->|Hne]; [lia|].
  destruct (lookup_lt_is_Some_2 (pool w) (length (pool w) - 1)) as [th Hth]; [lia|].
  destruct (Hf _ _ Hth) as (th1 & Hth1 & _). apply lookup_lt_Some in Hth1. lia.
Qed.

Lemma grown_same w w1 : pool w1 = pool w -> grown w w1.
Proof. intros E. constructor; rewrite E; intros k th Hk; [left|]; exists th; (split; [done|by left]). Qed.

Lemma grown_clear t w : grown w (set_pool (alter clear_flag t (pool w)) w).
Proof.
  constructor; simpl; intros k th Hk.
  - left. destruct (decide (k = t)) as [->|Hne].
    + rewrite list_lookup_alter_eq in Hk. apply fmap_Some in Hk as (th0 & Hk & ->).
      exists th0. split; [done|by right].
    + rewrite list_lookup_alter_ne in Hk by congruence. exists th. split; [done|by left].
  - destruct (decide (k = t)) as [->|Hne].
    + rewrite list_lookup_alter_eq, Hk. eexists. split; [done|by right].
    + rewrite list_lookup_alter_ne by congruence. exists th. split; [done|by left].
Qed.

Lemma grown_start expires w : grown w (start_refresher expires w).
Proof.
  unfold start_refresher. destruct expires; [|by apply grown_same].
  destruct (refresher w); [by apply grown_same|]. constructor; simpl; intros k th Hk.
  - apply lookup_app_Some in Hk as [Hk|[Hk1 Hk2]]; [left; exists th; split; [done|by left]|right].
    apply list_lookup_singleton_Some in Hk2 as [Hk <-]. assert (k = length (pool w)) as -> by lia. done.
  - exists th. split; [by apply lookup_app_l_Some|by left].
Qed.

Lemma settle_inv i th f w w1 :
  refresh_inv w -> pool w !! i = Some th -> grown w w1 ->
  (forall th1, same th th1 -> evolves w w1 th (f th1)) ->
  (forall t, holding th = Some t -> (forall th1, same th th1 -> holding (f th1) = Some t) \/
    forall tht, pool w !! t = Some tht -> live tht = false) ->
  slot_change i w (set_pool (alter f i (pool w1)) w1) ->
  refresh_inv (set_pool (alter f i (pool w1)) w1).
Proof.
  intros HI Hi Hg Hev Hhold Hslot.
  assert (forall k th', alter f i (pool w1) !! k = Some th' ->
    (exists th, pool w !! k = Some th /\ evolves w w1 th th') \/ newborn w w1 k th') as Hback.
  { intros k th' Hk. destruct (decide (k = i)) as [->|Hne].
    - rewrite list_lookup_alter_eq in Hk. destruct (gr_forth _ _ Hg i th Hi) as (th1 & Hth1 & Hs).
      rewrite Hth1 in Hk. simplify_eq/=. left. exists th. split; [done|by apply Hev].
    - rewrite list_lookup_alter_ne in Hk by congruence. destruct (gr_back _ _ Hg k th' Hk) as [(th0 & H0 & Hs)|(-> & -> & Hr)].
      + left. exists th0. split; [done|]. apply same_facts in Hs as (E1 & E2 & E3 & E4).
        split_and!; [by rewrite E1|rewrite E4; by eapply ri_sane|rewrite E2; by left|by left].
      + by right. }
  apply (refresh_inv_evolves i w); simpl; [done| |done| |done].
  - rewrite length_alter. by apply grown_length.
  - intros t j (thj & Hj & Hh). destruct (decide (j = i)) as [->|Hne].
    + assert (thj = th) as -> by congruence. destruct (Hhold t Hh) as [Hk|Hd].
      * left. destruct (gr_forth _ _ Hg i th Hi) as (th1 & Hth1 & Hs). exists (f th1).
        simpl. rewrite list_lookup_alter_eq, Hth1. split; [done|by apply Hk].
      * right. intros tht Ht. destruct (Hback t tht Ht) as [(th0 & H0 & Hl & _)|(-> & _)].
        -- destruct (live tht) eqn:E; [|done]. rewrite (Hd th0 H0) in Hl. by discriminate Hl.
        -- assert (length (pool w) < length (pool w))%nat; [|lia]. eapply ri_held; [done|]. by exists th.
    + left. destruct (gr_forth _ _ Hg j thj Hj) as (th1 & Hth1 & Hs). exists th1. simpl.
      rewrite list_lookup_alter_ne by congruence. split; [done|]. apply same_facts in Hs as (_ & -> & _). done.
Qed.

Ltac same_cases := intros ? [-> | ->]; split_and!; simpl; auto; try done; intros; simplify_eq; auto.

Section Invariant.
Context (expires : bool).

Lemma slot_start i w f :
  slot_change i w (set_pool (alter f i (pool (start_refresher expires w))) (start_refresher expires w)).
Proof using.
  unfold start_refresher. destruct expires; [|by apply slot_same].
  destruct (refresher w) eqn:E; [by apply slot_same; simpl|].
  apply slot_filled; simpl; [done..|]. rewrite length_alter, length_app. simpl. lia.
Qed.

Lemma registrar_inv a i p w w1 p' :
  refresh_inv w -> pool w !! i = Some (Registrar p) -> registering_step expires a i p w = Some (w1, p') ->
  refresh_inv (set_pool (alter (fun _ => Registrar p') i (pool w1)) w1).
Proof using.
  intros HI Hi E. destruct p as [r h|r h|h|h|t h|t h|h|h|]; simpl in E; simplify_eq.
  - eapply settle_inv; [done|done|by apply grown_same|destruct (ok a); same_cases|done|by apply slot_same].
  - eapply settle_inv; [done|done|by apply grown_same|destruct (registration_is_relay r); same_cases|done|by apply slot_same].
  - eapply settle_inv; [done|done|apply grown_start|destruct h; same_cases|done|apply slot_start].
  - unfold take_refresher in E. destruct (refresher w) as [t|] eqn:Er; simplify_eq.
    + eapply settle_inv; [done|done|by apply grown_same|same_cases|done|].
      eapply slot_taken; [done|done|done|]. exists (Registrar (ToClear t h)). simpl.
      by rewrite list_lookup_alter_eq, Hi.
    + eapply settle_inv; [done|done|by apply grown_same|destruct h; same_cases|done|by apply slot_same].
  - eapply settle_inv; [done|done|apply grown_clear| | |by apply slot_same].
    + destruct (Nat.eqb t i), h; same_cases.
    + intros t0 [= <-]. destruct (Nat.eqb_spec t i) as [->|Hne]; [right|by left].
      intros th0 H0. assert (th0 = Registrar (ToClear i h)) as -> by congruence. done.
  - destruct (pool w !! t) as [tht|] eqn:Et; [|done]. destruct (exited tht) eqn:Ex; simplify_eq.
    eapply settle_inv; [done|done|by apply grown_same|destruct h; same_cases| |by apply slot_same].
    intros t0 [= <-]. right. intros th0 H0. assert (th0 = tht) as -> by congruence.
    destruct tht as [b q|q|q]; [|done..]. unfold live. by rewrite Ex.
  - eapply settle_inv; [done|done|by apply grown_same|same_cases|done|by apply slot_same].
  - eapply settle_inv; [done|done|by apply grown_same|same_cases|done|by apply slot_same].
Qed.

Lemma signer_inv i p w w1 p' :
  refresh_inv w -> pool w !! i = Some (Signer p) -> signing_step i p w = Some (w1, p') ->
  refresh_inv (set_pool (alter (fun _ => Signer p') i (pool w1)) w1).
Proof using.
  intros HI Hi E. destruct p as [|n t|n t|n|n|n]; simpl in E; simplify_eq.
  - unfold take_refresher in E. destruct (refresher w) as [t|] eqn:Er; simplify_eq.
    + eapply settle_inv; [done|done|by apply grown_same|same_cases|done|].
      eapply slot_taken; [done|done|done|]. exists (Signer (SClear (length (pool w)) t)). simpl.
      by rewrite list_lookup_alter_eq, Hi.
    + eapply settle_inv; [done|done|by apply grown_same|same_cases|done|by apply slot_same].
  - eapply settle_inv; [done|done|apply grown_clear|same_cases| |by apply slot_same].
    intros t0 [= <-]. by left.
  - destruct (pool w !! t) as [tht|] eqn:Et; [|done]. destruct (exited tht) eqn:Ex; simplify_eq.
    eapply settle_inv; [done|done|by apply grown_same|same_cases| |by apply slot_same].
    intros t0 [= <-]. right. intros th0 H0. assert (th0 = tht) as -> by congruence.
    destruct tht as [b q|q|q]; [|done..]. unfold live. by rewrite Ex.
  - eapply settle_inv; [done|done|by apply grown_same|same_cases|done|by apply slot_same].
  - eapply settle_inv; [done|done|by apply grown_same|same_cases|done|by apply slot_same].
Qed.

Lemma task_inv a i b p w w1 p' :
  refresh_inv w -> pool w !! i = Some (Task b p) -> passing_step expires a i b p w = Some (w1, p') ->
  refresh_inv (set_pool (alter (fun th => match th with Task b _ => Task b p' | th => th end) i (pool w1)) w1).
Proof using.
  intros HI Hi E. pose proof (ri_sane _ HI _ _ Hi) as Hs. destruct p as [| |rid rsig|r|p|]; simpl in E; simplify_eq.
  - eapply settle_inv; [done|done|by apply grown_same|destruct b; same_cases|done|by apply slot_same].
  - eapply settle_inv; [done|done|by apply grown_same| |done|by apply slot_same].
    repeat case_match; same_cases.
  - eapply settle_inv; [done|done|by apply grown_same| |done|by apply slot_same].
    repeat case_match; same_cases.
  - eapply settle_inv; [done|done|by apply grown_same|same_cases|done|by apply slot_same].
  - destruct (registering_step _ _ _ _ _) as [[w2 p2]|] eqn:E2; [|done]. simplify_eq.
    destruct p as [r h|r h|h|h|t h|t h|h|h|]; simpl in E2, Hs; simplify_eq.
    + eapply settle_inv; [done|done|by apply grown_same|destruct (ok a); same_cases|done|by apply slot_same].
    + apply negb_true_iff in Hs. rewrite Hs in *.
      eapply settle_inv; [done|done|by apply grown_same|same_cases|done|by apply slot_same].
    + eapply settle_inv; [done|done|apply grown_start|destruct h; same_cases|done|apply slot_start].
    + eapply settle_inv; [done|done|by apply grown_same|same_cases|done|by apply slot_same].
    + eapply settle_inv; [done|done|by apply grown_same|same_cases|done|by apply slot_same].
Qed.

Lemma refresh_step_inv w w' : step expires w w' -> refresh_inv w -> refresh_inv w'.
Proof using.
  intros [th w0 Hb|a i w0 w1 E] HI.
  - apply (refresh_inv_evolves (length (pool w0)) w0); simpl; [done|rewrite length_app; lia| | |by apply slot_same].
    + intros k th' Hk. apply lookup_app_Some in Hk as [Hk|[Hk1 Hk2]].
      * left. exists th'. split; [done|]. split_and!; [done|by eapply ri_sane|auto|by left].
      * right. apply list_lookup_singleton_Some in Hk2 as [Hk <-]. split; [lia|].
        by destruct th as [|[]|[]].
    + intros t j (th0 & Hj & Hh). left. exists th0. split; [|done]. simpl. by apply lookup_app_l_Some.
  - unfold advance in E. destruct (pool w0 !! i) as [[b p|p|p]|] eqn:Hi; [..|done].
    + destruct (passing_step _ _ _ _ _ _) as [[w2 p2]|] eqn:E2; [|done]. injection E as <-. by eapply task_inv.
    + destruct (registering_step _ _ _ _ _) as [[w2 p2]|] eqn:E2; [|done]. injection E as <-. by eapply registrar_inv.
    + destruct (signing_step _ _ _) as [[w2 p2]|] eqn:E2; [|done]. injection E as <-. by eapply signer_inv.
Qed.

Lemma refresh_steps_inv w w' : refresh_inv w -> rtc (step expires) w w' -> refresh_inv w'.
Proof using. intros HI Hr. induction Hr as [|w w1 w' Hs _ IH]; [done|]. apply IH. by eapply refresh_step_inv. Qed.

Lemma idle_inv : refresh_inv idle.
Proof using. constructor; try done. by intros t j (th & Hj & _). Qed.
End Invariant.

(** ** What a step leaves as it was *)

(** What a section sends, and what it takes out of the slot. *)
Record section (i : nat) (may_register may_sign : bool) (w w1 : world) : Prop := {
  sec_grown : grown w w1;
  sec_wire : wire w1 = wire w \/ (wire w1 = wire w ++ [SignedOff i] /\ may_sign = true) \/
    exists r, wire w1 = wire w ++ [Advertised i r] /\ may_register = true;
  sec_taken : taken_by w1 = taken_by w \/ exists t, refresher w = Some t /\ taken_by w1 = <[t := i]> (taken_by w)
}.

Lemma section_quiet i b b' w w1 :
  pool w1 = pool w -> wire w1 = wire w -> taken_by w1 = taken_by w -> section i b b' w w1.
Proof. intros. constructor; [by apply grown_same|by left|by left]. Qed.

Lemma section_take i b b' w w1 o : take_refresher i w = (w1, o) -> section i b b' w w1.
Proof.
  unfold take_refresher. destruct (refresher w) as [t|] eqn:E; intros [= <- <-]; [|by apply section_quiet].
  constructor; [by apply grown_same|by left|right; eauto].
Qed.

Lemma registering_section expires a i p w w1 p' :
  registering_step expires a i p w = Some (w1, p') -> section i true false w w1.
Proof.
  destruct p as [r h|r h|h|h|t h|t h|h|h|]; simpl; intros E.
  - injection E as <- <-. constructor; [by apply grown_same|right; right; eauto|by left].
  - injection E as <- <-. by apply section_quiet.
  - injection E as <- <-. constructor; [apply grown_start| |]; left; unfold start_refresher;
      (destruct expires; [by destruct (refresher w)|done]).
  - destruct (take_refresher i w) as [w2 o] eqn:Et. injection E as <- <-. by eapply section_take.
  - injection E as <- <-. constructor; [apply grown_clear|by left|by left].
  - destruct (pool w !! t) as [th|]; [|done]. destruct (exited th); [|done]. injection E as <- <-. by apply section_quiet.
  - injection E as <- <-. by apply section_quiet.
  - injection E as <- <-. by apply section_quiet.
  - done.
Qed.

Lemma signing_section i p w w1 p' :
  signing_step i p w = Some (w1, p') ->
  section i false match p with SSend _ => true | _ => false end w w1.
Proof.
  destruct p as [|n t|n t|n|n|n]; simpl; intros E.
  - destruct (take_refresher i w) as [w2 o] eqn:Et. injection E as <- <-. by eapply section_take.
  - injection E as <- <-. constructor; [apply grown_clear|by left|by left].
  - destruct (pool w !! t) as [th|]; [|done]. destruct (exited th); [|done]. injection E as <- <-. by apply section_quiet.
  - injection E as <- <-. by apply section_quiet.
  - injection E as <- <-. constructor; [by apply grown_same|right; left; by split|by left].
  - done.
Qed.

Lemma passing_section expires a i b p w w1 p' :
  passing_step expires a i b p w = Some (w1, p') -> section i (live (Task b p)) false w w1.
Proof.
  destruct p as [| |rid rsig|r|p|]; simpl; intros E; try (injection E as <- <-; by apply section_quiet).
  - injection E as <- <-. constructor; [by apply grown_same|right; right; eauto|by left].
  - destruct (registering_step _ _ _ _ _) as [[w2 p2]|] eqn:E2; [|done]. injection E as <- <-.
    by eapply registering_section.
  - done.
Qed.

(** A thread keeps its kind, and a sign-off that is over stays so. *)
Definition keeps_kind (th th' : thread) : Prop :=
  match th with
  | Task _ _ => match th' with Task _ _ => True | _ => False end
  | Registrar _ => match th' with Registrar _ => True | _ => False end
  | Signer (SDone n) => th' = Signer (SDone n)
  | Signer _ => match th' with Signer _ => True | _ => False end
  end.

(** A thread that is about to send its sign-off. *)
Definition signs (th : thread) : bool := match th with Signer (SSend _) => true | _ => false end.

(** A thread that may send a registration. *)
Definition may_advertise (th : thread) : bool := match th with Registrar _ => true | th => live th end.

Lemma advance_section expires a i w w' :
  advance expires a i w = Some w' ->
  exists th f w1, pool w !! i = Some th /\ w' = set_pool (alter f i (pool w1)) w1 /\
    section i (may_advertise th) (signs th) w w1 /\ (forall th1, same th th1 -> keeps_kind th (f th1)) /\
    (signs th = true -> exists n, forall th1, f th1 = Signer (SDone n)).
Proof.
  unfold advance. destruct (pool w !! i) as [[b p|p|p]|] eqn:Hi; [..|done].
  - destruct (passing_step _ _ _ _ _ _) as [[w2 p2]|] eqn:E2; [|done]. intros [= <-].
    eexists _, _, w2. split_and!; [done|done|by eapply passing_section|by intros ? [-> | ->]|done].
  - destruct (registering_step _ _ _ _ _) as [[w2 p2]|] eqn:E2; [|done]. intros [= <-].
    eexists _, _, w2. split_and!; [done|done|by eapply registering_section|done|done].
  - destruct (signing_step _ _ _) as [[w2 p2]|] eqn:E2; [|done]. intros [= <-].
    eexists _, _, w2. split_and!; [done|done|by eapply signing_section|by intros th1 _; destruct p|].
    intros Hs. destruct p; try done. simpl in E2. injection E2 as _ <-. by eexists.
Qed.

Lemma keeps_kind_same th th1 : same th th1 -> keeps_kind th th1.
Proof. intros [-> | ->]; by destruct th as [|?|[]]. Qed.

Lemma keeps_kind_trans th1 th2 th3 : keeps_kind th1 th2 -> keeps_kind th2 th3 -> keeps_kind th1 th3.
Proof. destruct th1 as [|?|[]], th2 as [|?|[]], th3 as [|?|[]]; simpl; congruence || done. Qed.

Lemma step_keeps expires w w' :
  step expires w w' ->
  (forall k th, pool w !! k = Some th -> exists th', pool w' !! k = Some th' /\ keeps_kind th th') /\
  (refresh_inv w -> forall t j, taken_by w !! t = Some j -> taken_by w' !! t = Some j) /\
  (wire w' = wire w \/ (exists i n, wire w' = wire w ++ [SignedOff i] /\ pool w' !! i = Some (Signer (SDone n))) \/
   exists i r th, wire w' = wire w ++ [Advertised i r] /\ pool w !! i = Some th /\ may_advertise th = true).
Proof.
  intros [th w0 Hb|a i w0 w1 E].
  - split_and!; [|done|by left]. intros k th0 Hk. exists th0. simpl.
    split; [by apply lookup_app_l_Some|]. apply keeps_kind_same. by left.
  - apply advance_section in E as (th & f & w2 & Hi & -> & [Hg Hw Ht] & Hf & Hd). split_and!.
    + intros k th0 Hk. destruct (gr_forth _ _ Hg k th0 Hk) as (th1 & Hk1 & Hs). simpl.
      destruct (decide (k = i)) as [->|Hne].
      * rewrite list_lookup_alter_eq, Hk1. simplify_eq. eexists. split; [done|by apply Hf].
      * rewrite list_lookup_alter_ne by congruence. exists th1. split; [done|by apply keeps_kind_same].
    + intros HI t j Htj. simpl. destruct Ht as [->|(t0 & Hr & ->)]; [done|].
      rewrite lookup_insert_ne; [done|]. intros ->. apply (ri_slot _ HI) in Hr as [_ Hr]. congruence.
    + simpl. destruct Hw as [->|[[-> Hs]|(r & -> & Hm)]]; [by left|right; left|right; right].
      { destruct (Hd Hs) as [n Hn]. destruct (gr_forth _ _ Hg i th Hi) as (th1 & Hth1 & _).
        exists i, n. split; [done|]. by rewrite list_lookup_alter_eq, Hth1; simpl; rewrite Hn. }
      exists i, r, th. by split_and!.
Qed.

(** ** Sign-off *)

(** After it emptied the slot and waited, a sign-off has no refresh of before left but those that
    other threads took. *)
Lemma signed_off_live w i n t th :
  refresh_inv w -> pool w !! i = Some (Signer (SDone n)) -> pool w !! t = Some th -> live th = true ->
  (n <= t)%nat \/ exists j, j <> i /\ taken_by w !! t = Some j.
Proof.
  intros HI Hi Ht Hl. destruct (ri_stopped _ HI t th Ht Hl) as [Hr|(j & Hj & thj & Hpj & Hh)].
  - left. eapply ri_epoch; [done|exact Hi|done|done].
  - right. exists j. split; [|done]. intros ->. by simplify_eq.
Qed.

Definition excused (w : world) (i n : nat) (q : request) : Prop :=
  forall t r, q = Advertised t r ->
    (exists p, pool w !! t = Some (Registrar p)) \/ (n <= t)%nat \/ exists j, j <> i /\ taken_by w !! t = Some j.

Lemma excused_step expires w w' i n q :
  refresh_inv w -> step expires w w' -> excused w i n q -> excused w' i n q.
Proof.
  intros HI Hs He t r ->. destruct (step_keeps _ _ _ Hs) as (Hk & Ht & _).
  destruct (He t r eq_refl) as [[p Hp]|[Hn|(j & Hj & Htj)]]; [|by auto|right; right; eauto].
  left. destruct (Hk t _ Hp) as ([|p'|] & Hp' & Hkind); try done. by exists p'.
Qed.

Definition outlasted (w : world) : Prop :=
  forall l1 i l2, wire w = l1 ++ SignedOff i :: l2 ->
    exists n, pool w !! i = Some (Signer (SDone n)) /\ Forall (excused w i n) l2.

Lemma outlasted_step expires w w' : refresh_inv w -> step expires w w' -> outlasted w -> outlasted w'.
Proof.
  intros HI Hs IH l1 i l2 E. destruct (step_keeps _ _ _ Hs) as (Hk & Ht & Hw).
  assert (forall l1 i l2, wire w = l1 ++ SignedOff i :: l2 ->
    exists n, pool w !! i = Some (Signer (SDone n)) /\ pool w' !! i = Some (Signer (SDone n)) /\
      Forall (excused w' i n) l2) as IH'.
  { intros l1' i' l2' E'. destruct (IH _ _ _ E') as (n & Hn & Hl). exists n. split; [done|]. split.
    - destruct (Hk i' _ Hn) as (th' & Hth' & Hkind). simpl in Hkind. by subst.
    - eapply Forall_impl; [exact Hl|]. intros q. by apply excused_step with expires. }
  assert (forall q, wire w' = wire w ++ [q] -> (exists l2', l2 = l2' ++ [q] /\ wire w = l1 ++ SignedOff i :: l2') \/
    (l2 = [] /\ q = SignedOff i)) as Hsnoc.
  { intros q Eq. destruct l2 as [|x l2 _] using rev_ind; rewrite E in Eq.
    - right. apply app_inj_2 in Eq as [_ Eq]; [|done]. by injection Eq.
    - left. exists l2. rewrite app_comm_cons, app_assoc in Eq. apply app_inj_2 in Eq as [Eq1 Eq2]; [|done].
      injection Eq2 as ->. done. }
  destruct Hw as [Ew|[(j & n & Ew & Hj)|(j & r & th & Ew & Hj & Hm)]].
  - rewrite Ew in E. destruct (IH' _ _ _ E) as (n & _ & H). by exists n.
  - destruct (Hsnoc _ Ew) as [(l2' & -> & E')|[-> [= ->]]]; [|by exists n].
    destruct (IH' _ _ _ E') as (n' & _ & H1 & H2). exists n'. split; [done|]. apply Forall_app. split; [done|].
    by apply Forall_singleton.
  - destruct (Hsnoc _ Ew) as [(l2' & -> & E')|[_ ?]]; [|done].
    destruct (IH' _ _ _ E') as (n' & Hn & H1 & H2). exists n'. split; [done|]. apply Forall_app. split; [done|].
    apply Forall_singleton. intros t r' [= <- <-]. destruct th as [b p|p|p]; [|left|done].
    + right. destruct (signed_off_live w i n' j (Task b p) HI Hn Hj Hm) as [?|(k & Hk1 & Hk2)]; [by left|].
      right. eauto.
    + destruct (Hk j _ Hj) as ([|p'|] & Hp' & Hkind); try done. by exists p'.
Qed.

Lemma outlasted_steps expires w w' :
  refresh_inv w -> rtc (step expires) w w' -> outlasted w -> outlasted w'.
Proof.
  intros HI Hr. induction Hr as [|w w1 w' Hs _ IH]; [done|]. intros Ho.
  apply IH; [by eapply refresh_step_inv|by eapply outlasted_step].
Qed.


(** ** Runs

    A schedule: a thread begins, or thread [i] goes on with an answer. *)

Inductive move : Type := Begin (th : thread) | Go (a : answer) (i : nat).

Definition run_move (expires : bool) (mv : move) (w : world) : option world :=
  match mv with
  | Begin th => if begins th then Some (set_pool (pool w ++ [th]) w) else None
  | Go a i => advance expires a i w
  end.

Fixpoint run_moves (expires : bool) (mvs : list move) (w : world) : option world :=
  match mvs with [] => Some w | mv :: mvs => w ← run_move expires mv w; run_moves expires mvs w end.

Lemma moves_are_steps expires mvs w w' : run_moves expires mvs w = Some w' -> rtc (step expires) w w'.
Proof.
  revert w. induction mvs as [|mv mvs IH]; intros w; simpl; [by intros [= <-]|].
  destruct (run_move expires mv w) as [w1|] eqn:E; [|done]. simpl. intros Hr. eapply rtc_l; [|by apply IH].
  destruct mv as [th|a i]; simpl in E; [|by eapply step_thread].
  destruct (begins th) eqn:Eb; [|done]. injection E as <-. by apply step_begin.
Qed.

Lemma run_observed {A} (g : world -> A) expires mvs x :
  g <$> run_moves expires mvs idle = Some x -> exists w, rtc (step expires) idle w /\ g w = x.
Proof.
  destruct (run_moves expires mvs idle) as [w|] eqn:E; [|done]. intros [= <-].
  exists w. split; [by eapply moves_are_steps|done].
Qed.

Definition yes : answer := MkAnswer true None.
Definition goes (i n : nat) : list move := replicate n (Go yes i).

Lemma go_registrar expires i p w w1 p' mvs :
  pool w !! i = Some (Registrar p) -> registering_step expires yes i p w = Some (w1, p') ->
  exists w2, run_moves expires (Go yes i :: mvs) w = run_moves expires mvs w2 /\
    pool w2 !! i = Some (Registrar p') /\
    (advert w2, refresher w2, home w2, keep_alive w2, wire w2) =
      (advert w1, refresher w1, home w1, keep_alive w1, wire w1).
Proof.
  intros Hi E. pose proof (sec_grown _ _ _ _ _ (registering_section _ _ _ _ _ _ _ E)) as Hg.
  exists (set_pool (alter (fun _ => Registrar p') i (pool w1)) w1). split_and!; [|simpl|done].
  - cbn [run_moves run_move]. unfold advance. by rewrite Hi, E.
  - destruct (gr_forth _ _ Hg i _ Hi) as (th1 & Hth1 & _). by rewrite list_lookup_alter_eq, Hth1.
Qed.

Lemma start_refresher_fields expires w :
  let w' := start_refresher expires w in
  advert w' = advert w /\ home w' = home w /\ keep_alive w' = keep_alive w /\ wire w' = wire w /\
  (is_Some (refresher w') <-> expires = true \/ is_Some (refresher w)).
Proof.
  unfold start_refresher. destruct expires; [destruct (refresher w) eqn:E|]; simpl; rewrite ?E; naive_solver.
Qed.

(** Nothing in between, a registration with a relay has the effect that [Lifecycle] gives it. *)
Theorem registration_alone expires w i relay addr :
  pool w !! i = Some (Registrar (ToSend (RegRelay (relay_id_of relay) None) (Some (relay, addr)))) ->
  exists w', run_moves expires (goes i 5) w = Some w' /\
    advert w' = Some (RegRelay (relay_id_of relay) None) /\ home w' = Some relay /\
    keep_alive w' = Some (relay_id_of relay, addr) /\
    (is_Some (refresher w') <-> expires = true \/ is_Some (refresher w)) /\
    wire w' = wire w ++ [Advertised i (RegRelay (relay_id_of relay) None)].
Proof.
  intros Hi. unfold goes. cbn [replicate].
  destruct (go_registrar expires i _ w _ _ [Go yes i; Go yes i; Go yes i; Go yes i] Hi eq_refl) as (w1 & -> & H1 & E1).
  destruct (go_registrar expires i _ w1 _ _ [Go yes i; Go yes i; Go yes i] H1 eq_refl) as (w2 & -> & H2 & E2).
  destruct (go_registrar expires i _ w2 _ _ [Go yes i; Go yes i] H2 eq_refl) as (w3 & -> & H3 & E3).
  destruct (go_registrar expires i _ w3 _ _ [Go yes i] H3 eq_refl) as (w4 & -> & H4 & E4).
  destruct (go_registrar expires i _ w4 _ _ [] H4 eq_refl) as (w5 & -> & H5 & E5).
  destruct (start_refresher_fields expires w2) as (F1 & F2 & F3 & F4 & F5).
  simpl in *. exists w5. simplify_eq. split_and!; [done|congruence..| |congruence].
  replace (refresher w5) with (refresher (start_refresher expires w2)) by congruence.
  replace (refresher w) with (refresher w2) by congruence. done.
Qed.

Definition ex_addr : SocketAddr := SockAddr (V4 192 0 2 1) 3478.
Definition ex_relay (i : string) : RelayInfo :=
  MkRelay (MkAdvert i (Some (MkInet "192.0.2.1" 3478)) (Some true) None None EmptyString None) true (Some Available) None 0.
Definition with_home (i : string) : thread := Registrar (ToSend (RegRelay i None) (Some (ex_relay i, ex_addr))).
Definition by_ip : thread := Registrar (ToSend (RegIp ex_addr false) None).

(** A pass is under way when the sign-off begins, which waits for it; the node then registers
    again. *)
Definition ex_signoff : list move :=
  [Begin by_ip] ++ goes 0 3 ++ goes 1 2 ++ [Begin (Signer SStart)] ++ goes 2 2 ++ goes 1 2 ++ goes 2 3 ++
  [Begin by_ip] ++ goes 3 3 ++ goes 4 3.


(** A pass that is under way when the sign-off begins finds the home relay gone and registers with
    another, which starts a new refresh: it is left running after the sign-off, with no
    registration to repeat. *)
Definition ex_switch : list move :=
  [Begin (with_home "R")] ++ goes 0 5 ++ goes 1 2 ++ [Begin (Signer SStart)] ++ goes 2 2 ++
  [Go (MkAnswer false (Some (ex_relay "S", ex_addr))) 1%nat] ++ goes 1 6 ++ goes 2 3.

Theorem signoff_leaves_refresher :
  exists w, rtc (step true) idle w /\ last (wire w) = Some (SignedOff 2) /\
    advert w = None /\ refresher w = Some 3%nat /\ pool w !! 3%nat = Some (Task true TWait).
Proof.
  destruct (run_observed (fun w => (last (wire w), advert w, refresher w, pool w !! 3%nat)) true ex_switch
    (Some (SignedOff 2), None, Some 3%nat, Some (Task true TWait))) as (w & Hr & H); [vm_compute; reflexivity|].
  exists w. injection H as H1 H2 H3 H4. by split_and!.
Qed.

(** A registration that was sent before the sign-off and is noted after it starts the refresh
    again, which sends the advert that was signed off. *)
Definition ex_late_note : list move :=
  [Begin by_ip] ++ goes 0 1 ++ [Begin (Signer SStart)] ++ goes 1 3 ++ goes 0 2 ++ goes 2 3.

Theorem registration_outlasts_signoff :
  exists w, rtc (step true) idle w /\
    wire w = [Advertised 0 (RegIp ex_addr false); SignedOff 1; Advertised 2 (RegIp ex_addr false)].
Proof.
  apply (run_observed wire true ex_late_note). vm_compute. reflexivity.
Qed.

(** Two registrations that overlap leave the keep-alive on one relay and the other as the home
    relay. *)
Definition ex_crossed : list move :=
  [Begin (with_home "R"); Begin (with_home "S")] ++ goes 0 4 ++ goes 1 5 ++ goes 0 1.

Theorem registrations_cross :
  exists w, rtc (step true) idle w /\ relay_id_of <$> home w = Some "S"%string /\
    keep_alive w = Some ("R"%string, ex_addr) /\ forall th, th ∈ pool w -> th = Registrar Finished \/ exists p, th = Task true p.
Proof.
  destruct (run_observed (fun w => (relay_id_of <$> home w, keep_alive w, pool w)) true ex_crossed
    (Some "S"%string, Some ("R"%string, ex_addr), [Registrar Finished; Registrar Finished; Task true TWait]))
    as (w & Hr & H); [vm_compute; reflexivity|].
  exists w. injection H as H1 H2 H3. split_and!; [done..|]. rewrite H3. set_solver.
Qed.
