(* ===== verification/Dtls.v ===== *)
(** * DTLS sessions

    Models [src/bingle_core/src/dtls/dtls_openssl.rs] above OpenSSL: the table of peer
    states with its generations, the queues of datagrams and the connection that reads
    and writes through them, the acceptance of inbound packets with the tie-break of
    simultaneous connects, the accepting, sending and reading threads, the workers and
    the writers they share.

    What several threads share by an [Arc] lies in a store and is named by its index.  A
    step of a thread is a section under the lock of the table, with the work on its own
    data before it; [run] interleaves the steps of all threads.  What OpenSSL, the
    operating system and the clock answer at a step is the argument [obs]. *)
From S2P Require Import Prelude NetAddr.

Local Open Scope Z_scope.

(** ** Queues of datagrams *)

Definition ASYNC_PEER_QUEUE_CAPACITY : nat := Eval vm_compute in Z.to_nat 8192.

Record AsyncPeerQueue : Type := MkQueue { q_items : list (list Z); q_closed : bool }.

Definition queue_new : AsyncPeerQueue := MkQueue [] false.

Inductive push_error : Type := QueueFull | QueueClosed.

Definition try_push (data : list Z) (q : AsyncPeerQueue) : AsyncPeerQueue * result unit push_error :=
  if q_closed q then (q, Err QueueClosed)
  else if (ASYNC_PEER_QUEUE_CAPACITY <=? length (q_items q))%nat then (q, Err QueueFull)
  else (MkQueue (q_items q ++ [data]) (q_closed q), Ok tt).

Inductive poll (A : Type) : Type := Ready (a : A) | Pending.
Arguments Ready {A} _.
Arguments Pending {A}.

(** A closed queue still gives what it holds, then the end. *)
Definition poll_recv (q : AsyncPeerQueue) : AsyncPeerQueue * poll (option (list Z)) :=
  match q_items q with
  | p :: ps => (MkQueue ps (q_closed q), Ready (Some p))
  | [] => (q, if q_closed q then Ready None else Pending)
  end.

Definition queue_close (q : AsyncPeerQueue) : AsyncPeerQueue := MkQueue (q_items q) true.

(** [CommonNetworkMuxConn::poll_read] into a buffer with [remaining] bytes left: the rest of
    the datagram, and the bytes put into the buffer. *)
Definition poll_read (remaining : nat) (rest : list Z) (q : AsyncPeerQueue)
  : list Z * AsyncPeerQueue * poll (list Z) :=
  if (remaining =? 0)%nat then (rest, q, Ready [])
  else
    match rest with
    | _ :: _ => (drop remaining rest, q, Ready (take remaining rest))
    | [] =>
        match poll_recv q with
        | (q, Ready (Some p)) => (drop remaining p, q, Ready (take remaining p))
        | (q, Ready None) => (rest, q, Ready [])
        | (q, Pending) => (rest, q, Pending)
        end
    end.

(** [CommonNetworkMuxConn::write]: [mux] is what the multiplexer answers. *)
Definition conn_write (mux : result unit string) (q : AsyncPeerQueue) : result unit string :=
  if q_closed q then Err "dtls peer state closed"
  else match mux with Ok _ => Ok tt | Err _ => Err "mux write failed" end.

(** ** Who dials and who accepts *)

Definition ip_lt (a b : IpAddr) : bool :=
  match a, b with
  | V4 a1 a2 a3 a4, V4 b1 b2 b3 b4 =>
      (a1 <? b1) || ((a1 =? b1) && ((a2 <? b2) || ((a2 =? b2) && ((a3 <? b3) ||
        ((a3 =? b3) && (a4 <? b4))))))
  | V4 _ _ _ _, V6 _ => true
  | V6 _, V4 _ _ _ _ => false
  | V6 a, V6 b => a <? b
  end.

Definition is_designated_client (own remote : SocketAddr) : bool :=
  (port own <? port remote) || ((port own =? port remote) && ip_lt (ip own) (ip remote)).

(** ** The table of peers *)

Inductive PeerWriterKind : Type :=
| Direct (stream : nat)
| Channel (stream : option nat).

Inductive PeerCmd : Type :=
| CmdSend (payload : list Z)
| CmdStop.

Record PeerState : Type := MkPeerState {
  ps_writer : option nat;
  ps_issuer : string;
  ps_queue : nat;
  ps_handle : option nat;
  is_connecting_peer : bool;
  handshake_logged : bool;
  writer_ready : bool;
  cipher_suite : option string;
  generation : Z
}.

Definition next_peer_generation (g : Z) : Z := let n := wrap 64 (g + 1) in if n =? 0 then 1 else n.

(** The worker of an accepted session looks the writer up for each command, that of an
    outbound one has its own. *)
Inductive worker_writer : Type :=
| TableWriter (k : NetworkEndpointKey)
| OwnWriter (cell : nat).

Record worker : Type := MkWorker {
  wk_healthy : bool;
  wk_running : bool;
  wk_cmds : list PeerCmd;
  wk_writer : worker_writer
}.

(** The connection of a stream: where it sends and the queue it reads. *)
Record stream : Type := MkStream { s_endpoint : NetworkEndpoint; s_key : NetworkEndpointKey; s_queue : nat }.

(** What OpenSSL knows of the peer after the handshake: the cipher, the certificate with
    its PEM if it could be written, and the last certificate of the chain. *)
Record peer_info : Type := MkInfo {
  pi_cipher : string;
  pi_cert : option (option (list Z));
  pi_ca : option (list Z)
}.

Inductive accept_pc : Type :=
| AHandshake
| AShaken (i : peer_info)
| ALogged (i : peer_info)
| AVerified.

(** An outbound connect: its generation, stream, writer and worker. *)
Record connect : Type := MkConnect { c_gen : Z; c_stream : nat; c_cell : nat; c_worker : nat }.

Inductive send_pc : Type :=
| SLookup
| SHandle (h : nat)
| SDrop
| SClaim
| SConnect (c : connect)
| SShaken (c : connect) (i : peer_info)
| STakenOver (c : connect)
| SConnected (c : connect) (i : peer_info)
| SVerified (c : connect)
| SSplit (c : connect)
| SInstall (c : connect)
| SReady (c : connect)
| SWait.

Inductive packet_pc : Type :=
| PRoute
| PWorker (q : nat) (accept : option Z)
| PPush (q : nat) (accept : option Z).

Inductive thread : Type :=
| Handling (from : NetworkEndpoint) (key : NetworkEndpointKey) (data : list Z) (pc : packet_pc)
| Accepting (key : NetworkEndpointKey) (gen : Z) (stream : nat) (pc : accept_pc)
| Sending (to : NetworkEndpoint) (key : NetworkEndpointKey) (data : list Z) (pc : send_pc)
| Reading (key : NetworkEndpointKey) (gen : Z) (stream : nat) (closing : bool)
| Finished (r : option (result unit string)).

(** What happened, in order. *)
Inductive note : Type :=
| Handshaken (k : NetworkEndpointKey) (i : peer_info)
| Delivered (k : NetworkEndpointKey) (issuer : string) (data : list Z)
| NewSession (k : NetworkEndpointKey)
| NewOutboundSession (k : NetworkEndpointKey)
| Wrote (stream : nat) (payload : list Z).

Record dtls : Type := MkDtls {
  peers : gmap NetworkEndpointKey PeerState;
  queues : list AsyncPeerQueue;
  writers : list PeerWriterKind;
  workers : list worker;
  streams : list stream;
  threads : list thread;
  public_endpoint : option SocketAddr;
  notes : list note
}.

Definition dtls_new : dtls := MkDtls ∅ [] [] [] [] [] None [].

Definition set_peers (m : gmap NetworkEndpointKey PeerState) (s : dtls) : dtls :=
  MkDtls m (queues s) (writers s) (workers s) (streams s) (threads s) (public_endpoint s) (notes s).
Definition set_queues (q : list AsyncPeerQueue) (s : dtls) : dtls :=
  MkDtls (peers s) q (writers s) (workers s) (streams s) (threads s) (public_endpoint s) (notes s).
Definition set_writers (w : list PeerWriterKind) (s : dtls) : dtls :=
  MkDtls (peers s) (queues s) w (workers s) (streams s) (threads s) (public_endpoint s) (notes s).
Definition set_workers (w : list worker) (s : dtls) : dtls :=
  MkDtls (peers s) (queues s) (writers s) w (streams s) (threads s) (public_endpoint s) (notes s).
Definition set_streams (l : list stream) (s : dtls) : dtls :=
  MkDtls (peers s) (queues s) (writers s) (workers s) l (threads s) (public_endpoint s) (notes s).
Definition set_threads (l : list thread) (s : dtls) : dtls :=
  MkDtls (peers s) (queues s) (writers s) (workers s) (streams s) l (public_endpoint s) (notes s).
Definition set_public (a : option SocketAddr) (s : dtls) : dtls :=
  MkDtls (peers s) (queues s) (writers s) (workers s) (streams s) (threads s) a (notes s).
Definition add_note (n : note) (s : dtls) : dtls :=
  MkDtls (peers s) (queues s) (writers s) (workers s) (streams s) (threads s) (public_endpoint s) (notes s ++ [n]).

(** Updates of a peer state. *)
Definition claim_accept (g : Z) (cell : nat) (p : PeerState) : PeerState :=
  MkPeerState (Some cell) (ps_issuer p) (ps_queue p) (ps_handle p) (is_connecting_peer p) false
    (writer_ready p) (cipher_suite p) g.
Definition claim_connect (g : Z) (cell h : nat) (p : PeerState) : PeerState :=
  MkPeerState (Some cell) EmptyString (ps_queue p) (Some h) true false (writer_ready p) (cipher_suite p) g.
Definition set_generation (g : Z) (p : PeerState) : PeerState :=
  MkPeerState (ps_writer p) (ps_issuer p) (ps_queue p) (ps_handle p) (is_connecting_peer p)
    (handshake_logged p) (writer_ready p) (cipher_suite p) g.
Definition set_issuer (i : string) (p : PeerState) : PeerState :=
  MkPeerState (ps_writer p) i (ps_queue p) (ps_handle p) (is_connecting_peer p) (handshake_logged p)
    (writer_ready p) (cipher_suite p) (generation p).
Definition set_handle (h : nat) (p : PeerState) : PeerState :=
  MkPeerState (ps_writer p) (ps_issuer p) (ps_queue p) (Some h) (is_connecting_peer p)
    (handshake_logged p) (writer_ready p) (cipher_suite p) (generation p).
Definition set_logged (c : string) (p : PeerState) : PeerState :=
  MkPeerState (ps_writer p) (ps_issuer p) (ps_queue p) (ps_handle p) (is_connecting_peer p) true
    (writer_ready p) (Some c) (generation p).
Definition set_accepted (cell : nat) (p : PeerState) : PeerState :=
  MkPeerState (Some cell) (ps_issuer p) (ps_queue p) (ps_handle p) (is_connecting_peer p)
    (handshake_logged p) true (cipher_suite p) (generation p).
Definition set_connected (h : nat) (p : PeerState) : PeerState :=
  MkPeerState (ps_writer p) (ps_issuer p) (ps_queue p) (Some h) false true true (cipher_suite p) (generation p).

Definition new_peer_state (g : Z) (q : nat) : PeerState :=
  MkPeerState None EmptyString q None false false false None g.

(** A new entry, with a new queue. *)
Definition insert_new (k : NetworkEndpointKey) (g : Z) (s : dtls) : dtls :=
  set_queues (queues s ++ [queue_new])
    (set_peers (<[k := new_peer_state g (length (queues s))]> (peers s)) s).

Definition get_or_create_peer_state (k : NetworkEndpointKey) (s : dtls) : dtls :=
  match peers s !! k with Some _ => s | None => insert_new k 0 s end.

Definition update_peer (k : NetworkEndpointKey) (f : PeerState -> PeerState) (s : dtls) : dtls :=
  set_peers (alter f k (peers s)) s.

(** An update that only the owner of the generation makes. *)
Definition update_if_owner (k : NetworkEndpointKey) (g : Z) (f : PeerState -> PeerState) (s : dtls) : dtls :=
  update_peer k (fun p => if generation p =? g then f p else p) s.

(** [PeerHandle::send]. *)
Definition handle_send (h : nat) (c : PeerCmd) (s : dtls) : dtls * bool :=
  match workers s !! h with
  | Some w =>
      if wk_running w
      then (set_workers (<[h := MkWorker (wk_healthy w) true (wk_cmds w ++ [c]) (wk_writer w)]> (workers s)) s, true)
      else (s, false)
  | None => (s, false)
  end.

Definition close_peer_state (p : PeerState) (s : dtls) : dtls :=
  let s := match ps_handle p with Some h => (handle_send h CmdStop s).1 | None => s end in
  set_queues (alter queue_close (ps_queue p) (queues s)) s.

(** Removes the entry and closes it. *)
Definition drop_peer (k : NetworkEndpointKey) (s : dtls) : dtls :=
  match peers s !! k with
  | Some p => close_peer_state p (set_peers (base.delete k (peers s)) s)
  | None => s
  end.

(** [take_peer_state_if_owner], then [close_peer_state]. *)
Definition close_if_owner (k : NetworkEndpointKey) (g : Z) (s : dtls) : dtls :=
  match peers s !! k with
  | Some p => if generation p =? g then drop_peer k s else s
  | None => s
  end.

Definition new_cell (w : PeerWriterKind) (s : dtls) : dtls := set_writers (writers s ++ [w]) s.
Definition switch_writer (cell : nat) (w : PeerWriterKind) (s : dtls) : dtls :=
  set_writers (<[cell := w]> (writers s)) s.
Definition new_worker (w : worker_writer) (s : dtls) : dtls :=
  set_workers (workers s ++ [MkWorker true true [] w]) s.
Definition new_stream (st : stream) (s : dtls) : dtls := set_streams (streams s ++ [st]) s.
Definition spawn (t : thread) (s : dtls) : dtls := set_threads (threads s ++ [t]) s.

Definition queue_closed (q : nat) (s : dtls) : bool :=
  match queues s !! q with Some q => q_closed q | None => false end.
Definition stream_closed (st : nat) (s : dtls) : bool :=
  match streams s !! st with Some st => queue_closed (s_queue st) s | None => false end.

(** [PeerWriter::send]; [ok]: the stream took the bytes, which that of a closed state does
    not, or its writer thread still runs. *)
Definition writer_send (ok : bool) (cell : nat) (payload : list Z) (s : dtls) : dtls * bool :=
  match writers s !! cell with
  | Some (Direct st) => if ok && negb (stream_closed st s) then (add_note (Wrote st payload) s, true) else (s, false)
  | Some (Channel (Some st)) => if ok then (add_note (Wrote st payload) s, true) else (s, false)
  | Some (Channel None) | None => (s, false)
  end.

(** The writer of the entry. *)
Definition table_writer (k : NetworkEndpointKey) (s : dtls) : option nat :=
  p ← peers s !! k; ps_writer p.

(** ** The steps of the threads *)

Inductive read_result : Type :=
| ReadData (data : list Z)
| ReadIdle
| ReadEnd.

(** The answers at a step: whether the first and the second thing tried worked, whether the
    deadline has passed, how the handshake ended, what was read. *)
Record obs : Type := MkObs {
  ob_ok : bool;
  ob_ok2 : bool;
  ob_late : bool;
  ob_shake : option peer_info;
  ob_read : read_result
}.

Section Steps.
Context (peer_cert_handler : option (list Z -> list Z -> result string string))
  (from_utf8_lossy : list Z -> string) (local_addr : SocketAddr).

Definition is_client_hello (data : list Z) : bool :=
  (14 <=? length data)%nat && (nth 0 data 0 =? 22) && (nth 3 data 0 =? 0) && (nth 4 data 0 =? 0)
  && (nth 13 data 0 =? 1).

(** *** Inbound packets: [handle_dtls_accept_packet] *)

(** The tie-break: [None] when the packet is dropped. *)
Definition break_tie (from : NetworkEndpoint) (key : NetworkEndpointKey) (data : list Z) (s : dtls) : option dtls :=
  match peers s !! key with
  | Some p =>
      if is_client_hello data && is_connecting_peer p && negb (handshake_logged p) then
        let own := default local_addr (public_endpoint s) in
        let designated := match inet_socket_address from with
                          | Some remote => is_designated_client own remote
                          | None => false
                          end in
        if designated then None
        else Some (insert_new key (next_peer_generation (generation p)) (drop_peer key s))
      else Some s
  | None => Some s
  end.

(** A ClientHello on an established session: the client restarted. *)
Definition restart (key : NetworkEndpointKey) (data : list Z) (s : dtls) : dtls :=
  match peers s !! key with
  | Some p =>
      if is_client_hello data && negb (is_connecting_peer p) && bool_decide (is_Some (ps_writer p)) then
        add_note (NewSession key) (insert_new key (next_peer_generation (generation p)) (drop_peer key s))
      else s
  | None => s
  end.

(** The section under the lock: the queue, whether there is a worker, and the generation if
    the packet starts an accept. *)
Definition route (from : NetworkEndpoint) (key : NetworkEndpointKey) (data : list Z) (s : dtls)
  : dtls * option (nat * option nat * option Z) :=
  match break_tie from key data s with
  | None => (s, None)
  | Some s =>
      let s := get_or_create_peer_state key (restart key data s) in
      match peers s !! key with
      | None => (s, None)
      | Some p =>
          match ps_writer p with
          | Some _ => (s, Some (ps_queue p, ps_handle p, None))
          | None =>
              let g := next_peer_generation (generation p) in
              let s := update_peer key (claim_accept g (length (writers s))) (new_cell (Channel None) s) in
              (s, Some (ps_queue p, ps_handle p, Some g))
          end
      end
  end.

(** A worker for the accepted session. *)
Definition start_accept_worker (key : NetworkEndpointKey) (s : dtls) : dtls :=
  update_peer key (set_handle (length (workers s))) (new_worker (TableWriter key) s).

(** The datagram is queued, and the thread of the accept started. *)
Definition push_and_accept (from : NetworkEndpoint) (key : NetworkEndpointKey) (data : list Z) (q : nat)
    (accept : option Z) (s : dtls) : dtls :=
  let s := set_queues (alter (fun q => (try_push data q).1) q (queues s)) s in
  match accept with
  | None => s
  | Some g => spawn (Accepting key g (length (streams s)) AHandshake) (new_stream (MkStream from key q) s)
  end.

Definition handling_step (from : NetworkEndpoint) (key : NetworkEndpointKey) (data : list Z) (pc : packet_pc)
    (s : dtls) : dtls * thread :=
  match pc with
  | PRoute =>
      match route from key data s with
      | (s, None) => (s, Finished None)
      | (s, Some (q, None, accept)) => (s, Handling from key data (PWorker q accept))
      | (s, Some (q, Some _, accept)) => (s, Handling from key data (PPush q accept))
      end
  | PWorker q accept => (start_accept_worker key s, Handling from key data (PPush q accept))
  | PPush q accept => (push_and_accept from key data q accept s, Finished None)
  end.

(** *** Reading: [run_read_loop_split] *)

Definition issuer_of (key : NetworkEndpointKey) (s : dtls) : string :=
  match peers s !! key with Some p => ps_issuer p | None => EmptyString end.

Definition still_owner (key : NetworkEndpointKey) (g : Z) (s : dtls) : bool :=
  match peers s !! key with Some p => generation p =? g | None => false end.

Definition reading_step (o : obs) (key : NetworkEndpointKey) (g : Z) (st : nat) (closing : bool) (s : dtls)
  : dtls * thread :=
  if closing then (close_if_owner key g s, Finished None)
  else
    match ob_read o with
    | ReadEnd => (s, Reading key g st true)
    | ReadIdle => (s, Reading key g st (negb (still_owner key g s)))
    | ReadData data =>
        let gated := bool_decide (is_Some peer_cert_handler) && bool_decide (issuer_of key s = EmptyString) in
        (if gated then s else add_note (Delivered key (issuer_of key s) data) s, Reading key g st false)
    end.

(** *** Accepting: [run_accept_stream] *)

(** What the certificate says of the peer: its name, nothing, or that it is refused. *)
Inductive verdict : Type :=
| Named (issuer : string)
| Nameless
| Refused.

Definition accept_verdict (i : peer_info) : verdict :=
  match pi_cert i with
  | None | Some None => Nameless
  | Some (Some pem) =>
      match peer_cert_handler with
      | None => Named (from_utf8_lossy pem)
      | Some h =>
          match pi_ca i with
          | None => Refused
          | Some ca =>
              match h pem ca with
              | Ok name => if bool_decide (name = EmptyString) then Refused else Named (norm_id name)
              | Err _ => Refused
              end
          end
      end
  end.

(** The writer of the session is installed, and the thread goes on to read. *)
Definition accept_install (key : NetworkEndpointKey) (g : Z) (st : nat) (s : dtls) : dtls * thread :=
  match peers s !! key with
  | None => (s, Reading key g st false)
  | Some p =>
      if generation p =? g then
        (update_peer key (set_accepted (length (writers s))) (new_cell (Channel (Some st)) s),
         Reading key g st false)
      else (s, Finished None)
  end.

Definition accepting_step (o : obs) (key : NetworkEndpointKey) (g : Z) (st : nat) (pc : accept_pc) (s : dtls)
  : dtls * thread :=
  match pc with
  | AHandshake =>
      match ob_shake o with
      | None => (close_if_owner key g s, Finished None)
      | Some i => (add_note (Handshaken key i) s, Accepting key g st (AShaken i))
      end
  | AShaken i => (update_peer key (set_logged (pi_cipher i)) s, Accepting key g st (ALogged i))
  | ALogged i =>
      match accept_verdict i with
      | Refused => (close_if_owner key g s, Finished None)
      | Nameless => (s, Accepting key g st AVerified)
      | Named name => (update_peer key (set_issuer name) (get_or_create_peer_state key s), Accepting key g st AVerified)
      end
  | AVerified => if negb (ob_ok o) then (close_if_owner key g s, Finished None) else accept_install key g st s
  end.

(** *** Sending: [send] *)

Definition failed (e : string) : thread := Finished (Some (Err e)).

(** The name of the peer of an outbound connect. *)
Definition connect_verdict (i : peer_info) : option string :=
  match peer_cert_handler, pi_cert i, pi_ca i with
  | Some h, Some (Some pem), Some ca =>
      match h pem ca with
      | Ok name => if bool_decide (name = EmptyString) then None else Some (norm_id name)
      | Err _ => None
      end
  | _, _, _ => None
  end.

(** The last section: the connect is complete. *)
Definition finish_connect (key : NetworkEndpointKey) (c : connect) (s : dtls) : dtls :=
  spawn (Reading key (c_gen c) (c_stream c) false)
    (update_if_owner key (c_gen c) (set_connected (c_worker c)) s).

(** Claims the entry for an outbound connect; [ok]: its stream and its worker could be made. *)
Definition claim (ok : bool) (to : NetworkEndpoint) (key : NetworkEndpointKey) (s : dtls) : dtls * option (option connect) :=
  let s := get_or_create_peer_state key s in
  match peers s !! key with
  | None => (s, None)
  | Some p =>
      if bool_decide (is_Some (ps_writer p)) && negb (is_connecting_peer p) then (s, Some None)
      else
        let g := next_peer_generation (generation p) in
        if negb ok then (update_peer key (set_generation g) s, None)
        else
          let c := MkConnect g (length (streams s)) (length (writers s)) (length (workers s)) in
          let s := new_stream (MkStream to key (ps_queue p)) s in
          let s := new_worker (OwnWriter (c_cell c)) (new_cell (Direct (c_stream c)) s) in
          (update_peer key (claim_connect g (c_cell c) (c_worker c)) s, Some (Some c))
  end.

(** The entry is looked up: an accept still shaking hands is awaited, a healthy worker is
    used, and the entry of an unhealthy one is dropped. *)
Definition send_lookup (key : NetworkEndpointKey) (s : dtls) : send_pc :=
  match peers s !! key with
  | None => SClaim
  | Some p =>
      if bool_decide (is_Some (ps_writer p)) && negb (writer_ready p) && negb (is_connecting_peer p) then SWait
      else match ps_handle p with Some h => SHandle h | None => SClaim end
  end.

Definition send_by_worker (h : nat) (data : list Z) (s : dtls) : dtls * bool :=
  let healthy := match workers s !! h with Some w => wk_healthy w | None => false end in
  if healthy then handle_send h (CmdSend data) s else (s, false).

(** The handshake with the first bytes: how it ended, and what follows. *)
Definition send_connect (o : obs) (key : NetworkEndpointKey) (data : list Z) (c : connect) (s : dtls)
  : dtls * result send_pc string :=
  match (if stream_closed (c_stream c) s then None else ob_shake o) with
  | Some i => (add_note (Handshaken key i) (add_note (Wrote (c_stream c) data) s), Ok (SShaken c i))
  | None =>
      (close_if_owner key (c_gen c) s,
       if ob_late o then Err "dtls client connect timeout"%string else Ok (STakenOver c))
  end.

(** The check of the peer's certificate. *)
Definition send_verify (key : NetworkEndpointKey) (c : connect) (i : peer_info) (s : dtls)
  : dtls * result send_pc string :=
  if bool_decide (is_Some peer_cert_handler) && bool_decide (pi_cert i = None)
  then (s, Err "no peer certificate presented"%string)
  else
    (match connect_verdict i with
     | Some name => update_if_owner key (c_gen c) (set_issuer name) s
     | None => s
     end, Ok (SVerified c)).

(** The writer of the entry, whatever its generation, is switched. *)
Definition switch_table_writer (key : NetworkEndpointKey) (w : PeerWriterKind) (s : dtls) : dtls :=
  match table_writer key s with Some cell => switch_writer cell w s | None => s end.

(** The stream is split; it cannot be while a worker writes to it. *)
Definition send_split (o : obs) (key : NetworkEndpointKey) (c : connect) (s : dtls) : dtls * result send_pc string :=
  if negb (ob_ok o)
  then (switch_table_writer key (Direct (c_stream c)) s, Err "could not split stream"%string)
  else if negb (ob_ok2 o) then (s, Err "failed to spawn split writer task"%string)
  else (s, Ok (SInstall c)).

Definition taken_over (key : NetworkEndpointKey) (g : Z) (s : dtls) : bool :=
  match peers s !! key with
  | Some p => negb (generation p =? g) && negb (is_connecting_peer p)
  | None => false
  end.

(** A turn of the wait for the session of the peer's own connect. *)
Definition send_when_session_ready (o : obs) (key : NetworkEndpointKey) (data : list Z) (s : dtls)
  : dtls * option (result unit string) :=
  let ready := match peers s !! key with Some p => writer_ready p | None => false end in
  match (if ready then table_writer key s else None) with
  | Some cell =>
      let '(s, sent) := writer_send (ob_ok o) cell data s in
      (s, Some (if sent then Ok tt else Err "peer writer"%string))
  | None => (s, if ob_late o then Some (Err "accepted session not ready"%string) else None)
  end.

Definition sending_step (o : obs) (to : NetworkEndpoint) (key : NetworkEndpointKey) (data : list Z) (pc : send_pc)
    (s : dtls) : dtls * thread :=
  let next pc := Sending to key data pc in
  let follow '(s, r) := (s, match r with Ok pc => next pc | Err e => failed e end) in
  match pc with
  | SLookup => (s, next (send_lookup key s))
  | SHandle h =>
      let '(s, sent) := send_by_worker h data s in
      (s, if sent then Finished (Some (Ok tt)) else next SDrop)
  | SDrop => (drop_peer key s, next SClaim)
  | SClaim =>
      if negb (ob_ok o) then (s, failed "client context")
      else
        match claim (ob_ok2 o) to key s with
        | (s, None) => (s, failed "stream")
        | (s, Some None) => (s, next SWait)
        | (s, Some (Some c)) => (s, next (SConnect c))
        end
  | SConnect c => follow (send_connect o key data c s)
  | SShaken c i => (update_if_owner key (c_gen c) (set_logged (pi_cipher i)) s, next (SConnected c i))
  | STakenOver c => (s, if taken_over key (c_gen c) s then next SWait else failed "dtls client write failed")
  | SConnected c i => follow (send_verify key c i (add_note (NewOutboundSession key) s))
  | SVerified c => (switch_table_writer key (Channel None) s, next (SSplit c))
  | SSplit c => follow (send_split o key c s)
  | SInstall c =>
      (if still_owner key (c_gen c) s then switch_table_writer key (Channel (Some (c_stream c))) s else s,
       next (SReady c))
  | SReady c => (finish_connect key c s, Finished (Some (Ok tt)))
  | SWait =>
      match send_when_session_ready o key data s with
      | (s, Some r) => (s, Finished (Some r))
      | (s, None) => (s, next SWait)
      end
  end.

Definition thread_step (o : obs) (t : thread) (s : dtls) : dtls * thread :=
  match t with
  | Handling from key data pc => handling_step from key data pc s
  | Accepting key g st pc => accepting_step o key g st pc s
  | Sending to key data pc => sending_step o to key data pc s
  | Reading key g st closing => reading_step o key g st closing s
  | Finished _ => (s, t)
  end.

(** *** Workers *)

(** A worker takes its next command: [spawn_peer_worker] with the two handlers. *)
Definition worker_step (ok : bool) (i : nat) (s : dtls) : dtls :=
  match workers s !! i with
  | Some (MkWorker healthy true (cmd :: cmds) w) =>
      match cmd with
      | CmdStop => set_workers (<[i := MkWorker false false cmds w]> (workers s)) s
      | CmdSend payload =>
          match w with
          | TableWriter k =>
              let s := match table_writer k s with Some cell => (writer_send ok cell payload s).1 | None => s end in
              set_workers (<[i := MkWorker healthy true cmds w]> (workers s)) s
          | OwnWriter cell =>
              let '(s, sent) := writer_send ok cell payload s in
              set_workers (<[i := MkWorker (healthy && sent) sent cmds w]> (workers s)) s
          end
      end
  | _ => s
  end.

(** ** The events *)

Definition receive_packet (from : NetworkEndpoint) (data : list Z) (s : dtls) : outcome dtls :=
  let go :=
    match get_key from with
    | Returns (Some key) => Returns (spawn (Handling from key data PRoute) s)
    | _ => Panics
    end in
  if is_relay from then go
  else
    match inet_socket_address from with
    | None => Panics
    | Some a => if decide (a = local_addr) then Returns s else go
    end.

Definition start_send (to : NetworkEndpoint) (data : list Z) (s : dtls) : outcome dtls :=
  if bool_decide (is_Some (inet_socket_address to)) ||
     (bool_decide (is_Some (relay_channel to)) && bool_decide (is_Some (relay_address to))
      && bool_decide (is_Some (relay_id to)))
  then
    match get_key to with
    | Returns (Some key) => Returns (spawn (Sending to key data SLookup) s)
    | _ => Panics
    end
  else Panics.

Definition forget_peer (ep : NetworkEndpoint) (s : dtls) : outcome dtls :=
  match get_key ep with
  | Returns (Some key) => Returns (drop_peer key s)
  | Returns None => Returns s
  | Panics => Panics
  end.

Definition forget_peers (s : dtls) : dtls :=
  foldl (fun s k => drop_peer k s) s (map_to_list (peers s)).*1.

(** [PeerAdapter::send], for the handlers of received messages. *)
Definition adapter_send (ok : bool) (to : NetworkEndpoint) (data : list Z) (s : dtls) : outcome dtls :=
  match get_key to with
  | Returns (Some key) =>
      Returns (match table_writer key s with Some cell => (writer_send ok cell data s).1 | None => s end)
  | _ => Panics
  end.

Inductive event : Type :=
| EvPacket (from : NetworkEndpoint) (data : list Z)
| EvSend (to : NetworkEndpoint) (data : list Z)
| EvRun (i : nat) (o : obs)
| EvWork (i : nat) (ok : bool)
| EvForget (ep : NetworkEndpoint)
| EvForgetAll
| EvAdapterSend (ok : bool) (to : NetworkEndpoint) (data : list Z)
| EvPublic (a : option SocketAddr).

Definition run_thread (i : nat) (o : obs) (s : dtls) : dtls :=
  match threads s !! i with
  | None => s
  | Some t => let '(s, t) := thread_step o t s in set_threads (<[i := t]> (threads s)) s
  end.

Definition run_event (e : event) (s : dtls) : outcome dtls :=
  match e with
  | EvPacket from data => receive_packet from data s
  | EvSend to data => start_send to data s
  | EvRun i o => Returns (run_thread i o s)
  | EvWork i ok => Returns (worker_step ok i s)
  | EvForget ep => forget_peer ep s
  | EvForgetAll => Returns (forget_peers s)
  | EvAdapterSend ok to data => adapter_send ok to data s
  | EvPublic a => Returns (set_public a s)
  end.

Fixpoint run (evs : list event) (s : dtls) : outcome dtls :=
  match evs with
  | [] => Returns s
  | e :: evs => match run_event e s with Returns s => run evs s | Panics => Panics end
  end.
End Steps.

(** ** Reading a connection *)

(** Reads with buffers of these sizes: what was read, the rest and the queue. *)
Fixpoint reads (ns : list nat) (rest : list Z) (q : AsyncPeerQueue) : list Z * list Z * AsyncPeerQueue :=
  match ns with
  | [] => ([], rest, q)
  | n :: ns =>
      let '(rest, q, r) := poll_read n rest q in
      let got := match r with Ready l => l | Pending => [] end in
      let '(out, rest, q) := reads ns rest q in
      (got ++ out, rest, q)
  end.

Lemma poll_read_conserves n rest q :
  let '(rest', q', r) := poll_read n rest q in
  match r with Ready l => l | Pending => [] end ++ rest' ++ concat (q_items q') = rest ++ concat (q_items q) /\
  q_closed q' = q_closed q.
Proof.
  unfold poll_read, poll_recv. destruct (n =? 0)%nat; [done|]. destruct rest as [|b rest].
  - destruct q as [[|p ps] []]; cbn; try done; rewrite app_assoc, take_drop; done.
  - rewrite app_assoc, take_drop. done.
Qed.

Lemma reads_conserve ns : forall rest q,
  let '(out, rest', q') := reads ns rest q in
  out ++ rest' ++ concat (q_items q') = rest ++ concat (q_items q) /\ q_closed q' = q_closed q.
Proof.
  induction ns as [|n ns IH]; intros rest q; cbn; [done|].
  pose proof (poll_read_conserves n rest q) as Hp. destruct (poll_read n rest q) as [[rest1 q1] r].
  specialize (IH rest1 q1). destruct (reads ns rest1 q1) as [[out rest2] q2]. cbn in *.
  destruct Hp as [Hp Hc], IH as [IH Hc2]. split; [|congruence]. by rewrite <- app_assoc, IH.
Qed.

(** The connection gives the stream what arrived, in order and whole.  Whatever the
    sizes of the buffers, what was read followed by what is still to be read is what was
    queued; a read with room returns nothing but has not to wait, which the stream takes
    for the end, exactly when the queue is closed and everything queued was read. *)
Theorem conn_reads_in_order ns n rest q :
  Forall (fun p => p <> []) (q_items q) -> (0 < n)%nat ->
  let '(out, rest', q') := reads ns rest q in
  out ++ rest' ++ concat (q_items q') = rest ++ concat (q_items q) /\
  ((poll_read n rest' q').2 = Ready [] <-> q_closed q = true /\ out = rest ++ concat (q_items q)).
Proof.
  intros Hne Hn. pose proof (reads_conserve ns rest q) as Hr.
  assert (Forall (fun p => p <> []) (q_items (reads ns rest q).2)) as Hne'.
  { clear Hr. revert rest q Hne. induction ns as [|m ns IH]; intros rest q Hne; cbn; [done|].
    destruct (poll_read m rest q) as [[rest1 q1] r] eqn:Ep. specialize (IH rest1 q1).
    destruct (reads ns rest1 q1) as [[out rest2] q2]. cbn in *. apply IH.
    unfold poll_read, poll_recv in Ep. destruct (m =? 0)%nat; [by injection Ep as _ <- _|].
    destruct rest; [|by injection Ep as _ <- _]. destruct q as [[|p ps] []]; cbn in *; injection Ep as _ <- _; try done;
      by apply Forall_cons_1 in Hne as [_ ?]. }
  destruct (reads ns rest q) as [[out rest'] q']. cbn [snd] in *. destruct Hr as [Hr Hc]. split; [exact Hr|].
  unfold poll_read, poll_recv. rewrite (proj2 (Nat.eqb_neq n 0)) by lia. rewrite <- Hr, <- Hc. destruct rest' as [|b rest'].
  - destruct q' as [[|p ps] c]; cbn in *.
    + rewrite app_nil_r. destruct c; naive_solver.
    + apply Forall_cons_1 in Hne' as [Hp _]. destruct p; [done|]. destruct n; [lia|]. cbn. split; [done|].
      intros [_ E%(f_equal length)]. rewrite length_app in E. cbn in E. lia.
  - cbn. destruct n; [lia|]. cbn. split; [done|]. intros [_ E%(f_equal length)]. rewrite length_app in E. cbn in E. lia.
Qed.

Lemma conn_reads_in_order_witness :
  (reads [2; 2; 9]%nat [] (MkQueue [[1; 2; 3]; [4]] true)).1.1 = [1; 2; 3; 4] /\
  (poll_read 5 [] (MkQueue [] true)).2 = Ready [].
Proof.
  split; [reflexivity|].
  pose proof (conn_reads_in_order [2; 2; 9]%nat 5 [] (MkQueue [[1; 2; 3]; [4]] true)) as H.
  cbn in H. apply H; [repeat constructor; done|lia|]. done.
Defined.

(** ** What holds at all times *)

Section Sound.
Context (peer_cert_handler : option (list Z -> list Z -> result string string))
  (from_utf8_lossy : list Z -> string) (local_addr : SocketAddr).

(** The name was given by the certificate of a handshake with this peer. *)
Definition vouched (k : NetworkEndpointKey) (name : string) (ns : list note) : Prop :=
  exists i, Handshaken k i ∈ ns /\
    (accept_verdict peer_cert_handler from_utf8_lossy i = Named name \/
     connect_verdict peer_cert_handler i = Some name).

(** A queue in use: that of the entry, or closed. *)
Definition holds (k : NetworkEndpointKey) (q : nat) (s : dtls) : Prop :=
  (q < length (queues s))%nat /\
  (queue_closed q s = true \/ exists p, peers s !! k = Some p /\ ps_queue p = q).

Definition thread_ok (s : dtls) (t : thread) : Prop :=
  match t with
  | Handling _ key _ (PWorker q _) | Handling _ key _ (PPush q _) => holds key q s
  | Accepting key _ _ (AShaken i) | Accepting key _ _ (ALogged i) | Sending _ key _ (SShaken _ i)
  | Sending _ key _ (SConnected _ i) =>
      Handshaken key i ∈ notes s
  | _ => True
  end.

(** A thread that has just been started. *)
Definition fresh_thread (t : thread) : Prop := forall s, thread_ok s t.

Record table_ok (s : dtls) : Prop := {
  to_queue : forall k p, peers s !! k = Some p ->
    exists q, queues s !! ps_queue p = Some q /\ q_closed q = false;
  to_inj : forall k1 k2 p1 p2, peers s !! k1 = Some p1 -> peers s !! k2 = Some p2 ->
    ps_queue p1 = ps_queue p2 -> k1 = k2;
  to_issuer : forall k p, peers s !! k = Some p ->
    ps_issuer p = EmptyString \/ vouched k (ps_issuer p) (notes s);
  to_cap : Forall (fun q => length (q_items q) <= ASYNC_PEER_QUEUE_CAPACITY)%nat (queues s);
  to_stream : Forall (fun st => holds (s_key st) (s_queue st) s) (streams s);
  to_delivered : forall k name data, Delivered k name data ∈ notes s -> is_Some peer_cert_handler ->
    name <> EmptyString /\ vouched k name (notes s)
}.

(** What never gets lost. *)
Record grows (s s' : dtls) : Prop := {
  gr_notes : forall n, n ∈ notes s -> n ∈ notes s';
  gr_closed : forall q, queue_closed q s = true -> queue_closed q s' = true;
  gr_holds : forall k q, holds k q s -> holds k q s';
  gr_threads : exists l, threads s' = threads s ++ l /\ Forall fresh_thread l
}.

Definition step_ok (s s' : dtls) : Prop := table_ok s -> table_ok s' /\ grows s s'.

Lemma grows_refl s : grows s s.
Proof using. split; try done. exists []. by rewrite app_nil_r. Qed.

Lemma grows_trans s1 s2 s3 : grows s1 s2 -> grows s2 s3 -> grows s1 s3.
Proof using.
  intros [Hn Hc Hh (l & Hl & Fl)] [Hn' Hc' Hh' (l' & Hl' & Fl')]. split; auto.
  exists (l ++ l'). rewrite Hl', Hl, app_assoc. split; [done|]. by apply Forall_app.
Qed.

Lemma step_refl s : step_ok s s.
Proof using. intros H. split; [done|apply grows_refl]. Qed.

Lemma step_trans s1 s2 s3 : step_ok s1 s2 -> step_ok s2 s3 -> step_ok s1 s3.
Proof using.
  intros H1 H2 T. destruct (H1 T) as [T2 G1]. destruct (H2 T2) as [T3 G2]. split; [done|]. by eapply grows_trans.
Qed.

Lemma vouched_more k name ns ns' : (forall n, n ∈ ns -> n ∈ ns') -> vouched k name ns -> vouched k name ns'.
Proof using. intros Hs (i & Hi & Hv). exists i. auto. Qed.

(** Steps that leave table, queues, streams and notes alone. *)
Lemma step_frame s s' :
  peers s' = peers s -> queues s' = queues s -> streams s' = streams s -> notes s' = notes s ->
  (exists l, threads s' = threads s ++ l /\ Forall fresh_thread l) -> step_ok s s'.
Proof using.
  intros Hp Hq Hs Hn Ht [Tq Ti Tn Tc Ts Td].
  assert (forall k q, holds k q s <-> holds k q s') as Hh.
  { intros k q. unfold holds, queue_closed. by rewrite Hp, Hq. }
  split.
  - split; rewrite ?Hp, ?Hq, ?Hn, ?Hs; try done. eapply Forall_impl; [exact Ts|]. intros st. apply Hh.
  - split; rewrite ?Hn; try done.
    + intros q. unfold queue_closed. by rewrite Hq.
    + intros k q. apply Hh.
Qed.

Lemma step_note n s :
  (forall k name data, n = Delivered k name data -> is_Some peer_cert_handler ->
     name <> EmptyString /\ vouched k name (notes s)) ->
  step_ok s (add_note n s).
Proof using.
  intros Hd [Tq Ti Tn Tc Ts Td].
  assert (forall m, m ∈ notes s -> m ∈ notes (add_note n s)) as Hsub.
  { intros m Hm. cbn. apply elem_of_app. by left. }
  split; [split|split]; try done.
  - intros k p Hk. destruct (Tn k p Hk) as [?|Hv]; [by left|right]. by eapply vouched_more.
  - intros k name data [Hin|Hin%list_elem_of_singleton]%elem_of_app Hh.
    + destruct (Td _ _ _ Hin Hh). split; [done|]. by eapply vouched_more.
    + destruct (Hd _ _ _ (eq_sym Hin) Hh). split; [done|]. by eapply vouched_more.
  - exists []. by rewrite app_nil_r.
Qed.

Lemma step_update k f s :
  (forall p, ps_queue (f p) = ps_queue p) ->
  (forall p, peers s !! k = Some p ->
     ps_issuer (f p) = ps_issuer p \/ ps_issuer (f p) = EmptyString \/ vouched k (ps_issuer (f p)) (notes s)) ->
  step_ok s (update_peer k f s).
Proof using.
  intros Hf Hi [Tq Ti Tn Tc Ts Td].
  assert (forall k' p', alter f k (peers s) !! k' = Some p' ->
    exists p, peers s !! k' = Some p /\ ps_queue p' = ps_queue p /\ (k' = k /\ p' = f p \/ k' <> k /\ p' = p)) as Hal.
  { intros k' p' Hk. destruct (decide (k' = k)) as [->|Hne].
    - rewrite lookup_alter_eq in Hk. destruct (peers s !! k) as [p|]; [|done]. injection Hk as <-. exists p. rewrite Hf. auto.
    - rewrite lookup_alter_ne in Hk by done. exists p'. auto. }
  assert (forall k' q, holds k' q s -> holds k' q (update_peer k f s)) as Hh.
  { intros k' q [Hl [Hc|(p & Hp & Hq)]]; (split; [done|]); [by left|right]. cbn.
    destruct (decide (k' = k)) as [->|Hne].
    - exists (f p). rewrite lookup_alter_eq, Hp. cbn. by rewrite Hf.
    - exists p. by rewrite lookup_alter_ne by done. }
  split; [split|split]; try done; cbn.
  - intros k' p' (p & Hp & -> & _)%Hal. by eapply Tq.
  - intros k1 k2 p1 p2 (q1 & Hq1 & -> & _)%Hal (q2 & Hq2 & -> & _)%Hal. by apply Ti.
  - intros k' p' (p & Hp & _ & [[-> ->]|[_ ->]])%Hal; [|by eapply Tn].
    destruct (Hi p Hp) as [->|[->|Hv]]; [by eapply Tn|by left|by right].
  - eapply Forall_impl; [exact Ts|]. intros st. apply Hh.
  - exists []. by rewrite app_nil_r.
Qed.

Lemma closed_app q qs (s s' : dtls) :
  queues s' = queues s ++ qs -> queue_closed q s = true -> queue_closed q s' = true.
Proof using.
  unfold queue_closed. intros ->. destruct (queues s !! q) as [x|] eqn:E; [|done]. by rewrite (lookup_app_l_Some _ _ _ _ E).
Qed.

Lemma step_insert k g s : peers s !! k = None -> step_ok s (insert_new k g s).
Proof using.
  intros Hk [Tq Ti Tn Tc Ts Td].
  assert (forall p, peers s !! k = Some p -> False) as Hno by congruence.
  assert (forall k' p, peers s !! k' = Some p -> (ps_queue p < length (queues s))%nat) as Hlt.
  { intros k' p Hp. destruct (Tq k' p Hp) as (q & Hq & _). by eapply lookup_lt_Some. }
  assert (forall k' q, holds k' q s -> holds k' q (insert_new k g s)) as Hh.
  { intros k' q [Hl [Hc|(p & Hp & Hq)]]; (split; [cbn; rewrite length_app; lia|]);
      [left; by eapply closed_app|right]. exists p. cbn. split; [|done].
    rewrite lookup_insert_ne by (intros ->; by eapply Hno). done. }
  split; [split|split]; try done; cbn.
  - intros k' p [[<- <-]|[Hne Hp]]%lookup_insert_Some; cbn.
    + exists queue_new. by rewrite lookup_app_r, Nat.sub_diag by lia.
    + destruct (Tq k' p Hp) as (q & Hq & Ho). exists q. by rewrite (lookup_app_l_Some _ _ _ _ Hq).
  - intros k1 k2 p1 p2 [[<- <-]|[Hne Hp]]%lookup_insert_Some [[<- <-]|[Hne' Hp']]%lookup_insert_Some; cbn; try done.
    + intros E. specialize (Hlt _ _ Hp'). lia.
    + intros E. specialize (Hlt _ _ Hp). lia.
    + by apply Ti.
  - intros k' p [[<- <-]|[Hne Hp]]%lookup_insert_Some; cbn; [by left|by eapply Tn].
  - apply Forall_app. split; [done|]. constructor; [cbn; lia|constructor].
  - eapply Forall_impl; [exact Ts|]. intros st. apply Hh.
  - intros q. by apply (closed_app q [queue_new]).
  - exists []. by rewrite app_nil_r.
Qed.

Lemma handle_send_frame h c s :
  let s' := (handle_send h c s).1 in
  peers s' = peers s /\ queues s' = queues s /\ streams s' = streams s /\ threads s' = threads s /\ notes s' = notes s /\
  public_endpoint s' = public_endpoint s /\ writers s' = writers s.
Proof using. unfold handle_send. destruct (workers s !! h) as [w|]; [|done]. by destruct (wk_running w). Qed.

(** The parts of the state after a peer was dropped. *)
Lemma drop_peer_parts k s p :
  peers s !! k = Some p ->
  let s' := drop_peer k s in
  peers s' = base.delete k (peers s) /\ queues s' = alter queue_close (ps_queue p) (queues s) /\
  streams s' = streams s /\ threads s' = threads s /\ notes s' = notes s /\ public_endpoint s' = public_endpoint s.
Proof using.
  intros Hk. unfold drop_peer. rewrite Hk. unfold close_peer_state. cbn.
  destruct (ps_handle p) as [h|]; [|done].
  pose proof (handle_send_frame h CmdStop (set_peers (base.delete k (peers s)) s)) as (-> & -> & -> & -> & -> & -> & _). done.
Qed.

Lemma closed_alter q q' qs (s s' : dtls) :
  queues s = qs -> queues s' = alter queue_close q' qs ->
  queue_closed q s = true \/ (q = q' /\ (q < length qs)%nat) -> queue_closed q s' = true.
Proof using.
  unfold queue_closed. intros -> -> H. destruct (decide (q' = q)) as [->|Hne].
  - rewrite list_lookup_alter_eq. destruct (qs !! q) as [x|] eqn:E; [done|]. destruct H as [|[_ H]]; [done|].
    apply lookup_ge_None in E. lia.
  - rewrite list_lookup_alter_ne by done. by destruct H as [|[-> _]].
Qed.

Lemma step_drop k s : step_ok s (drop_peer k s).
Proof using.
  destruct (peers s !! k) as [p|] eqn:Hk; [|unfold drop_peer; rewrite Hk; apply step_refl].
  intros [Tq Ti Tn Tc Ts Td]. destruct (drop_peer_parts k s p Hk) as (Ep & Eq & Es & Et & En & _).
  set (s' := drop_peer k s) in *.
  assert ((ps_queue p < length (queues s))%nat) as Hlt.
  { destruct (Tq k p Hk) as (q & Hq & _). by eapply lookup_lt_Some. }
  assert (forall k' q, holds k' q s -> holds k' q s') as Hh.
  { intros k' q [Hl Hd]. split; [by rewrite Eq, length_alter|].
    destruct Hd as [Hc|(p' & Hp & <-)]; [left; exact (closed_alter _ _ _ s s' eq_refl Eq (or_introl Hc))|].
    destruct (decide (k' = k)) as [->|Hne].
    - left. assert (p' = p) as -> by congruence.
      exact (closed_alter _ _ _ s s' eq_refl Eq (or_intror (conj eq_refl Hlt))).
    - right. exists p'. by rewrite Ep, lookup_delete_ne by done. }
  assert (forall k' p', peers s' !! k' = Some p' -> k' <> k /\ peers s !! k' = Some p') as Hpe.
  { intros k' p'. rewrite Ep. intros [? ?]%lookup_delete_Some. done. }
  split; [split|split].
  - intros k' p' [Hne Hp]%Hpe. destruct (Tq k' p' Hp) as (q & Hq & Ho). exists q. rewrite Eq, list_lookup_alter_ne; [done|].
    intros E. apply Hne. by apply (Ti _ _ _ _ Hp Hk).
  - intros k1 k2 p1 p2 [_ Hp1]%Hpe [_ Hp2]%Hpe. by apply Ti.
  - intros k' p' [_ Hp]%Hpe. rewrite En. by eapply Tn.
  - rewrite Eq. apply Forall_alter; [done|]. intros x Hx Hq. exact Hq.
  - rewrite Es. eapply Forall_impl; [exact Ts|]. intros st. apply Hh.
  - rewrite En. done.
  - rewrite En. done.
  - intros q Hc. exact (closed_alter _ _ _ s s' eq_refl Eq (or_introl Hc)).
  - done.
  - exists []. by rewrite app_nil_r, Et.
Qed.

Lemma step_stream st s : (table_ok s -> holds (s_key st) (s_queue st) s) -> step_ok s (new_stream st s).
Proof using.
  intros Hh T. specialize (Hh T). destruct T as [Tq Ti Tn Tc Ts Td]. split; [split|split]; try done; cbn.
  - apply Forall_app. split; [exact Ts|]. by constructor.
  - exists []. by rewrite app_nil_r.
Qed.

Lemma try_push_parts data q :
  q_closed (try_push data q).1 = q_closed q /\
  ((length (q_items q) <= ASYNC_PEER_QUEUE_CAPACITY)%nat ->
   (length (q_items (try_push data q).1) <= ASYNC_PEER_QUEUE_CAPACITY)%nat).
Proof using.
  unfold try_push. destruct (q_closed q) eqn:E; [done|].
  destruct (Nat.leb_spec ASYNC_PEER_QUEUE_CAPACITY (length (q_items q))); [done|]. cbn [q_items q_closed fst].
  rewrite length_app. cbn [length]. split; [done|]. intros _. lia.
Qed.

Lemma step_push data q s : step_ok s (set_queues (alter (fun q => (try_push data q).1) q (queues s)) s).
Proof using.
  intros [Tq Ti Tn Tc Ts Td]. set (s' := set_queues _ s).
  assert (forall q', queue_closed q' s' = queue_closed q' s) as Hcl.
  { intros q'. unfold queue_closed, s'. cbn [queues set_queues]. destruct (decide (q = q')) as [->|Hne].
    - rewrite list_lookup_alter_eq. destruct (queues s !! q') as [x|]; [|done]. apply try_push_parts.
    - by rewrite list_lookup_alter_ne. }
  assert (forall k' q', holds k' q' s -> holds k' q' s') as Hh.
  { intros k' q' [Hl Hd]. split; [unfold s'; cbn [queues set_queues]; by rewrite length_alter|]. by rewrite Hcl. }
  split; [split|split]; try done.
  - intros k p Hp. destruct (Tq k p Hp) as (x & Hx & Ho). unfold s'. cbn [queues set_queues].
    destruct (decide (q = ps_queue p)) as [->|Hne].
    + rewrite list_lookup_alter_eq, Hx. eexists. split; [done|]. rewrite (proj1 (try_push_parts data x)). done.
    + rewrite list_lookup_alter_ne by done. eauto.
  - unfold s'. cbn [queues set_queues]. apply Forall_alter; [done|]. intros x _ Hx. by apply try_push_parts.
  - eapply Forall_impl; [exact Ts|]. intros st. apply Hh.
  - intros q' Hc. by rewrite Hcl.
  - exists []. by rewrite app_nil_r.
Qed.

Lemma entry_holds k p s : table_ok s -> peers s !! k = Some p -> holds k (ps_queue p) s.
Proof using.
  intros T Hp. destruct (to_queue _ T _ _ Hp) as (q & Hq & _). split; [by eapply lookup_lt_Some|]. right. by exists p.
Qed.

Lemma drop_none k s : peers (drop_peer k s) !! k = None.
Proof using.
  destruct (peers s !! k) as [p|] eqn:Hk.
  - destruct (drop_peer_parts k s p Hk) as (-> & _). apply lookup_delete_eq.
  - unfold drop_peer. by rewrite Hk.
Qed.

Lemma step_replace k g s : step_ok s (insert_new k g (drop_peer k s)).
Proof using. eapply step_trans; [apply step_drop|apply step_insert, drop_none]. Qed.

Lemma step_get_or_create k s : step_ok s (get_or_create_peer_state k s).
Proof using.
  unfold get_or_create_peer_state. destruct (peers s !! k) eqn:Hk; [apply step_refl|by apply step_insert].
Qed.

Lemma step_if_owner k g s : step_ok s (close_if_owner k g s).
Proof using.
  unfold close_if_owner. destruct (peers s !! k) as [p|]; [|apply step_refl].
  destruct (generation p =? g); [apply step_drop|apply step_refl].
Qed.

Lemma step_update_if_owner k g f s :
  (forall p, ps_queue (f p) = ps_queue p) ->
  (forall p, peers s !! k = Some p ->
     ps_issuer (f p) = ps_issuer p \/ ps_issuer (f p) = EmptyString \/ vouched k (ps_issuer (f p)) (notes s)) ->
  step_ok s (update_if_owner k g f s).
Proof using.
  intros Hf Hi. apply step_update; intros p; destruct (generation p =? g); auto.
Qed.

(** The steps that change neither the name nor the queue of a peer. *)
Lemma step_update_plain k f s :
  (forall p, ps_queue (f p) = ps_queue p /\ (ps_issuer (f p) = ps_issuer p \/ ps_issuer (f p) = EmptyString)) ->
  step_ok s (update_peer k f s).
Proof using. intros Hf. apply step_update; intros p; destruct (Hf p) as [? [?|?]]; auto. Qed.

Lemma step_plain_if_owner k g f s :
  (forall p, ps_queue (f p) = ps_queue p /\ (ps_issuer (f p) = ps_issuer p \/ ps_issuer (f p) = EmptyString)) ->
  step_ok s (update_if_owner k g f s).
Proof using. intros Hf. apply step_update_if_owner; intros p; destruct (Hf p) as [? [?|?]]; auto. Qed.

Lemma step_new_cell w s : step_ok s (new_cell w s).
Proof using. apply step_frame; try done. exists []. by rewrite app_nil_r. Qed.
Lemma step_switch c w s : step_ok s (switch_writer c w s).
Proof using. apply step_frame; try done. exists []. by rewrite app_nil_r. Qed.
Lemma step_workers w s : step_ok s (set_workers w s).
Proof using. apply step_frame; try done. exists []. by rewrite app_nil_r. Qed.
Lemma step_spawn t s : fresh_thread t -> step_ok s (spawn t s).
Proof using. intros Ht. apply step_frame; try done. exists [t]. by repeat constructor. Qed.

Lemma step_handle_send h c s : step_ok s (handle_send h c s).1.
Proof using.
  destruct (handle_send_frame h c s) as (? & ? & ? & Et & ? & _). apply step_frame; try done. exists [].
  by rewrite app_nil_r.
Qed.

Lemma step_wrote st payload s : step_ok s (add_note (Wrote st payload) s).
Proof using. by apply step_note. Qed.

Lemma step_writer_send ok cell payload s : step_ok s (writer_send ok cell payload s).1.
Proof using.
  unfold writer_send. destruct (writers s !! cell) as [[st|[st|]]|]; try apply step_refl.
  - destruct (ok && _); [apply step_wrote|apply step_refl].
  - destruct ok; [apply step_wrote|apply step_refl].
Qed.

#[local] Hint Resolve step_refl step_drop step_replace step_get_or_create step_if_owner step_new_cell step_switch
  step_workers step_handle_send step_wrote step_writer_send step_push : bingle.

Lemma step_break from key data s s' : break_tie local_addr from key data s = Some s' -> step_ok s s'.
Proof using.
  unfold break_tie. intros E. destruct (peers s !! key) as [p|]; [|injection E as <-; auto with bingle].
  destruct (_ && _); [|injection E as <-; auto with bingle]. destruct (match _ with Some _ => _ | None => _ end); [done|].
  injection E as <-. auto with bingle.
Qed.

Lemma step_restart key data s : step_ok s (restart key data s).
Proof using.
  unfold restart. destruct (peers s !! key) as [p|]; [|auto with bingle]. destruct (_ && _); [|auto with bingle].
  eapply step_trans; [apply step_replace|]. by apply step_note.
Qed.

(** The section of an inbound packet, and that the queue it hands on is in use. *)
Lemma step_route from key data s :
  step_ok s (route local_addr from key data s).1 /\
  (table_ok s -> forall q h a, (route local_addr from key data s).2 = Some (q, h, a) ->
    holds key q (route local_addr from key data s).1).
Proof using.
  unfold route. destruct (break_tie local_addr from key data s) as [s1|] eqn:Eb; [|split; [apply step_refl|done]].
  set (s2 := get_or_create_peer_state key (restart key data s1)).
  assert (step_ok s s2) as H12.
  { eapply step_trans; [by eapply step_break|]. eapply step_trans; [apply step_restart|apply step_get_or_create]. }
  destruct (peers s2 !! key) as [p|] eqn:Hp; [|split; [done|done]].
  destruct (ps_writer p) as [c|].
  - split; [done|]. intros T q h a [= <- _ _]. apply entry_holds; [|done]. by apply H12.
  - set (s3 := update_peer _ _ _). assert (step_ok s2 s3) as H23.
    { eapply step_trans; [apply step_new_cell|]. apply step_update_plain. auto. }
    split; [by eapply step_trans|]. cbn [fst snd]. intros T q h a [= <- _ _].
    destruct (H12 T) as [T2 _]. destruct (H23 T2) as [_ G]. apply (gr_holds _ _ G). by apply entry_holds.
Qed.

(** A step of a thread: the state stays in order, and the thread with it. *)
Definition goes (s : dtls) (r : dtls * thread) : Prop :=
  step_ok s r.1 /\ (table_ok s -> thread_ok r.1 r.2).

Lemma goes_plain s s' t : step_ok s s' -> fresh_thread t -> goes s (s', t).
Proof using. intros Hs Ht. split; [done|]. intros _. apply Ht. Qed.

Ltac goes_plain := apply goes_plain; [eauto with bingle|done].

Lemma handling_goes from key data pc s :
  thread_ok s (Handling from key data pc) -> goes s (handling_step local_addr from key data pc s).
Proof using.
  intros Ht. destruct pc as [|q a|q a]; cbn [handling_step].
  - destruct (step_route from key data s) as [Hs Hh].
    destruct (route local_addr from key data s) as [s' [[[q [h|]] a]|]]; cbn [fst snd] in *.
    + split; [done|]. intros T. by eapply (Hh T).
    + split; [done|]. intros T. by eapply (Hh T).
    + by apply goes_plain.
  - assert (step_ok s (start_accept_worker key s)) as Hs.
    { eapply step_trans; [apply step_workers|]. apply step_update_plain. auto. }
    split; [exact Hs|]. intros T. destruct (Hs T) as [_ G]. by apply (gr_holds _ _ G).
  - unfold push_and_accept.
    pose proof (step_push data q s) as Hp. set (s1 := set_queues _ s) in *. destruct a as [g|]; [|goes_plain].
    apply goes_plain; [|done]. intros T. destruct (Hp T) as [T1 G1]. revert T.
    apply (step_trans s s1); [done|]. eapply step_trans; [|by apply step_spawn].
    apply step_stream. intros _. cbn. by apply (gr_holds _ _ G1).
Qed.

Lemma reading_goes o key g st closing s : goes s (reading_step peer_cert_handler o key g st closing s).
Proof using.
  unfold reading_step. destruct closing; [goes_plain|]. destruct (ob_read o) as [data| |]; [|goes_plain|goes_plain].
  apply goes_plain; [|done]. destruct (_ && _) eqn:Eg; [apply step_refl|].
  intros T. revert T. intros T. apply step_note; [|done]. intros k name d [= <- <- <-] Hh.
  rewrite (bool_decide_eq_true_2 _ Hh) in Eg. cbn in Eg. apply bool_decide_eq_false in Eg. split; [done|].
  unfold issuer_of in *. destruct (peers s !! key) as [p|] eqn:Hp; [|done].
  destruct (to_issuer _ T _ _ Hp); done.
Qed.

Lemma shaken_in key i s : Handshaken key i ∈ notes (add_note (Handshaken key i) s).
Proof using. apply elem_of_app. right. by apply list_elem_of_singleton. Qed.

Lemma accepting_goes o key g st pc s :
  thread_ok s (Accepting key g st pc) ->
  goes s (accepting_step peer_cert_handler from_utf8_lossy o key g st pc s).
Proof using.
  intros Ht. destruct pc as [|i|i|]; cbn [accepting_step].
  - destruct (ob_shake o) as [i|]; [|goes_plain]. split; [by apply step_note|]. intros _. apply shaken_in.
  - split; [apply step_update_plain; auto|done].
  - destruct (accept_verdict peer_cert_handler from_utf8_lossy i) as [name| |] eqn:Ev; [|goes_plain|goes_plain].
    apply goes_plain; [|done]. eapply step_trans; [apply step_get_or_create|]. apply step_update; [done|].
    intros p _. right. right. cbn. exists i. split; [|by left]. cbn in Ht.
    unfold get_or_create_peer_state. by destruct (peers s !! key).
  - unfold accept_install. destruct (negb (ob_ok o)); [goes_plain|]. destruct (peers s !! key) as [p|]; [|goes_plain].
    destruct (generation p =? g); [|goes_plain]. apply goes_plain; [|done].
    eapply step_trans; [apply step_new_cell|]. apply step_update_plain. auto.
Qed.

Lemma step_claim ok to key s : step_ok s (claim ok to key s).1.
Proof using.
  unfold claim. set (s1 := get_or_create_peer_state key s). apply (step_trans s s1); [apply step_get_or_create|].
  destruct (peers s1 !! key) as [p|] eqn:Hp; [|apply step_refl]. destruct (_ && _); [apply step_refl|].
  destruct (negb ok); [apply step_update_plain; auto|].
  eapply step_trans; [apply (step_stream (MkStream to key (ps_queue p))); intros T; by apply (entry_holds key p)|].
  eapply step_trans; [apply step_new_cell|]. eapply step_trans; [apply step_workers|]. apply step_update_plain. auto.
Qed.

Lemma step_switch_table key w s : step_ok s (switch_table_writer key w s).
Proof using. unfold switch_table_writer. destruct (table_writer key s); auto with bingle. Qed.

Lemma step_verify key c i s : Handshaken key i ∈ notes s -> step_ok s (send_verify peer_cert_handler key c i s).1.
Proof using.
  intros Hi. unfold send_verify. destruct (_ && _); [apply step_refl|]. cbn [fst].
  destruct (connect_verdict peer_cert_handler i) as [name|] eqn:Ev; [|apply step_refl].
  apply step_update_if_owner; [done|]. intros p _. right. right. exists i. split; [done|by right].
Qed.

Lemma sending_goes o to key data pc s :
  thread_ok s (Sending to key data pc) -> goes s (sending_step peer_cert_handler o to key data pc s).
Proof using.
  intros Ht. destruct pc as [|h| | |c|c i|c|c i|c|c|c|c|]; cbn [sending_step].
  - unfold send_lookup. destruct (peers s !! key) as [p|]; [|goes_plain]. destruct (_ && _); [goes_plain|].
    destruct (ps_handle p); goes_plain.
  - unfold send_by_worker. destruct (match workers s !! h with Some w => _ | None => _ end); [|goes_plain].
    pose proof (step_handle_send h (CmdSend data) s) as Hs. destruct (handle_send h (CmdSend data) s) as [s' []]; goes_plain.
  - goes_plain.
  - destruct (negb (ob_ok o)); [goes_plain|]. pose proof (step_claim (ob_ok2 o) to key s) as Hs.
    destruct (claim (ob_ok2 o) to key s) as [s' [[c|]|]]; goes_plain.
  - unfold send_connect. destruct (if stream_closed _ _ then _ else _) as [i|].
    + split; [eapply step_trans; [apply step_wrote|by apply step_note]|].
      intros _. apply (shaken_in key i (add_note (Wrote (c_stream c) data) s)).
    + apply goes_plain; [apply step_if_owner|by destruct (ob_late o)].
  - split; [apply step_plain_if_owner; auto|done].
  - destruct (taken_over key (c_gen c) s); goes_plain.
  - pose proof (step_verify key c i (add_note (NewOutboundSession key) s)) as Hs.
    assert (step_ok s (send_verify peer_cert_handler key c i (add_note (NewOutboundSession key) s)).1) as Hv.
    { apply (step_trans s (add_note (NewOutboundSession key) s)); [by apply step_note|]. apply Hs. apply elem_of_app. by left. }
    unfold send_verify in *. destruct (_ && _); by apply goes_plain.
  - apply goes_plain; [apply step_switch_table|done].
  - unfold send_split. destruct (negb (ob_ok o)); [apply goes_plain; [apply step_switch_table|done]|].
    destruct (negb (ob_ok2 o)); goes_plain.
  - apply goes_plain; [|done]. destruct (still_owner key (c_gen c) s); [apply step_switch_table|apply step_refl].
  - apply goes_plain; [|done]. eapply step_trans; [|by apply step_spawn]. apply step_plain_if_owner. auto.
  - unfold send_when_session_ready.
    match goal with |- goes s (match (match ?x with _ => _ end) with _ => _ end) => destruct x as [cell|] end.
    + pose proof (step_writer_send (ob_ok o) cell data s) as Hs. destruct (writer_send (ob_ok o) cell data s). goes_plain.
    + destruct (ob_late o); goes_plain.
Qed.

Lemma thread_goes o t s :
  thread_ok s t -> goes s (thread_step peer_cert_handler from_utf8_lossy local_addr o t s).
Proof using.
  destruct t; cbn [thread_step]; intros Ht.
  - by apply handling_goes.
  - by apply accepting_goes.
  - by apply sending_goes.
  - apply reading_goes.
  - by apply goes_plain; [apply step_refl|].
Qed.

Definition sound (s : dtls) : Prop := table_ok s /\ Forall (thread_ok s) (threads s).

(** What is true of a later state. *)
Definition later (s s' : dtls) : Prop :=
  sound s' /\ (forall q, queue_closed q s = true -> queue_closed q s' = true) /\
  (forall n, n ∈ notes s -> n ∈ notes s').

Lemma thread_ok_grows s s' t : grows s s' -> thread_ok s t -> thread_ok s' t.
Proof using.
  intros G. destruct t as [? ? ? []|? ? ? []|? ? ? []|? ? ? ?|?]; cbn; try done;
    try apply (gr_holds _ _ G); apply (gr_notes _ _ G).
Qed.

Lemma later_step s s' : step_ok s s' -> sound s -> later s s'.
Proof using.
  intros Hs [T Ht]. destruct (Hs T) as [T' G]. split; [|split; [apply (gr_closed _ _ G)|apply (gr_notes _ _ G)]].
  split; [done|]. destruct (gr_threads _ _ G) as (l & -> & Hl). apply Forall_app. split.
  - eapply Forall_impl; [exact Ht|]. intros t. by apply thread_ok_grows.
  - eapply Forall_impl; [exact Hl|]. auto.
Qed.

Lemma table_ok_threads l s : table_ok s <-> table_ok (set_threads l s).
Proof using. split; intros []; by split. Qed.

Lemma thread_ok_threads l s t : thread_ok s t <-> thread_ok (set_threads l s) t.
Proof using. by destruct t as [? ? ? []|? ? ? []|? ? ? []|? ? ? ?|?]. Qed.

Lemma later_run_thread i o s :
  sound s -> later s (run_thread peer_cert_handler from_utf8_lossy local_addr i o s).
Proof using.
  intros Hs. unfold run_thread. destruct (threads s !! i) as [t|] eqn:Hi; [|by apply later_step; [apply step_refl|]].
  destruct (thread_goes o t s) as [Hst Htt]; [by eapply Forall_lookup_1; [apply Hs|]|].
  destruct (thread_step peer_cert_handler from_utf8_lossy local_addr o t s) as [s' t']. cbn [fst snd] in *.
  destruct (later_step _ _ Hst Hs) as ([T' F] & Hc & Hn). split; [|split; [exact Hc|exact Hn]]. split.
  - by apply -> (table_ok_threads (<[i:=t']> (threads s')) s').
  - cbn [threads set_threads]. eapply (Forall_impl (thread_ok s')); [|intros x; apply thread_ok_threads].
    apply Forall_insert; [done|]. apply Htt, Hs.
Qed.

Lemma step_worker ok i s : step_ok s (worker_step ok i s).
Proof using.
  unfold worker_step. destruct (workers s !! i) as [[h [] [|[payload|] cmds] w]|]; try apply step_refl; try apply step_workers.
  destruct w as [k|cell].
  - eapply step_trans; [|apply step_workers]. destruct (table_writer k s); auto with bingle.
  - pose proof (step_writer_send ok cell payload s) as Hs. destruct (writer_send ok cell payload s) as [s' sent].
    eapply step_trans; [exact Hs|apply step_workers].
Qed.

Lemma step_forget_all l : forall s, step_ok s (foldl (fun s k => drop_peer k s) s l).
Proof using.
  induction l as [|k l IH]; intros s; cbn; [apply step_refl|]. eapply step_trans; [apply step_drop|apply IH].
Qed.

Lemma later_event e s s' :
  run_event peer_cert_handler from_utf8_lossy local_addr e s = Returns s' -> sound s -> later s s'.
Proof using.
  destruct e as [from data|to data|i o|i ok|ep| |ok to data|a]; cbn [run_event]; intros E Hs.
  - apply later_step; [|done]. revert E. unfold receive_packet.
    intros E; repeat case_match; simplify_eq; try apply step_refl; by apply step_spawn.
  - apply later_step; [|done]. unfold start_send in E. repeat case_match; simplify_eq. by apply step_spawn.
  - injection E as <-. by apply later_run_thread.
  - injection E as <-. apply later_step; [apply step_worker|done].
  - apply later_step; [|done]. unfold forget_peer in E. repeat case_match; simplify_eq; auto with bingle.
  - injection E as <-. apply later_step; [apply step_forget_all|done].
  - apply later_step; [|done]. unfold adapter_send in E. repeat case_match; simplify_eq; auto with bingle.
  - injection E as <-. apply later_step; [|done]. apply step_frame; try done. exists []. by rewrite app_nil_r.
Qed.

Lemma later_run evs : forall s s',
  run peer_cert_handler from_utf8_lossy local_addr evs s = Returns s' -> sound s -> later s s'.
Proof using.
  induction evs as [|e evs IH]; intros s s' E Hs; cbn [run] in E; [injection E as <-; done|].
  destruct (run_event peer_cert_handler from_utf8_lossy local_addr e s) as [s1|] eqn:E1; [|done].
  destruct (later_event _ _ _ E1 Hs) as (H1 & Hc & Hn). destruct (IH _ _ E H1) as (H2 & Hc' & Hn').
  split; [done|]. split; auto.
Qed.

Lemma sound_new : sound dtls_new.
Proof using.
  split; [split; cbn|constructor]; try by constructor.
  all: intros; try match goal with E : ∅ !! _ = Some _ |- _ => by rewrite lookup_empty in E end.
  by match goal with E : _ ∈ [] |- _ => apply elem_of_nil in E end.
Qed.

Lemma sound_run evs s : run peer_cert_handler from_utf8_lossy local_addr evs dtls_new = Returns s -> sound s.
Proof using. intros E. apply (later_run _ _ _ E sound_new). Qed.

(** A verdict names a peer by the subject that the handler gave. *)
Lemma verdict_subject h i name :
  peer_cert_handler = Some h ->
  accept_verdict peer_cert_handler from_utf8_lossy i = Named name \/ connect_verdict peer_cert_handler i = Some name ->
  exists pem ca subject, pi_cert i = Some (Some pem) /\ pi_ca i = Some ca /\ h pem ca = Ok subject /\
    subject <> EmptyString /\ name = norm_id subject.
Proof using.
  intros Hh Hv. unfold accept_verdict, connect_verdict in Hv. rewrite Hh in Hv.
  destruct (pi_cert i) as [[pem|]|] eqn:Ec; [|naive_solver|naive_solver].
  destruct (pi_ca i) as [ca|] eqn:Ea; [|naive_solver]. destruct (h pem ca) as [subject|] eqn:Es; [|naive_solver].
  destruct (decide (subject = EmptyString)) as [->|Hs].
  - rewrite bool_decide_eq_true_2 in Hv by done. naive_solver.
  - rewrite bool_decide_eq_false_2 in Hv by done. exists pem, ca, subject. destruct Hv as [[= <-]|[= <-]]; done.
Qed.

(** (C7) Nobody speaks under a name that was not proved.  With a certificate handler, whatever
    packets arrive, sends, takeovers and restarts happen and however the threads
    interleave, a message handed to the application bears a name, and the handler gave
    that name, for the certificate and the authority of a completed handshake with the
    very peer the message came from. *)
Theorem delivered_names_proved h evs s k name data :
  peer_cert_handler = Some h ->
  run peer_cert_handler from_utf8_lossy local_addr evs dtls_new = Returns s ->
  Delivered k name data ∈ notes s ->
  name <> EmptyString /\
  exists i pem ca subject, Handshaken k i ∈ notes s /\ pi_cert i = Some (Some pem) /\ pi_ca i = Some ca /\
    h pem ca = Ok subject /\ subject <> EmptyString /\ name = norm_id subject.
Proof using.
  intros Hh E Hd. destruct (sound_run _ _ E) as [T _].
  destruct (to_delivered _ T _ _ _ Hd) as (Hne & i & Hi & Hv); [by rewrite Hh|]. split; [done|].
  destruct (verdict_subject h i name Hh Hv) as (pem & ca & subject & ? & ? & ? & ? & ?). by exists i, pem, ca, subject.
Qed.

(** A session that was given up stays off the wire.  Once the stream of a peer is no
    longer the one of the table, because the state was dropped, superseded by a restart or
    yielded in the tie-break, its connection refuses every write from then on; streams of
    the table are open, no two peers share a queue, and no queue exceeds its capacity. *)
Theorem dropped_streams_silent evs s :
  run peer_cert_handler from_utf8_lossy local_addr evs dtls_new = Returns s ->
  (forall k p, peers s !! k = Some p -> queue_closed (ps_queue p) s = false) /\
  (forall k1 k2 p1 p2, peers s !! k1 = Some p1 -> peers s !! k2 = Some p2 -> ps_queue p1 = ps_queue p2 -> k1 = k2) /\
  Forall (fun q => length (q_items q) <= ASYNC_PEER_QUEUE_CAPACITY)%nat (queues s) /\
  forall i st, streams s !! i = Some st ->
    (forall p, peers s !! s_key st = Some p -> ps_queue p <> s_queue st) ->
    forall evs' s', run peer_cert_handler from_utf8_lossy local_addr evs' s = Returns s' ->
    exists q, queues s' !! s_queue st = Some q /\ forall mux, conn_write mux q = Err "dtls peer state closed".
Proof using.
  intros E. pose proof (sound_run _ _ E) as Hs. pose proof (proj1 Hs) as T. split_and!.
  - intros k p Hp. destruct (to_queue _ T _ _ Hp) as (q & Hq & Ho). unfold queue_closed. by rewrite Hq.
  - apply (to_inj _ T).
  - apply (to_cap _ T).
  - intros i st Hi Hno evs' s' E'. destruct (later_run _ _ _ E' Hs) as (_ & Hc & _).
    destruct (Forall_lookup_1 _ _ _ _ (to_stream _ T) Hi) as [_ [Hcl|(p & Hp & Hq)]]; [|by destruct (Hno p)].
    specialize (Hc _ Hcl). unfold queue_closed in Hc. destruct (queues s' !! s_queue st) as [q|]; [|done].
    exists q. split; [done|]. intros mux. unfold conn_write. by rewrite Hc.
Qed.
End Sound.

(** ** Simultaneous connects *)

Lemma ip_lt_total a b : a <> b -> ip_lt a b = negb (ip_lt b a).
Proof.
  intros H. destruct a as [a1 a2 a3 a4|a], b as [b1 b2 b3 b4|b]; cbn; try done.
  - destruct (Z.ltb_spec a1 b1), (Z.ltb_spec b1 a1), (Z.eqb_spec a1 b1), (Z.eqb_spec b1 a1); try lia; try done;
    destruct (Z.ltb_spec a2 b2), (Z.ltb_spec b2 a2), (Z.eqb_spec a2 b2), (Z.eqb_spec b2 a2); try lia; try done;
    destruct (Z.ltb_spec a3 b3), (Z.ltb_spec b3 a3), (Z.eqb_spec a3 b3), (Z.eqb_spec b3 a3); try lia; try done;
    destruct (Z.ltb_spec a4 b4), (Z.ltb_spec b4 a4); try lia; try done. exfalso. apply H. f_equal; lia.
  - destruct (Z.ltb_spec a b), (Z.ltb_spec b a); try lia; try done. exfalso. apply H. f_equal. lia.
Qed.

Lemma designated_total own remote :
  own <> remote -> is_designated_client own remote = negb (is_designated_client remote own).
Proof.
  destruct own as [i p], remote as [j q]. intros H. unfold is_designated_client. cbn [ip port].
  destruct (Z.ltb_spec p q), (Z.ltb_spec q p), (Z.eqb_spec p q), (Z.eqb_spec q p); try lia; try done. cbn.
  apply ip_lt_total. intros ->. apply H. f_equal. lia.
Qed.

(** The outbound connect to [k] was given up: its queue is closed, and the peer's own connect
    is accepted on a new one. *)
Definition yields (k : NetworkEndpointKey) (p : PeerState) (r : dtls * option (nat * option nat * option Z)) : Prop :=
  exists q g p', r.2 = Some (q, None, Some g) /\ peers r.1 !! k = Some p' /\ ps_queue p' = q /\ generation p' = g /\
    is_connecting_peer p' = false /\ queue_closed q r.1 = false /\ queue_closed (ps_queue p) r.1 = true.

Section Tie.
Context (local_addr : SocketAddr).

Lemma route_yields from k data s p :
  peers s !! k = Some p -> (ps_queue p < length (queues s))%nat ->
  break_tie local_addr from k data s = Some (insert_new k (next_peer_generation (generation p)) (drop_peer k s)) ->
  yields k p (route local_addr from k data s).
Proof using.
  intros Hp Hq Eb. destruct (drop_peer_parts k s p Hp) as (_ & Eq & _). unfold route. rewrite Eb.
  set (s1 := insert_new k (next_peer_generation (generation p)) (drop_peer k s)).
  assert (peers s1 !! k = Some (new_peer_state (next_peer_generation (generation p)) (length (queues s)))) as H1.
  { unfold s1. cbn. by rewrite lookup_insert_eq, Eq, length_alter. }
  assert (restart k data s1 = s1) as ->.
  { unfold restart. rewrite H1. cbn [ps_writer new_peer_state is_connecting_peer]. by rewrite !andb_false_r. }
  assert (get_or_create_peer_state k s1 = s1) as -> by (unfold get_or_create_peer_state; by rewrite H1).
  rewrite H1. cbn [ps_writer new_peer_state ps_queue ps_handle generation]. eexists _, _, _. cbn [fst snd].
  split; [done|]. split; [cbn; rewrite lookup_alter_eq; cbn in H1; rewrite H1; done|]. cbn.
  split_and!; try done; unfold queue_closed; cbn; rewrite Eq.
  - by rewrite lookup_app_r, length_alter, Nat.sub_diag by (rewrite length_alter; lia).
  - rewrite lookup_app_l by (rewrite length_alter; lia). rewrite list_lookup_alter_eq.
    destruct (queues s !! ps_queue p) eqn:E; [done|]. apply lookup_ge_None in E. lia.
Qed.

(** An outbound connect still in its handshake, to [b]. *)
Definition connecting (b : SocketAddr) (p : PeerState) (s : dtls) : Prop :=
  peers s !! MkKey (Some b) None None = Some p /\ is_connecting_peer p = true /\ handshake_logged p = false.

(** What the node does with the ClientHello of the peer it is dialling. *)
Lemma hello_while_connecting h u evs a b data p s :
  run h u local_addr evs dtls_new = Returns s -> public_endpoint s = Some a -> connecting b p s ->
  is_client_hello data = true ->
  let k := MkKey (Some b) None None in
  let r := route local_addr (new_direct b) k data s in
  if is_designated_client a b then r = (s, None) else yields k p r.
Proof using.
  intros E Ha (Hp & Hc & Hl) Hd k r. destruct (sound_run _ _ _ _ _ E) as [T _].
  assert (break_tie local_addr (new_direct b) k data s
    = if is_designated_client a b then None
      else Some (insert_new k (next_peer_generation (generation p)) (drop_peer k s))) as Eb.
  { unfold break_tie, k. rewrite Hp, Hd, Hc, Hl, Ha. done. }
  destruct (is_designated_client a b).
  - unfold r, route. by rewrite Eb.
  - destruct (to_queue _ _ _ T _ _ Hp) as (q & Hq & _). apply route_yields; [done|by eapply lookup_lt_Some|done].
Qed.
End Tie.

(** Two nodes that dial each other at once end up with one session.  When each is still
    in the handshake of its own connect and receives the other's ClientHello, exactly one
    of them drops the packet and keeps its connect as it is; the other gives its connect
    up, so that nothing more of it reaches the wire, and accepts on a new queue, under a
    new generation. *)
Theorem simultaneous_connect_one_side h u h' u' la lb evs evs' a b pa pb sa sb hello hello' :
  run h u la evs dtls_new = Returns sa -> run h' u' lb evs' dtls_new = Returns sb ->
  public_endpoint sa = Some a -> public_endpoint sb = Some b -> a <> b ->
  connecting b pa sa -> connecting a pb sb ->
  is_client_hello hello = true -> is_client_hello hello' = true ->
  let ra := route la (new_direct b) (MkKey (Some b) None None) hello sa in
  let rb := route lb (new_direct a) (MkKey (Some a) None None) hello' sb in
  (ra = (sa, None) /\ yields (MkKey (Some a) None None) pb rb) \/
  (yields (MkKey (Some b) None None) pa ra /\ rb = (sb, None)).
Proof.
  intros Ea Eb Ha Hb Hne Ca Cb Hh Hh' ra rb.
  pose proof (hello_while_connecting la h u evs a b hello pa sa Ea Ha Ca Hh) as Ra.
  pose proof (hello_while_connecting lb h' u' evs' b a hello' pb sb Eb Hb Cb Hh') as Rb.
  rewrite (designated_total b a) in Rb by congruence. destruct (is_designated_client a b); cbn in *; auto.
Qed.

(** ** Generations *)

Lemma next_generation_range g : 0 <= g < 2 ^ 64 -> 1 <= next_peer_generation g < 2 ^ 64 /\ next_peer_generation g <> g.
Proof.
  intros H. unfold next_peer_generation, wrap. change (2 ^ 64) with 18446744073709551616 in *.
  destruct (decide (g = 18446744073709551615)) as [->|Hne]; [done|].
  rewrite Z.mod_small by lia. destruct (Z.eqb_spec (g + 1) 0); lia.
Qed.

(** ** Concrete runs *)

Module DtlsExample.
Definition a : SocketAddr := SockAddr (V4 10 0 0 1) 5000.
Definition b : SocketAddr := SockAddr (V4 10 0 0 2) 5001.
Definition key (x : SocketAddr) : NetworkEndpointKey := MkKey (Some x) None None.
(** The certificate [1] is Alice's, every other one Mallory's. *)
Definition name_of (pem ca : list Z) : result string string :=
  Ok (if bool_decide (pem = [1]) then "Alice." else "Mallory.")%string.
Definition info (pem : list Z) : peer_info := MkInfo "AES" (Some (Some pem)) (Some [9]).
Definition good (pem : list Z) : obs := MkObs true true false (Some (info pem)) ReadIdle.
Definition reading (r : read_result) : obs := MkObs true true false None r.
Definition hello : list Z := 22 :: replicate 12 0 ++ [1].
Definition at_ (x : SocketAddr) (evs : list event) (s : dtls) : outcome dtls :=
  run (Some name_of) (fun _ => EmptyString) x evs s.
Definition after (x : SocketAddr) (evs : list event) : dtls :=
  match at_ x evs dtls_new with Returns s => s | Panics => dtls_new end.
(** [n] steps of thread [i]. *)
Definition steps (n i : nat) (o : obs) : list event := replicate n (EvRun i o).
(** A packet from [x], handled by thread [i]. *)
Definition arrives (x : SocketAddr) (i : nat) : list event :=
  EvPacket (new_direct x) hello :: steps 3 i (reading ReadIdle).

(** A node dials its peer and is in its handshake. *)
Definition dialling (own peer : SocketAddr) : list event :=
  [EvPublic (Some own); EvSend (new_direct peer) [7]] ++ steps 2 0 (good [1]).
End DtlsExample.

Lemma delivered_names_proved_witness :
  let evs := DtlsExample.arrives DtlsExample.b 0 ++ DtlsExample.steps 4 1 (DtlsExample.good [1]) ++
             [EvRun 1 (DtlsExample.reading (ReadData [5; 6]))] in
  let s := DtlsExample.after DtlsExample.a evs in
  Delivered (DtlsExample.key DtlsExample.b) "Alice" [5; 6] ∈ notes s /\
  exists i, Handshaken (DtlsExample.key DtlsExample.b) i ∈ notes s /\ pi_cert i = Some (Some [1]).
Proof.
  intros evs s.
  assert (Delivered (DtlsExample.key DtlsExample.b) "Alice" [5; 6] ∈ notes s) as Hd.
  { vm_compute. right. left. }
  split; [exact Hd|].
  destruct (delivered_names_proved (Some DtlsExample.name_of) (fun _ => EmptyString) DtlsExample.a DtlsExample.name_of
    evs s _ _ _ eq_refl eq_refl Hd) as (_ & i & pem & ca & subject & Hi & Hp & Hc & Hs & _ & Hn).
  exists i. split; [exact Hi|]. unfold DtlsExample.name_of in Hs. injection Hs as <-.
  case_bool_decide as Hb; [by rewrite Hb in Hp|]. vm_compute in Hn. discriminate.
Defined.

Lemma dropped_streams_silent_witness :
  let evs := DtlsExample.dialling DtlsExample.b DtlsExample.a ++ DtlsExample.arrives DtlsExample.a 1 in
  let s := DtlsExample.after DtlsExample.b evs in
  exists st q, streams s !! 0%nat = Some st /\ queues s !! s_queue st = Some q /\
    conn_write (Ok tt) q = Err "dtls peer state closed".
Proof.
  intros evs s.
  destruct (dropped_streams_silent (Some DtlsExample.name_of) (fun _ => EmptyString) DtlsExample.b evs s eq_refl)
    as (_ & _ & _ & H).
  destruct (streams s !! 0%nat) as [st|] eqn:Est; [|vm_compute in Est; discriminate].
  destruct (H 0%nat st Est) with (evs' := @nil event) (s' := s) as (q & Hq & Hw); [|reflexivity|].
  - vm_compute in Est. injection Est as <-. intros p Hp. vm_compute in Hp. injection Hp as <-. done.
  - exists st, q. split; [done|]. split; [exact Hq|apply Hw].
Defined.

Lemma simultaneous_connect_one_side_witness :
  let sa := DtlsExample.after DtlsExample.a (DtlsExample.dialling DtlsExample.a DtlsExample.b) in
  let sb := DtlsExample.after DtlsExample.b (DtlsExample.dialling DtlsExample.b DtlsExample.a) in
  exists pb, peers sb !! DtlsExample.key DtlsExample.a = Some pb /\
    (route DtlsExample.a (new_direct DtlsExample.b) (DtlsExample.key DtlsExample.b) DtlsExample.hello sa).2 = None /\
    yields (DtlsExample.key DtlsExample.a) pb
      (route DtlsExample.b (new_direct DtlsExample.a) (DtlsExample.key DtlsExample.a) DtlsExample.hello sb).
Proof.
  intros sa sb.
  set (p := MkPeerState (Some 0%nat) EmptyString 0 (Some 0%nat) true false false None 1).
  assert (connecting DtlsExample.b p sa) as Ca by (vm_compute; done).
  assert (connecting DtlsExample.a p sb) as Cb by (vm_compute; done).
  assert ((route DtlsExample.a (new_direct DtlsExample.b) (DtlsExample.key DtlsExample.b) DtlsExample.hello sa).2 = None) as Hn
    by (vm_compute; reflexivity).
  exists p. split; [apply Cb|]. split; [exact Hn|].
  destruct (simultaneous_connect_one_side (Some DtlsExample.name_of) (fun _ => EmptyString) (Some DtlsExample.name_of)
    (fun _ => EmptyString) DtlsExample.a DtlsExample.b (DtlsExample.dialling DtlsExample.a DtlsExample.b)
    (DtlsExample.dialling DtlsExample.b DtlsExample.a) DtlsExample.a DtlsExample.b p p sa sb DtlsExample.hello
    DtlsExample.hello ltac:(vm_compute; reflexivity) ltac:(vm_compute; reflexivity) ltac:(vm_compute; reflexivity)
    ltac:(vm_compute; reflexivity) ltac:(discriminate) Ca Cb ltac:(reflexivity) ltac:(reflexivity))
    as [[_ Hy]|[(q & g & p' & Hy & _) _]]; [exact Hy|]. unfold DtlsExample.key in Hn. rewrite Hn in Hy. discriminate.
Defined.

(** Generations are not unique.  After [forget_peer] a new state of the peer starts again from
    generation 0, so the reader of the session that was forgotten takes the new session
    for its own: when it ends, it closes the established session of its successor. *)
Theorem stale_reader_closes_new_session :
  let send n := EvSend (new_direct DtlsExample.b) [7] :: DtlsExample.steps 9 n (DtlsExample.good [1]) in
  let evs := send 0%nat ++ EvForget (new_direct DtlsExample.b) :: send 2%nat in
  let s := DtlsExample.after DtlsExample.a evs in
  let s' := DtlsExample.after DtlsExample.a (evs ++ DtlsExample.steps 2 1 (DtlsExample.reading ReadEnd)) in
  threads s !! 1%nat = Some (Reading (DtlsExample.key DtlsExample.b) 1 0 false) /\
  threads s !! 3%nat = Some (Reading (DtlsExample.key DtlsExample.b) 1 1 false) /\
  (writer_ready <$> peers s !! DtlsExample.key DtlsExample.b) = Some true /\
  peers s' !! DtlsExample.key DtlsExample.b = None /\ stream_closed 1 s' = true.
Proof. vm_compute. done. Qed.

(** A superseded accept names its successor.  The accepting thread records the name of its
    certificate without comparing generations: a handshake that completed before the
    peer restarted renames the session that replaced it, whose own certificate was
    Alice's, and what is read from it is delivered as Mallory's. *)
Theorem stale_accept_renames_session :
  let b := DtlsExample.b in
  let evs := DtlsExample.arrives b 0 ++ DtlsExample.steps 1 1 (DtlsExample.good [2]) ++
             DtlsExample.arrives b 2 ++ DtlsExample.steps 4 3 (DtlsExample.good [1]) in
  let s := DtlsExample.after DtlsExample.a evs in
  let s' := DtlsExample.after DtlsExample.a (evs ++ DtlsExample.steps 2 1 (DtlsExample.good [2]) ++
              [EvRun 3 (DtlsExample.reading (ReadData [5; 6]))]) in
  (ps_issuer <$> peers s !! DtlsExample.key b) = Some "Alice"%string /\
  (generation <$> peers s !! DtlsExample.key b) = Some 3 /\
  threads s !! 3%nat = Some (Reading (DtlsExample.key b) 3 1 false) /\
  last (notes s') = Some (Delivered (DtlsExample.key b) "Mallory" [5; 6]).
Proof. vm_compute. done. Qed.

(** A connect that was yielded silences the session it was yielded to.  When the handshake
    of the connect had just completed, its thread goes on and puts the writer of the
    table, now that of the accepted session, on a dead channel; it does not put it right,
    since the generation is no longer its own.  From then on sends succeed and nothing is
    written. *)
Theorem stale_connect_silences_session :
  let a := DtlsExample.a in
  let evs := DtlsExample.dialling DtlsExample.b a ++ DtlsExample.steps 1 0 (DtlsExample.good [1]) ++
             DtlsExample.arrives a 1 ++ DtlsExample.steps 4 2 (DtlsExample.good [1]) ++
             DtlsExample.steps 6 0 (DtlsExample.good [1]) in
  let s := DtlsExample.after DtlsExample.b evs in
  let s' := DtlsExample.after DtlsExample.b (evs ++ EvSend (new_direct a) [8] :: DtlsExample.steps 2 4 (DtlsExample.good [1])
              ++ [EvWork 1 true]) in
  (writer_ready <$> peers s !! DtlsExample.key a) = Some true /\
  (table_writer (DtlsExample.key a) s ≫= fun c => writers s !! c) = Some (Channel None) /\
  threads s' !! 4%nat = Some (Finished (Some (Ok tt))) /\ notes s' = notes s.
Proof. vm_compute. done. Qed.

(** Two sends at once share a queue.  When both find no session and then claim the entry, the
    second takes it over from the first, and the streams of both read the datagrams of
    the same queue. *)
Theorem concurrent_sends_share_queue :
  let send := EvSend (new_direct DtlsExample.b) [7] in
  let s := DtlsExample.after DtlsExample.a
             ([send; send; EvRun 0 (DtlsExample.good [1]); EvRun 1 (DtlsExample.good [1]);
               EvRun 0 (DtlsExample.good [1]); EvRun 1 (DtlsExample.good [1])]) in
  (s_queue <$> streams s) = [0%nat; 0%nat] /\ (generation <$> peers s !! DtlsExample.key DtlsExample.b) = Some 2.
Proof. vm_compute. done. Qed.
