(* ===== verification/Mux.v ===== *)
(** * The multiplexer and the TURN path

    Models [src/bingle_core/src/dtls/network_mux_udp.rs]: the classes of datagrams, their
    dispatch, writing directly or in a channel of a relay, and the receive loop that
    binds its socket anew after an error; and [create_turn_handler] of
    [src/bingle_core/src/engine/mod.rs], by which channel data is forwarded or enters the
    dispatch again.  The TURN handler is that of the class [TurnHandler]. *)
From S2P Require Import Prelude NetAddr Turn Dtls.

Local Open Scope Z_scope.

(** ** Classes of datagrams *)

Inductive MuxType : Type :=
| MuxStun
| MuxZrtp
| MuxDtls
| TurnChannelData
| MuxRtp
| MuxUnknown.

#[export] Instance MuxType_eq_dec : EqDecision MuxType.
Proof. solve_decision. Defined.

Definition mux_type_for (data : list Z) : MuxType :=
  match data with
  | [] => MuxUnknown
  | first :: _ =>
      if (0 <=? first) && (first <=? 3) then MuxStun
      else if (16 <=? first) && (first <=? 19) then MuxZrtp
      else if (20 <=? first) && (first <=? 63) then MuxDtls
      else if (64 <=? first) && (first <=? 127) then TurnChannelData
      else if (128 <=? first) && (first <=? 191) then MuxRtp
      else MuxUnknown
  end.

(** ** Writing *)

(** [UdpNetworkMux::write]: where it sends what.  [open]: there is a socket; [sent]: the
    socket took the datagram. *)
Definition write (open sent : bool) (to : NetworkEndpoint) (buf : list Z)
  : outcome (result (SocketAddr * list Z) string) :=
  if negb open then Returns (Err "socket closed")
  else
    match relay_channel to, relay_address to with
    | Some ch, Some relay_addr =>
        match build_channel_data ch buf with
        | None => Returns (Err "TURN build_channel_data failed (payload too large)")
        | Some wrapped =>
            Returns (if sent then Ok (relay_addr, wrapped) else Err "udp send_to (relay) failed")
        end
    | _, _ =>
        match inet_socket_address to with
        | None => Panics
        | Some to_addr => Returns (if sent then Ok (to_addr, buf) else Err "udp send_to failed")
        end
    end.

(** ** Dispatch *)

(** What a datagram leads to. *)
Inductive mux_out : Type :=
| ToDtls (from : NetworkEndpoint) (data : list Z)
| ToStun (from : SocketAddr) (data : list Z)
| Forwarded (to : SocketAddr) (packet : list Z).

(** The multiplexer of a node: which handlers are installed, whether the socket is open and
    takes what is sent, the role of the node and its public address. *)
Record mux_setting : Type := MkMux {
  has_dtls : bool;
  has_stun : bool;
  has_turn : bool;
  socket_open : bool;
  socket_sends : bool;
  am_relay : bool;
  local_public : option SocketAddr
}.

Section Dispatch.
Context {S : Type} `{TurnHandler S} (m : mux_setting) (turn : S).

(** The handler [create_turn_handler] installs; [reprocess] takes what is for this node. *)
Definition turn_handler (reprocess : NetworkEndpoint -> list Z -> outcome (list mux_out)) (from : SocketAddr)
    (packet : list Z) : outcome (list mux_out) :=
  match local_public m with
  | None => Returns []
  | Some lp =>
      match handle_turn_incoming (Some from) (Some lp) packet turn with
      | Panics => Panics
      | Returns None => Returns []
      | Returns (Some w) =>
          if am_relay m && negb (w_is_relay_local w) then
            match write (socket_open m) (socket_sends m) (new_direct (w_ip_address w)) packet with
            | Panics => Panics
            | Returns (Ok (to, packet)) => Returns [Forwarded to packet]
            | Returns (Err _) => Returns []
            end
          else reprocess (w_network_endpoint w) (w_message w)
      end
  end.

(** [process_packet] and the TURN handler call each other on ever shorter packets. *)
Fixpoint process_packet (fuel : nat) (from : NetworkEndpoint) (data : list Z) : outcome (list mux_out) :=
  match fuel with
  | O => Returns []
  | Datatypes.S fuel =>
      match mux_type_for data with
      | MuxDtls => Returns (if has_dtls m then [ToDtls from data] else [])
      | MuxStun =>
          if has_stun m then
            match inet_socket_address from with
            | Some a => Returns [ToStun a data]
            | None => Panics
            end
          else Returns []
      | TurnChannelData =>
          if has_turn m then
            match inet_socket_address from with
            | None => Panics
            | Some a => turn_handler (process_packet fuel) a data
            end
          else Returns []
      | _ => Returns []
      end
  end.

(** A datagram received on the socket. *)
Definition received (from : SocketAddr) (data : list Z) : outcome (list mux_out) :=
  process_packet (Datatypes.S (length data)) (new_direct from) data.
End Dispatch.

(** ** The receive loop *)

Record receiver : Type := MkReceiver { shared_socket : bool; loop_socket : bool; running : bool; stopped : bool }.

Definition receiver_started : receiver := MkReceiver true true true false.

(** What the socket gives at a turn of the loop: a datagram, nothing in time, an error. *)
Inductive recv : Type :=
| RecvFrom (from : SocketAddr) (data : list Z)
| RecvTimeout
| RecvError.

(** A turn: [rebinds] is whether binding works, if it is tried.  Also the datagram to
    process; those of IPv6 senders are refused. *)
Definition receive_turn (rebinds : bool) (r : recv) (s : receiver) : receiver * option (SocketAddr * list Z) :=
  if stopped s then (s, None)
  else if negb (running s) then (MkReceiver false false false true, None)
  else if negb (loop_socket s) && negb rebinds then (s, None)
  else
    let s := if loop_socket s then s else MkReceiver true true (running s) (stopped s) in
    match r with
    | RecvFrom from data =>
        (s, if bool_decide (data = []) || negb (is_ipv4 (ip from)) then None else Some (from, data))
    | RecvTimeout => (s, None)
    | RecvError => (MkReceiver false false (running s) (stopped s), None)
    end.

(** [UdpNetworkMux::stop]. *)
Definition stop_receiver (s : receiver) : receiver :=
  MkReceiver (shared_socket s) (loop_socket s) false (stopped s).

Inductive receiver_event : Type :=
| Turn (rebinds : bool) (r : recv)
| StopReceiver.

Definition receiver_step (s : receiver) (e : receiver_event) : receiver :=
  match e with
  | Turn b r => (receive_turn b r s).1
  | StopReceiver => stop_receiver s
  end.

Definition run_receiver (evs : list receiver_event) : receiver := foldl receiver_step receiver_started evs.

(** ** The dispatch ends *)

Section Fuel.
Context {S : Type} `{TurnHandlerLaws S} (m : mux_setting) (turn : S).

(** An accepted packet is at least four bytes longer than its message. *)
Lemma incoming_shorter sender local packet w :
  handle_turn_incoming sender local packet turn = Returns (Some w) ->
  (length (w_message w) + 4 <= length packet)%nat.
Proof using H0.
  intros E. destruct (incoming_payload _ _ _ _ _ E) as (ch & len & pad & Hp & ->).
  unfold parse_channel_data_header in Hp. destruct packet as [|b0 [|b1 [|b2 [|b3 rest]]]]; try done.
  unfold slice. rewrite length_take, length_drop. cbn [length]. lia.
Qed.

(** The nesting of channel data is no danger to the dispatch: the fuel of [received], one
    more than the length of the datagram, is enough, for every handler that unwraps
    packets as the trait promises; more of it changes nothing. *)
Theorem process_packet_fuel fuel from data :
  (length data < fuel)%nat ->
  process_packet m turn fuel from data = process_packet m turn (Datatypes.S (length data)) from data.
Proof using H0.
  intros Hf.
  assert (forall n, forall f1 f2 from data, (length data <= n)%nat -> (length data < f1)%nat -> (length data < f2)%nat ->
    process_packet m turn f1 from data = process_packet m turn f2 from data) as Hall.
  { clear fuel from data Hf. intros n. induction n as [|n IH]; intros [|f1] [|f2] from data Hn H1 H2; try lia.
    - destruct data; cbn in *; [done|lia].
    - cbn [process_packet]. destruct (mux_type_for data); try done.
      destruct (has_turn m); [|done]. destruct (inet_socket_address from) as [a|]; [|done].
      unfold turn_handler. destruct (local_public m) as [lp|]; [|done].
      destruct (handle_turn_incoming (Some a) (Some lp) data turn) as [[w|]|] eqn:Ew; try done.
      destruct (am_relay m && negb (w_is_relay_local w)); [done|].
      apply incoming_shorter in Ew. apply IH; lia. }
  apply (Hall (length data)); lia.
Qed.
End Fuel.

(** ** Through a relay *)

(** The bytes of a frame of a channel in TURN's range are classed as channel data. *)
Lemma frame_class ch data msg :
  16384 <= ch < 32768 -> build_channel_data ch data = Some msg -> mux_type_for msg = TurnChannelData.
Proof.
  intros Hc E. unfold build_channel_data in E. case_decide; [done|]. injection E as <-.
  cbn [to_be_bytes app mux_type_for]. change (256 ^ Z.of_nat 1) with 256.
  assert (64 <= (ch / 256) mod 256 <= 127) as Hb.
  { assert (64 <= ch / 256 < 128) by (split; [apply Z.div_le_lower_bound|apply Z.div_lt_upper_bound]; lia).
    rewrite Z.mod_small by lia. lia. }
  destruct (Z.leb_spec 0 ((ch / 256) mod 256)), (Z.leb_spec ((ch / 256) mod 256) 3), (Z.leb_spec 16 ((ch / 256) mod 256)),
    (Z.leb_spec ((ch / 256) mod 256) 19), (Z.leb_spec 20 ((ch / 256) mod 256)), (Z.leb_spec ((ch / 256) mod 256) 63),
    (Z.leb_spec 64 ((ch / 256) mod 256)), (Z.leb_spec ((ch / 256) mod 256) 127); try lia; done.
Qed.

(** A multiplexer with all its handlers and a socket that works. *)
Definition working (relay : bool) (public : SocketAddr) : mux_setting :=
  MkMux true true true true true relay (Some public).

(** (C31) A DTLS record travels through a relay unchanged.  A node writes it to the endpoint of
    a channel; the datagram goes to the relay, whose dispatch forwards it to the other end
    of the channel as it is; there the dispatch unwraps it and hands the same record to
    DTLS, which handles it under the key of the relay and the channel; and a reply to the
    endpoint it came from goes back through the relay on that channel. *)
Theorem relayed_record_arrives (rs : relay_state) (cs : Client.client_state) ch a b relay_id rid data relay_addr pub_b :
  relay_wf rs -> ch_to_pair rs !! ch = Some (a, b) -> a <> b ->
  Client.allowed_addr_to_id cs !! relay_addr = Some rid ->
  mux_type_for data = MuxDtls -> Z.of_nat (length data) <= 65535 ->
  exists frame, let back := new_relay rid (Some relay_addr) (Some ch) in
    write true true (new_relay relay_id (Some relay_addr) (Some ch)) data = Returns (Ok (relay_addr, frame)) /\
    received (working true relay_addr) rs a frame = Returns [Forwarded b frame] /\
    received (working false pub_b) cs relay_addr frame = Returns [ToDtls back data] /\
    (forall own d, receive_packet own back data d =
       Returns (spawn (Handling back (MkKey None (Some rid) (Some ch)) data PRoute) d)) /\
    forall reply, write true true back reply = write true true (new_relay relay_id (Some relay_addr) (Some ch)) reply.
Proof.
  intros Hwf Hch Hab Hrel Hd Hlen. pose proof (wf_range _ Hwf _ _ Hch) as Hr. unfold MIN_CH, MAX_CH in Hr.
  destruct (build_channel_data ch data) as [frame|] eqn:Ef;
    [|unfold build_channel_data in Ef; case_decide; [lia|done]].
  exists frame. cbn zeta. pose proof (frame_class ch data frame ltac:(lia) Ef) as Hc.
  destruct (parse_build_channel_data ch data frame) as (Hp & Hs & _); [unfold in_width; lia|done|].
  split_and!; try done.
  - cbn. by rewrite Ef.
  - unfold received. cbn [process_packet]. rewrite Hc. cbn -[Relay.handle_turn_incoming].
    destruct (incoming_mapped rs ch a b data frame a relay_addr Hwf Hch Ef) as (ep & ->).
    rewrite decide_True by done. cbn. by rewrite bool_decide_eq_false_2.
  - unfold received. cbn [process_packet]. rewrite Hc. cbn -[process_packet Client.handle_turn_incoming].
    unfold Client.handle_turn_incoming. rewrite Hp, Hs, Hrel. cbn -[process_packet].
    assert (exists n, length frame = Datatypes.S n) as [n ->].
    { destruct frame; [done|]. by eexists. }
    cbn [process_packet]. by rewrite Hd.
Qed.

(** ** The receive loop recovers *)

(** The receiver survives the loss of its socket.  Whatever it receives, loses and fails
    to bind, the socket the writers use and that of the loop are there or gone together,
    and both are gone once the loop has ended; while it has not been told to stop, a turn
    in which binding works and a datagram of an IPv4 sender comes hands on that datagram,
    with both sockets in place; after a stop the next turn ends the loop. *)
Theorem receiver_recovers evs from data :
  data <> [] -> is_ipv4 (ip from) = true ->
  let s := run_receiver evs in
  shared_socket s = loop_socket s /\ (stopped s = true -> shared_socket s = false) /\
  (StopReceiver ∉ evs ->
     receive_turn true (RecvFrom from data) s = (MkReceiver true true true false, Some (from, data))) /\
  (StopReceiver ∈ evs -> stopped (receive_turn true (RecvFrom from data) s).1 = true).
Proof.
  intros Hd Hi s.
  assert (shared_socket s = loop_socket s /\ (stopped s = true -> shared_socket s = false) /\
          (running s = false <-> StopReceiver ∈ evs) /\ (stopped s = true -> running s = false)) as (H1 & H2 & H3 & H4).
  { unfold s, run_receiver. clear. induction evs as [|e evs IH] using rev_ind; cbn.
    - split_and!; try done. split; [done|]. by intros ?%elem_of_nil.
    - rewrite foldl_snoc, elem_of_app, list_elem_of_singleton. destruct (foldl receiver_step receiver_started evs) as [sh lo ru st].
      cbn in *. destruct IH as (-> & H2 & H3 & H4). destruct e as [rb r|]; cbn.
      + unfold receive_turn. cbn. destruct st, ru, lo, rb, r; cbn; naive_solver.
      + naive_solver. }
  split; [done|]. split; [done|]. destruct s as [sh lo ru st]. cbn in *. subst sh. unfold receive_turn. cbn. split.
  - intros Hn. assert (ru = true) as -> by (destruct ru; [done|]; by destruct Hn; apply H3).
    destruct st; [by specialize (H4 eq_refl)|]. cbn. rewrite andb_false_r, bool_decide_eq_false_2, Hi by done.
    by destruct lo.
  - intros Hn. rewrite (proj2 H3 Hn). by destruct st.
Qed.

(** ** A packet that ends the receive loop *)

Module MuxExample.
Definition relay_addr : SocketAddr := SockAddr (V4 192 0 2 1) 3478.
Definition me : SocketAddr := SockAddr (V4 192 0 2 2) 5000.
Definition peer : SocketAddr := SockAddr (V4 192 0 2 3) 5001.
Definition client : Client.client_state := Client.handle_listen_response relay_addr "R" Client.new.
Definition relay : relay_state := run_ops [OpListen "B" peer; OpCall 0 "A" "B" me peer] Relay.new.
End MuxExample.

(** Channel data within which there is a STUN packet, or channel data again, makes the client
    panic in its receive thread: it enters the dispatch again with the endpoint of the
    relay, which has no address of its own. *)
Theorem nested_packet_panics :
  received (working false MuxExample.me) MuxExample.client MuxExample.relay_addr [64; 0; 0; 1; 0; 0; 0; 0] = Panics /\
  received (working false MuxExample.me) MuxExample.client MuxExample.relay_addr [64; 0; 0; 4; 64; 0; 0; 0] = Panics.
Proof. split; reflexivity. Qed.

Lemma process_packet_fuel_witness :
  process_packet (working false MuxExample.me) MuxExample.client 100 (new_direct MuxExample.relay_addr)
    [64; 0; 0; 1; 22; 0; 0; 0]
  = Returns [ToDtls (new_relay "R" (Some MuxExample.relay_addr) (Some 16384)) [22]].
Proof. rewrite process_packet_fuel by (cbn; lia). reflexivity. Defined.

Lemma relayed_record_arrives_witness :
  exists ch frame, write true true (new_relay "R" (Some MuxExample.relay_addr) (Some ch)) [22; 1; 2] =
      Returns (Ok (MuxExample.relay_addr, frame)) /\
    received (working true MuxExample.relay_addr) MuxExample.relay MuxExample.me frame = Returns [Forwarded MuxExample.peer frame].
Proof.
  destruct (ch_to_pair MuxExample.relay !! MIN_CH) as [p|] eqn:E; [|vm_compute in E; discriminate].
  exists MIN_CH.
  destruct (relayed_record_arrives MuxExample.relay MuxExample.client MIN_CH MuxExample.me MuxExample.peer "R" "R"
    [22; 1; 2] MuxExample.relay_addr MuxExample.peer) as (frame & H1 & H2 & _).
  - apply (run_ops_wf [OpListen "B" MuxExample.peer; OpCall 0 "A" "B" MuxExample.me MuxExample.peer] _ relay_wf_new).
  - vm_compute. reflexivity.
  - discriminate.
  - vm_compute. reflexivity.
  - reflexivity.
  - cbn. lia.
  - exists frame. exact (conj H1 H2).
Defined.

Lemma receiver_recovers_witness :
  let s := run_receiver [Turn true RecvError; Turn false RecvTimeout] in
  shared_socket s = false /\
  (receive_turn true (RecvFrom MuxExample.me [22]) s).2 = Some (MuxExample.me, [22]).
Proof.
  intros s. split; [reflexivity|].
  destruct (receiver_recovers [Turn true RecvError; Turn false RecvTimeout] MuxExample.me [22]) as (_ & _ & Hr & _);
    [done|done|]. unfold s. rewrite Hr; [done|]. intros [|[|?%elem_of_nil]%elem_of_cons]%elem_of_cons; done.
Defined.
