(* ===== verification/RegistrationGroup.v ===== *)
(** * Transaction groups of a registration

    Models [src/bingle_core/src/blockchain/registration_group.rs]: the checks of the group
    of transactions that the registration service builds, and the client's signatures on
    its own ones.  Base64, MessagePack, SHA-512/256 and Ed25519 are parameters.

    The specification is the transaction each position must hold, up to the fields that
    are left free, and what a signed transaction can cost the account that signs it. *)
From S2P Require Import Prelude Envelope.

Local Open Scope Z_scope.

Definition REGISTRATION_SIGN_INDEXES : list nat := [1; 3; 4; 5]%nat.
Definition RECOVERY_SIGN_INDEXES : list nat := [0; 1; 2; 3; 5; 6; 7]%nat.
Definition RECOVERY_OLD_KEY_INDEXES : list nat := [0; 1; 2]%nat.
Definition RECOVERY_FUNDER_INDEX : nat := 4%nat.
Definition MAX_CLIENT_FEE : Z := 1000.
Definition REGISTER_METHOD : string := "register(string)void".
Definition ON_COMPLETE_OPT_IN : Z := 1.
Definition ON_COMPLETE_CLEAR_STATE : Z := 3.

Record RegistrationGroupIds : Type := MkIds { bingle_app_id : Z; bingle_asset_id : Z }.

(** Without their texts, but for the position. *)
Inductive RegistrationGroupError : Type :=
| GroupSize (actual : nat)
| SignIndexes (actual : list Z)
| Decode (index : nat)
| Template (index : nat) (expected : string) (reason : string)
| Group (index : nat).

Record RawTransaction : Type := MkRaw {
  txn_type : string;
  snd_ : list Z;
  fee : option Z;
  fv : option Z;
  lv : Z;
  genesis_id : option string;
  gh : list Z;
  grp : option (list Z);
  lx : option (list Z);
  note_ : option (list Z);
  rekey : option (list Z);
  rcv : option (list Z);
  amt : option Z;
  close : option (list Z);
  xaid : option Z;
  aamt : option Z;
  arcv : option (list Z);
  aclose : option (list Z);
  asnd : option (list Z);
  apid : option Z;
  apan : option Z;
  apaa : option (list (list Z));
  apat : option (list (list Z));
  apfa : option (list Z);
  apas : option (list Z)
}.

(** The libraries. *)
Record group_tools (SigningKey : Type) : Type := MkTools {
  base64_decode : string -> option (list Z);
  base64_encode : list Z -> string;
  group_from_slice : list Z -> option (option (list Z));
  raw_from_slice : list Z -> option RawTransaction;
  sha512_256 : list Z -> list Z;
  ed25519_sign : SigningKey -> list Z -> list Z;
  verifying_key_bytes : SigningKey -> list Z
}.
Arguments base64_decode {SigningKey} _ _.
Arguments base64_encode {SigningKey} _ _.
Arguments group_from_slice {SigningKey} _ _.
Arguments raw_from_slice {SigningKey} _ _.
Arguments sha512_256 {SigningKey} _ _.
Arguments ed25519_sign {SigningKey} _ _ _.
Arguments verifying_key_bytes {SigningKey} _ _.

Section Checks.
Context {SigningKey : Type} (T : group_tools SigningKey) (ids : RegistrationGroupIds).

Abbreviation check A := (result A RegistrationGroupError).

(** ** The group *)

Definition check_size (transactions : list string) (allowed : list nat) : check unit :=
  if bool_decide (length transactions ∈ allowed) then Ok tt else Err (GroupSize (length transactions)).

Definition check_sign_indexes (sign_indexes : list Z) (expected : list nat) : check unit :=
  if bool_decide (sign_indexes = Z.of_nat <$> expected) then Ok tt else Err (SignIndexes sign_indexes).

(** From position [index] on, with the group id of the first. *)
Fixpoint decode_from (index : nat) (group_id : option (list Z)) (transactions : list string) : check (list (list Z)) :=
  match transactions with
  | [] => Ok []
  | encoded :: rest =>
      match base64_decode T encoded with
      | None => Err (Decode index)
      | Some bytes =>
          match group_from_slice T bytes with
          | None => Err (Decode index)
          | Some None => Err (Group index)
          | Some (Some g) =>
              match group_id with
              | Some first =>
                  if decide (first = g)
                  then let? group := decode_from (S index) group_id rest in Ok (bytes :: group)
                  else Err (Group index)
              | None => let? group := decode_from (S index) (Some g) rest in Ok (bytes :: group)
              end
          end
      end
  end.

Definition decode_group (transactions : list string) : check (list (list Z)) := decode_from 0 None transactions.

Definition decode (index : nat) (bytes : list Z) : check RawTransaction := ok_or (raw_from_slice T bytes) (Decode index).

(** ** One transaction *)

Definition is_present {A} (o : option A) : bool := match o with Some _ => true | None => false end.

(** The names of the fields that must not be there, with whether they are. *)
Definition only_fields (index : nat) (what : string) (fields : list (string * bool)) : check unit :=
  match List.find (fun f => f.2) fields with
  | Some (name, _) => Err (Template index what ("it has a " +:+ name +:+ " field"))
  | None => Ok tt
  end.

Definition no_app_fields (index : nat) (what : string) (t : RawTransaction) : check unit :=
  only_fields index what
    [("apid", is_present (apid t)); ("apan", is_present (apan t)); ("apaa", is_present (apaa t));
     ("apat", is_present (apat t)); ("apfa", is_present (apfa t)); ("apas", is_present (apas t))].

Definition refuse_if (b : bool) (index : nat) (what reason : string) : check unit :=
  if b then Err (Template index what reason) else Ok tt.

(** The bytes at an index the size check has made sure of. *)
Definition bytes_at (group : list (list Z)) (index : nat) : list Z := default [] (group !! index).

Definition check_client_basics (group : list (list Z)) (index : nat) (sender : list Z) : check RawTransaction :=
  let? t := decode index (bytes_at group index) in
  let what := "client transaction" in
  let? _ := refuse_if (negb (bool_decide (snd_ t = sender))) index what "the sender is not this account" in
  let? _ := refuse_if (MAX_CLIENT_FEE <? default 0 (fee t)) index what "the fee is too high" in
  let? _ := refuse_if (is_present (rekey t)) index what "it rekeys the account" in
  let? _ := refuse_if (is_present (note_ t)) index what "it has a note" in
  let? _ := refuse_if (is_present (lx t)) index what "it has a lease" in
  Ok t.

Definition check_asset_transfer (index : nat) (t : RawTransaction) (receiver : list Z) (amount : Z)
    (close_to : option (list Z)) : check unit :=
  let what := "Bingle$ transfer" in
  let? _ := refuse_if (negb (bool_decide (txn_type t = "axfer"))) index what "its type" in
  let? _ := only_fields index what
              [("rcv", is_present (rcv t)); ("amt", is_present (amt t)); ("close", is_present (close t));
               ("asnd", is_present (asnd t))] in
  let? _ := no_app_fields index what t in
  let? _ := refuse_if (negb (bool_decide (xaid t = Some (bingle_asset_id ids)))) index what "the asset" in
  let? _ := refuse_if (negb (bool_decide (arcv t = Some receiver))) index what "the receiver is unexpected" in
  let? _ := refuse_if (negb (default 0 (aamt t) =? amount)) index what "the amount" in
  refuse_if (negb (bool_decide (aclose t = close_to))) index what "the close-to address is unexpected".

Definition check_asset_opt_in (index : nat) (t : RawTransaction) : check unit :=
  check_asset_transfer index t (snd_ t) 0 None.

Definition check_payment_close (index : nat) (t : RawTransaction) (receiver : list Z) : check unit :=
  let what := "account close" in
  let? _ := refuse_if (negb (bool_decide (txn_type t = "pay"))) index what "its type" in
  let? _ := only_fields index what
              [("xaid", is_present (xaid t)); ("aamt", is_present (aamt t)); ("arcv", is_present (arcv t));
               ("aclose", is_present (aclose t)); ("asnd", is_present (asnd t))] in
  let? _ := no_app_fields index what t in
  let? _ := refuse_if (negb (bool_decide (rcv t = Some receiver))) index what "the receiver is not the new address" in
  let? _ := refuse_if (negb (default 0 (amt t) =? 0)) index what "the amount is not 0" in
  refuse_if (negb (bool_decide (close t = Some receiver))) index what "it doesn't close to the new address".

(** The arguments of [register(handle)]: a handle too long gets the largest length. *)
Definition register_args (handle : string) : list (list Z) :=
  let bytes := as_bytes handle in
  [take 4 (sha512_256 T (as_bytes REGISTER_METHOD));
   to_be_bytes 2 (Z.min (Z.of_nat (length bytes)) u16_max) ++ bytes].

Definition check_app_call (index : nat) (t : RawTransaction) (on_complete : option Z) (register_handle : option string)
  : check unit :=
  let what := match on_complete with
              | Some 1 => "Bingle DApp opt-in"
              | Some 3 => "Bingle DApp ClearState"
              | _ => "Bingle DApp register(handle)"
              end in
  let? _ := refuse_if (negb (bool_decide (txn_type t = "appl"))) index what "its type" in
  let? _ := only_fields index what
              [("rcv", is_present (rcv t)); ("amt", is_present (amt t)); ("close", is_present (close t));
               ("xaid", is_present (xaid t)); ("aamt", is_present (aamt t)); ("arcv", is_present (arcv t));
               ("aclose", is_present (aclose t)); ("asnd", is_present (asnd t)); ("apat", is_present (apat t));
               ("apfa", is_present (apfa t))] in
  let? _ := refuse_if (negb (bool_decide (apid t = Some (bingle_app_id ids)))) index what "the app" in
  let? _ := refuse_if (negb (bool_decide (apan t = on_complete))) index what "its on-complete" in
  match register_handle with
  | None => only_fields index what [("apaa", is_present (apaa t)); ("apas", is_present (apas t))]
  | Some handle =>
      let? _ := refuse_if (negb (bool_decide (apaa t = Some (register_args handle)))) index what
                  "the arguments are not register with this handle" in
      refuse_if (negb (bool_decide (apas t = Some [bingle_asset_id ids]))) index what
        "the foreign assets are not Bingle$ alone"
  end.

(** ** Signing *)

Definition app_address (app_id : Z) : list Z := sha512_256 T (as_bytes "appID" ++ to_be_bytes 8 app_id).

Definition sign (bytes : list Z) (key : SigningKey) : string :=
  let signature := ed25519_sign T key (as_bytes "TX" ++ bytes) in
  base64_encode T ([130] ++ [163; 115; 105; 103; 196; 64] ++ signature ++ [163; 116; 120; 110] ++ bytes).

Definition sign_registration_group (transactions : list string) (sign_indexes : list Z) (handle : string)
    (key : SigningKey) : check (list string) :=
  let? _ := check_size transactions [7; 8]%nat in
  let? _ := check_sign_indexes sign_indexes REGISTRATION_SIGN_INDEXES in
  let? group := decode_group transactions in
  let address := verifying_key_bytes T key in
  let? opt_in := check_client_basics group 1 address in
  let? _ := check_asset_opt_in 1 opt_in in
  let? app_opt_in := check_client_basics group 3 address in
  let? _ := check_app_call 3 app_opt_in (Some ON_COMPLETE_OPT_IN) None in
  let? payment := check_client_basics group 4 address in
  let? _ := check_asset_transfer 4 payment (app_address (bingle_app_id ids)) 1 None in
  let? register := check_client_basics group 5 address in
  let? _ := check_app_call 5 register None (Some handle) in
  Ok ((fun index => sign (bytes_at group index) key) <$> REGISTRATION_SIGN_INDEXES).

Definition sign_recovery_group (transactions : list string) (sign_indexes : list Z) (handle : string)
    (old_key new_key : SigningKey) : check (list string) :=
  let? _ := check_size transactions [9; 10]%nat in
  let? _ := check_sign_indexes sign_indexes RECOVERY_SIGN_INDEXES in
  let? group := decode_group transactions in
  let old := verifying_key_bytes T old_key in
  let new := verifying_key_bytes T new_key in
  let? _ := refuse_if (bool_decide (old = new)) RECOVERY_FUNDER_INDEX "recovery group"
              "the old and new keys are the same" in
  let? funder_txn := decode RECOVERY_FUNDER_INDEX (bytes_at group RECOVERY_FUNDER_INDEX) in
  let funder := snd_ funder_txn in
  let? _ := refuse_if (bool_decide (funder = old) || bool_decide (funder = new)) RECOVERY_FUNDER_INDEX
              "funder transfer" "the funder is one of the client's own addresses" in
  let? _ := check_asset_transfer RECOVERY_FUNDER_INDEX funder_txn new 1 None in
  let? clear_state := check_client_basics group 0 old in
  let? _ := check_app_call 0 clear_state (Some ON_COMPLETE_CLEAR_STATE) None in
  let? close_out := check_client_basics group 1 old in
  let? _ := check_asset_transfer 1 close_out funder 0 (Some funder) in
  let? close := check_client_basics group 2 old in
  let? _ := check_payment_close 2 close new in
  let? opt_in := check_client_basics group 3 new in
  let? _ := check_asset_opt_in 3 opt_in in
  let? app_opt_in := check_client_basics group 5 new in
  let? _ := check_app_call 5 app_opt_in (Some ON_COMPLETE_OPT_IN) None in
  let? payment := check_client_basics group 6 new in
  let? _ := check_asset_transfer 6 payment (app_address (bingle_app_id ids)) 1 None in
  let? register := check_client_basics group 7 new in
  let? _ := check_app_call 7 register None (Some handle) in
  Ok ((fun index =>
         sign (bytes_at group index) (if decide (index ∈ RECOVERY_OLD_KEY_INDEXES) then old_key else new_key))
        <$> RECOVERY_SIGN_INDEXES).
End Checks.

(** ** What each check accepts *)

Section Spec.
Context {SigningKey : Type} (T : group_tools SigningKey) (ids : RegistrationGroupIds).

Definition no_call (t : RawTransaction) : Prop :=
  apid t = None /\ apan t = None /\ apaa t = None /\ apat t = None /\ apfa t = None /\ apas t = None.
Definition no_payment (t : RawTransaction) : Prop := rcv t = None /\ amt t = None /\ close t = None.
Definition no_transfer (t : RawTransaction) : Prop := xaid t = None /\ aamt t = None /\ arcv t = None /\ aclose t = None.

(** A transaction of this account that costs at most the fee beyond what it says. *)
Record modest (sender : list Z) (t : RawTransaction) : Prop := {
  mo_sender : snd_ t = sender;
  mo_fee : default 0 (fee t) <= MAX_CLIENT_FEE;
  mo_rekey : rekey t = None;
  mo_note : note_ t = None;
  mo_lease : lx t = None
}.

(** The three templates. *)
Definition is_transfer (receiver : list Z) (amount : Z) (close_to : option (list Z)) (t : RawTransaction) : Prop :=
  txn_type t = "axfer"%string /\ xaid t = Some (bingle_asset_id ids) /\ arcv t = Some receiver /\
  default 0 (aamt t) = amount /\ aclose t = close_to /\ asnd t = None /\ no_payment t /\ no_call t.
Definition is_close (receiver : list Z) (t : RawTransaction) : Prop :=
  txn_type t = "pay"%string /\ rcv t = Some receiver /\ default 0 (amt t) = 0 /\ close t = Some receiver /\
  asnd t = None /\ no_transfer t /\ no_call t.
Definition is_call (on_complete : option Z) (args : option (list (list Z))) (assets : option (list Z)) (t : RawTransaction)
  : Prop :=
  txn_type t = "appl"%string /\ apid t = Some (bingle_app_id ids) /\ apan t = on_complete /\ apaa t = args /\
  apas t = assets /\ apat t = None /\ apfa t = None /\ asnd t = None /\ no_payment t /\ no_transfer t.

Lemma bind_ok {A B E} (r : result A E) (k : A -> result B E) b :
  result_bind r k = Ok b <-> exists a, r = Ok a /\ k a = Ok b.
Proof using. destruct r; cbn; naive_solver. Qed.

Lemma refuse_ok b index what reason u : refuse_if b index what reason = Ok u <-> b = false.
Proof using. destruct b, u; cbn; naive_solver. Qed.

Lemma present_false {A} (o : option A) : is_present o = false <-> o = None.
Proof using. by destruct o. Qed.

Lemma only_fields_ok index what fields u :
  only_fields index what fields = Ok u <-> Forall (fun f => f.2 = false) fields.
Proof using.
  unfold only_fields. destruct u. induction fields as [|[n b] fields IH]; cbn; [by rewrite Forall_nil|].
  rewrite Forall_cons. destruct b; cbn; [naive_solver|]. rewrite IH. naive_solver.
Qed.

Lemma no_app_ok index what t u : no_app_fields index what t = Ok u <-> no_call t.
Proof using.
  unfold no_app_fields. rewrite only_fields_ok, !Forall_cons, Forall_nil. cbn. rewrite !present_false. unfold no_call. tauto.
Qed.

Lemma not_decide_ok P `{Decision P} : negb (bool_decide P) = false <-> P.
Proof using. destruct (decide P); [rewrite bool_decide_eq_true_2 by done|rewrite bool_decide_eq_false_2 by done]; done. Qed.

Lemma basics_ok group index sender t :
  check_client_basics T group index sender = Ok t <->
  raw_from_slice T (bytes_at group index) = Some t /\ modest sender t.
Proof using.
  unfold check_client_basics, decode. rewrite bind_ok. split.
  - intros (t' & Hd & H). destruct (raw_from_slice T (bytes_at group index)); [|done]. injection Hd as ->.
    repeat (apply bind_ok in H as ([] & ?%refuse_ok & H)). injection H as <-. rewrite not_decide_ok, ?present_false in *.
    split; [done|]. split; try done. by apply Z.ltb_ge.
  - intros [-> [Hs Hf Hr Hn Hl]]. exists t. split; [done|]. rewrite Hs, Hr, Hn, Hl, bool_decide_eq_true_2 by done. cbn.
    by rewrite (proj2 (Z.ltb_ge _ _) Hf).
Qed.

Lemma transfer_ok index t receiver amount close_to u :
  check_asset_transfer ids index t receiver amount close_to = Ok u <-> is_transfer receiver amount close_to t.
Proof using.
  unfold check_asset_transfer, is_transfer, no_payment. rewrite !bind_ok. setoid_rewrite bind_ok. split.
  - intros ([] & H1 & [] & H2 & H). repeat (apply bind_ok in H as ([] & ? & H)).
    rewrite refuse_ok, ?no_app_ok, ?not_decide_ok, ?negb_false_iff, ?Z.eqb_eq in *.
    rewrite only_fields_ok, !Forall_cons in H2. cbn in H2. rewrite !present_false in H2. tauto.
  - intros (H1 & H2 & H3 & H4 & H5 & H6 & (H7 & H8 & H9) & H10). exists tt. split; [apply refuse_ok; by rewrite not_decide_ok|].
    exists tt. split; [apply only_fields_ok; by rewrite H6, H7, H8, H9, !Forall_cons, Forall_nil|].
    rewrite bind_ok. exists tt. split; [by apply no_app_ok|]. rewrite H2, H3, H5, !bool_decide_eq_true_2 by done.
    rewrite (proj2 (Z.eqb_eq _ _) H4). cbn. by destruct u.
Qed.

Lemma payment_close_ok index t receiver u : check_payment_close index t receiver = Ok u <-> is_close receiver t.
Proof using.
  unfold check_payment_close, is_close, no_transfer. rewrite !bind_ok. setoid_rewrite bind_ok. split.
  - intros ([] & H1 & [] & H2 & H). repeat (apply bind_ok in H as ([] & ? & H)).
    rewrite refuse_ok, ?no_app_ok, ?not_decide_ok, ?negb_false_iff, ?Z.eqb_eq in *.
    rewrite only_fields_ok, !Forall_cons in H2. cbn in H2. rewrite !present_false in H2. tauto.
  - intros (H1 & H2 & H3 & H4 & H5 & (H6 & H7 & H8 & H9) & H10). exists tt. split; [apply refuse_ok; by rewrite not_decide_ok|].
    exists tt. split; [apply only_fields_ok; by rewrite H5, H6, H7, H8, H9, !Forall_cons, Forall_nil|].
    rewrite bind_ok. exists tt. split; [by apply no_app_ok|]. rewrite H2, H4, !bool_decide_eq_true_2 by done.
    rewrite (proj2 (Z.eqb_eq _ _) H3). cbn. by destruct u.
Qed.

(** The arguments and assets a call may carry. *)
Definition call_args (handle : option string) : option (list (list Z)) := register_args T <$> handle.
Definition call_assets (handle : option string) : option (list Z) :=
  match handle with Some _ => Some [bingle_asset_id ids] | None => None end.

Lemma app_call_ok index t on_complete handle u :
  check_app_call T ids index t on_complete handle = Ok u <-> is_call on_complete (call_args handle) (call_assets handle) t.
Proof using.
  unfold check_app_call, is_call, no_payment, no_transfer. rewrite !bind_ok. setoid_rewrite bind_ok. split.
  - intros ([] & H1 & [] & H2 & H). apply bind_ok in H as ([] & H3 & H). apply bind_ok in H as ([] & H4 & H).
    rewrite refuse_ok, not_decide_ok in *. rewrite only_fields_ok, !Forall_cons in H2. cbn in H2. rewrite !present_false in H2.
    destruct handle as [handle|]; cbn.
    + apply bind_ok in H as ([] & H5 & H). rewrite refuse_ok, not_decide_ok in *. tauto.
    + rewrite only_fields_ok, !Forall_cons in H. cbn in H. rewrite !present_false in H. tauto.
  - intros (H1 & H2 & H3 & H4 & H5 & H6 & H7 & H8 & (H9 & H10 & H11) & H12 & H13 & H14 & H15). exists tt.
    split; [apply refuse_ok; by rewrite not_decide_ok|]. exists tt.
    split; [apply only_fields_ok; by rewrite H6, H7, H8, H9, H10, H11, H12, H13, H14, H15, !Forall_cons, Forall_nil|].
    rewrite H2, H3, H4, H5, !bool_decide_eq_true_2 by done. destruct u, handle; cbn; [|done].
    by rewrite !bool_decide_eq_true_2.
Qed.

(** The group as bytes: every member decodes and carries the group id. *)
Definition grouped (transactions : list string) (group : list (list Z)) : Prop :=
  exists g, Forall2 (fun encoded bytes =>
    base64_decode T encoded = Some bytes /\ group_from_slice T bytes = Some (Some g)) transactions group.

Lemma decode_from_ok transactions : forall index g group,
  decode_from T index (Some g) transactions = Ok group <->
  Forall2 (fun encoded bytes => base64_decode T encoded = Some bytes /\ group_from_slice T bytes = Some (Some g))
    transactions group.
Proof using.
  induction transactions as [|encoded rest IH]; intros index g group; cbn [decode_from].
  - split; [by intros [= <-]|]. by intros ->%Forall2_nil_inv_l.
  - split.
    + intros H. destruct (base64_decode T encoded) as [bytes|] eqn:Eb; [|done].
      destruct (group_from_slice T bytes) as [[g'|]|] eqn:Eg; try done. destruct (decide (g = g')) as [->|]; [|done].
      apply bind_ok in H as (group' & H%IH & [= <-]). by constructor.
    + intros (bytes & group' & [Eb Eg] & H & ->)%Forall2_cons_inv_l. rewrite Eb, Eg, decide_True by done.
      apply bind_ok. exists group'. split; [by apply IH|done].
Qed.

Lemma decode_group_ok transactions group :
  transactions <> [] -> decode_group T transactions = Ok group <-> grouped transactions group.
Proof using.
  intros Hne. destruct transactions as [|encoded rest]; [done|]. unfold decode_group, grouped. cbn [decode_from]. split.
  - intros H. destruct (base64_decode T encoded) as [bytes|] eqn:Eb; [|done].
    destruct (group_from_slice T bytes) as [[g|]|] eqn:Eg; try done.
    apply bind_ok in H as (group' & H%decode_from_ok & [= <-]). exists g. by constructor.
  - intros (g & H). apply Forall2_cons_inv_l in H as (bytes & group' & [Eb Eg] & H & ->).
    rewrite Eb, Eg. apply bind_ok. exists group'. split; [by apply decode_from_ok|done].
Qed.

Lemma size_ok transactions allowed u : check_size transactions allowed = Ok u <-> length transactions ∈ allowed.
Proof using. destruct u. unfold check_size. case_bool_decide; naive_solver. Qed.

Lemma indexes_ok sign_indexes expected u :
  check_sign_indexes sign_indexes expected = Ok u <-> sign_indexes = Z.of_nat <$> expected.
Proof using. destruct u. unfold check_sign_indexes. case_bool_decide; naive_solver. Qed.

(** The transaction at a position, of this sender and of this form. *)
Definition holds_at (group : list (list Z)) (index : nat) (sender : list Z) (form : RawTransaction -> Prop) : Prop :=
  exists t, raw_from_slice T (bytes_at group index) = Some t /\ modest sender t /\ form t.

(** A check of the basics followed by that of the form. *)
Lemma holds_at_ok {B} group index sender (form : RawTransaction -> Prop)
    (chk : RawTransaction -> result unit RegistrationGroupError) (k : result B RegistrationGroupError) b :
  (forall t, modest sender t -> forall u, chk t = Ok u <-> form t) ->
  (let? t := check_client_basics T group index sender in let? _ := chk t in k) = Ok b <->
  holds_at group index sender form /\ k = Ok b.
Proof using.
  intros Hc. rewrite bind_ok. split.
  - intros (t & [Hr Hm]%basics_ok & H). apply bind_ok in H as (u & H%(Hc t Hm) & Hk). split; [by exists t|done].
  - intros [(t & Hr & Hm & Hf) Hk]. exists t. split; [by apply basics_ok|]. apply bind_ok. exists tt.
    split; [by apply (Hc t Hm)|done].
Qed.

Lemma opt_in_ok index sender t : modest sender t -> forall u,
  check_asset_opt_in ids index t = Ok u <-> is_transfer sender 0 None t.
Proof using. intros Hm u. unfold check_asset_opt_in. by rewrite transfer_ok, (mo_sender _ _ Hm). Qed.

(** (C34) The client signs a registration group exactly when it is the registration it asked
    for.  The signatures come out if and only if the group has seven or eight members that
    decode and share a group id, the positions to sign are those of the template, and the
    four transactions of the client, all of this account and within the fee, are: the
    opt-in to Bingle$, the opt-in to the Bingle DApp, one Bingle$ to the DApp's own
    address, and the call [register] with this handle and nothing else; and then it is
    those four, byte for byte, that are signed, with this key. *)
Theorem registration_group_exact transactions sign_indexes handle key l :
  let me := verifying_key_bytes T key in
  sign_registration_group T ids transactions sign_indexes handle key = Ok l <->
  length transactions ∈ [7; 8]%nat /\ sign_indexes = [1; 3; 4; 5] /\
  exists group, grouped transactions group /\
    holds_at group 1 me (is_transfer me 0 None) /\
    holds_at group 3 me (is_call (Some ON_COMPLETE_OPT_IN) None None) /\
    holds_at group 4 me (is_transfer (app_address T (bingle_app_id ids)) 1 None) /\
    holds_at group 5 me (is_call None (Some (register_args T handle)) (Some [bingle_asset_id ids])) /\
    l = (fun index => sign T (bytes_at group index) key) <$> [1; 3; 4; 5]%nat.
Proof using.
  intros me. unfold sign_registration_group. rewrite bind_ok. setoid_rewrite bind_ok. setoid_rewrite bind_ok.
  setoid_rewrite size_ok. setoid_rewrite indexes_ok.
  assert (forall group, (let? opt_in := check_client_basics T group 1 me in
      let? _ := check_asset_opt_in ids 1 opt_in in
      let? app_opt_in := check_client_basics T group 3 me in
      let? _ := check_app_call T ids 3 app_opt_in (Some ON_COMPLETE_OPT_IN) None in
      let? payment := check_client_basics T group 4 me in
      let? _ := check_asset_transfer ids 4 payment (app_address T (bingle_app_id ids)) 1 None in
      let? register := check_client_basics T group 5 me in
      let? _ := check_app_call T ids 5 register None (Some handle) in
      Ok ((fun index => sign T (bytes_at group index) key) <$> REGISTRATION_SIGN_INDEXES)) = Ok l <->
    holds_at group 1 me (is_transfer me 0 None) /\
    holds_at group 3 me (is_call (Some ON_COMPLETE_OPT_IN) None None) /\
    holds_at group 4 me (is_transfer (app_address T (bingle_app_id ids)) 1 None) /\
    holds_at group 5 me (is_call None (Some (register_args T handle)) (Some [bingle_asset_id ids])) /\
    l = (fun index => sign T (bytes_at group index) key) <$> [1; 3; 4; 5]%nat) as Hchain.
  { intros group. rewrite (holds_at_ok _ _ _ _ _ _ _ (opt_in_ok 1 me)).
    rewrite (holds_at_ok _ _ _ _ _ _ _ (fun t _ u => app_call_ok 3 t (Some ON_COMPLETE_OPT_IN) None u)).
    rewrite (holds_at_ok _ _ _ _ _ _ _ (fun t _ u => transfer_ok 4 t _ 1 None u)).
    rewrite (holds_at_ok _ _ _ _ _ _ _ (fun t _ u => app_call_ok 5 t None (Some handle) u)).
    unfold REGISTRATION_SIGN_INDEXES, call_args, call_assets. cbn [fmap option_fmap option_map].
    split; [intros (? & ? & ? & ? & [= <-])|intros (? & ? & ? & ? & ->)]; done. }
  fold me. split.
  - intros (_ & Hs & _ & Hi & group & Hg & H%Hchain). split; [done|]. split; [exact Hi|]. exists group. split; [|exact H].
    apply decode_group_ok; [|done]. intros ->. cbn in Hs. by repeat (apply elem_of_cons in Hs as [?|Hs]); [..|apply elem_of_nil in Hs].
  - intros (Hs & Hi & group & Hg & H). exists tt. split; [done|]. exists tt. split; [exact Hi|]. exists group.
    split; [|by apply Hchain]. apply decode_group_ok; [|done]. intros ->. cbn in Hs.
    by repeat (apply elem_of_cons in Hs as [?|Hs]); [..|apply elem_of_nil in Hs].
Qed.

(** ** What a signature can cost *)

(** What the transactions of an account may take from it, by Algorand's rules for their
    types: microAlgos, transfers of assets, accounts and assets closed to others, the
    right to sign, and calls of applications with their completion and arguments. *)
Record bill : Type := MkBill {
  algos : Z;
  asset_transfers : list (Z * Z * list Z);
  account_closes : list (list Z);
  asset_closes : list (Z * list Z);
  rekeys : list (list Z);
  calls : list (Z * Z * list (list Z))
}.

Definition no_bill : bill := MkBill 0 [] [] [] [] [].

Definition bill_app (a b : bill) : bill :=
  MkBill (algos a + algos b) (asset_transfers a ++ asset_transfers b) (account_closes a ++ account_closes b)
    (asset_closes a ++ asset_closes b) (rekeys a ++ rekeys b) (calls a ++ calls b).

Definition bill_of (t : RawTransaction) : bill :=
  let ty := txn_type t in
  let pay := String.eqb ty "pay" in
  let axfer := String.eqb ty "axfer" in
  let asset := default 0 (xaid t) in
  MkBill (default 0 (fee t) + (if pay then default 0 (amt t) else 0))
    (if axfer && (0 <? default 0 (aamt t)) then [(asset, default 0 (aamt t), default [] (arcv t))] else [])
    (if pay then option_list (close t) else [])
    (if axfer then (fun c => (asset, c)) <$> option_list (aclose t) else [])
    (option_list (rekey t))
    (if String.eqb ty "appl" then [(default 0 (apid t), default 0 (apan t), default [] (apaa t))] else []).

Definition bill_all (ts : list RawTransaction) : bill := foldr (fun t b => bill_app (bill_of t) b) no_bill ts.

(** The transactions at these positions were signed with this key, which is that of their
    sender. *)
Definition signed_at (group : list (list Z)) (key : SigningKey) (l : list string) (indexes : list nat)
    (ts : list RawTransaction) : Prop :=
  Forall2 (fun index t => raw_from_slice T (bytes_at group index) = Some t /\ snd_ t = verifying_key_bytes T key /\
    sign T (bytes_at group index) key ∈ l) indexes ts.

(** The bill of a transaction of each form, but for the fee. *)
Lemma bill_transfer sender receiver amount close_to t :
  0 <= amount -> modest sender t -> is_transfer receiver amount close_to t ->
  algos (bill_of t) <= MAX_CLIENT_FEE /\
  bill_of t = MkBill (algos (bill_of t)) (if 0 <? amount then [(bingle_asset_id ids, amount, receiver)] else []) []
                ((fun c => (bingle_asset_id ids, c)) <$> option_list close_to) [] [].
Proof using.
  intros Ha [_ Hf Hr _ _] (Ht & Hx & Hv & <- & <- & _). unfold bill_of. rewrite Ht, Hx, Hv, Hr. unfold MAX_CLIENT_FEE in *. cbn. split; [lia|done].
Qed.

Lemma bill_close sender receiver t :
  modest sender t -> is_close receiver t ->
  algos (bill_of t) <= MAX_CLIENT_FEE /\ bill_of t = MkBill (algos (bill_of t)) [] [receiver] [] [] [].
Proof using.
  intros [_ Hf Hr _ _] (Ht & _ & Hm & Hc & _). unfold bill_of. rewrite Ht, Hm, Hr, Hc. unfold MAX_CLIENT_FEE in *. cbn. split; [lia|done].
Qed.

Lemma bill_call sender oc args assets t :
  modest sender t -> is_call oc args assets t ->
  algos (bill_of t) <= MAX_CLIENT_FEE /\
  bill_of t = MkBill (algos (bill_of t)) [] [] [] [] [(bingle_app_id ids, default 0 oc, default [] args)].
Proof using.
  intros [_ Hf Hr _ _] (Ht & Hx & Ho & Ha & _). unfold bill_of. rewrite Ht, Hx, Ho, Ha, Hr. unfold MAX_CLIENT_FEE in *. cbn. split; [lia|done].
Qed.

(** The four transactions of a new account, in the order of the group. *)
Definition registration_bill (n : Z) (handle : string) : bill :=
  MkBill n [(bingle_asset_id ids, 1, app_address T (bingle_app_id ids))] [] [] []
    [(bingle_app_id ids, ON_COMPLETE_OPT_IN, []); (bingle_app_id ids, 0, register_args T handle)].

Lemma registration_bill_of me handle t1 t3 t4 t5 :
  modest me t1 -> is_transfer me 0 None t1 -> modest me t3 -> is_call (Some ON_COMPLETE_OPT_IN) None None t3 ->
  modest me t4 -> is_transfer (app_address T (bingle_app_id ids)) 1 None t4 ->
  modest me t5 -> is_call None (Some (register_args T handle)) (Some [bingle_asset_id ids]) t5 ->
  let b := bill_all [t1; t3; t4; t5] in algos b <= 4 * MAX_CLIENT_FEE /\ b = registration_bill (algos b) handle.
Proof using.
  intros M1 F1 M3 F3 M4 F4 M5 F5 b.
  destruct (bill_transfer _ _ _ _ _ (Z.le_refl 0) M1 F1) as [A1 B1]. destruct (bill_call _ _ _ _ _ M3 F3) as [A3 B3].
  destruct (bill_transfer _ _ _ _ _ Z.le_0_1 M4 F4) as [A4 B4]. destruct (bill_call _ _ _ _ _ M5 F5) as [A5 B5].
  unfold b. cbn [bill_all foldr]. split; [unfold MAX_CLIENT_FEE in *; cbn [algos bill_app no_bill]; lia|].
  rewrite B1, B3, B4, B5. done.
Qed.

(** (C12) Signing a registration costs one Bingle$ and the fees.  Whatever group the service
    sends, if signatures come out they are on four transactions of this account that
    together take at most four times the network's fee in Algos, one Bingle$, which goes
    to the address of the Bingle DApp, close nothing, leave the right to sign with the
    account, and call nothing but that DApp, to opt in and to register this handle. *)
Theorem registration_costs transactions sign_indexes handle key l :
  sign_registration_group T ids transactions sign_indexes handle key = Ok l ->
  exists group ts, grouped transactions group /\ signed_at group key l [1; 3; 4; 5]%nat ts /\ length l = length ts /\
    algos (bill_all ts) <= 4 * MAX_CLIENT_FEE /\ bill_all ts = registration_bill (algos (bill_all ts)) handle.
Proof using.
  unfold sign_registration_group. intros H. apply bind_ok in H as (_ & Hs%size_ok & H).
  apply bind_ok in H as (_ & _ & H). apply bind_ok in H as (group & Hg & H).
  apply decode_group_ok in Hg; [|by intros ->; repeat (apply elem_of_cons in Hs as [?|Hs]); [..|apply elem_of_nil in Hs]].
  apply (holds_at_ok _ _ _ _ _ _ _ (opt_in_ok 1 _)) in H as [(t1 & R1 & M1 & F1) H].
  apply (holds_at_ok _ _ _ _ _ _ _ (fun t _ u => app_call_ok 3 t _ None u)) in H as [(t3 & R3 & M3 & F3) H].
  apply (holds_at_ok _ _ _ _ _ _ _ (fun t _ u => transfer_ok 4 t _ 1 None u)) in H as [(t4 & R4 & M4 & F4) H].
  apply (holds_at_ok _ _ _ _ _ _ _ (fun t _ u => app_call_ok 5 t None (Some handle) u)) in H as [(t5 & R5 & M5 & F5) H].
  injection H as <-. exists group, [t1; t3; t4; t5]. split; [done|]. split; [|split; [done|by eapply registration_bill_of]].
  repeat constructor; try done; try apply mo_sender; try done; set_solver.
Qed.

(** The three transactions by which the old account leaves. *)
Definition leaving_bill (n : Z) (funder new : list Z) : bill :=
  MkBill n [] [new] [(bingle_asset_id ids, funder)] [] [(bingle_app_id ids, ON_COMPLETE_CLEAR_STATE, [])].

(** Signing a recovery moves the old account to the new one and no further.  If
    signatures come out, the old account signs three transactions: all its Algos close to
    the new account, its Bingle$ to the account that in this same group sends the new
    account one Bingle$ and is neither of the client's own, and it clears its state at the
    Bingle DApp; the new account signs the four of a registration with this handle, at
    their cost; the fees are within the network's, and neither account is rekeyed. *)
Theorem recovery_costs transactions sign_indexes handle old_key new_key l :
  let old := verifying_key_bytes T old_key in
  let new := verifying_key_bytes T new_key in
  sign_recovery_group T ids transactions sign_indexes handle old_key new_key = Ok l ->
  exists group olds news funding, grouped transactions group /\ old <> new /\
    raw_from_slice T (bytes_at group RECOVERY_FUNDER_INDEX) = Some funding /\ is_transfer new 1 None funding /\
    snd_ funding <> old /\ snd_ funding <> new /\
    signed_at group old_key l [0; 1; 2]%nat olds /\ signed_at group new_key l [3; 5; 6; 7]%nat news /\
    length l = (length olds + length news)%nat /\
    algos (bill_all olds) <= 3 * MAX_CLIENT_FEE /\
    bill_all olds = leaving_bill (algos (bill_all olds)) (snd_ funding) new /\
    algos (bill_all news) <= 4 * MAX_CLIENT_FEE /\
    bill_all news = registration_bill (algos (bill_all news)) handle.
Proof using.
  intros old new H. unfold sign_recovery_group in H. fold old new in H. apply bind_ok in H as (_ & Hs%size_ok & H).
  apply bind_ok in H as (_ & _ & H). apply bind_ok in H as (group & Hg & H).
  apply decode_group_ok in Hg; [|by intros ->; repeat (apply elem_of_cons in Hs as [?|Hs]); [..|apply elem_of_nil in Hs]].
  apply bind_ok in H as (_ & Hon%refuse_ok%bool_decide_eq_false & H). apply bind_ok in H as (tf & Rf & H).
  apply bind_ok in H as (_ & [Hfo%bool_decide_eq_false Hfn%bool_decide_eq_false]%refuse_ok%orb_false_iff & H).
  apply bind_ok in H as (_ & Ff%transfer_ok & H).
  apply (holds_at_ok _ _ _ _ _ _ _ (fun t _ u => app_call_ok 0 t _ None u)) in H as [(t0 & R0 & M0 & F0) H].
  apply (holds_at_ok _ _ _ _ _ _ _ (fun t _ u => transfer_ok 1 t _ 0 _ u)) in H as [(t1 & R1 & M1 & F1) H].
  apply (holds_at_ok _ _ _ _ _ _ _ (fun t _ u => payment_close_ok 2 t _ u)) in H as [(t2 & R2 & M2 & F2) H].
  apply (holds_at_ok _ _ _ _ _ _ _ (opt_in_ok 3 _)) in H as [(t3 & R3 & M3 & F3) H].
  apply (holds_at_ok _ _ _ _ _ _ _ (fun t _ u => app_call_ok 5 t _ None u)) in H as [(t5 & R5 & M5 & F5) H].
  apply (holds_at_ok _ _ _ _ _ _ _ (fun t _ u => transfer_ok 6 t _ 1 None u)) in H as [(t6 & R6 & M6 & F6) H].
  apply (holds_at_ok _ _ _ _ _ _ _ (fun t _ u => app_call_ok 7 t None (Some handle) u)) in H as [(t7 & R7 & M7 & F7) H].
  injection H as <-. exists group, [t0; t1; t2], [t3; t5; t6; t7], tf. do 2 (split; [done|]).
  split; [unfold decode in Rf; destruct (raw_from_slice T _); [by injection Rf as ->|done]|]. do 3 (split; [done|]).
  split; [repeat constructor; try done; try apply mo_sender; try done; set_solver|].
  split; [repeat constructor; try done; try apply mo_sender; try done; set_solver|]. split; [done|].
  destruct (bill_call _ _ _ _ _ M0 F0) as [A0 B0]. destruct (bill_transfer _ _ _ _ _ (Z.le_refl 0) M1 F1) as [A1 B1].
  destruct (bill_close _ _ _ M2 F2) as [A2 B2].
  split; [cbn [bill_all foldr algos bill_app no_bill]; lia|].
  split; [cbn [bill_all foldr]; by rewrite B0, B1, B2|]. by eapply registration_bill_of.
Qed.
End Spec.

(** ** A concrete group *)

Module GroupExample.
Definition ids : RegistrationGroupIds := MkIds 7 9.
(** The text of a transaction is its name; keys are their addresses. *)
Definition plain (ty : string) (sender : Z) : RawTransaction :=
  MkRaw ty [sender] (Some 1000) None 5 None [] (Some [1]) None None None None None None None None None None None
    None None None None None None.
Definition transfer (sender receiver amount : Z) (close_to : option (list Z)) : RawTransaction :=
  MkRaw "axfer" [sender] (Some 1000) None 5 None [] (Some [1]) None None None None None None
    (Some 9) (Some amount) (Some [receiver]) close_to None None None None None None None.
Definition call (sender : Z) (oc : option Z) (args : option (list (list Z))) (assets : option (list Z)) : RawTransaction :=
  MkRaw "appl" [sender] None None 5 None [] (Some [1]) None None None None None None None None None None None
    (Some 7) oc args None None assets.
Definition close_to (sender receiver : Z) : RawTransaction :=
  MkRaw "pay" [sender] None None 5 None [] (Some [1]) None None None (Some [receiver]) None (Some [receiver]) None None
    None None None None None None None None None.
Definition args (handle : string) : list (list Z) := [[]; to_be_bytes 2 (Z.of_nat (String.length handle)) ++ as_bytes handle].
(** The funder is 50, the service 60, the application's address the empty hash. *)
Definition app_transfer (sender : Z) : RawTransaction :=
  MkRaw "axfer" [sender] (Some 1000) None 5 None [] (Some [1]) None None None None None None
    (Some 9) (Some 1) (Some []) None None None None None None None None.
Definition registration (me : Z) : list RawTransaction :=
  [plain "pay" 50; transfer me me 0 None; transfer 50 me 1 None; call me (Some 1) None None; app_transfer me;
   call me None (Some (args "bob")) (Some [9]); plain "appl" 60].
Definition recovery (old new : Z) : list RawTransaction :=
  [call old (Some 3) None None; transfer old 50 0 (Some [50]); close_to old new; transfer new new 0 None;
   transfer 50 new 1 None; call new (Some 1) None None; app_transfer new;
   call new None (Some (args "bob")) (Some [9]); plain "appl" 60].
(** A text [c] is the transaction at the place of its first character. *)
Definition place (s : string) : option (list Z) :=
  match s with String c EmptyString => Some [Z.of_nat (Ascii.nat_of_ascii c) - 48] | _ => None end.
Definition tools (ts : list RawTransaction) : group_tools Z :=
  MkTools _ place (fun l => "s") (fun bs => grp <$> (ts !! Z.to_nat (default 0 (head bs))))
    (fun bs => ts !! Z.to_nat (default 0 (head bs))) (fun _ => []) (fun _ _ => []) (fun k => [k]).
Definition texts (n : nat) : list string := take n ["0"; "1"; "2"; "3"; "4"; "5"; "6"; "7"; "8"]%string.
End GroupExample.

Lemma registration_costs_witness :
  exists l, sign_registration_group (GroupExample.tools (GroupExample.registration 1)) GroupExample.ids (GroupExample.texts 7)
      [1; 3; 4; 5] "bob" 1 = Ok l /\
    exists ts, length l = length ts /\ asset_transfers (bill_all ts) = [(9, 1, [])].
Proof.
  eexists. split; [vm_compute; reflexivity|].
  destruct (registration_costs (GroupExample.tools (GroupExample.registration 1)) GroupExample.ids (GroupExample.texts 7)
    [1; 3; 4; 5] "bob" 1 ["s"; "s"; "s"; "s"]%string) as (group & ts & _ & _ & Hl & _ & Hb); [vm_compute; reflexivity|].
  exists ts. split; [exact Hl|]. by rewrite Hb.
Defined.

Lemma recovery_costs_witness :
  exists l, sign_recovery_group (GroupExample.tools (GroupExample.recovery 1 2)) GroupExample.ids (GroupExample.texts 9)
      [0; 1; 2; 3; 5; 6; 7] "bob" 1 2 = Ok l /\
    exists olds, account_closes (bill_all olds) = [[2]].
Proof.
  eexists. split; [vm_compute; reflexivity|].
  destruct (recovery_costs (GroupExample.tools (GroupExample.recovery 1 2)) GroupExample.ids (GroupExample.texts 9)
    [0; 1; 2; 3; 5; 6; 7] "bob" 1 2 (replicate 7 "s"%string)) as (group & olds & news & funding & Hf); [vm_compute; reflexivity|].
  exists olds. destruct Hf as (_ & _ & _ & _ & _ & _ & _ & _ & _ & _ & Hb & _). by rewrite Hb.
Defined.
