(* ===== verification/Chain.v ===== *)
(** * The blockchain client

    Models [src/bingle_core/src/blockchain/algo_bingle.rs] and
    [src/bingle_core/src/blockchain/sidewinder_endpoint.rs]: what the local state of an
    account on the Bingle application means (permissions, handle, endpoints), the search
    for handles and relays among the accounts that opted in, and the transactions the
    client builds, from permissions to registration, migration and deployment.

    The crate [algo_ops], which speaks to a node and an indexer, is the class [AlgoNode];
    a transaction is a [request] handed to it with the account that signs, and [sent]
    keeps those the node was given, with its answers.  Amounts are microalgos: the
    conversion to fractions of an Algo is left out, and so are log lines. *)
From S2P Require Import Prelude NetAddr Advert Envelope.

Local Open Scope Z_scope.

(** ** Handles *)

Section Utf8.
Local Open Scope char_scope.

(** The code points of a string in UTF-8. *)
Definition code (a : ascii) : Z := Z.of_N (Ascii.N_of_ascii a).

Fixpoint chars (s : string) : list Z :=
  match s with
  | EmptyString => []
  | String a s1 =>
      if (code a <? 128)%Z then code a :: chars s1
      else
        match s1 with
        | EmptyString => []
        | String b s2 =>
            if (code a <? 224)%Z then ((code a - 192) * 64 + (code b - 128))%Z :: chars s2
            else
              match s2 with
              | EmptyString => []
              | String c s3 =>
                  if (code a <? 240)%Z
                  then (((code a - 224) * 64 + (code b - 128)) * 64 + (code c - 128))%Z :: chars s3
                  else
                    match s3 with
                    | EmptyString => []
                    | String d s4 =>
                        ((((code a - 240) * 64 + (code b - 128)) * 64 + (code c - 128)) * 64
                          + (code d - 128))%Z :: chars s4
                    end
              end
        end
  end.
End Utf8.

Definition is_digit (c : Z) : bool := (48 <=? c) && (c <=? 57).
Definition is_upper (c : Z) : bool := (65 <=? c) && (c <=? 90).
Definition is_lower (c : Z) : bool := (97 <=? c) && (c <=? 122).

Definition to_ascii_lowercase (c : Z) : Z := if is_upper c then c + 32 else c.

(** [u64::from_str]: a sign, digits, no overflow. *)
Definition parse_u64 (s : string) : option Z :=
  let digits := match s with String a t => if Ascii.eqb a "+"%char then t else s | EmptyString => s end in
  match digits with
  | EmptyString => None
  | _ => match parse_digits digits 0 with
         | Some n => if n <? 2 ^ 64 then Some n else None
         | None => None
         end
  end.

(** ** Local state of an account *)

Module allow_flags.
Definition BIT_STATIC : Z := Z.shiftl 1 0.
Definition BIT_RELAY : Z := Z.shiftl 1 1.
Definition BIT_SW_NODE : Z := Z.shiftl 1 2.
Definition BIT_SW_CLIENT : Z := Z.shiftl 1 3.
Definition BIT_SW_CLIENT_REVOKED : Z := Z.shiftl 1 4.
Definition BIT_MIGRATED : Z := Z.shiftl 1 63.
End allow_flags.
Import allow_flags.

Abbreviation entries := (list (string * string)).

(** The first value under a key. *)
Definition field (key : string) (kvs : entries) : option string :=
  snd <$> List.find (fun kv => String.eqb (fst kv) key) kvs.

Definition find_uint (key : string) (kvs : entries) : option Z :=
  v ← field key kvs; parse_u64 v.

Definition extract_bingle_price (kvs : entries) : option Z := find_uint "BinglePrice" kvs.

Definition effective_allow_bits (kvs : entries) : Z :=
  let raw := find_uint "allow_static" kvs in
  match raw with
  | Some r =>
      if negb (Z.land r BIT_MIGRATED =? 0) then r
      else
        Z.lor (if negb (r =? 0) then BIT_STATIC else 0)
          (match find_uint "allow_relay" kvs with Some r => if negb (r =? 0) then BIT_RELAY else 0 | None => 0 end)
  | None =>
      match find_uint "allow_relay" kvs with Some r => if negb (r =? 0) then BIT_RELAY else 0 | None => 0 end
  end.

Definition relay_allowed_in_local_state (kvs : entries) : bool :=
  negb (Z.land (effective_allow_bits kvs) BIT_RELAY =? 0).

Definition static_endpoint_from_local_state (kvs : entries) : option string :=
  let full := default EmptyString (field "static_endpoint" kvs)
              +:+ default EmptyString (field "static_endpoint_x" kvs) in
  if String.eqb full EmptyString then None else Some full.

Definition should_clear_static_endpoint (registered current : option string) : bool :=
  match registered, current with Some ours, Some current => String.eqb ours current | _, _ => false end.

Definition should_clear_sidewinder_endpoint (registered current : option string) : bool :=
  match registered, current with Some ours, Some current => String.eqb ours current | _, _ => false end.

(** ** The cost of a registration *)

Definition MBR_BASE_MICROALGOS : Z := 100000.
Definition MBR_ASSET_OPTIN_MICROALGOS : Z := 100000.
Definition MBR_APP_OPTIN_BASE_MICROALGOS : Z := 100000.
Definition MBR_APP_UINT_MICROALGOS : Z := 28500.
Definition MBR_APP_BYTESLICE_MICROALGOS : Z := 50000.
Definition MIN_TXN_FEE_MICROALGOS : Z := 1000.
Definition REGISTRATION_TXN_COUNT : Z := 12.
Definition REGISTRATION_SAFETY_MARGIN_MICROALGOS : Z := 10000.

(** Arithmetic on [u64]; what does not fit panics, as in a build with overflow checks. *)
Definition u64 (z : Z) : outcome Z := if (0 <=? z) && (z <? 2 ^ 64) then Returns z else Panics.

Definition post_registration_mbr_microalgos (local_uints local_byte_slices : Z) : outcome Z :=
  u64 (MBR_BASE_MICROALGOS
       + (MBR_APP_OPTIN_BASE_MICROALGOS + MBR_APP_UINT_MICROALGOS * local_uints
          + MBR_APP_BYTESLICE_MICROALGOS * local_byte_slices)
       + MBR_ASSET_OPTIN_MICROALGOS).

Definition registration_funding_microalgos (price local_uints local_byte_slices : Z) : outcome Z :=
  match post_registration_mbr_microalgos local_uints local_byte_slices with
  | Panics => Panics
  | Returns minimum_balance =>
      u64 (minimum_balance + price + MIN_TXN_FEE_MICROALGOS * REGISTRATION_TXN_COUNT
           + REGISTRATION_SAFETY_MARGIN_MICROALGOS)
  end.

(** ** The endpoint record of a Sidewinder node *)

Record SidewinderEndpointRecord : Type := MkSw {
  sw_v4 : option (Z * Z * Z * Z * Z);
  sw_v6 : option (Z * Z)
}.

#[export] Instance SidewinderEndpointRecord_eq_dec : EqDecision SidewinderEndpointRecord.
Proof. solve_decision. Defined.

Definition FLAG_V4 : Z := 1.
Definition FLAG_V6 : Z := 2.

Definition sw_new (v4 : option (Z * Z * Z * Z * Z)) (v6 : option (Z * Z)) : option SidewinderEndpointRecord :=
  match v4, v6 with None, None => None | _, _ => Some (MkSw v4 v6) end.

Definition from_socket_addrs (ipv4 ipv6 : option SocketAddr) : option SidewinderEndpointRecord :=
  sw_new
    (a ← ipv4; match ip a with V4 b c d e => Some (b, c, d, e, port a) | V6 _ => None end)
    (a ← ipv6; match ip a with V6 v => Some (v, port a) | V4 _ _ _ _ => None end).

Definition socket_addrs (r : SidewinderEndpointRecord) : list SocketAddr :=
  match sw_v4 r with Some (a, b, c, d, p) => [SockAddr (V4 a b c d) p] | None => [] end
  ++ match sw_v6 r with Some (v, p) => [SockAddr (V6 v) p] | None => [] end.

Definition to_bytes (r : SidewinderEndpointRecord) : list Z :=
  Z.lor (if sw_v4 r is Some _ then FLAG_V4 else 0) (if sw_v6 r is Some _ then FLAG_V6 else 0)
  :: match sw_v4 r with Some (a, b, c, d, p) => [a; b; c; d] ++ to_be_bytes 2 p | None => [] end
  ++ match sw_v6 r with Some (v, p) => to_be_bytes 16 v ++ to_be_bytes 2 p | None => [] end.

(** [split_at_checked]. *)
Definition split_at_checked (n : nat) (l : list Z) : option (list Z * list Z) :=
  if (n <=? length l)%nat then Some (take n l, drop n l) else None.

(** The IPv4 block of six bytes, and the rest. *)
Definition take_v4 (present : bool) (rest : list Z) : option (option (Z * Z * Z * Z * Z) * list Z) :=
  if present then
    '(block, tail) ← split_at_checked 6 rest;
    match block with
    | a :: b :: c :: d :: p => Some (Some (a, b, c, d, from_be_bytes p), tail)
    | _ => None
    end
  else Some (None, rest).

(** The IPv6 block of eighteen bytes, and the rest. *)
Definition take_v6 (present : bool) (rest : list Z) : option (option (Z * Z) * list Z) :=
  if present then
    '(block, tail) ← split_at_checked 18 rest;
    Some (Some (from_be_bytes (take 16 block), from_be_bytes (drop 16 block)), tail)
  else Some (None, rest).

Definition from_bytes (bytes : list Z) : option SidewinderEndpointRecord :=
  match bytes with
  | [] => None
  | flags :: rest =>
      if negb (Z.land flags (Z.lxor 255 (Z.lor FLAG_V4 FLAG_V6)) =? 0) then None
      else
        '(v4, rest) ← take_v4 (negb (Z.land flags FLAG_V4 =? 0)) rest;
        '(v6, rest) ← take_v6 (negb (Z.land flags FLAG_V6 =? 0)) rest;
        match rest with [] => sw_new v4 v6 | _ => None end
  end.

(** ** The node and the requests it is given *)

Inductive AppArg : Type := ArgBytes (b : list Z) | ArgUint (n : Z).

Inductive group_item : Type :=
| Payment (to : string) (amount : Z)
| AssetTransfer (asset amount : Z) (to : string)
| GroupCall (app : Z) (sig : string) (args : list AppArg).

(** What a client asks the node to put on the chain. *)
Inductive request : Type :=
| CallApp (app : Z) (asset : option Z) (sig : string) (args : list AppArg)
| CallAppWithAccounts (app : Z) (sig : string) (args : list AppArg) (accounts : list string)
| CallAppWithForeignApp (app foreign_app : Z) (asset : option Z) (sig : string) (args : list AppArg)
| CallAppArc4 (app : Z) (sig : string) (args : list AppArg)
| OptInApp (app : Z)
| OptInAppToAsset (app asset : Z) (sig : string)
| OptInAsset (asset : Z)
| Group (items : list group_item) (foreign_asset : Z)
| DeployApp (sig : string) (args : list AppArg) (pages : Z)
| CreateAsset (name : string) (total : Z) (manager reserve clawback freeze : string)
| SetAssetClawbackToApp (app asset : Z)
| SendAsset (asset amount : Z) (to : string)
| UpdateAsset (asset : Z) (manager reserve clawback : string)
| ClawbackAsset (asset amount : Z) (from to : string).

Inductive QueryMode : Type := Refresh | CacheOnly.

Record ScannedAccount : Type := MkScanned { sc_address : string; local_state : entries }.

Record AccountsCache : Type := MkCache { cached : list (string * ScannedAccount); last_updated : Z }.

Definition cache_new : AccountsCache := MkCache [] 0.

(** The crate [algo_ops]: the queries, and the submission of a request signed by an account;
    what is submitted is answered with the id of the transaction, or of what it made. *)
Class AlgoNode (W : Type) := {
  fetch_opted_in_accounts_cached :
    Z -> QueryMode -> option Z -> AccountsCache -> W -> W * (AccountsCache * result unit string);
  local_state_for_account : Z -> string -> W -> W * result (option entries) string;
  app_global_bytes : Z -> string -> W -> W * result (option (list Z)) string;
  app_global_state : Z -> W -> W * result entries string;
  get_app_local_schema : Z -> W -> W * result (Z * Z) string;
  is_account_opted_in_to_asset : string -> Z -> W -> W * result bool string;
  asset_holding : string -> Z -> W -> W * result Z string;
  asset_reserve : Z -> W -> W * result (option string) string;
  contract_address : Z -> W -> W * result string string;
  submit : string -> request -> W -> W * result string string;
  submit_for_id : string -> request -> W -> W * result (option Z) string;
  sleep_secs : Z -> W -> W
}.

(** The client's state: the shared cache of accounts if it has one, the world, and what the
    node was given, by whom, and whether it took it. *)
Record chain (W : Type) : Type := MkChain {
  cache : option AccountsCache;
  world : W;
  sent : list (string * request * bool)
}.
Arguments MkChain {W} _ _ _.
Arguments cache {W} _.
Arguments world {W} _.
Arguments sent {W} _.

(** Computations that may fail. *)
Definition CM (W A : Type) : Type := chain W -> chain W * result A string.

#[global] Instance cm_ret {W} : MRet (CM W) := fun A a s => (s, Ok a).
#[global] Instance cm_bind {W} : MBind (CM W) := fun A B k m s =>
  match m s with
  | (s, Ok a) => k a s
  | (s, Err e) => (s, Err e)
  end.

Definition fails {W A} (e : string) : CM W A := fun s => (s, Err e).

Definition asks {W A} (f : W -> W * result A string) : CM W A := fun s =>
  let '(w, r) := f (world s) in (MkChain (cache s) w (sent s), r).

(** [bail!] unless the condition holds. *)
Definition ensure {W} (b : bool) (e : string) : CM W unit := if b then mret tt else fails e.

Definition positive {W} (what : string) (n : Z) : CM W unit := ensure (negb (n =? 0)) (what +:+ " must be > 0").

Section Client.
Context {W : Type} `{AlgoNode W}.

(** The operations of a client are those of an instance of [AlgoBingle]: the address of its
    account, if it has one, the ids it was made with and the id of its configuration. *)
Record AlgoBingle : Type := MkAlgoBingle {
  address : option string;
  app_id : Z;
  asset_id : Z;
  config_app_id : option Z
}.

Context (address_to_byte_key : string -> result (list Z) string)
  (base64_encode : list Z -> string) (base64_decode : string -> option (list Z))
  (unicode_alphanumeric : Z -> bool).

Definition submits (signer : string) (r : request) : CM W string := fun s =>
  let '(w, x) := submit signer r (world s) in
  (MkChain (cache s) w (sent s ++ [(signer, r, is_ok x)]), x).

Definition submits_for_id (signer : string) (r : request) : CM W (option Z) := fun s =>
  let '(w, x) := submit_for_id signer r (world s) in
  (MkChain (cache s) w (sent s ++ [(signer, r, is_ok x)]), x).

Definition own_address (A : AlgoBingle) : CM W string :=
  match address A with Some a => mret a | None => fails "No sender address" end.

(** *** Permissions *)

Definition set_allow_flag (A : AlgoBingle) (app : Z) (target sig : string) (allow : bool) : CM W string :=
  _ ← positive "app_id" app;
  match address_to_byte_key target with
  | Err e => fails ("invalid target address: " +:+ e)
  | Ok pk =>
      me ← own_address A;
      submits me (CallAppWithAccounts app sig [ArgBytes pk; ArgUint (if allow then 1 else 0)] [target])
  end.

Definition set_allow_static (A : AlgoBingle) (app : Z) (target : string) (allow : bool) : CM W string :=
  set_allow_flag A app target "set_allow_static(address,uint64)void" allow.
Definition set_allow_relay (A : AlgoBingle) (app : Z) (target : string) (allow : bool) : CM W string :=
  set_allow_flag A app target "set_allow_relay(address,uint64)void" allow.
Definition set_allow_sw_node (A : AlgoBingle) (app : Z) (target : string) (allow : bool) : CM W string :=
  set_allow_flag A app target "set_allow_sw_node(address,uint64)void" allow.
Definition set_allow_sw_client (A : AlgoBingle) (app : Z) (target : string) (allow : bool) : CM W string :=
  set_allow_flag A app target "set_allow_sw_client(address,uint64)void" allow.

Definition enrol_sw_client (A : AlgoBingle) (app : Z) : CM W string :=
  _ ← positive "app_id" app;
  me ← own_address A;
  submits me (CallApp app None "enrol_sw_client()void" []).

Definition check_allow_bit (app : Z) (addr : string) (bit : Z) : CM W (option bool) :=
  _ ← positive "app_id" app;
  kvs ← asks (local_state_for_account app addr);
  mret ((fun l => negb (Z.land (effective_allow_bits l) bit =? 0)) <$> kvs).

Definition check_allow_static (app : Z) (addr : string) : CM W (option bool) := check_allow_bit app addr BIT_STATIC.
Definition check_allow_relay (app : Z) (addr : string) : CM W (option bool) := check_allow_bit app addr BIT_RELAY.
Definition check_allow_sw_node (app : Z) (addr : string) : CM W (option bool) := check_allow_bit app addr BIT_SW_NODE.
Definition check_allow_sw_client (app : Z) (addr : string) : CM W (option bool) := check_allow_bit app addr BIT_SW_CLIENT.
Definition check_sw_client_revoked (app : Z) (addr : string) : CM W (option bool) :=
  check_allow_bit app addr BIT_SW_CLIENT_REVOKED.

(** The permission of a relay, with a client of its own; the errors are "unknown". *)
Definition relay_permission (app : option Z) (configured : bool) (record_id : string) (s : chain W)
  : chain W * option bool :=
  match app with
  | None => (s, None)
  | Some app =>
      if negb configured then (s, None)
      else
        match check_allow_relay app record_id s with
        | (s, Ok (Some b)) => (s, Some b)
        | (s, Ok None) => (s, Some false)
        | (s, Err _) => (s, None)
        end
  end.

(** *** Funding *)

Definition get_bingle_price (app : Z) : CM W Z :=
  _ ← positive "app_id" app;
  kvs ← asks (app_global_state app);
  match extract_bingle_price kvs with
  | Some p => mret p
  | None => fails "BinglePrice not set in global state"
  end.

Definition required_funding (A : AlgoBingle) : CM W (outcome Z) :=
  price ← get_bingle_price (app_id A);
  '(uints, slices) ← asks (get_app_local_schema (app_id A));
  mret (registration_funding_microalgos price uints slices).

Definition post_registration_mbr (A : AlgoBingle) : CM W (outcome Z) :=
  '(uints, slices) ← asks (get_app_local_schema (app_id A));
  mret (post_registration_mbr_microalgos uints slices).

(** *** Endpoints *)

Definition handle_for_address (app : Z) (addr : string) : CM W (option string) :=
  _ ← positive "app_id" app;
  kvs ← asks (local_state_for_account app addr);
  mret (l ← kvs; field "Handle" l).

Definition register_endpoint (A : AlgoBingle) (app : Z) (record : string) : CM W string :=
  _ ← positive "app_id" app;
  me ← own_address A;
  submits me (CallAppArc4 app "register_endpoint(string)void" [ArgBytes (as_bytes record)]).

Definition get_static_endpoint (app : Z) (addr : string) : CM W (option string) :=
  _ ← positive "app_id" app;
  kvs ← asks (local_state_for_account app addr);
  mret (l ← kvs; static_endpoint_from_local_state l).

Definition encode (r : SidewinderEndpointRecord) : string := base64_encode (to_bytes r).
Definition decode (value : string) : option SidewinderEndpointRecord := b ← base64_decode value; from_bytes b.

Definition register_sidewinder_endpoint (A : AlgoBingle) (app : Z) (ipv4 ipv6 : option SocketAddr) : CM W string :=
  _ ← positive "app_id" app;
  me ← own_address A;
  let payload := default EmptyString (encode <$> from_socket_addrs ipv4 ipv6) in
  submits me (CallAppArc4 app "register_sidewinder_endpoint(byte[])void" [ArgBytes (as_bytes payload)]).

Definition get_sidewinder_endpoint (app : Z) (addr : string) : CM W (option SidewinderEndpointRecord) :=
  _ ← positive "app_id" app;
  kvs ← asks (local_state_for_account app addr);
  mret (l ← kvs;
        let value := default EmptyString (field "rsvd_l_b1" l) in
        if String.eqb value EmptyString then None else decode value).

(** *** The accounts that opted in *)

(** A refresh that fails falls back to the accounts of the last complete scan. *)
Definition indexer_query_opted_in_accounts_sync (app : Z) (mode : QueryMode) (lifetime : option Z)
  : CM W (list ScannedAccount) := fun s =>
  let '(w, (c, r)) := fetch_opted_in_accounts_cached app mode lifetime (default cache_new (cache s)) (world s) in
  let s := MkChain (match cache s with Some _ => Some c | None => None end) w (sent s) in
  match r with
  | Err e => if 0 <? last_updated c then (s, Ok (cached c).*2) else (s, Err e)
  | Ok _ => (s, Ok (cached c).*2)
  end.

Definition scan_static_endpoints (keep : entries -> bool) (accounts : list ScannedAccount) : list (string * string) :=
  omap (fun acct =>
          ep ← static_endpoint_from_local_state (local_state acct);
          if keep (local_state acct) then Some (sc_address acct, ep) else None) accounts.

Definition scan_static_endpoints_sync (app : Z) (keep : entries -> bool) : CM W (list (string * string)) :=
  accounts ← indexer_query_opted_in_accounts_sync app Refresh (Some 30);
  mret (scan_static_endpoints keep accounts).

Definition list_static_endpoints_via_indexer_sync (app : Z) : CM W (list (string * string)) :=
  scan_static_endpoints_sync app (fun _ => true).

Definition list_relay_endpoints_via_indexer_sync (app : Z) : CM W (list (string * string)) :=
  scan_static_endpoints_sync app relay_allowed_in_local_state.

(** *** The search for handles *)

Definition is_alphanumeric (c : Z) : bool :=
  if c <? 128 then is_digit c || is_upper c || is_lower c else unicode_alphanumeric c.

(** The characters of the normal form. *)
Definition normalize_handle (handle : string) : list Z :=
  to_ascii_lowercase <$> List.filter is_alphanumeric (chars handle).

Definition handle_time (l : entries) : Z := default 0 (find_uint "HandleTime" l).

Definition extract_handle_match (handle : string) (acct : ScannedAccount) : option (string * Z) :=
  h ← field "Handle" (local_state acct);
  if bool_decide (normalize_handle h = normalize_handle handle)
  then Some (sc_address acct, handle_time (local_state acct)) else None.

(** [str::cmp] compares bytes. *)
Definition str_le (a b : string) : bool := match String.compare a b with Gt => false | _ => true end.

(** The older first, then by address. *)
Definition older {A B} (time : A -> Z) (addr : A -> B) (le : B -> B -> bool) (x y : A) : bool :=
  (time x <? time y) || ((time x =? time y) && le (addr x) (addr y)).

Definition pick_oldest_match (matches : list (string * Z)) : option string :=
  fst <$> head (sort_by (older snd fst str_le) matches).

Definition starts_with (l p : list Z) : bool := bool_decide (take (length p) l = p).

Definition handle_prefix_match (prefix : string) (acct : ScannedAccount) : option (string * string * Z) :=
  let p := normalize_handle prefix in
  if bool_decide (p = []) then None
  else
    h ← field "Handle" (local_state acct);
    if starts_with (normalize_handle h) p then Some (sc_address acct, h, handle_time (local_state acct)) else None.

Definition pick_oldest_prefix_match (matches : list (string * string * Z)) : option (string * string) :=
  fst <$> head (sort_by (older snd (fun m => m.1.1) str_le) matches).

(** The exact matches first. *)
Definition rank_le (x y : bool * (string * string * Z)) : bool :=
  match x.1, y.1 with
  | true, false => true
  | false, true => false
  | _, _ => older snd (fun m => m.1.1) str_le x.2 y.2
  end.

Definition rank_prefix_matches (matches : list (string * string * Z)) (prefix : string) (limit : nat)
  : list (string * string * bool) :=
  let wanted := normalize_handle prefix in
  let ranked := (fun m => (bool_decide (normalize_handle m.1.2 = wanted), m)) <$> matches in
  (fun r => (r.2.1.1, r.2.1.2, r.1)) <$> take limit (sort_by rank_le ranked).

Definition lookup_app (A : AlgoBingle) : CM W Z :=
  if negb (app_id A =? 0) then mret (app_id A)
  else match config_app_id A with Some a => mret a | None => fails "app_id not configured in AlgoOps config" end.

Definition handle_lookup_sync (app : Z) (handle : string) : CM W (option string) :=
  accounts ← indexer_query_opted_in_accounts_sync app Refresh (Some 30);
  mret (pick_oldest_match (omap (extract_handle_match handle) accounts)).

Definition handle_lookup (A : AlgoBingle) (handle : string) : CM W (option string) :=
  app ← lookup_app A; handle_lookup_sync app handle.

Definition handle_lookup_partial_sync (app : Z) (prefix : string) : CM W (option (string * string)) :=
  accounts ← indexer_query_opted_in_accounts_sync app Refresh (Some 30);
  mret (fst <$> head (rank_prefix_matches (omap (handle_prefix_match prefix) accounts) prefix 1)).

Definition handle_lookup_partial (A : AlgoBingle) (prefix : string) : CM W (option (string * string)) :=
  app ← lookup_app A; handle_lookup_partial_sync app prefix.

Definition handle_lookup_matches_sync (app : Z) (prefix : string) (limit : nat) : CM W (list (string * string * bool)) :=
  accounts ← indexer_query_opted_in_accounts_sync app Refresh (Some 30);
  mret (rank_prefix_matches (omap (handle_prefix_match prefix) accounts) prefix limit).

Definition handle_lookup_matches (A : AlgoBingle) (prefix : string) (limit : nat) : CM W (list (string * string * bool)) :=
  app ← lookup_app A; handle_lookup_matches_sync app prefix limit.

(** *** Administration *)

Definition withdraw (A : AlgoBingle) (app : Z) (to : string) (amount asset asset_amount : Z) : CM W string :=
  _ ← positive "app_id" app;
  match address_to_byte_key to with
  | Err e => fails ("invalid address: " +:+ e)
  | Ok pk =>
      me ← own_address A;
      submits me (CallApp app (if (0 <? asset_amount) && (0 <? asset) then Some asset else None)
                    "withdraw(address,uint64,uint64,uint64)void"
                    [ArgBytes pk; ArgUint amount; ArgUint asset; ArgUint asset_amount])
  end.

Definition call_with_app (A : AlgoBingle) (app other : Z) (what : string) (asset : option Z) (sig : string)
    (args : list AppArg) : CM W string :=
  _ ← positive "app_id" app;
  _ ← positive what other;
  me ← own_address A;
  submits me (CallAppWithForeignApp app other asset sig args).

Definition set_predecessor_app (A : AlgoBingle) (app predecessor : Z) : CM W string :=
  call_with_app A app predecessor "predecessor_app_id" None "set_predecessor_app(uint64)void" [ArgUint predecessor].
Definition set_successor_app (A : AlgoBingle) (app successor : Z) : CM W string :=
  call_with_app A app successor "successor_app_id" None "set_successor_app(uint64)void" [ArgUint successor].
Definition migrate_global (A : AlgoBingle) (app old : Z) : CM W string :=
  call_with_app A app old "old_app_id" None "migrate_global(uint64)void" [ArgUint old].
Definition migrate_reserve (A : AlgoBingle) (app new asset : Z) : CM W string :=
  call_with_app A app new "new_app_id" (if 0 <? asset then Some asset else None)
    "migrate_reserve(uint64,uint64)void" [ArgUint new; ArgUint asset].
Definition migrate_local (A : AlgoBingle) (app old : Z) : CM W string :=
  call_with_app A app old "old_app_id" None "migrate_local(uint64)void" [ArgUint old].

Definition set_role (A : AlgoBingle) (app : Z) (who sig : string) : CM W string :=
  _ ← positive "app_id" app;
  match address_to_byte_key who with
  | Err e => fails ("invalid address: " +:+ e)
  | Ok pk => me ← own_address A; submits me (CallApp app None sig [ArgBytes pk])
  end.

Definition set_app_admin (A : AlgoBingle) (app : Z) (admin : string) : CM W string :=
  set_role A app admin "set_app_admin(address)void".
Definition set_app_withdrawer (A : AlgoBingle) (app : Z) (withdrawer : string) : CM W string :=
  set_role A app withdrawer "set_app_withdrawer(address)void".

(** *** Migration *)

(** [as_chunks::<8>]: the rest is ignored. *)
Fixpoint chunks8 (l : list Z) : list (list Z) :=
  match l with
  | a :: b :: c :: d :: e :: f :: g :: h :: l => [a; b; c; d; e; f; g; h] :: chunks8 l
  | _ => []
  end.

Definition ancestor_apps (app : Z) : CM W (list Z) :=
  _ ← positive "new_app_id" app;
  raw ← asks (app_global_bytes app "AncestorApps");
  mret (from_be_bytes <$> chunks8 (default [] raw)).

Definition successor_app (app : Z) : CM W (option Z) :=
  _ ← positive "app_id" app;
  raw ← asks (app_global_bytes app "SuccessorApp");
  let raw := default [] raw in
  mret (if (length raw =? 8)%nat
        then let id := from_be_bytes raw in if id =? 0 then None else Some id
        else None).

Fixpoint first_with_state (ancestors : list Z) (account : string) : CM W (option Z) :=
  match ancestors with
  | [] => mret None
  | a :: ancestors =>
      kvs ← asks (local_state_for_account a account);
      match kvs with Some _ => mret (Some a) | None => first_with_state ancestors account end
  end.

Definition find_migratable_ancestor (app : Z) (account : string) : CM W (option Z) :=
  ancestors ← ancestor_apps app; first_with_state ancestors account.

Definition holds_handle (app : Z) (account : string) : CM W bool :=
  _ ← positive "app_id" app;
  kvs ← asks (local_state_for_account app account);
  mret (match kvs with Some l => existsb (fun kv => String.eqb (fst kv) "Handle") l | None => false end).

Definition ensure_local_migrated (A : AlgoBingle) (app : Z) : CM W (option string) :=
  _ ← positive "new_app_id" app;
  me ← own_address A;
  held ← holds_handle app me;
  if (held : bool) then mret None
  else
    ancestor ← find_migratable_ancestor app me;
    match ancestor with
    | None => mret None
    | Some a =>
        _ ← submits me (OptInApp app);
        txid ← migrate_local A app a;
        mret (Some txid)
    end.

(** *** Buying, selling, registering *)

Definition opt_in_sender_to_asset (A : AlgoBingle) (asset : Z) : CM W string :=
  _ ← positive "asset_id" asset;
  me ← own_address A;
  opted ← asks (is_account_opted_in_to_asset me asset);
  if (opted : bool) then mret EmptyString else submits me (OptInAsset asset).

Definition buy_bingle (A : AlgoBingle) (app asset price : Z) : CM W string :=
  _ ← positive "app_id" app;
  _ ← positive "asset_id" asset;
  _ ← opt_in_sender_to_asset A asset;
  app_addr ← asks (contract_address app);
  me ← own_address A;
  submits me (Group [Payment app_addr price; GroupCall app "buy_bingle()void" []] asset).

Definition checked_mul_u64 (a b : Z) : option Z := if a * b <? 2 ^ 64 then Some (a * b) else None.

Definition sell_bingle (A : AlgoBingle) (app asset amount price : Z) : CM W string :=
  _ ← positive "app_id" app;
  _ ← positive "asset_id" asset;
  _ ← positive "amount" amount;
  me ← own_address A;
  _ ← submits me (OptInAppToAsset app asset "opt_in_to_bingle(uint64)void");
  app_addr ← asks (contract_address app);
  match checked_mul_u64 price amount with
  | None => fails "payout overflow"
  | Some payout =>
      submits me (Group [AssetTransfer asset amount app_addr; Payment me payout;
                         GroupCall app "sell_bingle(uint64)void" [ArgUint amount]] asset)
  end.

Definition register_unchecked (A : AlgoBingle) (app asset : Z) (handle : string) (price_units : Z) : CM W string :=
  me ← own_address A;
  _ ← submits me (OptInAppToAsset app asset "opt_in_to_bingle(uint64)void");
  _ ← opt_in_sender_to_asset A asset;
  _ ← submits me (OptInApp app);
  app_addr ← asks (contract_address app);
  submits me (Group [AssetTransfer asset price_units app_addr;
                     GroupCall app "register(string)void" [ArgBytes (as_bytes handle)]] asset).

(** Up to [n] lookups, a second apart. *)
Fixpoint verify_loop (n : nat) (A : AlgoBingle) (handle expected : string) (first : bool) : CM W unit :=
  match n with
  | O => mret tt
  | S n =>
      _ ← asks (fun w => (if first then w else sleep_secs 1 w, Ok tt));
      winner ← handle_lookup A handle;
      match winner with
      | Some winner =>
          if String.eqb winner expected then mret tt
          else fails "Handle registration verification failed: the handle was taken"
      | None => verify_loop n A handle expected false
      end
  end.

Definition verify_registration_winner (A : AlgoBingle) (handle expected : string) : CM W unit :=
  verify_loop 15 A handle expected true.

Definition register (A : AlgoBingle) (app asset : Z) (handle : string) (price_units : Z) : CM W string :=
  _ ← positive "app_id" app;
  _ ← positive "asset_id" asset;
  _ ← ensure (negb (String.eqb handle EmptyString)) "handle must not be empty";
  me ← own_address A;
  owner ← handle_lookup A handle;
  _ ← ensure (match owner with Some o => String.eqb o me | None => true end) "Handle already in use";
  tx_id ← register_unchecked A app asset handle price_units;
  _ ← verify_registration_winner A handle me;
  mret tx_id.

(** *** Deployment *)

(** The addresses of the six roles. *)
Record roles : Type := MkRoles {
  r_app_admin : option string;
  r_app_withdrawer : option string;
  r_asset_creator : option string;
  r_asset_reserve : option string;
  r_asset_manager : option string;
  r_asset_freeze : option string
}.

(** All roles are there, and their addresses are those of different accounts. *)
Definition check_roles (creator : string) (r : roles) : CM W (string * string * string * string * string * string) :=
  match r with
  | MkRoles (Some a) (Some w) (Some c) (Some v) (Some m) (Some f) =>
      if bool_decide (NoDup [creator; a; w; c; v; m; f]) then mret (a, w, c, v, m, f)
      else fails "account address is not unique across roles"
  | _ => fails "missing required account"
  end.

(** The new application, with a price of 1. *)
Definition deploy_new_app (creator admin withdrawer : string) (pages : Z) : CM W Z :=
  match address_to_byte_key admin, address_to_byte_key withdrawer with
  | Ok admin_pk, Ok withdrawer_pk =>
      id ← submits_for_id creator (DeployApp "create(address,address)void" [ArgBytes admin_pk; ArgBytes withdrawer_pk] pages);
      match id with
      | None => fails "deploy_app returned no app_id"
      | Some id => _ ← submits admin (CallApp id None "set_bingle_price(uint64)void" [ArgUint 1]); mret id
      end
  | Err e, _ | _, Err e => fails e
  end.

Definition transfer_old_app_asset_balance (old new asset : Z) (manager : string) : CM W unit :=
  old_addr ← asks (contract_address old);
  balance ← asks (asset_holding old_addr asset);
  if balance =? 0 then mret tt
  else
    new_addr ← asks (contract_address new);
    reserve ← asks (asset_reserve asset);
    _ ← submits manager (UpdateAsset asset manager (default old_addr reserve) manager);
    _ ← submits manager (ClawbackAsset asset balance old_addr new_addr);
    _ ← submits manager (SetAssetClawbackToApp new asset);
    mret tt.

(** [teal]: the programs could be read and compiled. *)
Definition deploy_app_and_asset_reserving (A : AlgoBingle) (teal : result unit string) (new_app new_asset : bool)
    (app asset : option Z) (name : string) (total hot : Z) (r : roles) (pages : Z) : CM W (Z * Z) :=
  creator ← own_address A;
  '(admin, withdrawer, asset_creator, reserve, manager, freeze) ← check_roles creator r;
  let need_new_app := new_app || (bool_decide (app = None) && (app_id A =? 0)) in
  effective_app ←
    (if need_new_app then
       match teal with
       | Err e => fails e
       | Ok _ => deploy_new_app creator admin withdrawer pages
       end
     else mret (default (app_id A) app));
  app_addr ← asks (contract_address effective_app);
  let need_new_asset := new_asset || (bool_decide (asset = None) && (asset_id A =? 0)) in
  effective_asset ←
    (if need_new_asset then
       id ← submits_for_id asset_creator (CreateAsset name total manager reserve app_addr freeze);
       match id with Some id => mret id | None => fails "create_asset_configured returned no asset_id" end
     else
       let id := default (asset_id A) asset in
       _ ← submits manager (SetAssetClawbackToApp effective_app id); mret id);
  _ ← submits admin (OptInAppToAsset effective_app effective_asset "opt_in_to_bingle(uint64)void");
  _ ← opt_in_sender_to_asset (MkAlgoBingle (Some withdrawer) effective_app effective_asset None) effective_asset;
  _ ← (if String.eqb reserve app_addr then mret EmptyString
       else opt_in_sender_to_asset (MkAlgoBingle (Some reserve) effective_app effective_asset None) effective_asset);
  _ ← (if need_new_asset && (0 <? hot)
       then submits asset_creator (SendAsset effective_asset hot app_addr) else mret EmptyString);
  _ ← (if need_new_app && (0 <? app_id A) && negb (app_id A =? effective_app) then
         _ ← migrate_reserve A (app_id A) effective_app 0;
         if need_new_asset then mret tt
         else transfer_old_app_asset_balance (app_id A) effective_app effective_asset manager
       else mret tt);
  mret (effective_app, effective_asset).
End Client.

(** ** The order of claims *)

Lemma str_le_total a b : str_le a b = true \/ str_le b a = true.
Proof.
  unfold str_le. rewrite (String.compare_antisym a b). destruct (String.compare b a); auto.
Qed.

Lemma ascii_compare_lt a b : Ascii.compare a b = Lt <-> code a < code b.
Proof. unfold Ascii.compare, code. rewrite N.compare_lt_iff. lia. Qed.

Lemma ascii_compare_gt a b : Ascii.compare a b = Gt <-> code b < code a.
Proof. unfold Ascii.compare, code. rewrite N.compare_gt_iff. lia. Qed.

Lemma ascii_compare_eq a b : Ascii.compare a b = Eq <-> a = b.
Proof.
  split; [apply Ascii.compare_eq_iff|]. intros ->. unfold Ascii.compare. apply N.compare_refl.
Qed.

Lemma str_le_trans a b c : str_le a b = true -> str_le b c = true -> str_le a c = true.
Proof.
  unfold str_le. revert b c. induction a as [|x a IH]; intros [|y b] [|z c]; cbn; try done.
  destruct (Ascii.compare x y) eqn:E1; [| |done].
  - apply ascii_compare_eq in E1 as ->. destruct (Ascii.compare y z); [|done|done]. apply IH.
  - apply ascii_compare_lt in E1. intros _. destruct (Ascii.compare y z) eqn:E2; [| |done].
    + apply ascii_compare_eq in E2 as ->. by apply ascii_compare_lt in E1 as ->.
    + apply ascii_compare_lt in E2. intros _. assert (code x < code z) as E%ascii_compare_lt by lia. by rewrite E.
Qed.

Lemma str_le_antisym a b : str_le a b = true -> str_le b a = true -> a = b.
Proof.
  unfold str_le. intros H1 H2. apply String.compare_eq_iff. revert H1 H2.
  rewrite (String.compare_antisym b a). by destruct (String.compare a b).
Qed.

Section Older.
Context {A : Type} (time : A -> Z) (addr : A -> string).

Lemma older_total x y : older time addr str_le x y = true \/ older time addr str_le y x = true.
Proof.
  unfold older. destruct (Z.ltb_spec (time x) (time y)), (Z.ltb_spec (time y) (time x)); auto.
  assert (time x = time y) as -> by lia. rewrite Z.eqb_refl. apply str_le_total.
Qed.

Lemma older_spec x y :
  older time addr str_le x y = true <->
  time x < time y \/ (time x = time y /\ str_le (addr x) (addr y) = true).
Proof. unfold older. rewrite orb_true_iff, andb_true_iff, Z.ltb_lt, Z.eqb_eq. done. Qed.

Lemma older_trans x y z :
  older time addr str_le x y = true -> older time addr str_le y z = true -> older time addr str_le x z = true.
Proof.
  rewrite !older_spec. intros [?|[? H1]] [?|[? H2]]; [left; lia|left; lia|left; lia|].
  right. split; [lia|]. by eapply str_le_trans.
Qed.

Lemma older_antisym x y :
  older time addr str_le x y = true -> older time addr str_le y x = true -> time x = time y /\ addr x = addr y.
Proof.
  rewrite !older_spec. intros [?|[? H1]] [?|[? H2]]; try lia. split; [done|]. by apply str_le_antisym.
Qed.
End Older.

(** The head of a sorted list is the least element. *)
Lemma head_sort_by {A} (le : A -> A -> bool) l :
  (forall x y, le x y = true \/ le y x = true) ->
  (forall x y z, le x y = true -> le y z = true -> le x z = true) ->
  match head (sort_by le l) with
  | Some x => x ∈ l /\ forall y, y ∈ l -> le x y = true
  | None => l = []
  end.
Proof.
  intros Ht Htr. pose proof (sort_by_sorted le Ht Htr l) as Hs. pose proof (sort_by_Permutation le l) as Hp.
  destruct (sort_by le l) as [|x l'] eqn:E; cbn.
  - by apply Permutation_nil.
  - inversion Hs as [|? ? _ Hx]; subst. split; [rewrite <- Hp; by left|].
    intros y Hy. rewrite <- Hp in Hy. apply elem_of_cons in Hy as [->|Hy].
    + by destruct (Ht x x).
    + by rewrite Forall_forall in Hx; apply Hx.
Qed.

Section Handles.
Context (unicode_alphanumeric : Z -> bool).
Abbreviation claim := (extract_handle_match unicode_alphanumeric).
Abbreviation prefix_claim := (handle_prefix_match unicode_alphanumeric).
Abbreviation norm := (normalize_handle unicode_alphanumeric).

(** The account [a] holds the handle, no other claim to it is older, and of the claims of the
    same time its address is the first. *)
Definition owns (handle : string) (accounts : list ScannedAccount) (a : string) : Prop :=
  exists t acct, acct ∈ accounts /\ claim handle acct = Some (a, t) /\
  forall acct' a' t', acct' ∈ accounts -> claim handle acct' = Some (a', t') ->
    t < t' \/ (t = t' /\ str_le a a' = true).

Definition owner (handle : string) (accounts : list ScannedAccount) : option string :=
  pick_oldest_match (omap (claim handle) accounts).

Lemma owner_spec handle accounts :
  match owner handle accounts with
  | Some a => owns handle accounts a
  | None => forall acct, acct ∈ accounts -> claim handle acct = None
  end.
Proof.
  unfold owner, pick_oldest_match.
  pose proof (head_sort_by (older snd fst str_le) (omap (claim handle) accounts)
    (older_total _ _) (older_trans _ _)) as Hh.
  destruct (head _) as [[a t]|]; cbn.
  - destruct Hh as [Hin Hmin]. apply list_elem_of_omap in Hin as (acct & Hacct & Hc). exists t, acct.
    split; [done|]. split; [done|]. intros acct' a' t' Hin' Hc'.
    apply (older_spec snd fst (a, t) (a', t')), Hmin, list_elem_of_omap. eauto.
  - intros acct Hacct. destruct (claim handle acct) as [c|] eqn:Hc; [|done].
    assert (c ∈ omap (claim handle) accounts) as Hx by (apply list_elem_of_omap; eauto).
    rewrite Hh in Hx. by apply elem_of_nil in Hx.
Qed.

Lemma owns_unique handle accounts a b : owns handle accounts a -> owns handle accounts b -> a = b.
Proof.
  intros (t & x & Hx & Cx & Mx) (u & y & Hy & Cy & My).
  destruct (Mx _ _ _ Hy Cy) as [?|[? ?]], (My _ _ _ Hx Cx) as [?|[? ?]]; try lia. by apply str_le_antisym.
Qed.

Lemma owner_is handle accounts a : owner handle accounts = Some a <-> owns handle accounts a.
Proof.
  pose proof (owner_spec handle accounts) as Ho. destruct (owner handle accounts) as [b|]; split.
  - by intros [= ->].
  - intros Ha. f_equal. by eapply owns_unique.
  - done.
  - intros (t & x & Hx & Cx & _). by rewrite (Ho x Hx) in Cx.
Qed.

(** (C32) Who owns a handle is decided by the claims alone.  The lookup gives the account
    that holds the handle, in its normal form, since the earliest time, the first address
    among those of the same time, and none only if no account holds it.  The order in
    which the indexer gives the accounts does not matter; and accounts whose claims are
    later than the owner's never take the handle from it. *)
Theorem owner_determined handle accounts :
  match owner handle accounts with
  | Some a => owns handle accounts a
  | None => forall acct, acct ∈ accounts -> claim handle acct = None
  end /\
  (forall accounts', accounts ≡ₚ accounts' -> owner handle accounts' = owner handle accounts) /\
  (forall a more, owns handle accounts a ->
     (forall acct b u, acct ∈ more -> claim handle acct = Some (b, u) ->
        forall acct' t, acct' ∈ accounts -> claim handle acct' = Some (a, t) -> t < u) ->
     owner handle (accounts ++ more) = Some a).
Proof using.
  split; [apply owner_spec|]. split.
  - intros accounts' Hp. destruct (owner handle accounts) as [a|] eqn:E.
    + apply owner_is in E as (t & x & Hx & Cx & Mx). apply owner_is. exists t, x.
      setoid_rewrite <- Hp. done.
    + pose proof (owner_spec handle accounts) as Hn. rewrite E in Hn.
      pose proof (owner_spec handle accounts') as Ho. destruct (owner handle accounts') as [b|]; [|done].
      destruct Ho as (t & x & Hx & Cx & _). rewrite <- Hp in Hx. by rewrite (Hn x Hx) in Cx.
  - intros a more (t & x & Hx & Cx & Mx) Hmore. apply owner_is. exists t, x.
    split; [apply elem_of_app; by left|]. split; [done|]. intros y b u [Hy|Hy]%elem_of_app Cy; [by eapply Mx|].
    left. by eapply Hmore.
Qed.

Lemma prefix_of_claim handle acct a t :
  norm handle <> [] -> claim handle acct = Some (a, t) ->
  exists h, prefix_claim handle acct = Some (a, h, t) /\ norm h = norm handle.
Proof.
  intros Hn. unfold extract_handle_match, handle_prefix_match. rewrite (bool_decide_eq_false_2 _ Hn).
  destruct (field "Handle" (local_state acct)) as [h|]; cbn; [|done].
  destruct (bool_decide (norm h = norm handle)) eqn:E; [|done]. apply bool_decide_eq_true in E. intros [= <- <-].
  exists h. split; [|done]. unfold starts_with. rewrite E, firstn_all. by rewrite bool_decide_eq_true_2.
Qed.

Lemma claim_of_prefix handle acct a h t :
  prefix_claim handle acct = Some (a, h, t) ->
  claim handle acct = (if bool_decide (norm h = norm handle) then Some (a, t) else None).
Proof.
  unfold extract_handle_match, handle_prefix_match. destruct (bool_decide (norm handle = [])); [done|].
  destruct (field "Handle" (local_state acct)) as [h'|]; cbn; [|done].
  destruct (starts_with (norm h') (norm handle)); [|done]. intros [= <- <- <-]. done.
Qed.

Lemma rank_total x y : rank_le x y = true \/ rank_le y x = true.
Proof. destruct x as [[] x], y as [[] y]; cbn; auto; apply older_total. Qed.

Lemma rank_trans x y z : rank_le x y = true -> rank_le y z = true -> rank_le x z = true.
Proof. destruct x as [[] x], y as [[] y], z as [[] z]; cbn; try done; apply older_trans. Qed.

(** What the partial lookup gives. *)
Definition best (prefix : string) (accounts : list ScannedAccount) : option (string * string) :=
  fst <$> head (rank_prefix_matches unicode_alphanumeric (omap (prefix_claim prefix) accounts) prefix 1).

Lemma best_spec prefix accounts :
  match best prefix accounts with
  | Some (a, h) =>
      exists t acct, acct ∈ accounts /\ prefix_claim prefix acct = Some (a, h, t) /\
      forall acct' a' h' t', acct' ∈ accounts -> prefix_claim prefix acct' = Some (a', h', t') ->
        rank_le (bool_decide (norm h = norm prefix), (a, h, t)) (bool_decide (norm h' = norm prefix), (a', h', t')) = true
  | None => forall acct, acct ∈ accounts -> prefix_claim prefix acct = None
  end.
Proof.
  unfold best, rank_prefix_matches. set (ranked := _ <$> omap _ accounts).
  pose proof (head_sort_by rank_le ranked rank_total rank_trans) as Hh.
  destruct (sort_by rank_le ranked) as [|[e [[a h] t]] l]; cbn in *.
  - intros acct Hacct. destruct (prefix_claim prefix acct) as [c|] eqn:Hc; [|done].
    apply fmap_nil_inv in Hh. assert (c ∈ omap (prefix_claim prefix) accounts) as Hx by (apply list_elem_of_omap; eauto).
    rewrite Hh in Hx. by apply elem_of_nil in Hx.
  - destruct Hh as [Hin Hmin]. apply list_elem_of_fmap in Hin as (m & [= -> <-] & Hm).
    apply list_elem_of_omap in Hm as (acct & Hacct & Hc). exists t, acct. split; [done|]. split; [done|].
    intros acct' a' h' t' Hin' Hc'. apply Hmin, list_elem_of_fmap. exists (a', h', t'). split; [done|].
    apply list_elem_of_omap. eauto.
Qed.

(** The two ways to look a handle up agree.  When some account holds a handle whose normal
    form is that of the text typed, the search by prefix gives the very account that the
    lookup of the handle gives, with the handle as it was registered; when none does, the
    search gives a handle that only starts with the text, and the oldest of those. *)
Theorem partial_lookup_agrees text accounts :
  norm text <> [] ->
  match owner text accounts with
  | Some a => exists h, best text accounts = Some (a, h) /\ norm h = norm text
  | None =>
      forall a h, best text accounts = Some (a, h) ->
        norm h <> norm text /\ starts_with (norm h) (norm text) = true /\
        exists t acct, acct ∈ accounts /\ prefix_claim text acct = Some (a, h, t) /\
          forall acct' a' h' t', acct' ∈ accounts -> prefix_claim text acct' = Some (a', h', t') ->
            t < t' \/ (t = t' /\ str_le a a' = true)
  end.
Proof using.
  intros Hn. pose proof (best_spec text accounts) as Hb. destruct (owner text accounts) as [a|] eqn:Ho.
  - apply owner_is in Ho as (t & x & Hx & Cx & Mx). destruct (prefix_of_claim _ _ _ _ Hn Cx) as (h & Px & Eh).
    destruct (best text accounts) as [[b h']|]; [|by rewrite (Hb x Hx) in Px].
    destruct Hb as (u & y & Hy & Py & My). specialize (My _ _ _ _ Hx Px). rewrite (bool_decide_eq_true_2 _ Eh) in My.
    destruct (bool_decide (norm h' = norm text)) eqn:E; cbn in My; [|done].
    pose proof (claim_of_prefix _ _ _ _ _ Py) as Cy. rewrite E in Cy. apply bool_decide_eq_true in E.
    exists h'. split; [|done]. do 2 f_equal. apply older_spec in My. cbn in My.
    destruct (Mx _ _ _ Hy Cy) as [?|[? ?]], My as [?|[? ?]]; try lia. by apply str_le_antisym.
  - intros a h E. rewrite E in Hb. destruct Hb as (t & x & Hx & Px & Mx).
    pose proof (owner_spec text accounts) as Hnone. rewrite Ho in Hnone.
    assert (forall y a' h' t', y ∈ accounts -> prefix_claim text y = Some (a', h', t') ->
      bool_decide (norm h' = norm text) = false) as Hex.
    { intros y a' h' t' Hy Py. pose proof (Hnone y Hy) as Hc. rewrite (claim_of_prefix _ _ _ _ _ Py) in Hc.
      destruct (bool_decide (norm h' = norm text)); [discriminate Hc|done]. }
    split; [eapply bool_decide_eq_false, Hex; eauto|]. split.
    + clear -Px. unfold handle_prefix_match in Px. destruct (bool_decide _); [done|].
      destruct (field _ _) as [h'|]; cbn in Px; [|done]. destruct (starts_with _ _) eqn:E; [|done]. by injection Px as _ <- _.
    + exists t, x. split; [done|]. split; [done|]. intros y a' h' t' Hy Py. specialize (Mx _ _ _ _ Hy Py).
      rewrite (Hex _ _ _ _ Hx Px), (Hex _ _ _ _ Hy Py) in Mx. cbn in Mx. by apply older_spec in Mx.
Qed.
End Handles.

(** ** Permissions *)

Lemma land_bit r i : 0 <= i -> negb (Z.land r (Z.shiftl 1 i) =? 0) = Z.testbit r i.
Proof.
  intros Hi. rewrite Z.shiftl_1_l. destruct (Z.testbit r i) eqn:E.
  - apply negb_true_iff, Z.eqb_neq. intros H0. apply (f_equal (fun z => Z.testbit z i)) in H0.
    rewrite Z.land_spec, E, Z.pow2_bits_true, Z.bits_0 in H0 by lia. done.
  - apply negb_false_iff, Z.eqb_eq, Z.bits_inj'. intros n Hn. rewrite Z.land_spec, Z.bits_0.
    destruct (decide (n = i)) as [->|Hne]; [by rewrite E|]. rewrite Z.pow2_bits_false by lia. apply andb_false_r.
Qed.

(** A permission is what its bit says, and an account from before the bits has only the
    two permissions it was given then: when bit 63 of [allow_static] is set the bits are
    read as they are; otherwise bit 0 is set when [allow_static] was not 0, bit 1 when
    [allow_relay] was not 0, and none of the others, so that no permission of Sidewinder
    comes from an old account, whatever number it holds. *)
Theorem permission_bits kvs i :
  0 <= i ->
  Z.testbit (effective_allow_bits kvs) i =
  match find_uint "allow_static" kvs with
  | Some r => if Z.testbit r 63 then Z.testbit r i
              else ((i =? 0) && negb (r =? 0)) || ((i =? 1) && negb (default 0 (find_uint "allow_relay" kvs) =? 0))
  | None => (i =? 1) && negb (default 0 (find_uint "allow_relay" kvs) =? 0)
  end.
Proof.
  intros Hi. unfold effective_allow_bits, BIT_MIGRATED.
  assert (forall (j : Z) (b : bool), 0 <= j -> Z.testbit (if b then Z.shiftl 1 j else 0) i = (i =? j) && b) as Hbit.
  { intros j b Hj. rewrite Z.shiftl_1_l. destruct b; rewrite ?Z.bits_0, ?andb_false_r, ?andb_true_r; [|done].
    destruct (Z.eqb_spec i j) as [->|]; [by apply Z.pow2_bits_true|by apply Z.pow2_bits_false]. }
  assert (Z.testbit (match find_uint "allow_relay" kvs with Some r => if negb (r =? 0) then BIT_RELAY else 0 | None => 0 end) i
    = (i =? 1) && negb (default 0 (find_uint "allow_relay" kvs) =? 0)) as Hr.
  { destruct (find_uint "allow_relay" kvs) as [r|]; cbn [default]; [apply Hbit; lia|].
    by rewrite Z.bits_0, andb_false_r. }
  destruct (find_uint "allow_static" kvs) as [r|]; [|exact Hr]. rewrite land_bit by lia.
  destruct (Z.testbit r 63); [done|]. rewrite Z.lor_spec, Hr. unfold BIT_STATIC. by rewrite Hbit.
Qed.

(** ** The endpoint record of a Sidewinder node *)

Definition v4_ok (x : Z * Z * Z * Z * Z) : Prop :=
  let '(a, b, c, d, p) := x in bytes_ok [a; b; c; d] /\ in_width 16 p.
Definition v6_ok (x : Z * Z) : Prop := in_width 128 x.1 /\ in_width 16 x.2.

(** A record of addresses as they are, with at least one. *)
Definition record_ok (r : SidewinderEndpointRecord) : Prop :=
  (forall x, sw_v4 r = Some x -> v4_ok x) /\ (forall x, sw_v6 r = Some x -> v6_ok x) /\
  (sw_v4 r = None -> sw_v6 r <> None).

Definition v4_bytes (v4 : option (Z * Z * Z * Z * Z)) : list Z :=
  match v4 with Some (a, b, c, d, p) => [a; b; c; d] ++ to_be_bytes 2 p | None => [] end.
Definition v6_bytes (v6 : option (Z * Z)) : list Z :=
  match v6 with Some (v, p) => to_be_bytes 16 v ++ to_be_bytes 2 p | None => [] end.

Lemma split_at_app n (l1 l2 : list Z) : length l1 = n -> split_at_checked n (l1 ++ l2) = Some (l1, l2).
Proof.
  intros <-. unfold split_at_checked. rewrite length_app.
  destruct (Nat.leb_spec (length l1) (length l1 + length l2)); [|lia]. by rewrite take_app_length, drop_app_length.
Qed.

Lemma split_at_some n l a b : split_at_checked n l = Some (a, b) -> l = a ++ b /\ length a = n.
Proof.
  unfold split_at_checked. destruct (Nat.leb_spec n (length l)); [|done]. intros [= <- <-].
  rewrite take_drop, length_take. split; [done|lia].
Qed.

Lemma take_v4_exact present l x rest :
  bytes_ok l ->
  take_v4 present l = Some (x, rest) <->
  (forall y, x = Some y -> v4_ok y) /\ bool_decide (is_Some x) = present /\ l = v4_bytes x ++ rest.
Proof.
  intros Hl. unfold take_v4. destruct present.
  - split.
    + destruct (split_at_checked 6 l) as [[block tail]|] eqn:E; cbn; [|done].
      apply split_at_some in E as [-> Hlen]. destruct block as [|a [|b [|c [|d p]]]]; try done. intros [= <- <-].
      unfold bytes_ok in Hl. rewrite Forall_app in Hl. destruct Hl as [Hb _]. cbn in Hlen.
      assert (bytes_ok [a; b; c; d] /\ bytes_ok p) as [Hq Hp].
      { change (a :: b :: c :: d :: p) with ([a; b; c; d] ++ p) in Hb. by apply Forall_app in Hb. }
      pose proof (from_be_bytes_bound p Hp) as Hw. split_and!; [|done|].
      * intros y [= <-]. split; [done|]. unfold in_width. assert (length p = 2%nat) as Hp2 by lia. by rewrite Hp2 in Hw.
      * cbn [v4_bytes app]. replace 2%nat with (length p) by lia. by rewrite to_from_be_bytes.
    + intros (Hx & Hs & ->). destruct x as [[[[[a b] c] d] p]|]; [|done]. cbn [v4_bytes].
      destruct (Hx _ eq_refl) as [_ Hp]. rewrite split_at_app by done. cbn [mbind option_bind].
      change ([a; b; c; d] ++ to_be_bytes 2 p) with (a :: b :: c :: d :: to_be_bytes 2 p). cbn [app].
      by rewrite from_to_be_bytes_small.
  - split.
    + intros [= <- <-]. split_and!; by intros.
    + intros (_ & Hs & ->). by destruct x.
Qed.

Lemma take_v6_exact present l x rest :
  bytes_ok l ->
  take_v6 present l = Some (x, rest) <->
  (forall y, x = Some y -> v6_ok y) /\ bool_decide (is_Some x) = present /\ l = v6_bytes x ++ rest.
Proof.
  intros Hl. unfold take_v6. destruct present.
  - split.
    + destruct (split_at_checked 18 l) as [[block tail]|] eqn:E; cbn -[take drop]; [|done].
      apply split_at_some in E as [-> Hlen]. intros [= <- <-].
      unfold bytes_ok in Hl. rewrite Forall_app in Hl. destruct Hl as [Hb _].
      assert (bytes_ok (take 16 block) /\ bytes_ok (drop 16 block)) as [Hq Hp].
      { rewrite <- (take_drop 16 block) in Hb. by apply Forall_app in Hb. }
      assert (length (take 16 block) = 16%nat) as L1 by (rewrite length_take; lia).
      assert (length (drop 16 block) = 2%nat) as L2 by (rewrite length_drop; lia).
      pose proof (from_be_bytes_bound _ Hq) as W1. pose proof (from_be_bytes_bound _ Hp) as W2.
      rewrite L1 in W1. rewrite L2 in W2. split_and!; [|done|].
      * intros y [= <-]. done.
      * cbn [v6_bytes]. pose proof (to_from_be_bytes _ Hq) as E1. pose proof (to_from_be_bytes _ Hp) as E2.
        rewrite L1 in E1. rewrite L2 in E2. by rewrite E1, E2, take_drop.
    + intros (Hx & Hs & ->). destruct x as [[v p]|]; [|done]. cbn [v6_bytes].
      destruct (Hx _ eq_refl) as [Hv Hp]. cbn [fst snd] in *. rewrite split_at_app; [|by rewrite length_app, !length_to_be_bytes].
      cbn [mbind option_bind]. rewrite take_app_le, drop_app_ge, length_to_be_bytes, Nat.sub_diag by (rewrite length_to_be_bytes; lia).
      rewrite firstn_all2, drop_0 by (rewrite length_to_be_bytes; lia). by rewrite !from_to_be_bytes_small.
  - split.
    + intros [= <- <-]. split_and!; by intros.
    + intros (_ & Hs & ->). by destruct x.
Qed.

Lemma flags_land (b4 b6 : bool) (f : Z) :
  in_width 8 f ->
  (Z.land f (Z.lxor 255 (Z.lor FLAG_V4 FLAG_V6)) =? 0) = true /\ negb (Z.land f FLAG_V4 =? 0) = b4 /\
  negb (Z.land f FLAG_V6 =? 0) = b6 <->
  f = Z.lor (if b4 then FLAG_V4 else 0) (if b6 then FLAG_V6 else 0).
Proof.
  intros Hf. unfold in_width in Hf. change (2 ^ 8) with 256 in Hf. split.
  - intros (H1 & H2 & H3). apply Z.eqb_eq in H1. change (Z.lxor 255 (Z.lor FLAG_V4 FLAG_V6)) with 252 in H1.
    assert (f = Z.land f 3) as E.
    { assert (Z.land f 255 = f) as Ef. { change 255 with (Z.ones 8). rewrite Z.land_ones by lia. by apply Z.mod_small. }
      rewrite <- Ef at 1. change 255 with (Z.lor 252 3). by rewrite Z.land_lor_distr_r, H1, Z.lor_0_l. }
    assert (0 <= Z.land f 3 <= 3) as B.
    { assert (Z.land f 3 = f mod 4) as -> by (by apply (Z.land_ones f 2)).
      pose proof (Z.mod_pos_bound f 4 ltac:(lia)). lia. }
    rewrite <- E in B. assert (f = 0 \/ f = 1 \/ f = 2 \/ f = 3) as [-> | [-> | [-> | ->]]] by lia;
      cbn in H2, H3; by subst.
  - intros ->. by destruct b4, b6.
Qed.

(** The record of a node's endpoints and its bytes correspond exactly.  The bytes decode to
    a record if and only if they are the encoding of that record, and it names at least
    one address: what was published is read back, nothing else decodes, and no two byte
    strings decode to the same record. *)
Theorem endpoint_record_exact bytes r :
  bytes_ok bytes -> from_bytes bytes = Some r <-> record_ok r /\ bytes = to_bytes r.
Proof.
  intros Hb. destruct r as [v4 v6]. unfold record_ok, to_bytes. cbn [sw_v4 sw_v6]. fold (v4_bytes v4) (v6_bytes v6).
  assert (forall A (o : option A) (x y : Z), (if o is Some _ then x else y) = (if bool_decide (is_Some o) then x else y)) as Hif
    by (by intros A []).
  rewrite !Hif. destruct bytes as [|flags rest]; [split; [done|by intros [_ ?]]|].
  assert (in_width 8 flags /\ bytes_ok rest) as [Hf Hr] by (by apply Forall_cons in Hb). cbn [from_bytes]. split.
  - destruct (Z.land flags _ =? 0) eqn:E0; cbn [negb]; [|done].
    destruct (take_v4 _ rest) as [[x4 r1]|] eqn:E4; cbn [mbind option_bind]; [|done].
    apply take_v4_exact in E4 as (H4 & P4 & ->); [|done]. apply Forall_app in Hr as [_ Hr1].
    destruct (take_v6 _ r1) as [[x6 r2]|] eqn:E6; cbn [mbind option_bind]; [|done].
    apply take_v6_exact in E6 as (H6 & P6 & ->); [|done]. destruct r2; [|done].
    intros Hn. assert (x4 = v4 /\ x6 = v6 /\ (v4 = None -> v6 <> None)) as (-> & -> & Hne)
      by (clear -Hn; destruct x4, x6; cbn in Hn; naive_solver).
    split; [done|]. rewrite app_nil_r. f_equal. by apply flags_land.
  - intros ((H4 & H6 & Hne) & [= Ef ->]). destruct (proj2 (flags_land _ _ flags Hf) Ef) as (-> & P4 & P6). cbn [negb].
    rewrite P4, P6. assert (take_v4 (bool_decide (is_Some v4)) (v4_bytes v4 ++ v6_bytes v6) = Some (v4, v6_bytes v6)) as ->
      by (by apply take_v4_exact).
    cbn [mbind option_bind]. apply Forall_app in Hr as [_ Hr1].
    assert (take_v6 (bool_decide (is_Some v6)) (v6_bytes v6) = Some (v6, [])) as ->
      by (apply take_v6_exact; [done|]; by rewrite app_nil_r).
    cbn. by destruct v4, v6; cbn; try done; specialize (Hne eq_refl).
Qed.

(** ** What the node is given *)

Lemma cm_bind_inv {W A B} (m : CM W A) (k : A -> CM W B) s s' r :
  (m ≫= k) s = (s', r) ->
  (exists e, m s = (s', Err e) /\ r = Err e) \/ exists a s1, m s = (s1, Ok a) /\ k a s1 = (s', r).
Proof.
  unfold mbind, cm_bind. destruct (m s) as [s1 [a|e]]; [by eauto|]. intros [= <- <-]. eauto.
Qed.

Lemma fails_inv {W A B} e (k : A -> CM W B) s s' r : (fails e ≫= k) s = (s', r) -> s' = s /\ r = Err e.
Proof. by intros [= <- <-]. Qed.

(** Inverts the binds of a run, one after the other. *)
Ltac cm_inv :=
  repeat match goal with
  | H : (_ ≫= _) _ = (_, _) |- _ =>
      apply cm_bind_inv in H as [(? & ? & ->)|(? & ? & ? & H)]
  | H : mret _ _ = (_, _) |- _ => injection H as <- <-
  | H : fails _ _ = (_, _) |- _ => injection H as <- <-
  end.

Section Sent.
Context {W : Type} `{AlgoNode W}.

(** A computation gives the node only what [may] allows, by signer and request; when it
    succeeds, the node has taken all of it. *)
Definition honest {A} (may : string -> request -> Prop) (m : CM W A) : Prop :=
  forall s s' r, m s = (s', r) ->
  exists new, sent s' = sent s ++ new /\ Forall (fun e => may e.1.1 e.1.2) new /\
              (is_ok r = true -> Forall (fun e => e.2 = true) new).

Lemma honest_ret {A} may (a : A) : honest may (mret a).
Proof using. intros s s' r [= <- <-]. exists []. by rewrite app_nil_r. Qed.

Lemma honest_fails {A} may e : honest may (fails e : CM W A).
Proof using. intros s s' r [= <- <-]. exists []. by rewrite app_nil_r. Qed.

Lemma honest_asks {A} may (f : W -> W * result A string) : honest may (asks f).
Proof using.
  intros s s' r. unfold asks. destruct (f (world s)). intros [= <- <-]. exists []. by rewrite app_nil_r.
Qed.

Lemma honest_ensure may b e : honest may (ensure b e : CM W unit).
Proof using. unfold ensure. destruct b; [apply honest_ret|apply honest_fails]. Qed.

Lemma honest_positive may what n : honest may (positive what n : CM W unit).
Proof using. apply honest_ensure. Qed.

Lemma honest_bind {A B} may (m : CM W A) (k : A -> CM W B) :
  honest may m -> (forall a, honest may (k a)) -> honest may (m ≫= k).
Proof using.
  intros Hm Hk s s' r [(e & E & ->)|(a & s1 & E1 & E2)]%cm_bind_inv.
  - destruct (Hm _ _ _ E) as (new & ? & ? & _). by exists new.
  - destruct (Hm _ _ _ E1) as (n1 & S1 & F1 & O1), (Hk _ _ _ _ E2) as (n2 & S2 & F2 & O2).
    exists (n1 ++ n2). rewrite S2, S1, <- app_assoc, !Forall_app. split; [done|]. split; [done|].
    intros Hr. split; [by apply O1|by apply O2].
Qed.

Lemma honest_submits may me r : may me r -> honest may (submits me r).
Proof using.
  intros Hme s s' x. unfold submits. destruct (submit me r (world s)) as [w y]. intros [= <- <-].
  eexists. split; [done|]. split; [by constructor|]. intros Hy. by constructor.
Qed.

Lemma honest_submits_id may me r : may me r -> honest may (submits_for_id me r).
Proof using.
  intros Hme s s' x. unfold submits_for_id. destruct (submit_for_id me r (world s)) as [w y]. intros [= <- <-].
  eexists. split; [done|]. split; [by constructor|]. intros Hy. by constructor.
Qed.

(** The computations that only read. *)
Definition quiet {A} (m : CM W A) : Prop := forall s s' r, m s = (s', r) -> sent s' = sent s.

Lemma quiet_honest {A} may (m : CM W A) : quiet m -> honest may m.
Proof using. intros Hm s s' r E. exists []. rewrite app_nil_r. by rewrite (Hm _ _ _ E). Qed.

Lemma quiet_bind {A B} (m : CM W A) (k : A -> CM W B) : quiet m -> (forall a, quiet (k a)) -> quiet (m ≫= k).
Proof using.
  intros Hm Hk s s' r [(e & E & ->)|(a & s1 & E1 & E2)]%cm_bind_inv; [by eapply Hm|].
  rewrite (Hk _ _ _ _ E2). by eapply Hm.
Qed.

Lemma quiet_ret {A} (a : A) : quiet (mret a).
Proof using. by intros s s' r [= <- <-]. Qed.
Lemma quiet_fails {A} e : quiet (fails e : CM W A).
Proof using. by intros s s' r [= <- <-]. Qed.
Lemma quiet_asks {A} (f : W -> W * result A string) : quiet (asks f).
Proof using. intros s s' r. unfold asks. destruct (f (world s)). by intros [= <- <-]. Qed.
Lemma quiet_ensure b e : quiet (ensure b e : CM W unit).
Proof using. unfold ensure. destruct b; [apply quiet_ret|apply quiet_fails]. Qed.

Lemma quiet_query app mode life : quiet (indexer_query_opted_in_accounts_sync app mode life).
Proof using.
  intros s s' r. unfold indexer_query_opted_in_accounts_sync.
  destruct (fetch_opted_in_accounts_cached _ _ _ _ _) as [w [c [|e]]]; [by intros [= <- <-]|].
  destruct (0 <? last_updated c); by intros [= <- <-].
Qed.

Lemma quiet_lookup uni A handle : quiet (handle_lookup uni A handle).
Proof using.
  apply quiet_bind.
  - unfold lookup_app. destruct (negb _); [apply quiet_ret|]. destruct (config_app_id A); [apply quiet_ret|apply quiet_fails].
  - intros app. apply quiet_bind; [apply quiet_query|]. intros accounts. apply quiet_ret.
Qed.

Lemma quiet_verify uni n A handle expected first : quiet (verify_loop uni n A handle expected first).
Proof using.
  revert first. induction n as [|n IH]; intros first; cbn [verify_loop]; [apply quiet_ret|].
  apply quiet_bind; [apply quiet_asks|]. intros _. apply quiet_bind; [apply quiet_lookup|]. intros [w|]; [|apply IH].
  destruct (String.eqb w expected); [apply quiet_ret|apply quiet_fails].
Qed.

Lemma quiet_first ancestors account : quiet (first_with_state ancestors account).
Proof using.
  induction ancestors as [|a l IH]; cbn [first_with_state]; [apply quiet_ret|].
  apply quiet_bind; [apply quiet_asks|]. intros [kvs|]; [apply quiet_ret|apply IH].
Qed.
End Sent.

Create HintDb chain.

#[export] Hint Resolve honest_ret honest_fails honest_asks honest_ensure honest_positive honest_submits
  honest_submits_id quiet_ret quiet_fails quiet_asks quiet_ensure quiet_query quiet_lookup quiet_verify quiet_first : chain.

(** Shows that an operation is honest, bind by bind. *)
Ltac honest :=
  repeat first
    [ done
    | apply honest_bind; [|intros ?]
    | progress eauto with chain
    | solve [apply quiet_honest; eauto with chain]
    | match goal with |- honest _ (match ?x with _ => _ end) => destruct x end ].

Section Operations.
Context {W : Type} `{AlgoNode W}.
Context (address_to_byte_key : string -> result (list Z) string)
  (base64_encode : list Z -> string) (unicode_alphanumeric : Z -> bool).

(** The operations that write to the chain with the client's own account. *)
Inductive operation : Type :=
| OpAllow (app : Z) (target sig : string) (allow : bool)
| OpEnrol (app : Z)
| OpWithdraw (app : Z) (to : string) (amount asset asset_amount : Z)
| OpRole (app : Z) (who sig : string)
| OpCallWithApp (app other : Z) (what : string) (asset : option Z) (sig : string) (args : list AppArg)
| OpRegisterEndpoint (app : Z) (record : string)
| OpSidewinderEndpoint (app : Z) (ipv4 ipv6 : option SocketAddr)
| OpMigrate (app : Z)
| OpOptInAsset (asset : Z)
| OpBuy (app asset price : Z)
| OpSell (app asset amount price : Z)
| OpRegister (app asset : Z) (handle : string) (price_units : Z).

Definition run_operation (A : AlgoBingle) (o : operation) : CM W unit :=
  match o with
  | OpAllow app target sig allow => _ ← set_allow_flag address_to_byte_key A app target sig allow; mret tt
  | OpEnrol app => _ ← enrol_sw_client A app; mret tt
  | OpWithdraw app to amount asset n => _ ← withdraw address_to_byte_key A app to amount asset n; mret tt
  | OpRole app who sig => _ ← set_role address_to_byte_key A app who sig; mret tt
  | OpCallWithApp app other what asset sig args => _ ← call_with_app A app other what asset sig args; mret tt
  | OpRegisterEndpoint app record => _ ← register_endpoint A app record; mret tt
  | OpSidewinderEndpoint app v4 v6 => _ ← register_sidewinder_endpoint base64_encode A app v4 v6; mret tt
  | OpMigrate app => _ ← ensure_local_migrated A app; mret tt
  | OpOptInAsset asset => _ ← opt_in_sender_to_asset A asset; mret tt
  | OpBuy app asset price => _ ← buy_bingle A app asset price; mret tt
  | OpSell app asset amount price => _ ← sell_bingle A app asset amount price; mret tt
  | OpRegister app asset handle price => _ ← register unicode_alphanumeric A app asset handle price; mret tt
  end.

Lemma honest_own A may (a : string) : address A = Some a -> honest may (own_address A : CM W string).
Proof using. intros E. unfold own_address. rewrite E. apply honest_ret. Qed.

(** A bind on the own address is the continuation at it. *)
Lemma honest_bind_own {B} A may me (k : string -> CM W B) :
  address A = Some me -> honest may (k me) -> honest may (own_address A ≫= k).
Proof using. intros E Hk. unfold own_address. rewrite E. exact Hk. Qed.

Lemma honest_opt_in A me may asset :
  address A = Some me -> may me (OptInAsset asset) -> honest may (opt_in_sender_to_asset A asset).
Proof using.
  intros E Hs. apply honest_bind; [apply honest_positive|intros _]. apply (honest_bind_own _ _ me); [done|].
  apply honest_bind; [apply honest_asks|]. intros []; [apply honest_ret|by apply honest_submits].
Qed.

Lemma honest_call_with_app A me may app other what asset sig args :
  address A = Some me -> may me (CallAppWithForeignApp app other asset sig args) -> honest may (call_with_app A app other what asset sig args).
Proof using.
  intros E Hs. do 2 (apply honest_bind; [apply honest_positive|intros _]). apply (honest_bind_own _ _ me); [done|].
  by apply honest_submits.
Qed.

Ltac ops me :=
  repeat first
    [ apply (honest_bind_own _ _ me); [assumption|]
    | apply (honest_opt_in _ me); [assumption|auto]
    | apply (honest_call_with_app _ me); [assumption|auto]
    | solve [eauto with chain]
    | solve [apply quiet_honest; unfold verify_registration_winner; eauto with chain]
    | apply honest_bind; [|intros ?]
    | match goal with |- honest _ (match ?x with _ => _ end) => destruct x end ].

(** Every operation signs with the client's own account only, and says that it succeeded
    only when the node has taken everything it was given: opting in, the fee, the call. *)
Theorem operations_honest A me o :
  address A = Some me -> honest (fun signer _ => signer = me) (run_operation A o).
Proof using.
  intros E. assert (forall r : request, (fun signer _ => signer = me) me r) as Hs by done.
  destruct o; cbn [run_operation]; (apply honest_bind; [|intros ?; apply honest_ret]);
    unfold set_allow_flag, enrol_sw_client, withdraw, set_role, register_endpoint, register_sidewinder_endpoint,
      ensure_local_migrated, holds_handle, find_migratable_ancestor, ancestor_apps, migrate_local, buy_bingle,
      sell_bingle, register, register_unchecked; ops me.
Qed.

(** ** Registration *)

Definition is_opt_in (r : request) : bool :=
  match r with OptInApp _ | OptInAppToAsset _ _ _ | OptInAsset _ => true | _ => false end.

(** What registering gives the node: opting in, then, if all of that was taken, the group with
    the fee. *)
Definition registration_log (me : string) (group : request) (new : list (string * request * bool)) (ok : bool) : Prop :=
  exists opts fee, new = opts ++ fee /\ Forall (fun e => e.1.1 = me /\ is_opt_in e.1.2 = true) opts /\
    (fee = [] \/ (Forall (fun e => e.2 = true) opts /\ exists taken, fee = [(me, group, taken)])) /\
    (ok = true -> fee = [(me, group, true)]).

Lemma honest_frame {A} (may : string -> request -> Prop) (m : CM W A) s s' r :
  honest may m -> m s = (s', r) ->
  exists new, sent s' = sent s ++ new /\ Forall (fun e => may e.1.1 e.1.2) new /\
    (is_ok r = true -> Forall (fun e => e.2 = true) new).
Proof using. intros Hm E. by apply (Hm _ _ _ E). Qed.

(** The opt-ins that come before the fee. *)
Definition opt_ins (A : AlgoBingle) (app asset : Z) : CM W string :=
  me ← own_address A;
  _ ← submits me (OptInAppToAsset app asset "opt_in_to_bingle(uint64)void");
  _ ← opt_in_sender_to_asset A asset;
  _ ← submits me (OptInApp app);
  asks (contract_address app).

Lemma opt_ins_honest A me app asset :
  address A = Some me -> honest (fun signer r => signer = me /\ is_opt_in r = true) (opt_ins A app asset).
Proof using. intros E. unfold opt_ins. ops me. Qed.

Lemma unchecked_is A me app asset handle price s :
  address A = Some me ->
  register_unchecked A app asset handle price s =
  (opt_ins A app asset ≫= fun app_addr =>
     submits me (Group [AssetTransfer asset price app_addr; GroupCall app "register(string)void" [ArgBytes (as_bytes handle)]] asset)) s.
Proof using.
  intros E. unfold register_unchecked, opt_ins, own_address. rewrite E. unfold mbind, cm_bind, mret, cm_ret.
  repeat (match goal with |- context [match ?x with _ => _ end] =>
    lazymatch x with context [match _ with _ => _ end] => fail | _ => destruct x as [? [?|?]] end end; try done).
Qed.
Definition fee_group (app asset price : Z) (handle app_addr : string) : request :=
  Group [AssetTransfer asset price app_addr; GroupCall app "register(string)void" [ArgBytes (as_bytes handle)]] asset.

Lemma ensure_ok b e (s s' : chain W) u : ensure b e s = (s', Ok u) -> s' = s /\ b = true.
Proof using. unfold ensure. destruct b; [by intros [= <- _]|done]. Qed.

Lemma ensure_err b e (s s' : chain W) x : ensure b e s = (s', Err x) -> s' = s.
Proof using. unfold ensure. destruct b; [done|by intros [= <- _]]. Qed.

Lemma verify_err n A handle expected first s s' e :
  verify_loop unicode_alphanumeric n A handle expected first s = (s', Err e) ->
  exists s2 s3 x, handle_lookup unicode_alphanumeric A handle s2 = (s3, x) /\
    match x with Ok (Some w) => w <> expected | Ok None => False | Err _ => True end.
Proof using.
  revert first s. induction n as [|n IH]; intros first s E; [done|]. cbn [verify_loop] in E.
  apply cm_bind_inv in E as [(e1 & E & _)|(u & s1 & _ & E)]; [by destruct first|].
  apply cm_bind_inv in E as [(e1 & E & _)|(w & s2 & E1 & E2)]; [by exists s1, s', (Err e1)|].
  destruct w as [w|]; [|by eapply IH]. exists s1, s2, (Ok (Some w)). split; [done|].
  destruct (String.eqb_spec w expected); [done|done].
Qed.

(** The run up to the fee, split at the decisions. *)
Lemma register_split A me app asset handle price s s' r :
  address A = Some me -> register unicode_alphanumeric A app asset handle price s = (s', r) ->
  (sent s' = sent s /\ is_ok r = false) \/
  exists s1 o, handle_lookup unicode_alphanumeric A handle s = (s1, Ok o) /\ (o = None \/ o = Some me) /\
    sent s1 = sent s /\
    ((exists e, register_unchecked A app asset handle price s1 = (s', Err e) /\ r = Err e) \/
     exists tx s2, register_unchecked A app asset handle price s1 = (s2, Ok tx) /\ sent s' = sent s2 /\
       match r with
       | Ok tx' => tx' = tx
       | Err _ => exists s3 s4 x, handle_lookup unicode_alphanumeric A handle s3 = (s4, x) /\
           match x with Ok (Some w) => w <> me | Ok None => False | Err _ => True end
       end).
Proof using.
  intros Ha. unfold register, positive. intros E.
  do 3 (apply cm_bind_inv in E as [(? & ?%ensure_err & ->)|(? & ? & [-> _]%ensure_ok & E)]; [left; by subst|]).
  unfold own_address in E. rewrite Ha in E.
  apply cm_bind_inv in E as [(? & ? & _)|(? & ? & [= <- <-] & E)]; [done|].
  apply cm_bind_inv in E as [(e1 & Hl & ->)|(o & s1 & Hl & E)]; [left; split; [by eapply quiet_lookup|done]|].
  pose proof (quiet_lookup _ _ _ _ _ _ Hl) as Hq.
  apply cm_bind_inv in E as [(e1 & ?%ensure_err & ->)|(u & ? & [-> Ho]%ensure_ok & E)]; [left; by subst|].
  right. exists s1, o. split; [done|]. split; [destruct o as [w|]; [|by left]; apply String.eqb_eq in Ho as ->; by right|].
  split; [done|]. apply cm_bind_inv in E as [(e1 & Hu & ->)|(tx & s2 & Hu & E)]; [by eauto|]. right. exists tx, s2.
  split; [done|]. apply cm_bind_inv in E as [(e1 & Hv & ->)|(v & s3 & Hv & E)].
  - split; [by eapply quiet_verify|]. by eapply verify_err.
  - injection E as <- <-. split; [by eapply quiet_verify|done].
Qed.

(** A registration pays at most once, and only for a handle that was free or its own.  The
    node is given nothing unless the lookup before found no owner or the account itself;
    then it is given requests to opt in, and, when it took all of those, one group with the
    fee and the handle.  Success means that the group was taken; an error after the group
    was taken means that a later lookup failed or found another owner. *)
Theorem register_sends A me app asset handle price s s' r :
  address A = Some me -> register unicode_alphanumeric A app asset handle price s = (s', r) ->
  exists opts fee, sent s' = sent s ++ opts ++ fee /\
    Forall (fun e => e.1.1 = me /\ is_opt_in e.1.2 = true) opts /\
    (opts ++ fee <> [] -> exists s1 o, handle_lookup unicode_alphanumeric A handle s = (s1, Ok o) /\ (o = None \/ o = Some me)) /\
    (fee = [] \/ Forall (fun e => e.2 = true) opts /\
       exists addr taken, fee = [(me, fee_group app asset price handle addr, taken)]) /\
    match r with
    | Ok _ => exists addr, fee = [(me, fee_group app asset price handle addr, true)]
    | Err _ =>
        (exists addr, fee = [(me, fee_group app asset price handle addr, true)]) ->
        exists s2 s3 x, handle_lookup unicode_alphanumeric A handle s2 = (s3, x) /\
          match x with Ok (Some w) => w <> me | Ok None => False | Err _ => True end
    end.
Proof using.
  intros Ha E. destruct (register_split _ _ _ _ _ _ _ _ _ Ha E) as [[Hs Hr]|(s1 & o & Hl & Ho & Hq & Hu)].
  { exists [], []. rewrite app_nil_r. destruct r; [done|]. split_and!; try done; [by left|]. by intros [? ?]. }
  assert (forall s2 (x : result string string), register_unchecked A app asset handle price s1 = (s2, x) ->
    exists opts fee, sent s2 = sent s1 ++ opts ++ fee /\ Forall (fun e => e.1.1 = me /\ is_opt_in e.1.2 = true) opts /\
      (fee = [] /\ is_ok x = false \/ Forall (fun e => e.2 = true) opts /\
         exists addr, fee = [(me, fee_group app asset price handle addr, is_ok x)])) as Hlog.
  { intros s2 x Ex. rewrite (unchecked_is _ me) in Ex by done.
    apply cm_bind_inv in Ex as [(e1 & Ei & ->)|(addr & s3 & Ei & Ex)];
      destruct (opt_ins_honest A me app asset Ha _ _ _ Ei) as (opts & Hs & Hf & Hok).
    - exists opts, []. rewrite app_nil_r. eauto.
    - unfold submits in Ex. destruct (submit me _ (world s3)) as [w y]. injection Ex as <- <-. cbn.
      exists opts, [(me, fee_group app asset price handle addr, is_ok y)]. rewrite Hs, <- app_assoc. eauto 10. }
  destruct Hu as [(e & Eu & ->)|(tx & s2 & Eu & Hs & Hr)];
    destruct (Hlog _ _ Eu) as (opts & fee & Hsent & Hf & Hfee); exists opts, fee.
  - rewrite Hsent, Hq. split_and!; [done|done|by eauto| |].
    + destruct Hfee as [[-> _]|(? & addr & ->)]; [by left|right; eauto].
    + intros [addr ->]. by destruct Hfee as [[? _]|(_ & a & [= _ ?])].
  - destruct Hfee as [[_ ?]|(Hok & addr & ->)]; [done|].
    rewrite Hs, Hsent, Hq. split_and!; [done|done|by eauto|by eauto 10|]. destruct r; [by eauto|by intros _].
Qed.
End Operations.

(** ** Migration *)

(** The node answers from a chain that reading does not change: [local] and [global] are the
    state of accounts and applications. *)
Class ChainView (W : Type) `{AlgoNode W} (local : W -> Z -> string -> option entries)
    (global : W -> Z -> string -> option (list Z)) : Prop := {
  local_read : forall a x w w' r, local_state_for_account a x w = (w', r) ->
    local w' = local w /\ global w' = global w /\ forall o, r = Ok o -> o = local w a x;
  global_read : forall a k w w' r, app_global_bytes a k w = (w', r) ->
    local w' = local w /\ global w' = global w /\ forall o, r = Ok o -> o = global w a k
}.

Section Migration.
Context {W : Type} `{AlgoNode W} (local : W -> Z -> string -> option entries)
  (global : W -> Z -> string -> option (list Z)) `{!ChainView W local global}.

Definition registered_on (s : chain W) (app : Z) (account : string) : bool :=
  match local (world s) app account with
  | Some l => existsb (fun kv => String.eqb (fst kv) "Handle") l
  | None => false
  end.

Definition lineage (s : chain W) (app : Z) : list Z :=
  from_be_bytes <$> chunks8 (default [] (global (world s) app "AncestorApps")).

(** The states in which the chain is the same. *)
Definition same_chain (s s' : chain W) : Prop :=
  local (world s') = local (world s) /\ global (world s') = global (world s) /\ sent s' = sent s.

Lemma ask_local a x s s' (r : result (option entries) string) :
  asks (local_state_for_account a x) s = (s', r) -> same_chain s s' /\ forall o, r = Ok o -> o = local (world s) a x.
Proof using ChainView0.
  unfold asks. destruct (local_state_for_account a x (world s)) as [w y] eqn:E. intros [= <- <-].
  destruct (local_read _ _ _ _ _ E) as (? & ? & ?). done.
Qed.

Lemma ask_global a k s s' (r : result (option (list Z)) string) :
  asks (app_global_bytes a k) s = (s', r) -> same_chain s s' /\ forall o, r = Ok o -> o = global (world s) a k.
Proof using ChainView0.
  unfold asks. destruct (app_global_bytes a k (world s)) as [w y] eqn:E. intros [= <- <-].
  destruct (global_read _ _ _ _ _ E) as (? & ? & ?). done.
Qed.

Lemma same_trans s1 s2 s3 : same_chain s1 s2 -> same_chain s2 s3 -> same_chain s1 s3.
Proof using. unfold same_chain. intros (? & ? & ?) (? & ? & ?). split_and!; by etrans. Qed.

Lemma first_with_state_spec ancestors account s s' r :
  first_with_state ancestors account s = (s', r) ->
  same_chain s s' /\
  match r with
  | Ok (Some a) => exists before after, ancestors = before ++ a :: after /\
      Forall (fun b => local (world s) b account = None) before /\ local (world s) a account <> None
  | Ok None => Forall (fun b => local (world s) b account = None) ancestors
  | Err _ => True
  end.
Proof using ChainView0.
  revert s. induction ancestors as [|a l IH]; intros s; cbn [first_with_state].
  { intros [= <- <-]. done. }
  intros [(e & E & ->)|(kvs & s1 & E & Er)]%cm_bind_inv; destruct (ask_local _ _ _ _ _ E) as [Hs Ho]; [done|].
  specialize (Ho _ eq_refl). destruct kvs as [kvs|].
  - injection Er as <- <-. split; [done|]. exists [], l. split; [done|]. split; [constructor|]. by rewrite <- Ho.
  - destruct (IH _ Er) as [Hs' Hr]. destruct Hs as (L & G & S). split; [by eapply same_trans|].
    destruct r as [[b|]|]; [| |done].
    + destruct Hr as (before & after & -> & Hb & Hn). exists (a :: before), after. split; [done|].
      rewrite L in Hb, Hn. split; [by constructor|done].
    + rewrite L in Hr. by constructor.
Qed.

Lemma find_ancestor_spec app account s s' r :
  find_migratable_ancestor app account s = (s', r) ->
  same_chain s s' /\
  match r with
  | Ok (Some a) => exists before after, lineage s app = before ++ a :: after /\
      Forall (fun b => local (world s) b account = None) before /\ local (world s) a account <> None
  | Ok None => Forall (fun b => local (world s) b account = None) (lineage s app)
  | Err _ => True
  end.
Proof using ChainView0.
  unfold find_migratable_ancestor, ancestor_apps, positive, lineage.
  intros [(e & E & ->)|(l & s1 & E & Er)]%cm_bind_inv.
  - split; [|done]. apply cm_bind_inv in E as [(? & ?%ensure_err & _)|(? & ? & [-> _]%ensure_ok & E)]; [by subst|].
    apply cm_bind_inv in E as [(? & E & _)|(raw & s2 & E & [= ? ?])]. by destruct (ask_global _ _ _ _ _ E) as [Hs _].
  - apply cm_bind_inv in E as [(? & _ & ?)|(? & ? & [-> _]%ensure_ok & E)]; [done|].
    apply cm_bind_inv in E as [(? & _ & ?)|(raw & s2 & E & [= <- <-])]; [done|].
    destruct (ask_global _ _ _ _ _ E) as [Hs Ho]. specialize (Ho _ eq_refl) as <-.
    destruct (first_with_state_spec _ _ _ _ _ Er) as [Hs' Hr]. split; [by eapply same_trans|].
    destruct Hs as (L & _ & _). rewrite L in Hr. done.
Qed.

Lemma holds_handle_spec app account s s' r :
  holds_handle app account s = (s', r) ->
  same_chain s s' /\ forall b, r = Ok b -> b = registered_on s app account.
Proof using ChainView0.
  unfold holds_handle, positive, registered_on.
  intros [(? & ?%ensure_err & ->)|(? & ? & [-> _]%ensure_ok & E)]%cm_bind_inv; [by subst|].
  apply cm_bind_inv in E as [(? & E & ->)|(kvs & s2 & E & [= <- <-])]; destruct (ask_local _ _ _ _ _ E) as [Hs Ho]; [done|].
  split; [done|]. intros b [= <-]. by rewrite (Ho _ eq_refl).
Qed.

Lemma call_with_app_log A me app other what asset sig args (s s' : chain W) r :
  address A = Some me -> call_with_app A app other what asset sig args s = (s', r) ->
  (sent s' = sent s /\ is_ok r = false) \/
  sent s' = sent s ++ [(me, CallAppWithForeignApp app other asset sig args, is_ok r)].
Proof using.
  intros Ha. unfold call_with_app, positive, own_address. rewrite Ha.
  intros [(? & ->%ensure_err & ->)|(? & ? & [-> _]%ensure_ok & E)]%cm_bind_inv; [by left|].
  apply cm_bind_inv in E as [(? & ->%ensure_err & ->)|(? & ? & [-> _]%ensure_ok & E)]; [by left|].
  apply cm_bind_inv in E as [(? & ? & _)|(? & ? & [= <- <-] & E)]; [done|].
  unfold submits in E. destruct (submit me _ (world s)) as [w y]. injection E as <- <-. by right.
Qed.

(** An account is migrated once, from the right application.  The client gives the node
    nothing when the account has a handle on the new application already, or state on none
    of its ancestors; otherwise it opts in and then copies from the nearest ancestor that
    holds state of the account, and reports the transaction only when the node took both. *)
Theorem migrates_from_nearest A me app s s' r :
  address A = Some me -> ensure_local_migrated A app s = (s', r) ->
  match r with
  | Ok None => sent s' = sent s /\
      (registered_on s app me = true \/ Forall (fun a => local (world s) a me = None) (lineage s app))
  | Ok (Some _) =>
      registered_on s app me = false /\
      exists before a after, lineage s app = before ++ a :: after /\
        Forall (fun b => local (world s) b me = None) before /\ local (world s) a me <> None /\
        sent s' = sent s ++ [(me, OptInApp app, true);
                             (me, CallAppWithForeignApp app a None "migrate_local(uint64)void" [ArgUint a], true)]
  | Err _ =>
      exists new, sent s' = sent s ++ new /\ (new <> [] -> registered_on s app me = false) /\
        Forall (fun e => e.1.1 = me /\ (e.1.2 = OptInApp app \/ e.2 = false)) new
  end.
Proof using ChainView0.
  intros Ha. unfold ensure_local_migrated, positive, own_address. rewrite Ha.
  intros [(? & ->%ensure_err & ->)|(? & ? & [-> _]%ensure_ok & E)]%cm_bind_inv; [exists []; by rewrite app_nil_r|].
  apply cm_bind_inv in E as [(? & ? & _)|(? & ? & [= <- <-] & E)]; [done|].
  apply cm_bind_inv in E as [(e & Eh & ->)|(held & s1 & Eh & E)];
    destruct (holds_handle_spec _ _ _ _ _ Eh) as [(L1 & G1 & S1) Hb]; [exists []; by rewrite app_nil_r|].
  specialize (Hb _ eq_refl). destruct held; [injection E as <- <-; auto|].
  apply cm_bind_inv in E as [(e & Ef & ->)|(anc & s2 & Ef & E)];
    destruct (find_ancestor_spec _ _ _ _ _ Ef) as [(L2 & G2 & S2) Hr]; [exists []; rewrite app_nil_r; by rewrite S2|].
  unfold lineage in Hr. rewrite L1, G1 in Hr. fold (lineage s app) in Hr. rewrite S1 in S2.
  destruct anc as [a|]; [|injection E as <- <-; auto].
  apply cm_bind_inv in E as [(e & Eo & ->)|(t1 & s3 & Eo & E)];
    (unfold submits in Eo; destruct (submit me _ (world s2)) as [w y]; injection Eo as <- Ey; cbn).
  { exists [(me, OptInApp app, is_ok y)]. rewrite S2. split; [done|]. split; [done|]. constructor; [by auto|done]. }
  subst y. apply cm_bind_inv in E as [(e & Em & ->)|(t2 & s4 & Em & [= <- <-])];
    destruct (call_with_app_log _ _ _ _ _ _ _ _ _ _ _ Ha Em) as [[Hs Hr2]|Hs]; cbn in Hs; try done.
  - exists [(me, OptInApp app, true)]. rewrite Hs, S2. split; [done|]. split; [done|]. constructor; [by auto|done].
  - exists [(me, OptInApp app, true); (me, CallAppWithForeignApp app a None "migrate_local(uint64)void" [ArgUint a], false)].
    rewrite Hs, S2, <- app_assoc. split; [done|]. split; [done|]. constructor; [by auto|]. constructor; [by auto|done].
  - destruct Hr as (before & after & El & Hb1 & Hn). split; [done|]. exists before, a, after.
    rewrite Hs, S2, <- app_assoc. done.
Qed.
End Migration.

(** ** Relays *)

(** A client finds the relays that may relay, and keeps finding them when the indexer is
    down.  The listing has an address and an endpoint exactly when an account of that
    address has that endpoint in its state and the permission to relay, bit 1 of its
    permissions; and once a scan was completed, a refresh that fails is answered from the
    accounts of the last one, if a failed refresh leaves the cache as it is. *)
Theorem relay_listing {W} `{AlgoNode W} :
  (forall accounts a ep,
     (a, ep) ∈ scan_static_endpoints relay_allowed_in_local_state accounts <->
     exists acct, acct ∈ accounts /\ sc_address acct = a /\
       static_endpoint_from_local_state (local_state acct) = Some ep /\
       Z.testbit (effective_allow_bits (local_state acct)) 1 = true) /\
  (forall app (s : chain W) c,
     (forall app mode life c w w' c' e,
        fetch_opted_in_accounts_cached app mode life c w = (w', (c', Err e)) -> c' = c) ->
     cache s = Some c -> 0 < last_updated c ->
     exists s' l, list_relay_endpoints_via_indexer_sync app s = (s', Ok l) /\ sent s' = sent s /\
       forall w e, fetch_opted_in_accounts_cached app Refresh (Some 30) c (world s) = (w, (c, Err e)) ->
         l = scan_static_endpoints relay_allowed_in_local_state (cached c).*2 /\ cache s' = Some c).
Proof.
  split.
  - intros accounts a ep. unfold scan_static_endpoints, relay_allowed_in_local_state, BIT_RELAY.
    rewrite list_elem_of_omap. split.
    + intros (acct & Hin & E). exists acct. destruct (static_endpoint_from_local_state _) as [ep'|]; cbn in E; [|done].
      rewrite land_bit in E by lia. destruct (Z.testbit _ 1); [|done]. by injection E as <- <-.
    + intros (acct & Hin & <- & E & Hb). exists acct. split; [done|]. rewrite E. cbn.
      by rewrite land_bit, Hb by lia.
  - intros app s c Hkeep Hc Hlu. unfold list_relay_endpoints_via_indexer_sync, scan_static_endpoints_sync.
    unfold mbind, cm_bind at 1, indexer_query_opted_in_accounts_sync. rewrite Hc.
    change (default cache_new (Some c)) with c.
    destruct (fetch_opted_in_accounts_cached app Refresh (Some 30) c (world s)) as [w [c' [u|e]]] eqn:E.
    + eexists _, _. split; [reflexivity|]. split; [done|]. intros w' e' Ef. discriminate Ef.
    + pose proof (Hkeep _ _ _ _ _ _ _ _ E) as ->. rewrite (proj2 (Z.ltb_lt _ _) Hlu).
      eexists _, _. split; [reflexivity|]. split; [done|]. by intros w' e' _.
Qed.

(** ** Deployment *)

Section Deploy.
Context {W : Type} `{AlgoNode W} (address_to_byte_key : string -> result (list Z) string).

(** Which role signs which step. *)
Definition deployment_step (creator admin withdrawer asset_creator reserve manager signer : string) (r : request) : Prop :=
  match r with
  | DeployApp _ _ _ => signer = creator
  | CallApp _ _ sig _ => signer = admin /\ sig = "set_bingle_price(uint64)void"
  | CreateAsset _ _ m v _ _ => signer = asset_creator /\ m = manager /\ v = reserve
  | OptInAppToAsset _ _ _ => signer = admin
  | OptInAsset _ => signer = withdrawer \/ signer = reserve
  | SendAsset _ _ _ => signer = asset_creator
  | CallAppWithForeignApp _ _ asset sig _ => signer = creator /\ asset = None /\ sig = "migrate_reserve(uint64,uint64)void"
  | SetAssetClawbackToApp _ _ | UpdateAsset _ _ _ _ | ClawbackAsset _ _ _ _ => signer = manager
  | _ => False
  end.

Lemma honest_transfer may old new asset manager :
  (forall r, match r with SetAssetClawbackToApp _ _ | UpdateAsset _ _ _ _ | ClawbackAsset _ _ _ _ => may manager r
             | _ => True end) ->
  honest may (transfer_old_app_asset_balance old new asset manager).
Proof using.
  intros Hm. unfold transfer_old_app_asset_balance.
  do 2 (apply honest_bind; [apply honest_asks|intros ?]). destruct (_ =? 0); [apply honest_ret|].
  do 2 (apply honest_bind; [apply honest_asks|intros ?]).
  apply honest_bind; [apply honest_submits; exact (Hm (UpdateAsset _ _ _ _))|intros _].
  apply honest_bind; [apply honest_submits; exact (Hm (ClawbackAsset _ _ _ _))|intros _].
  apply honest_bind; [apply honest_submits; exact (Hm (SetAssetClawbackToApp _ _))|intros _]. apply honest_ret.
Qed.

Lemma honest_deploy_app may creator admin withdrawer pages :
  (forall r, match r with DeployApp _ _ _ => may creator r | _ => True end) ->
  (forall app, may admin (CallApp app None "set_bingle_price(uint64)void" [ArgUint 1])) ->
  honest may (deploy_new_app address_to_byte_key creator admin withdrawer pages).
Proof using.
  intros Hc Ha. unfold deploy_new_app. destruct (address_to_byte_key admin); [|apply honest_fails].
  destruct (address_to_byte_key withdrawer); [|apply honest_fails].
  apply honest_bind; [apply honest_submits_id; exact (Hc (DeployApp _ _ _))|]. intros [id|]; [|apply honest_fails].
  apply honest_bind; [by apply honest_submits|intros _; apply honest_ret].
Qed.

(** A deployment is done by seven different accounts, each in its own role.  Unless all
    six roles are given and their addresses and the creator's are different, nothing is
    given to the node; else each step is signed by the account of its role and none other
    (the creator makes the application and moves its reserve, the admin sets the price and
    opts the application in, the asset's creator makes and sends the asset, the manager
    moves it between applications), and success means that the node took every step. *)
Theorem deploy_by_role A creator teal new_app new_asset app asset name total hot r pages s s' x :
  address A = Some creator ->
  deploy_app_and_asset_reserving address_to_byte_key A teal new_app new_asset app asset name total hot r pages s = (s', x) ->
  (sent s' = sent s /\ is_ok x = false) \/
  exists admin withdrawer asset_creator reserve manager freeze new,
    r = MkRoles (Some admin) (Some withdrawer) (Some asset_creator) (Some reserve) (Some manager) (Some freeze) /\
    NoDup [creator; admin; withdrawer; asset_creator; reserve; manager; freeze] /\
    sent s' = sent s ++ new /\
    Forall (fun e => deployment_step creator admin withdrawer asset_creator reserve manager e.1.1 e.1.2) new /\
    (is_ok x = true -> Forall (fun e => e.2 = true) new).
Proof using.
  intros Ha. unfold deploy_app_and_asset_reserving, own_address. rewrite Ha.
  intros [(? & ? & _)|(? & ? & [= <- <-] & E)]%cm_bind_inv; [done|].
  destruct r as [[a|] [w|] [c|] [v|] [m|] [f|]];
    try (apply fails_inv in E as [-> ->]; by left).
  cbn [check_roles] in E. destruct (bool_decide (NoDup _)) eqn:Hd;
    [apply bool_decide_eq_true in Hd|apply fails_inv in E as [-> ->]; by left].
  right. exists a, w, c, v, m, f. apply cm_bind_inv in E as [(? & ? & _)|(? & ? & [= <- <-] & E)]; [done|].
  revert E. match goal with |- (?k s = _) -> _ => assert (honest (deployment_step creator a w c v m) k) as Hk end.
  { apply honest_bind; [destruct (new_app || _); [destruct teal; [|apply honest_fails]|apply honest_ret];
      apply honest_deploy_app; [by intros []|by intros ?]|intros eapp].
    apply honest_bind; [apply honest_asks|intros addr]. apply honest_bind.
    { destruct (new_asset || _).
      - apply honest_bind; [by apply honest_submits_id|]. intros [id|]; [apply honest_ret|apply honest_fails].
      - apply honest_bind; [by apply honest_submits|intros _; apply honest_ret]. }
    intros easset. apply honest_bind; [by apply honest_submits|intros _].
    apply honest_bind; [apply (honest_opt_in _ w); [done|by left]|intros _].
    apply honest_bind; [destruct (String.eqb v addr); [apply honest_ret|apply (honest_opt_in _ v); [done|by right]]|intros _].
    apply honest_bind; [destruct (_ && _); [by apply honest_submits|apply honest_ret]|intros _].
    apply honest_bind; [|intros _; apply honest_ret]. destruct (_ && _ && _); [|apply honest_ret].
    apply honest_bind; [apply (honest_call_with_app _ creator); done|intros _].
    destruct (new_asset || _); [apply honest_ret|]. apply honest_transfer. by intros []. }
  intros E. destruct (Hk _ _ _ E) as (new & ? & ? & ?). by exists new.
Qed.
End Deploy.

(** ** A small chain *)

Module ChainExample.
(** The accounts with their state by application, the globals of applications, and which
    submission fails. *)
Record node : Type := MkNode {
  accounts : list (Z * string * entries);
  globals : list (Z * string * list Z);
  fail_at : option nat;
  count : nat
}.

Definition local (n : node) (app : Z) (a : string) : option entries :=
  snd <$> List.find (fun x => (x.1.1 =? app) && String.eqb x.1.2 a) (accounts n).
Definition global (n : node) (app : Z) (key : string) : option (list Z) :=
  snd <$> List.find (fun x => (x.1.1 =? app) && String.eqb x.1.2 key) (globals n).
Definition takes (n : node) : bool := negb (bool_decide (fail_at n = Some (count n))).
Definition next (n : node) : node := MkNode (accounts n) (globals n) (fail_at n) (S (count n)).

#[local] Instance algo_node : AlgoNode node := {
  fetch_opted_in_accounts_cached := fun app _ _ _ n =>
    (n, (MkCache (omap (fun x => if x.1.1 =? app then Some (x.1.2, MkScanned x.1.2 x.2) else None) (accounts n)) 1, Ok tt));
  local_state_for_account := fun app a n => (n, Ok (local n app a));
  app_global_bytes := fun app key n => (n, Ok (global n app key));
  app_global_state := fun _ n => (n, Ok []);
  get_app_local_schema := fun _ n => (n, Ok (1, 1));
  is_account_opted_in_to_asset := fun _ _ n => (n, Ok false);
  asset_holding := fun _ _ n => (n, Ok 5);
  asset_reserve := fun _ n => (n, Ok None);
  contract_address := fun app n => (n, Ok (if app =? 1 then "APP1" else "APP2"));
  submit := fun _ _ n => (next n, if takes n then Ok "tx" else Err "refused");
  submit_for_id := fun _ _ n => (next n, if takes n then Ok (Some 2) else Err "refused");
  sleep_secs := fun _ n => n
}.

Definition uni (c : Z) : bool := false.
Definition me : AlgoBingle := MkAlgoBingle (Some "ME") 7 9 None.
Definition key (a : string) : result (list Z) string := Ok (as_bytes a).
Definition start (accounts : list (Z * string * entries)) (globals : list (Z * string * list Z)) (f : option nat)
  : chain node := MkChain None (MkNode accounts globals f 0) [].
Definition holder (a h t : string) : ScannedAccount := MkScanned a [("Handle", h); ("HandleTime", t)].
Definition claims : list ScannedAccount := [holder "B" "Al-Ice" "7"; holder "A" "alice2" "3"; holder "C" "alice" "7"].
Definition six : roles := MkRoles (Some "AD") (Some "WI") (Some "AC") (Some "RE") (Some "MA") (Some "FR").
End ChainExample.

#[export] Existing Instance ChainExample.algo_node.

Lemma example_view : ChainView ChainExample.node ChainExample.local ChainExample.global.
Proof. split; intros a x w w' r [= <- <-]; (split; [done|]; split; [done|]); by intros o [= <-]. Qed.
#[export] Existing Instance example_view.

(** Three accounts: the two that hold "alice" have the same time, so the first address has
    it; the older "alice2" is another handle. *)
Lemma owner_determined_witness :
  owner ChainExample.uni "alice" ChainExample.claims = Some "B" /\
  owner ChainExample.uni "alice" (ChainExample.claims ++ [ChainExample.holder "0" "ALICE" "8"]) = Some "B".
Proof.
  assert (owner ChainExample.uni "alice" ChainExample.claims = Some "B") as E by (vm_compute; reflexivity). split; [exact E|].
  destruct (owner_determined ChainExample.uni "alice" ChainExample.claims) as (Hs & _ & Hmore). rewrite E in Hs.
  apply (Hmore "B" [ChainExample.holder "0" "ALICE" "8"] Hs).
  intros acct b u Hin%list_elem_of_singleton Hc acct' t Hin' Hc'. subst acct. vm_compute in Hc. injection Hc as <- <-.
  apply list_elem_of_In in Hin'. destruct Hin' as [<-|[<-|[<-|[]]]]; vm_compute in Hc'; try discriminate Hc';
    injection Hc' as <-; reflexivity.
Defined.

Lemma partial_lookup_agrees_witness :
  exists h, best ChainExample.uni "alice" ChainExample.claims = Some ("B", h) /\
    normalize_handle ChainExample.uni h = normalize_handle ChainExample.uni "alice".
Proof.
  exact (partial_lookup_agrees ChainExample.uni "alice" ChainExample.claims ltac:(vm_compute; discriminate)).
Defined.

(** An account from before the bits, whose number has bits 2 and 3 set. *)
Lemma permission_bits_witness :
  Z.testbit (effective_allow_bits [("allow_static", "12"); ("allow_relay", "1")]) 3 = false /\
  Z.testbit (effective_allow_bits [("allow_static", "9223372036854775820")]) 3 = true.
Proof.
  rewrite (permission_bits [("allow_static", "12"); ("allow_relay", "1")] 3 ltac:(lia)),
    (permission_bits [("allow_static", "9223372036854775820")] 3 ltac:(lia)).
  split; vm_compute; reflexivity.
Defined.

Lemma endpoint_record_exact_witness :
  from_bytes [1; 127; 0; 0; 1; 31; 144] = Some (MkSw (Some (127, 0, 0, 1, 8080)) None).
Proof.
  apply (endpoint_record_exact [1; 127; 0; 0; 1; 31; 144]).
  - unfold bytes_ok, in_width. repeat constructor; lia.
  - split; [|vm_compute; reflexivity]. unfold record_ok, v4_ok, bytes_ok, in_width; cbn. split_and!; try done.
    intros x [= <-]. repeat constructor; lia.
Defined.

Lemma operations_honest_witness :
  exists new, sent (run_operation ChainExample.key (fun _ => "b64") ChainExample.uni ChainExample.me (OpBuy 7 9 100)
                      (ChainExample.start [] [] None)).1 = new /\ length new = 2%nat /\
    Forall (fun e => e.1.1 = "ME" /\ e.2 = true) new.
Proof.
  destruct (operations_honest ChainExample.key (fun _ => "b64") ChainExample.uni ChainExample.me "ME" (OpBuy 7 9 100) eq_refl
    (ChainExample.start [] [] None) _ _ (surjective_pairing _)) as (new & E & Hf & Ho).
  exists new. cbn [sent ChainExample.start app] in E. split; [exact E|]. split; [rewrite <- E; vm_compute; reflexivity|].
  specialize (Ho ltac:(vm_compute; reflexivity)). apply Forall_forall. intros e He.
  rewrite Forall_forall in Hf, Ho. split; [by apply Hf|by apply Ho].
Defined.

Lemma register_sends_witness :
  exists opts fee addr,
    sent (register ChainExample.uni ChainExample.me 7 9 "alice" 1 (ChainExample.start [] [] None)).1 = opts ++ fee /\
    length opts = 3%nat /\ fee = [("ME", fee_group 7 9 1 "alice" addr, true)].
Proof.
  destruct (register_sends ChainExample.uni ChainExample.me "ME" 7 9 "alice" 1 (ChainExample.start [] [] None) _ _
    eq_refl (surjective_pairing _)) as (opts & fee & Hs & _ & _ & _ & Hr).
  assert ((register ChainExample.uni ChainExample.me 7 9 "alice" 1 (ChainExample.start [] [] None)).2 = Ok "tx") as E
    by (vm_compute; reflexivity).
  rewrite E in Hr. destruct Hr as [addr ->]. exists opts, [("ME", fee_group 7 9 1 "alice" addr, true)], addr.
  cbn [sent ChainExample.start app] in Hs. split; [exact Hs|]. split; [|reflexivity].
  apply (f_equal length) in Hs. rewrite length_app in Hs. cbn [length] in Hs.
  assert (length (sent (register ChainExample.uni ChainExample.me 7 9 "alice" 1 (ChainExample.start [] [] None)).1) = 4%nat)
    as E4 by (vm_compute; reflexivity). lia.
Defined.

(** An account with state on the older of two ancestors. *)
Lemma migrates_from_nearest_witness :
  let s := ChainExample.start [(5, "ME", [("Handle", "me")])] [(7, "AncestorApps", to_be_bytes 8 6 ++ to_be_bytes 8 5)] None in
  exists before a after, lineage ChainExample.global s 7 = before ++ a :: after /\
    sent (ensure_local_migrated ChainExample.me 7 s).1 =
      [("ME", OptInApp 7, true); ("ME", CallAppWithForeignApp 7 a None "migrate_local(uint64)void" [ArgUint a], true)].
Proof.
  intros s.
  pose proof (migrates_from_nearest ChainExample.local ChainExample.global ChainExample.me "ME" 7 s _ _ eq_refl
    (surjective_pairing _)) as Hm.
  assert ((ensure_local_migrated ChainExample.me 7 s).2 = Ok (Some "tx")) as E by (vm_compute; reflexivity).
  rewrite E in Hm. destruct Hm as (_ & before & a & after & El & _ & _ & Hs). exists before, a, after. split; [exact El|].
  exact Hs.
Defined.

Lemma relay_listing_witness :
  [("A", "1.2.3.4:5")] = scan_static_endpoints relay_allowed_in_local_state
    [MkScanned "A" [("static_endpoint", "1.2.3.4:5"); ("allow_relay", "1")]; MkScanned "B" [("static_endpoint", "x")]] /\
  exists acct, sc_address acct = "A" /\ Z.testbit (effective_allow_bits (local_state acct)) 1 = true.
Proof.
  split; [vm_compute; reflexivity|].
  destruct (proj1 (proj1 (relay_listing (W := ChainExample.node))
    [MkScanned "A" [("static_endpoint", "1.2.3.4:5"); ("allow_relay", "1")]; MkScanned "B" [("static_endpoint", "x")]] "A" "1.2.3.4:5"))
    as (acct & _ & Ha & _ & Hb).
  - vm_compute. left.
  - exists acct. split; [exact Ha|exact Hb].
Defined.

Lemma deploy_by_role_witness :
  exists new, sent (deploy_app_and_asset_reserving ChainExample.key (MkAlgoBingle (Some "CR") 0 0 None) (Ok tt) false false
                      None None "B" 100 10 ChainExample.six 0 (ChainExample.start [] [] None)).1 = new /\ length new = 7%nat /\
    Forall (fun e => deployment_step "CR" "AD" "WI" "AC" "RE" "MA" e.1.1 e.1.2 /\ e.2 = true) new.
Proof.
  destruct (deploy_by_role ChainExample.key (MkAlgoBingle (Some "CR") 0 0 None) "CR" (Ok tt) false false None None "B" 100 10
    ChainExample.six 0 (ChainExample.start [] [] None) _ _ eq_refl (surjective_pairing _))
    as [[_ Hx]|(a & w & c & v & m & f & new & [= <- <- <- <- <- <-] & _ & Hs & Hf & Ho)].
  - vm_compute in Hx. discriminate Hx.
  - exists new. cbn [sent ChainExample.start app] in Hs. split; [exact Hs|]. split; [rewrite <- Hs; vm_compute; reflexivity|].
    specialize (Ho ltac:(vm_compute; reflexivity)). apply Forall_forall. intros e He.
    rewrite Forall_forall in Hf, Ho. split; [by apply Hf|by apply Ho].
Defined.

(** The transfer of the asset of an old application gives the manager the right to take the
    asset from anyone, and gives it back in its last step: when the step between fails the
    manager keeps it, and nothing undoes that. *)
Theorem clawback_left_with_manager :
  let '(s, r) := transfer_old_app_asset_balance 1 2 9 "MA" (ChainExample.start [] [] (Some 1%nat)) in
  r = Err "refused" /\
  sent s = [("MA", UpdateAsset 9 "MA" "APP1" "MA", true); ("MA", ClawbackAsset 9 5 "APP1" "APP2", false)].
Proof. vm_compute. done. Qed.
