(* ===== verification/ChainRegistration.v ===== *)
(** * Registration on the chain

    Composes [run_registration] of [src/bingle_local/src/api/registration.rs] with the
    blockchain client of [Chain], as [ChainRegistrationOps] of that file does: what a
    registration gives the node, from the first lookup to the last check. *)
From S2P Require Import Prelude LocalTypes Account Envelope Chain.

Local Open Scope Z_scope.

Section Ops.
Context {W : Type} `{AlgoNode W} (unicode_alphanumeric : Z -> bool) (from_anyhow : string -> BingleError).

(** [map_err(BingleError::from_anyhow)]. *)
Definition lift {A} (m : CM W A) : ST (chain W) (result A BingleError) := fun s =>
  let '(s, r) := m s in (s, map_err from_anyhow r).

Definition chain_is_opted_in_app (A : AlgoBingle) (app : Z) : CM W bool :=
  me ← own_address A;
  kvs ← asks (local_state_for_account app me);
  mret (bool_decide (is_Some kvs)).

Definition chain_is_opted_in_asset (A : AlgoBingle) (asset : Z) : CM W bool :=
  me ← own_address A; asks (is_account_opted_in_to_asset me asset).

Definition chain_registration_ops (A : AlgoBingle) (app asset : Z) : RegistrationOps (chain W) :=
  MkRegistrationOps
    (lift (own_address A))
    (fun handle => lift (handle_lookup unicode_alphanumeric A handle))
    (lift (chain_is_opted_in_app A app))
    (lift (chain_is_opted_in_asset A asset))
    (lift (me ← own_address A; _ ← submits me (OptInApp app); mret tt))
    (lift (me ← own_address A; _ ← submits me (OptInAsset asset); mret tt))
    (lift (get_bingle_price app))
    (fun price => lift (_ ← buy_bingle A app asset price; mret tt))
    (fun handle => lift (_ ← register unicode_alphanumeric A app asset handle 1; mret tt)).

(** ** What is paid *)

Definition is_group (r : request) : bool := match r with Group _ _ => true | _ => false end.

Definition buy_group (app asset price : Z) (addr : string) : request :=
  Group [Payment addr price; GroupCall app "buy_bingle()void" []] asset.

(** Since the log [l] only the account [me] signed, and the groups given were [g]. *)
Definition paid (me : string) (l : list (string * request * bool)) (g : list (string * request * bool)) (s : chain W) : Prop :=
  exists new, sent s = l ++ new /\ List.filter (fun e => is_group e.1.2) new = g /\ Forall (fun e => e.1.1 = me) new.

Lemma paid_more me l g s s' new :
  paid me l g s -> sent s' = sent s ++ new -> Forall (fun e => e.1.1 = me) new ->
  paid me l (g ++ List.filter (fun e => is_group e.1.2) new) s'.
Proof using.
  intros (old & Hs & <- & Hf) E Hn. exists (old ++ new). rewrite E, Hs, <- app_assoc, List.filter_app, Forall_app. done.
Qed.

Lemma lift_inv {A} (m : CM W A) s : exists s' r, m s = (s', r) /\ lift m s = (s', map_err from_anyhow r).
Proof using. unfold lift. destruct (m s) as [s' r]. eauto. Qed.

Lemma lift_quiet {A} (m : CM W A) me l g : quiet m -> triple (paid me l g) (lift m) (fun _ => paid me l g).
Proof using.
  intros Hq s Hs. destruct (lift_inv m s) as (s' & r & E & ->). cbn. destruct Hs as (new & Hs & ? & ?).
  exists new. by rewrite (Hq _ _ _ E).
Qed.

(** Opting in pays nothing. *)
Lemma opt_in_pays A me l g r :
  address A = Some me -> is_group r = false ->
  triple (paid me l g) (lift (me ← own_address A; _ ← submits me r; mret tt)) (fun _ => paid me l g).
Proof using.
  intros Ha Hr s Hs. destruct (lift_inv (me ← own_address A; _ ← submits me r; mret tt) s) as (s' & x & E & ->). cbn.
  unfold own_address in E. rewrite Ha in E.
  assert (exists b, sent s' = sent s ++ [(me, r, b)]) as [b Hb].
  { apply cm_bind_inv in E as [(? & ? & _)|(? & ? & [= <- <-] & E)]; [done|].
    apply cm_bind_inv in E as [(? & E & _)|(? & ? & E & [= <- _])];
      (unfold submits in E; destruct (submit me r (world s)); injection E as <- _; cbn; eauto). }
  pose proof (paid_more _ _ _ _ _ _ Hs Hb ltac:(by constructor)) as Hp. cbn in Hp. rewrite Hr in Hp.
  by rewrite app_nil_r in Hp.
Qed.

Lemma opts_no_group (opts : list (string * request * bool)) :
  Forall (fun e => is_opt_in e.1.2 = true) opts -> List.filter (fun e => is_group e.1.2) opts = [].
Proof using.
  induction 1 as [|[[w r] b] opts Hr _ IH]; cbn in *; [done|]. destruct r; cbn in *; done.
Qed.

Lemma buy_pays A me l g app asset price :
  address A = Some me ->
  triple (paid me l g) (lift (_ ← buy_bingle A app asset price; mret tt)) (fun r s =>
    (is_ok r = false /\ paid me l g s) \/ exists addr, paid me l (g ++ [(me, buy_group app asset price addr, is_ok r)]) s).
Proof using.
  intros Ha s Hs. destruct (lift_inv (_ ← buy_bingle A app asset price; mret tt) s) as (s' & x & E & ->). cbn.
  assert (exists opts fee, sent s' = sent s ++ opts ++ fee /\ Forall (fun e => e.1.1 = me /\ is_opt_in e.1.2 = true) opts /\
    (is_ok x = false /\ fee = [] \/ exists addr, fee = [(me, buy_group app asset price addr, is_ok x)]))
    as (opts & fee & Hb & Hf & Hx).
  { unfold buy_bingle, positive in E.
    assert (forall (k : CM W string) (x : result unit string), (_ ← k; mret tt) s = (s', x) ->
      exists y, k s = (s', y) /\ is_ok y = is_ok x) as Hret.
    { intros k z [(e & Ek & ->)|(a & s1 & Ek & [= <- <-])]%cm_bind_inv; eauto. }
    apply Hret in E as (y & E & <-).
    do 2 (apply cm_bind_inv in E as [(? & ->%ensure_err & ->)|(? & ? & [-> _]%ensure_ok & E)];
      [exists [], []; rewrite app_nil_r; by auto|]).
    apply cm_bind_inv in E as [(? & Eo & ->)|(? & s1 & Eo & E)];
      destruct (honest_opt_in A me (fun w r => w = me /\ is_opt_in r = true) asset Ha ltac:(done) _ _ _ Eo)
        as (opts & Hs1 & Hf & _); [exists opts, []; rewrite app_nil_r; by auto|].
    apply cm_bind_inv in E as [(? & Ea%quiet_asks & ->)|(addr & s2 & Ea%quiet_asks & E)];
      [exists opts, []; rewrite app_nil_r, Ea; by auto|].
    unfold own_address in E. rewrite Ha in E. apply cm_bind_inv in E as [(? & ? & _)|(? & ? & [= <- <-] & E)]; [done|].
    unfold submits in E. destruct (submit me _ (world s2)) as [w z]. injection E as <- <-.
    exists opts, [(me, buy_group app asset price addr, is_ok z)]. cbn. rewrite Ea, Hs1, <- app_assoc. eauto. }
  assert (Forall (fun e : string * request * bool => e.1.1 = me) opts) as Hm by (eapply Forall_impl; [exact Hf|]; by intros ? []).
  assert (List.filter (fun e => is_group e.1.2) opts = []) as Hg by (apply opts_no_group; eapply Forall_impl; [exact Hf|]; by intros ? []).
  destruct Hx as [[Hx ->]|(addr & ->)].
  - left. split; [by destruct x|]. rewrite app_nil_r in Hb. pose proof (paid_more _ _ _ _ _ _ Hs Hb Hm) as Hp.
    by rewrite Hg, app_nil_r in Hp.
  - right. exists addr. assert (is_ok (map_err from_anyhow x) = is_ok x) as -> by (by destruct x).
    pose proof (paid_more _ _ _ _ _ _ Hs Hb ltac:(apply Forall_app; split; [done|by constructor])) as Hp.
    by rewrite List.filter_app, Hg in Hp.
Qed.

(** The lookup of a state failed, or named another owner. *)
Definition bad_lookup (A : AlgoBingle) (me handle : string) : Prop :=
  exists s s' x, handle_lookup unicode_alphanumeric A handle s = (s', x) /\
    match x with Ok (Some w) => w <> me | Ok None => False | Err _ => True end.

Lemma register_pays A me l g app asset handle :
  address A = Some me ->
  triple (paid me l g) (lift (_ ← register unicode_alphanumeric A app asset handle 1; mret tt)) (fun r s =>
    (is_ok r = false /\ paid me l g s) \/
    exists addr taken, paid me l (g ++ [(me, fee_group app asset 1 handle addr, taken)]) s /\
      (is_ok r = true -> taken = true) /\ (taken = true -> is_ok r = false -> bad_lookup A me handle)).
Proof using.
  intros Ha s Hs. destruct (lift_inv (_ ← register unicode_alphanumeric A app asset handle 1; mret tt) s) as (s' & x & E & ->). cbn.
  assert (exists y, register unicode_alphanumeric A app asset handle 1 s = (s', y) /\ is_ok y = is_ok x) as (y & Ey & Hyx).
  { apply cm_bind_inv in E as [(e & Ek & ->)|(a & s1 & Ek & [= <- <-])]; eauto. }
  assert (is_ok (map_err from_anyhow x) = is_ok y) as -> by (rewrite Hyx; by destruct x).
  destruct (register_sends _ _ _ _ _ _ _ _ _ _ Ha Ey) as (opts & fee & Hb & Hf & _ & Hfee & Hr).
  assert (Forall (fun e : string * request * bool => e.1.1 = me) opts) as Hm by (eapply Forall_impl; [exact Hf|]; by intros ? []).
  assert (List.filter (fun e => is_group e.1.2) opts = []) as Hg by (apply opts_no_group; eapply Forall_impl; [exact Hf|]; by intros ? []).
  destruct Hfee as [->|(_ & addr & taken & ->)].
  - left. split; [destruct y; [by destruct Hr|done]|]. rewrite app_nil_r in Hb.
    pose proof (paid_more _ _ _ _ _ _ Hs Hb Hm) as Hp. by rewrite Hg, app_nil_r in Hp.
  - right. exists addr, taken. split.
    + pose proof (paid_more _ _ _ _ _ _ Hs Hb ltac:(apply Forall_app; split; [done|by constructor])) as Hp.
      by rewrite List.filter_app, Hg in Hp.
    + split.
      * intros Hy. destruct y; [|done]. by destruct Hr as [? [= _ ->]].
      * intros -> Hy. destruct y; [done|]. apply Hr. eauto.
Qed.

(** The purchase, then the fee; the purchase alone; nothing. *)
Definition payments (A : AlgoBingle) (me : string) (app asset : Z) (handle : string) (ok : bool)
    (g : list (string * request * bool)) : Prop :=
  (ok = false /\ g = []) \/
  (ok = false /\ exists p addr taken, g = [(me, buy_group app asset p addr, taken)]) \/
  exists p addr1 addr2 taken,
    g = [(me, buy_group app asset p addr1, true); (me, fee_group app asset 1 handle addr2, taken)] /\
    (ok = true -> taken = true) /\ (taken = true -> ok = false -> bad_lookup A me handle).

Lemma opt_in_once_pays A me l check r :
  address A = Some me -> quiet check -> is_group r = false ->
  triple (paid me l []) (opt_in_once (lift check) (lift (me ← own_address A; _ ← submits me r; mret tt)))
    (fun _ => paid me l []).
Proof using.
  intros Ha Hq Hr. unfold opt_in_once. eapply triple_try; [by apply lift_quiet| |done].
  intros []; [|by apply opt_in_pays]. intros s Hs. exact Hs.
Qed.

Lemma quiet_own A : quiet (own_address A : CM W string).
Proof using. unfold own_address. destruct (address A); [apply quiet_ret|apply quiet_fails]. Qed.

(** (C13) What a registration on the chain can cost.  Whatever the node and the indexer answer,
    everything it gives the node is signed by the account; the groups that move money are
    at most one purchase of the currency and, after the node took it, at most one group
    with the fee of one unit for this handle; it succeeds only when the node took both;
    when it fails though both were taken, a lookup afterwards failed or named another
    owner; and a handle that another account owns costs nothing. *)
Theorem registration_pays_at_most_once A me app asset handle s s' r :
  address A = Some me ->
  run_registration (chain_registration_ops A app asset) handle s = (s', r) ->
  (exists new, sent s' = sent s ++ new /\ Forall (fun e => e.1.1 = me) new /\
     payments A me app asset handle (is_ok r) (List.filter (fun e => is_group e.1.2) new)) /\
  (forall s1 o, handle_lookup unicode_alphanumeric A handle s = (s1, Ok (Some o)) -> o <> me ->
     r = Err (HandleTaken o) /\ sent s' = sent s).
Proof using.
  intros Ha E. split.
  - set (l := sent s).
    assert (triple (paid me l []) (run_registration (chain_registration_ops A app asset) handle)
      (fun r s => exists g, paid me l g s /\ payments A me app asset handle (is_ok r) g)) as Ht.
    { unfold run_registration, chain_registration_ops. cbn [ro_self_address ro_handle_lookup ro_is_opted_in_app
        ro_is_opted_in_asset ro_opt_in_app ro_opt_in_to_asset ro_get_bingle_price ro_buy_bingle ro_register].
      assert (forall e (s : chain W), paid me l [] s -> exists g, paid me l g s /\
        payments A me app asset handle (is_ok (Err e : result unit BingleError)) g) as Hnone.
      { intros e s2 Hs2. exists []. split; [done|]. by left. }
      eapply triple_try; [apply lift_quiet, quiet_own| |exact Hnone]. intros self.
      eapply triple_try; [apply lift_quiet, quiet_lookup| |exact Hnone]. intros o. destruct (other_owner self o).
      { intros s2 Hs2. by apply Hnone. }
      eapply triple_try; [apply opt_in_once_pays; [done| |done]| |exact Hnone].
      { apply quiet_bind; [apply quiet_own|]. intros x. apply quiet_bind; [apply quiet_asks|]. intros y. apply quiet_ret. }
      intros ?. eapply triple_try; [apply opt_in_once_pays; [done| |done]| |exact Hnone].
      { apply quiet_bind; [apply quiet_own|]. intros x. apply quiet_asks. }
      intros ?. eapply triple_try; [apply lift_quiet| |exact Hnone].
      { apply quiet_bind; [apply quiet_ensure|]. intros x. apply quiet_bind; [apply quiet_asks|]. intros y.
        destruct (extract_bingle_price y); [apply quiet_ret|apply quiet_fails]. }
      intros p. eapply triple_try; [by apply buy_pays| |].
      2: { intros e s2 [[_ Hs2]|(addr & Hs2)]; [by apply (Hnone e)|]. eexists. split; [exact Hs2|]. right. left. eauto. }
      intros u s2 [[? _]|(addr & Hs2)]; [done|]. cbn [is_ok] in Hs2.
      pose proof (register_pays A me l _ app asset handle Ha s2 Hs2) as Hr.
      destruct (lift _ s2) as [s3 x]. destruct Hr as [[Hx Hs3]|(addr2 & taken & Hs3 & H1 & H2)];
        (eexists; split; [exact Hs3|]); right.
      - left. split; [done|]. by eexists _, _, _.
      - right. by eexists p, addr, addr2, taken. }
    destruct (triple_run _ _ _ s s' r Ht) as (g & (new & Hn & Hg & Hf) & Hp); [by exists []; rewrite app_nil_r|done|].
    exists new. by rewrite Hg.
  - intros s1 o El Hne. revert E. unfold run_registration, st_try, mbind, ST_bind. cbn.
    unfold lift, own_address at 1. rewrite Ha. cbn. rewrite El. cbn. rewrite decide_False by done.
    intros [= <- <-]. split; [done|]. by eapply quiet_lookup.
Qed.
End Ops.

(** ** A node whose indexer fails for a while *)

Module OutageExample.
(** The handle of the account once the fee was taken, and how many scans still work. *)
Record node : Type := MkNode { handle : option string; scans : nat }.

Definition takes (r : request) (n : node) : node :=
  match r with
  | Group (AssetTransfer _ _ _ :: _) _ => MkNode (Some "bob") (scans n)
  | _ => n
  end.

#[local] Instance algo_node : AlgoNode node := {
  fetch_opted_in_accounts_cached := fun _ _ _ c n =>
    match scans n with
    | O => (MkNode (handle n) 9, (c, Err "indexer unreachable"))
    | S k =>
        (MkNode (handle n) k,
         (MkCache (match handle n with Some h => [("ME", MkScanned "ME" [("Handle", h)])] | None => [] end) 1, Ok tt))
    end;
  local_state_for_account := fun _ _ n => (n, Ok (Some []));
  app_global_bytes := fun _ _ n => (n, Ok None);
  app_global_state := fun _ n => (n, Ok [("BinglePrice", "1000000")]);
  get_app_local_schema := fun _ n => (n, Ok (1, 1));
  is_account_opted_in_to_asset := fun _ _ n => (n, Ok true);
  asset_holding := fun _ _ n => (n, Ok 0);
  asset_reserve := fun _ n => (n, Ok None);
  contract_address := fun _ n => (n, Ok "APP");
  submit := fun _ r n => (takes r n, Ok "tx");
  submit_for_id := fun _ _ n => (n, Ok None);
  sleep_secs := fun _ n => n
}.

Definition me : AlgoBingle := MkAlgoBingle (Some "ME") 7 9 None.
Definition ops : RegistrationOps (chain node) := chain_registration_ops (fun _ => false) Other me 7 9.
Definition start (scans : nat) : chain node := MkChain None (MkNode None scans) [].
End OutageExample.

#[export] Existing Instance OutageExample.algo_node.

Lemma registration_pays_at_most_once_witness :
  exists new, sent (run_registration OutageExample.ops "bob" (OutageExample.start 9)).1 = new /\
    payments (fun _ => false) OutageExample.me "ME" 7 9 "bob" true (List.filter (fun e => is_group e.1.2) new).
Proof.
  destruct (registration_pays_at_most_once (fun _ => false) Other OutageExample.me "ME" 7 9 "bob" (OutageExample.start 9) _ _
    eq_refl (surjective_pairing _)) as [(new & Hs & _ & Hp) _].
  exists new. split; [exact Hs|]. exact Hp.
Defined.

(** The account pays for its handle twice.  The node took the purchase and the fee, and the
    lookup that checks the result failed: the registration is reported as failed.  Tried
    again, it finds that the account owns the handle, goes on, and buys and pays again. *)
Theorem paid_twice :
  let '(s1, r1) := run_registration OutageExample.ops "bob" (OutageExample.start 2) in
  let '(s2, r2) := run_registration OutageExample.ops "bob" s1 in
  r1 = Err (Other "indexer unreachable") /\ r2 = Ok tt /\
  List.filter (fun e => is_group e.1.2) (sent s2) =
    [("ME", buy_group 7 9 1000000 "APP", true); ("ME", fee_group 7 9 1 "bob" "APP", true);
     ("ME", buy_group 7 9 1000000 "APP", true); ("ME", fee_group 7 9 1 "bob" "APP", true)].
Proof. vm_compute. done. Qed.
