(* ===== verification/JsiTypes.v ===== *)
(** * The interface to the mobile application: messages and settings

    Models, of [src/bingle_jsi/src/api/bingle_jsi_api_impl.rs]: the conversions between the
    records the application sees and the JSON and records of the node, the delay before a
    failed check of the mailbox is repeated; and, of [util/config_utils.rs] of the core, how
    the identifiers of a node file and of the configuration are reconciled.

    [serde_json] is a parameter where text is read or written ([parse], [print]); a JSON
    value is a tree, with an object as a list of fields of which the first counts. *)
From S2P Require Import Prelude NetAddr Api LocalTypes Account LocalStore.
Import Account LocalTypes.

Local Open Scope Z_scope.

(** ** JSON *)

(** A number is an integer or the text of another one. *)
Inductive json : Type :=
| JNull
| JBool (b : bool)
| JInt (z : Z)
| JFloat (text : string)
| JStr (s : string)
| JArr (l : list json)
| JObj (fields : list (string * json)).

Fixpoint field_of (key : string) (fields : list (string * json)) : option json :=
  match fields with
  | [] => None
  | (k, v) :: fields => if decide (k = key) then Some v else field_of key fields
  end.

(** [Value::get] *)
Definition get (key : string) (v : json) : option json :=
  match v with JObj fields => field_of key fields | _ => None end.

Definition as_str (v : json) : option string := match v with JStr s => Some s | _ => None end.

Definition as_i64 (v : json) : option Z :=
  match v with
  | JInt z => if (- 2 ^ 63 <=? z) && (z <? 2 ^ 63) then Some z else None
  | _ => None
  end.

Definition str_field (key : string) (v : json) : option string := get key v ≫= as_str.

(** [Map::insert]: a field of that name is replaced. *)
Definition insert_field (key : string) (v : json) (fields : list (string * json)) : list (string * json) :=
  (key, v) :: List.filter (fun kv => negb (bool_decide (kv.1 = key))) fields.

Definition insert_str (key : string) (s : option string) (fields : list (string * json)) : list (string * json) :=
  match s with Some s => insert_field key (JStr s) fields | None => fields end.

(** The engine adds the cipher suite of the session to what it received, in
    [engine/mod.rs]. *)
Definition inject_cipher_suite (suite : option string) (v : json) : json :=
  match suite, v with
  | Some cs, JObj fields => JObj (insert_field "cipher_suite" (JStr cs) fields)
  | _, _ => v
  end.

(** ** Messages *)

Record BingleMessage : Type := MkBingleMessage {
  bm_app : option string;
  bm_type : option string;
  bm_tag : option string;
  bm_response_tag : option string;
  bm_text : option string;
  bm_data : option string;
  bm_cipher_suite : option string;
  bm_id : option string;
  bm_delivery_route : option DeliveryRoute;
  bm_delivered_time : option Z
}.

Section Json.
Context (parse : string -> option json) (print : json -> string).

Definition message_to_json (msg : BingleMessage) : json :=
  let fields := insert_str "app" (bm_app msg) [] in
  let fields := insert_str "type" (bm_type msg) fields in
  let fields := insert_str "tag" (bm_tag msg) fields in
  let fields := insert_str "responseTag" (bm_response_tag msg) fields in
  let fields := insert_str "text" (bm_text msg) fields in
  let fields :=
    match bm_data msg with
    | Some data =>
        match parse data with
        | Some v => insert_field "data" v fields
        | None => insert_field "data" (JStr data) fields
        end
    | None => fields
    end in
  JObj (insert_str "cipherSuite" (bm_cipher_suite msg) fields).

Definition json_to_message (v : json) : BingleMessage :=
  MkBingleMessage (str_field "app" v) (str_field "type" v) (str_field "tag" v)
    (str_field "responseTag" v) (str_field "text" v) (print <$> get "data" v)
    (str_field "cipherSuite" v) None None None.
End Json.

Definition mailbox_message_to_bingle (m : Message) : BingleMessage :=
  MkBingleMessage None None None None (Some (text m)) None (cipher_suite m) (Some (msg_id m))
    (Some StoreAndForward) (delivered_time m).

(** The stored message as the application sees it: without the failure to forward it,
    which is part of the reason. *)
Record AppMessage : Type := MkAppMessage {
  am_id : string;
  am_sender_handle : string;
  am_recipient_handles : list string;
  am_timestamp : Z;
  am_text : string;
  am_cipher_suite : option string;
  am_progress : option Z;
  am_failure_reason : option string;
  am_failure_kind : option SendFailureKind;
  am_sent_time : option Z;
  am_delivered_time : option Z;
  am_signature : option string;
  am_delivery_route : option DeliveryRoute
}.

Definition local_message_to_jsi (m : Message) : AppMessage :=
  MkAppMessage (msg_id m) (sender_handle m) (recipient_handles m) (timestamp m) (text m)
    (cipher_suite m) (progress m) (display_failure_reason m) (failure_kind m) (sent_time m)
    (delivered_time m) (signature m) (delivery_route m).

(** ** Status, NAT and errors *)

Inductive AppStatus : Type := Unfunded | Funded | Active | UpgradeRequired | NoStatus.

#[export] Instance AppStatus_eq_dec : EqDecision AppStatus.
Proof. solve_decision. Defined.

Definition parse_keypair_status (s : string) : AppStatus :=
  if decide (s = "UNFUNDED"%string) then Unfunded
  else if decide (s = "FUNDED"%string) then Funded
  else if decide (s = "ACTIVE"%string) then Active
  else if decide (s = "UPGRADE_REQUIRED"%string) then UpgradeRequired
  else NoStatus.

Record KeypairStatusResponse : Type := MkStatusResponse {
  ks_status : AppStatus;
  ks_id : option string;
  ks_handle : option string;
  ks_required_algo : option Z;
  ks_stale : bool
}.

Definition keypair_status_response (s : KeypairStatus) : KeypairStatusResponse :=
  MkStatusResponse (parse_keypair_status (status s)) (status_id s) (status_handle s)
    (required_algo s) (stale s).

Inductive AppNatType : Type := NatNoConnection | NatSymmetric | NatRestricted | NatFullCone | NatUnknown.

Definition parse_nat_type (nat : string) : AppNatType :=
  if decide (nat = "NoConnection"%string) then NatNoConnection
  else if decide (nat = "Symmetric"%string) then NatSymmetric
  else if decide (nat = "Restricted"%string) then NatRestricted
  else if decide (nat = "FullCone"%string) then NatFullCone
  else NatUnknown.

Inductive BingleJsiError : Type :=
| NotFound (reason : string)
| InvalidRequest (reason : string)
| InternalError (reason : string)
| NoBlockchain (reason : string)
| JsiRetryable (reason : string)
| JsiHandleTaken (reason : string).

Definition bingle_error_to_jsi (e : BingleError) : BingleJsiError :=
  match e with
  | Algo true text => NoBlockchain text
  | Retryable reason => JsiRetryable reason
  | HandleTaken owner => JsiHandleTaken ("handle already in use by " +:+ owner)
  | e => InternalError (error_to_string e)
  end.

(** ** Addresses *)

Record InetSocketAddress : Type := MkInetSocketAddress { isa_host : string; isa_port : Z }.

Record NetworkSourceKey : Type := MkNetworkSourceKey {
  nsk_inet : option InetSocketAddress;
  nsk_relay_channel : option Z;
  nsk_relay_address : option InetSocketAddress;
  nsk_relay_id : option string
}.

(** The first address a host and port resolve to is asked of the system. *)
Definition nsk_to_endpoint (resolve : InetSocketAddress -> option SocketAddr) (nsk : NetworkSourceKey)
  : NetworkEndpoint :=
  match nsk_relay_id nsk with
  | Some relay_id => new_relay relay_id (nsk_relay_address nsk ≫= resolve) (nsk_relay_channel nsk)
  | None =>
      match nsk_inet nsk ≫= resolve with
      | Some addr => new_direct addr
      | None => new_unset
      end
  end.

(** ** The delay before the next check of the mailbox *)

(** Durations are in nanoseconds. *)
Definition DURATION_MAX : Z := (2 ^ 64 - 1) * 1000000000 + 999999999.

Definition duration (d : Z) : Prop := 0 <= d <= DURATION_MAX.

(** [2u32.saturating_pow(e)] *)
Definition saturating_pow2 (e : Z) : Z := Z.min (2 ^ e) (2 ^ 32 - 1).

Definition saturating_mul (d factor : Z) : Z := Z.min (d * factor) DURATION_MAX.

Definition DEFAULT_MAILBOX_POLL_SECS : Z := 120.
Definition MAILBOX_RETRY_INITIAL : Z := 5 * 1000000000.

Definition mailbox_retry_delay (failures initial interval : Z) : Z :=
  if failures =? 0 then interval
  else
    let factor := saturating_pow2 (failures - 1) in
    Z.min (saturating_mul initial factor) interval.

(** ** Identifiers of the application and the asset *)

Definition check_id_agrees (flag key : string) (node cli : option Z) : result unit string :=
  match node, cli with
  | Some n, Some c =>
      if n =? c then Ok tt
      else Err (flag +:+ " " +:+ show_i64 c +:+ " disagrees with " +:+ key +:+ " " +:+ show_i64 n
                +:+ " in the node file; remove one or make them match")
  | _, _ => Ok tt
  end.

Definition check_node_and_cli_ids (node_app node_asset cli_app cli_asset : option Z) : result unit string :=
  let? _ := check_id_agrees "--app-id" "app_id" node_app cli_app in
  check_id_agrees "--asset-id" "asset_id" node_asset cli_asset.

(** [opt.or(other)] *)
Definition or_else {A} (o other : option A) : option A := match o with Some a => Some a | None => other end.

Definition resolve_app_asset_ids (env_app env_asset node_app node_asset cli_app cli_asset : option Z)
  : result (Z * Z) string :=
  let? _ := check_node_and_cli_ids node_app node_asset cli_app cli_asset in
  let? app := ok_or (or_else (or_else node_app cli_app) env_app)
                "Missing app_id: provide in node file, via --app-id, or set APP_ID" in
  let? asset := ok_or (or_else (or_else node_asset cli_asset) env_asset)
                  "Missing asset_id: provide in node file, via --asset-id, or set ASSET_ID" in
  Ok (app, asset).

(** ** Theorems *)

Lemma field_insert_same key v fields : field_of key (insert_field key v fields) = Some v.
Proof. unfold insert_field. cbn. by rewrite decide_True. Qed.

Lemma field_insert_other key key' v fields :
  key <> key' -> field_of key (insert_field key' v fields) = field_of key fields.
Proof.
  intros Hk. unfold insert_field. cbn. rewrite decide_False by done.
  induction fields as [|[k x] fields IH]; cbn; [done|]. case_bool_decide as E; cbn.
  - subst k. by rewrite decide_False.
  - by rewrite IH.
Qed.

Lemma field_insert_str_other key key' s fields :
  key <> key' -> field_of key (insert_str key' s fields) = field_of key fields.
Proof. intros Hk. destruct s; [by apply field_insert_other|done]. Qed.

Lemma field_insert_str key s fields :
  field_of key fields = None -> field_of key (insert_str key s fields) ≫= as_str = s.
Proof. intros Hn. destruct s; cbn [insert_str]; [by rewrite field_insert_same|by rewrite Hn]. Qed.

(** A field of the JSON of a message is looked for past the others. *)
Ltac fields :=
  repeat first
    [ rewrite field_insert_str_other by discriminate
    | rewrite field_insert_other by discriminate
    | rewrite field_insert_same
    | rewrite field_insert_str by fields ];
  try reflexivity.

(** What the application sends is what the other application is shown, as far as it
    travels: every text survives the way to JSON and back, the data is what its JSON
    prints as, and the marks of a received message are not sent. *)
Theorem message_fields_survive parse print msg :
  json_to_message print (message_to_json parse msg) =
  MkBingleMessage (bm_app msg) (bm_type msg) (bm_tag msg) (bm_response_tag msg) (bm_text msg)
    ((fun data => print (default (JStr data) (parse data))) <$> bm_data msg)
    (bm_cipher_suite msg) None None None.
Proof.
  destruct msg as [app ty tag rt txt data cs id route dt]. unfold json_to_message, message_to_json, str_field.
  cbn [get bm_app bm_type bm_tag bm_response_tag bm_text bm_data bm_cipher_suite].
  destruct data as [d|]; [destruct (parse d) as [v|] eqn:E|]; cbn [fmap option_fmap option_map]; f_equal; fields;
    by rewrite E.
Qed.

(** The cipher suite the application is shown for a live message is whatever the sender
    wrote under [cipherSuite]; the suite the engine took from the session, under
    [cipher_suite], is not read. *)
Theorem shown_suite_is_senders print suite v :
  bm_cipher_suite (json_to_message print (inject_cipher_suite suite v)) = str_field "cipherSuite" v.
Proof.
  destruct suite as [cs|], v; cbn [inject_cipher_suite]; try done. unfold json_to_message, str_field. cbn [bm_cipher_suite get].
  by rewrite field_insert_other.
Qed.

Lemma pow2_saturates e : 0 <= e -> saturating_pow2 (e + 1) = Z.min (2 * saturating_pow2 e) (2 ^ 32 - 1).
Proof. intros He. unfold saturating_pow2. rewrite Z.pow_add_r by lia. change (2 ^ 1) with 2. lia. Qed.

Lemma pow2_least e : 0 <= e -> 1 <= saturating_pow2 e.
Proof. intros He. unfold saturating_pow2. pose proof (Z.pow_pos_nonneg 2 e ltac:(lia) He). lia. Qed.

(** The delays between checks of the mailbox.  After a check that reached the node it
    is the interval; after the first that did not it is the initial delay, and each further
    one doubles it, until the interval is reached and kept, if the interval is no more than
    2{^32}-1 initial delays.  No arithmetic overflows on the way. *)
Theorem retry_delays initial interval :
  duration initial -> duration interval -> interval <= initial * (2 ^ 32 - 1) ->
  mailbox_retry_delay 0 initial interval = interval /\
  mailbox_retry_delay 1 initial interval = Z.min initial interval /\
  forall n, 1 <= n ->
    mailbox_retry_delay (n + 1) initial interval = Z.min (2 * mailbox_retry_delay n initial interval) interval /\
    Z.min initial interval <= mailbox_retry_delay n initial interval <= interval /\
    duration (mailbox_retry_delay n initial interval).
Proof.
  intros [Hi0 Hi1] [Ht0 Ht1] Hle. unfold mailbox_retry_delay. split; [done|]. split.
  - cbn. unfold saturating_mul, saturating_pow2. cbn. lia.
  - intros n Hn. destruct (n + 1 =? 0) eqn:E1, (n =? 0) eqn:E2; try lia. clear E1 E2.
    replace (n + 1 - 1) with (n - 1 + 1) by lia. rewrite pow2_saturates by lia.
    pose proof (pow2_least (n - 1) ltac:(lia)) as Hp. unfold saturating_mul, duration.
    assert (saturating_pow2 (n - 1) <= 2 ^ 32 - 1) as Hm by (unfold saturating_pow2; lia).
    set (f := saturating_pow2 (n - 1)) in *. unfold DURATION_MAX in *. split; [nia|]. nia.
Qed.

Lemma retry_delays_witness :
  let interval := DEFAULT_MAILBOX_POLL_SECS * 1000000000 in
  map (fun n => mailbox_retry_delay n MAILBOX_RETRY_INITIAL interval / 1000000000) [1; 2; 3; 5; 6] =
    [5; 10; 20; 80; 120] /\
  mailbox_retry_delay (40 + 1) MAILBOX_RETRY_INITIAL interval = interval.
Proof.
  split; [vm_compute; reflexivity|].
  destruct (retry_delays MAILBOX_RETRY_INITIAL (DEFAULT_MAILBOX_POLL_SECS * 1000000000)) as (_ & _ & Hn);
    [split; vm_compute; discriminate|split; vm_compute; discriminate|vm_compute; discriminate|].
  destruct (Hn 40 ltac:(lia)) as [E _]. rewrite E. vm_compute. reflexivity.
Defined.

(** The identifiers that are used are those of the node file where it names them, else
    those of the configuration, else those of the environment; two sources that disagree
    are refused, and nothing is made up for a missing one. *)
Theorem ids_resolved env_app env_asset node_app node_asset cli_app cli_asset app asset :
  resolve_app_asset_ids env_app env_asset node_app node_asset cli_app cli_asset = Ok (app, asset) <->
  (forall n c, node_app = Some n -> cli_app = Some c -> n = c) /\
  (forall n c, node_asset = Some n -> cli_asset = Some c -> n = c) /\
  or_else (or_else node_app cli_app) env_app = Some app /\
  or_else (or_else node_asset cli_asset) env_asset = Some asset.
Proof.
  assert (forall flag key n c, is_ok (check_id_agrees flag key n c) = true <->
    (forall x y, n = Some x -> c = Some y -> x = y)) as Hc.
  { intros flag key n c. unfold check_id_agrees. destruct n as [x|], c as [y|]; try (split; [by intros|done]).
    destruct (Z.eqb_spec x y); split; [by intros _ ? ? [= <-] [= <-]|done|done|].
    intros E. by destruct n, (E x y). }
  unfold resolve_app_asset_ids, check_node_and_cli_ids. rewrite <- (Hc "--app-id" "app_id"), <- (Hc "--asset-id" "asset_id").
  destruct (check_id_agrees "--app-id" _ _ _) as [[]|]; cbn [result_bind is_ok]; [|by split; [|intros (? & _)]].
  destruct (check_id_agrees "--asset-id" _ _ _) as [[]|]; cbn [result_bind is_ok]; [|by split; [|intros (_ & ? & _)]].
  destruct (or_else (or_else node_app cli_app) env_app) as [a|]; cbn; [|by split; [|intros (_ & _ & ? & _)]].
  destruct (or_else (or_else node_asset cli_asset) env_asset) as [b|]; cbn; [|by split; [|intros (_ & _ & _ & ?)]].
  split; [by intros [= -> ->]|]. by intros (_ & _ & [= ->] & [= ->]).
Qed.
