(* ===== verification/Jsi.v ===== *)
(** * The interface to the mobile application: the instance

    Models [src/bingle_jsi/src/api/bingle_jsi_api_impl.rs]: the instance an application
    holds, made by [init]; its operations, over the local client of [Account] and
    [LocalStore]; what happens to a message that arrives live; the threads that check the
    mailbox; starting, stopping, and going to the foreground and the background.

    The state [Jsi] is the instance with everything its threads share.  The callbacks of
    the application are flags, and [told] records what they were called with.  A thread
    that checks the mailbox is a program counter over its flags, which lie in a store,
    since the instance and the thread share them; [act] is one step of the application, of
    the network or of a thread.  The sender of pending messages is the one of
    [SenderThreads], here the events it was sent; the older loop is in [JsiLoop]. *)
From S2P Require Import Prelude NetAddr Api LocalTypes SendRetry Mailbox Envelope Account LocalStore RegistrationGroup JsiTypes.
Import Account LocalTypes.

Local Open Scope Z_scope.

(** ** What the instance asks of the node and the system *)

(** The options of the engine that the instance itself reads or sets. *)
Record StartOptions : Type := MkStartOptions {
  so_handle : string;
  so_passphrase : option string;
  so_app_id : option Z;
  so_asset_id : option Z;
  so_dangerous_debug : bool
}.

Definition for_account (handle : option string) (kp : option Keypair) (o : StartOptions) : StartOptions :=
  MkStartOptions (default (so_handle o) handle)
    (match kp with Some k => Some (passphrase k) | None => so_passphrase o end)
    (so_app_id o) (so_asset_id o) (so_dangerous_debug o).

Class NodeApi (W : Type) := {
  write_state : string -> SavedState -> W -> W * result unit BingleError;
  read_state : string -> W -> W * result SavedState BingleError;
  file_exists : string -> W -> W * bool;
  api_get_handle : W -> W * option string;
  engine_start : StartOptions -> W -> W * result unit BingleError;
  engine_stop : W -> W;
  engine_on_foreground : W -> W;
  engine_on_background : W -> W;
  resolve_host : InetSocketAddress -> option SocketAddr;
  api_handle_lookup : string -> W -> W * result (option string) BingleError;
  api_handle_lookup_partial : string -> W -> W * result (option (string * string)) BingleError;
  api_handle_lookup_matches : string -> nat -> W -> W * result (list (string * string * bool)) BingleError;
  api_send_to_id : string -> json -> W -> W * result bool BingleError;
  api_send_to_handle : string -> json -> W -> W * result bool BingleError;
  api_send_to_network : NetworkEndpoint -> string -> json -> W -> W * result bool BingleError;
  api_request_id : string -> json -> W -> W * result json BingleError;
  api_request_handle : string -> json -> W -> W * result json BingleError;
  api_request_network : NetworkEndpoint -> string -> json -> W -> W * result json BingleError
}.

(** ** The state *)

Inductive HostEvent : Type :=
| OnMessage (source : json + Message) (sender handle : string) (m : BingleMessage)
| OnMailboxChecked (read : Z)
| OnListening (listening : bool) (nat : string)
| OnRequestRegistration.

Record Host : Type := MkHost {
  message_callback : bool;
  mailbox_check_callback : bool;
  listening_callback : bool;
  push_registration_callback : bool;
  told : list HostEvent
}.

(** The flags of a thread that checks the mailbox. *)
Record MailboxPollerControl : Type := MkControl { stop : bool; wake : bool }.

Inductive poller_pc : Type :=
| Looping
| Napping (slept total : Z)
| Exited.

Record Poller : Type := MkPoller { control : nat; failures : Z; pc : poller_pc }.

(** What the instance tells the sender of pending messages. *)
Inductive SenderEvent : Type := PeerSeen (peer : string) | WakeSender.

(** Work the instance gives a thread of its own. *)
Inductive Task : Type := TaskForeground | TaskBackground | TaskFlush.

Record Settings : Type := MkSettings {
  local_file : option string;
  mailbox_poll_interval : Z;
  mailbox_retry_initial : Z;
  send_pending_messages : bool;
  opts : StartOptions
}.

Record Jsi (W : Type) : Type := MkJsi {
  settings : Settings;
  local_api : option LocalState;
  world : W;
  host : Host;
  queue : list json;
  nat_type : string;
  listening : bool;
  started : bool;
  controls : list MailboxPollerControl;
  mailbox_poller : option nat;
  pollers : list Poller;
  pending_sender : option (list SenderEvent);
  processing_thread : bool;
  loops : nat;
  tasks : list Task
}.
Arguments MkJsi {W}. Arguments settings {W}. Arguments local_api {W}. Arguments world {W}.
Arguments host {W}. Arguments queue {W}. Arguments nat_type {W}. Arguments listening {W}.
Arguments started {W}. Arguments controls {W}. Arguments mailbox_poller {W}. Arguments pollers {W}.
Arguments pending_sender {W}. Arguments processing_thread {W}. Arguments loops {W}. Arguments tasks {W}.

Section Setters.
Context {W : Type}.
Implicit Types j : Jsi W.

Definition set_local (l : option LocalState) (w : W) j : Jsi W :=
  MkJsi (settings j) l w (host j) (queue j) (nat_type j) (listening j) (started j) (controls j)
    (mailbox_poller j) (pollers j) (pending_sender j) (processing_thread j) (loops j) (tasks j).
Definition set_host (h : Host) j : Jsi W :=
  MkJsi (settings j) (local_api j) (world j) h (queue j) (nat_type j) (listening j) (started j)
    (controls j) (mailbox_poller j) (pollers j) (pending_sender j) (processing_thread j) (loops j) (tasks j).
Definition push_queue (m : json) j : Jsi W :=
  MkJsi (settings j) (local_api j) (world j) (host j) (queue j ++ [m]) (nat_type j) (listening j)
    (started j) (controls j) (mailbox_poller j) (pollers j) (pending_sender j) (processing_thread j)
    (loops j) (tasks j).
Definition set_listening (nat : string) (l : bool) j : Jsi W :=
  MkJsi (settings j) (local_api j) (world j) (host j) (queue j) nat l (started j) (controls j)
    (mailbox_poller j) (pollers j) (pending_sender j) (processing_thread j) (loops j) (tasks j).
Definition set_started (b : bool) j : Jsi W :=
  MkJsi (settings j) (local_api j) (world j) (host j) (queue j) (nat_type j) (listening j) b (controls j)
    (mailbox_poller j) (pollers j) (pending_sender j) (processing_thread j) (loops j) (tasks j).
Definition set_pollers (c : list MailboxPollerControl) (m : option nat) (p : list Poller) j : Jsi W :=
  MkJsi (settings j) (local_api j) (world j) (host j) (queue j) (nat_type j) (listening j) (started j) c m p
    (pending_sender j) (processing_thread j) (loops j) (tasks j).
Definition set_sender (s : option (list SenderEvent)) j : Jsi W :=
  MkJsi (settings j) (local_api j) (world j) (host j) (queue j) (nat_type j) (listening j) (started j)
    (controls j) (mailbox_poller j) (pollers j) s (processing_thread j) (loops j) (tasks j).
Definition set_loops (joinable : bool) (n : nat) j : Jsi W :=
  MkJsi (settings j) (local_api j) (world j) (host j) (queue j) (nat_type j) (listening j) (started j)
    (controls j) (mailbox_poller j) (pollers j) (pending_sender j) joinable n (tasks j).
Definition set_tasks (t : list Task) j : Jsi W :=
  MkJsi (settings j) (local_api j) (world j) (host j) (queue j) (nat_type j) (listening j) (started j)
    (controls j) (mailbox_poller j) (pollers j) (pending_sender j) (processing_thread j) (loops j) t.

Definition tell (registered : Host -> bool) (e : HostEvent) j : Jsi W :=
  if registered (host j) then
    set_host (MkHost (message_callback (host j)) (mailbox_check_callback (host j))
                (listening_callback (host j)) (push_registration_callback (host j)) (told (host j) ++ [e])) j
  else j.
End Setters.

(** ** Operations of the application *)

Section Instance.
Context {W SigningKey : Type} `{LocalWorld W} `{Sidewinder W} `{MailboxClient W} `{NodeApi W}.
Context (A : algo) (P : primitives SigningKey) (parse : string -> option json) (print : json -> string).
Context {Key : Type} (T : group_tools Key) (signing_key_of : string -> result Key string)
  (group_error_text : RegistrationGroupError -> string).

Abbreviation J := (ST (Jsi W)).

Definition in_world {B} (f : W -> W * B) : J B :=
  fun j => let '(w, b) := f (world j) in (set_local (local_api j) w j, b).

(** An operation of the local client, under its lock; none without a client. *)
Definition on_local {B} (m : L (W := W) B) : J (option B) :=
  fun j =>
    match local_api j with
    | None => (j, None)
    | Some s => let '((s, w), b) := m (s, world j) in (set_local (Some s) w j, Some b)
    end.

Definition save_if_configured : J unit :=
  j ← get_st;
  match local_api j, local_file (settings j) with
  | Some s, Some path => _ ← in_world (write_state path (save s)); mret tt
  | _, _ => mret tt
  end.

(** The caller holds the lock of the local client. *)
Definition save_strictly (what : string) : J (result unit BingleJsiError) :=
  j ← get_st;
  match local_file (settings j) with
  | None =>
      mret (Err (InvalidRequest (what +:+ " must be saved, but no state file is set ('local' in BingleJsiConfig)")))
  | Some path =>
      match local_api j with
      | None => mret (Ok tt)
      | Some s =>
          r ← in_world (write_state path (save s));
          mret (map_err (fun e => InternalError ("couldn't save " +:+ what +:+ ": " +:+ error_to_string e)) r)
      end
  end.

(** [local_api_guard] and the operation under it. *)
Definition guarded {B} (m : L (W := W) (result B BingleError)) : J (result B BingleJsiError) :=
  r ← on_local m;
  mret (match r with
        | None => Err (InvalidRequest "Local API not enabled (set 'local' in BingleJsiConfig)")
        | Some r => map_err bingle_error_to_jsi r
        end).

Definition and_save {B} (m : J (result B BingleJsiError)) : J (result B BingleJsiError) :=
  let* b := m in _ ← save_if_configured; mret (Ok b).

(** *** Keys *)

Definition generate_keypair : J (result Keypair BingleJsiError) :=
  and_save (guarded Account.generate_keypair).

Definition import_keypair (pass : string) : J (result Keypair BingleJsiError) :=
  and_save (guarded (Account.import_keypair A pass)).

Definition register_keypair (handle : string) : J (result unit BingleJsiError) :=
  and_save (let* _ := guarded (Account.register_keypair handle) in mret (Ok tt)).

Definition begin_recovery_keypair : J (result Keypair BingleJsiError) :=
  let* kp := guarded Account.begin_recovery_keypair in
  let* _ := save_strictly "a recovery keypair" in
  mret (Ok kp).

Definition complete_recovery_keypair : J (result Keypair BingleJsiError) :=
  let* kp := guarded (Account.complete_recovery_keypair A) in
  let* _ := save_strictly "the recovered keypair" in
  mret (Ok kp).

Definition keypair_status : J (result KeypairStatusResponse BingleJsiError) :=
  let* s := guarded Account.keypair_status in mret (Ok (keypair_status_response s)).

Definition inspect_passphrase (pass : string) : J (result KeypairStatusResponse BingleJsiError) :=
  let* s := guarded (Account.inspect_passphrase A pass) in mret (Ok (keypair_status_response s)).

Definition no_keypair (operation : string) : BingleJsiError :=
  InvalidRequest ("no keypair to " +:+ operation +:+ ": generate or import one first").

Definition registration_group_ids (j : Jsi W) : result RegistrationGroupIds BingleJsiError :=
  match so_app_id (opts (settings j)), so_asset_id (opts (settings j)) with
  | Some app, Some asset =>
      if (app =? 0) || (asset =? 0)
      then Err (InvalidRequest "no Bingle app and asset IDs are configured (node_file, or app_id and asset_id)")
      else Ok (MkIds app asset)
  | _, _ => Err (InvalidRequest "no Bingle app and asset IDs are configured (node_file, or app_id and asset_id)")
  end.

Definition signing_key (pass : string) : result Key BingleJsiError :=
  map_err (fun e => InternalError ("the stored keypair can't sign: " +:+ e)) (signing_key_of pass).

Definition current_keypair (operation : string) : J (result Keypair BingleJsiError) :=
  let* kp := guarded Account.get_keypair in mret (ok_or kp (no_keypair operation)).

Definition group_result {B} (r : result B RegistrationGroupError) : result B BingleJsiError :=
  map_err (fun e => InvalidRequest (group_error_text e)) r.

Definition sign_registration_group (transactions : list string) (sign_indexes : list Z) (handle : string)
  : J (result (list string) BingleJsiError) :=
  j ← get_st;
  match registration_group_ids j with
  | Err e => mret (Err e)
  | Ok ids =>
      let* current := current_keypair "sign a registration group" in
      mret (let? key := signing_key (passphrase current) in
            group_result (RegistrationGroup.sign_registration_group T ids transactions sign_indexes handle key))
  end.

Definition sign_recovery_group (transactions : list string) (sign_indexes : list Z) (handle : string)
  : J (result (list string) BingleJsiError) :=
  j ← get_st;
  match registration_group_ids j with
  | Err e => mret (Err e)
  | Ok ids =>
      let* current := current_keypair "sign a recovery group" in
      let* kp := guarded Account.get_recovery_keypair in
      mret (let? pending := ok_or kp (InvalidRequest "no recovery has begun: call beginRecoveryKeypair first") in
            let? old_key := signing_key (passphrase current) in
            let? new_key := signing_key (passphrase pending) in
            group_result (RegistrationGroup.sign_recovery_group T ids transactions sign_indexes handle old_key new_key))
  end.

(** *** Notifications *)

Definition sign_notify_envelope (route iss audience token env : string) (topic : option string)
    (nonce : string) (exp : Z) : J (result string BingleJsiError) :=
  let* pass := guarded get_algo_ops in
  mret (if decide (route = "register"%string)
        then map_err bingle_error_to_jsi (sign_register_envelope A pass iss token env topic nonce exp)
        else if decide (is_Some topic)
        then Err (InvalidRequest ("a topic applies only to the register route, not '" +:+ route +:+ "'"))
        else map_err (fun e => InternalError (error_to_string e))
               (Account.sign_notify_envelope A pass route iss audience token env nonce exp)).

Definition build_notify_register_request (iss token env : string) (topic : option string)
  : J (result RegisterRequest BingleJsiError) :=
  let* pass := guarded get_algo_ops in
  guarded (build_fresh_register_request A pass iss token env topic).

Definition request_push_registration : J (result unit BingleJsiError) :=
  j ← get_st;
  if push_registration_callback (host j) then
    _ ← modify (tell push_registration_callback OnRequestRegistration); mret (Ok tt)
  else mret (Err (InternalError "no push registration callback set")).

Definition register_apns_token (token : list Z) : J (result bool BingleJsiError) :=
  guarded (Account.register_apns_token A token).

(** *** Contacts and settings *)

Definition store_result {B} (f : store -> store * result B BingleError) : L (W := W) (result B BingleError) :=
  in_store f.

Definition add_contact (handle id : string) (source : ContactSource) : J (result unit BingleJsiError) :=
  and_save (guarded (store_result (LocalStore.add_contact handle id source))).
Definition block_contact (id : string) : J (result unit BingleJsiError) :=
  and_save (guarded (store_result (LocalStore.block_contact id))).
Definition unblock_contact (id : string) : J (result unit BingleJsiError) :=
  and_save (guarded (store_result (LocalStore.unblock_contact id))).
Definition remove_contact (id : string) : J (result unit BingleJsiError) :=
  and_save (guarded (store_result (LocalStore.remove_contact id))).

Definition read_local {B} (f : LocalState -> B) : J (result B BingleJsiError) :=
  guarded (s ← get_state; mret (Ok (f s))).

Definition is_blocked (id : string) : J (result bool BingleJsiError) :=
  guarded (s ← get_state; mret (LocalStore.is_blocked id (st s))).
Definition get_contacts : J (result (list Contact) BingleJsiError) :=
  read_local (fun s => LocalStore.get_contacts (st s)).
Definition get_blocked_contacts : J (result (list Contact) BingleJsiError) :=
  read_local (fun s => LocalStore.get_blocked_contacts (st s)).
Definition messaging_settings : J (result MessagingSettings BingleJsiError) :=
  read_local (fun s => LocalStore.messaging_settings (config s)).

Definition set_store_and_forward (send receive : bool) : J (result unit BingleJsiError) :=
  guarded (_ ← update (on_config (LocalStore.set_store_and_forward send receive)); mret (Ok tt)).
Definition set_notify (enabled : bool) (url : option string) : J (result unit BingleJsiError) :=
  guarded (_ ← update (on_config (LocalStore.set_notify enabled url)); mret (Ok tt)).

(** *** Messages *)

Definition add_message (sender : string) (recipients : list string) (at_ : Z) (txt : string)
    (suite : option string) : J (result unit BingleJsiError) :=
  and_save (let* _ := guarded (LocalStore.add_message sender recipients at_ txt suite) in mret (Ok tt)).

Definition get_messages : J (result (list AppMessage) BingleJsiError) :=
  read_local (fun s => local_message_to_jsi <$> LocalStore.get_messages (st s)).

Definition signal_sender (e : SenderEvent) : J unit :=
  modify (fun j => match pending_sender j with
                   | Some events => set_sender (Some (events ++ [e])) j
                   | None => j
                   end).

Definition queue_message (recipients : list string) (txt : string) : J (result unit BingleJsiError) :=
  let* _ := and_save (guarded (LocalStore.queue_message recipients txt)) in
  _ ← signal_sender WakeSender;
  mret (Ok tt).

Definition update_message_status_by_id (id : string) (progress : Z) (reason : option string)
  : J (result unit BingleJsiError) :=
  and_save (guarded (LocalStore.update_message_status A P id progress reason None)).

Definition update_message_status (at_ progress : Z) (reason : option string) : J (result unit BingleJsiError) :=
  let* ms := read_local (fun s => LocalStore.get_messages (st s)) in
  match find (fun m => timestamp m =? at_) ms with
  | None =>
      mret (Err (bingle_error_to_jsi (Other ("Message with timestamp " +:+ show_i64 at_ +:+ " not found"))))
  | Some m => update_message_status_by_id (msg_id m) progress reason
  end.

Definition queued : J (list BingleMessage) := j ← get_st; mret (json_to_message print <$> queue j).

(** *** The node *)

Definition found_or {B} (what : string) (r : result (option B) BingleError) : result B BingleJsiError :=
  match r with
  | Ok (Some b) => Ok b
  | Ok None => Err (NotFound what)
  | Err e => Err (bingle_error_to_jsi e)
  end.

Definition handle_lookup (handle : string) : J (result string BingleJsiError) :=
  r ← in_world (api_handle_lookup handle); mret (found_or ("Handle '" +:+ handle +:+ "' not found") r).
Definition handle_lookup_partial (handle : string) : J (result (string * string) BingleJsiError) :=
  r ← in_world (api_handle_lookup_partial handle);
  mret (found_or ("No handle matching '" +:+ handle +:+ "' found") r).

Definition handle_lookup_matches (prefix : string) (limit : nat)
  : J (result (list (string * string * bool)) BingleJsiError) :=
  r ← in_world (api_handle_lookup_matches prefix limit); mret (map_err bingle_error_to_jsi r).

Definition send_message_to_id (user : string) (m : BingleMessage) : J (result bool BingleJsiError) :=
  r ← in_world (api_send_to_id user (message_to_json parse m)); mret (map_err bingle_error_to_jsi r).
Definition send_message_to_handle (handle : string) (m : BingleMessage) : J (result bool BingleJsiError) :=
  r ← in_world (api_send_to_handle handle (message_to_json parse m)); mret (map_err bingle_error_to_jsi r).
Definition send_message_to_network (nsk : NetworkSourceKey) (user : string) (m : BingleMessage)
  : J (result bool BingleJsiError) :=
  r ← in_world (api_send_to_network (nsk_to_endpoint resolve_host nsk) user (message_to_json parse m));
  mret (map_err bingle_error_to_jsi r).

Definition answer (r : result json BingleError) : result BingleMessage BingleJsiError :=
  match r with Ok v => Ok (json_to_message print v) | Err e => Err (bingle_error_to_jsi e) end.

Definition send_message_to_id_with_response (user : string) (m : BingleMessage)
  : J (result BingleMessage BingleJsiError) :=
  r ← in_world (api_request_id user (message_to_json parse m)); mret (answer r).
Definition send_message_to_handle_with_response (handle : string) (m : BingleMessage)
  : J (result BingleMessage BingleJsiError) :=
  r ← in_world (api_request_handle handle (message_to_json parse m)); mret (answer r).
Definition send_message_to_network_with_response (nsk : NetworkSourceKey) (user : string) (m : BingleMessage)
  : J (result BingleMessage BingleJsiError) :=
  r ← in_world (api_request_network (nsk_to_endpoint resolve_host nsk) user (message_to_json parse m));
  mret (answer r).

Definition get_nat_type : J AppNatType := j ← get_st; mret (parse_nat_type (nat_type j)).

(** Messages can be delivered: also what the sender of pending messages waits for. *)
Definition network_available (j : Jsi W) : bool :=
  if listening j then negb (bool_decide (nat_type j = "NoConnection"%string)) else false.

(** *** The state file *)

Definition save_to (path : string) : J (result unit BingleJsiError) :=
  guarded (s ← get_state; outside (write_state path (LocalStore.save s))).
Definition load_from (path : string) : J (result unit BingleJsiError) :=
  guarded (let* f := outside (read_state path) in _ ← update (LocalStore.load f); mret (Ok tt)).

(** ** Messages that arrive *)

Definition is_sender_blocked (sender : string) : J bool :=
  r ← on_local (s ← get_state; mret (LocalStore.is_blocked sender (st s)));
  mret (match r with Some (Ok true) => true | _ => false end).

Definition note_peer_seen (id handle : string) : J unit :=
  _ ← (if decide (id = EmptyString) then mret tt else signal_sender (PeerSeen id));
  if decide (handle = EmptyString) then mret tt else signal_sender (PeerSeen handle).

Inductive Stored : Type := Kept | Duplicate.

Definition store_received_message (recipient : option string) (sender_handle : string) (message : json) : J Stored :=
  j ← get_st;
  match local_api j, recipient with
  | Some _, Some recipient =>
      r ← on_local
        (at_ ← now_millis;
         add_received_message sender_handle [recipient] at_ (str_field "text" message) (print message)
           (str_field "cipher_suite" message) (get "sent_time" message ≫= as_i64) (str_field "signature" message));
      match r with
      | Some (Ok None) => mret Duplicate
      | _ => _ ← save_if_configured; mret Kept
      end
  | _, _ => mret Kept
  end.

Definition live_message (message : json) : BingleMessage :=
  let m := json_to_message print message in
  MkBingleMessage (bm_app m) (bm_type m) (bm_tag m) (bm_response_tag m) (bm_text m) (bm_data m)
    (bm_cipher_suite m) (bm_id m) (Some Direct) (bm_delivered_time m).

(** A live message of a sender that is not blocked. *)
Definition accept_live (sender sender_handle : string) (message : json) : J unit :=
  _ ← note_peer_seen sender sender_handle;
  own ← in_world api_get_handle;
  stored ← store_received_message own sender_handle message;
  match stored with
  | Duplicate => mret tt
  | Kept =>
      _ ← modify (tell message_callback (OnMessage (inl message) sender sender_handle (live_message message)));
      modify (push_queue message)
  end.

Definition on_live_message (sender sender_handle : string) (message : json) : J unit :=
  blocked ← is_sender_blocked sender;
  if (blocked : bool) then mret tt else accept_live sender sender_handle message.

Definition on_listening (now_listening : bool) (nat : string) : J unit :=
  let type_str := if now_listening then nat else "Unknown"%string in
  _ ← modify (set_listening type_str now_listening);
  modify (tell listening_callback (OnListening now_listening type_str)).

(** ** Checking the mailbox *)

Fixpoint note_senders (read : list Message) : J unit :=
  match read with
  | [] => mret tt
  | m :: read => _ ← note_peer_seen "" (sender_handle m); note_senders read
  end.

Fixpoint notify_mailbox_messages (read : list Message) : J unit :=
  match read with
  | [] => mret tt
  | m :: read =>
      _ ← modify (tell message_callback (OnMessage (inr m) "" (sender_handle m) (mailbox_message_to_bingle m)));
      notify_mailbox_messages read
  end.

Definition notify_mailbox_checked (read : nat) : J unit :=
  modify (tell mailbox_check_callback (OnMailboxChecked (Z.min (Z.of_nat read) (2 ^ 32 - 1)))).

(** One turn of the thread's loop: the failures in a row after it, once the poll has
    ended. *)
Definition poll_pass (fuel : nat) (failures : Z) : J (option Z) :=
  r ← on_local (poll_mailbox A P fuel);
  match r with
  | Some (Some poll) =>
      let read := poll_messages poll in
      _ ← note_senders read;
      _ ← match read with
          | [] => mret tt
          | _ => _ ← save_if_configured; notify_mailbox_messages read
          end;
      match poll_status poll with
      | Drained => _ ← notify_mailbox_checked (length read); mret (Some 0)
      | Unreachable _ => mret (Some (Z.min (failures + 1) (2 ^ 32 - 1)))
      | Skipped => mret (Some 0)
      end
  | _ => mret None
  end.

Definition STEP : Z := 100 * 1000000.

Definition control_of (p : Poller) (j : Jsi W) : MailboxPollerControl :=
  default (MkControl false false) (controls j !! control p).

Definition set_control (c : nat) (f : MailboxPollerControl -> MailboxPollerControl) (j : Jsi W) : Jsi W :=
  set_pollers (alter f c (controls j)) (mailbox_poller j) (pollers j) j.

(** One step of a thread: the head of its loop, or one look of [sleep] at its flags. *)
Definition poller_step (fuel : nat) (p : Poller) : J (option Poller) :=
  j ← get_st;
  match pc p with
  | Exited => mret None
  | Looping =>
      if stop (control_of p j) then mret (Some (MkPoller (control p) (failures p) Exited))
      else
        r ← poll_pass fuel (failures p);
        mret ((fun n => MkPoller (control p) n
                 (Napping 0 (mailbox_retry_delay n (mailbox_retry_initial (settings j))
                               (mailbox_poll_interval (settings j))))) <$> r)
  | Napping slept total =>
      if slept <? total then
        if stop (control_of p j) then mret (Some (MkPoller (control p) (failures p) Looping))
        else if wake (control_of p j) then
          _ ← modify (set_control (control p) (fun c => MkControl (stop c) false));
          mret (Some (MkPoller (control p) (failures p) Looping))
        else mret (Some (MkPoller (control p) (failures p) (Napping (slept + Z.min STEP (total - slept)) total)))
      else mret (Some (MkPoller (control p) (failures p) Looping))
  end.

Definition start_mailbox_poller : J unit :=
  modify (fun j =>
    match local_api j with
    | None => j
    | Some _ =>
        match mailbox_poller j with
        | Some c => set_control c (fun c => MkControl (stop c) true) j
        | None =>
            set_pollers (controls j ++ [MkControl false false]) (Some (length (controls j)))
              (pollers j ++ [MkPoller (length (controls j)) 0 Looping]) j
        end
    end).

Definition stop_mailbox_poller : J unit :=
  modify (fun j =>
    match mailbox_poller j with
    | None => j
    | Some c =>
        let j := set_control c (fun c => MkControl true (wake c)) j in
        set_pollers (controls j) None (pollers j) j
    end).

(** ** Foreground and background *)

Definition spawn (t : Task) : J unit := modify (fun j => set_tasks (tasks j ++ [t]) j).

Definition flush_pending_to_mailbox : J unit :=
  j ← get_st;
  match local_api j with None => mret tt | Some _ => spawn TaskFlush end.

Definition foregrounding : J unit :=
  _ ← spawn TaskForeground; start_mailbox_poller.

Definition backgrounding : J unit :=
  _ ← stop_mailbox_poller;
  _ ← spawn TaskBackground;
  flush_pending_to_mailbox.

(** What the threads of their own do. *)
Definition run_task (t : Task) : J unit :=
  match t with
  | TaskForeground => in_world (fun w => (engine_on_foreground w, tt))
  | TaskBackground => in_world (fun w => (engine_on_background w, tt))
  | TaskFlush => _ ← on_local (forward_pending_to_mailbox A P); save_if_configured
  end.

(** ** Starting and stopping *)

Definition start_pending_sender : J bool :=
  j ← get_st;
  if negb (send_pending_messages (settings j)) then mret false
  else match local_api j with
  | None => mret false
  | Some _ =>
      match pending_sender j with
      | Some _ => mret true
      | None => _ ← modify (set_sender (Some [])); mret true
      end
  end.

(** Starting the engine, unless it was started. *)
Definition start_engine : J (result unit BingleJsiError) :=
  j ← get_st;
  if started j then mret (Ok tt)
  else
    let* status := guarded Account.keypair_status in
    let kp_status := parse_keypair_status (LocalTypes.status status) in
    if negb (so_dangerous_debug (opts (settings j))) && negb (bool_decide (kp_status = Funded))
       && negb (bool_decide (kp_status = Active))
    then mret (Err (InvalidRequest "Cannot start engine: keypair must be FUNDED or ACTIVE"))
    else
      kp ← guarded Account.get_keypair;
      let o := for_account (status_handle status) (match kp with Ok k => k | Err _ => None end) (opts (settings j)) in
      r ← in_world (engine_start o);
      match r with
      | Err e => mret (Err (bingle_error_to_jsi e))
      | Ok _ => _ ← modify (set_started true); mret (Ok tt)
      end.

Definition start : J (result unit BingleJsiError) :=
  let* _ := start_engine in
  shared ← start_pending_sender;
  if (shared : bool) then mret (Ok tt)
  else _ ← modify (fun j => set_loops true (S (loops j)) j); mret (Ok tt).

(** The last loop that was started is waited for. *)
Definition stop_instance : J unit :=
  j ← get_st;
  if negb (started j) then mret tt
  else
    _ ← modify (set_started false);
    _ ← modify (set_sender None);
    _ ← in_world (fun w => (engine_stop w, tt));
    modify (fun j => if processing_thread j then set_loops false (pred (loops j)) j else j).

(** [init], once the instance exists: whether the engine starts at once. *)
Definition start_at_init : J unit :=
  j ← get_st;
  let launch (o : StartOptions) : J unit := _ ← in_world (engine_start o); modify (set_started true) in
  match local_file (settings j) with
  | None => launch (opts (settings j))
  | Some _ =>
      r ← on_local Account.keypair_status;
      match r with
      | Some (Ok status) =>
          if decide (LocalTypes.status status = "UPGRADE_REQUIRED"%string) then mret tt
          else
            status ← (if decide (LocalTypes.status status = "ACTIVE"%string) then mret status
                      else
                        m ← on_local Account.ensure_local_migrated;
                        match m with
                        | Some (Ok (Some _)) =>
                            again ← on_local Account.keypair_status;
                            mret (match again with Some (Ok s2) => s2 | _ => status end)
                        | _ => mret status
                        end);
            if decide (LocalTypes.status status = "ACTIVE"%string) then
              kp ← on_local Account.get_keypair;
              launch (for_account (status_handle status) (match kp with Some (Ok k) => k | _ => None end)
                        (opts (settings j)))
            else mret tt
      | _ => mret tt
      end
  end.

(** ** Making an instance *)

(** The configuration, with what parsing its addresses and files gave: the address of
    [static_ip], the servers of [stun_servers_file] or [stun_servers], the identifiers of
    [node_file]. *)
Record BingleJsiConfig : Type := MkJsiConfig {
  jc_handle : option string;
  jc_passphrase : option string;
  jc_static_ip : option (result SocketAddr string);
  jc_stun_servers : option (result (list SocketAddr) string);
  jc_node_file : option (result (option Z * option Z) string);
  jc_app_id : option Z;
  jc_asset_id : option Z;
  jc_local : option string;
  jc_notify_gateway_url : option string;
  jc_notify_on_giveup : option bool;
  jc_notify_env : option string;
  jc_store_and_forward_send : option bool;
  jc_store_and_forward_receive : option bool;
  jc_poll_interval_secs : option Z;
  jc_send_pending_messages : option bool
}.

Definition invalid {B} (r : result B string) : result B BingleJsiError := map_err InvalidRequest r.

(** [opt.transpose()?] *)
Definition checked {B} (o : option (result B string)) : result (option B) BingleJsiError :=
  match o with
  | None => Ok None
  | Some r => let? b := invalid r in Ok (Some b)
  end.

Definition init_handle (c : BingleJsiConfig) : result string BingleJsiError :=
  match jc_handle c, jc_local c with
  | Some h, _ => Ok h
  | None, Some _ => Ok EmptyString
  | None, None => Err (InvalidRequest "Missing handle: provide handle or enable local mode")
  end.

Definition init_options (c : BingleJsiConfig) (env_app env_asset : option Z) : result StartOptions BingleJsiError :=
  let? handle := init_handle c in
  let? _ := checked (jc_static_ip c) in
  let? _ := checked (jc_stun_servers c) in
  let? node := checked (jc_node_file c) in
  let '(node_app, node_asset) := default (None, None) node in
  let? _ := invalid (check_node_and_cli_ids node_app node_asset (jc_app_id c) (jc_asset_id c)) in
  let ids := resolve_app_asset_ids env_app env_asset node_app node_asset (jc_app_id c) (jc_asset_id c) in
  Ok (MkStartOptions handle (jc_passphrase c) (fst <$> result_ok ids) (snd <$> result_ok ids) false).

Definition set_notify_env (env : option string) (c : LocalApiConfig) : LocalApiConfig :=
  match env with
  | None => c
  | Some e =>
      MkConfig (cfg_app_id c) (cfg_asset_id c) (notify_on_giveup c) (notify_gateway_url c) e (sidewinder c)
        (store_and_forward_send c) (store_and_forward_receive c)
  end.

Definition init_local_config (c : BingleJsiConfig) (o : StartOptions) : result LocalApiConfig BingleJsiError :=
  let cfg := with_notify (default 0 (so_app_id o)) (default 0 (so_asset_id o)) (jc_notify_on_giveup c)
               (jc_notify_gateway_url c) in
  let cfg := set_notify_env (jc_notify_env c) cfg in
  let cfg := with_sidewinder (from_app_id (so_app_id o)) cfg in
  let cfg := with_store_and_forward (jc_store_and_forward_send c) (jc_store_and_forward_receive c) cfg in
  let? _ := invalid (validate_store_and_forward cfg) in
  Ok cfg.

(** The local client of a state file, with what the file holds. *)
Definition init_local (c : BingleJsiConfig) (o : StartOptions) (w : W)
  : W * result (option LocalState) BingleJsiError :=
  match jc_local c with
  | None => (w, Ok None)
  | Some path =>
      match init_local_config c o with
      | Err e => (w, Err e)
      | Ok cfg =>
          let s := LocalState_new cfg in
          let '(w, there) := file_exists path w in
          if (there : bool) then
            let '(w, r) := read_state path w in
            (w, Ok (Some (match r with Ok f => LocalStore.load f s | Err _ => s end)))
          else (w, Ok (Some s))
      end
  end.

Definition new_instance (c : BingleJsiConfig) (o : StartOptions) (l : option LocalState) (w : W) : Jsi W :=
  MkJsi (MkSettings (jc_local c)
           (default DEFAULT_MAILBOX_POLL_SECS (jc_poll_interval_secs c) * 1000000000) MAILBOX_RETRY_INITIAL
           (default false (jc_send_pending_messages c)) o)
    l w (MkHost false false false false []) [] "Unknown" false false [] None [] None false 0 [].

Definition init (c : BingleJsiConfig) (env_app env_asset : option Z) (w : W) : W * result (Jsi W) BingleJsiError :=
  match init_options c env_app env_asset with
  | Err e => (w, Err e)
  | Ok o =>
      let '(w, l) := init_local c o w in
      match l with
      | Err e => (w, Err e)
      | Ok l =>
          let '(j, _) := start_at_init (new_instance c o l w) in
          (world j, Ok j)
      end
  end.

(** ** Callbacks *)

Inductive Callback : Type := MessageCb | MailboxCheckCb | ListeningCb | PushRegistrationCb.

(** [set_message_callback] and its likes. *)
Definition set_callback (c : Callback) : J unit :=
  modify (fun j =>
    let h := host j in
    set_host (MkHost (message_callback h || match c with MessageCb => true | _ => false end)
                (mailbox_check_callback h || match c with MailboxCheckCb => true | _ => false end)
                (listening_callback h || match c with ListeningCb => true | _ => false end)
                (push_registration_callback h || match c with PushRegistrationCb => true | _ => false end)
                (told h)) j).

(** ** Steps *)

(** What the application may call to change the instance or its store; its other calls
    only read, sign, or send over the network. *)
Inductive HostOp : Type :=
| HGenerate | HImport (pass : string) | HRegister (handle : string)
| HBeginRecovery | HCompleteRecovery | HStatus | HInspect (pass : string)
| HAddContact (handle id : string) (source : ContactSource)
| HBlock (id : string) | HUnblock (id : string) | HRemove (id : string)
| HGates (send receive : bool) | HNotify (enabled : bool) (url : option string)
| HAddMessage (sender : string) (recipients : list string) (at_ : Z) (txt : string) (suite : option string)
| HQueue (recipients : list string) (txt : string)
| HStatusById (id : string) (progress : Z) (reason : option string)
| HStatusByTime (at_ progress : Z) (reason : option string)
| HToken (token : list Z) | HSave (path : string) | HLoad (path : string)
| HSendHandle (handle : string) (m : BingleMessage)
| HPush | HCallback (c : Callback)
| HStart | HStop | HForeground | HBackground.

Definition discard {B} (m : J B) : J unit := _ ← m; mret tt.

Definition run_host_op (o : HostOp) : J unit :=
  match o with
  | HGenerate => discard generate_keypair
  | HImport p => discard (import_keypair p)
  | HRegister h => discard (register_keypair h)
  | HBeginRecovery => discard begin_recovery_keypair
  | HCompleteRecovery => discard complete_recovery_keypair
  | HStatus => discard keypair_status
  | HInspect p => discard (inspect_passphrase p)
  | HAddContact h id s => discard (add_contact h id s)
  | HBlock id => discard (block_contact id)
  | HUnblock id => discard (unblock_contact id)
  | HRemove id => discard (remove_contact id)
  | HGates a b => discard (set_store_and_forward a b)
  | HNotify e u => discard (set_notify e u)
  | HAddMessage s r t x c => discard (add_message s r t x c)
  | HQueue r x => discard (queue_message r x)
  | HStatusById id p r => discard (update_message_status_by_id id p r)
  | HStatusByTime t p r => discard (update_message_status t p r)
  | HToken t => discard (register_apns_token t)
  | HSave p => discard (save_to p)
  | HLoad p => discard (load_from p)
  | HSendHandle h m => discard (send_message_to_handle h m)
  | HPush => discard request_push_registration
  | HCallback c => set_callback c
  | HStart => discard start
  | HStop => stop_instance
  | HForeground => foregrounding
  | HBackground => backgrounding
  end.

Inductive Action : Type :=
| ActHost (o : HostOp)
| ActLive (sender handle : string) (message : json)
| ActListening (now_listening : bool) (nat : string)
| ActPoller (i fuel : nat)
| ActTask (i : nat)
| ActStore (o : store_op)
| ActLoopEnds.

(** The step replaces the history by the one of a state file. *)
Definition is_load (a : Action) : bool :=
  match a with ActHost (HLoad _) => true | _ => false end.

(** One step; none if there is no such thread or its poll has not ended.  [ActStore] is
    what the sender of pending messages does with the store it shares. *)
Definition act (a : Action) (j : Jsi W) : option (Jsi W) :=
  match a with
  | ActHost o => Some (run_host_op o j).1
  | ActLive sender handle m => Some (on_live_message sender handle m j).1
  | ActListening l nat => Some (on_listening l nat j).1
  | ActPoller i fuel =>
      p ← pollers j !! i;
      let '(j, r) := poller_step fuel p j in
      (fun p => set_pollers (controls j) (mailbox_poller j) (<[i := p]> (pollers j)) j) <$> r
  | ActTask i =>
      t ← tasks j !! i;
      Some (run_task t (set_tasks (delete i (tasks j)) j)).1
  | ActStore o => Some (on_local (run_store_op A P o) j).1
  | ActLoopEnds =>
      if started j then None
      else match loops j with O => None | S n => Some (set_loops (processing_thread j) n j) end
  end.

Definition run (l : list Action) (j : Jsi W) : option (Jsi W) := foldl (fun o a => o ≫= act a) (Some j) l.
End Instance.

(** ** Invariants of the steps *)

Section Frames.
Context {W SigningKey : Type} `{LocalWorld W} `{Sidewinder W} `{MailboxClient W} `{NodeApi W}.
Context (A : algo) (P : primitives SigningKey) (parse : string -> option json) (print : json -> string).

Definition live_text (v : json) : string := default (print v) (str_field "text" v).

(** What makes two messages shown to the application copies of one: live messages
    without a sender or a text are not stored and have no key. *)
Definition told_copy (e : HostEvent) : option (Z * string * string) :=
  match e with
  | OnMessage (inr m) _ _ _ => copy_key m
  | OnMessage (inl v) _ handle _ =>
      if is_blank handle || is_blank (live_text v) then None
      else (fun t => (t, handle, live_text v)) <$> (get "sent_time" v ≫= as_i64)
  | _ => None
  end.

Definition shown (j : Jsi W) : list (Z * string * string) := omap told_copy (told (host j)).

(** The application was shown [K] and the local client is in a state with [Q]. *)
Definition inst (Q : LocalState -> Prop) (K : list (Z * string * string)) (j : Jsi W) : Prop :=
  shown j = K /\ exists s, local_api j = Some s /\ Q s.

Section Keeps.
Context (Q : LocalState -> Prop) (K : list (Z * string * string)).

Lemma triple_on_local {B} (m : L (W := W) B) R :
  triple (on_state Q) m (fun b => on_state (R b)) ->
  triple (inst Q K) (on_local m) (fun o j => exists b, o = Some b /\ inst (R b) K j).
Proof using.
  intros Hm j [HK (s & Hs & HQ)]. unfold on_local. rewrite Hs. specialize (Hm (s, world j) HQ).
  destruct (m (s, world j)) as [[s' w'] b]. exists b. split; [done|]. split; [done|]. by exists s'.
Qed.

Lemma keeps_on_local {B} (m : L (W := W) B) : keeps (on_state Q) m -> keeps (inst Q K) (on_local m).
Proof using.
  intros Hm j Hj. by destruct (triple_on_local m (fun _ => Q) Hm j Hj) as (b & _ & Hj2).
Qed.

Lemma keeps_in_world {B} (f : W -> W * B) : keeps (inst Q K) (in_world f).
Proof using. intros j [HK Hs]. unfold in_world. destruct (f (world j)). by split. Qed.

Lemma keeps_modify (f : Jsi W -> Jsi W) :
  (forall j, told (host (f j)) = told (host j) /\ local_api (f j) = local_api j) -> keeps (inst Q K) (modify f).
Proof using.
  intros Hf j [HK Hs]. destruct (Hf j) as [Hh Hl]. unfold modify, inst, shown. cbn. by rewrite Hh, Hl.
Qed.

Lemma keeps_tell registered e : told_copy e = None -> keeps (inst Q K) (modify (tell registered e)).
Proof using.
  intros He j [HK Hs]. unfold modify, tell, inst, shown. cbn [fst snd]. destruct (registered (host j)); [|done]. cbn.
  rewrite omap_app. cbn. rewrite He, app_nil_r. done.
Qed.

Lemma keeps_get_st {B} (k : Jsi W -> ST (Jsi W) B) : (forall j, keeps (inst Q K) (k j)) -> keeps (inst Q K) (get_st ≫= k).
Proof using. intros Hk j Hj. by apply Hk. Qed.
End Keeps.

Lemma keeps_discarded {S B} (I : S -> Prop) (m : ST S B) : keeps I (_ ← m; mret tt) -> keeps I m.
Proof using.
  intros Hm s Hs. specialize (Hm s Hs). unfold mbind, ST_bind in Hm. by destruct (m s).
Qed.
End Frames.

(** Walks through a computation of the instance; leaves operations of the local client. *)
Ltac jkeep :=
  repeat first
    [ assumption
    | match goal with
      | |- keeps _ (mret _) => apply keeps_ret
      | |- keeps _ (get_st ≫= _) => apply keeps_get_st; intros ?
      | |- keeps _ (in_world _) => apply keeps_in_world
      | |- keeps _ (on_local _) => apply keeps_on_local
      | |- keeps _ (modify (tell _ _)) => apply keeps_tell; done
      | |- keeps _ (modify _) => apply keeps_modify; intros ?; repeat case_match; done
      | |- keeps _ (st_try _ _) => apply keeps_try; [|intros ?]
      | |- keeps _ (_ ≫= _) => apply keeps_bind; [|intros ?]
      | |- keeps _ (match ?x with _ => _ end) => destruct x
      end
    | progress cbn zeta ].

Section Stable.
Context {W SigningKey : Type} `{LocalWorld W} `{Sidewinder W} `{MailboxClient W} `{NodeApi W}.
Context (A : algo) (P : primitives SigningKey) (parse : string -> option json) (print : json -> string).
Context (Q : LocalState -> Prop) {SS : StoreStable Q} (K : list (Z * string * string)).

Abbreviation inst := (inst (W := W) print).

Lemma keeps_store_result {B} o (m : L (W := W) B) :
  run_store_op (W := W) A P o = (_ ← m; mret tt) -> keeps (on_state Q) m.
Proof using SS. intros E. pose proof (keeps_store_op (W := W) A P Q o) as Hk. rewrite E in Hk. exact (keeps_discarded _ m Hk). Qed.

Lemma keeps_account o : keeps (on_state Q) (run_op A o : L (W := W) unit).
Proof using SS. apply keeps_acct_op, ss_acct. Qed.

Lemma keeps_inspect pass : keeps (on_state Q) (Account.inspect_passphrase (W := W) A pass).
Proof using SS.
  pose proof (ss_acct (StoreStable := SS)). unfold Account.inspect_passphrase, account_status_from_chain. keep.
Qed.

Lemma keeps_register_token t : keeps (on_state Q) (Account.register_apns_token (W := W) A t).
Proof using SS.
  pose proof (ss_acct (StoreStable := SS)) as Ha. pose proof (keeps_get_algo_ops (W := W) Q Ha).
  pose proof (keeps_sender_handle (W := W) Q Ha).
  unfold Account.register_apns_token, build_fresh_register_request, fresh_nonce, now_secs. keep.
Qed.

Lemma keeps_save_if : keeps (inst Q K) save_if_configured.
Proof using. unfold save_if_configured. jkeep. Qed.

Lemma keeps_save_strictly what : keeps (inst Q K) (save_strictly what).
Proof using. unfold save_strictly. jkeep. Qed.

Lemma keeps_guarded {B} (m : L (W := W) (result B BingleError)) :
  keeps (on_state Q) m -> keeps (inst Q K) (guarded m).
Proof using. intros Hm. unfold guarded. jkeep. Qed.

Lemma keeps_and_save {B} (m : ST (Jsi W) (result B BingleJsiError)) :
  keeps (inst Q K) m -> keeps (inst Q K) (and_save m).
Proof using. intros Hm. pose proof keeps_save_if. unfold and_save. jkeep. Qed.

Lemma keeps_signal e : keeps (inst Q K) (signal_sender e).
Proof using. unfold signal_sender. jkeep. Qed.

Lemma keeps_seen id handle : keeps (inst Q K) (note_peer_seen id handle).
Proof using. pose proof keeps_signal as Hs. unfold note_peer_seen. jkeep; apply Hs. Qed.

Lemma keeps_senders read : keeps (inst Q K) (note_senders read).
Proof using.
  induction read as [|m read IH]; cbn [note_senders]; [apply keeps_ret|].
  pose proof (keeps_seen "" (sender_handle m)). jkeep.
Qed.

Lemma keeps_read {B} (f : LocalState -> B) : keeps (inst Q K) (read_local f).
Proof using. apply keeps_guarded. by intros [s w]. Qed.

Lemma keeps_task t : keeps (inst Q K) (run_task A P t).
Proof using SS.
  destruct t; cbn [run_task]; [jkeep|jkeep|]. pose proof keeps_save_if. jkeep.
  apply (keeps_store_result ForwardPending). reflexivity.
Qed.

Lemma keeps_start : keeps (inst Q K) start.
Proof using SS.
  pose proof (ss_acct (StoreStable := SS)). unfold start, start_engine, start_pending_sender. jkeep.
  - apply keeps_guarded, keeps_keypair_status. done.
  - apply keeps_guarded. by intros [s w].
Qed.

Lemma keeps_stop : keeps (inst Q K) stop_instance.
Proof using. unfold stop_instance. jkeep. Qed.

Lemma keeps_ground : keeps (inst Q K) foregrounding /\ keeps (inst Q K) backgrounding.
Proof using.
  unfold foregrounding, backgrounding, spawn, start_mailbox_poller, stop_mailbox_poller, flush_pending_to_mailbox, spawn.
  split; jkeep.
Qed.

Ltac by_account o := apply keeps_guarded, (keeps_discarded _ _ (keeps_account o)).
Ltac by_store o := apply keeps_guarded, (keeps_store_result o); reflexivity.

Lemma keeps_status_by_id id p r : keeps (inst Q K) (update_message_status_by_id A P id p r).
Proof using SS. apply keeps_and_save. by_store (UpdateStatus id p r None). Qed.

Lemma keeps_host_op o : is_load (ActHost o) = false -> keeps (inst Q K) (run_host_op A P parse o).
Proof using SS.
  pose proof (ss_acct (StoreStable := SS)) as Ha. pose proof keeps_ground as [Hf Hb]. pose proof keeps_stop. intros Hload.
  destruct o; cbn [run_host_op]; try done;
    try (unfold set_callback; solve [jkeep]); unfold discard; (apply keeps_bind; [|intros ?; apply keeps_ret]).
  - apply keeps_and_save. by_account OpGenerate.
  - apply keeps_and_save. by_account (OpImport pass).
  - apply keeps_and_save, keeps_try; [by_account (OpRegister handle)|intros; apply keeps_ret].
  - apply keeps_try; [by_account OpBeginRecovery|intros ?]. apply keeps_try; [apply keeps_save_strictly|intros; apply keeps_ret].
  - apply keeps_try; [by_account OpCompleteRecovery|intros ?]. apply keeps_try; [apply keeps_save_strictly|intros; apply keeps_ret].
  - apply keeps_try; [by_account OpStatus|intros; apply keeps_ret].
  - apply keeps_try; [apply keeps_guarded, keeps_inspect|intros; apply keeps_ret].
  - apply keeps_and_save. by_store (AddContact handle id source).
  - apply keeps_and_save. by_store (SetBlocked id true).
  - apply keeps_and_save. by_store (SetBlocked id false).
  - apply keeps_and_save. by_store (RemoveContact id).
  - apply keeps_guarded, keeps_bind; [|intros; apply keeps_ret]. apply keeps_update. intros s Hs. by apply ss_config.
  - apply keeps_guarded, keeps_bind; [|intros; apply keeps_ret]. apply keeps_update. intros s Hs. by apply ss_config.
  - apply keeps_and_save, keeps_try; [by_store (AddMessage sender recipients at_ txt suite)|intros; apply keeps_ret].
  - apply keeps_try; [apply keeps_and_save; by_store (QueueMessage recipients txt)|intros ?].
    apply keeps_bind; [apply keeps_signal|intros; apply keeps_ret].
  - apply keeps_status_by_id.
  - apply keeps_try; [apply keeps_read|intros ms]. destruct (find _ ms); [apply keeps_status_by_id|apply keeps_ret].
  - apply keeps_guarded, keeps_register_token.
  - apply keeps_guarded. keep.
  - unfold send_message_to_handle. jkeep.
  - unfold request_push_registration. jkeep.
  - apply keeps_start.
Qed.
End Stable.

(** ** Nothing is shown twice *)

Definition copies (s : LocalState) : list (Z * string * string) := omap copy_key (messages (st s)).

(** The store is in order and holds every message of [K]. *)
Definition holds (K : list (Z * string * string)) (s : LocalState) : Prop :=
  store_ok s /\ forall k, k ∈ K -> k ∈ copies s.

Lemma copies_update id f s :
  (forall m, copy_key (f m) = copy_key m) -> omap copy_key (update_first id f (messages (st s))) = copies s.
Proof.
  intros Hf. unfold copies. induction (messages (st s)) as [|m ms IH]; [done|]. cbn [update_first].
  case_decide; csimpl; [by rewrite Hf|by rewrite IH].
Qed.

#[export] Instance holds_forward K : ForwardStable (holds K).
Proof. by split. Qed.

#[export] Instance holds_stable K : StoreStable (holds K).
Proof.
  split; try done; try (by intros f s); try apply holds_forward.
  - intros m s Hr Hh [Hs HK]. split; [by apply ss_push|]. intros k Hk. unfold copies. cbn.
    rewrite omap_app. apply elem_of_app. left. by apply HK.
  - intros id p r k fwd s [Hs HK]. split; [by apply ss_status|]. intros x Hx. unfold copies. cbn.
    rewrite copies_update by (by intros m). by apply HK.
  - intros id o s [Hs HK]. split; [by apply ss_outcome|]. intros x Hx. unfold copies. cbn.
    rewrite copies_update by (apply with_outcome_key). by apply HK.
  - intros s [Hs HK]. split; [by apply ss_restart|]. intros x Hx. unfold copies, restart, load, save. cbn.
    specialize (HK x Hx). unfold copies in HK. revert HK. induction (messages (st s)) as [|m ms IH]; [done|]. csimpl.
    assert (copy_key (with_legacy_id m) = copy_key m) as -> by (unfold with_legacy_id; by case_decide).
    destruct (copy_key m); [|done]. rewrite !elem_of_cons. intros [?|?]; auto.
Qed.

Lemma holds_weaken K K' s : K' ⊆ K -> holds K s -> holds K' s.
Proof. intros Hk [Hs HK]. split; [done|]. intros k Hin. by apply HK, Hk. Qed.

Section ShownOnce.
Context {W SigningKey : Type} `{LocalWorld W} `{Sidewinder W} `{MailboxClient W} `{NodeApi W}.
Context (A : algo) (P : primitives SigningKey) (parse : string -> option json) (print : json -> string).

Abbreviation inst := (inst (W := W) print).

(** What was shown, and what the history held, at the start. *)
Context (before old : list (Z * string * string)).

(** What was shown since the start is in the store, nothing twice and nothing that the
    history held then. *)
Definition once (j : Jsi W) : Prop :=
  exists K, NoDup (old ++ K) /\ inst (holds (old ++ K)) (before ++ K) j.

(** Since the start the application was shown part of [K]. *)
Definition upto (Q : LocalState -> Prop) (K : list (Z * string * string)) (j : Jsi W) : Prop :=
  exists K', K' `sublist_of` K /\ inst Q (before ++ K') j.

Lemma upto_once K j : NoDup (old ++ K) -> upto (holds (old ++ K)) K j -> once j.
Proof using.
  intros Hn (K' & Hs & Hk & s & Hl & Hh). assert (old ++ K' `sublist_of` old ++ K) as Hs' by (by apply sublist_app).
  exists K'. split; [by eapply sublist_NoDup|].
  split; [done|]. exists s. split; [done|]. eapply holds_weaken; [|done]. intros k Hin. by eapply elem_of_sublist.
Qed.

Lemma keeps_upto {B} Q K (m : ST (Jsi W) B) : (forall K', keeps (inst Q K') m) -> keeps (upto Q K) m.
Proof using. intros Hm j (K' & Hs & Hj). exists K'. split; [done|]. by apply Hm. Qed.

Lemma keeps_once {B} (m : ST (Jsi W) B) : (forall X K, keeps (inst (holds X) K) m) -> keeps once m.
Proof using. intros Hm j (K & Hn & Hj). exists K. split; [done|]. by apply Hm. Qed.

(** An event is shown to the application, or not. *)
Lemma tell_upto Q K registered e :
  triple (upto Q K) (modify (tell registered e)) (fun _ => upto Q (K ++ option_list (told_copy print e))).
Proof using.
  intros j (K' & Hs & Hk & Hl). unfold modify, tell. cbn. destruct (registered (host j)).
  - exists (K' ++ option_list (told_copy print e)). split; [by apply sublist_app|].
    split; [|done]. rewrite app_assoc, <- Hk. cbv [shown]. cbn [host told set_host]. rewrite omap_app. cbn. by destruct (told_copy print e).
  - exists K'. split; [|done]. by apply sublist_inserts_r.
Qed.

Lemma notify_upto Q read : forall K,
  triple (upto Q K) (notify_mailbox_messages read) (fun _ => upto Q (K ++ omap copy_key read)).
Proof using.
  induction read as [|m read IH]; intros K; cbn [notify_mailbox_messages].
  - apply triple_ret. cbn. by rewrite app_nil_r.
  - eapply triple_bind; [apply tell_upto|]. intros ?. cbn [told_copy].
    replace (K ++ omap copy_key (m :: read)) with ((K ++ option_list (copy_key m)) ++ omap copy_key read); [apply IH|].
    rewrite <- app_assoc. f_equal. csimpl. by destruct (copy_key m).
Qed.

Definition live_key (handle : string) (v : json) : option (Z * string * string) :=
  if is_blank handle || is_blank (live_text print v) then None
  else (fun t => (t, handle, live_text print v)) <$> (get "sent_time" v ≫= as_i64).

(** Storing a live message: a copy is told apart, and what is kept has a key that is new,
    or none. *)
Lemma store_live_spec K own handle v :
  is_blank own = false ->
  triple (on_state (holds K))
    (at_ ← now_millis;
     add_received_message handle [own] at_ (str_field "text" v) (print v)
       (str_field "cipher_suite" v) (get "sent_time" v ≫= as_i64) (str_field "signature" v) : L (W := W) _)
    (fun r => on_state (fun s =>
       match r with
       | Ok None => holds K s
       | _ => holds (K ++ option_list (live_key handle v)) s /\
              forall k, live_key handle v = Some k -> k ∉ K
       end)).
Proof using.
  intros Hb. eapply triple_bind; [apply keeps_now_millis|]. intros at_. unfold add_received_message, store_live_message.
  fold (live_text print v). unfold live_key.
  destruct (is_blank handle) eqn:Eh; cbn [orb option_list].
  { intros [s w] Hs. cbn. rewrite app_nil_r. split; [done|]. done. }
  cbn [check_message existsb]. rewrite Hb. cbn [orb].
  destruct (is_blank (live_text print v)) eqn:Et; cbn [orb option_list].
  { intros [s w] Hs. cbn. rewrite app_nil_r. split; [done|]. done. }
  eapply triple_bind; [apply keeps_fresh_id|]. intros id [s w] [Hs HK]. unfold on_state, in_store. cbn.
  set (sent := get "sent_time" v ≫= as_i64).
  destruct (holds_received_copy (messages (st s)) handle sent (live_text print v)) eqn:Eh2; cbn.
  { rewrite on_store_id. done. }
  set (m := MkMessage id handle [own] at_ (live_text print v) (str_field "cipher_suite" v) (Some 100) None None
    sent None (str_field "signature" v) (Some Direct) None).
  assert (store_ok (on_store (fun _ => set_messages (messages (st s) ++ [m]) (st s)) s)) as Hok.
  { apply (ss_push (Q := store_ok) m s); [by intros _|done|done]. }
  split; [split; [done|]|].
  - unfold copies. cbn. rewrite omap_app. cbn [omap list_omap]. unfold copy_key at 2. subst m. cbn. intros k [Hk|Hk]%elem_of_app.
    + apply elem_of_app. left. by apply HK.
    + apply elem_of_app. right. destruct sent; cbn in *; [done|by apply elem_of_nil in Hk].
  - intros k Hk Hin. apply HK in Hin. clearbody sent. destruct sent as [t|]; cbn in Hk; [|done]. injection Hk as <-.
    unfold copies in Hin. apply holds_received_copy_spec in Hin. cbn [fst] in Hin. by rewrite Hin in Eh2.
Qed.

Lemma store_received_once own handle v :
  is_blank own = false ->
  triple once (store_received_message print (Some own) handle v)
    (fun r j => match r with
                | Duplicate => once j
                | Kept => exists K, upto (holds (old ++ K ++ option_list (live_key handle v))) K j /\
                                    NoDup (old ++ K ++ option_list (live_key handle v))
                end).
Proof using.
  intros Hb j (K & Hn & Hj). unfold store_received_message. set (M := (at_ ← now_millis; _) : L (W := W) _).
  assert (triple (inst (holds (old ++ K)) (before ++ K))
    (r ← on_local M; match r with Some (Ok None) => mret Duplicate | _ => _ ← save_if_configured; mret Kept end)
    (fun r j => match r with
                | Duplicate => once j
                | Kept => exists K, upto (holds (old ++ K ++ option_list (live_key handle v))) K j /\
                                    NoDup (old ++ K ++ option_list (live_key handle v))
                end)) as Ht.
  { eapply triple_bind; [apply triple_on_local, (store_live_spec (old ++ K) own handle v Hb)|].
    intros r j1 (b & -> & Hk & s & Hl & Hs). destruct b as [[id|]|e].
    2: { exists K. split; [done|]. split; [done|]. by exists s. }
    all: destruct Hs as [Hh Hnew]; rewrite <- app_assoc in Hh;
      assert (inst (holds (old ++ K ++ option_list (live_key handle v))) (before ++ K) j1) as Hj1 by (split; [exact Hk|by exists s]).
    all: apply (keeps_save_if print) in Hj1; cbn; unfold mbind, ST_bind; destruct (save_if_configured j1) as [j2 []].
    all: exists K; split; [exists K; split; [reflexivity|exact Hj1]|].
    all: rewrite app_assoc; apply NoDup_app; split; [done|]; split; [|by destruct (live_key handle v); cbn; [apply NoDup_singleton|constructor]].
    all: intros k Hin Hk2; destruct (live_key handle v) as [k'|]; cbn in Hk2;
      [apply list_elem_of_singleton in Hk2 as ->; by eapply Hnew|by apply elem_of_nil in Hk2]. }
  specialize (Ht j Hj). destruct Hj as [_ (s & Hl & _)]. revert Ht. unfold mbind, ST_bind, get_st. cbn. rewrite Hl. exact id.
Qed.

Lemma live_once sender handle v :
  (forall w, exists h, (api_get_handle w).2 = Some h /\ is_blank h = false) ->
  keeps once (on_live_message print sender handle v).
Proof using.
  intros Hh. unfold on_live_message. apply keeps_bind.
  { apply keeps_once. intros X K. unfold is_sender_blocked. jkeep. by intros [s w]. }
  intros []; [apply keeps_ret|]. unfold accept_live. apply keeps_bind; [apply keeps_once; intros; apply keeps_seen|intros _].
  eapply (triple_bind _ _ _ (fun own j => once j /\ exists h, own = Some h /\ is_blank h = false)).
  { intros j Hj. split; [by apply keeps_once; [intros; apply keeps_in_world|]|].
    unfold in_world. destruct (Hh (world j)) as (h & E & Hb). destruct (api_get_handle (world j)) as [w o].
    exists h. by split. }
  intros own j [Hj (h & -> & Hb)]. refine (triple_bind once _ _ _ (fun _ => once) (store_received_once h handle v Hb) _ j Hj). clear j Hj.
  intros []; [|apply triple_ret; done]. intros j (K & Hu & Hn).
  pose proof (tell_upto _ K message_callback (OnMessage (inl v) sender handle (live_message print v)) j Hu) as Ht.
  apply upto_once in Ht; [|done]. unfold mbind, ST_bind. destruct (modify _ j) as [j1 []]. cbn [fst snd] in Ht.
  revert j1 Ht. apply keeps_once. intros. jkeep.
Qed.

Lemma poll_once fuel failures : keeps once (poll_pass A P fuel failures).
Proof using.
  intros j (K & Hn & Hk & s & Hl & Hs). unfold poll_pass, mbind, ST_bind. unfold on_local. rewrite Hl.
  pose proof (poll_spec A P s fuel (s, world j) eq_refl) as Hp.
  pose proof (keeps_poll A P (holds (old ++ K)) fuel (s, world j) Hs) as [Hok HK].
  destruct (poll_mailbox A P fuel (s, world j)) as [[s' w'] [poll|]].
  2: { exists K. split; [done|]. split; [done|]. by exists s'. }
  destruct (Hp poll eq_refl) as (new & _ & Hm & Hpm). cbn [fst snd] in *.
  set (K2 := omap copy_key (poll_messages poll)).
  assert (omap copy_key new ≡ₚ K2) as Hperm.
  { subst K2. rewrite Hpm. apply omap_Permutation. symmetry. apply sort_by_Permutation. }
  pose proof (ok_copies _ Hok) as Hc. rewrite Hm, omap_app in Hc. apply NoDup_app in Hc as (_ & Hd & Hn2).
  assert (NoDup (old ++ K ++ K2)) as HnK.
  { rewrite app_assoc. apply NoDup_app. split; [done|]. split; [|by rewrite <- Hperm]. intros k Hin Hin2. rewrite <- Hperm in Hin2.
    destruct Hs as [_ Hs]. by apply (Hd k (Hs k Hin)). }
  assert (holds (old ++ K ++ K2) s') as Hh.
  { split; [exact Hok|]. rewrite app_assoc. intros k [Hin|Hin]%elem_of_app; [by apply HK|].
    unfold copies. rewrite Hm, omap_app. apply elem_of_app. right. by rewrite Hperm. }
  set (j' := set_local _ _ _).
  assert (upto (holds (old ++ K ++ K2)) K j') as Hj' by (exists K; split; [done|]; split; [done|]; by exists s').
  clearbody j'. clear Hl Hs HK Hp.
  enough (triple (upto (holds (old ++ K ++ K2)) K)
    (_ ← note_senders (poll_messages poll);
     _ ← match poll_messages poll with
         | [] => mret tt
         | _ => _ ← save_if_configured; notify_mailbox_messages (poll_messages poll)
         end;
     match poll_status poll with
     | Drained => _ ← notify_mailbox_checked (length (poll_messages poll)); mret (Some 0)
     | Unreachable _ => mret (Some (Z.min (failures + 1) (2 ^ 32 - 1)))
     | Skipped => mret (Some 0)
     end) (fun _ => once)) as Hgo by (by apply Hgo).
  eapply triple_bind; [apply keeps_upto; intros; apply keeps_senders|]. intros ?.
  eapply (triple_bind _ _ _ (fun _ => upto (holds (old ++ K ++ K2)) (K ++ K2))).
  - destruct (poll_messages poll) as [|m ms] eqn:Em.
    + subst K2. cbn. rewrite app_nil_r. apply keeps_ret.
    + eapply triple_bind; [apply keeps_upto; intros; apply keeps_save_if|]. intros ?. apply notify_upto.
  - intros ?. assert (forall j, upto (holds (old ++ K ++ K2)) (K ++ K2) j -> once j) as Hu by (intros; by eapply upto_once).
    destruct (poll_status poll); [|apply triple_ret; apply Hu|apply triple_ret; apply Hu].
    eapply triple_bind; [apply keeps_upto; intros; unfold notify_mailbox_checked; jkeep|]. intros ?.
    apply triple_ret. apply Hu.
Qed.

Lemma poller_once fuel p : keeps once (poller_step A P fuel p).
Proof using.
  intros j Hj. unfold poller_step. cbv beta delta [mbind ST_bind get_st]. cbn.
  destruct (pc p) as [|slept total|]; [|repeat case_match; cbn; try done; by destruct Hj as (K & Hn & Hj); exists K|done].
  destruct (stop _); [done|]. pose proof (poll_once fuel (failures p) j Hj) as Hp.
  by destruct (poll_pass A P fuel (failures p) j).
Qed.

Context (Hhandle : forall w : W, exists h, (api_get_handle w).2 = Some h /\ is_blank h = false).

Lemma act_once a j j' : is_load a = false -> once j -> act A P parse print a j = Some j' -> once j'.
Proof using Hhandle.
  intros Hload Hj E. destruct a; cbn [act] in E.
  - injection E as <-. apply (keeps_once (run_host_op A P parse o)); [|done]. intros X K. by apply keeps_host_op; [apply _|].
  - injection E as <-. by apply live_once.
  - injection E as <-. apply (keeps_once (on_listening now_listening nat)); [|done]. intros X K. unfold on_listening. jkeep.
  - destruct (pollers j !! i) as [p|]; cbn in E; [|done]. pose proof (poller_once fuel p j Hj) as Hp.
    destruct (poller_step A P fuel p j) as [j1 [p1|]]; cbn in E; simplify_eq. exact Hp.
  - destruct (tasks j !! i) as [t|]; cbn in E; [|done]. injection E as <-.
    apply (keeps_once (run_task A P t)); [|exact Hj]. intros X K. apply keeps_task. apply _.
  - injection E as <-. apply (keeps_once (on_local (run_store_op A P o))); [|done]. intros X K. apply keeps_on_local, keeps_store_op, _.
  - destruct (started j); [done|]. destruct (loops j); simplify_eq. exact Hj.
Qed.

Lemma run_once l : forall j j', forallb (fun a => negb (is_load a)) l = true ->
  once j -> run A P parse print l j = Some j' -> once j'.
Proof using Hhandle.
  unfold run. induction l as [|a l IH] using rev_ind; intros j j' Hload Hj E; [cbn in E; by simplify_eq|].
  rewrite forallb_app in Hload. apply andb_true_iff in Hload as [Hl [Ha _]%andb_true_iff].
  rewrite foldl_app in E. cbn in E. destruct (foldl _ (Some j) l) as [j1|] eqn:E1; [|done].
  eapply act_once; [by apply negb_true_iff|by eapply IH|exact E].
Qed.
End ShownOnce.

Section ShownSince.
Context {W SigningKey : Type} `{LocalWorld W} `{Sidewinder W} `{MailboxClient W} `{NodeApi W}.
Context (A : algo) (P : primitives SigningKey) (parse : string -> option json) (print : json -> string).
Context (Hhandle : forall w : W, exists h, (api_get_handle w).2 = Some h /\ is_blank h = false).

(** (C6) A message is shown to the application once.  For an instance with a local client
    whose node knows its handle: whatever the application calls except loading a state
    file, in whatever order messages arrive live and through the mailbox, threads check
    the mailbox, and the sender of pending messages works on the store, the messages
    shown meanwhile have no two with the same sender, send time and text, none of them was
    in the history at the start, and each is in the history in the end.  This holds from
    any instance whose history is in order, so also after a state file with such a history
    was loaded; a file that lacks a message lets a copy of it be shown once more.  Messages without a send
    time have no copies and are not counted, nor are live messages whose sender's handle
    or text is blank, which are shown without being stored ([told_copy]). *)
Theorem shown_once l j j' s :
  local_api j = Some s -> store_ok s -> forallb (fun a => negb (is_load a)) l = true ->
  run A P parse print l j = Some j' ->
  exists K, shown print j' = shown print j ++ K /\ NoDup K /\
    (forall k m, k ∈ K -> m ∈ messages (st s) -> copy_key m <> Some k) /\
    exists s', local_api j' = Some s' /\ forall k, k ∈ K -> exists m, m ∈ messages (st s') /\ copy_key m = Some k.
Proof using Hhandle.
  intros Hl Hs Hload E. assert (once print (shown print j) (copies s) j) as Hj.
  { exists []. rewrite !app_nil_r. split; [apply (ok_copies _ Hs)|]. split; [done|]. exists s. by split. }
  destruct (run_once A P parse print _ _ Hhandle _ _ _ Hload Hj E) as (K & Hn & Hk & s' & Hl' & _ & Hh).
  apply NoDup_app in Hn as (_ & Hd & HnK). exists K. split_and!; [done|done| |].
  - intros k m Hin Hm Hkey. apply (Hd k); [|done]. apply list_elem_of_omap. by exists m.
  - exists s'. split; [done|]. intros k Hin. apply list_elem_of_omap, Hh, elem_of_app. by right.
Qed.
End ShownSince.

(** ** A live message, on every branch *)

Section Live.
Context {W : Type} `{LocalWorld W} `{NodeApi W}.
Context (print : json -> string).

Lemma set_local_same (j : Jsi W) : set_local (local_api j) (world j) j = j.
Proof using. by destruct j. Qed.

Lemma blocked_result sender (j : Jsi W) s :
  local_api j = Some s ->
  is_sender_blocked sender j =
    (j, match LocalStore.is_blocked sender (st s) with Ok b => b | Err _ => false end).
Proof using.
  intros Hl. unfold is_sender_blocked, on_local, mbind, ST_bind. rewrite Hl. cbn. rewrite <- Hl, set_local_same.
  by destruct (LocalStore.is_blocked sender (st s)) as [[]|].
Qed.

(** What telling the sender of a peer leaves alone. *)
Definition same_but_sender (j j' : Jsi W) : Prop := exists e, j' = set_sender e j.

Lemma seen_same id handle (j : Jsi W) : same_but_sender j (note_peer_seen id handle j).1.
Proof using.
  assert (forall e (j : Jsi W), same_but_sender j (signal_sender e j).1) as Hs.
  { intros e x. unfold signal_sender, modify. cbn. destruct (pending_sender x) eqn:E; [by eexists|].
    exists None. rewrite <- E. by destruct x. }
  unfold note_peer_seen, mbind, ST_bind.
  assert (exists e, (if decide (id = EmptyString) then mret tt else signal_sender (PeerSeen id)) j = (set_sender e j, tt)) as (e & ->).
  { destruct (decide (id = EmptyString)); [exists (pending_sender j); by destruct j|].
    destruct (Hs (PeerSeen id) j) as (e & He). exists e. rewrite <- He. by destruct (signal_sender _ j) as [? []]. }
  destruct (decide (handle = EmptyString)); [by exists e|].
  destruct (Hs (PeerSeen handle) (set_sender e j)) as (e' & He). exists e'. by rewrite He.
Qed.

Lemma save_same (j : Jsi W) : exists w, save_if_configured j = (set_local (local_api j) w j, tt).
Proof using.
  unfold save_if_configured, mbind, ST_bind, get_st. destruct (local_api j) as [s|] eqn:E; [|exists (world j); by rewrite <- E, set_local_same].
  destruct (local_file (settings j)); [|exists (world j); by rewrite <- E, set_local_same].
  unfold in_world. rewrite E. destruct (write_state _ _ _) as [w r]. by exists w.
Qed.

(** The message was stored, marked as received directly with the clock's time. *)
Definition stored_live (own handle : string) (v : json) (s s' : LocalState) : Prop :=
  exists m, messages (st s') = messages (st s) ++ [m] /\
    sender_handle m = handle /\ recipient_handles m = [own] /\ text m = live_text print v /\
    sent_time m = (get "sent_time" v ≫= as_i64) /\ signature m = str_field "signature" v /\
    cipher_suite m = str_field "cipher_suite" v /\ delivery_route m = Some Direct /\ is_pending m = false.

Lemma add_received_effect own handle v (s : LocalState) w :
  exists s' w' r,
    (at_ ← now_millis;
     add_received_message handle [own] at_ (str_field "text" v) (print v)
       (str_field "cipher_suite" v) (get "sent_time" v ≫= as_i64) (str_field "signature" v) : L (W := W) _) (s, w)
      = ((s', w'), r) /\
    (if is_blank handle || is_blank own || is_blank (live_text print v) then s' = s /\ is_ok r = false
     else if holds_received_copy (messages (st s)) handle (get "sent_time" v ≫= as_i64) (live_text print v)
     then s' = s /\ r = Ok None
     else stored_live own handle v s s' /\ contacts (st s') = contacts (st s) /\ exists id, r = Ok (Some id)).
Proof using.
  unfold now_millis, mbind, ST_bind, outside. destruct (epoch_ms w) as [w1 t]. cbn.
  unfold add_received_message, store_live_message. fold (live_text print v).
  destruct (is_blank handle) eqn:E1; [by eexists s, w1, _|]. cbn [check_message existsb orb].
  destruct (is_blank own); cbn [orb]; [by eexists s, w1, _|].
  destruct (is_blank (live_text print v)); cbn [orb]; [by eexists s, w1, _|].
  unfold fresh_message_id, mbind, ST_bind, outside. destruct (random_bytes 16 w1) as [w2 rb].
  destruct rb as [b|]; [|destruct (epoch_nanos w2) as [w3 n]]; cbn; unfold in_store;
    destruct (holds_received_copy _ _ _ _) eqn:Ec; cbn; eexists _, _, _; (split; [reflexivity|]).
  all: try (split; [by rewrite on_store_id|done]).
  all: split; [|split; [done|by eexists]]; eexists; split; [done|]; done.
Qed.

(** The message is a copy of one that is held. *)
Definition is_copy (own : option string) (handle : string) (v : json) (s : LocalState) : bool :=
  match own with
  | Some h =>
      negb (is_blank handle || is_blank h || is_blank (live_text print v)) &&
      holds_received_copy (messages (st s)) handle (get "sent_time" v ≫= as_i64) (live_text print v)
  | None => false
  end.

(** What becomes of the history when the message is not a copy. *)
Definition kept_live (own : option string) (handle : string) (v : json) (s s' : LocalState) : Prop :=
  match own with
  | Some h =>
      if is_blank handle || is_blank h || is_blank (live_text print v)
      then messages (st s') = messages (st s) else stored_live h handle v s s'
  | None => messages (st s') = messages (st s)
  end.

Lemma store_received_effect own handle v (j : Jsi W) s :
  local_api j = Some s ->
  exists s' w, store_received_message print own handle v j =
      (set_local (Some s') w j, if is_copy own handle v s then Duplicate else Kept) /\
    contacts (st s') = contacts (st s) /\
    if is_copy own handle v s then messages (st s') = messages (st s) else kept_live own handle v s s'.
Proof using.
  intros Hl. unfold store_received_message. cbv beta delta [mbind ST_bind get_st]. cbn. rewrite Hl.
  destruct own as [h|]; [|exists s, (world j); by rewrite <- Hl, set_local_same].
  unfold on_local. rewrite Hl.
  destruct (add_received_effect h handle v s (world j)) as (s' & w' & r & E & Hr).
  cbv beta delta [mbind ST_bind] in E. rewrite E. clear E.
  destruct (save_same (set_local (Some s') w' j)) as (w & Hw). cbn [local_api set_local] in Hw.
  unfold is_copy, kept_live. destruct (is_blank handle || is_blank h || is_blank (live_text print v)); cbn [negb andb].
  - destruct Hr as [-> Hr]. exists s, w. destruct r as [[]|]; [done|done|]. by rewrite Hw.
  - destruct (holds_received_copy _ _ _ _).
    + destruct Hr as [-> ->]. by exists s, w'.
    + destruct Hr as (Hs & Hc & id & ->). exists s', w. by rewrite Hw.
Qed.

(** What a message that arrives live does.  From a blocked sender: nothing at all.  A
    copy of a message in the history: nothing is shown, queued or stored.  Any other: it is
    shown to the application, if that listens, and queued for it; and it is in the history,
    with the sender, send time, text and signature it came with, unless the node has no
    handle or one of sender, handle and text is empty. *)
Theorem live_message_effect sender handle v (j : Jsi W) s :
  local_api j = Some s ->
  let j' := (on_live_message print sender handle v j).1 in
  let own := (api_get_handle (world j)).2 in
  match LocalStore.is_blocked sender (st s) with
  | Ok true => j' = j
  | _ =>
      exists s', local_api j' = Some s' /\ contacts (st s') = contacts (st s) /\
      if is_copy own handle v s
      then messages (st s') = messages (st s) /\ told (host j') = told (host j) /\ queue j' = queue j
      else
        told (host j') = told (host j) ++
          (if message_callback (host j) then [OnMessage (inl v) sender handle (live_message print v)] else []) /\
        queue j' = queue j ++ [v] /\ kept_live own handle v s s'
  end.
Proof using.
  intros Hl. cbn zeta.
  assert (on_live_message print sender handle v j =
    match LocalStore.is_blocked sender (st s) with Ok true => (j, tt) | _ => accept_live print sender handle v j end) as ->.
  { unfold on_live_message. unfold mbind, ST_bind. rewrite (blocked_result _ _ s Hl).
    by destruct (LocalStore.is_blocked sender (st s)) as [[]|]. }
  enough (exists s', local_api (accept_live print sender handle v j).1 = Some s' /\ contacts (st s') = contacts (st s) /\
    if is_copy (api_get_handle (world j)).2 handle v s
    then messages (st s') = messages (st s) /\ told (host (accept_live print sender handle v j).1) = told (host j) /\
         queue (accept_live print sender handle v j).1 = queue j
    else told (host (accept_live print sender handle v j).1) = told (host j) ++
           (if message_callback (host j) then [OnMessage (inl v) sender handle (live_message print v)] else []) /\
         queue (accept_live print sender handle v j).1 = queue j ++ [v] /\
         kept_live (api_get_handle (world j)).2 handle v s s') as Hgo
    by (destruct (LocalStore.is_blocked sender (st s)) as [[]|]; [reflexivity|exact Hgo|exact Hgo]).
  unfold accept_live, mbind, ST_bind.
  destruct (seen_same sender handle j) as (e & He). destruct (note_peer_seen sender handle j) as [j1 u]. cbn in He. subst j1.
  unfold in_world. change (world (set_sender e j)) with (world j). destruct (api_get_handle (world j)) as [w own]. cbn [snd].
  destruct (store_received_effect own handle v (set_local (local_api (set_sender e j)) w (set_sender e j)) s Hl) as (s' & w' & -> & Hc & Hm).
  exists s'. destruct (is_copy own handle v s); [done|]. unfold modify, tell. cbn [host set_local set_sender].
  destruct (message_callback (host j)); cbn; [done|]. by rewrite app_nil_r.
Qed.
End Live.

(** ** One thread checks the mailbox *)

Section Pollers.
Context {W SigningKey : Type} `{LocalWorld W} `{Sidewinder W} `{MailboxClient W} `{NodeApi W}.
Context (A : algo) (P : primitives SigningKey) (parse : string -> option json) (print : json -> string).

Definition polling (j : Jsi W) : list MailboxPollerControl * option nat * list Poller :=
  (controls j, mailbox_poller j, pollers j).

(** The operations that leave the threads and their flags alone. *)
Definition unpolled {B} (m : ST (Jsi W) B) : Prop := forall j, polling (m j).1 = polling j.

Lemma unpolled_ret {B} (b : B) : unpolled (mret b).
Proof using. done. Qed.
Lemma unpolled_bind {B C} (m : ST (Jsi W) B) (k : B -> ST (Jsi W) C) :
  unpolled m -> (forall b, unpolled (k b)) -> unpolled (m ≫= k).
Proof using.
  intros Hm Hk j. specialize (Hm j). unfold mbind, ST_bind. destruct (m j) as [j1 b]. by rewrite (Hk b j1).
Qed.
Lemma unpolled_try {B C E} (m : ST (Jsi W) (result B E)) (k : B -> ST (Jsi W) (result C E)) :
  unpolled m -> (forall b, unpolled (k b)) -> unpolled (st_try m k).
Proof using. intros Hm Hk. apply unpolled_bind; [done|]. intros []; [apply Hk|done]. Qed.
Lemma unpolled_get {B} (k : Jsi W -> ST (Jsi W) B) : (forall j, unpolled (k j)) -> unpolled (get_st ≫= k).
Proof using. intros Hk j. apply (Hk j). Qed.
Lemma unpolled_world {B} (f : W -> W * B) : unpolled (in_world f).
Proof using. intros j. unfold in_world. by destruct (f (world j)). Qed.
Lemma unpolled_local {B} (m : L (W := W) B) : unpolled (on_local m).
Proof using. intros j. unfold on_local. destruct (local_api j); [|done]. by destruct (m _) as [[? ?] ?]. Qed.
Lemma unpolled_modify (f : Jsi W -> Jsi W) : (forall j, polling (f j) = polling j) -> unpolled (modify f).
Proof using. intros Hf j. apply Hf. Qed.

Ltac unpoll :=
  repeat first
    [ assumption
    | match goal with
      | |- unpolled (mret _) => apply unpolled_ret
      | |- unpolled (get_st ≫= _) => apply unpolled_get; intros ?
      | |- unpolled (in_world _) => apply unpolled_world
      | |- unpolled (on_local _) => apply unpolled_local
      | |- unpolled (modify (tell _ _)) => apply unpolled_modify; intros ?; unfold tell; by case_match
      | |- unpolled (modify _) => apply unpolled_modify; intros ?; repeat case_match; done
      | |- unpolled (st_try _ _) => apply unpolled_try; [|intros ?]
      | |- unpolled (_ ≫= _) => apply unpolled_bind; [|intros ?]
      | |- unpolled (match ?x with _ => _ end) => destruct x
      | |- unpolled (?f ?x ?y ?z) => unfold f
      | |- unpolled (?f ?x ?y) => unfold f
      | |- unpolled (?f ?x) => unfold f
      | |- unpolled ?f => unfold f
      end
    | progress cbn zeta ].

Lemma unpolled_seen id handle : unpolled (note_peer_seen id handle).
Proof using. unfold note_peer_seen, signal_sender. unpoll. Qed.

Lemma unpolled_pass fuel n : unpolled (poll_pass A P fuel n).
Proof using.
  assert (forall read, unpolled (note_senders read)) as Hs.
  { induction read as [|m read IH]; cbn [note_senders]; [done|]. pose proof (unpolled_seen "" (sender_handle m)). unpoll. }
  assert (forall read, unpolled (notify_mailbox_messages read)) as Hn.
  { induction read as [|m read IH]; cbn [notify_mailbox_messages]; unpoll. }
  assert (unpolled save_if_configured) as Hsv by (unfold save_if_configured; unpoll).
  unfold poll_pass, notify_mailbox_checked. repeat first [apply Hs|apply Hn|exact Hsv|progress unpoll].
Qed.

Lemma unpolled_host_op o :
  match o with HForeground | HBackground => True | _ => unpolled (run_host_op A P parse o) end.
Proof using.
  assert (unpolled save_if_configured) as Hsv by (unfold save_if_configured; unpoll).
  assert (forall what, unpolled (save_strictly what)) as Hss by (intros; unfold save_strictly; unpoll).
  assert (forall B (m : L (W := W) (result B BingleError)), unpolled (guarded m)) as Hg by (intros; unfold guarded; unpoll).
  assert (forall B (m : ST (Jsi W) (result B BingleJsiError)), unpolled m -> unpolled (and_save m)) as Ha.
  { intros B m Hm. unfold and_save. unpoll. }
  assert (forall e, unpolled (signal_sender e)) as Hsig by (intros; unfold signal_sender; unpoll).
  destruct o; cbn [run_host_op]; try done; unfold discard, inspect_passphrase, queue_message, update_message_status,
    send_message_to_handle, update_message_status_by_id, read_local;
    repeat first [apply Hg|apply Hsig|apply Hss|exact Hsv|apply Ha|progress unpoll].
Qed.

Record pollers_ok (j : Jsi W) : Prop := {
  po_len : length (pollers j) = length (controls j);
  po_own i p : pollers j !! i = Some p -> control p = i;
  po_flag c x : controls j !! c = Some x -> stop x = false <-> mailbox_poller j = Some c;
  po_run c : mailbox_poller j = Some c -> exists p, pollers j !! c = Some p /\ pc p <> Exited
}.

Lemma pollers_ok_same j j' : polling j' = polling j -> pollers_ok j -> pollers_ok j'.
Proof using. unfold polling. intros [= E1 E2 E3] [H1' H2' H3' H4']. by split; rewrite ?E1, ?E2, ?E3. Qed.

Lemma pollers_ok_wake c j :
  pollers_ok j -> forall b, pollers_ok (set_control c (fun x => MkControl (stop x) b) j).
Proof using.
  intros [H1' H2' H3' H4'] b. split; cbn; [by rewrite length_alter|done| |done].
  intros c' x. rewrite list_lookup_alter. destruct (decide (c = c')) as [->|].
  - destruct (controls j !! c') as [y|] eqn:E; cbn; [|done]. intros [= <-]. cbn. by apply H3'.
  - by apply H3'.
Qed.

Lemma pollers_ok_start j : pollers_ok j -> pollers_ok (start_mailbox_poller j).1.
Proof using.
  intros Hj. unfold start_mailbox_poller, modify. cbn. destruct (local_api j); [|done].
  destruct (mailbox_poller j) as [c|] eqn:Em; [by apply pollers_ok_wake|]. destruct Hj as [H1' H2' H3' H4'].
  split; cbn.
  - rewrite !length_app. cbn. lia.
  - intros i p. rewrite lookup_app_Some. intros [Hi|[Hle Hi]]; [by apply H2'|].
    apply list_lookup_singleton_Some in Hi as [Hi <-]. cbn. lia.
  - intros c x. rewrite lookup_app_Some. intros [Hi|[Hle Hi]].
    + pose proof (lookup_lt_Some _ _ _ Hi). rewrite (H3' _ _ Hi), Em. split; [done|]. intros [= E]. lia.
    + apply list_lookup_singleton_Some in Hi as [Hi <-]. cbn. split; [|done]. intros _. f_equal. lia.
  - intros c [= <-]. rewrite lookup_app_r by lia. rewrite H1', Nat.sub_diag. cbn. by eexists.
Qed.

Lemma pollers_ok_stop j : pollers_ok j -> pollers_ok (stop_mailbox_poller j).1.
Proof using.
  intros Hj. unfold stop_mailbox_poller, modify. cbn. destruct (mailbox_poller j) as [c|] eqn:Em; [|done].
  destruct Hj as [H1' H2' H3' H4']. split; cbn; [by rewrite length_alter|done| |done].
  intros c' x. rewrite list_lookup_alter. destruct (decide (c = c')) as [->|Hne].
  - destruct (controls j !! c'); cbn; [|done]. by intros [= <-].
  - intros Hx. rewrite (H3' _ _ Hx), Em. split; [|done]. intros [= ->]. done.
Qed.

Lemma control_found p i j : pollers_ok j -> pollers j !! i = Some p -> exists x, controls j !! i = Some x /\ control_of p j = x.
Proof using.
  intros [H1' H2' _ _] Hp. unfold control_of. rewrite (H2' _ _ Hp).
  pose proof (lookup_lt_Some _ _ _ Hp) as Hlt. destruct (lookup_lt_is_Some_2 (controls j) i) as [x Hx]; [lia|].
  exists x. by rewrite Hx.
Qed.

Lemma pollers_ok_step i p fuel j j' p' :
  pollers_ok j -> pollers j !! i = Some p -> poller_step A P fuel p j = (j', Some p') ->
  pollers_ok (set_pollers (controls j') (mailbox_poller j') (<[i := p']> (pollers j')) j').
Proof using.
  intros Hj Hp E. destruct (control_found p i j Hj Hp) as (x & Hx & Hc).
  assert (pollers_ok j' /\ control p' = control p /\ pollers j' = pollers j /\ mailbox_poller j' = mailbox_poller j /\
    (pc p' = Exited -> stop x = true)) as (Hj' & Hcp & Ep & Em & Hex).
  { revert E. unfold poller_step. cbv beta delta [mbind ST_bind get_st]. cbn. rewrite Hc.
    destruct (pc p) as [|slept total|]; [| |done].
    - destruct (stop x) eqn:Es; [by intros [= <- <-]|]. pose proof (unpolled_pass fuel (failures p) j) as Hu.
      destruct (poll_pass A P fuel (failures p) j) as [j1 [n|]]; cbn in Hu |- *; [|done]. intros [= <- <-].
      split; [by eapply pollers_ok_same|]. unfold polling in Hu. by simplify_eq.
    - destruct (slept <? total); [|by intros [= <- <-]]. destruct (stop x) eqn:Es; [by intros [= <- <-]|].
      destruct (wake x); [|by intros [= <- <-]]. intros [= <- <-].
      split; [by apply (pollers_ok_wake (control p))|done]. }
  destruct Hj' as [H1' H2' H3' H4']. split; cbn.
  - by rewrite length_insert.
  - intros i' q. rewrite list_lookup_insert_Some. intros [(<- & <- & _)|[_ Hq]]; [|by apply H2'].
    rewrite Hcp. by apply (po_own j Hj).
  - done.
  - intros c Hm. destruct (decide (i = c)) as [<-|Hne].
    + exists p'. rewrite list_lookup_insert_eq by (rewrite Ep; by eapply lookup_lt_Some). split; [done|]. intros Hpc.
      rewrite Em in Hm. apply (po_flag j Hj) with (x := x) in Hm; [|done]. rewrite (Hex Hpc) in Hm. done.
    + rewrite list_lookup_insert_ne by done. by apply H4'.
Qed.

Lemma act_pollers a j j' : pollers_ok j -> act A P parse print a j = Some j' -> pollers_ok j'.
Proof using.
  intros Hj E. destruct a; cbn [act] in E.
  - injection E as <-. pose proof (unpolled_host_op o) as Hu. destruct o; try (by eapply pollers_ok_same; [apply Hu|]).
    + cbn [run_host_op]. unfold foregrounding, spawn, mbind, ST_bind, modify at 1.
      apply pollers_ok_start. by eapply pollers_ok_same; [|exact Hj].
    + cbn [run_host_op]. unfold backgrounding, mbind, ST_bind.
      pose proof (pollers_ok_stop j Hj) as Hs. destruct (stop_mailbox_poller j) as [j1 []]. cbn in Hs |- *.
      eapply pollers_ok_same; [|exact Hs]. unfold flush_pending_to_mailbox, spawn, mbind, ST_bind, get_st, modify. cbn.
      by destruct (local_api j1).
  - injection E as <-. eapply pollers_ok_same; [|exact Hj].
    assert (unpolled (on_live_message print sender handle message)) as Hu; [|apply Hu].
    pose proof (unpolled_seen sender handle). unfold on_live_message, accept_live, store_received_message, is_sender_blocked, save_if_configured.
    unpoll.
  - injection E as <-. eapply pollers_ok_same; [|exact Hj].
    assert (unpolled (on_listening now_listening nat)) as Hu; [unfold on_listening; unpoll|apply Hu].
  - destruct (pollers j !! i) as [p|] eqn:Hp; cbn in E; [|done].
    destruct (poller_step A P fuel p j) as [j1 [p1|]] eqn:Es; cbn in E; simplify_eq. by eapply pollers_ok_step.
  - destruct (tasks j !! i) as [t|]; cbn in E; [|done]. injection E as <-.
    eapply (pollers_ok_same (set_tasks (delete i (tasks j)) j)); [|by eapply pollers_ok_same; [|exact Hj]].
    assert (unpolled (run_task A P t)) as Hu; [|apply Hu]. destruct t; cbn [run_task]; unfold save_if_configured; unpoll.
  - injection E as <-. eapply pollers_ok_same; [|exact Hj]. apply unpolled_local.
  - destruct (started j); [done|]. destruct (loops j); simplify_eq. by eapply pollers_ok_same; [|exact Hj].
Qed.

(** The mailbox is checked by one thread.  However the application goes to the
    foreground and the background, and however the threads are scheduled: of all the
    threads ever started at most one is not told to stop, the one the instance knows, which
    is still running; a thread that was told to stop does not touch the mailbox, the
    history or the application again. *)
Theorem one_poller l j j' :
  controls j = [] -> pollers j = [] -> mailbox_poller j = None -> run A P parse print l j = Some j' ->
  (forall i1 i2 p1 p2, pollers j' !! i1 = Some p1 -> pollers j' !! i2 = Some p2 ->
     stop (control_of p1 j') = false -> stop (control_of p2 j') = false -> i1 = i2) /\
  (forall c, mailbox_poller j' = Some c ->
     exists p, pollers j' !! c = Some p /\ pc p <> Exited /\ stop (control_of p j') = false) /\
  (mailbox_poller j' = None -> forall i p, pollers j' !! i = Some p -> stop (control_of p j') = true) /\
  (forall i p fuel, pollers j' !! i = Some p -> stop (control_of p j') = true -> (poller_step A P fuel p j').1 = j').
Proof using.
  intros Hc Hp Hm E. assert (pollers_ok j') as Hj'.
  { assert (pollers_ok j) as Hj by (split; rewrite ?Hc, ?Hp, ?Hm; done). clear Hc Hp Hm.
    revert j' E. unfold run. induction l as [|a l IH] using rev_ind; intros j' E; [cbn in E; by simplify_eq|].
    rewrite foldl_app in E. cbn in E. destruct (foldl _ (Some j) l) as [j1|]; [|done].
    eapply act_pollers; [|exact E]. by apply IH. }
  assert (forall i p, pollers j' !! i = Some p -> stop (control_of p j') = false <-> mailbox_poller j' = Some i) as Hf.
  { intros i p Hi. destruct (control_found p i j' Hj' Hi) as (x & Hx & ->). by apply po_flag. }
  split_and!.
  - intros i1 i2 p1 p2 H1' H2' S1 S2. apply (Hf _ _ H1') in S1. apply (Hf _ _ H2') in S2. congruence.
  - intros c Hcm. destruct (po_run _ Hj' c Hcm) as (p & Hcp & Hpc). exists p. split; [done|]. split; [done|]. by apply (Hf c p).
  - intros Hn i p Hi. destruct (stop (control_of p j')) eqn:Es; [done|]. apply (Hf _ _ Hi) in Es. congruence.
  - intros i p fuel Hi Hs. unfold poller_step. cbv beta delta [mbind ST_bind get_st]. cbn. rewrite Hs.
    by destruct (pc p); [|case_match|].
Qed.
End Pollers.

(** ** Keys and starting *)

Section Keys.
Context {W : Type} `{LocalWorld W} `{NodeApi W}.
Context (A : algo).

Lemma try_ok {S B C E} (m : ST S (result B E)) (k : B -> ST S (result C E)) s s' c :
  st_try m k s = (s', Ok c) -> exists s1 b, m s = (s1, Ok b) /\ k b s1 = (s', Ok c).
Proof using.
  unfold st_try, mbind, ST_bind. destruct (m s) as [s1 [b|e]]; [|done]. intros E1. by exists s1, b.
Qed.

Lemma guarded_ok {B} (m : L (W := W) (result B BingleError)) j j' b :
  guarded m j = (j', Ok b) ->
  exists s s' w', local_api j = Some s /\ m (s, world j) = ((s', w'), Ok b) /\ j' = set_local (Some s') w' j.
Proof using.
  unfold guarded, on_local, mbind, ST_bind. destruct (local_api j) as [s|]; [|done].
  destruct (m (s, world j)) as [[s' w'] [b'|e]] eqn:E; cbn; [|done]. intros [= <- <-]. by exists s, s', w'.
Qed.

Lemma save_strictly_ok what j j' s u :
  local_api j = Some s -> save_strictly what j = (j', Ok u) ->
  exists path, local_file (settings j) = Some path /\ write_state path (save s) (world j) = (world j', Ok tt) /\
    local_api j' = Some s.
Proof using.
  intros Hl. unfold save_strictly, mbind, ST_bind, get_st. destruct (local_file (settings j)) as [path|]; [|done].
  rewrite Hl. unfold in_world. destruct (write_state path (save s) (world j)) as [w [[]|e]] eqn:E; cbn; [|done].
  intros [= <- <-]. exists path. split; [done|]. split; [done|]. cbn. done.
Qed.

(** A key that funds will move to is on disk before the application has it.  When a
    recovery begins, or is completed, with success, the last thing done was a write to the
    state file that succeeded, of a state with that key in the place it belongs; without a
    state file neither succeeds. *)
Theorem recovery_keys_saved (j j' : Jsi W) kp :
  (begin_recovery_keypair j = (j', Ok kp) ->
   exists path s w, local_file (settings j) = Some path /\ local_api j' = Some s /\
     write_state path (save s) w = (world j', Ok tt) /\ sv_recovery_keypair (save s) = Some kp) /\
  (complete_recovery_keypair A j = (j', Ok kp) ->
   exists path s w, local_file (settings j) = Some path /\ local_api j' = Some s /\
     write_state path (save s) w = (world j', Ok tt) /\
     sv_keypair (save s) = Some kp /\ sv_recovery_keypair (save s) = None).
Proof using.
  split.
  - intros E. apply try_ok in E as (j1 & kp1 & Eg & E). apply try_ok in E as (j2 & [] & Es & [= <- <-]).
    apply guarded_ok in Eg as (s & s' & w' & Hl & Eb & ->).
    destruct (save_strictly_ok _ (set_local (Some s') w' j) _ s' _ eq_refl Es) as (path & Hf & Hw & Hl2).
    exists path, s', w'. split; [done|]. split; [done|]. split; [done|]. cbn.
    revert Eb. unfold Account.begin_recovery_keypair, mbind, ST_bind, get_state.
    destruct (keypair (acct s)) as [cur|]; [|done]. destruct (recovery_keypair (acct s)) as [k|] eqn:Er.
    + cbn. intros [= <- _ <-]. done.
    + unfold outside. destruct (fresh_keypair (world j)) as [w k]. cbn. by intros [= <- _ <-].
  - intros E. apply try_ok in E as (j1 & kp1 & Eg & E). apply try_ok in E as (j2 & [] & Es & [= <- <-]).
    apply guarded_ok in Eg as (s & s' & w' & Hl & Eb & ->).
    destruct (save_strictly_ok _ (set_local (Some s') w' j) _ s' _ eq_refl Es) as (path & Hf & Hw & Hl2).
    exists path, s', w'. split; [done|]. split; [done|]. split; [done|]. cbn.
    revert Eb. unfold Account.complete_recovery_keypair. cbv beta delta [mbind ST_bind get_state]. cbn.
    destruct (recovery_keypair (acct s)) as [k|]; [|done]. intros E.
    apply try_ok in E as (sw & k2 & Ei & E). revert Ei. unfold Account.import_keypair.
    destruct (address_from_passphrase A (passphrase k)); [|done]. cbn. intros [= <- <-]. cbn in E. by injection E as <- _ <-.
Qed.

(** When an instance starts its engine by itself.  With a state file that is only when
    the account's status was read as active, before or after a migration, and never when an
    update of the application is required; the engine is started with the passphrase of the
    account and its handle. *)
Theorem init_starts_active (j j' : Jsi W) :
  started j = false -> is_Some (local_file (settings j)) -> start_at_init j = (j', tt) -> started j' = true ->
  exists s w s' w' x kp o, Account.keypair_status (s, w) = ((s', w'), Ok x) /\
    LocalTypes.status x = "ACTIVE"%string /\ local_api j' = Some s' /\ keypair (acct s') = kp /\
    o = for_account (status_handle x) kp (opts (settings j)) /\ (engine_start o w').1 = world j'.
Proof using.
  intros Hst [path Hp] E Ht. revert E. unfold start_at_init. cbv beta delta [mbind ST_bind get_st]. cbn [fst]. rewrite Hp.
  unfold on_local at 1. destruct (local_api j) as [s|] eqn:Hl; [|intros [= <-]; congruence].
  destruct (Account.keypair_status (s, world j)) as [[s1 w1] [x|e]] eqn:Ek; [|intros [= <-]; cbn in Ht; congruence].
  destruct (decide (LocalTypes.status x = "UPGRADE_REQUIRED"%string)); [intros [= <-]; cbn in Ht; congruence|].
  assert (forall s0 w0 s' w' y j0, Account.keypair_status (s0, w0) = ((s', w'), Ok y) ->
    j0 = set_local (Some s') w' j -> LocalTypes.status y = "ACTIVE"%string ->
    (let '(s2, a) := on_local Account.get_keypair j0 in
     let '(s3, _) := in_world (engine_start (for_account (status_handle y)
       (match a with Some (Ok k) => k | _ => None end) (opts (settings j)))) s2 in modify (set_started true) s3) = (j', tt) ->
    exists s w s' w' x kp o, Account.keypair_status (s, w) = ((s', w'), Ok x) /\
      LocalTypes.status x = "ACTIVE"%string /\ local_api j' = Some s' /\ keypair (acct s') = kp /\
      o = for_account (status_handle x) kp (opts (settings j)) /\ (engine_start o w').1 = world j') as Hend.
  { intros s0 w0 s' w' y j0 Ey -> Ha. unfold on_local. cbn. unfold in_world. cbn.
    destruct (engine_start (for_account (status_handle y) (keypair (acct s')) (opts (settings j))) w') as [w3 r] eqn:Es. unfold modify.
    change (get_keypair (s', w')) with ((s', w'), Ok (keypair (acct s')) : result (option Keypair) BingleError). cbn. rewrite Es. intros [= <-].
    eexists s0, w0, s', w', y, _, _. split; [done|]. split; [done|]. split; [done|]. split; [done|]. split; [done|].
    by rewrite Es. }
  destruct (decide (LocalTypes.status x = "ACTIVE"%string)) as [Ha|Hna].
  - cbn [mret ST_ret]. rewrite decide_True by done. by eapply Hend.
  - unfold on_local at 1. cbn [local_api set_local world].
    destruct (Account.ensure_local_migrated (s1, w1)) as [[s2 w2] [[tx|]|e]]; cbn [mret ST_ret].
    2, 3: rewrite decide_False by done; intros [= <-]; cbn in Ht; congruence.
    unfold on_local at 1. cbn [local_api set_local world].
    destruct (Account.keypair_status (s2, w2)) as [[s3 w3] [y|e]] eqn:Ey; cbn [mret ST_ret].
    2: rewrite decide_False by done; intros [= <-]; cbn in Ht; congruence.
    destruct (decide (LocalTypes.status y = "ACTIVE"%string)); [|intros [= <-]; cbn in Ht; congruence].
    by eapply Hend.
Qed.
End Keys.

(** ** Runs in the small world *)

Module JsiDemo.
Definition up (b : bool) (w : SmallClient.world) : SmallClient.world :=
  SmallClient.MkWorld (SmallClient.w_time w) b (SmallClient.w_sent w) (SmallClient.w_queue w)
    (SmallClient.w_result w) (SmallClient.w_alerts w) (SmallClient.w_popped w).

(** Bob's node: the engine starts while the network is up, and holds its relay in the
    foreground, which [w_up] stands for. *)
#[export] Instance demo_node : NodeApi SmallClient.world := {|
  write_state _ _ w := (w, Ok tt);
  read_state _ w := (w, Err (Other "no file"));
  file_exists _ w := (w, false);
  api_get_handle w := (w, Some "bob"%string);
  engine_start _ w := (w, if SmallClient.w_up w then Ok tt else Err (Other "no network"));
  engine_stop w := w;
  engine_on_foreground w := up true w;
  engine_on_background w := up false w;
  resolve_host _ := None;
  api_handle_lookup h w := (w, Ok (Some h));
  api_handle_lookup_partial h w := (w, Ok (Some (h, h)));
  api_handle_lookup_matches h _ w := (w, Ok [(h, h, true)]);
  api_send_to_id _ _ w := (w, Ok true);
  api_send_to_handle _ _ w := (w, Ok true);
  api_send_to_network _ _ _ w := (w, Ok true);
  api_request_id _ v w := (w, Ok v);
  api_request_handle _ v w := (w, Ok v);
  api_request_network _ _ v w := (w, Ok v)
|}.

Definition parse (s : string) : option json := None.
Definition print (v : json) : string := "json".
Definition run := run (W := SmallClient.world) SmallClient.client_algo Toy.toy parse print.

Definition settings0 (file : option string) : Settings :=
  MkSettings file 120000000000 MAILBOX_RETRY_INITIAL false (MkStartOptions "" None (Some 5) (Some 6) false).

Definition instance (file : option string) (s : LocalState) (w : SmallClient.world) : Jsi SmallClient.world :=
  MkJsi (settings0 file) (Some s) w (MkHost true true true true []) [] "Unknown" false false [] None [] None false 0 [].

(** What Alice sends live is the message that also lies in Bob's mailbox, twice. *)
Definition hello : json := JObj [("text"%string, JStr "hello"); ("sent_time"%string, JInt 777)].
Definition waiting : Jsi SmallClient.world := Eval vm_compute in
  instance (Some "state"%string) LocalStore.Demo.waiting.1 LocalStore.Demo.waiting.2.
Definition steps : list Action :=
  [ActHost HForeground; ActLive "alice" "alice" hello; ActPoller 0 9; ActLive "alice" "alice" hello;
   ActHost HBackground; ActHost HForeground; ActPoller 1 9; ActPoller 0 9; ActPoller 0 9].
Definition ended : Jsi SmallClient.world := Eval vm_compute in default waiting (run steps waiting).
End JsiDemo.

Existing Instance JsiDemo.demo_node.

Lemma shown_once_witness :
  JsiDemo.run JsiDemo.steps JsiDemo.waiting = Some JsiDemo.ended /\
  shown JsiDemo.print JsiDemo.ended = [(777, "alice", "hello")]%string /\ NoDup (shown JsiDemo.print JsiDemo.ended).
Proof.
  split; [vm_compute; reflexivity|]. split; [vm_compute; reflexivity|].
  assert (shown JsiDemo.print JsiDemo.waiting = []) as E0 by (vm_compute; reflexivity).
  assert (forall w : SmallClient.world, exists h, (api_get_handle w).2 = Some h /\ is_blank h = false)
    as Hknown by (intros w; exists "bob"%string; by split).
  destruct (shown_once SmallClient.client_algo Toy.toy JsiDemo.parse JsiDemo.print
    Hknown JsiDemo.steps JsiDemo.waiting JsiDemo.ended LocalStore.Demo.waiting.1)
    as (K & E & Hn & _); [vm_compute; reflexivity| | | |].
  - split; vm_compute; constructor.
  - reflexivity.
  - vm_compute. reflexivity.
  - rewrite E, E0. exact Hn.
Defined.

Lemma one_poller_witness :
  length (pollers JsiDemo.ended) = 2%nat /\ mailbox_poller JsiDemo.ended = Some 1%nat /\
  (forall i1 i2 p1 p2, pollers JsiDemo.ended !! i1 = Some p1 -> pollers JsiDemo.ended !! i2 = Some p2 ->
     stop (control_of p1 JsiDemo.ended) = false -> stop (control_of p2 JsiDemo.ended) = false -> i1 = i2).
Proof.
  split; [vm_compute; reflexivity|]. split; [vm_compute; reflexivity|].
  refine (proj1 (one_poller SmallClient.client_algo Toy.toy JsiDemo.parse JsiDemo.print JsiDemo.steps JsiDemo.waiting
    JsiDemo.ended _ _ _ _)); vm_compute; reflexivity.
Defined.

Lemma live_message_effect_witness :
  queue (on_live_message JsiDemo.print "alice" "alice" JsiDemo.hello JsiDemo.waiting).1 = [JsiDemo.hello].
Proof.
  destruct (live_message_effect JsiDemo.print "alice" "alice" JsiDemo.hello JsiDemo.waiting
    LocalStore.Demo.waiting.1 ltac:(vm_compute; reflexivity)) as (s' & _ & _ & _ & Hq & _). exact Hq.
Defined.

Lemma recovery_keys_saved_witness :
  exists path s w, local_file (settings JsiDemo.waiting) = Some path /\
    local_api (begin_recovery_keypair JsiDemo.waiting).1 = Some s /\
    write_state path (save s) w = (world (begin_recovery_keypair JsiDemo.waiting).1, Ok tt) /\
    sv_recovery_keypair (save s) = Some (MkKeypair "fresh" "fresh").
Proof.
  refine (proj1 (recovery_keys_saved SmallClient.client_algo JsiDemo.waiting (begin_recovery_keypair JsiDemo.waiting).1
    (MkKeypair "fresh" "fresh")) _). vm_compute. reflexivity.
Defined.

Lemma init_starts_active_witness :
  exists s x, local_api (start_at_init JsiDemo.waiting).1 = Some s /\ LocalTypes.status x = "ACTIVE"%string.
Proof.
  destruct (init_starts_active JsiDemo.waiting (start_at_init JsiDemo.waiting).1 eq_refl
    ltac:(eexists; reflexivity) ltac:(vm_compute; reflexivity) ltac:(vm_compute; reflexivity))
    as (s & w & s' & w' & x & kp & o & _ & Ha & Hl & _).
  exists s', x. split; [exact Hl|exact Ha].
Defined.

(** The engine could not start when the instance was made, and the instance is marked as
    started all the same: a later start, with the network up, reports success and does not
    start the engine. *)
Theorem failed_start_sticks :
  let j := (start_at_init (JsiDemo.instance (Some "state"%string) LocalStore.Demo.waiting.1
              (JsiDemo.up false LocalStore.Demo.waiting.2))).1 in
  (engine_start (opts (settings j)) (world j)).2 = Err (Other "no network") /\ started j = true /\
  start_engine j = (j, Ok tt).
Proof. vm_compute. done. Qed.

(** Going to the background and back: the two threads that tell the engine run in either
    order, and in the wrong one the engine is left in the background while the application
    is in the foreground. *)
Theorem ground_order_lost :
  exists j, JsiDemo.run [ActHost HBackground; ActHost HForeground; ActTask 2; ActTask 0] JsiDemo.waiting = Some j /\
    mailbox_poller j <> None /\ world j = JsiDemo.up false (world JsiDemo.waiting).
Proof. eexists. split; [vm_compute; reflexivity|]. split; [vm_compute; discriminate|]. vm_compute. reflexivity. Qed.
