(* ===== verification/JsiLoop.v ===== *)
(** * The older loop that sends pending messages

    Models [run_processing_loop] of [src/bingle_jsi/src/api/bingle_jsi_api_impl.rs], which
    an instance runs when the sender of [PendingSender] is not switched on: a scheduler that
    hands one message at a time to a worker and records its results, with the two channels
    between them.  A move is one access to what is shared; the moves of the threads
    interleave in any order, and there may be several loops, since each start of the
    instance makes one.

    The store is the class [OutboundStore]; what the network and the clock answer is part
    of a move. *)
From S2P Require Import Prelude LocalTypes SendRetry Account LocalStore PendingSender SenderThreads.
From S2P Require Import Api.
Import Account LocalTypes.

Local Open Scope Z_scope.

(** ** The state *)

(** The scheduler: at the head of its loop, waiting for a result, choosing, ended. *)
Inductive LoopPc : Type := LTop | LRecv | LPick | LExited.

(** The worker: waiting, sending a message to the recipients left, ended. *)
Inductive SendPc : Type :=
| WIdle
| WBusy (m : Message) (todo : list string) (last : option SendFailure)
| WEnded.

(** What the worker reports: the message, its progress in percent, the failure. *)
Record Outcome : Type := MkOutcome {
  out_id : string;
  out_progress : Z;
  out_reason : option string;
  out_kind : option SendFailureKind
}.

Record Loop : Type := MkLoop {
  lp_pc : LoopPc;
  lp_vars : SchedulerState;
  lp_req : list Message;
  lp_res : list Outcome;
  lp_worker : SendPc
}.

Definition loop_new : Loop := MkLoop LTop SchedulerState_new [] [] WIdle.

Definition SEND_WATCHDOG : Z := 45000.

(** ** The moves of a loop *)

Inductive Move : Type :=
| MCheck
| MReap (now : Z)
| MTimeout
| MChoose (is_ready : bool) (now handed : Z)
| MTake
| MProgress (percent : Z)
| MDeliver (r : option (result bool BingleError))
| MReport
| MWorkerEnds.

(** What the worker reports when no recipient is left. *)
Definition finish (m : Message) (last : option SendFailure) : Outcome :=
  match last with
  | None => MkOutcome (msg_id m) 100 None None
  | Some f =>
      MkOutcome (msg_id m) (if is_retryable (sf_kind f) then 0 else 100) (Some (sf_reason f)) (Some (sf_kind f))
  end.

(** The scheduler's variables after a result, at [now]. *)
Definition reap (o : Outcome) (now : Z) (v : SchedulerState) : SchedulerState :=
  let retry := if 100 <=? out_progress o then base.delete (out_id o) (retry_after v)
               else <[out_id o := now + RETRY_BACKOFF]> (retry_after v) in
  let mine := match sc_in_flight v with Some (t, _) => bool_decide (t = out_id o) | None => false end in
  MkSchedulerState (if mine then None else sc_in_flight v) (if mine then false else warned_stuck v) retry.

Definition note_slow (now : Z) (v : SchedulerState) : SchedulerState :=
  match sc_in_flight v with
  | Some (_, since) =>
      if negb (warned_stuck v) && (SEND_WATCHDOG <? now - since)
      then MkSchedulerState (sc_in_flight v) true (retry_after v) else v
  | None => v
  end.

Section Loops.
Context {S : Type} `{OutboundStore S}.

(** The watchdog and the choice of the next message, which is [pick] of [PendingSender]. *)
Definition choose (is_ready : bool) (now handed : Z) (t : S) (l : Loop) : Loop :=
  let '(picked, v) := pick is_ready (pending_messages t) now handed (note_slow now (lp_vars l)) in
  match picked with
  | None => MkLoop LTop v (lp_req l) (lp_res l) (lp_worker l)
  | Some m =>
      match lp_worker l with
      | WEnded => MkLoop LExited v (lp_req l) (lp_res l) (lp_worker l)
      | _ => MkLoop LTop v (lp_req l ++ [m]) (lp_res l) (lp_worker l)
      end
  end.

(** One move: the store, the loop and what is observed of a message. *)
Definition move (mv : Move) (started : bool) (t : S) (l : Loop) : option (S * Loop * list Action) :=
  let '(MkLoop sp v req res wp) := l in
  match mv, sp, wp with
  | MCheck, LTop, _ => Some (t, MkLoop (if started then LRecv else LExited) v req res wp, [])
  | MReap now, LRecv, _ =>
      match res with
      | o :: res =>
          let '(t, _) := record_status (out_id o) (out_progress o) (out_reason o) (out_kind o) t in
          Some (t, MkLoop LPick (reap o now v) req res wp, [])
      | [] => match wp with WEnded => Some (t, MkLoop LExited v req res wp, []) | _ => None end
      end
  | MTimeout, LRecv, _ => match res with [] => Some (t, MkLoop LPick v req res wp, []) | _ => None end
  | MChoose is_ready now handed, LPick, _ => Some (t, choose is_ready now handed t l, [])
  | MTake, _, WIdle =>
      match req with
      | m :: req => Some (t, MkLoop sp v req res (WBusy m (recipient_handles m) None), [Sent (msg_id m)])
      | [] => None
      end
  | MProgress percent, _, WBusy m _ _ =>
      let '(t, _) := record_status (msg_id m) percent None None t in Some (t, l, [])
  | MDeliver r, _, WBusy m (h :: todo) last =>
      let wp := match classify_send_error (default (Err (Send NotReady "send panicked")) r) with
                | None => WBusy m todo last
                | Some f => WBusy m (if is_retryable (sf_kind f) then [] else todo) (Some f)
                end in
      Some (t, MkLoop sp v req res wp, [])
  | MReport, _, WBusy m [] last =>
      let done := match last with None => [Completed (msg_id m)] | Some _ => [] end in
      match sp with
      | LExited => Some (t, MkLoop sp v req res WEnded, done)
      | _ => Some (t, MkLoop sp v req (res ++ [finish m last]) WIdle, done)
      end
  | MWorkerEnds, LExited, WIdle =>
      match req with [] => Some (t, MkLoop sp v req res WEnded, []) | _ => None end
  | _, _, _ => None
  end.

(** ** The instance with its loops *)

Record host : Type := MkHost {
  h_store : S;
  h_started : bool;
  h_loops : list Loop;
  h_trace : list Action
}.

Inductive HostMove : Type :=
| HStart
| HStop
| HLoop (i : nat) (mv : Move).

(** A start makes a loop, also when there is one. *)
Definition host_move (a : HostMove) (h : host) : option host :=
  match a with
  | HStart => Some (MkHost (h_store h) true (h_loops h ++ [loop_new]) (h_trace h))
  | HStop => Some (MkHost (h_store h) false (h_loops h) (h_trace h))
  | HLoop i mv =>
      l ← h_loops h !! i;
      '(t, l, tr) ← move mv (h_started h) (h_store h) l;
      Some (MkHost t (h_started h) (<[i := l]> (h_loops h)) (h_trace h ++ tr))
  end.

Definition host_run (moves : list HostMove) (h : host) : option host :=
  foldl (fun o a => o ≫= host_move a) (Some h) moves.
End Loops.

(** ** One loop sends a message to its end once *)

Section Once.
Context {S : Type} `{OutboundLaws S}.

(** One loop, the stop of the instance, and messages queued meanwhile. *)
Inductive lone_step : host (S := S) -> host -> Prop :=
| lone_move mv h h' : host_move (HLoop 0 mv) h = Some h' -> lone_step h h'
| lone_stop h h' : host_move HStop h = Some h' -> lone_step h h'
| lone_queue t h : queued_more (h_store h) t -> lone_step h (MkHost t (h_started h) (h_loops h) (h_trace h)).

Definition completed (tr : list Action) : list string :=
  omap (fun a => match a with Completed id => Some id | _ => None end) tr.

Definition in_worker (wp : SendPc) : list string := match wp with WBusy m _ _ => [msg_id m] | _ => [] end.

Definition in_hand (l : Loop) : list string := (msg_id <$> lp_req l) ++ in_worker (lp_worker l).
Definition busy (l : Loop) : list string := in_hand l ++ (out_id <$> lp_res l).

(** The message with this identifier is not pending. *)
Definition settled (id : string) (t : S) : Prop := exists m, entry id t = Some m /\ is_pending m = false.

Record loop_inv (t : S) (l : Loop) (tr : list Action) : Prop := {
  li_wf : store_wf t;
  li_one : (length (busy l) <= 1)%nat;
  li_flight : lp_pc l <> LExited -> busy l = option_list (fst <$> sc_in_flight (lp_vars l));
  li_known id : id ∈ busy l -> is_Some (entry id t);
  li_fresh id : id ∈ in_hand l -> id ∉ completed tr;
  li_result o : o ∈ lp_res l ->
    match out_reason o with Some _ => out_id o ∉ completed tr | None => out_progress o = 100 end;
  li_done id : id ∈ completed tr -> lp_pc l <> LExited -> id ∈ out_id <$> lp_res l \/ settled id t;
  li_once : NoDup (completed tr)
}.

Lemma record_settled id p reason kind t m :
  store_wf t -> entry id t = Some m ->
  let t' := (record_status id p reason kind t).1 in
  store_wf t' /\ (forall i, is_Some (entry i t) -> is_Some (entry i t')) /\
  (forall i, i <> id -> settled i t -> settled i t') /\
  (reason = None -> p = 100 -> settled id t').
Proof using.
  intros Hw He. destruct (record_spec id p reason kind t m Hw He) as (t' & m' & -> & Hw' & He' & Hr & Ho & _). cbn.
  split; [done|]. split_and!.
  - intros i Hi. destruct (decide (i = id)) as [->|]; [by eexists|]. by rewrite Ho.
  - intros i Hne (x & Hx & Hp). exists x. by rewrite Ho.
  - intros -> ->. destruct Hr as (_ & _ & _ & _ & Hr). destruct Hr as [Hp _]; [lia|]. exists m'. split; [done|].
    unfold is_pending. by rewrite Hp.
Qed.

Lemma queued_settled (t t' : S) :
  queued_more t t' -> store_wf t' /\ (forall i, is_Some (entry i t) -> is_Some (entry i t')) /\
  (forall i, settled i t -> settled i t').
Proof using.
  intros [Hw Hq]. split; [done|]. split; [intros i [m Hm]; eauto|]. intros i (m & Hm & Hp). exists m. eauto.
Qed.

Lemma pick_pending is_ready pending now handed v m v' :
  pick is_ready pending now handed v = (Some m, v') ->
  sc_in_flight v = None /\ (exists ms, pending = Ok ms /\ m ∈ ms) /\ fst <$> sc_in_flight v' = Some (msg_id m).
Proof using.
  unfold pick. destruct (sc_in_flight v) as [x|]; [done|]. rewrite bool_decide_eq_true_2 by done. cbn [andb].
  destruct is_ready; [|done]. destruct (select_sendable_message _ _ _) as [m'|] eqn:E; [|done]. intros [= -> <-].
  apply select_sendable_elem in E as [Hin _]. split; [done|]. split; [|done].
  destruct pending as [ms|e]; [by exists ms|by apply elem_of_nil in Hin].
Qed.

Lemma pick_none is_ready pending now handed v v' :
  pick is_ready pending now handed v = (None, v') -> sc_in_flight v' = sc_in_flight v.
Proof using.
  unfold pick. destruct (_ && _); [|by intros [= <-]]. by destruct (select_sendable_message _ _ _); intros [= <-].
Qed.

(** Of at most one message, the scheduler's own. *)
Lemma one_of {A} (x y : A) l : (length l <= 1)%nat -> x ∈ l -> y ∈ l -> x = y.
Proof using.
  destruct l as [|a [|b l]]; cbn; [by intros _ ?%elem_of_nil| |lia].
  by intros _ ->%list_elem_of_singleton ->%list_elem_of_singleton.
Qed.

Lemma inv_pc t l tr pc' :
  loop_inv t l tr -> lp_pc l <> LExited ->
  loop_inv t (MkLoop pc' (lp_vars l) (lp_req l) (lp_res l) (lp_worker l)) tr.
Proof using. intros [H1 H2 H3 H4 H5 H6 H7 H8] Hp. split; try done; intros; [by apply H3|by apply H7]. Qed.

Lemma inv_reap t l tr o res now :
  loop_inv t l tr -> lp_pc l = LRecv -> lp_res l = o :: res ->
  loop_inv (record_status (out_id o) (out_progress o) (out_reason o) (out_kind o) t).1
    (MkLoop LPick (reap o now (lp_vars l)) (lp_req l) res (lp_worker l)) tr.
Proof using.
  intros [H1 H2 H3 H4 H5 H6 H7 H8] Hpc Hres. destruct l as [sp v req rs wp]. cbn in *. subst.
  unfold busy, in_hand in *. cbn in *.
  assert ((msg_id <$> req) ++ in_worker wp = [] /\ res = []) as [Eh ->].
  { rewrite length_app in H2. cbn in H2. rewrite length_fmap in H2.
    split; [apply nil_length_inv; lia|destruct res; [done|cbn in H2; lia]]. }
  rewrite Eh in *. cbn in *. specialize (H3 ltac:(done)).
  destruct (H4 (out_id o)) as [m Hm]; [by left|].
  destruct (record_settled (out_id o) (out_progress o) (out_reason o) (out_kind o) t m H1 Hm) as (R1 & R2 & R3 & R4).
  assert (sc_in_flight (reap o now v) = None) as Er.
  { unfold reap. destruct (sc_in_flight v) as [[i z]|]; cbn in H3 |- *; [|done]. injection H3 as ->.
    by rewrite bool_decide_eq_true_2. }
  set (v' := reap o now v) in *. clearbody v'.
  split; unfold busy, in_hand; cbn; rewrite ?Eh; cbn; [done|lia|by rewrite Er|by intros i ?%elem_of_nil|
    by intros i ?%elem_of_nil|by intros i ?%elem_of_nil| |done].
  intros id Hid _. right. destruct (decide (id = out_id o)) as [->|Hne].
  - specialize (H6 o ltac:(by left)). destruct (out_reason o); [done|]. by apply R4.
  - apply R3; [done|]. destruct (H7 id Hid ltac:(done)) as [Hin|Hs]; [|done]. by apply list_elem_of_singleton in Hin.
Qed.

Lemma inv_choose is_ready now handed t l tr :
  loop_inv t l tr -> lp_pc l = LPick -> loop_inv t (choose is_ready now handed t l) tr.
Proof using.
  intros [H1 H2 H3 H4 H5 H6 H7 H8] Hpc. destruct l as [sp v req res wp]. cbn in *. subst. unfold choose. cbn.
  specialize (H3 ltac:(done)).
  assert (sc_in_flight (note_slow now v) = sc_in_flight v) as En.
  { unfold note_slow. destruct (sc_in_flight v) as [[i z]|] eqn:E; [|done]. by destruct (_ && _); cbn; rewrite ?E. }
  destruct (pick _ _ _ _ _) as [[m|] v'] eqn:Ep.
  2: { apply pick_none in Ep. split; cbn; try done; intros; [by rewrite Ep, En|by apply H7]. }
  apply pick_pending in Ep as (Ef & (ms & Ems & Hm) & Ev). rewrite En in Ef. rewrite Ef in H3. cbn in H3.
  destruct (pending_spec t H1) as (ms' & Ems' & _ & Hms). rewrite Ems in Ems'. injection Ems' as <-.
  apply Hms in Hm as [He Hp].
  assert (req = [] /\ in_worker wp = [] /\ res = []) as (-> & Ew & ->).
  { unfold busy, in_hand in H3. cbn in H3. apply app_eq_nil in H3 as [[H3a H3b]%app_eq_nil H3c].
    split; [by eapply fmap_nil_inv|]. split; [done|by eapply fmap_nil_inv]. }
  assert (msg_id m ∉ completed tr) as Hn.
  { intros Hin. destruct (H7 _ Hin ltac:(done)) as [?%elem_of_nil|(x & Hx & Hxp)]; [done|]. rewrite He in Hx. congruence. }
  destruct wp; cbn in Ew; try done; split; unfold busy, in_hand; cbn; try done;
    try (by intros i ?%elem_of_nil); try lia; try (by rewrite Ev); try (by intros i ->%list_elem_of_singleton; eauto).
  all: intros id Hid _; destruct (H7 id Hid ltac:(done)) as [?%elem_of_nil|Hs]; [done|by right].
Qed.

Lemma inv_progress t l tr m todo last p :
  loop_inv t l tr -> lp_worker l = WBusy m todo last ->
  loop_inv (record_status (msg_id m) p None None t).1 l tr.
Proof using.
  intros [H1 H2 H3 H4 H5 H6 H7 H8] Hw. assert (msg_id m ∈ in_hand l) as Hh.
  { unfold in_hand. rewrite Hw. apply elem_of_app. right. by apply list_elem_of_singleton. }
  destruct (H4 (msg_id m)) as [x Hx]; [unfold busy; apply elem_of_app; by left|].
  destruct (record_settled (msg_id m) p None None t x H1 Hx) as (R1 & R2 & R3 & _).
  split; try done; [intros id Hid; by apply R2, H4|]. intros id Hid Hpc. destruct (H7 id Hid Hpc) as [?|Hs]; [by left|].
  right. apply R3; [|done]. intros ->. by apply (H5 (msg_id m)).
Qed.

(** The message the worker has ends, with a result for the scheduler or without. *)
Lemma inv_report t l tr m last :
  loop_inv t l tr -> lp_worker l = WBusy m [] last ->
  loop_inv t
    (match lp_pc l with
     | LExited => MkLoop (lp_pc l) (lp_vars l) (lp_req l) (lp_res l) WEnded
     | _ => MkLoop (lp_pc l) (lp_vars l) (lp_req l) (lp_res l ++ [finish m last]) WIdle
     end)
    (tr ++ match last with None => [Completed (msg_id m)] | Some _ => [] end).
Proof using.
  intros [H1 H2 H3 H4 H5 H6 H7 H8] Hw. destruct l as [sp v req res wp]. cbn in *. subst wp.
  unfold busy, in_hand in *. cbn in *.
  assert (req = [] /\ res = []) as [-> ->].
  { rewrite !length_app, !length_fmap in H2. cbn in H2. split; apply nil_length_inv; lia. }
  cbn in *. specialize (H5 (msg_id m) ltac:(by left)).
  assert (completed (tr ++ match last with None => [Completed (msg_id m)] | Some _ => [] end) =
    completed tr ++ match last with None => [msg_id m] | Some _ => [] end) as Ec.
  { unfold completed. rewrite omap_app. by destruct last. }
  assert (NoDup (completed tr ++ match last with None => [msg_id m] | Some _ => [] end)) as Hnd.
  { destruct last; [by rewrite app_nil_r|]. apply NoDup_app. split; [done|]. split; [|apply NoDup_singleton].
    intros i Hi ->%list_elem_of_singleton. done. }
  assert (out_id (finish m last) = msg_id m) as Eo by (by destruct last).
  assert (forall id, id ∈ completed tr ++ match last with None => [msg_id m] | Some _ => [] end -> sp <> LExited ->
    id = msg_id m \/ settled id t) as Hd.
  { intros id [Hi|Hi]%elem_of_app Hpc; [|destruct last; [by apply elem_of_nil in Hi|by apply list_elem_of_singleton in Hi; left]].
    destruct (H7 id Hi Hpc) as [?%elem_of_nil|?]; [done|by right]. }
  destruct sp; split; cbn; rewrite ?Ec; try done; try lia; try (by intros i ?%elem_of_nil);
    try (by rewrite Eo; apply H3); try (by rewrite Eo; intros i; apply H4).
  all: try (intros id Hid Hpc; rewrite Eo; destruct (Hd id Hid Hpc) as [->|?]; [left; by left|by right]).
  all: intros o ->%list_elem_of_singleton; destruct last as [f|]; cbn; [by rewrite app_nil_r|done].
Qed.

Lemma inv_worker t sp v req res wp wp' tr :
  loop_inv t (MkLoop sp v req res wp) tr -> in_worker wp' = in_worker wp -> loop_inv t (MkLoop sp v req res wp') tr.
Proof using.
  intros [H1 H2 H3 H4 H5 H6 H7 H8] E. unfold busy, in_hand in *. cbn in *.
  split; unfold busy, in_hand; cbn; rewrite ?E; done.
Qed.

Lemma inv_take t sp v m req res tr :
  loop_inv t (MkLoop sp v (m :: req) res WIdle) tr ->
  loop_inv t (MkLoop sp v req res (WBusy m (recipient_handles m) None)) (tr ++ [Sent (msg_id m)]).
Proof using.
  intros [H1 H2 H3 H4 H5 H6 H7 H8]. unfold busy, in_hand in *. cbn in *.
  assert (completed (tr ++ [Sent (msg_id m)]) = completed tr) as Ec by (unfold completed; by rewrite omap_app, app_nil_r).
  assert (req = [] /\ res = []) as [-> ->].
  { rewrite app_nil_r, length_app, !length_fmap in H2. split; apply nil_length_inv; lia. }
  split; unfold busy, in_hand; cbn; rewrite ?Ec; done.
Qed.

Lemma move_inv mv started t l t' l' new tr :
  loop_inv t l tr -> move mv started t l = Some (t', l', new) -> loop_inv t' l' (tr ++ new).
Proof using.
  intros Hi E. destruct l as [sp v req res wp]. destruct mv; cbn in E.
  - destruct sp; try done. injection E as <- <- <-. rewrite app_nil_r. by eapply inv_pc in Hi.
  - destruct sp; try done. destruct res as [|o res].
    + destruct wp; try done. injection E as <- <- <-. rewrite app_nil_r. by eapply inv_pc in Hi.
    + eapply inv_reap with (now := now) in Hi; [|done|done]. cbn in Hi. destruct (record_status _ _ _ _ t) as [t1 r].
      injection E as <- <- <-. by rewrite app_nil_r.
  - destruct sp; try done. destruct res; [|done]. injection E as <- <- <-. rewrite app_nil_r. by eapply inv_pc in Hi.
  - destruct sp; try done. injection E as <- <- <-. rewrite app_nil_r. by apply inv_choose.
  - destruct sp, wp; try done; destruct req as [|m req]; try done; injection E as <- <- <-; by apply inv_take.
  - assert (exists m todo last, wp = WBusy m todo last) as (m & todo & last & ->) by (destruct sp, wp; try done; by eexists _, _, _).
    pose proof (inv_progress t _ tr m todo last percent Hi eq_refl) as Hp.
    destruct (record_status (msg_id m) percent None None t) as [t1 r].
    destruct sp; injection E as <- <- <-; by rewrite app_nil_r.
  - assert (exists m h todo last, wp = WBusy m (h :: todo) last) as (m & h & todo & last & ->).
    { destruct sp, wp as [|? [|? ?] ?|]; try done; by eexists _, _, _, _. }
    destruct sp; injection E as <- <- <-; rewrite app_nil_r; (eapply inv_worker; [exact Hi|]); by destruct (classify_send_error _).
  - assert (exists m last, wp = WBusy m [] last) as (m & last & ->).
    { destruct sp, wp as [|? [|? ?] ?|]; try done; by eexists _, _. }
    pose proof (inv_report t _ tr m last Hi eq_refl) as Hr. by destruct sp; injection E as <- <- <-.
  - destruct sp, wp; try done. destruct req; [|done]. injection E as <- <- <-. rewrite app_nil_r.
    by eapply inv_worker.
Qed.

Definition lone_inv (h : host (S := S)) : Prop :=
  exists l, h_loops h = [l] /\ loop_inv (h_store h) l (h_trace h).

Lemma lone_step_inv h h' : lone_inv h -> lone_step h h' -> lone_inv h'.
Proof using.
  intros (l & El & Hi) Hs. destruct Hs as [mv a b E|a b E|t1 a Hq]; cbn in *.
  - rewrite El in E. cbn in E. destruct (move mv (h_started a) (h_store a) l) as [[[t1 l1] new]|] eqn:Em; cbn in E; [|done].
    injection E as <-. exists l1. split; [done|]. by eapply move_inv.
  - injection E as <-. by exists l.
  - exists l. split; [done|]. destruct (queued_settled _ _ Hq) as (Q1 & Q2 & Q3). destruct Hi as [H1' H2' H3' H4' H5' H6' H7' H8'].
    split; try done; [intros id Hid; by apply Q2, H4'|]. intros id Hid Hpc. destruct (H7' id Hid Hpc); auto.
Qed.

(** The loop sends a message to its end once.  As long as the instance has one loop,
    however its two threads interleave, whatever the network answers, whatever is queued
    meanwhile and whenever the instance stops: no message has two attempts that reached
    every recipient. *)
Theorem lone_loop_once (t : S) h :
  store_wf t -> rtc lone_step (MkHost t true [loop_new] []) h -> NoDup (completed (h_trace h)).
Proof using.
  intros Hw Hr. assert (lone_inv (MkHost t true [loop_new] [])) as Hz.
  { exists loop_new. split; [done|]. split; cbn; try done; try lia; try (by intros i ?%elem_of_nil). constructor. }
  assert (lone_inv h) as (l & _ & Hi); [|by apply Hi]. clear Hw.
  induction Hr as [|h1 h2 h3 Hs Hr IH]; [done|]. by apply IH, (lone_step_inv h1).
Qed.
End Once.

(** ** Runs *)

Lemma lone_run {S} `{OutboundLaws S} moves : forall h h' : host (S := S),
  host_run (HLoop 0 <$> moves) h = Some h' -> rtc lone_step h h'.
Proof.
  unfold host_run. induction moves as [|mv moves IH] using rev_ind; intros h h' E; [cbn in E; by simplify_eq|].
  rewrite fmap_app, foldl_app in E. cbn in E. destruct (foldl _ (Some h) _) as [h1|] eqn:E1; [|done].
  eapply rtc_r; [by eapply IH|]. by apply (lone_move mv).
Qed.

Module LoopDemo.
(** Bob's client with one message queued for Alice. *)
Definition store0 : LocalState * SmallClient.world := Eval vm_compute in sd_store SmallSender.leaving.
Definition idle : host := MkHost store0 false [] [].

Definition turn_moves : list Move := [MCheck; MTimeout; MChoose true 5 5].
Definition send_moves : list Move := [MTake; MDeliver (Some (Ok true)); MReport].
Definition all_moves : list Move := turn_moves ++ send_moves ++ [MCheck; MReap 6; MChoose true 7 7].

Definition ended : host := Eval vm_compute in
  default idle (host_run (HLoop 0 <$> all_moves) (MkHost store0 true [loop_new] [])).
End LoopDemo.

Lemma lone_loop_once_witness :
  completed (h_trace LoopDemo.ended) = [msg_id SmallSender.lone_msg] /\ NoDup (completed (h_trace LoopDemo.ended)).
Proof.
  split; [vm_compute; reflexivity|].
  refine (lone_loop_once LoopDemo.store0 LoopDemo.ended _ _).
  - vm_compute. apply NoDup_singleton.
  - apply (lone_run LoopDemo.all_moves). vm_compute. reflexivity.
Defined.

(** The application starts the instance twice: there are two loops, both find the message
    pending, and it is sent to its end twice. *)
Theorem started_twice_sends_twice :
  exists h, host_run ([HStart; HStart] ++ (HLoop 0 <$> LoopDemo.turn_moves) ++ (HLoop 1 <$> LoopDemo.turn_moves) ++
    (HLoop 0 <$> LoopDemo.send_moves) ++ (HLoop 1 <$> LoopDemo.send_moves)) LoopDemo.idle = Some h /\
    completed (h_trace h) = [msg_id SmallSender.lone_msg; msg_id SmallSender.lone_msg].
Proof. eexists. split; vm_compute; reflexivity. Qed.

(** The instance stops and starts again while a send is under way: the result of that send
    is lost with its loop, and the new loop sends the message again. *)
Theorem restarted_sends_again :
  exists h, host_run ([HStart] ++ (HLoop 0 <$> LoopDemo.turn_moves) ++ [HLoop 0 MTake; HStop; HLoop 0 MCheck; HStart] ++
    (HLoop 1 <$> LoopDemo.turn_moves) ++ [HLoop 0 (MDeliver (Some (Ok true))); HLoop 0 MReport] ++
    (HLoop 1 <$> LoopDemo.send_moves)) LoopDemo.idle = Some h /\
    completed (h_trace h) = [msg_id SmallSender.lone_msg; msg_id SmallSender.lone_msg].
Proof. eexists. split; vm_compute; reflexivity. Qed.
