(* ===== verification/CliArgs.v ===== *)
(** * The command line: arguments

    Models how the program reads its command line: [src/bingle_core/src/util/cli_utils.rs]
    (the options every command that starts a node shares), the amounts and server lists of
    [util/config_utils.rs], and [src/bingle_cli/src/chat.rs] with the small decisions of
    [chat_poll.rs] and [main.rs].

    A loop over an iterator of arguments that takes values with [next] is a fixpoint over
    the list.  Files, environment variables and the resolution of host names are
    parameters; so is the reading of an IPv6 address. *)
From S2P Require Import Prelude NetAddr Advert LocalTypes LocalStore Chain JsiTypes.

Local Open Scope Z_scope.

(** ** White space *)

(** The length of the white space character a text starts with, 0 if there is none. *)
Definition white_len (s : string) : nat :=
  match s with
  | EmptyString => 0
  | String a s =>
      if ((9 <=? code a) && (code a <=? 13)) || (code a =? 32) then 1
      else match s with
      | EmptyString => 0
      | String b s =>
          if (code a =? 194) && ((code b =? 133) || (code b =? 160)) then 2
          else match s with
          | EmptyString => 0
          | String c _ =>
              let c := code c in let b := code b in let a := code a in
              if ((a =? 225) && (b =? 154) && (c =? 128))
                 || ((a =? 226) && (b =? 128)
                     && (((128 <=? c) && (c <=? 138)) || (c =? 168) || (c =? 169) || (c =? 175)))
                 || ((a =? 226) && (b =? 129) && (c =? 159))
                 || ((a =? 227) && (b =? 128) && (c =? 128))
              then 3 else 0
          end
      end
  end.

(** The first [skip] bytes belong to a character that was seen. *)
Fixpoint trim_start (skip : nat) (s : string) : string :=
  match s with
  | EmptyString => EmptyString
  | String a t =>
      match skip with
      | S skip => trim_start skip t
      | O => match white_len s with O => s | S n => trim_start n t end
      end
  end.

Fixpoint trim_end (s : string) : string :=
  match s with
  | EmptyString => EmptyString
  | String a t => if is_blank s then EmptyString else String a (trim_end t)
  end.

(** [s.trim()] *)
Definition trim (s : string) : string := trim_end (trim_start 0 s).

(** [s.split(|c| c == ',' || c.is_whitespace())] *)
Fixpoint split_list (skip : nat) (s : string) : list string :=
  match s with
  | EmptyString => [EmptyString]
  | String a t =>
      match skip with
      | S skip => split_list skip t
      | O =>
          if Ascii.eqb a ","%char then EmptyString :: split_list 0 t
          else match white_len s with
          | S n => EmptyString :: split_list n t
          | O => match split_list 0 t with
                 | p :: ps => String a p :: ps
                 | [] => [String a EmptyString]
                 end
          end
      end
  end.

(** ** Amounts *)

Definition U128_MAX : Z := 2 ^ 128 - 1.

Fixpoint all_digits (s : string) : bool :=
  match s with
  | EmptyString => true
  | String a s => match digit_of a with Some _ => all_digits s | None => false end
  end.

(** [parse::<u128>] of digits. *)
Definition parse_u128 (s : string) : option Z :=
  n ← parse_digits s 0; if n <=? U128_MAX then Some n else None.

Fixpoint pad_zeros (n : nat) : string :=
  match n with O => EmptyString | S n => String "0"%char (pad_zeros n) end.

(** The amount of the digits before and after the point. *)
Definition price_of_parts (s whole_str frac_str : string) : result Z string :=
  let invalid (why : string) : result Z string := Err ("invalid price '" +:+ s +:+ "': " +:+ why) in
  if (6 <? String.length frac_str)%nat then invalid "more than 6 fractional digits"
  else if negb (all_digits whole_str) then invalid "non-digit characters"
  else if negb (all_digits frac_str) then invalid "non-digit characters"
  else
    match (match whole_str with EmptyString => Some 0 | _ => parse_u128 whole_str end) with
    | None => invalid "number too large"
    | Some whole =>
        match parse_u128 (frac_str +:+ pad_zeros (6 - String.length frac_str)) with
        | None => invalid "number too large"
        | Some frac =>
            if U128_MAX <? whole * 1000000 then invalid "overflow"
            else if U128_MAX <? whole * 1000000 + frac then invalid "overflow"
            else let micro := whole * 1000000 + frac in
                 if 2 ^ 64 - 1 <? micro then invalid "overflow" else Ok micro
        end
    end.

Definition parse_algos_decimal_to_microalgos (s : string) : result Z string :=
  let t := trim s in
  if String.eqb t EmptyString then Err "price must not be empty"%string
  else if String.prefix "-" t then Err "price must be non-negative"%string
  else match split_on "."%char t with
  | [whole_str] => price_of_parts s whole_str EmptyString
  | [whole_str; frac_str] => price_of_parts s whole_str frac_str
  | _ => Err ("invalid price '" +:+ s +:+ "': too many decimal points")
  end.

(** ** STUN servers *)

Section Lists.
Context (parse_socket_addr_v6 : string -> option SocketAddr) (to_socket_addrs : string -> option (list SocketAddr)).

(** [p.parse::<SocketAddr>()] *)
Definition parse_socket_addr (p : string) : option SocketAddr :=
  match parse_socket_addr_v4 p with Some a => Some a | None => parse_socket_addr_v6 p end.

Definition cr : ascii := Ascii.ascii_of_nat 13.
Definition lf : ascii := Ascii.ascii_of_nat 10.

Fixpoint strip_cr (s : string) : string :=
  match s with
  | EmptyString => EmptyString
  | String a EmptyString => if Ascii.eqb a cr then EmptyString else s
  | String a t => String a (strip_cr t)
  end.

(** [s.lines()]: a final line end starts no line; a carriage return before one is dropped. *)
Fixpoint drop_last_empty (l : list string) : list string :=
  match l with
  | [] => []
  | [x] => if String.eqb x EmptyString then [] else [x]
  | x :: l => strip_cr x :: drop_last_empty l
  end.

Definition lines (s : string) : list string := drop_last_empty (split_on lf s).

(** The line up to the first [#]. *)
Definition without_comment (line : string) : string := hd EmptyString (split_on "#"%char line).

Definition cleaned (s : string) : string :=
  foldr (fun line rest => without_comment line +:+ String lf rest) EmptyString (lines s).

Fixpoint parse_entries (parts : list string) : result (list SocketAddr) string :=
  match parts with
  | [] => Ok []
  | part :: parts =>
      let p := trim part in
      if String.eqb p EmptyString then parse_entries parts
      else
        let direct := parse_socket_addr p in
        let v4 := a ← direct; if is_ipv4 (ip a) then Some a else None in
        let parsed := or_else v4 (l ← to_socket_addrs p; List.find (fun a => is_ipv4 (ip a)) l) in
        match parsed, direct with
        | Some addr, _ => let? rest := parse_entries parts in Ok (addr :: rest)
        | None, Some _ => parse_entries parts
        | None, None => Err ("Invalid STUN server entry '" +:+ p +:+ "': must be <host:port> or <ip:port>")
        end
  end.

Definition parse_stun_list (s : string) : result (list SocketAddr) string :=
  let? addrs := parse_entries (split_list 0 (cleaned s)) in
  match addrs with
  | [] => Err "No valid STUN servers provided"%string
  | _ => Ok addrs
  end.

(** ** The options of a node *)

Inductive LogMode : Type := Plain | ANSI | AWS | JS.

(** The chain configuration of [algo_ops], as a node file gives it. *)
Record AlgoChainConfig : Type := MkChainConfig {
  client_api_url : string; client_api_port : Z;
  indexer_api_url : string; indexer_api_port : Z;
  token : option string; token_key : option string;
  chain_app_id : option Z; chain_asset_id : option Z
}.

(** A node file, as read from its JSON. *)
Record NodeFile : Type := MkNodeFile {
  nf_network : option string;
  nf_client_api_url : string; nf_client_api_port : Z;
  nf_indexer_api_url : string; nf_indexer_api_port : Z;
  nf_token : option string; nf_token_key : option string;
  nf_app_id : option Z; nf_asset_id : option Z
}.

Record StartOptions : Type := MkStartOptions {
  handle : string;
  algo_passphrase : option string;
  static_ip : option SocketAddr;
  am_relay : bool;
  stun_servers : option (list SocketAddr);
  algo_provider_config : option AlgoChainConfig;
  algo_network : option string;
  app_id : option Z;
  asset_id : option Z;
  log_level : option string;
  handle_cache_expiry_secs : option Z;
  dangerous_debug : bool;
  log_mode : LogMode
}.

Context (read_file : string -> option string) (decode_node_file : string -> option NodeFile)
  (env : string -> option string) (default_chain_config : AlgoChainConfig).

Definition parse_stun_file (path : string) : result (list SocketAddr) string :=
  let? content := ok_or (read_file path) ("Failed to read STUN servers file '" +:+ path +:+ "'") in
  parse_stun_list content.

Definition parse_node_file_with_ids (path : string)
  : result (option string * AlgoChainConfig * option Z * option Z) string :=
  let? content := ok_or (read_file path) ("Failed to read node file '" +:+ path +:+ "'") in
  let? nf := ok_or (decode_node_file content) ("Failed to parse node file '" +:+ path +:+ "'") in
  Ok (nf_network nf,
      MkChainConfig (nf_client_api_url nf) (nf_client_api_port nf) (nf_indexer_api_url nf)
        (nf_indexer_api_port nf) (nf_token nf) (nf_token_key nf) (nf_app_id nf) (nf_asset_id nf),
      nf_app_id nf, nf_asset_id nf).

(** The identifiers, with those of the environment last. *)
Definition resolve_ids (node_app node_asset cli_app cli_asset : option Z) : result (Z * Z) string :=
  resolve_app_asset_ids (env "APP_ID" ≫= parse_u64) (env "ASSET_ID" ≫= parse_u64) node_app node_asset cli_app cli_asset.

Definition load_config_and_resolve_ids (node_file : option string) (cli_app cli_asset : option Z)
  : result (AlgoChainConfig * Z * Z) string :=
  let? (cfg, node_app, node_asset) :=
    match node_file with
    | Some path => let? (_, cfg, a, b) := parse_node_file_with_ids path in Ok (cfg, a, b)
    | None => Ok (default_chain_config, None, None)
    end in
  let? (app, asset) := resolve_ids node_app node_asset cli_app cli_asset in
  Ok (cfg, app, asset).

(** What the loop over the arguments has collected. *)
Record Collected : Type := MkCollected {
  c_handle : option string;
  c_passphrase : option string;
  c_relay : bool;
  c_static_ip : option SocketAddr;
  c_stun : option (list SocketAddr);
  c_node : option (option string * AlgoChainConfig * option Z * option Z);
  c_app : option Z;
  c_asset : option Z;
  c_log_level : option string;
  c_log_mode : LogMode;
  c_expiry : option Z
}.

Definition collected_none : Collected := MkCollected None None false None None None None None None Plain None.

(** An argument is a flag, a flag with a value, or neither.  A flag that takes a value has
    the message for when it is the last argument. *)
Inductive Flag : Type :=
| Switch (set : Collected -> Collected)
| Takes (missing : string) (set : string -> Collected -> result Collected string).

Definition number (name v : string) : result Z string :=
  ok_or (parse_u64 v) ("Invalid " +:+ name +:+ " '" +:+ v +:+ "'").

Definition parse_log_mode (v : string) : result LogMode string :=
  let l := map to_ascii_lowercase (chars v) in
  if decide (l = chars "plain") then Ok Plain
  else if decide (l = chars "ansi") then Ok ANSI
  else if decide (l = chars "aws") then Ok AWS
  else if decide (l = chars "js") then Ok JS
  else Err ("Invalid --log-mode '" +:+ v +:+ "': must be Plain|ANSI|AWS|JS").

Definition set_c_handle (h : string) (c : Collected) : Collected :=
  MkCollected (Some h) (c_passphrase c) (c_relay c) (c_static_ip c) (c_stun c) (c_node c) (c_app c) (c_asset c)
    (c_log_level c) (c_log_mode c) (c_expiry c).

Definition start_flags : list (string * Flag) := [
  ("--handle"%string, Takes "--handle requires a value" (fun v c => Ok (set_c_handle v c)));
  ("--passphrase"%string, Takes "--passphrase requires a value" (fun v c =>
     Ok (MkCollected (c_handle c) (Some v) (c_relay c) (c_static_ip c) (c_stun c) (c_node c) (c_app c)
           (c_asset c) (c_log_level c) (c_log_mode c) (c_expiry c))));
  ("--relay"%string, Switch (fun c =>
     MkCollected (c_handle c) (c_passphrase c) true (c_static_ip c) (c_stun c) (c_node c) (c_app c)
       (c_asset c) (c_log_level c) (c_log_mode c) (c_expiry c)));
  ("--static-ip"%string, Takes "--static-ip requires an <ip:port> value" (fun v c =>
     let? a := ok_or (parse_socket_addr v) ("Invalid --static-ip '" +:+ v +:+ "'") in
     Ok (MkCollected (c_handle c) (c_passphrase c) (c_relay c) (Some a) (c_stun c) (c_node c) (c_app c)
           (c_asset c) (c_log_level c) (c_log_mode c) (c_expiry c))));
  ("--stun-servers"%string, Takes "--stun-servers requires a value" (fun v c =>
     let? l := parse_stun_list v in
     Ok (MkCollected (c_handle c) (c_passphrase c) (c_relay c) (c_static_ip c) (Some l) (c_node c) (c_app c)
           (c_asset c) (c_log_level c) (c_log_mode c) (c_expiry c))));
  ("--stun-servers-file"%string, Takes "--stun-servers-file requires a <file> value" (fun v c =>
     let? l := parse_stun_file v in
     Ok (MkCollected (c_handle c) (c_passphrase c) (c_relay c) (c_static_ip c) (Some l) (c_node c) (c_app c)
           (c_asset c) (c_log_level c) (c_log_mode c) (c_expiry c))));
  ("--node-file"%string, Takes "--node-file requires a <file> value" (fun v c =>
     let? n := parse_node_file_with_ids v in
     Ok (MkCollected (c_handle c) (c_passphrase c) (c_relay c) (c_static_ip c) (c_stun c) (Some n) (c_app c)
           (c_asset c) (c_log_level c) (c_log_mode c) (c_expiry c))));
  ("--log-level"%string, Takes "--log-level requires a value (trace|debug|info|warn|error)" (fun v c =>
     Ok (MkCollected (c_handle c) (c_passphrase c) (c_relay c) (c_static_ip c) (c_stun c) (c_node c) (c_app c)
           (c_asset c) (Some v) (c_log_mode c) (c_expiry c))));
  ("--log-mode"%string, Takes "--log-mode requires a value (Plain|ANSI|AWS|JS)" (fun v c =>
     let? m := parse_log_mode v in
     Ok (MkCollected (c_handle c) (c_passphrase c) (c_relay c) (c_static_ip c) (c_stun c) (c_node c) (c_app c)
           (c_asset c) (c_log_level c) m (c_expiry c))));
  ("--app-id"%string, Takes "--app-id requires a value" (fun v c =>
     let? n := number "--app-id" v in
     Ok (MkCollected (c_handle c) (c_passphrase c) (c_relay c) (c_static_ip c) (c_stun c) (c_node c) (Some n)
           (c_asset c) (c_log_level c) (c_log_mode c) (c_expiry c))));
  ("--asset-id"%string, Takes "--asset-id requires a value" (fun v c =>
     let? n := number "--asset-id" v in
     Ok (MkCollected (c_handle c) (c_passphrase c) (c_relay c) (c_static_ip c) (c_stun c) (c_node c) (c_app c)
           (Some n) (c_log_level c) (c_log_mode c) (c_expiry c))));
  ("--handle-cache-expiry-secs"%string, Takes "--handle-cache-expiry-secs requires a <seconds> value" (fun v c =>
     let? n := number "--handle-cache-expiry-secs" v in
     Ok (MkCollected (c_handle c) (c_passphrase c) (c_relay c) (c_static_ip c) (c_stun c) (c_node c) (c_app c)
           (c_asset c) (c_log_level c) (c_log_mode c) (Some n))));
  ("--debug"%string, Switch (fun c => c));
  ("--auto-migrate"%string, Switch (fun c => c))
].

Fixpoint assoc {V} (k : string) (l : list (string * V)) : option V :=
  match l with
  | [] => None
  | (k', v) :: l => if decide (k = k') then Some v else assoc k l
  end.

Fixpoint collect (args : list string) (c : Collected) : result Collected string :=
  match args with
  | [] => Ok c
  | arg :: args =>
      match assoc arg start_flags with
      | Some (Switch set) => collect args (set c)
      | Some (Takes missing set) =>
          match args with
          | [] => Err missing
          | v :: args => let? c := set v c in collect args c
          end
      | None =>
          if String.prefix "-" arg then Err ("Unknown option: " +:+ arg)
          else match c_handle c with
          | None => collect args (set_c_handle arg c)
          | Some _ => Err ("Unexpected positional argument: " +:+ arg)
          end
      end
  end.

Definition missing_handle : string := "Missing handle: provide --handle <handle> or a positional <handle>".

(** After the loop: the handle, and the identifiers. *)
Definition finish_options (c : Collected) : result StartOptions string :=
  let? h := ok_or (c_handle c) missing_handle in
  let '(net, cfg, node_app, node_asset) :=
    match c_node c with
    | Some (net, cfg, a, b) => (net, Some cfg, a, b)
    | None => (None, None, None, None)
    end in
  let? _ := check_node_and_cli_ids node_app node_asset (c_app c) (c_asset c) in
  let '(app, asset) :=
    match resolve_ids node_app node_asset (c_app c) (c_asset c) with
    | Ok (a, b) => (Some a, Some b)
    | Err _ => (None, None)
    end in
  Ok (MkStartOptions h (c_passphrase c) (c_static_ip c) (c_relay c) (c_stun c) cfg net app asset
        (c_log_level c) (c_expiry c) false (c_log_mode c)).

Definition parse_start_options_from_args (args : list string) : result StartOptions string :=
  let? c := collect args collected_none in finish_options c.

Definition args_request_auto_migrate (args : list string) : bool :=
  existsb (fun a => String.eqb a "--auto-migrate") args.

(** ** The chat command *)

Inductive StoreForwardMode : Type := SfBoth | SfSend | SfReceive | SfNone.

Definition parse_store_forward (value : string) : result StoreForwardMode string :=
  if decide (value = "both"%string) then Ok SfBoth
  else if decide (value = "send"%string) then Ok SfSend
  else if decide (value = "receive"%string) then Ok SfReceive
  else if decide (value = "none"%string) then Ok SfNone
  else Err ("--store-forward expects one of both|send|receive|none, got '" +:+ value +:+ "'").

Definition gates (m : StoreForwardMode) : bool * bool :=
  match m with
  | SfBoth => (true, true)
  | SfSend => (true, false)
  | SfReceive => (false, true)
  | SfNone => (false, false)
  end.

Record ChatArgs : Type := MkChatArgs {
  ca_opts : StartOptions;
  ca_to : option string;
  ca_to_id : option string;
  ca_state_file : option string;
  ca_no_retries : bool;
  ca_store_forward : StoreForwardMode;
  ca_notify_url : option string;
  ca_poll_interval_secs : option Z;
  ca_auto_migrate : bool
}.

(** The flags of the chat command itself, and the arguments left for the options of the
    node. *)
Record ChatFlags : Type := MkChatFlags {
  cf_to : option string;
  cf_to_id : option string;
  cf_state_file : option string;
  cf_no_retries : bool;
  cf_store_forward : StoreForwardMode;
  cf_notify_url : option string;
  cf_poll_interval_secs : option Z;
  cf_auto_migrate : bool;
  cf_rest : list string
}.

Definition chat_flags_none : ChatFlags := MkChatFlags None None None false SfNone None None false [].

Inductive ChatFlag : Type :=
| ChatSwitch (set : ChatFlags -> ChatFlags)
| ChatTakes (missing : string) (set : string -> ChatFlags -> result ChatFlags string).

Definition takes_state_file : ChatFlag :=
  ChatTakes "--state_file requires a <file> value" (fun v f =>
    Ok (MkChatFlags (cf_to f) (cf_to_id f) (Some v) (cf_no_retries f) (cf_store_forward f) (cf_notify_url f)
          (cf_poll_interval_secs f) (cf_auto_migrate f) (cf_rest f))).
Definition switch_no_retries : ChatFlag :=
  ChatSwitch (fun f => MkChatFlags (cf_to f) (cf_to_id f) (cf_state_file f) true (cf_store_forward f)
                         (cf_notify_url f) (cf_poll_interval_secs f) (cf_auto_migrate f) (cf_rest f)).

Definition chat_flags : list (string * ChatFlag) := [
  ("--to"%string, ChatTakes "--to requires a <handle> value" (fun v f =>
     Ok (MkChatFlags (Some v) (cf_to_id f) (cf_state_file f) (cf_no_retries f) (cf_store_forward f)
           (cf_notify_url f) (cf_poll_interval_secs f) (cf_auto_migrate f) (cf_rest f))));
  ("--to-id"%string, ChatTakes "--to-id requires an <id> value" (fun v f =>
     Ok (MkChatFlags (cf_to f) (Some v) (cf_state_file f) (cf_no_retries f) (cf_store_forward f)
           (cf_notify_url f) (cf_poll_interval_secs f) (cf_auto_migrate f) (cf_rest f))));
  ("--state_file"%string, takes_state_file);
  ("--state-file"%string, takes_state_file);
  ("--no-retries"%string, switch_no_retries);
  ("--no-retry"%string, switch_no_retries);
  ("--store-forward"%string, ChatTakes "--store-forward requires a <both|send|receive|none> value" (fun v f =>
     let? m := parse_store_forward v in
     Ok (MkChatFlags (cf_to f) (cf_to_id f) (cf_state_file f) (cf_no_retries f) m
           (cf_notify_url f) (cf_poll_interval_secs f) (cf_auto_migrate f) (cf_rest f))));
  ("--notify"%string, ChatTakes "--notify requires a <url> value" (fun v f =>
     Ok (MkChatFlags (cf_to f) (cf_to_id f) (cf_state_file f) (cf_no_retries f) (cf_store_forward f)
           (Some v) (cf_poll_interval_secs f) (cf_auto_migrate f) (cf_rest f))));
  ("--poll-interval"%string, ChatTakes "--poll-interval requires a <secs> value" (fun v f =>
     let? secs := ok_or (parse_u64 v) ("--poll-interval expects a whole number of seconds, got '" +:+ v +:+ "'") in
     Ok (MkChatFlags (cf_to f) (cf_to_id f) (cf_state_file f) (cf_no_retries f) (cf_store_forward f)
           (cf_notify_url f) (Some secs) (cf_auto_migrate f) (cf_rest f))));
  ("--auto-migrate"%string, ChatSwitch (fun f =>
     MkChatFlags (cf_to f) (cf_to_id f) (cf_state_file f) (cf_no_retries f) (cf_store_forward f)
       (cf_notify_url f) (cf_poll_interval_secs f) true (cf_rest f)));
  ("--debug"%string, ChatSwitch (fun f => f));
  ("--info"%string, ChatSwitch (fun f => f));
  ("--warn"%string, ChatSwitch (fun f => f))
].

Definition push_rest (arg : string) (f : ChatFlags) : ChatFlags :=
  MkChatFlags (cf_to f) (cf_to_id f) (cf_state_file f) (cf_no_retries f) (cf_store_forward f)
    (cf_notify_url f) (cf_poll_interval_secs f) (cf_auto_migrate f) (cf_rest f ++ [arg]).

Fixpoint chat_collect (args : list string) (f : ChatFlags) : result ChatFlags string :=
  match args with
  | [] => Ok f
  | arg :: args =>
      match assoc arg chat_flags with
      | Some (ChatSwitch set) => chat_collect args (set f)
      | Some (ChatTakes missing set) =>
          match args with
          | [] => Err missing
          | v :: args => let? f := set v f in chat_collect args f
          end
      | None => chat_collect args (push_rest arg f)
      end
  end.

Definition HANDLE_FROM_STATE_FILE : string := "__bingle_chat_handle_from_state_file__".

Definition set_handle (h : string) (o : StartOptions) : StartOptions :=
  MkStartOptions h (algo_passphrase o) (static_ip o) (am_relay o) (stun_servers o) (algo_provider_config o)
    (algo_network o) (app_id o) (asset_id o) (log_level o) (handle_cache_expiry_secs o) (dangerous_debug o)
    (log_mode o).

Definition chat_options (state_file : option string) (rest : list string) : result StartOptions string :=
  match parse_start_options_from_args rest with
  | Ok o => Ok o
  | Err e =>
      if bool_decide (is_Some state_file) && String.prefix "Missing handle" e then
        let? o := parse_start_options_from_args (rest ++ [HANDLE_FROM_STATE_FILE]) in
        Ok (set_handle EmptyString o)
      else Err e
  end.

Definition parse_chat_args (args : list string) : result ChatArgs string :=
  let? f := chat_collect args chat_flags_none in
  if bool_decide (is_Some (cf_to f)) && bool_decide (is_Some (cf_to_id f))
  then Err "--to and --to-id are mutually exclusive"%string
  else
    let? o := chat_options (cf_state_file f) (cf_rest f) in
    Ok (MkChatArgs o (cf_to f) (cf_to_id f) (cf_state_file f) (cf_no_retries f) (cf_store_forward f)
          (cf_notify_url f) (cf_poll_interval_secs f) (cf_auto_migrate f)).
End Lists.

Definition DEFAULT_CHAT_POLL_SECS : Z := 20.

Definition resolve_poll_interval (secs : option Z) : Z :=
  match secs with
  | Some s => if 0 <? s then s else DEFAULT_CHAT_POLL_SECS
  | None => DEFAULT_CHAT_POLL_SECS
  end.

(** ** Decisions of [main.rs] *)

Inductive AppSupport : Type :=
| NoAppId
| Supported
| Superseded (app successor : Z).

Definition resolve_app_support (app successor : option Z) : AppSupport :=
  match app with
  | None => NoAppId
  | Some app => match successor with Some s => Superseded app s | None => Supported end
  end.

Inductive ShutdownAction : Type :=
| NoStaticIp
| ShutdownNoAppId
| NoPassphrase
| Unregister (app : Z) (pass : string) (cfg : option AlgoChainConfig) (asset : option Z).

Definition resolve_shutdown_action (o : StartOptions) (app_env : option Z) : ShutdownAction :=
  match static_ip o with
  | None => NoStaticIp
  | Some _ =>
      match or_else (app_id o) app_env with
      | None => ShutdownNoAppId
      | Some app =>
          match algo_passphrase o with
          | Some pass => Unregister app pass (algo_provider_config o) (asset_id o)
          | None => NoPassphrase
          end
      end
  end.

(** ** Theorems *)

Lemma split_on_cons c s : exists p ps, split_on c s = p :: ps.
Proof. induction s as [|a s (p & ps & IH)]; cbn; [eauto|]. destruct (Ascii.eqb a c); [eauto|]. rewrite IH. eauto. Qed.

(** The pieces and the separators between them are the text. *)
Lemma split_on_one c s w : split_on c s = [w] -> s = w.
Proof.
  revert w. induction s as [|a s IH]; cbn; intros w E; [by simplify_eq|].
  destruct (split_on_cons c s) as (p & ps & Es). rewrite Es in E, IH.
  destruct (Ascii.eqb a c); simplify_eq. by rewrite (IH p).
Qed.

Lemma split_on_two c s w f : split_on c s = [w; f] -> s = w +:+ String c f.
Proof.
  revert w. induction s as [|a s IH]; cbn; intros w E; [done|].
  destruct (split_on_cons c s) as (p & ps & Es). rewrite Es in E, IH.
  destruct (Ascii.eqb a c) eqn:Ea; simplify_eq.
  - apply Ascii.eqb_eq in Ea as ->. by rewrite (split_on_one _ _ _ Es).
  - cbn. by rewrite (IH p).
Qed.

Lemma digits_no_char c s : digit_of c = None -> all_digits s = true -> string_contains_char c s = false.
Proof.
  intros Hc. induction s as [|a s IH]; cbn; [done|]. destruct (digit_of a) eqn:Ea; [|done]. intros Hs.
  rewrite (IH Hs), orb_false_r. apply Ascii.eqb_neq. congruence.
Qed.

(** The number a text of digits is. *)
Definition digits_value (s : string) : Z := default 0 (parse_digits s 0).

Lemma parse_digits_all s acc : all_digits s = true <-> is_Some (parse_digits s acc).
Proof.
  revert acc. induction s as [|a s IH]; intros acc; cbn; [split; [eauto|done]|].
  destruct (digit_of a) as [d|]; [apply IH|]. split; [done|by intros [? ?]].
Qed.

Lemma digit_of_range a d : digit_of a = Some d -> 0 <= d <= 9.
Proof. unfold digit_of. intros E. case_match eqn:E1; [|done]. simplify_eq. apply andb_true_iff in E1 as [?%Z.leb_le ?%Z.leb_le]. lia. Qed.

Lemma parse_digits_ge s acc n : 0 <= acc -> parse_digits s acc = Some n -> 0 <= n.
Proof.
  revert acc. induction s as [|a s IH]; cbn; intros acc Ha E; [by simplify_eq|].
  destruct (digit_of a) as [d|] eqn:Ed; [|done]. pose proof (digit_of_range _ _ Ed). eapply IH; [|done]. lia.
Qed.

Lemma parse_digits_pad s acc k : 
  all_digits s = true -> parse_digits (s +:+ pad_zeros k) acc = (fun n => n * 10 ^ Z.of_nat k) <$> parse_digits s acc.
Proof.
  revert acc. induction s as [|a s IH]; cbn; intros acc Hs.
  - clear Hs. change (EmptyString +:+ pad_zeros k) with (pad_zeros k).
    revert acc. induction k as [|k IHk]; intros acc; cbn -[Z.pow Z.of_nat]; [f_equal; lia|].
    change (digit_of "0"%char) with (Some 0). cbn -[Z.pow Z.of_nat]. rewrite IHk. f_equal.
    rewrite Nat2Z.inj_succ, Z.pow_succ_r by lia. lia.
  - change (String a s +:+ pad_zeros k) with (String a (s +:+ pad_zeros k)). cbn.
    destruct (digit_of a) as [d|]; [|done]. by apply IH.
Qed.

Lemma digits_value_parse s : all_digits s = true -> parse_digits s 0 = Some (digits_value s) /\ 0 <= digits_value s.
Proof.
  intros Hs. unfold digits_value. apply (parse_digits_all _ 0) in Hs as [n E]. rewrite E. split; [done|].
  cbn. by eapply parse_digits_ge in E.
Qed.

(** A sum of whole Algos and millionths, as the text of a price says it. *)
Definition price_text (t w f : string) : Prop :=
  (t = w /\ f = EmptyString \/ t = w +:+ String "."%char f) /\
  t <> EmptyString /\ all_digits w = true /\ all_digits f = true /\ (String.length f <= 6)%nat.

Definition price_value (w f : string) : Z :=
  digits_value w * 10 ^ 6 + digits_value f * 10 ^ Z.of_nat (6 - String.length f).

(** What is computed from the two parts of a price. *)
Lemma price_of_parts_spec s w f n :
  price_of_parts s w f = Ok n <->
  (all_digits w = true /\ all_digits f = true /\ (String.length f <= 6)%nat) /\ n = price_value w f /\ n < 2 ^ 64.
Proof.
  unfold price_of_parts.
  destruct (Nat.ltb_spec 6 (String.length f)) as [Hl|Hl]; [split; [done|intros ((_ & _ & ?) & _); lia]|].
  destruct (all_digits w) eqn:Hw; [|split; [done|by intros ((? & _) & _)]].
  destruct (all_digits f) eqn:Hf; [|split; [done|by intros ((_ & ? & _) & _)]]. cbn [negb].
  destruct (digits_value_parse w Hw) as [Ew Gw]. destruct (digits_value_parse f Hf) as [Ef Gf].
  assert (match w with EmptyString => Some 0 | _ => parse_u128 w end =
          if digits_value w <=? U128_MAX then Some (digits_value w) else None) as ->.
  { destruct w as [|a w]; [done|]. unfold parse_u128. by rewrite Ew. }
  unfold parse_u128. rewrite parse_digits_pad, Ef by done. cbn [fmap option_fmap option_map mbind option_bind].
  unfold price_value. set (x := digits_value w) in *. set (y := digits_value f * 10 ^ Z.of_nat (6 - String.length f)).
  assert (0 <= y) as Gy by (unfold y; apply Z.mul_nonneg_nonneg; [done|]; apply Z.pow_nonneg; lia).
  change (10 ^ 6) with 1000000. unfold U128_MAX.
  assert (2 ^ 64 < 2 ^ 128 - 1) as H128 by (vm_compute; reflexivity).
  set (m := 2 ^ 128 - 1) in *. set (u := 2 ^ 64) in *.
  destruct (Z.leb_spec x m); [|split; [done|lia]].
  destruct (Z.leb_spec y m); [|split; [done|lia]].
  destruct (Z.ltb_spec m (x * 1000000)); [split; [done|lia]|].
  destruct (Z.ltb_spec m (x * 1000000 + y)); [split; [done|lia]|].
  cbv zeta. destruct (Z.ltb_spec (u - 1) (x * 1000000 + y)); [split; [done|lia]|].
  split; [intros E; simplify_eq; split_and!; [done..|lia]|]. by intros (_ & -> & _).
Qed.

(** In terms of the pieces the text is split into. *)
Lemma price_text_pieces t w f :
  price_text t w f <->
  (split_on "."%char t = [w] /\ f = EmptyString \/ split_on "."%char t = [w; f]) /\
  t <> EmptyString /\ all_digits w = true /\ all_digits f = true /\ (String.length f <= 6)%nat.
Proof.
  unfold price_text. split; intros (Ht & Hrest); (split; [|done]); destruct Hrest as (_ & Hw & Hf & _).
  - destruct Ht as [[-> ->]| ->]; [left|right].
    + split; [|done]. by apply split_on_none, digits_no_char.
    + rewrite split_on_app by by apply digits_no_char. by rewrite split_on_none by by apply digits_no_char.
  - destruct Ht as [[E ->]|E]; [left; by rewrite (split_on_one _ _ _ E)|right; by apply split_on_two].
Qed.

Lemma price_no_minus t w f : price_text t w f -> String.prefix "-" t = false.
Proof.
  intros (Ht & _ & Hw & _). assert (String.prefix "-" (w +:+ String "."%char f) = false /\ String.prefix "-" w = false) as [? ?].
  { destruct w as [|b w]; [done|]. change (String b w +:+ String "."%char f) with (String b (w +:+ String "."%char f)).
    cbn [String.prefix]. destruct (Ascii.ascii_dec "-"%char b) as [<-|]; [by vm_compute in Hw|done]. }
  by destruct Ht as [[-> _]| ->].
Qed.

(** (C40) The amount read from a text is the one the text says, to the microalgo: exactly the
    texts of at most six digits after the point whose amount fits 64 bits are read. *)
Theorem algos_exact s n :
  parse_algos_decimal_to_microalgos s = Ok n <->
  exists w f, price_text (trim s) w f /\ n = price_value w f /\ n < 2 ^ 64.
Proof.
  unfold parse_algos_decimal_to_microalgos. set (t := trim s).
  destruct (String.eqb_spec t EmptyString) as [Et|Et].
  { split; [done|]. by intros (w & f & (_ & Ht & _) & _). }
  destruct (String.prefix "-" t) eqn:Ea.
  { split; [done|]. intros (w & f & Hp & _). by rewrite (price_no_minus _ _ _ Hp) in Ea. }
  setoid_rewrite price_text_pieces. destruct (split_on_cons "."%char t) as (w & ps & Es). rewrite Es.
  destruct ps as [|f [|? ps]]; [| |split; [done|]; intros (w' & f' & ([[? _]|?] & _) & _); done].
  - rewrite price_of_parts_spec. split; [intros [? ?]; exists w, EmptyString; by auto|].
    intros (w' & f' & ([[? ->]|?] & _ & ?) & ?); by simplify_eq.
  - rewrite price_of_parts_spec. split; [intros [? ?]; exists w, f; by auto|].
    intros (w' & f' & ([[? ->]|?] & _ & ?) & ?); by simplify_eq.
Qed.

(** Only IPv4 servers are kept, and at least one. *)
Theorem stun_list_ipv4 v6 resolve s l :
  parse_stun_list v6 resolve s = Ok l -> l <> [] /\ Forall (fun a => is_ipv4 (ip a) = true) l.
Proof.
  unfold parse_stun_list. generalize (split_list 0 (cleaned s)) as parts.
  assert (forall parts l, parse_entries v6 resolve parts = Ok l -> Forall (fun a => is_ipv4 (ip a) = true) l) as Hall.
  { clear. induction parts as [|p parts IH]; cbn; intros l E; [simplify_eq; constructor|].
    destruct (String.eqb _ _); [by apply IH|].
    set (d := parse_socket_addr v6 (trim p)) in *.
    destruct (or_else _ _) as [a|] eqn:Ea; [|destruct d; [by apply IH|done]].
    destruct (parse_entries v6 resolve parts) as [l'|]; [|done]. cbn in E. simplify_eq.
    constructor; [|by apply IH]. destruct d as [x|]; cbn in Ea.
    - destruct (is_ipv4 (ip x)) eqn:Ex; cbn in Ea; [by simplify_eq|].
      destruct (resolve _); cbn in Ea; [by apply List.find_some in Ea as [_ ?]|done].
    - destruct (resolve _); cbn in Ea; [by apply List.find_some in Ea as [_ ?]|done]. }
  intros parts E. destruct (parse_entries v6 resolve parts) as [l'|] eqn:Ep; [|done]. cbn in E.
  destruct l'; [done|]. simplify_eq. split; [done|]. by eapply Hall.
Qed.

Section Handle.
Context (v6 : string -> option SocketAddr) (resolve : string -> option (list SocketAddr))
  (read_file : string -> option string) (decode : string -> option NodeFile) (env : string -> option string).

Abbreviation flags := (start_flags v6 resolve read_file decode).
Abbreviation collects := (collect v6 resolve read_file decode).

(** A flag other than the one for the handle leaves the handle. *)
Lemma flag_handle arg flag :
  assoc arg flags = Some flag ->
  match flag with
  | Switch set => forall c, c_handle (set c) = c_handle c
  | Takes _ set => forall v c c', set v c = Ok c' -> c_handle c' = c_handle c \/ c_handle c' = Some v
  end.
Proof using.
  unfold start_flags. cbn [assoc]. intros E.
  repeat (case_decide; [simplify_eq; try done; intros v c c' Ec; cbn in Ec;
    repeat match goal with H : result_bind ?r _ = Ok _ |- _ => destruct r; [cbn in H|done] end; simplify_eq; cbn; eauto|]).
  done.
Qed.

(** The handle collected is one of the arguments. *)
Lemma collect_handle n : forall args c c', (length args <= n)%nat ->
  collects args c = Ok c' -> c_handle c' = c_handle c \/ exists h, c_handle c' = Some h /\ h ∈ args.
Proof using.
  induction n as [|n IH]; intros [|arg args] c c' Hn E; cbn in Hn; cbn [collect] in E; try lia; [simplify_eq; by left..|].
  destruct (assoc arg flags) as [[set|missing set]|] eqn:Ef.
  - pose proof (flag_handle _ _ Ef) as Hf. cbn in Hf. destruct (IH args _ _ ltac:(lia) E) as [Hh|(h & Hh & Hin)].
    + left. by rewrite Hh.
    + right. exists h. split; [done|]. by right.
  - destruct args as [|v args]; [done|]. pose proof (flag_handle _ _ Ef) as Hf. cbn in Hf, Hn.
    destruct (set v c) as [c1|] eqn:Es; [|done]. cbn in E. destruct (IH args _ _ ltac:(lia) E) as [Hh|(h & Hh & Hin)].
    + destruct (Hf _ _ _ Es) as [Hc|Hc]; rewrite Hc in Hh; [by left|]. right. exists v. split; [done|]. right. by left.
    + right. exists h. split; [done|]. by do 2 right.
  - destruct (String.prefix "-" arg); [done|]. destruct (c_handle c) as [h|]; [done|].
    destruct (IH args _ _ ltac:(lia) E) as [Hh|(h & Hh & Hin)]; right.
    + exists arg. split; [done|]. by left.
    + exists h. split; [done|]. by right.
Qed.

(** What is left for the options of the node are arguments. *)
Lemma chat_rest n : forall args f f', (length args <= n)%nat ->
  chat_collect args f = Ok f' -> forall x, x ∈ cf_rest f' -> x ∈ cf_rest f \/ x ∈ args.
Proof using.
  assert (forall arg flag, assoc arg chat_flags = Some flag -> match flag with
    | ChatSwitch set => forall f, cf_rest (set f) = cf_rest f
    | ChatTakes _ set => forall v f f', set v f = Ok f' -> cf_rest f' = cf_rest f end) as Hflag.
  { unfold chat_flags. cbn [assoc]. intros arg flag E.
    repeat (case_decide; [simplify_eq; try done; intros v f f' Ef; cbn in Ef;
      repeat match goal with H : result_bind ?r _ = Ok _ |- _ => destruct r; [cbn in H|done] end; by simplify_eq|]).
    done. }
  induction n as [|n IH]; intros [|arg args] f f' Hn E x Hx; cbn in Hn; cbn [chat_collect] in E; try lia; [simplify_eq; by left..|].
  destruct (assoc arg chat_flags) as [[set|missing set]|] eqn:Ef.
  - pose proof (Hflag _ _ Ef) as Hf. destruct (IH args _ _ ltac:(lia) E x Hx) as [Hin|Hin]; [left; by rewrite Hf in Hin|].
    right. by right.
  - destruct args as [|v args]; [done|]. pose proof (Hflag _ _ Ef) as Hf. cbn in Hn.
    destruct (set v f) as [f1|] eqn:Es; [|done]. cbn in E. destruct (IH args _ _ ltac:(lia) E x Hx) as [Hin|Hin].
    + left. by rewrite (Hf _ _ _ Es) in Hin.
    + right. by do 2 right.
  - destruct (IH args _ _ ltac:(lia) E x Hx) as [Hin|Hin]; [|right; by right]. cbn in Hin.
    apply elem_of_app in Hin as [?| ->%list_elem_of_singleton]; [by left|]. right. by left.
Qed.

Lemma options_handle args o :
  parse_start_options_from_args v6 resolve read_file decode env args = Ok o -> handle o ∈ args.
Proof using.
  unfold parse_start_options_from_args. destruct (collects args collected_none) as [c|] eqn:Ec; [|done]. cbn [result_bind].
  unfold finish_options. destruct (c_handle c) as [h|] eqn:Eh; [|done]. cbn [ok_or result_bind].
  destruct (c_node c) as [[[[net cfg] na] ns]|]; destruct (check_node_and_cli_ids _ _ _ _); try done; cbn [result_bind];
    destruct (resolve_ids _ _ _ _ _) as [[app asset]|]; intros ?; simplify_eq; cbn;
    (destruct (collect_handle _ _ _ _ (Nat.le_refl _) Ec) as [Hh|(x & Hx & Hin)]; cbn in *; congruence).
Qed.

(** The handle the chat command is started with was given as an argument, unless there is a
    state file to take it from, and then it is empty: the placeholder that stands for it
    while the arguments are read is never used as a handle. *)
Theorem chat_handle_given args a :
  parse_chat_args v6 resolve read_file decode env args = Ok a ->
  handle (ca_opts a) ∈ args \/ (handle (ca_opts a) = EmptyString /\ is_Some (ca_state_file a)).
Proof using.
  unfold parse_chat_args. destruct (chat_collect args chat_flags_none) as [f|] eqn:Ef; [|done]. cbn [result_bind].
  destruct (_ && _); [done|]. unfold chat_options.
  destruct (parse_start_options_from_args v6 resolve read_file decode env (cf_rest f)) as [o|e] eqn:Eo; cbn [result_bind].
  - intros ?; simplify_eq; cbn. left. apply options_handle in Eo.
    destruct (chat_rest _ _ _ _ (Nat.le_refl _) Ef _ Eo) as [Hin|?]; [by apply elem_of_nil in Hin|done].
  - case_bool_decide as Hs; cbn [andb]; [|done]. destruct (String.prefix _ e); [|done].
    case (parse_start_options_from_args v6 resolve read_file decode env (cf_rest f ++ [HANDLE_FROM_STATE_FILE])) as [o|];
      cbn [result_bind]; intros ?; simplify_eq. by right.
Qed.
End Handle.

(** An identifier given alone is dropped without a word: with an application id on the
    command line and no asset id anywhere, the node starts without either. *)
Theorem lone_app_id_dropped :
  exists o, parse_start_options_from_args (fun _ => None) (fun _ => None) (fun _ => None) (fun _ => None) (fun _ => None)
    ["bob"; "--app-id"; "5"]%string = Ok o /\ app_id o = None /\ asset_id o = None.
Proof. eexists. split; [vm_compute; reflexivity|]. split; reflexivity. Qed.

Lemma chat_handle_given_witness :
  exists a, parse_chat_args (fun _ => None) (fun _ => None) (fun _ => None) (fun _ => None) (fun _ => None)
      ["--to"; "alice"; "--state_file"; "f"; "--store-forward"; "none"]%string = Ok a /\
    ca_to a = Some "alice"%string /\
    (handle (ca_opts a) ∈ ["--to"; "alice"; "--state_file"; "f"; "--store-forward"; "none"]%string \/
     (handle (ca_opts a) = EmptyString /\ is_Some (ca_state_file a))).
Proof.
  eexists. split; [vm_compute; reflexivity|]. split; [reflexivity|].
  refine (chat_handle_given (fun _ => None) (fun _ => None) (fun _ => None) (fun _ => None) (fun _ => None) _ _ _).
  vm_compute; reflexivity.
Defined.

Lemma stun_list_ipv4_witness :
  exists l, parse_stun_list (fun _ => None) (fun _ => Some [SockAddr (V6 1) 3; SockAddr (V4 9 9 9 9) 3])
      "1.2.3.4:5, stun.org:3"%string = Ok l /\ length l = 2%nat /\ Forall (fun a => is_ipv4 (ip a) = true) l.
Proof.
  eexists. split; [vm_compute; reflexivity|]. split; [reflexivity|].
  refine (proj2 (stun_list_ipv4 (fun _ => None) (fun _ => Some [SockAddr (V6 1) 3; SockAddr (V4 9 9 9 9) 3])
    "1.2.3.4:5, stun.org:3"%string _ _)).
  vm_compute; reflexivity.
Defined.
