(* ===== verification/CliChain.v ===== *)
(** * The command line: commands on the chain

    Models, of [src/bingle_cli/src/]: [account_check.rs], the check that an account is
    registered on the configured application; and of [main.rs] the commands that end after
    what they gave the chain: [register], [migrate], [buybingle] and [sellbingle].

    They run over the client of [Chain].  A command ends with a status, and a loop that
    waits for a node that cannot be reached is given a number of rounds: it may still be
    waiting when they are used up.  What the crate [algo_ops] adds to [AlgoNode] is a
    parameter: the address of a passphrase, the balance of an account, and which errors say
    that the node is unreachable. *)
From S2P Require Import Prelude NetAddr Advert LocalTypes Envelope Account Chain ChainRegistration JsiTypes CliArgs.

Local Open Scope Z_scope.

(** ** Is the account registered? *)

Inductive AccountReadiness : Type :=
| Registered
| NeedsMigration (ancestor : Z)
| Unregistered.

Definition classify_account (holds : bool) (ancestor : option Z) : AccountReadiness :=
  if holds then Registered
  else match ancestor with Some a => NeedsMigration a | None => Unregistered end.

Inductive WhenUnregistered : Type := UnregisteredFail | UnregisteredContinue.

(** How a command ends before its time; [Waiting] for a node that cannot be reached. *)
Inductive ended : Type := Exit (status : Z) | Waiting.

#[export] Instance ended_eq_dec : EqDecision ended.
Proof. solve_decision. Defined.

(** ** The arguments of the commands *)

Record CommandArgs : Type := MkCommandArgs {
  a_handle : option string;
  a_passphrase : option string;
  a_app_id : option Z;
  a_asset_id : option Z;
  a_price_units : option Z;
  a_node_file : option string
}.

Definition no_args : CommandArgs := MkCommandArgs None None None None None None.

(** A flag with the value after it; a value that is no number ends the command. *)
Definition common_flag (flag : string) : option (string -> CommandArgs -> option CommandArgs) :=
  if decide (flag = "--passphrase"%string) then
    Some (fun v a => Some (MkCommandArgs (a_handle a) (Some v) (a_app_id a) (a_asset_id a) (a_price_units a) (a_node_file a)))
  else if decide (flag = "--app-id"%string) then
    Some (fun v a => n ← Chain.parse_u64 v;
      Some (MkCommandArgs (a_handle a) (a_passphrase a) (Some n) (a_asset_id a) (a_price_units a) (a_node_file a)))
  else if decide (flag = "--asset-id"%string) then
    Some (fun v a => n ← Chain.parse_u64 v;
      Some (MkCommandArgs (a_handle a) (a_passphrase a) (a_app_id a) (Some n) (a_price_units a) (a_node_file a)))
  else if decide (flag = "--node-file"%string) then
    Some (fun v a => Some (MkCommandArgs (a_handle a) (a_passphrase a) (a_app_id a) (a_asset_id a) (a_price_units a) (Some v)))
  else if decide (flag = "--stun-servers"%string \/ flag = "--stun-servers-file"%string) then Some (fun _ a => Some a)
  else None.

(** [register] has two flags more. *)
Definition register_flag (flag : string) : option (string -> CommandArgs -> option CommandArgs) :=
  if decide (flag = "--handle"%string) then
    Some (fun v a => Some (MkCommandArgs (Some v) (a_passphrase a) (a_app_id a) (a_asset_id a) (a_price_units a) (a_node_file a)))
  else if decide (flag = "--price-units"%string) then
    Some (fun v a => n ← Chain.parse_u64 v;
      Some (MkCommandArgs (a_handle a) (a_passphrase a) (a_app_id a) (a_asset_id a) (Some n) (a_node_file a)))
  else common_flag flag.

Fixpoint command_args (flag_of : string -> option (string -> CommandArgs -> option CommandArgs))
    (args : list string) (a : CommandArgs) : result CommandArgs ended :=
  match args with
  | [] => Ok a
  | flag :: args =>
      match flag_of flag with
      | None => Err (Exit 2)
      | Some set =>
          match args with
          | [] => Err (Exit 2)
          | v :: args => match set v a with None => Err (Exit 2) | Some a => command_args flag_of args a end
          end
      end
  end.

Definition asks_help (args : list string) : bool :=
  existsb (fun a => String.eqb a "--help" || String.eqb a "-h") args.

Section Commands.
Context {W : Type} `{AlgoNode W} (unicode_alphanumeric : Z -> bool).
Context (read_file : string -> option string) (decode_node_file : string -> option NodeFile)
  (env : string -> option string) (default_chain_config : AlgoChainConfig).
Context (address_of : string -> option string) (account_balance : string -> W -> W * result (option Z) string)
  (unreachable : string -> bool).

(** Computations of a command. *)
Definition Cmd (B : Type) : Type := ST (chain W) (result B ended).

Definition checked {B} (r : result B ended) : Cmd B := fun s => (s, r).
Definition exits {B} (status : Z) : Cmd B := checked (Err (Exit status)).
Definition done_ {B} (b : B) : Cmd B := checked (Ok b).

(** A computation of the client, its error as a value. *)
Definition attempt {B} (m : CM W B) : Cmd (result B string) := fun s => let '(s, r) := m s in (s, Ok r).

Definition sleep (secs : Z) (s : chain W) : chain W := MkChain (cache s) (sleep_secs secs (world s)) (sent s).

(** The loops of [main.rs]: again in a minute while the node is unreachable. *)
Fixpoint until_reachable {B} (rounds : nat) (m : CM W B) : Cmd (result B string) :=
  match rounds with
  | O => checked (Err Waiting)
  | S rounds => fun s =>
      match m s with
      | (s, Err e) => if unreachable e then until_reachable rounds m (sleep 60 s) else (s, Ok (Err e))
      | (s, Ok b) => (s, Ok (Ok b))
      end
  end.

Definition readiness_on_chain (app : Z) (account : string) : CM W AccountReadiness :=
  held ← holds_handle app account;
  if (held : bool) then mret Registered
  else
    ancestor ← find_migratable_ancestor app account;
    mret (classify_account false ancestor).

(** What starts the engine checks the account first.  The client is that of the account
    [account], if its passphrase gives one. *)
Definition ensure_account_ready_or_exit (account : option string) (app asset : Z) (config_app : option Z)
    (auto_migrate : bool) (when_ : WhenUnregistered) : Cmd unit :=
  match account with
  | None => done_ tt
  | Some account =>
      let bingle := MkAlgoBingle (Some account) app asset config_app in
      let* _ := (if auto_migrate then
                   let* _ := attempt (Chain.ensure_local_migrated bingle app) in done_ tt
                 else done_ tt) in
      let* r := attempt (readiness_on_chain app account) in
      match r with
      | Ok Registered => done_ tt
      | Ok (NeedsMigration _) => exits 1
      | Ok Unregistered => match when_ with UnregisteredContinue => done_ tt | UnregisteredFail => exits 1 end
      | Err _ => done_ tt
      end
  end.

(** The client of a command, with its account. *)
Definition setup_chain_ops (node_file : option string) (cli_app cli_asset : option Z) (pass : string)
  : Cmd (AlgoBingle * string) :=
  match load_config_and_resolve_ids read_file decode_node_file env default_chain_config node_file cli_app cli_asset with
  | Err _ => exits 2
  | Ok (cfg, app, asset) =>
      match address_of pass with
      | None => exits 2
      | Some account => done_ (MkAlgoBingle (Some account) app asset (chain_app_id cfg), account)
      end
  end.

Definition required {B} (o : option B) : Cmd B := checked (ok_or o (Exit 2)).

Definition cmd_register (rounds : nat) (args : list string) : Cmd unit :=
  if asks_help args then exits 0
  else
    let* a := checked (command_args register_flag args no_args) in
    let* handle := required (a_handle a) in
    let* pass := required (a_passphrase a) in
    let* price_units := required (a_price_units a) in
    let* (bingle, account) := setup_chain_ops (a_node_file a) (a_app_id a) (a_asset_id a) pass in
    let* balance := until_reachable rounds (asks (account_balance account)) in
    match balance with
    | Err _ | Ok None => exits 2
    | Ok (Some b) =>
        if b <=? 0 then exits 2
        else
          let* held := attempt (asks (asset_holding account (Chain.asset_id bingle))) in
          if match held with Ok held => held <? price_units | Err _ => false end then exits 2
          else
            let* r := until_reachable rounds
                        (register unicode_alphanumeric bingle (Chain.app_id bingle) (Chain.asset_id bingle) handle price_units) in
            match r with Ok _ => done_ tt | Err _ => exits 1 end
    end.

Definition cmd_migrate (rounds : nat) (args : list string) : Cmd unit :=
  if asks_help args then exits 0
  else
    let* a := checked (command_args common_flag args no_args) in
    let* pass := required (a_passphrase a) in
    let* (bingle, _) := setup_chain_ops (a_node_file a) (a_app_id a) (a_asset_id a) pass in
    let* r := until_reachable rounds (Chain.ensure_local_migrated bingle (Chain.app_id bingle)) in
    match r with Ok _ => done_ tt | Err _ => exits 1 end.

(** The balance for a purchase or sale; what cannot be read counts as nothing. *)
Definition balance_or_zero (rounds : nat) (account : string) : Cmd Z :=
  let* balance := until_reachable rounds (asks (account_balance account)) in
  done_ (match balance with Ok (Some b) => b | _ => 0 end).

(** The optional price before the flags. *)
Definition first_price (args : list string) : result (option Z * list string) ended :=
  match args with
  | first :: rest =>
      if String.prefix "-" first then Ok (None, args)
      else match parse_algos_decimal_to_microalgos first with
      | Ok p => Ok (Some p, rest)
      | Err _ => Err (Exit 2)
      end
  | [] => Ok (None, [])
  end.

Definition cmd_buybingle (rounds : nat) (args : list string) : Cmd unit :=
  if asks_help args then exits 0
  else
    let* (wanted, args) := checked (first_price args) in
    let* a := checked (command_args common_flag args no_args) in
    let* pass := required (a_passphrase a) in
    let* (bingle, account) := setup_chain_ops (a_node_file a) (a_app_id a) (a_asset_id a) pass in
    let* balance := balance_or_zero rounds account in
    if balance <=? 0 then exits 2
    else
      let* onchain := until_reachable rounds (get_bingle_price (Chain.app_id bingle)) in
      match onchain with
      | Err _ => exits 1
      | Ok price =>
          if match wanted with Some p => negb (p =? price) | None => false end then exits 2
          else
            let* r := until_reachable rounds (buy_bingle bingle (Chain.app_id bingle) (Chain.asset_id bingle) price) in
            match r with Ok _ => done_ tt | Err _ => exits 1 end
      end.

Definition cmd_sellbingle (rounds : nat) (args : list string) : Cmd unit :=
  if asks_help args then exits 0
  else match args with
  | amount :: price :: args =>
      match Chain.parse_u64 amount, parse_algos_decimal_to_microalgos price with
      | Some amount, Ok price =>
          let* a := checked (command_args common_flag args no_args) in
          let* pass := required (a_passphrase a) in
          let* (bingle, account) := setup_chain_ops (a_node_file a) (a_app_id a) (a_asset_id a) pass in
          let* balance := balance_or_zero rounds account in
          if balance <=? 0 then exits 2
          else
            let* r := until_reachable rounds
                        (sell_bingle bingle (Chain.app_id bingle) (Chain.asset_id bingle) amount price) in
            match r with Ok _ => done_ tt | Err _ => exits 1 end
      | _, _ => exits 2
      end
  | _ => exits 2
  end.
End Commands.

(** ** What a command gives the node *)

Section Given.
Context {W : Type} `{AlgoNode W} (unicode_alphanumeric : Z -> bool).
Context (read_file : string -> option string) (decode_node_file : string -> option NodeFile)
  (env : string -> option string) (default_chain_config : AlgoChainConfig).
Context (address_of : string -> option string) (account_balance : string -> W -> W * result (option Z) string)
  (unreachable : string -> bool).

Abbreviation log := (list (string * request * bool)).

(** The computation adds to the log what [G] says of its result. *)
Definition adds {S B} (sent_of : S -> log) (m : ST S B) (G : B -> log -> Prop) : Prop :=
  forall s s' b, m s = (s', b) -> exists new, sent_of s' = sent_of s ++ new /\ G b new.

Abbreviation adding := (adds (sent (W := W))).

Lemma adds_checked {B} (r : result B ended) G : G r [] -> adding (checked r) G.
Proof using. intros HG s s' b [= <- <-]. exists []. by rewrite app_nil_r. Qed.

Lemma adds_try {B C} (m : Cmd B) (k : B -> Cmd C) (G1 : result B ended -> log -> Prop) (G : result C ended -> log -> Prop) :
  adding m G1 -> (forall e new, G1 (Err e) new -> G (Err e) new) ->
  (forall b, adding (k b) (fun r new => forall old, G1 (Ok b) old -> G r (old ++ new))) ->
  adding (st_try m k) G.
Proof using.
  intros Hm He Hk s s' r E. unfold st_try, mbind, ST_bind in E. destruct (m s) as [s1 [b|e]] eqn:Em.
  - destruct (Hm _ _ _ Em) as (old & H1 & G1'). destruct (Hk b _ _ _ E) as (new & H2 & G2).
    exists (old ++ new). rewrite H2, H1, <- app_assoc. split; [done|]. by apply G2.
  - injection E as <- <-. destruct (Hm _ _ _ Em) as (old & H1 & G1'). exists old. split; [done|]. by apply He.
Qed.

(** A step that gives nothing. *)
Definition nothing {B} (_ : B) (new : log) : Prop := new = [].

Lemma adds_try_nothing {B C} (m : Cmd B) (k : B -> Cmd C) G :
  adding m nothing -> (forall e, G (Err e) []) -> (forall b, adding (k b) G) -> adding (st_try m k) G.
Proof using.
  intros Hm He Hk. eapply adds_try; [exact Hm| |].
  - intros e new ->. apply He.
  - intros b s s' r E. destruct (Hk b _ _ _ E) as (new & ? & HG). exists new. split; [done|]. by intros old ->.
Qed.

Lemma adds_weaken {S B} (sent_of : S -> log) (m : ST S B) (G G' : B -> log -> Prop) :
  adds sent_of m G -> (forall b new, G b new -> G' b new) -> adds sent_of m G'.
Proof using. intros Hm HG s s' b E. destruct (Hm _ _ _ E) as (new & ? & ?). exists new. by auto. Qed.

(** Trying again adds what each attempt adds. *)
Lemma adds_until {B} rounds (m : CM W B) (P : string * request * bool -> Prop) (Q : log -> Prop) :
  adds (S := chain W) (B := result B string) sent m (fun r new => Forall P new /\ (is_ok r = true -> Q new)) ->
  (forall old new, Q new -> Q (old ++ new)) ->
  adding (until_reachable unreachable rounds m) (fun r new => Forall P new /\ (forall b, r = Ok (Ok b) -> Q new)).
Proof using.
  intros Hm HQ. induction rounds as [|rounds IH]; cbn [until_reachable]; [by apply adds_checked|].
  intros s s' r E. destruct (m s) as [s1 [b|e]] eqn:Em; destruct (Hm _ _ _ Em) as (n1 & H1 & F1 & Q1).
  - injection E as <- <-. exists n1. split; [done|]. split; [done|]. intros b' _. by apply Q1.
  - destruct (unreachable e).
    + destruct (IH _ _ _ E) as (n2 & H2 & F2 & Q2). exists (n1 ++ n2). cbn in H2. rewrite H2, H1, <- app_assoc.
      split; [done|]. split; [by apply Forall_app|]. intros b Hb. apply HQ. by eapply Q2.
    + injection E as <- <-. exists n1. split; [done|]. by split.
Qed.

Lemma adds_until_quiet {B} rounds (m : CM W B) : quiet m -> adding (until_reachable unreachable rounds m) nothing.
Proof using.
  intros Hm. eapply adds_weaken; [apply (adds_until rounds m (fun _ => False) (fun _ => True))|].
  - intros s s' r E. exists []. rewrite app_nil_r. split; [by eapply Hm|]. by split.
  - done.
  - intros r [|e new] [Hf _]; [done|]. by apply Forall_cons in Hf as [? _].
Qed.

Lemma adds_until_honest {B} rounds (m : CM W B) may :
  honest may m -> adding (until_reachable unreachable rounds m) (fun _ new => Forall (fun e => may e.1.1 e.1.2) new).
Proof using.
  intros Hm. eapply adds_weaken; [apply (adds_until rounds m (fun e => may e.1.1 e.1.2) (fun _ => True))|].
  - intros s s' r E. destruct (Hm _ _ _ E) as (new & ? & ? & _). by exists new.
  - done.
  - by intros r new [? _].
Qed.

(** A flag's value is an argument. *)
Lemma args_passphrase flag_of : 
  (forall flag set v a a', flag_of flag = Some set -> set v a = Some a' -> a_passphrase a' = a_passphrase a \/ a_passphrase a' = Some v) ->
  forall n args a a', (length args <= n)%nat -> command_args flag_of args a = Ok a' ->
  a_passphrase a' = a_passphrase a \/ exists p, a_passphrase a' = Some p /\ p ∈ args.
Proof using.
  intros Hset. induction n as [|n IH]; intros [|flag args] a a' Hn E; cbn in Hn, E; try lia; [simplify_eq; by left..|].
  destruct (flag_of flag) as [set|] eqn:Ef; [|done]. destruct args as [|v args]; [done|].
  destruct (set v a) as [a1|] eqn:Es; [|done]. cbn in Hn.
  destruct (IH args _ _ ltac:(lia) E) as [Hp|(p & Hp & Hin)].
  - destruct (Hset _ _ _ _ _ Ef Es) as [H1|H1]; rewrite H1 in Hp; [by left|]. right. exists v. split; [done|]. right. by left.
  - right. exists p. split; [done|]. by do 2 right.
Qed.

Lemma common_flag_pass flag set v a a' :
  common_flag flag = Some set -> set v a = Some a' -> a_passphrase a' = a_passphrase a \/ a_passphrase a' = Some v.
Proof using.
  unfold common_flag. intros E Es. repeat case_decide; try done; injection E as <-; cbn in Es;
    try (destruct (Chain.parse_u64 v); cbn in Es); try done; injection Es as <-; cbn; eauto.
Qed.

Lemma register_flag_pass flag set v a a' :
  register_flag flag = Some set -> set v a = Some a' -> a_passphrase a' = a_passphrase a \/ a_passphrase a' = Some v.
Proof using.
  unfold register_flag. intros E Es. repeat case_decide; [| |by eapply common_flag_pass]; injection E as <-; cbn in Es;
    try (destruct (Chain.parse_u64 v); cbn in Es); try done; injection Es as <-; cbn; eauto.
Qed.

(** The account of a command is that of a passphrase among its arguments. *)
Definition own_account (args : list string) (me : string) : Prop := exists pass, pass ∈ args /\ address_of pass = Some me.

Lemma adds_setup {C} flag_of args (k : CommandArgs -> Cmd C) G :
  (forall flag set v a a', flag_of flag = Some set -> set v a = Some a' -> a_passphrase a' = a_passphrase a \/ a_passphrase a' = Some v) ->
  (forall e, G (Err e) []) ->
  (forall a, (forall pass, a_passphrase a = Some pass -> pass ∈ args) -> adding (k a) G) ->
  adding (let* a := checked (command_args flag_of args no_args) in k a) G.
Proof using.
  intros Hset He Hk s s' r. unfold st_try, mbind, ST_bind, checked.
  destruct (command_args flag_of args no_args) as [a|e] eqn:Ea.
  - apply Hk. intros pass Hp. destruct (args_passphrase _ Hset _ _ _ _ (Nat.le_refl _) Ea) as [Hn|(p & Hp' & ?)]; cbn in *; congruence.
  - intros [= <- <-]. exists []. by rewrite app_nil_r.
Qed.

Lemma adds_required {B C} (o : option B) (k : B -> Cmd C) G :
  (forall e, G (Err e) []) -> (forall b, o = Some b -> adding (k b) G) -> adding (let* b := required o in k b) G.
Proof using.
  intros He Hk s s' r. unfold st_try, mbind, ST_bind, required, checked. destruct o as [b|]; cbn; [by apply Hk|].
  intros [= <- <-]. exists []. by rewrite app_nil_r.
Qed.

Lemma adds_ops {C} file app asset pass (k : AlgoBingle * string -> Cmd C) G :
  (forall e, G (Err e) []) ->
  (forall bingle me, address_of pass = Some me -> address bingle = Some me -> adding (k (bingle, me)) G) ->
  adding (let* x := setup_chain_ops read_file decode_node_file env default_chain_config address_of file app asset pass in k x) G.
Proof using.
  intros He Hk s s' r. unfold st_try, mbind, ST_bind, setup_chain_ops.
  destruct (load_config_and_resolve_ids _ _ _ _ _ _ _) as [[[cfg ap] as_]|];
    [|unfold exits, checked; intros [= <- <-]; exists []; by rewrite app_nil_r].
  destruct (address_of pass) as [me|] eqn:Em; unfold exits, done_, checked.
  - by apply Hk.
  - intros [= <- <-]. exists []. by rewrite app_nil_r.
Qed.

(** *** Every command signs for its own account *)

Inductive command : Type := CmdRegister | CmdMigrate | CmdBuy | CmdSell.

Definition run_command (c : command) (rounds : nat) (args : list string) : Cmd (W := W) unit :=
  match c with
  | CmdRegister => cmd_register unicode_alphanumeric read_file decode_node_file env default_chain_config address_of account_balance unreachable rounds args
  | CmdMigrate => cmd_migrate read_file decode_node_file env default_chain_config address_of unreachable rounds args
  | CmdBuy => cmd_buybingle read_file decode_node_file env default_chain_config address_of account_balance unreachable rounds args
  | CmdSell => cmd_sellbingle read_file decode_node_file env default_chain_config address_of account_balance unreachable rounds args
  end.

(** What is given is signed by the account of a passphrase among the arguments. *)
Definition signed_own (args : list string) (_ : result unit ended) (new : log) : Prop :=
  new = [] \/ exists me, own_account args me /\ Forall (fun e => e.1.1 = me) new.

Lemma signed_nothing args r : signed_own args r [].
Proof using. by left. Qed.

Lemma adds_exits {B} status G : G (Err (Exit status)) [] -> adding (exits status : Cmd B) G.
Proof using. apply adds_checked. Qed.

Lemma adds_last {B} rounds (m : CM W B) args pass me :
  pass ∈ args -> address_of pass = Some me -> honest (fun signer _ => signer = me) m ->
  adding (let* r := until_reachable unreachable rounds m in match r with Ok _ => done_ tt | Err _ => exits 1 end) (signed_own args).
Proof using.
  intros Hin Ha Hm. eapply adds_try; [by apply adds_until_honest| |].
  - intros e new Hf. right. exists me. split; [by exists pass|done].
  - intros [b|e]; apply adds_checked; intros old Hf; rewrite app_nil_r; right; exists me; (split; [by exists pass|done]).
Qed.

Lemma signed_more args (first : list string) r new :
  signed_own args r new -> signed_own (first ++ args) r new.
Proof using.
  intros [->|(me & (pass & Hin & Ha) & Hf)]; [by left|]. right. exists me. split; [|done].
  exists pass. split; [|done]. apply elem_of_app. by right.
Qed.

Lemma adds_balance {C} rounds account (k : Z -> Cmd C) G :
  (forall e, G (Err e) []) -> (forall b, adding (k b) G) ->
  adding (let* b := balance_or_zero account_balance unreachable rounds account in k b) G.
Proof using.
  intros He Hk. apply adds_try_nothing; [|done|done]. unfold balance_or_zero.
  apply adds_try_nothing; [by apply adds_until_quiet, quiet_asks|done|]. intros b. by apply adds_checked.
Qed.

Lemma honest_drop {B} may (m : CM W B) : honest may (_ ← m; mret tt) -> honest may m.
Proof using.
  intros Hm s s' r E. specialize (Hm s s'). unfold mbind, cm_bind in Hm. rewrite E in Hm.
  destruct r as [b|e]; by apply (Hm _ eq_refl).
Qed.

(** An operation of the client, as one of those that sign for their account only. *)
Lemma own_operation {B} A me (m : CM W B) o :
  address A = Some me -> (_ ← m; mret tt) = run_operation (fun _ => Err EmptyString) (fun _ => EmptyString) unicode_alphanumeric A o ->
  honest (fun signer _ => signer = me) m.
Proof using. intros Ha E. apply honest_drop. rewrite E. by apply operations_honest. Qed.

(** Nothing was given when a command ends before its operation. *)
Ltac stops := first [by apply adds_exits, signed_nothing | by intros; apply signed_nothing].

Lemma register_signs rounds args : adding (run_command CmdRegister rounds args) (signed_own args).
Proof using.
  cbn [run_command]. unfold cmd_register. destruct (asks_help args); [stops|].
  apply adds_setup; [exact register_flag_pass|stops|]. intros a Hpass.
  apply adds_required; [stops|]. intros h _. apply adds_required; [stops|]. intros pass Hp.
  apply adds_required; [stops|]. intros n _. apply adds_ops; [stops|]. intros bingle me Ha Hb.
  apply adds_try_nothing; [by apply adds_until_quiet, quiet_asks|stops|].
  intros [[b|]|]; [|stops..]. destruct (b <=? 0); [stops|].
  apply adds_try_nothing; [|stops|].
  { intros s s' r. unfold attempt. destruct (asks _ s) as [s1 x] eqn:E. intros [= <- <-]. exists [].
    rewrite app_nil_r. split; [by eapply quiet_asks|done]. }
  intros held. destruct (match held with Ok _ => _ | Err _ => _ end); [stops|].
  eapply adds_last; [by apply Hpass|done|]. by eapply (own_operation _ _ _ (OpRegister _ _ _ _)).
Qed.

Lemma migrate_signs rounds args : adding (run_command CmdMigrate rounds args) (signed_own args).
Proof using.
  cbn [run_command]. unfold cmd_migrate. destruct (asks_help args); [stops|].
  apply adds_setup; [exact common_flag_pass|stops|]. intros a Hpass.
  apply adds_required; [stops|]. intros pass Hp. apply adds_ops; [stops|]. intros bingle me Ha Hb.
  eapply adds_last; [by apply Hpass|done|]. by eapply (own_operation _ _ _ (OpMigrate _)).
Qed.

Lemma sell_signs rounds args : adding (run_command CmdSell rounds args) (signed_own args).
Proof using.
  cbn [run_command]. unfold cmd_sellbingle. destruct (asks_help args); [stops|].
  destruct args as [|amount [|price args]]; [stops..|]. destruct (Chain.parse_u64 amount) as [n|]; [|stops].
  destruct (parse_algos_decimal_to_microalgos price) as [p|]; [|stops].
  eapply adds_weaken; [|intros r new; apply (signed_more args [amount; price])].
  apply adds_setup; [exact common_flag_pass|stops|]. intros a Hpass.
  apply adds_required; [stops|]. intros pass Hp. apply adds_ops; [stops|]. intros bingle me Ha Hb.
  apply adds_balance; [stops|]. intros b. destruct (b <=? 0); [stops|].
  eapply adds_last; [by apply Hpass|done|]. by eapply (own_operation _ _ _ (OpSell _ _ _ _)).
Qed.

(** *** Buying *)

Definition buy_step (me : string) (app asset price : Z) (e : string * request * bool) : Prop :=
  e.1.1 = me /\ (e.1.2 = OptInAsset asset \/ exists addr, e.1.2 = buy_group app asset price addr).

Definition buy_taken (me : string) (app asset price : Z) (new : log) : Prop :=
  exists addr, (me, buy_group app asset price addr, true) ∈ new.

Lemma buy_adds A me app asset price :
  address A = Some me ->
  adds (S := chain W) (B := result string string) sent (buy_bingle A app asset price)
    (fun r new => Forall (buy_step me app asset price) new /\ (is_ok r = true -> buy_taken me app asset price new)).
Proof using.
  intros Ha s s' r E. unfold buy_bingle, positive in E.
  do 2 (apply cm_bind_inv in E as [(? & ->%ensure_err & ->)|(? & ? & [-> _]%ensure_ok & E)];
    [exists []; rewrite app_nil_r; by repeat split|]).
  apply cm_bind_inv in E as [(? & Eo & ->)|(? & s1 & Eo & E)];
    destruct (honest_opt_in A me (fun w r => w = me /\ r = OptInAsset asset) asset Ha ltac:(done) _ _ _ Eo)
      as (opts & Hs1 & Hf & _);
    (assert (Forall (buy_step me app asset price) opts) as Hopts
      by (eapply Forall_impl; [exact Hf|]; intros e [? ?]; split; [done|by left])); [by exists opts|].
  apply cm_bind_inv in E as [(? & Ea%quiet_asks & ->)|(addr & s2 & Ea%quiet_asks & E)];
    [exists opts; rewrite Ea; by repeat split|].
  unfold own_address in E. rewrite Ha in E. apply cm_bind_inv in E as [(? & ? & _)|(? & ? & [= <- <-] & E)]; [done|].
  unfold submits in E. destruct (submit me _ (world s2)) as [w z]. injection E as <- <-.
  exists (opts ++ [(me, buy_group app asset price addr, is_ok z)]). cbn. rewrite Ea, Hs1, <- app_assoc.
  split; [done|]. split.
  - apply Forall_app. split; [done|]. constructor; [|constructor]. split; [done|]. right. by exists addr.
  - intros Hz. exists addr. apply elem_of_app. right. rewrite Hz. by left.
Qed.

(** What a purchase gives the node. *)
Definition bought (args : list string) (r : result unit ended) (new : log) : Prop :=
  (new = [] /\ r <> Ok tt) \/
  exists me app asset price, own_account args me /\
    (exists s1 s2 : chain W, get_bingle_price app s1 = (s2, Ok price)) /\
    (forall first rest, args = first :: rest -> String.prefix "-" first = false ->
       parse_algos_decimal_to_microalgos first = Ok price) /\
    Forall (buy_step me app asset price) new /\ (r = Ok tt -> buy_taken me app asset price new).

Lemma bought_nothing args e : bought args (Err e) [].
Proof using. by left. Qed.

(** A price before the flags is the one wanted. *)
Lemma first_price_spec args wanted rest :
  first_price args = Ok (wanted, rest) ->
  (forall x, x ∈ rest -> x ∈ args) /\
  (forall first l, args = first :: l -> String.prefix "-" first = false ->
     exists p, wanted = Some p /\ parse_algos_decimal_to_microalgos first = Ok p).
Proof using.
  unfold first_price. destruct args as [|first l]; [by intros [= <- <-]|].
  destruct (String.prefix "-" first) eqn:Ep.
  - intros [= <- <-]. split; [done|]. intros f' l' [= <- <-]. by rewrite Ep.
  - destruct (parse_algos_decimal_to_microalgos first) as [p|] eqn:E; [|done]. intros [= <- <-].
    split; [by right|]. intros f' l' [= <- <-] _. eauto.
Qed.

(** The price was read before; it is paid. *)
Lemma adds_price {C} rounds app (k : result Z string -> Cmd C) G :
  (forall e, G (Err e) []) ->
  (forall x, (forall p, x = Ok p -> exists s1 s2 : chain W, get_bingle_price app s1 = (s2, Ok p)) -> adding (k x) G) ->
  adding (let* x := until_reachable unreachable rounds (get_bingle_price app) in k x) G.
Proof using.
  intros He Hk s s' r E. unfold st_try, mbind, ST_bind in E.
  destruct (until_reachable unreachable rounds (get_bingle_price app) s) as [s1 x] eqn:Ex.
  assert (quiet (W := W) (get_bingle_price app)) as Hq.
  { apply quiet_bind; [apply quiet_ensure|]. intros _. apply quiet_bind; [apply quiet_asks|]. intros y.
    destruct (extract_bingle_price y); [apply quiet_ret|apply quiet_fails]. }
  destruct (adds_until_quiet rounds _ Hq _ _ _ Ex) as (new & Hs & ->). rewrite app_nil_r in Hs.
  destruct x as [x|e]; [|injection E as <- <-; exists []; by rewrite app_nil_r].
  rewrite <- Hs. eapply Hk; [|exact E]. intros p ->. clear -Ex. revert s s1 Ex.
  induction rounds as [|n IH]; cbn [until_reachable]; intros s s1 Ex; [done|].
  destruct (get_bingle_price app s) as [s2 [q|e]] eqn:Eq; [injection Ex as <- <-; eauto|].
  destruct (unreachable e); [by eapply IH|done].
Qed.

Lemma buy_log rounds args :
  adding (cmd_buybingle read_file decode_node_file env default_chain_config address_of account_balance unreachable rounds args) (bought args).
Proof using.
  unfold cmd_buybingle.
  destruct (asks_help args); [by apply adds_exits, bought_nothing|].
  intros s s' r. unfold st_try at 1, mbind, ST_bind, checked at 1.
  destruct (first_price args) as [[wanted rest]|e] eqn:Ef;
    [|intros [= <- <-]; exists []; rewrite app_nil_r; split; [done|apply bought_nothing]].
  destruct (first_price_spec _ _ _ Ef) as [Hsub Hwant]. clear Ef. revert s s' r.
  apply adds_setup; [exact common_flag_pass|intros; apply bought_nothing|]. intros a Hpass.
  apply adds_required; [intros; apply bought_nothing|]. intros pass Hp.
  apply adds_ops; [intros; apply bought_nothing|]. intros bingle me Ha Hb.
  apply adds_balance; [intros; apply bought_nothing|]. intros b. destruct (b <=? 0); [by apply adds_exits, bought_nothing|].
  apply adds_price; [intros; apply bought_nothing|]. intros [price|e] Hprice; [|by apply adds_exits, bought_nothing].
  destruct (match wanted with Some p => negb (p =? price) | None => false end) eqn:Ew; [by apply adds_exits, bought_nothing|].
  assert (forall first l, args = first :: l -> String.prefix "-" first = false ->
    parse_algos_decimal_to_microalgos first = Ok price) as Hpaid.
  { intros first l E1 E2. destruct (Hwant _ _ E1 E2) as (p & -> & ->). f_equal. apply negb_false_iff in Ew. lia. }
  assert (forall r new, Forall (buy_step me (Chain.app_id bingle) (Chain.asset_id bingle) price) new ->
    (r = Ok tt -> buy_taken me (Chain.app_id bingle) (Chain.asset_id bingle) price new) -> bought args r new) as Hb'.
  { intros r new Hf Ht. right. exists me, (Chain.app_id bingle), (Chain.asset_id bingle), price.
    split; [exists pass; split; [by apply Hsub, Hpass|done]|]. eauto. }
  eapply adds_try; [apply (adds_until _ _ _ _ (buy_adds _ me _ _ _ Hb))| |].
  - intros old new (addr & Hin). exists addr. apply elem_of_app. by right.
  - intros e new [Hf _]. by apply Hb'.
  - intros [x|e]; apply adds_checked; intros old [Hf Ht]; rewrite app_nil_r; apply Hb'; try done. by intros _; eapply Ht.
Qed.

(** Buying the currency pays the price of the chain.  Whatever the node answers, and
    however often the command tries again, it gives the node only opting in to the asset and
    purchases, signed by the account of a passphrase among its arguments, at a price that was
    read from the application; a price on the command line that is another one, or no price
    at all, gives nothing; and the command succeeds only when the node took a purchase. *)
Theorem buying_pays_price rounds args s s' r :
  cmd_buybingle read_file decode_node_file env default_chain_config address_of account_balance unreachable rounds args s = (s', r) ->
  exists new, sent s' = sent s ++ new /\ bought args r new.
Proof using. intros E. by apply (buy_log rounds args). Qed.

(** A command signs for its own account only.  Whatever the node answers, and however
    often a command tries again, all that registering, migrating, buying and selling give the
    node is signed by the account of a passphrase among the arguments. *)
Theorem commands_sign_own c rounds args s s' r :
  run_command c rounds args s = (s', r) ->
  exists new, sent s' = sent s ++ new /\ signed_own args r new.
Proof using.
  revert s s' r. change (adding (run_command c rounds args) (signed_own args)).
  destruct c; [apply register_signs|apply migrate_signs| |apply sell_signs].
  eapply adds_weaken; [apply buy_log|]. intros r new [[-> _]|(me & app & asset & price & Ho & _ & _ & Hf & _)]; [by left|].
  right. exists me. split; [done|]. eapply Forall_impl; [exact Hf|]. by intros e [? _].
Qed.
End Given.

(** ** The check before the engine starts *)

Section Ready.
Context {W : Type} `{AlgoNode W} (local : W -> Z -> string -> option entries) (global : W -> Z -> string -> option (list Z))
  `{!ChainView W local global}.

(** The account has a state on no ancestor of the application. *)
Definition nowhere (s : chain W) (app : Z) (account : string) : Prop :=
  Forall (fun b => local (world s) b account = None) (lineage global s app).

Lemma readiness_spec app account s s' r :
  readiness_on_chain app account s = (s', r) ->
  sent s' = sent s /\
  match r with
  | Ok Registered => registered_on local s app account = true
  | Ok (NeedsMigration _) => registered_on local s app account = false /\ ~ nowhere s app account
  | Ok Unregistered => registered_on local s app account = false /\ nowhere s app account
  | Err _ => True
  end.
Proof using ChainView0.
  unfold readiness_on_chain. intros [(e & Eh & ->)|(held & s2 & Eh & Ex)]%cm_bind_inv;
    destruct (holds_handle_spec local global _ _ _ _ _ Eh) as [(Hl & Hg & Hs) Hb]; [done|].
  specialize (Hb _ eq_refl). destruct held; [by injection Ex as <- <-|].
  unfold nowhere, lineage. rewrite <- Hl, <- Hg, <- Hs, <- Hb.
  apply cm_bind_inv in Ex as [(e & Ef & ->)|(anc & s3 & Ef & [= <- <-])];
    destruct (find_ancestor_spec local global _ _ _ _ _ Ef) as [(_ & _ & Hs3) Ha]; [done|].
  destruct anc as [a|]; cbn [classify_account]; (split; [done|]); (split; [done|]); [|done].
  destruct Ha as (before & after & El & _ & Ha). unfold lineage in El. rewrite El.
  rewrite Forall_app, Forall_cons. tauto.
Qed.

(** The check before a node starts.  It gives the chain nothing; it refuses to start an
    account only when the chain says that the account has no handle on the application, and
    either has a state on an ancestor that was not migrated, or none anywhere and the command
    cannot register it; and it lets an account pass that is not registered only when the
    command can register it and it has no state anywhere, or when the chain could not be
    read. *)
Theorem start_check_sound account app asset cfg when_ s s' r :
  ensure_account_ready_or_exit (Some account) app asset cfg false when_ s = (s', r) ->
  sent s' = sent s /\
  match r with
  | Ok _ => registered_on local s app account = true \/
            (when_ = UnregisteredContinue /\ nowhere s app account) \/
            is_ok (readiness_on_chain app account s).2 = false
  | Err e => e = Exit 1 /\ registered_on local s app account = false /\
             (~ nowhere s app account \/ when_ = UnregisteredFail)
  end.
Proof using ChainView0.
  unfold ensure_account_ready_or_exit, st_try, mbind, ST_bind, done_, checked, attempt.
  destruct (readiness_on_chain app account s) as [s1 x] eqn:Ex. cbn [snd].
  destruct (readiness_spec _ _ _ _ _ Ex) as [Hs Hx]. rewrite <- Hs.
  destruct x as [[|a|]|e]; [| |destruct when_|]; intros [= <- <-]; cbn [is_ok]; (split; [done|]); try tauto.
Qed.
End Ready.

(** ** Witnesses *)

Module CommandExample.
Definition address_of (pass : string) : option string := if String.eqb pass "words" then Some "ME"%string else None.
Definition balance (_ : string) (n : OutageExample.node) : OutageExample.node * result (option Z) string := (n, Ok (Some 5000000)).
Definition unreachable (e : string) : bool := String.eqb e "indexer unreachable".
Definition nothing : string -> option string := fun _ => None.
Definition no_file : string -> option NodeFile := fun _ => None.
Definition config : AlgoChainConfig := MkChainConfig EmptyString 0 EmptyString 0 None None None None.
Definition ids : list string := ["--passphrase"; "words"; "--app-id"; "7"; "--asset-id"; "9"]%string.
Definition run (c : command) (args : list string) (scans : nat) :=
  run_command (fun _ => false) nothing no_file nothing config address_of balance unreachable c 5 args (OutageExample.start scans).
Definition buying : list string := "1.0"%string :: ids.
Definition selling : list string := "2"%string :: "0.5"%string :: ids.
Definition after_buying := Eval vm_compute in (run CmdBuy buying 9).1.
Definition after_selling := Eval vm_compute in (run CmdSell selling 9).1.
Definition on_ancestor := ChainExample.start [(5, "ME", [("Handle", "me")])]%string [(7, "AncestorApps"%string, to_be_bytes 8 5)] None.
Definition refused := Eval vm_compute in
  (ensure_account_ready_or_exit (Some "ME"%string) 7 9 None false UnregisteredContinue on_ancestor).1.
End CommandExample.

Lemma buying_pays_price_witness :
  exists new, sent CommandExample.after_buying = new /\
    bought (W := OutageExample.node) CommandExample.address_of CommandExample.buying (Ok tt) new.
Proof.
  assert (cmd_buybingle CommandExample.nothing CommandExample.no_file CommandExample.nothing CommandExample.config CommandExample.address_of
    CommandExample.balance CommandExample.unreachable 5 CommandExample.buying (OutageExample.start 9) =
    (CommandExample.after_buying, Ok tt)) as E by (vm_compute; reflexivity).
  exact (buying_pays_price _ _ _ _ _ _ _ _ _ _ _ _ E).
Defined.

Lemma commands_sign_own_witness :
  exists new, sent CommandExample.after_selling = new /\ signed_own CommandExample.address_of CommandExample.selling (Ok tt) new.
Proof.
  assert (CommandExample.run CmdSell CommandExample.selling 9 = (CommandExample.after_selling, Ok tt)) as E
    by (vm_compute; reflexivity).
  exact (commands_sign_own _ _ _ _ _ _ _ _ _ _ _ _ _ _ E).
Defined.

(** An account whose handle is on an ancestor of the application is refused. *)
Lemma start_check_sound_witness :
  sent CommandExample.refused = [] /\ registered_on ChainExample.local CommandExample.on_ancestor 7 "ME" = false.
Proof.
  assert (ensure_account_ready_or_exit (Some "ME"%string) 7 9 None false UnregisteredContinue CommandExample.on_ancestor =
    (CommandExample.refused, Err (Exit 1))) as E by (vm_compute; reflexivity).
  destruct (start_check_sound ChainExample.local ChainExample.global _ _ _ _ _ _ _ _ E) as (Hs & _ & Hr & _).
  split; [exact Hs|exact Hr].
Defined.

(** The same node, where the account holds five units. *)
Module HolderExample.
Record node : Type := Holder { inner : OutageExample.node }.

Definition via {B} (f : OutageExample.node -> OutageExample.node * B) (n : node) : node * B :=
  let '(m, b) := f (inner n) in (Holder m, b).

#[local] Instance algo_node : AlgoNode node := {
  fetch_opted_in_accounts_cached := fun app mode life c => via (fetch_opted_in_accounts_cached app mode life c);
  local_state_for_account := fun app a => via (local_state_for_account app a);
  app_global_bytes := fun app key => via (app_global_bytes app key);
  app_global_state := fun app => via (app_global_state app);
  get_app_local_schema := fun app => via (get_app_local_schema app);
  is_account_opted_in_to_asset := fun a asset => via (is_account_opted_in_to_asset a asset);
  asset_holding := fun _ _ n => (n, Ok 5);
  asset_reserve := fun asset => via (asset_reserve asset);
  contract_address := fun app => via (contract_address app);
  submit := fun signer r => via (submit signer r);
  submit_for_id := fun signer r => via (submit_for_id signer r);
  sleep_secs := fun n w => Holder (sleep_secs n (inner w))
}.

Definition balance (_ : string) (n : node) : node * result (option Z) string := (n, Ok (Some 5000000)).
Definition register_bob : chain node * result unit ended :=
  run_command (fun _ => false) CommandExample.nothing CommandExample.no_file CommandExample.nothing CommandExample.config CommandExample.address_of
    balance CommandExample.unreachable CmdRegister 5
    (["--handle"; "bob"; "--price-units"; "1"]%string ++ CommandExample.ids)
    (MkChain None (Holder (OutageExample.MkNode None 1)) []).
End HolderExample.

(** One call of [register] pays twice.  The node took the fee and the lookup that checks the
    result could not be made: the error is one that the command tries again on, and the
    second attempt finds the handle owned by the account, goes on and pays again. *)
Theorem register_command_pays_twice :
  HolderExample.register_bob.2 = Ok tt /\
  List.filter (fun e => is_group e.1.2) (sent HolderExample.register_bob.1) =
    [("ME", fee_group 7 9 1 "bob" "APP", true); ("ME", fee_group 7 9 1 "bob" "APP", true)]%string.
Proof. vm_compute. done. Qed.
