(* ===== verification/Chat.v ===== *)
(** * The chat command

    Models the chat session of the command line, [src/bingle_cli/src/]: [chat_state.rs] (the
    state file and the local store behind a session), [chat_register.rs] with
    [run_chat_startup] of [main.rs] (registering on first use), [chat_receive.rs],
    [chat_poll.rs], [chat_send.rs], [chat_repl.rs] and the loop of [run_chat_session].

    The state [Chat] is a session with the local client of [Account] and [LocalStore] it
    shares with its threads; [printed] is what it printed.  The sender of pending messages is
    the one of [SenderThreads], here the events it was sent.  The node is the class [NodeApi]
    of [Jsi]. *)
From S2P Require Import Prelude NetAddr Api LocalTypes SendRetry Mailbox Envelope Account LocalStore PendingSender JsiTypes Jsi CliArgs CliChain.
Import Account LocalTypes.

Local Open Scope Z_scope.

(** ** First use: what to do with the account *)

Inductive AccountStatus : Type :=
| NoKeypair
| AcUnfunded (id : string) (shortfall : Z)
| AcFunded (id : string)
| AcActive (id handle : string) (balance operating_min : Z).

Inductive CredentialGap : Type := NoAccount | FundedNeedsHandle.

Inductive StartupDecision : Type :=
| Proceed (handle : string)
| Register (handle : string)
| Fund (id : string) (needed : Z)
| NeedCredentials (gap : CredentialGap)
| HandleMismatch (existing supplied : string).

Definition decide_startup (status : AccountStatus) (cli_handle : option string) (have_passphrase : bool)
  : StartupDecision :=
  match status with
  | NoKeypair =>
      match have_passphrase, cli_handle with
      | true, Some handle => Register handle
      | _, _ => NeedCredentials NoAccount
      end
  | AcUnfunded id shortfall => Fund id shortfall
  | AcFunded _ =>
      match cli_handle with
      | Some handle => Register handle
      | None => NeedCredentials FundedNeedsHandle
      end
  | AcActive id handle balance operating_min =>
      if match cli_handle with Some supplied => negb (String.eqb supplied handle) | None => false end
      then HandleMismatch handle (default EmptyString cli_handle)
      else if balance <? operating_min then Fund id (operating_min - balance)
      else Proceed handle
  end.

(** How the start ends when there is no session. *)
Inductive StartupExit : Type :=
| ExitStatus (reason : string)
| ExitCredentials (gap : CredentialGap)
| ExitFund (id : string) (needed : Z)
| ExitMismatch (existing supplied : string)
| ExitNoPassphrase
| ExitImport (reason : string)
| ExitTaken (owner : string)
| ExitRegistration (reason : string)
| ExitNotReady.

Definition exit_status (e : StartupExit) : Z :=
  match e with ExitCredentials _ | ExitNoPassphrase | ExitImport _ => 2 | _ => 1 end.

Inductive RegisterError : Type := RegHandleTaken (owner : string) | RegOther (reason : string).

(** ** Recipients, input and what is printed *)

Inductive SendTarget : Type := TargetHandle (h : string) | TargetId (id : string).

Definition label (t : SendTarget) : string := match t with TargetHandle h => h | TargetId id => id end.

Inductive CurrentRecipient : Type :=
| NoRecipient
| RecipientHandle (handle : string) (id : option string)
| RecipientId (id : string).

Definition nonempty (o : option string) : option string :=
  s ← o; if String.eqb s EmptyString then None else Some s.

Definition recipient_from_args (to to_id : option string) : CurrentRecipient :=
  match nonempty to with
  | Some handle => RecipientHandle handle None
  | None => match nonempty to_id with Some id => RecipientId id | None => NoRecipient end
  end.

Definition prompt (r : CurrentRecipient) : string :=
  match r with
  | NoRecipient => "User? > "
  | RecipientHandle handle _ => "[" +:+ handle +:+ "] > "
  | RecipientId id => "[" +:+ id +:+ "] > "
  end.

Definition target (r : CurrentRecipient) : option SendTarget :=
  match r with
  | NoRecipient => None
  | RecipientHandle handle _ => Some (TargetHandle handle)
  | RecipientId id => Some (TargetId id)
  end.

Inductive ChatInput : Type :=
| InputEmpty
| InputExit
| InputSwitch (prefix : string)
| InputSend (text : string).

Definition parse_input (line : string) : ChatInput :=
  let trimmed := trim line in
  if String.eqb trimmed EmptyString then InputEmpty
  else if String.eqb trimmed "!exit" then InputExit
  else match trimmed with
  | String "/"%char prefix => InputSwitch (trim prefix)
  | _ => InputSend trimmed
  end.

Fixpoint all_bytes (f : Z -> bool) (s : string) : bool :=
  match s with EmptyString => true | String a s => f (Chain.code a) && all_bytes f s end.

(** 58 characters of base32. *)
Definition is_account_id (l : string) : bool :=
  (String.length l =? 58)%nat
  && all_bytes (fun b => ((65 <=? b) && (b <=? 90)) || ((50 <=? b) && (b <=? 55))) l.

Inductive Printed : Type :=
| ShowMessage (m : Message)
| ShowReport (line : string)
| ShowNotice (line : string).

Definition join (l : list string) : string := String.concat ", " l.

Definition offline_text (to : string) : string :=
  to +:+ " is offline; queued to their mailbox - they'll get it when they reconnect".

Definition report_line (r : SendReport) : option string :=
  let to := join (rep_recipients r) in
  match rep_outcome r, previously_failed r with
  | Delivered, false => None
  | Delivered, true => Some ("delivered to " +:+ to)
  | ForwardedTo _, _ => Some (offline_text to)
  | Retrying reason, false => Some ("! send to " +:+ to +:+ " not delivered (" +:+ reason +:+ "); will keep retrying")
  | Retrying _, true => None
  | Failed reason, _ => Some ("! send to " +:+ to +:+ " failed: " +:+ reason)
  end.

Definition retry_text : string := "it will be retried next time you start chat".

Definition shutdown_lines (r : ShutdownReport) : list string :=
  ((fun e => offline_text (join (se_recipients e))) <$> forwarded r) ++
  ((fun '(e, reason) =>
      let to := join (se_recipients e) in
      match reason with
      | StoreForwardOff => "! message to " +:+ to +:+ " not delivered (store-and-forward is off); " +:+ retry_text
      | PostFailed => "! message to " +:+ to +:+ " could not be posted to the mailbox; " +:+ retry_text
      | InFlight => "! message to " +:+ to +:+ " was still sending at exit; " +:+ retry_text
      | DeadlineReached => "! message to " +:+ to +:+ " not delivered before exit; " +:+ retry_text
      end) <$> not_sent r).

(** ** The session *)

Record Chat (W : Type) : Type := MkChat {
  local : LocalState;
  cworld : W;
  state_file : option string;
  chat_opts : CliArgs.StartOptions;
  known_contacts : gmap string string;
  sender_events : list SenderEvent;
  printed : list Printed;
  recipient : CurrentRecipient
}.
Arguments MkChat {W}. Arguments local {W}. Arguments cworld {W}. Arguments state_file {W}.
Arguments chat_opts {W}. Arguments known_contacts {W}. Arguments sender_events {W}. Arguments printed {W}.
Arguments recipient {W}.

Section Setters.
Context {W : Type}.
Implicit Types c : Chat W.

Definition set_client (l : LocalState) (w : W) c : Chat W :=
  MkChat l w (state_file c) (chat_opts c) (known_contacts c) (sender_events c) (printed c) (recipient c).
Definition set_known (k : gmap string string) c : Chat W :=
  MkChat (local c) (cworld c) (state_file c) (chat_opts c) k (sender_events c) (printed c) (recipient c).
Definition signal (e : SenderEvent) c : Chat W :=
  MkChat (local c) (cworld c) (state_file c) (chat_opts c) (known_contacts c) (sender_events c ++ [e]) (printed c) (recipient c).
Definition print_line (p : Printed) c : Chat W :=
  MkChat (local c) (cworld c) (state_file c) (chat_opts c) (known_contacts c) (sender_events c) (printed c ++ [p]) (recipient c).
Definition set_recipient (r : CurrentRecipient) c : Chat W :=
  MkChat (local c) (cworld c) (state_file c) (chat_opts c) (known_contacts c) (sender_events c) (printed c) r.
End Setters.

(** A passphrase or handle on the command line must be those of the state file. *)
Definition check_account_agreement (A : algo) (path stored_id : string) (stored_handle cli_passphrase : option string)
    (cli_handle : string) : result unit string :=
  let? _ := match cli_passphrase with
            | None => Ok tt
            | Some pass =>
                match address_from_passphrase A pass with
                | Err _ => Err "--passphrase is not a valid account mnemonic"%string
                | Ok cli_id =>
                    if String.eqb cli_id stored_id then Ok tt
                    else Err ("state file " +:+ path +:+ " belongs to " +:+ stored_id +:+ ", but --passphrase is " +:+ cli_id
                              +:+ "; use that account's state file or a new path")
                end
            end in
  match stored_handle with
  | Some stored =>
      if negb (String.eqb cli_handle EmptyString) && negb (String.eqb stored cli_handle)
      then Err ("state file " +:+ path +:+ " belongs to handle '" +:+ stored +:+ "', but --handle is '" +:+ cli_handle
                +:+ "'; use that account's state file or a new path")
      else Ok tt
  | None => Ok tt
  end.

(** The client's configuration for the command line. *)
Definition chat_config (args : ChatArgs) : LocalApiConfig :=
  let o := ca_opts args in
  let '(send, receive) := gates (ca_store_forward args) in
  let '(on_giveup, url) := match ca_notify_url args with Some url => (Some true, Some url) | None => (None, None) end in
  with_store_and_forward (Some send) (Some receive)
    (with_sidewinder (from_app_id (CliArgs.app_id o))
       (with_notify (default 0 (CliArgs.app_id o)) (default 0 (CliArgs.asset_id o)) on_giveup url)).

Definition set_account (pass : string) (handle : string) (o : CliArgs.StartOptions) : CliArgs.StartOptions :=
  CliArgs.MkStartOptions handle (Some pass) (static_ip o) (am_relay o) (stun_servers o) (algo_provider_config o)
    (algo_network o) (CliArgs.app_id o) (CliArgs.asset_id o) (log_level o) (handle_cache_expiry_secs o)
    (dangerous_debug o) (log_mode o).

Section Session.
Context {W SigningKey : Type} `{LocalWorld W} `{Sidewinder W} `{MailboxClient W} `{NodeApi W}.
Context (A : algo) (P : primitives SigningKey) (print : json -> string).
Context (post_registration_mbr : string -> Z -> Z -> W -> W * result Z BingleError).

Abbreviation C := (ST (Chat W)).

Definition in_node {B} (f : W -> W * B) : C B :=
  fun c => let '(w, b) := f (cworld c) in (set_client (local c) w c, b).

Definition on_client {B} (m : L (W := W) B) : C B :=
  fun c => let '((s, w), b) := m (local c, cworld c) in (set_client s w c, b).

Definition reads {B} (f : LocalState -> B) : C B := fun c => (c, f (local c)).

(** ** [ChatState] *)

(** The options with the account of the file, if it has one. *)
Definition file_account (path : string) (s : LocalState) (o : CliArgs.StartOptions)
  : result CliArgs.StartOptions string :=
  match keypair (acct s) with
  | None => Ok o
  | Some kp =>
      let? _ := check_account_agreement A path (key_id kp) (own_handle (acct s)) (algo_passphrase o) (CliArgs.handle o) in
      Ok (set_account (default (passphrase kp) (algo_passphrase o))
            (if String.eqb (CliArgs.handle o) EmptyString then default EmptyString (own_handle (acct s))
             else CliArgs.handle o) o)
  end.

(** The map from handles to ids, filled contact by contact. *)
Definition seed_contacts (l : list Contact) : gmap string string :=
  foldl (fun m x => <[contact_handle x := contact_id x]> m) ∅ l.

Definition from_chat_args (args : ChatArgs) (w : W) : W * result (Chat W) string :=
  let cfg := chat_config args in
  match validate_store_and_forward cfg with
  | Err e => (w, Err e)
  | Ok _ =>
      let fresh := LocalState_new cfg in
      let session w s o k := (w, Ok (MkChat s w (ca_state_file args) o k [] [] NoRecipient)) in
      match ca_state_file args with
      | None => session w fresh (ca_opts args) ∅
      | Some path =>
          let '(w, exists_) := file_exists path w in
          if (exists_ : bool) then
            let '(w, r) := read_state path w in
            match r with
            | Err e => (w, Err ("failed to load chat state from " +:+ path +:+ ": " +:+ error_to_string e))
            | Ok f =>
                let s := LocalStore.load f fresh in
                match file_account path s (ca_opts args) with
                | Err e => (w, Err e)
                | Ok o => session w s o (seed_contacts (LocalStore.get_contacts (st s)))
                end
            end
          else session w fresh (ca_opts args) ∅
      end
  end.

Definition save_state : C (result unit string) :=
  c ← get_st;
  match state_file c with
  | Some path =>
      r ← in_node (write_state path (LocalStore.save (local c)));
      mret (map_err (fun e => "failed to save chat state to " +:+ path +:+ ": " +:+ error_to_string e) r)
  | None => mret (Ok tt)
  end.

Definition record_message (sender : string) (recipients : list string) (at_ : Z) (message : json)
  : C (result (option Message) string) :=
  r ← on_client (LocalStore.add_received_message sender recipients at_ (str_field "text" message) (print message)
                   (str_field "cipher_suite" message) (get "sent_time" message ≫= as_i64) (str_field "signature" message));
  match r with
  | Err e => mret (Err (error_to_string e))
  | Ok None => mret (Ok None)
  | Ok (Some id) =>
      ms ← reads (fun s => LocalStore.get_messages (st s));
      mret (match find_message id ms with
            | Some m => Ok (Some m)
            | None => Err "message missing after add_message"%string
            end)
  end.

Definition resolve_recipient (handle : string) (c : Chat W) : option string := known_contacts c !! handle.

Definition knows_id (id : string) (c : Chat W) : bool := existsb (fun kv => String.eqb kv.2 id) (map_to_list (known_contacts c)).

Definition is_blocked_contact (id : string) (c : Chat W) : bool :=
  match LocalStore.is_blocked id (st (local c)) with Ok b => b | Err _ => false end.

Definition add_received_contact (handle id : string) : C (result unit string) :=
  r ← on_client (in_store (LocalStore.add_contact handle id Received));
  match r with
  | Err e => mret (Err (error_to_string e))
  | Ok _ => _ ← modify (fun c => set_known (<[handle := id]> (known_contacts c)) c); mret (Ok tt)
  end.

Definition lift_error {B} (m : C (result B BingleError)) : C (result B string) :=
  r ← m; mret (map_err error_to_string r).

Definition queue_outbound (recipient_handle text : string) : C (result string string) :=
  now ← on_client (outside epoch_ms);
  match now with
  | None => mret (Err "second time provided was later than self"%string)
  | Some t =>
      c ← get_st;
      let* id := lift_error (on_client (LocalStore.add_message (CliArgs.handle (chat_opts c)) [recipient_handle] t text None)) in
      let* _ := lift_error (on_client (LocalStore.update_message_status A P id 0 None None)) in
      let* _ := save_state in
      mret (Ok id)
  end.

Definition mark_delivered (id : string) : C (result unit string) :=
  let* _ := lift_error (on_client (LocalStore.update_message_status A P id 100 None None)) in save_state.

Definition mark_send_failed (id reason : string) (kind : option SendFailureKind) (permanent : bool)
  : C (result unit string) :=
  let* _ := lift_error (on_client (LocalStore.update_message_status A P id (if permanent then 100 else 0) (Some reason) kind)) in
  save_state.

Definition pending_outbound : C (list Message) := reads (fun s => LocalStore.get_pending_messages (st s)).

Definition is_handed_off (id : string) : C bool :=
  reads (fun s =>
    match find_message id (LocalStore.get_messages (st s)) with
    | Some m => bool_decide (progress m = Some 100) && bool_decide (failure_reason m = None)
    | None => false
    end).

Definition has_keypair : C bool := reads (fun s => bool_decide (is_Some (keypair (acct s)))).

Definition import_account (pass : string) : C (result unit string) :=
  r ← on_client (Account.import_keypair A pass);
  mret (match r with Ok _ => Ok tt | Err e => Err (error_to_string e) end).

(** The balance, and what the account must keep; what cannot be read blocks nobody. *)
Definition operating_funding : C (result (Z * Z) string) :=
  let* ops := lift_error (on_client Account.get_algo_ops) in
  let* balance := lift_error (in_node (chain_balance ops)) in
  c ← get_st;
  let app := default 0 (CliArgs.app_id (chat_opts c)) in
  let asset := default 0 (CliArgs.asset_id (chat_opts c)) in
  least ← (if app =? 0 then mret 0
           else r ← in_node (post_registration_mbr ops app asset);
                mret (match r with Ok m => m | Err _ => 0 end));
  mret (Ok (default 0 balance, least)).

Definition chat_account_status : C (result AccountStatus string) :=
  let* s := lift_error (on_client Account.keypair_status) in
  if decide (status s = "None"%string) then mret (Ok NoKeypair)
  else if decide (status s = "UNFUNDED"%string) then
    mret (Ok (AcUnfunded (default EmptyString (status_id s)) (default REQUIRED_ALGO (required_algo s))))
  else if decide (status s = "FUNDED"%string) then mret (Ok (AcFunded (default EmptyString (status_id s))))
  else if decide (status s = "ACTIVE"%string) then
    own ← reads (fun l => own_handle (acct l));
    let handle := default EmptyString (or_else (status_handle s) own) in
    let* (balance, least) := operating_funding in
    mret (Ok (AcActive (default EmptyString (status_id s)) handle balance least))
  else if decide (status s = "UPGRADE_REQUIRED"%string) then
    mret (Err "this client is out of date for the configured app; please upgrade to continue"%string)
  else mret (Err ("cannot determine account status ('" +:+ status s +:+ "'); is the Algorand node reachable?")).

Definition register_account (handle : string) : C (result unit RegisterError) :=
  r ← on_client (Account.register_keypair handle);
  match r with
  | Err (HandleTaken owner) => mret (Err (RegHandleTaken owner))
  | Err e => mret (Err (RegOther (error_to_string e)))
  | Ok _ => r ← save_state; mret (map_err RegOther r)
  end.

(** ** [run_chat_startup] *)

Definition resolve_status_or_exit : C (result AccountStatus StartupExit) :=
  r ← chat_account_status; mret (map_err ExitStatus r).

(** One round: a decision to register imports a key pair if there is none, and registers
    otherwise; both look at the account again. *)
Fixpoint startup_loop (n : nat) (status : AccountStatus) (cli_handle cli_passphrase : option string)
  : C (result string StartupExit) :=
  match n with
  | O => mret (Err ExitNotReady)
  | S n =>
      match decide_startup status cli_handle (bool_decide (is_Some cli_passphrase)) with
      | Proceed handle => mret (Ok handle)
      | NeedCredentials gap => mret (Err (ExitCredentials gap))
      | Fund id needed => mret (Err (ExitFund id needed))
      | HandleMismatch existing supplied => mret (Err (ExitMismatch existing supplied))
      | Register handle =>
          has ← has_keypair;
          if (has : bool) then
            r ← register_account handle;
            match r with
            | Ok _ => let* status := resolve_status_or_exit in startup_loop n status cli_handle cli_passphrase
            | Err (RegHandleTaken owner) => mret (Err (ExitTaken owner))
            | Err (RegOther msg) => mret (Err (ExitRegistration msg))
            end
          else
            match cli_passphrase with
            | None => mret (Err ExitNoPassphrase)
            | Some pass =>
                r ← import_account pass;
                match r with
                | Err e => mret (Err (ExitImport e))
                | Ok _ => let* status := resolve_status_or_exit in startup_loop n status cli_handle cli_passphrase
                end
            end
      end
  end.

Definition run_chat_startup (cli_handle cli_passphrase : option string) : C (result string StartupExit) :=
  let* status := resolve_status_or_exit in startup_loop 6 status cli_handle cli_passphrase.

(** ** [cmd_chat], up to the session *)

(** The check of [CliChain] for the account of a passphrase, on the application and asset. *)
Context (account_ready : string -> Z -> Z -> bool -> W -> W * result unit ended).

Definition check_ready (args : ChatArgs) (cli_passphrase : option string) : C (result unit ended) :=
  c ← get_st;
  match CliArgs.app_id (chat_opts c) with
  | None => mret (Ok tt)
  | Some app =>
      has ← has_keypair;
      ops ← (if (has : bool) then r ← on_client Account.get_algo_ops; mret (result_ok r) else mret cli_passphrase);
      match ops with
      | None => mret (Ok tt)
      | Some pass => in_node (account_ready pass app (default 0 (CliArgs.asset_id (chat_opts c))) (ca_auto_migrate args))
      end
  end.

(** The session starts, as a handle, or the command ends with a status. *)
Definition cmd_chat (args : ChatArgs) (w : W) : W * result (Chat W * string) Z :=
  let cli_handle := nonempty (Some (CliArgs.handle (ca_opts args))) in
  let cli_passphrase := algo_passphrase (ca_opts args) in
  match from_chat_args args w with
  | (w, Err _) => (w, Err 2)
  | (_, Ok c) =>
      match check_ready args cli_passphrase c with
      | (c, Err (Exit status)) => (cworld c, Err status)
      | (c, Err Waiting) => (cworld c, Err 1)
      | (c, Ok _) =>
          match run_chat_startup cli_handle cli_passphrase c with
          | (c, Ok handle) => (cworld c, Ok (set_recipient (recipient_from_args (ca_to args) (ca_to_id args)) c, handle))
          | (c, Err e) => (cworld c, Err (exit_status e))
          end
      end
  end.

(** ** Receiving *)

(** Neither [app] nor [type] is there, or it is null. *)
Definition is_plain (message : json) : bool :=
  let absent key := match get key message with None | Some JNull => true | _ => false end in
  absent "app"%string && absent "type"%string.

Definition display_handle (sender_id sender_handle : string) : string :=
  if is_blank sender_handle then sender_id else sender_handle.

Definition receive_message (sender_id sender_handle : string) (message : json) : C (option Message) :=
  match str_field "text" message with
  | None => mret None
  | Some _ =>
      if negb (is_plain message) then mret None
      else
        c ← get_st;
        if is_blocked_contact sender_id c then mret None
        else
          let shown := display_handle sender_id sender_handle in
          _ ← (if knows_id sender_id c then mret (Ok tt) else add_received_contact shown sender_id);
          now ← on_client Account.now_millis;
          stored ← record_message shown [CliArgs.handle (chat_opts c)] now message;
          match stored with
          | Ok (Some m) => _ ← save_state; mret (Some m)
          | _ => mret None
          end
  end.

(** The callback of the engine. *)
Definition on_message (sender sender_handle : string) (message : json) : C unit :=
  _ ← modify (signal (PeerSeen sender));
  _ ← (if String.eqb sender_handle EmptyString then mret tt else modify (signal (PeerSeen sender_handle)));
  received ← receive_message sender sender_handle message;
  match received with
  | Some m => modify (print_line (ShowMessage m))
  | None => mret tt
  end.

(** ** The mailbox *)

Definition save_shared : C unit :=
  c ← get_st;
  match state_file c with
  | Some path => _ ← in_node (write_state path (LocalStore.save (local c))); mret tt
  | None => mret tt
  end.

(** None when the fuel of the underlying loop is used up. *)
Definition poll_shared (fuel : nat) : C (option (list Message)) :=
  on ← reads (fun s => store_and_forward_receive (config s));
  if negb on then mret (Some [])
  else
    r ← on_client (LocalStore.poll_mailbox A P fuel);
    match r with
    | None => mret None
    | Some p =>
        _ ← (match poll_messages p with [] => mret tt | _ => save_shared end);
        mret (Some (poll_messages p))
    end.

Fixpoint show_read (read : list Message) : C unit :=
  match read with
  | [] => mret tt
  | m :: read =>
      _ ← modify (signal (PeerSeen (sender_handle m)));
      _ ← modify (print_line (ShowMessage m));
      show_read read
  end.

(** One pass of the thread that checks the mailbox. *)
Definition poller_pass (fuel : nat) : C unit :=
  r ← poll_shared fuel;
  match r with Some l => show_read l | None => mret tt end.

(** ** The loop over the input *)

Definition notice (line : string) : C unit := modify (print_line (ShowNotice line)).

(** One line of input; false when the session ends. *)
Definition repl_step (line : string) : C bool :=
  match parse_input line with
  | InputEmpty => mret true
  | InputExit => mret false
  | InputSwitch prefix =>
      if String.eqb prefix EmptyString then _ ← notice "usage: /<handle-prefix>"; mret true
      else
        r ← in_node (api_handle_lookup_partial prefix);
        match r with
        | Ok (Some (id, canonical)) =>
            _ ← modify (set_recipient (RecipientHandle canonical (Some id)));
            _ ← add_received_contact canonical id;
            mret true
        | Ok None => _ ← notice ("no handle matching '" +:+ prefix +:+ "'"); mret true
        | Err e => _ ← notice ("lookup failed: " +:+ error_to_string e); mret true
        end
  | InputSend text =>
      c ← get_st;
      match target (recipient c) with
      | None => _ ← notice "no recipient; use /<handle> to pick one, or start with --to"; mret true
      | Some t =>
          queued ← queue_outbound (label t) text;
          match queued with
          | Ok _ => _ ← modify (signal WakeSender); mret true
          | Err e => _ ← notice ("! send to " +:+ label t +:+ " failed: " +:+ e); mret true
          end
      end
  end.

(** The sender hands a message to the engine. *)
Definition deliver (recipient : string) (message : json) (w : W) : W * result bool BingleError :=
  if is_account_id recipient then api_send_to_id recipient message w else api_send_to_handle recipient message w.

(** A report of the sender. *)
Definition on_report (r : SendReport) : C unit :=
  match report_line r with Some line => modify (print_line (ShowReport line)) | None => mret tt end.
End Session.

(** ** The start converges *)

Section Startup.
Context {W : Type} `{LocalWorld W} `{NodeApi W}.
Context (A : algo) (post_registration_mbr : string -> Z -> Z -> W -> W * result Z BingleError).

Abbreviation C := (ST (Chat W)).
Abbreviation resolve_or_exit := (resolve_status_or_exit post_registration_mbr).

(** What the loop is for: an account is imported if there is none, registered if it is
    funded, and the last status decides. *)
Definition register_step (status : AccountStatus) (cli_handle : option string) : C (result AccountStatus StartupExit) :=
  match status, cli_handle with
  | AcFunded _, Some handle =>
      r ← register_account handle;
      match r with
      | Ok _ => resolve_or_exit
      | Err (RegHandleTaken owner) => mret (Err (ExitTaken owner))
      | Err (RegOther msg) => mret (Err (ExitRegistration msg))
      end
  | _, _ => mret (Ok status)
  end.

Definition import_step (status : AccountStatus) (cli_handle cli_passphrase : option string)
  : C (result AccountStatus StartupExit) :=
  match status, cli_handle, cli_passphrase with
  | NoKeypair, Some _, Some pass =>
      r ← import_account A pass;
      match r with Err e => mret (Err (ExitImport e)) | Ok _ => resolve_or_exit end
  | _, _, _ => mret (Ok status)
  end.

Definition conclude (d : StartupDecision) : result string StartupExit :=
  match d with
  | Proceed handle => Ok handle
  | NeedCredentials gap => Err (ExitCredentials gap)
  | Fund id needed => Err (ExitFund id needed)
  | HandleMismatch existing supplied => Err (ExitMismatch existing supplied)
  | Register _ => Err ExitNotReady
  end.

Definition startup_plan (cli_handle cli_passphrase : option string) : C (result string StartupExit) :=
  let* status := resolve_or_exit in
  let* status := import_step status cli_handle cli_passphrase in
  let* status := register_step status cli_handle in
  mret (conclude (decide_startup status cli_handle (bool_decide (is_Some cli_passphrase)))).

(** *** The status of the account *)

Definition live_status (s : string) : Prop := s = "ACTIVE"%string \/ s = "FUNDED"%string \/ s = "UNFUNDED"%string.

(** What is remembered of the last status is one that the chain gave; [k] is the key pair. *)
Definition steady (cfg : LocalApiConfig) (k : option Keypair) (sw : LocalState * W) : Prop :=
  (forall x, last_status (acct sw.1) = Some x -> live_status (status x)) /\ config sw.1 = cfg /\ keypair (acct sw.1) = k.

Definition status_of (k : option Keypair) (x : KeypairStatus) : Prop :=
  match k with
  | None => status x = "None"%string
  | Some _ => live_status (status x) \/ status x = "UPGRADE_REQUIRED"%string
  end.

Definition steady_result (cfg : LocalApiConfig) (k : option Keypair) (r : result KeypairStatus BingleError) (sw : LocalState * W) : Prop :=
  steady cfg k sw /\ forall x, r = Ok x -> status_of k x.

Lemma steady_outside {B} cfg k (f : W -> W * B) : keeps (steady cfg k) (outside f).
Proof using. intros [s w] Hs. unfold outside. by destruct (f w). Qed.

Lemma steady_ops cfg k : keeps (steady cfg k) get_algo_ops.
Proof using.
  intros [s w] (Hl & <- & <-). unfold get_algo_ops, mbind, ST_bind, get_state. cbn [fst].
  destruct (algo_ops (acct s)); [done|]. destruct (keypair (acct s)) eqn:Ek; done.
Qed.

Lemma steady_ret cfg k x : status_of k x -> triple (steady cfg k) (mret (Ok x)) (steady_result cfg k).
Proof using. intros Hx sw Hs. split; [done|]. by intros y [= <-]. Qed.

Lemma steady_get {B} cfg k (m : LocalState -> L (W := W) B) Q :
  (forall s, (forall x, last_status (acct s) = Some x -> live_status (status x)) -> config s = cfg -> keypair (acct s) = k ->
     triple (steady cfg k) (m s) Q) -> triple (steady cfg k) (get_state ≫= m) Q.
Proof using. intros Hm [s w] (Hl & Hc & Hk). by apply (Hm s Hl Hc Hk). Qed.

Lemma steady_update cfg k (f : account -> account) :
  (forall a, last_status (f a) = last_status a /\ keypair (f a) = keypair a) -> keeps (steady cfg k) (update_acct f : L (W := W) unit).
Proof using.
  intros Hf [s w] (Hl & Hc & Hk). destruct (Hf (acct s)) as [E1 E2]. cbn in *. unfold steady. cbn. rewrite E1, E2. split_and!; done.
Qed.

Lemma steady_memo cfg kp h : triple (steady cfg (Some kp)) (memo_status (key_id kp) h) (steady_result cfg (Some kp)).
Proof using.
  apply steady_get. intros s _ _ _. cbn zeta.
  set (active := mret (Ok (fresh_status "ACTIVE" (Some (key_id kp)) (Some h) None)) : L (W := W) _).
  assert (triple (steady cfg (Some kp)) active (steady_result cfg (Some kp))) as Hact by (apply steady_ret; by left; left).
  destruct (_ && _); [|exact Hact].
  eapply triple_bind; [apply steady_ops|]. intros [p|e]; [|exact Hact].
  eapply triple_bind; [apply steady_outside|]. intros [[succ|]|e]; [apply steady_ret; by right| |exact Hact].
  apply (triple_bind _ _ _ (fun _ => steady cfg (Some kp))); [by apply steady_update|]. intros _. exact Hact.
Qed.

Lemma steady_cache cfg k x : live_status (status x) -> keeps (steady cfg k) (cache_status x : L (W := W) unit).
Proof using.
  intros Hx [s w] (Hl & Hc & Hk). unfold cache_status, mbind, ST_bind, get_state. cbn.
  destruct (status_handle x); cbn; (split; [|done]); by intros y [= <-].
Qed.

Lemma steady_chain cfg kp : triple (steady cfg (Some kp)) (chain_status (key_id kp)) (steady_result cfg (Some kp)).
Proof using.
  apply steady_get. intros s _ _ _. cbn zeta.
  eapply (triple_bind _ _ _ (fun _ => steady cfg (Some kp))).
  { destruct (0 <? _); [|by intros sw Hs]. eapply triple_bind; [apply steady_ops|].
    intros [p|e]; [|by intros sw Hs]. eapply triple_bind; [apply steady_outside|]. by intros succ sw Hs. }
  intros []; [apply steady_ret; by right|].
  eapply triple_try; [apply steady_ops| |by intros e sw Hs].
  intros pass. eapply (triple_bind _ _ _ (fun r sw => steady cfg (Some kp) sw /\ forall x, r = Ok x -> live_status (status x))).
  { unfold account_status_from_chain. eapply triple_try; [apply steady_outside| |by intros e sw Hs].
    intros f. apply triple_ret. intros sw Hs. split; [done|]. intros x [= <-]. unfold keypair_status_from_facts, live_status.
    destruct (_ && _); [by left|]. destruct (_ <=? _); cbn; auto. }
  intros [x|e].
  - intros sw [Hs Hx]. specialize (Hx x eq_refl). revert sw Hs.
    apply (triple_bind _ _ _ (fun _ => steady cfg (Some kp))); [by apply steady_cache|]. intros _. apply steady_ret. by left.
  - eapply triple_conseq; [|by intros sw [Hs _]; exact Hs|done].
    apply steady_get. intros s' Hl _ _. apply triple_ret. intros sw Hs. split; [done|]. intros x.
    unfold status_or_last_known. destruct (algo_host_unreachable e); [|done].
    destruct (last_status (acct s')) as [y|] eqn:Ey; [|done]. intros [= <-]. left. exact (Hl y eq_refl).
Qed.

Lemma keypair_status_steady cfg k : triple (steady cfg k) keypair_status (steady_result cfg k).
Proof using.
  apply steady_get. intros s _ _ Hk. rewrite Hk. destruct k as [kp|]; [|by apply steady_ret].
  destruct (memo_valid s); [apply steady_memo|apply steady_chain].
Qed.

(** *** The same for a session: only the client and the world change *)

Definition framed (c0 c : Chat W) : Prop := exists s w, c = set_client s w c0.

Definition over (c0 : Chat W) (I : LocalState * W -> Prop) (c : Chat W) : Prop :=
  I (local c, cworld c) /\ framed c0 c.

Lemma framed_client c0 c s w : framed c0 c -> framed c0 (set_client s w c).
Proof using. intros (s1 & w1 & ->). by exists s, w. Qed.

Lemma over_client {B} c0 (m : L (W := W) B) I Q :
  triple I m Q -> triple (over c0 I) (on_client m) (fun b => over c0 (Q b)).
Proof using.
  intros Hm c [Hi Hf]. specialize (Hm _ Hi). unfold on_client. destruct (m (local c, cworld c)) as [[s w] b].
  split; [exact Hm|by apply framed_client].
Qed.

Lemma over_node {B} c0 (f : W -> W * B) I : (forall s w w', I (s, w) -> I (s, w')) -> keeps (over c0 I) (in_node f).
Proof using.
  intros Hw c [Hi Hf]. unfold in_node. destruct (f (cworld c)) as [w b]. split; [by eapply Hw|by apply framed_client].
Qed.

Lemma over_save c0 I : (forall s w w', I (s, w) -> I (s, w')) -> keeps (over c0 I) save_state.
Proof using.
  intros Hw c Hc. unfold save_state. cbv beta delta [mbind ST_bind get_st]. cbn. destruct (state_file c) as [path|]; [|exact Hc].
  pose proof (over_node c0 (write_state path (LocalStore.save (local c))) I Hw c Hc) as Hn.
  by destruct (in_node _ c) as [c1 r].
Qed.

Lemma steady_world cfg k s (w w' : W) : steady cfg k (s, w) -> steady cfg k (s, w').
Proof using. done. Qed.

Lemma over_lift {B} c0 I (m : C (result B BingleError)) Q :
  triple (over c0 I) m Q -> triple (over c0 I) (lift_error m) (fun r c => exists r', r = map_err error_to_string r' /\ Q r' c).
Proof using.
  intros Hm c Hc. specialize (Hm c Hc). unfold lift_error, mbind, ST_bind. destruct (m c) as [c1 r]. by exists r.
Qed.

Lemma over_funding c0 I :
  (forall s w w', I (s, w) -> I (s, w')) -> keeps I (get_algo_ops (W := W)) ->
  keeps (over c0 I) (operating_funding post_registration_mbr).
Proof using.
  intros Hw Hops. unfold operating_funding. eapply triple_try; [apply over_lift, over_client, Hops| |by intros e c (? & _ & ?)].
  intros ops.
  assert (keeps (over c0 I) (lift_error (in_node (chain_balance ops)))) as Hbal.
  { intros c Hc.
    destruct (over_lift c0 _ _ _ (over_node c0 (chain_balance ops) _ Hw) c Hc) as (r' & _ & Hr). exact Hr. }
  enough (keeps (over c0 I) (let* balance := lift_error (in_node (chain_balance ops)) in
    c ← get_st;
    least ← (if default 0 (CliArgs.app_id (chat_opts c)) =? 0 then mret 0
             else r ← in_node (post_registration_mbr ops (default 0 (CliArgs.app_id (chat_opts c)))
                                 (default 0 (CliArgs.asset_id (chat_opts c))));
                  mret (match r with Ok m => m | Err _ => 0 end));
    mret (Ok (default 0 balance, least)))) as Hk by (intros c (_ & _ & Hc); exact (Hk c Hc)).
  eapply triple_try; [exact Hbal| |done].
  intros b c Hc. cbv beta delta [mbind ST_bind get_st]. cbn. destruct (_ =? 0); [exact Hc|].
  pose proof (over_node c0 (post_registration_mbr ops (default 0 (CliArgs.app_id (chat_opts c)))
    (default 0 (CliArgs.asset_id (chat_opts c)))) _ Hw c Hc) as Hn.
  by destruct (in_node _ c) as [c1 r].
Qed.

(** The status of an account that has a key pair is not that of one that has none. *)
Definition status_for (k : option Keypair) (x : AccountStatus) : Prop := k = None <-> x = NoKeypair.

Lemma chat_status_over c0 cfg k :
  triple (over c0 (steady cfg k)) (chat_account_status post_registration_mbr)
    (fun r c => over c0 (steady cfg k) c /\ forall x, r = Ok x -> status_for k x).
Proof using.
  unfold chat_account_status.
  eapply triple_try; [apply over_lift, over_client, keypair_status_steady| |by intros e c (r & ? & (? & _) & ?)].
  intros s c (r & Hr & (Hs & Hx) & Hf). destruct r as [s'|]; [|done]. injection Hr as <-. specialize (Hx _ eq_refl).
  assert (over c0 (steady cfg k) c) as Hc by by split. unfold status_for.
  destruct (decide (status s = "None"%string)) as [E|E].
  { cbn. split; [done|]. intros x [= <-]. destruct k; [|done]. exfalso.
    destruct Hx as [[?|[?|?]]|?]; congruence. }
  assert (k <> None) as Hk by (intros ->; done).
  destruct (decide (status s = "UNFUNDED"%string)); [cbn; split; [done|]; by intros x [= <-]|].
  destruct (decide (status s = "FUNDED"%string)); [cbn; split; [done|]; by intros x [= <-]|].
  destruct (decide (status s = "ACTIVE"%string)).
  - cbv beta delta [mbind ST_bind reads]. cbn.
    pose proof (over_funding c0 _ (steady_world cfg k) (steady_ops cfg k) c Hc) as Hc1. unfold st_try, mbind, ST_bind.
    destruct (operating_funding _ c) as [c1 [[b l]|er]]; cbn in *; (split; [done|]); by intros x [= <-].
  - destruct (decide _); cbn; by split.
Qed.

Lemma resolve_over c0 cfg k :
  triple (over c0 (steady cfg k)) resolve_or_exit
    (fun r c => over c0 (steady cfg k) c /\ forall x, r = Ok x -> status_for k x).
Proof using.
  intros c Hc. pose proof (chat_status_over c0 cfg k c Hc) as [H1 H2]. unfold resolve_status_or_exit, mbind, ST_bind.
  destruct (chat_account_status _ c) as [c1 [x|e]]; cbn in *; (split; [done|]); [|done]. intros y [= <-]. by apply H2.
Qed.

(** *** Importing and registering *)

Lemma import_over c0 cfg k pass :
  triple (over c0 (steady cfg k)) (import_account A pass) (fun r c =>
    match r with
    | Ok _ => exists id, address_from_passphrase A pass = Ok id /\ over c0 (steady cfg (Some (MkKeypair id pass))) c
    | Err _ => over c0 (steady cfg k) c
    end).
Proof using.
  intros c [(Hl & Hc & Hk) Hf]. unfold import_account, mbind, ST_bind, on_client, Account.import_keypair.
  destruct (address_from_passphrase A pass) as [id|e] eqn:Ea; cbn.
  - exists id. split; [done|]. split; [|by apply framed_client]. by split_and!.
  - split; [by split_and!|by apply framed_client].
Qed.

(** A key pair whose handle the client remembers for its application. *)
Definition remembers (cfg : LocalApiConfig) (kp : Keypair) (h : string) (sw : LocalState * W) : Prop :=
  steady cfg (Some kp) sw /\ memo_valid sw.1 = Some h.

Lemma register_over c0 cfg kp h :
  triple (over c0 (steady cfg (Some kp))) (register_account h) (fun r c =>
    match r with
    | Ok _ => over c0 (remembers cfg kp h) c
    | Err _ => over c0 (steady cfg (Some kp)) c
    end).
Proof using.
  assert (triple (steady cfg (Some kp)) (Account.register_keypair h) (fun r sw =>
    match r with Ok _ => remembers cfg kp h sw | Err _ => steady cfg (Some kp) sw end)) as Hreg.
  { apply steady_get. intros s _ -> _. cbn zeta.
    destruct (cfg_app_id cfg =? 0); [by intros sw Hs|]. destruct (cfg_asset_id cfg =? 0); [by intros sw Hs|].
    eapply triple_try; [apply steady_ops| |by intros e sw Hs]. intros pass.
    eapply triple_try; [apply steady_outside| |by intros e sw Hs]. intros u.
    intros [s' w] (Hl & Hc & Hk). unfold mbind, ST_bind. cbn in *. split; [by split_and!|]. unfold memo_valid. cbn. rewrite Hc.
    by rewrite bool_decide_eq_true_2, orb_true_r by done. }
  intros c Hc. pose proof (over_client c0 _ _ _ Hreg c Hc) as Hr. unfold register_account, mbind, ST_bind.
  destruct (on_client _ c) as [c1 [u|e]]; cbn in Hr.
  - assert (keeps (over c0 (remembers cfg kp h)) save_state) as Hsave by by apply over_save.
    specialize (Hsave c1 Hr). destruct (save_state c1) as [c2 [u2|e2]]; cbn in *; [done|]. by destruct Hsave as [[? _] ?].
  - destruct e; exact Hr.
Qed.

(** With a handle it remembers, the account is active under it. *)
Lemma remembered_active c0 cfg kp h :
  triple (over c0 (remembers cfg kp h)) resolve_or_exit (fun r c =>
    forall x, r = Ok x -> exists id b l, x = AcActive id h b l).
Proof using.
  intros c [[Hs Hm] Hf]. cbn in Hm.
  assert (forall sw x, (keypair_status (local c, cworld c)) = (sw, Ok x) ->
    status x = "ACTIVE"%string /\ status_handle x = Some h \/ status x = "UPGRADE_REQUIRED"%string) as Hx.
  { intros sw x. unfold keypair_status, mbind, ST_bind, get_state. destruct Hs as (_ & _ & Hk). cbn in Hk. rewrite Hk, Hm.
    unfold memo_status, mbind, ST_bind, get_state. destruct (_ && _); [|intros [= _ <-]; by left].
    destruct (get_algo_ops _) as [[s1 w1] [p|e]]; [|intros [= _ <-]; by left].
    unfold successor_app, outside. destruct (chain_successor_app _ w1) as [w2 [[a|]|e]]; intros [= _ <-]; first [by left|by right]. }
  unfold resolve_status_or_exit, chat_account_status, st_try, lift_error, on_client, mbind, ST_bind.
  destruct (keypair_status (local c, cworld c)) as [[s1 w1] [x|e]]; [|done].
  specialize (Hx _ x eq_refl). cbn -[decide].
  destruct Hx as [[-> ->]| ->]; [|by repeat (rewrite decide_False by done)].
  repeat (rewrite decide_False by done). rewrite decide_True by done. unfold reads.
  cbn -[operating_funding]. destruct (operating_funding _ (set_client s1 w1 c)) as [c1 [[b l]|e]]; cbn; [|done].
  intros y [= <-]. eauto.
Qed.

(** *** The loop and the plan *)

Abbreviation loop := (startup_loop A post_registration_mbr).
Abbreviation decision status h p := (decide_startup status h (bool_decide (is_Some p))).

Definition registers (d : StartupDecision) : bool := match d with Register _ => true | _ => false end.

Lemma loop_final n status h (p : option string) (c : Chat W) :
  registers (decision status h p) = false -> loop (S n) status h p c = (c, conclude (decision status h p)).
Proof using. intros Hd. cbn [startup_loop]. destruct (decision status h p); done. Qed.

(** An account that is active under the handle asked for, or under any when none was. *)
Lemma active_no_register id hd b l h (p : option string) : registers (decision (AcActive id hd b l) h p) = false.
Proof using. cbn. destruct h as [s|]; [destruct (negb _)|]; cbn; try done; by destruct (b <? l). Qed.

Definition rest (status : AccountStatus) (h p : option string) : C (result string StartupExit) :=
  let* status := register_step status h in mret (conclude (decision status h p)).

Lemma has_keypair_over c0 cfg k c : over c0 (steady cfg k) c -> has_keypair c = (c, bool_decide (is_Some k)).
Proof using. intros [(_ & _ & Hk) _]. unfold has_keypair, reads. cbn in Hk. by rewrite Hk. Qed.

Lemma loop_rest n status c0 cfg kp h p c :
  over c0 (steady cfg (Some kp)) c -> status <> NoKeypair -> loop (S (S n)) status h p c = rest status h p c.
Proof using.
  intros Hc Hs. unfold rest, register_step.
  destruct (registers (decision status h p)) eqn:Er.
  - destruct status as [|id x|id|id hd b l]; [done..| |by rewrite active_no_register in Er]. destruct h as [h|]; [|done].
    cbn [startup_loop decide_startup]. unfold mbind at 1, ST_bind at 1.
    rewrite (has_keypair_over _ _ _ _ Hc), bool_decide_eq_true_2 by done.
    unfold st_try, mbind, ST_bind. pose proof (register_over c0 cfg kp h c Hc) as Hr.
    destruct (register_account h c) as [c1 [u|[owner|msg]]]; [|done..]. cbn in Hr.
    pose proof (remembered_active _ _ _ _ _ Hr) as Ha.
    destruct (resolve_or_exit c1) as [c2 [st|e]]; [|done]. cbn [fst snd] in Ha.
    destruct (Ha _ eq_refl) as (id' & b & l & ->).
    apply (loop_final n). apply active_no_register.
  - rewrite (loop_final (S n)) by done. destruct status; try done. by destruct h.
Qed.

Lemma startup_steady c0 cfg k h p c :
  over c0 (steady cfg k) c -> run_chat_startup A post_registration_mbr h p c = startup_plan h p c.
Proof using.
  intros Hc. unfold run_chat_startup, startup_plan. unfold st_try at 1 2, mbind at 1 2, ST_bind at 1 2.
  pose proof (resolve_over c0 cfg k c Hc) as [Hc1 Hx]. destruct (resolve_or_exit c) as [c1 [status|e]]; [|done].
  cbn [fst snd] in *. specialize (Hx _ eq_refl). fold (rest status h p).
  change (loop 6 status h p c1 = (let* status := import_step status h p in rest status h p) c1).
  unfold import_step, st_try at 1, mbind at 1, ST_bind at 1.
  destruct k as [kp|]; [assert (status <> NoKeypair) as Hs by (intros ->; destruct Hx as [_ ?]; naive_solver)|].
  - rewrite (loop_rest 4 status c0 cfg kp) by done. by destruct status.
  - assert (status = NoKeypair) as -> by by apply Hx. destruct h as [h|], p as [pass|]; [|done..].
    remember 5%nat as m eqn:Em. cbn [startup_loop decide_startup]. rewrite bool_decide_eq_true_2 by done.
    unfold mbind, ST_bind. rewrite (has_keypair_over _ _ _ _ Hc1), bool_decide_eq_false_2 by (by intros [? ?]).
    pose proof (import_over c0 cfg None pass c1 Hc1) as Hi. destruct (import_account A pass c1) as [c2 [u|e]]; [|done].
    cbn [fst snd] in Hi. destruct Hi as (id & _ & Hc2). unfold st_try at 1, mbind, ST_bind.
    pose proof (resolve_over c0 cfg _ c2 Hc2) as [Hc3 Hx3]. destruct (resolve_or_exit c2) as [c3 [status|e]]; [|done].
    cbn [fst snd] in *. subst m. apply (loop_rest 3 status c0 cfg (MkKeypair id pass)); [done|]. specialize (Hx3 _ eq_refl).
    intros ->. destruct Hx3 as [_ ?]; naive_solver.
Qed.

(** What the start has when it succeeds, and that neither the bound on the loop nor a
    missing passphrase is how it ends. *)
Definition started_with (k : option Keypair) (h p : option string) (kp : Keypair) (hd : string) : Prop :=
  (k = Some kp \/ (k = None /\ p = Some (passphrase kp) /\ address_from_passphrase A (passphrase kp) = Ok (key_id kp))) /\
  (h = None \/ h = Some hd).

Definition plan_post (c0 : Chat W) (cfg : LocalApiConfig) (k : option Keypair) (h p : option string)
    (r : result string StartupExit) (c : Chat W) : Prop :=
  r <> Err ExitNotReady /\ r <> Err ExitNoPassphrase /\
  forall hd, r = Ok hd -> exists kp, over c0 (steady cfg (Some kp)) c /\ started_with k h p kp hd.

Lemma post_exit c0 cfg k h p e c : e <> ExitNotReady -> e <> ExitNoPassphrase -> plan_post c0 cfg k h p (Err e) c.
Proof using. intros. split_and!; [congruence..|done]. Qed.

(** The end, with a key pair and a status that does not ask for registering. *)
Lemma conclude_post c0 cfg k h p kp st c :
  over c0 (steady cfg (Some kp)) c -> (forall hd, h = None \/ h = Some hd -> started_with k h p kp hd) ->
  registers (decision st h p) = false -> plan_post c0 cfg k h p (conclude (decision st h p)) c.
Proof using.
  intros Hc Hk Hr. destruct (decision st h p) as [hd| | | |] eqn:Ed; cbn in *; try done; try by apply post_exit.
  split_and!; [done..|]. intros hd' [= <-]. exists kp. split; [done|]. apply Hk.
  destruct st as [|? ?|?|id hd' b l]; cbn in Ed; [destruct (bool_decide _), h; done|done|by destruct h|].
  destruct h as [s|]; [|by left]. right. destruct (String.eqb_spec s hd'); cbn in Ed; [|done]. subst.
  destruct (b <? l); congruence.
Qed.

Lemma rest_post c0 cfg k h p kp st :
  (forall hd, h = None \/ h = Some hd -> started_with k h p kp hd) -> st <> NoKeypair ->
  triple (over c0 (steady cfg (Some kp))) (rest st h p) (plan_post c0 cfg k h p).
Proof using.
  intros Hk Hst c Hc. unfold rest, register_step, st_try, mbind, ST_bind.
  destruct (registers (decision st h p)) eqn:Er.
  - destruct st as [|? ?|id|id hd b l]; [done..| |by rewrite active_no_register in Er]. destruct h as [hd|]; [|done].
    pose proof (register_over c0 cfg kp hd c Hc) as Hr.
    destruct (register_account hd c) as [c1 [u|[owner|msg]]]; [|by apply post_exit..]. cbn in Hr.
    pose proof (remembered_active _ _ _ _ _ Hr) as Ha. destruct Hr as [[Hr _] Hf].
    pose proof (resolve_over c0 cfg _ c1 (conj Hr Hf)) as [Hc2 _].
    unfold resolve_status_or_exit, mbind, ST_bind in *.
    destruct (chat_account_status post_registration_mbr c1) as [c2 [st|e]]; cbn [fst snd map_err mret ST_ret] in *; [|by apply post_exit].
    cbn [fst snd map_err mret ST_ret] in *. destruct (Ha _ eq_refl) as (id' & b & l & ->).
    apply (conclude_post _ _ _ _ _ kp); [done..|]. apply active_no_register.
  - assert ((match st with AcFunded _ => match h with Some _ => false | None => true end | _ => true end) = true) as Hno.
    { destruct st; try done. by destruct h. }
    destruct st as [| |id|]; [done|..]; try (by apply (conclude_post _ _ _ _ _ kp)). destruct h; [done|].
    by apply (conclude_post _ _ _ _ _ kp).
Qed.

Lemma plan_ends c0 cfg k h p :
  triple (over c0 (steady cfg k)) (startup_plan h p) (plan_post c0 cfg k h p).
Proof using.
  intros c Hc. destruct (startup_plan h p c) as [c' r] eqn:E. cbn [fst snd]. unfold startup_plan in E.
  unfold st_try at 1, mbind at 1, ST_bind at 1, resolve_status_or_exit at 1, mbind at 1, ST_bind at 1 in E.
  pose proof (resolve_over c0 cfg k c Hc) as [Hc1 Hx]. unfold resolve_status_or_exit, mbind, ST_bind in Hc1, Hx.
  destruct (chat_account_status post_registration_mbr c) as [c1 [st|e]]; cbn [fst snd map_err mret ST_ret] in *;
    [|injection E as <- <-; by apply post_exit].
  specialize (Hx _ eq_refl). unfold st_try at 1, mbind at 1, ST_bind at 1, import_step in E. destruct k as [kp|].
  - assert (st <> NoKeypair) as Hst by (intros ->; destruct Hx as [_ ?]; naive_solver).
    assert (forall hd, h = None \/ h = Some hd -> started_with (Some kp) h p kp hd) as Hk by (intros hd Hh; split; [by left|done]).
    apply (triple_run _ _ _ c1 c' r (rest_post c0 cfg (Some kp) h p kp st Hk Hst) Hc1). by destruct st.
  - assert (st = NoKeypair) as -> by by apply Hx.
    destruct h as [h|], p as [pass|]; try (injection E as <- <-; by apply post_exit).
    pose proof (import_over c0 cfg None pass c1 Hc1) as Hi. unfold mbind at 1, ST_bind at 1 in E.
    destruct (import_account A pass c1) as [c2 [u|e]]; [|injection E as <- <-; by apply post_exit]. cbn [fst snd] in Hi.
    destruct Hi as (id & Hid & Hc2). pose proof (resolve_over c0 cfg _ c2 Hc2) as [Hc3 Hx3].
    unfold resolve_status_or_exit at 1, mbind at 1, ST_bind at 1 in E. unfold resolve_status_or_exit, mbind, ST_bind in Hc3, Hx3.
    destruct (chat_account_status post_registration_mbr c2) as [c3 [st|e]]; cbn [fst snd map_err mret ST_ret] in *;
      [|injection E as <- <-; by apply post_exit].
    specialize (Hx3 _ eq_refl). refine (triple_run _ _ _ c3 c' r (rest_post c0 cfg None (Some h) (Some pass) (MkKeypair id pass) st _ _) Hc3 E).
    + intros hd Hh. split; [right; by split_and!|done].
    + intros ->. destruct Hx3; naive_solver.
Qed.
End Startup.

(** ** A session that starts *)

Section Ready.
Context {W : Type} `{LocalWorld W} `{NodeApi W}.
Context (A : algo) (registered : string -> Z -> string -> Prop) `{!ChainTruth W A registered}.
Context (post_registration_mbr : string -> Z -> Z -> W -> W * result Z BingleError).
Context (account_ready : string -> Z -> Z -> bool -> W -> W * result unit ended).

Abbreviation C := (ST (Chat W)).
Abbreviation resolve_or_exit := (resolve_status_or_exit post_registration_mbr).

(** An active account is registered on the application under the handle of its status. *)
Definition active_ok (cfg : LocalApiConfig) (st : AccountStatus) (c : Chat W) : Prop :=
  match st with
  | AcActive _ hd _ _ => 0 < cfg_app_id cfg -> known registered (keypair (acct (local c))) (cfg_app_id cfg) hd
  | _ => True
  end.

Lemma J_world cfg k s (w w' : W) : J A registered cfg k (s, w) -> J A registered cfg k (s, w').
Proof using. done. Qed.

Lemma I_world cfg s (w w' : W) : Account.I A registered cfg (s, w) -> Account.I A registered cfg (s, w').
Proof using. done. Qed.

Lemma status_sound_over c0 cfg k :
  triple (over c0 (J A registered cfg k)) (chat_account_status post_registration_mbr)
    (fun r c => over c0 (J A registered cfg k) c /\ forall st, r = Ok st -> active_ok cfg st c).
Proof using ChainTruth0.
  unfold chat_account_status.
  eapply triple_try; [apply over_lift, over_client, keypair_status_sound; done| |by intros e c (r & ? & (? & _) & ?)].
  intros s c (r & Hr & (Hs & Hx) & Hf). destruct r as [s'|]; [|done]. injection Hr as <-. specialize (Hx _ eq_refl).
  assert (over c0 (J A registered cfg k) c) as Hc by by split.
  destruct (decide (status s = "None"%string)); [cbn; split; [done|]; by intros x [= <-]|].
  destruct (decide (status s = "UNFUNDED"%string)); [cbn; split; [done|]; by intros x [= <-]|].
  destruct (decide (status s = "FUNDED"%string)); [cbn; split; [done|]; by intros x [= <-]|].
  destruct (decide (status s = "ACTIVE"%string)) as [Ea|]; [|destruct (decide _); cbn; by split].
  destruct Hx as [Hsome Hknown]. destruct (Hsome Ea) as [hd Ehd].
  cbv beta delta [mbind ST_bind reads]. cbn.
  pose proof (over_funding post_registration_mbr c0 _ (J_world cfg k) (get_algo_ops_keeps A registered cfg k) c Hc) as Hc1.
  unfold st_try, mbind, ST_bind.
  destruct (operating_funding _ c) as [c1 [[b l]|er]]; cbn in *; (split; [done|]); [|done]. intros x [= <-].
  rewrite Ehd. cbn. intros Hp. destruct Hc1 as [(_ & _ & Hk) _]. cbn in Hk. rewrite Hk. by apply Hknown.
Qed.

(** The key pair of the moment. *)
Lemma over_keypair (c0 : Chat W) cfg c :
  over c0 (Account.I A registered cfg) c -> over c0 (J A registered cfg (keypair (acct (local c)))) c.
Proof using. intros [[? ?] ?]. by split; [split_and!|]. Qed.

Lemma resolve_sound_over c0 cfg :
  triple (over c0 (Account.I A registered cfg)) resolve_or_exit
    (fun r c => over c0 (Account.I A registered cfg) c /\ forall st, r = Ok st -> active_ok cfg st c).
Proof using ChainTruth0.
  intros c Hc. pose proof (status_sound_over c0 cfg _ c (over_keypair _ _ _ Hc)) as [[(? & ? & _) ?] Hx].
  unfold resolve_status_or_exit, mbind, ST_bind.
  destruct (chat_account_status _ c) as [c1 [x|e]]; cbn in *; (split; [by split; [split|]|]); [|done].
  intros y [= <-]. by apply Hx.
Qed.

Lemma I_import (c0 : Chat W) cfg pass : keeps (over c0 (Account.I A registered cfg)) (import_account A pass).
Proof using.
  intros c Hc. pose proof (over_client c0 _ _ _ (import_I A registered cfg pass) c Hc) as Hi.
  unfold import_account, mbind, ST_bind. by destruct (on_client _ c) as [c1 [x|e]].
Qed.

Lemma I_register (c0 : Chat W) cfg h : keeps (over c0 (Account.I A registered cfg)) (register_account h).
Proof using ChainTruth0.
  intros c Hc. pose proof (over_client c0 _ _ _ (register_I A registered cfg h) c Hc) as Hi.
  unfold register_account, mbind, ST_bind. destruct (on_client _ c) as [c1 [x|e]]; [|by destruct e].
  pose proof (over_save c0 _ (I_world cfg) c1 Hi) as Hs. by destruct (save_state c1) as [c2 [?|?]].
Qed.

(** What a step that looks at the account again leaves. *)
Definition looked_at (c0 : Chat W) (cfg : LocalApiConfig) (r : result AccountStatus StartupExit) (c : Chat W) : Prop :=
  over c0 (Account.I A registered cfg) c /\ forall st, r = Ok st -> active_ok cfg st c.

Lemma import_looked c0 cfg st h p :
  triple (looked_at c0 cfg (Ok st)) (import_step A post_registration_mbr st h p) (looked_at c0 cfg).
Proof using ChainTruth0.
  intros c Hc. unfold import_step. destruct st, h, p; try exact Hc.
  pose proof (I_import c0 cfg s0 c (proj1 Hc)) as Hi. unfold mbind, ST_bind.
  destruct (import_account A s0 c) as [c1 [u|e]]; [|by split]. by apply resolve_sound_over.
Qed.

Lemma register_looked c0 cfg st h :
  triple (looked_at c0 cfg (Ok st)) (register_step post_registration_mbr st h) (looked_at c0 cfg).
Proof using ChainTruth0.
  intros c Hc. unfold register_step. destruct st, h; try exact Hc.
  pose proof (I_register c0 cfg s c (proj1 Hc)) as Hi. unfold mbind, ST_bind.
  destruct (register_account s c) as [c1 [u|[o|m]]]; [|by split..]. by apply resolve_sound_over.
Qed.

Lemma plan_registered c0 cfg h p :
  triple (over c0 (Account.I A registered cfg)) (startup_plan A post_registration_mbr h p) (fun r c =>
    forall hd, r = Ok hd -> over c0 (Account.I A registered cfg) c /\
      (0 < cfg_app_id cfg -> known registered (keypair (acct (local c))) (cfg_app_id cfg) hd)).
Proof using ChainTruth0.
  unfold startup_plan. eapply triple_try; [apply resolve_sound_over| |by intros].
  intros st. eapply triple_try; [apply import_looked| |by intros].
  intros st1. eapply triple_try; [apply register_looked| |by intros].
  intros st2. apply triple_ret. intros c [Hc Hst] hd E. split; [done|]. specialize (Hst _ eq_refl).
  destruct st2 as [|? ?|?|id hd' b l]; cbn in E; [destruct (bool_decide _), h; done|done|by destruct h|].
  destruct (match h with Some _ => _ | None => _ end); [done|]. destruct (b <? l); [done|]. injection E as <-. exact Hst.
Qed.

(** *** The session before the start *)

(** What a file says of its account holds. *)
Definition file_true (f : SavedState) : Prop :=
  (forall kp, sv_keypair f = Some kp \/ sv_recovery_keypair f = Some kp -> address_from_passphrase A (passphrase kp) = Ok (key_id kp)) /\
  (forall h app kp, sv_own_handle f = Some h -> sv_own_handle_app_id f = Some app -> 0 < app ->
     sv_keypair f = Some kp -> registered (key_id kp) app h).

(** The options of a session name the account of its store, once it has one. *)
Definition agreed (args : ChatArgs) (c : Chat W) : Prop :=
  (CliArgs.handle (ca_opts args) <> EmptyString -> CliArgs.handle (chat_opts c) = CliArgs.handle (ca_opts args)) /\
  match keypair (acct (local c)) with
  | None => algo_passphrase (chat_opts c) = algo_passphrase (ca_opts args)
  | Some kp => exists pass, algo_passphrase (chat_opts c) = Some pass /\
      (pass = passphrase kp \/ address_from_passphrase A pass = Ok (key_id kp))
  end.

Lemma file_account_agreed path s o o' :
  file_account A path s o = Ok o' ->
  (CliArgs.handle o <> EmptyString -> CliArgs.handle o' = CliArgs.handle o) /\
  match keypair (acct s) with
  | None => o' = o
  | Some kp => exists pass, algo_passphrase o' = Some pass /\
      (pass = passphrase kp \/ address_from_passphrase A pass = Ok (key_id kp))
  end.
Proof using.
  unfold file_account. destruct (keypair (acct s)) as [kp|]; [|by intros [= <-]].
  unfold check_account_agreement. destruct (algo_passphrase o) as [pass|] eqn:Ep; cbn [result_bind].
  - destruct (address_from_passphrase A pass) as [id|e] eqn:Ea; [|done]. destruct (String.eqb_spec id (key_id kp)); [|done].
    cbn [result_bind]. destruct (match own_handle (acct s) with Some _ => _ | None => _ end); [|done]. cbn [result_bind].
    intros [= <-]. split; [intros Hh; cbn; destruct (String.eqb_spec (CliArgs.handle o) EmptyString); done|].
    exists pass. split; [done|]. right. congruence.
  - destruct (match own_handle (acct s) with Some _ => _ | None => _ end); [|done]. cbn [result_bind].
    intros [= <-]. split; [intros Hh; cbn; destruct (String.eqb_spec (CliArgs.handle o) EmptyString); done|].
    exists (passphrase kp). split; [done|by left].
Qed.

Lemma framed_refl (c : Chat W) : framed c c.
Proof using. exists (local c), (cworld c). by destruct c. Qed.

Lemma from_args_session args w w' c :
  from_chat_args A args w = (w', Ok c) ->
  agreed args c /\
  ((forall path w w' f, ca_state_file args = Some path -> read_state path w = (w', Ok f) -> file_true f) ->
   Account.I A registered (chat_config args) (local c, cworld c)).
Proof using.
  unfold from_chat_args. destruct (validate_store_and_forward _); [|done].
  assert (forall w sf k, let c := MkChat (LocalState_new (chat_config args)) w sf (ca_opts args) k [] [] NoRecipient in
    agreed args c /\
    Account.I A registered (chat_config args) (local c, cworld c)) as Hfresh.
  { intros w1 sf k. cbn. split; [by split|]. split; [|done]. split; cbn; try done.
    by intros kp [?|?]. }
  destruct (ca_state_file args) as [path|].
  - destruct (file_exists path w) as [w1 []]; [|intros [= _ <-]; destruct (Hfresh w1 (Some path) ∅); by split].
    destruct (read_state path w1) as [w2 [f|e]] eqn:Er; [|done].
    destruct (file_account A path _ _) as [o|e] eqn:Ef; [|done]. intros [= _ <-]. cbn. split.
    + apply file_account_agreed in Ef as [Hh Hk]. split; [done|]. cbn in *. destruct (sv_keypair f); [done|by subst].
    + intros Hfile. destruct (Hfile _ _ _ _ eq_refl Er) as [Hkeys Hmemo]. split; [|done]. split; cbn; try done.
  - intros [= _ <-]. destruct (Hfresh w None ∅). by split.
Qed.

Lemma from_args_steady args w w' c :
  from_chat_args A args w = (w', Ok c) -> over c (steady (chat_config args) (keypair (acct (local c)))) c.
Proof using.
  intros E. split; [|apply framed_refl]. revert E. unfold from_chat_args. destruct (validate_store_and_forward _); [|done].
  destruct (ca_state_file args) as [path|]; [|intros [= _ <-]; by split_and!].
  destruct (file_exists path w) as [w1 []]; [|intros [= _ <-]; by split_and!].
  destruct (read_state path w1) as [w2 [f|e]]; [|done]. destruct (file_account A path _ _); [|done].
  intros [= _ <-]. by split_and!.
Qed.

Lemma check_ready_keeps c0 I args p :
  (forall s w w', I (s, w) -> I (s, w')) -> keeps I (get_algo_ops (W := W)) -> keeps (over c0 I) (check_ready account_ready args p).
Proof using.
  intros Hw Ho c Hc. unfold check_ready. cbv beta delta [mbind ST_bind get_st]. cbn.
  destruct (CliArgs.app_id (chat_opts c)) as [app|]; [|exact Hc].
  unfold has_keypair, reads. cbn.
  case_bool_decide.
  - pose proof (over_client c0 _ _ _ Ho c Hc) as Hc1. destruct (on_client get_algo_ops c) as [c1 [pass|e]]; cbn in *; [|done].
    exact (over_node c0 _ I Hw c1 Hc1).
  - destruct p as [pass|]; [exact (over_node c0 _ I Hw c Hc)|exact Hc].
Qed.

(** (C37) The start of the chat command converges.  For every session made from a command
    line and a state file, and whatever the chain answers, the loop that decides what to do
    does what the plan does: it imports the account at most once, registers it at most once,
    and decides on the status it has then.  It never ends because its rounds are used up, and
    never for want of a passphrase. *)
Theorem chat_start_converges args w w' c h p :
  from_chat_args A args w = (w', Ok c) ->
  run_chat_startup A post_registration_mbr h p c = startup_plan A post_registration_mbr h p c /\
  (run_chat_startup A post_registration_mbr h p c).2 <> Err ExitNotReady /\
  (run_chat_startup A post_registration_mbr h p c).2 <> Err ExitNoPassphrase.
Proof using.
  intros Hc%from_args_steady.
  pose proof (startup_steady A post_registration_mbr _ _ _ h p c Hc) as E. split; [exact E|]. rewrite E.
  destruct (plan_ends A post_registration_mbr c _ _ h p c Hc) as (H1 & H2 & _). by split.
Qed.

(** The account of a session that starts, if what its file says holds. *)
Lemma session_account args w w' c hd :
  (forall path w w' f, ca_state_file args = Some path -> read_state path w = (w', Ok f) -> file_true f) ->
  cmd_chat A post_registration_mbr account_ready args w = (w', Ok (c, hd)) ->
  exists kp pass, keypair (acct (local c)) = Some kp /\ algo_passphrase (chat_opts c) = Some pass /\
    address_from_passphrase A pass = Ok (key_id kp) /\
    (0 < cfg_app_id (chat_config args) -> registered (key_id kp) (cfg_app_id (chat_config args)) hd) /\
    (CliArgs.handle (ca_opts args) <> EmptyString ->
     hd = CliArgs.handle (ca_opts args) /\ CliArgs.handle (chat_opts c) = CliArgs.handle (ca_opts args)).
Proof using ChainTruth0.
  intros Hfile. unfold cmd_chat. destruct (from_chat_args A args w) as [w0 [c0|e]] eqn:Ef; [|done].
  pose proof (from_args_steady _ _ _ _ Ef) as Ho. destruct (from_args_session _ _ _ _ Ef) as ([Hh Hk] & HI). specialize (HI Hfile). set (k := keypair (acct (local c0))) in *.
  assert (over c0 (J A registered (chat_config args) k) c0) as HoI by (split; [|apply framed_refl]; destruct HI; by split_and!).
  pose proof (check_ready_keeps c0 _ args (algo_passphrase (ca_opts args)) (steady_world _ k) (steady_ops _ k) _ Ho) as Ho1.
  pose proof (check_ready_keeps c0 _ args (algo_passphrase (ca_opts args)) (J_world _ k) (get_algo_ops_keeps A registered _ k) _ HoI) as HoI1.
  destruct (check_ready account_ready args (algo_passphrase (ca_opts args)) c0) as [c1 [u|[?|]]]; [|done..]. cbn [fst snd] in *.
  set (h := nonempty (Some (CliArgs.handle (ca_opts args)))). set (p := algo_passphrase (ca_opts args)) in *.
  rewrite (startup_steady A post_registration_mbr _ _ _ h p c1 Ho1).
  pose proof (plan_ends A post_registration_mbr c0 _ _ h p c1 Ho1) as (_ & _ & Hend).
  assert (over c0 (Account.I A registered (chat_config args)) c1) as HI1 by (destruct HoI1 as [(? & ? & _) ?]; by split; [split|]).
  pose proof (plan_registered c0 (chat_config args) h p c1 HI1) as Hreg.
  destruct (startup_plan A post_registration_mbr h p c1) as [c2 [hd'|e]]; [|done]. intros [= _ <- <-]. cbn [fst snd] in *.
  destruct (Hend _ eq_refl) as (kp & [(_ & _ & Hkp) (s2 & w2 & ->)] & Hst & Hhd). cbn in Hkp.
  destruct (Hreg _ eq_refl) as [[[Hok _] _] Hr]. cbn in Hok, Hr.
  assert (address_from_passphrase A (passphrase kp) = Ok (key_id kp)) as Haddr by (apply (ok_keypair _ _ _ Hok); by left).
  cbn. rewrite Hkp in Hr.
  assert (exists pass, algo_passphrase (chat_opts c0) = Some pass /\ address_from_passphrase A pass = Ok (key_id kp)) as (pass & Hp1 & Hp2).
  { destruct Hst as [Hst|(Hst & Hp & _)]; fold k in Hk; rewrite Hst in Hk.
    - destruct Hk as (pass & Hp & [->|Ha]); eauto.
    - exists (passphrase kp). rewrite Hk. by split. }
  exists kp, pass. split_and!; [done..| |].
  - intros Hpos. destruct (Hr Hpos) as (kp' & [= <-] & Hreg'). exact Hreg'.
  - intros Hne. split; [|by apply Hh]. unfold h, nonempty in Hhd. cbn in Hhd.
    destruct (String.eqb_spec (CliArgs.handle (ca_opts args)) EmptyString); [done|]. destruct Hhd as [?|[= <-]]; done.
Qed.
End Ready.

Section Session.
Context {W : Type} `{LocalWorld W} `{NodeApi W}.
Context (A : algo) (registered : string -> Z -> string -> Prop) `{!ChainTruth W A registered}.
Context (post_registration_mbr : string -> Z -> Z -> W -> W * result Z BingleError).
Context (account_ready : string -> Z -> Z -> bool -> W -> W * result unit ended).

(** The state file of the command line says that the account [id] has the handle [hd] on
    the application [app]. *)
Definition file_says (args : ChatArgs) (id : string) (app : Z) (hd : string) : Prop :=
  exists path w w' f kp, ca_state_file args = Some path /\ read_state path w = (w', Ok f) /\
    sv_keypair f = Some kp /\ key_id kp = id /\ sv_own_handle f = Some hd /\ sv_own_handle_app_id f = Some app.

#[local] Instance chain_or_file args :
  ChainTruth W A (fun id app hd => registered id app hd \/ file_says args id app hd).
Proof using ChainTruth0.
  split; [|  |apply truth_fresh].
  - intros app a w h E. left. by eapply truth_handle.
  - intros pass app asset h w id E Ea. left. by eapply truth_register.
Qed.

(** (C16) A chat session runs as one account, under a handle of that account.  When the
    command starts a session, with a state file, if any, whose key pairs are pairs of an
    address and its passphrase: the passphrase the engine is started with is that of the
    account whose messages, contacts and mailbox the store holds; a handle on the command
    line is the handle the session starts as and the one the engine is started with; and if
    an application is named, the handle the session starts as is one that the chain has
    registered for this very account on this application, or the state file says so of this
    account and this application, which the chain is not asked again.  Without an
    application the chain is not asked at all ([handle_of_file_unchecked]). *)
Theorem chat_session_account args w w' c hd :
  (forall path w w' f kp, ca_state_file args = Some path -> read_state path w = (w', Ok f) ->
     sv_keypair f = Some kp \/ sv_recovery_keypair f = Some kp ->
     address_from_passphrase A (passphrase kp) = Ok (key_id kp)) ->
  cmd_chat A post_registration_mbr account_ready args w = (w', Ok (c, hd)) ->
  exists kp pass, keypair (acct (local c)) = Some kp /\ algo_passphrase (chat_opts c) = Some pass /\
    address_from_passphrase A pass = Ok (key_id kp) /\
    (CliArgs.handle (ca_opts args) <> EmptyString ->
     hd = CliArgs.handle (ca_opts args) /\ CliArgs.handle (chat_opts c) = CliArgs.handle (ca_opts args)) /\
    let app := cfg_app_id (chat_config args) in
    (0 < app -> registered (key_id kp) app hd \/
       exists path w1 w2 f kp', ca_state_file args = Some path /\ read_state path w1 = (w2, Ok f) /\
         sv_keypair f = Some kp' /\ key_id kp' = key_id kp /\ sv_own_handle f = Some hd /\
         sv_own_handle_app_id f = Some app).
Proof using ChainTruth0.
  intros Hkeys E.
  destruct (session_account (ChainTruth0 := chain_or_file args) A _ post_registration_mbr account_ready args w w' c hd) with (2 := E)
    as (kp & pass & H1 & H2 & H3 & H4 & H5).
  - intros path w1 w2 f Hp Hf. split; [intros kp; by apply (Hkeys path w1 w2)|]. intros h app kp Hh Happ Hpos Hk.
    right. by exists path, w1, w2, f, kp.
  - exists kp, pass. by split_and!.
Qed.
End Session.

(** ** Sending and receiving *)

Section Messages.
Context {W SigningKey : Type} `{LocalWorld W} `{Sidewinder W} `{MailboxClient W} `{NodeApi W}.
Context (A : algo) (P : primitives SigningKey) (print : json -> string).

Definition live_record (id sender : string) (rs : list string) (at_ : Z) (txt : string) (suite : option string)
    (sent : option Z) (sig : option string) : Message :=
  MkMessage id sender rs at_ txt suite (Some 100) None None sent None sig (Some Direct) None.

(** Storing a message that came or goes live: refused, held already, or added at the end. *)
Lemma store_live_run sender r at_ txt suite sent sig (s : LocalState) (w : W) :
  let m := store_live_message sender [r] at_ txt suite sent sig (s, w) in
  if is_blank sender || is_blank r || is_blank txt then exists e, m = ((s, w), Err e)
  else exists w', m =
    if holds_received_copy (messages (st s)) sender sent txt then ((s, w'), Ok None)
    else ((on_store (set_messages (messages (st s) ++
             [live_record (fresh_message_id (s, w)).2 sender [r] at_ txt suite sent sig])) s, w'),
          Ok (Some (fresh_message_id (s, w)).2)).
Proof using.
  unfold store_live_message. destruct (is_blank sender); cbn [orb]; [by eexists|]. cbn [check_message existsb].
  destruct (is_blank r); cbn [orb]; [by eexists|]. destruct (is_blank txt); cbn [orb]; [by eexists|].
  unfold fresh_message_id, mbind, ST_bind, outside. destruct (random_bytes 16 w) as [w1 [b|]];
    [|destruct (epoch_nanos w1) as [w2 n]]; eexists; cbn; unfold in_store; destruct (holds_received_copy _ _ _ _); cbn;
    first [reflexivity|by rewrite on_store_id].
Qed.

(** A new message has an id that none of the stored ones has. *)
Definition ids_new (s : LocalState) : Prop :=
  forall w : W, Forall (fun m => msg_id m <> (fresh_message_id (s, w)).2) (messages (st s)).

Lemma update_first_last id f ms m :
  Forall (fun x => msg_id x <> id) ms -> msg_id m = id -> update_first id f (ms ++ [m]) = ms ++ [f m].
Proof using.
  induction 1 as [|x ms Hx _ IH]; intros Hm; cbn; [by rewrite decide_True|]. rewrite decide_False by done. by rewrite IH.
Qed.

Lemma find_message_last id ms m :
  Forall (fun x => msg_id x <> id) ms -> msg_id m = id -> find_message id (ms ++ [m]) = Some m.
Proof using.
  intros Hf Hm. unfold find_message. induction Hf as [|x ms Hx _ IH]; cbn; [by rewrite bool_decide_eq_true_2|].
  by rewrite bool_decide_eq_false_2.
Qed.

(** The message a typed line becomes. *)
Definition queued_message (id sender to : string) (at_ : Z) (txt : string) : Message :=
  MkMessage id sender [to] at_ txt None (Some 0) None None None None None None None.

(** What a typed line leaves: nothing, with a notice; or the message, pending, at the end of
    the history, and then either it is saved and the sender is woken, or saving failed and a
    notice says that sending failed. *)
Definition queued (own to txt : string) (c c' : Chat W) : Prop :=
  exists id at_, messages (st (local c')) = messages (st (local c)) ++ [queued_message id own to at_ txt] /\
    ((printed c' = printed c /\ sender_events c' = sender_events c ++ [WakeSender] /\
      forall path, state_file c = Some path -> exists w0 w1, write_state path (LocalStore.save (local c')) w0 = (w1, Ok tt)) \/
     (exists path e, state_file c = Some path /\ printed c' = printed c ++ [ShowNotice e] /\ sender_events c' = sender_events c)).

(** Adding what one sends is never taken for a copy. *)
Lemma add_message_run sender to at_ txt (s : LocalState) (w : W) :
  let m := LocalStore.add_message sender [to] at_ txt None (s, w) in
  if is_blank sender || is_blank to || is_blank txt then exists e, m = ((s, w), Err e)
  else exists w', m =
    ((on_store (set_messages (messages (st s) ++
        [live_record (fresh_message_id (s, w)).2 sender [to] at_ txt None None None])) s, w'),
     Ok (fresh_message_id (s, w)).2).
Proof using.
  pose proof (store_live_run sender to at_ txt None None None s w) as Hs. cbv zeta in *.
  unfold LocalStore.add_message, st_try, mbind, ST_bind. destruct (_ || _).
  - destruct Hs as [e ->]. by exists e.
  - destruct Hs as [w' ->]. by exists w'.
Qed.

(** A new message marked as pending. *)
Lemma mark_pending_run ms id sender to at_ txt (s : LocalState) (w : W) :
  messages (st s) = ms ++ [live_record id sender [to] at_ txt None None None] -> Forall (fun x => msg_id x <> id) ms ->
  exists s', LocalStore.update_message_status A P id 0 None None (s, w) = ((s', w), Ok tt) /\
    messages (st s') = ms ++ [queued_message id sender to at_ txt].
Proof using.
  intros Hm Hf. destruct (LocalStore.update_message_status A P id 0 None None (s, w)) as [[s' w'] r] eqn:E.
  apply update_status_run in E. rewrite Hm, find_message_last in E by done. destruct E as (-> & _ & E). cbn in E.
  destruct E as [-> E]. exists s'. split; [done|]. rewrite E, update_first_last by done. done.
Qed.

Lemma save_state_run (c : Chat W) :
  exists w r, save_state c = (set_client (local c) w c, r) /\
    match r with
    | Ok _ => forall path, state_file c = Some path -> exists w0 w1, write_state path (LocalStore.save (local c)) w0 = (w1, Ok tt)
    | Err _ => is_Some (state_file c)
    end.
Proof using.
  unfold save_state, mbind, ST_bind, get_st, in_node. destruct (state_file c) as [path|].
  - destruct (write_state path _ (cworld c)) as [w [[]|e]] eqn:E; eexists _, _; (split; [reflexivity|]); cbn; [|by eexists].
    intros path' [= <-]. by eexists _, _.
  - exists (cworld c), (Ok tt). split; [by destruct c|done].
Qed.

Lemma queue_outbound_run to txt (c : Chat W) :
  ids_new (local c) ->
  let own := CliArgs.handle (chat_opts c) in
  exists c' r, queue_outbound A P to txt c = (c', r) /\ framed c c' /\
    if is_blank own || is_blank to || is_blank txt || bool_decide ((epoch_ms (cworld c)).2 = None)
    then messages (st (local c')) = messages (st (local c)) /\ is_ok r = false
    else exists id at_, messages (st (local c')) = messages (st (local c)) ++ [queued_message id own to at_ txt] /\
      match r with
      | Ok _ => forall path, state_file c = Some path -> exists w0 w1, write_state path (LocalStore.save (local c')) w0 = (w1, Ok tt)
      | Err _ => is_Some (state_file c)
      end.
Proof using.
  intros Hnew own. unfold queue_outbound, st_try, lift_error, mbind, ST_bind, on_client, outside, get_st.
  destruct (epoch_ms (cworld c)) as [w0 [t|]]; cbn [snd].
  2: { eexists _, _. split; [reflexivity|]. split; [by eexists _, _|]. by rewrite bool_decide_eq_true_2, orb_true_r. }
  rewrite bool_decide_eq_false_2, orb_false_r by done.
  change (CliArgs.handle (chat_opts (set_client (local c) w0 c))) with own. cbn [local cworld set_client].
  pose proof (add_message_run own to t txt (local c) w0) as Ha. cbv zeta in Ha.
  destruct (is_blank own || is_blank to || is_blank txt).
  { destruct Ha as [e ->]. cbn. eexists _, _. split; [reflexivity|]. split; [by eexists _, _|]. done. }
  destruct Ha as [w1 ->]. cbn [map_err mret ST_ret local cworld set_client].
  set (id := (fresh_message_id (local c, w0)).2).
  edestruct (mark_pending_run (messages (st (local c))) id own to t txt) as (s2 & -> & Hm); [reflexivity|apply Hnew|].
  cbn [map_err mret ST_ret].
  edestruct save_state_run as (w2 & r & -> & Hr). eexists _, (match r with Ok _ => Ok id | Err e => Err e end).
  split; [by destruct r|]. split; [by eexists _, _|]. exists id, t. split; [exact Hm|]. by destruct r.
Qed.

(** What is typed is queued.  A line of text, with a recipient chosen, adds exactly one
    message to the history, pending, from the session's handle to the recipient, and wakes
    the sender once it is saved; only with a blank handle or text or without a clock is
    nothing added, and then the line is answered with a notice. *)
Theorem typed_message_queued line txt t (c : Chat W) :
  parse_input line = InputSend txt -> target (recipient c) = Some t -> ids_new (local c) ->
  let own := CliArgs.handle (chat_opts c) in
  let '(c', more) := repl_step A P line c in
  more = true /\
  if is_blank own || is_blank (label t) || is_blank txt || bool_decide ((epoch_ms (cworld c)).2 = None)
  then messages (st (local c')) = messages (st (local c)) /\ sender_events c' = sender_events c /\
       exists e, printed c' = printed c ++ [ShowNotice e]
  else queued own (label t) txt c c'.
Proof using.
  intros Hp Ht Hnew own. unfold repl_step. rewrite Hp. unfold mbind, ST_bind, get_st. rewrite Ht.
  destruct (queue_outbound_run (label t) txt c Hnew) as (c' & r & -> & (s & w & ->) & Hq). fold own in Hq.
  destruct (_ || bool_decide _).
  - destruct Hq as [Hm Hr]. destruct r as [|e]; [done|]. cbn. split; [done|]. split; [done|]. split; [done|]. by eexists.
  - destruct Hq as (id & at_ & Hm & Hr). destruct r as [i|e]; cbn; (split; [done|]); exists id, at_; (split; [exact Hm|]).
    + left. split; [done|]. split; [done|]. exact Hr.
    + right. destruct Hr as [path Hpath]. by eexists path, _.
Qed.

(** *** Receiving *)

Lemma find_shown_last id ms m :
  Forall (fun x => msg_id x <> id) ms -> msg_id m = id -> find_message id (sort_by older (ms ++ [m])) = Some m.
Proof using.
  intros Hf Hm. unfold find_message. destruct (find _ (sort_by older (ms ++ [m]))) as [x|] eqn:E.
  - apply List.find_some in E as [Hin Hx%bool_decide_eq_true_1].
    apply list_elem_of_In, elem_of_sort_by, elem_of_app in Hin as [Hin| ->%list_elem_of_singleton]; [|done].
    rewrite Forall_forall in Hf. by destruct (Hf _ Hin).
  - eapply List.find_none in E; [|apply list_elem_of_In, elem_of_sort_by, elem_of_app; right; by left].
    by rewrite bool_decide_eq_true_2 in E.
Qed.

(** A live message, as it is kept. *)
Definition kept_message (own shown : string) (v : json) (txt : string) (m : Message) : Prop :=
  exists id at_, m = live_record id shown [own] at_ txt (str_field "cipher_suite" v) (get "sent_time" v ≫= as_i64) (str_field "signature" v).

Lemma record_message_run shown own at_ v txt (c : Chat W) :
  str_field "text" v = Some txt -> ids_new (local c) ->
  exists s w r, record_message print shown [own] at_ v c = (set_client s w c, r) /\ contacts (st s) = contacts (st (local c)) /\
    if is_blank shown || is_blank own || is_blank txt then messages (st s) = messages (st (local c)) /\ is_ok r = false
    else if holds_received_copy (messages (st (local c))) shown (get "sent_time" v ≫= as_i64) txt
    then messages (st s) = messages (st (local c)) /\ r = Ok None
    else exists m, kept_message own shown v txt m /\ messages (st s) = messages (st (local c)) ++ [m] /\ r = Ok (Some m).
Proof using.
  intros Ht Hnew. unfold record_message, kept_message. set (sent := get "sent_time" v ≫= as_i64).
  unfold mbind, ST_bind, on_client, LocalStore.add_received_message. rewrite Ht.
  pose proof (store_live_run shown own at_ txt (str_field "cipher_suite" v) sent
    (str_field "signature" v) (local c) (cworld c)) as Hs. cbv zeta in Hs.
  change (default (print v) (Some txt)) with txt.
  destruct (is_blank shown || is_blank own || is_blank txt).
  { destruct Hs as [e ->]. by eexists _, _, _. }
  destruct Hs as [w' ->]. destruct (holds_received_copy _ _ _ _); [by eexists _, _, _|].
  eexists _, _, _. split; [reflexivity|]. split; [done|]. eexists. split; [by eexists _, _|]. split; [done|].
  unfold LocalStore.get_messages. cbn [local set_client st on_store messages set_messages].
  rewrite find_shown_last; [done|apply Hnew|done].
Qed.

(** An unknown sender becomes a contact, if the client takes it. *)
Lemma add_contact_run handle id (c : Chat W) :
  exists s k r, add_received_contact handle id c = (set_known k (set_client s (cworld c) c), r) /\
    messages (st s) = messages (st (local c)) /\ config s = config (local c) /\
    (contacts (st s) = contacts (st (local c)) /\ k = known_contacts c \/
     contacts (st s) = <[id := (handle, Received, false)]> (contacts (st (local c))) /\ k = <[handle := id]> (known_contacts c)).
Proof using.
  destruct c as [l w sf o k ev pr rc]. unfold add_received_contact, mbind, ST_bind, on_client, in_store, LocalStore.add_contact.
  cbn [local cworld]. destruct (is_blank handle); [|destruct (is_blank id); [|destruct (contacts (st l) !! id)]]; cbn;
    unfold set_client; cbn; eexists _, _, _; (split; [unfold set_known, set_client; cbn; reflexivity|]); cbn; by eauto 6.
Qed.

Lemma ids_new_same s s' : messages (st s') = messages (st s) -> ids_new s -> ids_new s'.
Proof using.
  intros Hm Hn w. rewrite Hm. specialize (Hn w). unfold fresh_message_id, mbind, ST_bind, outside in *.
  destruct (random_bytes 16 w) as [w1 [b|]]; [exact Hn|]. by destruct (epoch_nanos w1).
Qed.

(** What becomes of a live message.  One without text, of another kind, or of a blocked
    sender changes nothing and is not shown.  Otherwise the sender becomes a contact if its id
    is not known; a message whose sender, own handle or text is blank is dropped, and so is a
    copy of one that is held; any other is added to the history once, as it came, and that
    record is what is shown. *)
Theorem received_message_effect sender handle v (c : Chat W) :
  ids_new (local c) ->
  let own := CliArgs.handle (chat_opts c) in
  let shown := display_handle sender handle in
  let '(c', r) := receive_message print sender handle v c in
  match str_field "text" v with
  | None => c' = c /\ r = None
  | Some txt =>
      if negb (is_plain v) || is_blocked_contact sender c then c' = c /\ r = None
      else
        (contacts (st (local c')) = contacts (st (local c)) \/
         knows_id sender c = false /\
         contacts (st (local c')) = <[sender := (shown, Received, false)]> (contacts (st (local c)))) /\
        if is_blank shown || is_blank own || is_blank txt
           || holds_received_copy (messages (st (local c))) shown (get "sent_time" v ≫= as_i64) txt
        then messages (st (local c')) = messages (st (local c)) /\ r = None
        else exists m, kept_message own shown v txt m /\
             messages (st (local c')) = messages (st (local c)) ++ [m] /\ r = Some m
  end.
Proof using.
  intros Hnew own shown. destruct (receive_message print sender handle v c) as [c' r] eqn:E. unfold receive_message in E.
  destruct (str_field "text" v) as [txt|] eqn:Et; [|by injection E as <- <-].
  destruct (is_plain v); cbn [negb orb] in *; [|by injection E as <- <-].
  unfold mbind at 1, ST_bind at 1, get_st in E. destruct (is_blocked_contact sender c); [by injection E as <- <-|].
  fold shown own in E.
  assert (exists s k w, (if knows_id sender c then mret (Ok tt) else add_received_contact shown sender) c =
    (set_known k (set_client s w c), ((if knows_id sender c then mret (Ok tt) else add_received_contact shown sender) c).2) /\
    messages (st s) = messages (st (local c)) /\
    (contacts (st s) = contacts (st (local c)) \/
     knows_id sender c = false /\ contacts (st s) = <[sender := (shown, Received, false)]> (contacts (st (local c))))) as Hadd.
  { destruct (knows_id sender c); [exists (local c), (known_contacts c), (cworld c); split; [by destruct c|by eauto]|].
    destruct (add_contact_run shown sender c) as (s & k & r' & -> & Hm & _ & Hc). exists s, k, (cworld c).
    split; [done|]. split; [done|]. destruct Hc as [[? _]|[? _]]; eauto. }
  destruct Hadd as (s1 & k1 & w1 & Ea & Hm1 & Hc1). unfold mbind at 1, ST_bind at 1 in E. rewrite Ea in E.
  unfold mbind at 1, ST_bind at 1, on_client, Account.now_millis, mbind at 1, ST_bind at 1, outside in E. cbn [local cworld set_known set_client] in E.
  destruct (epoch_ms w1) as [w2 t]. cbn [mret ST_ret] in E.
  set (c2 := set_client s1 w2 _) in E.
  destruct (record_message_run shown own (default 0 t) v txt c2 Et (ids_new_same _ _ Hm1 Hnew)) as (s3 & w3 & r3 & Er & Hc3 & Hr).
  unfold mbind at 1, ST_bind at 1 in E. rewrite Er in E. cbn [local c2 set_client] in Hc3, Hr. rewrite Hm1 in Hr.
  assert (local c' = s3 /\ r = match r3 with Ok m => m | Err _ => None end) as [-> ->].
  { destruct r3 as [[m|]|e]; [|by injection E as <- <-..].
    unfold mbind, ST_bind in E. destruct (save_state_run (set_client s3 w3 c2)) as (w4 & r4 & Es & _). rewrite Es in E.
    by injection E as <- <-. }
  rewrite Hc3. split; [done|]. destruct (is_blank shown || is_blank own || is_blank txt); cbn [orb].
  - destruct Hr as [Hm Hr]. split; [done|]. by destruct r3.
  - destruct (holds_received_copy _ _ _ _); [by destruct Hr as [? ->]|]. destruct Hr as (m & ? & ? & ->). by exists m.
Qed.
End Messages.

(** ** Sessions in the small world *)

Module ChatDemo.
Definition none {A B} (_ : A) : option B := None.
Definition mbr (_ : string) (_ _ : Z) (w : SmallClient.world) : SmallClient.world * result Z BingleError := (w, Ok 500000).
Definition ready (_ : string) (_ _ : Z) (_ : bool) (w : SmallClient.world) : SmallClient.world * result unit ended := (w, Ok tt).

Definition arguments (l : list string) : option ChatArgs :=
  result_ok (parse_chat_args none none none none none (l ++ ["--app-id"; "5"; "--asset-id"; "6"; "--to"; "alice"]%string)).

(** A first run with a passphrase and a handle. *)
Definition first_run : option ChatArgs := Eval vm_compute in arguments ["bob"; "--passphrase"; "bob"]%string.
Definition args0 : ChatArgs := Eval vm_compute in match first_run with Some a => a | None =>
  MkChatArgs (CliArgs.MkStartOptions "" None None false None None None None None None None false Plain) None None None false SfNone None None false end.

Definition made : Chat SmallClient.world := Eval vm_compute in
  match from_chat_args SmallClient.client_algo args0 (SmallClient.fresh_world true []) with
  | (w, Ok c) => c
  | (w, Err _) => MkChat (LocalState_new default_config) w None (ca_opts args0) ∅ [] [] NoRecipient
  end.

Definition start (node : NodeApi SmallClient.world) (args : ChatArgs) (w : SmallClient.world)
  : SmallClient.world * result (Chat SmallClient.world * string) Z :=
  cmd_chat (H2 := node) SmallClient.client_algo mbr ready args w.

Definition running : Chat SmallClient.world := Eval vm_compute in
  match start JsiDemo.demo_node args0 (SmallClient.fresh_world true []) with
  | (_, Ok (c, _)) => c
  | (_, Err _) => made
  end.

(** A node whose file has a key pair of an account that was registered elsewhere. *)
Definition file : SavedState := MkSavedState (Some (MkKeypair "bob" "bob")) None [] [] None None [].

Definition node_with (f : SavedState) (writes : bool) : NodeApi SmallClient.world := {|
  write_state _ _ w := (w, if writes then Ok tt else Err (Other "disk full"));
  read_state _ w := (w, Ok f);
  file_exists _ w := (w, true);
  api_get_handle w := (w, Some "bob"%string);
  engine_start _ w := (w, Ok tt);
  engine_stop w := w;
  engine_on_foreground w := w;
  engine_on_background w := w;
  resolve_host _ := None;
  api_handle_lookup h w := (w, Ok (Some h));
  api_handle_lookup_partial h w := (w, Ok (Some (h, h)));
  api_handle_lookup_matches h _ w := (w, Ok [(h, h, true)]);
  api_send_to_id _ _ w := (w, Ok true);
  api_send_to_handle _ _ w := (w, Ok true);
  api_send_to_network _ _ _ w := (w, Ok true);
  api_request_id _ v w := (w, Ok v);
  api_request_handle _ v w := (w, Ok v);
  api_request_network _ _ v w := (w, Ok v)
|}.

Definition file_args : option ChatArgs := Eval vm_compute in arguments ["--state_file"; "f"]%string.
End ChatDemo.

Lemma chat_start_converges_witness :
  run_chat_startup SmallClient.client_algo ChatDemo.mbr (Some "bob"%string) (Some "bob"%string) ChatDemo.made =
    startup_plan SmallClient.client_algo ChatDemo.mbr (Some "bob"%string) (Some "bob"%string) ChatDemo.made /\
  (run_chat_startup SmallClient.client_algo ChatDemo.mbr (Some "bob"%string) (Some "bob"%string) ChatDemo.made).2 = Ok "bob"%string.
Proof.
  assert (exists w', from_chat_args SmallClient.client_algo ChatDemo.args0 (SmallClient.fresh_world true []) = (w', Ok ChatDemo.made))
    as [w' E] by (eexists; vm_compute; reflexivity).
  split; [|vm_compute; reflexivity].
  exact (proj1 (chat_start_converges SmallClient.client_algo ChatDemo.mbr _ _ _ _ (Some "bob"%string) (Some "bob"%string) E)).
Defined.

Lemma chat_session_account_witness :
  exists kp pass, keypair (acct (local ChatDemo.running)) = Some kp /\ algo_passphrase (chat_opts ChatDemo.running) = Some pass /\
    pass = key_id kp.
Proof.
  assert (exists w', cmd_chat SmallClient.client_algo ChatDemo.mbr ChatDemo.ready ChatDemo.args0 (SmallClient.fresh_world true []) =
    (w', Ok (ChatDemo.running, "bob"%string))) as [w' E] by (eexists; vm_compute; reflexivity).
  assert (forall path (w w' : SmallClient.world) f kp, ca_state_file ChatDemo.args0 = Some path -> read_state path w = (w', Ok f) ->
    sv_keypair f = Some kp \/ sv_recovery_keypair f = Some kp ->
    address_from_passphrase SmallClient.client_algo (passphrase kp) = Ok (key_id kp)) as Hf
    by (intros path w1 w2 f kp Hp X; discriminate X).
  destruct (chat_session_account SmallClient.client_algo (fun a _ h => a = h) ChatDemo.mbr ChatDemo.ready _ _ _ _ _ Hf E) as (kp & pass & H1 & H2 & H3 & _).
  exists kp, pass. split; [exact H1|]. split; [exact H2|]. cbn in H3. congruence.
Defined.

Lemma typed_message_queued_witness :
  queued (CliArgs.handle (chat_opts ChatDemo.running)) "alice" "hi there" ChatDemo.running
    (repl_step SmallClient.client_algo Toy.toy "  hi there " ChatDemo.running).1.
Proof.
  assert (parse_input "  hi there " = InputSend "hi there") as H1 by (vm_compute; reflexivity).
  assert (target (recipient ChatDemo.running) = Some (TargetHandle "alice")) as H2 by reflexivity.
  assert (ids_new (W := SmallClient.world) (local ChatDemo.running)) as H3 by (intros w; constructor).
  pose proof (typed_message_queued SmallClient.client_algo Toy.toy _ _ _ _ H1 H2 H3) as H.
  assert (is_blank (CliArgs.handle (chat_opts ChatDemo.running)) || is_blank (label (TargetHandle "alice")) || is_blank "hi there"
    || bool_decide ((epoch_ms (cworld ChatDemo.running)).2 = None) = false) as E by (vm_compute; reflexivity).
  cbv zeta in H. rewrite E in H. destruct (repl_step _ _ _ _) as [c' more]. exact (proj2 H).
Defined.

Lemma received_message_effect_witness :
  exists m, kept_message "bob" "alice" JsiDemo.hello "hello" m /\
    (receive_message JsiDemo.print "alice" " " JsiDemo.hello ChatDemo.running).2 = Some m.
Proof.
  assert (ids_new (W := SmallClient.world) (local ChatDemo.running)) as H3 by (intros w; constructor).
  pose proof (received_message_effect JsiDemo.print "alice" " " JsiDemo.hello _ H3) as H. cbv zeta in H.
  destruct (receive_message _ _ _ _ _) as [c' r]. destruct H as [_ (m & Hk & _ & Hr)]. exists m. split; [exact Hk|exact Hr].
Defined.

(** ** Where the command falls short *)

(** A session that can neither send nor receive.  The state file holds the account's keys
    and no handle, the chain knows the account as "bob", and no handle is given: the start
    succeeds as "bob", but the session's own handle stays empty, so that what is typed is
    refused and what arrives is dropped. *)
Theorem ready_without_handle :
  exists args w c, ChatDemo.file_args = Some args /\
    ChatDemo.start (ChatDemo.node_with ChatDemo.file true) args (SmallClient.fresh_world true []) = (w, Ok (c, "bob"%string)) /\
    CliArgs.handle (chat_opts c) = EmptyString /\
    messages (st (local (repl_step (H2 := ChatDemo.node_with ChatDemo.file true) SmallClient.client_algo Toy.toy "hi" c).1)) = [] /\
    (receive_message (H2 := ChatDemo.node_with ChatDemo.file true) JsiDemo.print "alice" "alice" JsiDemo.hello c).2 = None.
Proof. eexists _, _, _. split; [reflexivity|]. split; [vm_compute; reflexivity|]. vm_compute. by repeat split. Qed.

(** A handle that is taken from the file.  Without an application the handle that the state
    file remembers is not looked up anywhere: the session starts as "zed", though the account
    of the file is registered as "bob" and under no other handle. *)
Theorem handle_of_file_unchecked :
  let f := MkSavedState (Some (MkKeypair "bob" "bob")) None [] [] (Some "zed"%string) (Some 5) [] in
  exists args w c, result_ok (parse_chat_args ChatDemo.none ChatDemo.none ChatDemo.none ChatDemo.none ChatDemo.none
      ["--state_file"; "f"; "--to"; "alice"]%string) = Some args /\
    CliArgs.app_id (ca_opts args) = None /\
    ChatDemo.start (ChatDemo.node_with f true) args (SmallClient.fresh_world true []) = (w, Ok (c, "zed"%string)) /\
    CliArgs.handle (chat_opts c) = "zed"%string /\
    (forall app h, (chain_handle_for_address app "bob"%string (SmallClient.fresh_world true [])).2 = Ok (Some h) -> h = "bob"%string).
Proof.
  eexists _, _, _. split; [vm_compute; reflexivity|]. split; [reflexivity|]. split; [vm_compute; reflexivity|].
  split; [reflexivity|]. intros app h. vm_compute. congruence.
Qed.

(** A message that is reported as failed and is sent.  The file cannot be written: the
    session says that sending failed, but the message is pending in the store the sender
    works on. *)
Theorem refused_message_pends :
  let c := (repl_step (H2 := ChatDemo.node_with ChatDemo.file false) SmallClient.client_algo Toy.toy "hi"
              (MkChat (local ChatDemo.running) (cworld ChatDemo.running) (Some "f"%string) (chat_opts ChatDemo.running)
                 (known_contacts ChatDemo.running) [] [] (recipient ChatDemo.running))).1 in
  (exists e, printed c = [ShowNotice e]) /\ text <$> LocalStore.get_pending_messages (st (local c)) = ["hi"%string].
Proof. vm_compute. split; [by eexists|done]. Qed.

(** A message that is lost and looks delivered.  What is typed is first stored as delivered
    and then marked as pending; when the thread that checks the mailbox saves in between and
    the program ends, the file has the message as delivered. *)
Theorem queued_saved_as_delivered :
  let '(sw, r) := LocalStore.add_message "bob" ["alice"]%string 5 "hi" None (local ChatDemo.running, cworld ChatDemo.running) in
  let s := LocalStore.load (LocalStore.save sw.1) (LocalState_new default_config) in
  is_ok r = true /\ (fun m => (text m, progress m)) <$> messages (st s) = [("hi"%string, Some 100)] /\
  LocalStore.get_pending_messages (st s) = [].
Proof. vm_compute. done. Qed.
