(* ===== verification/Certs.v ===== *)
(** * Certificates

    Models [src/bingle_core/src/api/pki.rs] (the certificates a node makes from its account),
    [src/bingle_core/src/protocol/cert_verify.rs] (what it accepts from a peer), and of
    [src/bingle_core/src/dtls/dtls_openssl.rs] the credentials, flags, contexts and
    verification callbacks of DTLS.

    OpenSSL is the class [X509Lib]; its documented behaviour is the class [X509Laws].  What
    a node draws from the clock and the random generator is an argument.  A name is the
    list of its entries, each with its text if that is UTF-8; times are in seconds.  The
    failures of OpenSSL to allocate an object are not modelled. *)
From S2P Require Import Prelude NetAddr Dtls.

Local Open Scope Z_scope.

(** ** Names and certificates *)

Inductive Nid : Type := COMMONNAME | ORGANIZATIONNAME.

#[export] Instance Nid_eq_dec : EqDecision Nid.
Proof. solve_decision. Defined.

Abbreviation X509Name := (list (Nid * option string)).

Inductive Id : Type := ED25519 | EC | OtherId.

#[export] Instance Id_eq_dec : EqDecision Id.
Proof. solve_decision. Defined.

Inductive Usage : Type := KeyCertSign | CrlSign | DigitalSignature | ServerAuth | ClientAuth.

Inductive Extension : Type :=
| BasicConstraints (critical ca : bool)
| KeyUsage (critical : bool) (usages : list Usage)
| ExtendedKeyUsage (usages : list Usage)
| SubjectKeyIdentifier
| AuthorityKeyIdentifier (keyid issuer : bool).

(** What the builder of a certificate was told. *)
Record Builder (Pub : Type) : Type := MkBuilder {
  b_version : Z;
  b_serial : Z;
  b_subject : X509Name;
  b_issuer : X509Name;
  b_pubkey : Pub;
  b_not_before : Z;
  b_not_after : Z;
  b_extensions : list Extension
}.
Arguments MkBuilder {Pub}. Arguments b_subject {Pub}. Arguments b_issuer {Pub}. Arguments b_pubkey {Pub}.
Arguments b_not_before {Pub}. Arguments b_not_after {Pub}. Arguments b_extensions {Pub}.

Class X509Lib (X509 PKey Pub : Type) : Type := {
  from_pem : list Z -> option X509;
  to_pem : X509 -> option (list Z);
  subject_name : X509 -> X509Name;
  issuer_name : X509 -> X509Name;
  not_before : X509 -> Z;
  not_after : X509 -> Z;
  public_key : X509 -> option Pub;
  pkey_id : Pub -> Id;
  x509_verify : X509 -> Pub -> option bool;
  to_text : X509 -> option string;
  entry_fits : Nid -> string -> bool;
  private_key_from_raw_bytes : list Z -> option PKey;
  public_of : PKey -> Pub;
  key_from_pem : list Z -> option PKey;
  key_to_pem : PKey -> option (list Z);
  check_private_key : X509 -> PKey -> bool;
  x509_sign : Builder Pub -> PKey -> option X509
}.

(** ** Texts *)

Fixpoint str_contains (needle s : string) : bool :=
  String.prefix needle s || match s with EmptyString => false | String _ s => str_contains needle s end.

(** [s.ends_with(c)] for a suffix of one character. *)
Fixpoint ends_with (c : ascii) (s : string) : bool :=
  match s with
  | EmptyString => false
  | String a EmptyString => Ascii.eqb a c
  | String _ s => ends_with c s
  end.

Definition VIRTUAL_CA : string := "virtual.bingle.home.arpa".

(** [name.entries_by_nid(nid).next().and_then(|e| e.data().to_string().ok())] *)
Definition first_entry (nid : Nid) (n : X509Name) : option string :=
  match List.find (fun e => bool_decide (e.1 = nid)) n with Some (_, text) => text | None => None end.

Section Certificates.
Context {X509 PKey Pub : Type} `{X509Lib X509 PKey Pub}.

(** ** The certificates of a node: [generate_pki_from_ops] *)

(** What is asked of the account: its address and its secret key. *)
Record AlgoOps : Type := MkAlgoOps { ops_address : option string; private_key_bytes : result (list Z) string }.

Definition append_entry_by_nid (nid : Nid) (text : string) (n : X509Name) : option X509Name :=
  if entry_fits nid text then Some (n ++ [(nid, Some text)]) else None.

Definition days_from_now (now : Z) (days : Z) : Z := now + days * 86400.

(** The serial number and the readings of the clock for one certificate. *)
Record Draws : Type := MkDraws { d_serial : Z; d_from : Z; d_until : Z }.

Definition ca_extensions : list Extension :=
  [BasicConstraints true true; KeyUsage true [KeyCertSign; CrlSign]; SubjectKeyIdentifier].

Definition ca_builder (name : X509Name) (key : PKey) (d : Draws) : Builder Pub :=
  MkBuilder 2 (d_serial d) name name (public_of key) (days_from_now (d_from d) 0) (days_from_now (d_until d) 3650)
    ca_extensions.

Definition end_entity_extensions : list Extension :=
  [BasicConstraints true false; KeyUsage false [DigitalSignature]; ExtendedKeyUsage [ServerAuth; ClientAuth];
   SubjectKeyIdentifier; AuthorityKeyIdentifier true true].

Definition end_entity_builder (subject issuer : X509Name) (key : PKey) (d : Draws) : Builder Pub :=
  MkBuilder 2 (d_serial d) subject issuer (public_of key) (days_from_now (d_from d) 0) (days_from_now (d_until d) 365)
    end_entity_extensions.

Definition make_end_entity (issuer : X509Name) (ca_pkey : PKey) (cn : string) (key : option PKey) (d : Draws)
  : result (X509 * PKey) string :=
  let? pkey := ok_or key "ec key gen"%string in
  let? subject := ok_or (append_entry_by_nid COMMONNAME cn []) "set CN"%string in
  let? cert := ok_or (x509_sign (end_entity_builder subject issuer pkey d) ca_pkey) "sign child"%string in
  Ok (cert, pkey).

(** The certificate authority, the server's and the client's certificates and their keys. *)
Record Pki : Type := MkPki {
  ca_pem : list Z;
  server_cert_pem : list Z; server_key_pem : list Z;
  client_cert_pem : list Z; client_key_pem : list Z
}.

Definition ee_cn (address : string) : string :=
  (if (64 <? String.length address)%nat then String.substring 0 64 address else address) +:+ String ISSUER_SUFFIX EmptyString.

Definition generate_pki_from_ops (ops : AlgoOps) (ca_draws server_draws client_draws : Draws)
    (server_key client_key : option PKey) : result Pki string :=
  let? sk := map_err (fun e => "failed to get private key: " +:+ e) (private_key_bytes ops) in
  if negb (length sk =? 32)%nat then Err "Algorand secret must be 32 bytes"%string
  else
    let? ca_pkey := ok_or (private_key_from_raw_bytes sk) "failed to construct Ed25519 CA key"%string in
    let? name := ok_or (append_entry_by_nid COMMONNAME VIRTUAL_CA []) "set CN"%string in
    let? address := ok_or (ops_address ops) "AlgoOps has no address; cannot set CA ORGANIZATIONNAME"%string in
    let? ca_name := ok_or (append_entry_by_nid ORGANIZATIONNAME address name) "set O"%string in
    let? ca := ok_or (x509_sign (ca_builder ca_name ca_pkey ca_draws) ca_pkey) "sign ca"%string in
    let? ca_pem := ok_or (to_pem ca) "ca pem"%string in
    let? (server, server_pkey) := make_end_entity (subject_name ca) ca_pkey (ee_cn address) server_key server_draws in
    let? (client, client_pkey) := make_end_entity (subject_name ca) ca_pkey (ee_cn address) client_key client_draws in
    let? server_cert_pem := ok_or (to_pem server) "server cert pem"%string in
    let? client_cert_pem := ok_or (to_pem client) "client cert pem"%string in
    let? server_key_pem := ok_or (key_to_pem server_pkey) "server key pem"%string in
    let? client_key_pem := ok_or (key_to_pem client_pkey) "client key pem"%string in
    Ok (MkPki ca_pem server_cert_pem server_key_pem client_cert_pem client_key_pem).

(** ** What a node accepts: [peer_certificate_handler] *)

Definition fail_if (b : bool) (msg : string) : result unit string := if b then Err msg else Ok tt.

(** The constraint is looked for in the printed certificate. *)
Definition is_cert_ca (c : X509) : bool :=
  match to_text c with
  | Some text => str_contains "CA:TRUE" text || str_contains "CA:ALWAYS" text
  | None => false
  end.

(** [c.verify(k).unwrap_or(false)] *)
Definition verifies (c : X509) (k : Pub) : bool := default false (x509_verify c k).

(** The checks of the dates, of the authority and of the certificate under it. *)
Definition check_dates (ca cert : X509) (now : Z) : result unit string :=
  let? _ := fail_if (now <? not_before ca) "CA certificate not yet valid" in
  let? _ := fail_if (not_after ca <? now) "CA certificate expired" in
  let? _ := fail_if (now <? not_before cert) "peer certificate not yet valid" in
  fail_if (not_after cert <? now) "peer certificate expired".

Definition check_authority (ca : X509) (ca_cn : string) : result Pub string :=
  let? _ := fail_if (negb (String.eqb ca_cn VIRTUAL_CA)) "unexpected CA CN" in
  let? ca_pub := ok_or (public_key ca) "extract CA public key failed"%string in
  let? _ := fail_if (negb (bool_decide (pkey_id ca_pub = ED25519))) "CA public key is not Ed25519" in
  let? _ := fail_if (negb (verifies ca ca_pub)) "CA self-signature verification failed" in
  Ok ca_pub.

Definition check_end_entity (ca cert : X509) (ca_pub : Pub) : result string string :=
  let? _ := fail_if (negb (is_cert_ca ca)) "CA certificate basic constraints: CA is false" in
  let? _ := fail_if (is_cert_ca cert) "end-entity certificate basic constraints: CA is true" in
  let? ee_issuer_cn := ok_or (first_entry COMMONNAME (issuer_name cert)) "end-entity certificate missing issuer CN"%string in
  let? _ := fail_if (negb (String.eqb ee_issuer_cn VIRTUAL_CA)) "end-entity issuer CN does not equal virtual CA" in
  let? _ := fail_if (negb (verifies cert ca_pub)) "end-entity certificate signature verification failed" in
  let? ee_subj_cn := ok_or (first_entry COMMONNAME (subject_name cert)) "end-entity certificate missing subject CN"%string in
  let? _ := fail_if (negb (ends_with ISSUER_SUFFIX ee_subj_cn)) "end-entity CN missing issuer suffix" in
  Ok ee_subj_cn.

(** The organization of the authority, if it has one, is the peer's address. *)
Definition check_organization (ca : X509) (ee_subj_cn : string) : result unit string :=
  match first_entry ORGANIZATIONNAME (subject_name ca) with
  | Some ca_org => fail_if (negb (String.eqb ca_org (norm_id ee_subj_cn))) "CA O (org) does not match EE subject CN without suffix"
  | None => Ok tt
  end.

Definition peer_certificate_handler (now : Z) (cert_pem ca_pem : list Z) : result string string :=
  let? cert := ok_or (from_pem cert_pem) "invalid peer certificate PEM"%string in
  let? ca := ok_or (from_pem ca_pem) "invalid CA certificate PEM"%string in
  let? ca_cn := ok_or (first_entry COMMONNAME (subject_name ca)) "CA certificate missing CN"%string in
  let? _ := check_dates ca cert now in
  let? ca_pub := check_authority ca ca_cn in
  let? ee_subj_cn := check_end_entity ca cert ca_pub in
  let? _ := check_organization ca ee_subj_cn in
  Ok ee_subj_cn.

(** ** The verification callbacks of the handshake *)

(** What the callback is shown: the depth in the chain, the chain and the certificate there. *)
Record StoreCtx : Type := MkStoreCtx {
  error_depth : Z;
  ctx_chain : option (list X509);
  current_cert : option X509
}.

Definition HandlePeerCertificate : Type := list Z -> list Z -> result string string.

(** The last certificate of a chain of at least two. *)
Definition presented_ca (ctx : StoreCtx) : option (list Z) :=
  certs ← ctx_chain ctx;
  if (2 <=? length certs)%nat then last certs ≫= to_pem else None.

Definition verify_callback (h : HandlePeerCertificate) (ctx : StoreCtx) : bool :=
  if negb (error_depth ctx =? 0) then true
  else match presented_ca ctx with
       | None => false
       | Some ca =>
           match current_cert ctx ≫= to_pem with
           | Some pem => is_ok (h pem ca)
           | None => false
           end
       end.

Inductive VerifyMode : Type :=
| VerifyNone
| VerifyPeer (fail_if_no_peer_cert : bool) (callback : StoreCtx -> bool).

Definition set_verify_with_handler_for_connector (h : HandlePeerCertificate) : VerifyMode :=
  VerifyPeer false (verify_callback h).
Definition set_verify_with_handler_for_acceptor (h : HandlePeerCertificate) : VerifyMode :=
  VerifyPeer true (verify_callback h).

(** ** The credentials and flags of [DtlsOpenSsl] *)

Record Settings : Type := MkSettings {
  ca_cert : option (list Z);
  client_cert : option (list Z);
  client_private_key : option (list Z);
  server_signing_cert : option (list Z);
  server_signing_private_key : option (list Z);
  handle_peer_certificate : option HandlePeerCertificate;
  null_encryption : bool;
  app_layer_only_verification : bool;
  dangerous_debug : bool
}.

Definition settings_new : Settings := MkSettings None None None None None None false false false.

(** A slot is written once; clearing it does nothing. *)
Definition set_once_cert (slot pem : option (list Z)) : option (list Z) :=
  match slot with Some _ => slot | None => pem end.

Definition set_ca_cert (pem : option (list Z)) (s : Settings) : Settings :=
  MkSettings (set_once_cert (ca_cert s) pem) (client_cert s) (client_private_key s) (server_signing_cert s)
    (server_signing_private_key s) (handle_peer_certificate s) (null_encryption s) (app_layer_only_verification s)
    (dangerous_debug s).
Definition set_client_cert (pem : option (list Z)) (s : Settings) : Settings :=
  MkSettings (ca_cert s) (set_once_cert (client_cert s) pem) (client_private_key s) (server_signing_cert s)
    (server_signing_private_key s) (handle_peer_certificate s) (null_encryption s) (app_layer_only_verification s)
    (dangerous_debug s).
Definition set_client_private_key (pem : option (list Z)) (s : Settings) : Settings :=
  MkSettings (ca_cert s) (client_cert s) (set_once_cert (client_private_key s) pem) (server_signing_cert s)
    (server_signing_private_key s) (handle_peer_certificate s) (null_encryption s) (app_layer_only_verification s)
    (dangerous_debug s).
Definition set_server_signing_cert (pem : option (list Z)) (s : Settings) : Settings :=
  MkSettings (ca_cert s) (client_cert s) (client_private_key s) (set_once_cert (server_signing_cert s) pem)
    (server_signing_private_key s) (handle_peer_certificate s) (null_encryption s) (app_layer_only_verification s)
    (dangerous_debug s).
Definition set_server_signing_private_key (pem : option (list Z)) (s : Settings) : Settings :=
  MkSettings (ca_cert s) (client_cert s) (client_private_key s) (server_signing_cert s)
    (set_once_cert (server_signing_private_key s) pem) (handle_peer_certificate s) (null_encryption s)
    (app_layer_only_verification s) (dangerous_debug s).
Definition set_handle_peer_certificate (h : option HandlePeerCertificate) (s : Settings) : Settings :=
  MkSettings (ca_cert s) (client_cert s) (client_private_key s) (server_signing_cert s)
    (server_signing_private_key s) h (null_encryption s) (app_layer_only_verification s) (dangerous_debug s).
Definition set_null_encryption (enabled : bool) (s : Settings) : Settings :=
  if dangerous_debug s then
    MkSettings (ca_cert s) (client_cert s) (client_private_key s) (server_signing_cert s)
      (server_signing_private_key s) (handle_peer_certificate s) enabled (app_layer_only_verification s) (dangerous_debug s)
  else s.
Definition set_app_layer_only_verification (enabled : bool) (s : Settings) : Settings :=
  if dangerous_debug s then
    MkSettings (ca_cert s) (client_cert s) (client_private_key s) (server_signing_cert s)
      (server_signing_private_key s) (handle_peer_certificate s) (null_encryption s) enabled (dangerous_debug s)
  else s.
Definition set_dangerous_debug (enabled : bool) (s : Settings) : Settings :=
  MkSettings (ca_cert s) (client_cert s) (client_private_key s) (server_signing_cert s)
    (server_signing_private_key s) (handle_peer_certificate s) (null_encryption s) (app_layer_only_verification s) enabled.

(** ** The contexts *)

Record Context_ : Type := MkContext {
  own_cert : option X509;
  own_key : option PKey;
  extra_chain : list X509;
  security_level_zero : bool;
  keylog : bool;
  null_ciphers : bool;
  verify_mode : VerifyMode;
  verify_store : option X509;
  client_ca_list : list X509Name
}.

(** The certificate and key a context presents, if they fit, with the authority behind them. *)
Definition present (cert_pem key_pem : list Z) (ca : option (list Z))
  : result (X509 * PKey * list X509) string :=
  let? cert := ok_or (from_pem cert_pem) "certificate PEM parse failed"%string in
  let? key := ok_or (key_from_pem key_pem) "private key PEM parse failed"%string in
  let? _ := fail_if (negb (check_private_key cert key)) "private key check failed" in
  Ok (cert, key, option_list (ca ≫= from_pem)).

Definition prepare_client_context (s : Settings) : result Context_ string :=
  let null := null_encryption s && dangerous_debug s in
  let? own := match client_cert s, client_private_key s with
              | Some cert_pem, Some key_pem =>
                  let? p := present cert_pem key_pem (ca_cert s) in Ok (Some p)
              | _, _ => Ok None
              end in
  let? mode := if app_layer_only_verification s then Ok VerifyNone
               else let? h := ok_or (handle_peer_certificate s)
                                "missing peer certificate handler for client handshake verification"%string in
                    Ok (set_verify_with_handler_for_connector h) in
  let '(cert, key, extra) := match own with
                             | Some (c, k, e) => (Some c, Some k, e)
                             | None => (None, None, [])
                             end in
  Ok (MkContext cert key extra (dangerous_debug s || null) (dangerous_debug s) null mode None []).

Definition prepare_server_acceptor (s : Settings) : result Context_ string :=
  let? ca := ok_or (ca_cert s) "missing ca_cert"%string in
  let? cert_pem := ok_or (server_signing_cert s) "missing server_signing_cert"%string in
  let? key_pem := ok_or (server_signing_private_key s) "missing server_signing_private_key"%string in
  let? (cert, key, extra) := present cert_pem key_pem (Some ca) in
  let null := null_encryption s && dangerous_debug s in
  let '(mode, store) :=
    if app_layer_only_verification s && dangerous_debug s then (VerifyNone, None)
    else (match handle_peer_certificate s with
          | Some h => set_verify_with_handler_for_acceptor h
          | None => VerifyNone
          end, from_pem ca) in
  Ok (MkContext (Some cert) (Some key) extra (dangerous_debug s || null) (dangerous_debug s) null mode store
        match store with Some ca => [subject_name ca; subject_name ca] | None => [] end).

(** [start_accept_with_mux], up to the installation of the packet handler. *)
Definition start_accept (s : Settings) : result Context_ string :=
  match server_signing_cert s, server_signing_private_key s, ca_cert s with
  | Some _, Some _, Some _ => prepare_server_acceptor s
  | _, _, _ => Err "missing server credentials or CA"%string
  end.

(** The part of [BingleApiImpl::start] that installs what [generate_pki_from_ops] made. *)
Definition install_pki (p : Pki) (h : HandlePeerCertificate) (s : Settings) : Settings :=
  set_app_layer_only_verification false
    (set_handle_peer_certificate (Some h)
       (set_client_private_key (Some (client_key_pem p))
          (set_client_cert (Some (client_cert_pem p))
             (set_server_signing_private_key (Some (server_key_pem p))
                (set_server_signing_cert (Some (server_cert_pem p))
                   (set_ca_cert (Some (ca_pem p)) s)))))).
End Certificates.

(** ** What OpenSSL documents *)

Definition plain_name (n : X509Name) : Prop :=
  forall nid text, (nid, Some text) ∈ n -> string_contains_char ":"%char text = false.

Definition is_ca_constraint (e : Extension) : bool :=
  match e with BasicConstraints _ ca => ca | _ => false end.

(** A certificate says what its builder was told, and verifies under the key that signed it.
    Its text says that it is an authority exactly when the constraint is there; names
    without a colon cannot pretend so. *)
Class X509Laws (X509 PKey Pub : Type) `{X509Lib X509 PKey Pub} : Prop := {
  from_to_pem c p : to_pem c = Some p -> from_pem p = Some c;
  key_from_to_pem k p : key_to_pem k = Some p -> key_from_pem p = Some k;
  raw_key_kind sk k : private_key_from_raw_bytes sk = Some k -> pkey_id (public_of k) = ED25519;
  signed_says b k c : x509_sign b k = Some c ->
    subject_name c = b_subject b /\ issuer_name c = b_issuer b /\ not_before c = b_not_before b /\
    not_after c = b_not_after b /\ public_key c = Some (b_pubkey b);
  signed_verifies b k c : x509_sign b k = Some c -> x509_verify c (public_of k) = Some true;
  signed_text b k c : x509_sign b k = Some c -> plain_name (b_subject b) -> plain_name (b_issuer b) ->
    exists text, to_text c = Some text /\
      str_contains "CA:TRUE" text || str_contains "CA:ALWAYS" text = existsb is_ca_constraint (b_extensions b);
  signed_key b k c k' : x509_sign b k = Some c -> b_pubkey b = public_of k' -> check_private_key c k' = true
}.

Section Accepted.
Context {X509 PKey Pub : Type} `{X509Lib X509 PKey Pub}.
Implicit Types (cert ca : X509) (now : Z) (cn : string).

(** ** The policy, as a relation *)

Definition in_force (c : X509) (now : Z) : Prop := not_before c <= now <= not_after c.

Record certified (now : Z) (ca cert : X509) (cn : string) : Prop := MkCertified {
  v_dates : in_force ca now /\ in_force cert now;
  v_ca_name : first_entry COMMONNAME (subject_name ca) = Some VIRTUAL_CA;
  v_key : exists pub, public_key ca = Some pub /\ pkey_id pub = ED25519 /\ verifies ca pub = true /\ verifies cert pub = true;
  v_constraints : is_cert_ca ca = true /\ is_cert_ca cert = false;
  v_issuer : first_entry COMMONNAME (issuer_name cert) = Some VIRTUAL_CA;
  v_subject : first_entry COMMONNAME (subject_name cert) = Some cn /\ ends_with ISSUER_SUFFIX cn = true;
  v_organization : first_entry ORGANIZATIONNAME (subject_name ca) = None \/
    first_entry ORGANIZATIONNAME (subject_name ca) = Some (norm_id cn)
}.

Lemma fail_if_ok b msg u : fail_if b msg = Ok u <-> b = false.
Proof. destruct b, u; by split. Qed.

Lemma ok_or_ok {A E} (o : option A) (e : E) a : ok_or o e = Ok a <-> o = Some a.
Proof. destruct o; cbn; split; congruence. Qed.

Lemma result_bind_inv {A B E} (r : result A E) (k : A -> result B E) b :
  result_bind r k = Ok b <-> exists a, r = Ok a /\ k a = Ok b.
Proof. destruct r; cbn; [naive_solver|]. split; [done|]. by intros (? & ? & ?). Qed.

Lemma fail_if_bind {B} b msg (k : unit -> result B string) r :
  result_bind (fail_if b msg) k = Ok r <-> b = false /\ k tt = Ok r.
Proof. destruct b; cbn; naive_solver. Qed.

Lemma check_dates_ok ca cert now u : check_dates ca cert now = Ok u <-> in_force ca now /\ in_force cert now.
Proof. unfold check_dates, in_force. rewrite !fail_if_bind, fail_if_ok, !Z.ltb_ge. lia. Qed.

Lemma check_authority_ok ca ca_cn pub :
  check_authority ca ca_cn = Ok pub <->
  ca_cn = VIRTUAL_CA /\ public_key ca = Some pub /\ pkey_id pub = ED25519 /\ verifies ca pub = true.
Proof.
  unfold check_authority. rewrite fail_if_bind, negb_false_iff, String.eqb_eq, result_bind_inv.
  setoid_rewrite fail_if_bind. setoid_rewrite fail_if_bind. setoid_rewrite ok_or_ok.
  setoid_rewrite negb_false_iff. setoid_rewrite bool_decide_eq_true. naive_solver.
Qed.

Lemma check_end_entity_ok ca cert pub cn :
  check_end_entity ca cert pub = Ok cn <->
  is_cert_ca ca = true /\ is_cert_ca cert = false /\ first_entry COMMONNAME (issuer_name cert) = Some VIRTUAL_CA /\
  verifies cert pub = true /\ first_entry COMMONNAME (subject_name cert) = Some cn /\ ends_with ISSUER_SUFFIX cn = true.
Proof.
  unfold check_end_entity. rewrite !fail_if_bind, negb_false_iff, result_bind_inv.
  setoid_rewrite fail_if_bind. setoid_rewrite fail_if_bind. setoid_rewrite result_bind_inv. setoid_rewrite ok_or_ok.
  setoid_rewrite fail_if_bind. setoid_rewrite negb_false_iff. setoid_rewrite String.eqb_eq. naive_solver.
Qed.

Lemma check_organization_ok ca cn u :
  check_organization ca cn = Ok u <->
  first_entry ORGANIZATIONNAME (subject_name ca) = None \/ first_entry ORGANIZATIONNAME (subject_name ca) = Some (norm_id cn).
Proof.
  unfold check_organization. destruct (first_entry ORGANIZATIONNAME (subject_name ca)) as [o|].
  - rewrite fail_if_ok, negb_false_iff, String.eqb_eq. naive_solver.
  - destruct u. naive_solver.
Qed.

(** The handler accepts exactly what the policy allows. *)
Lemma handler_exact now cert_pem ca_pem cn :
  peer_certificate_handler now cert_pem ca_pem = Ok cn <->
  exists cert ca, from_pem cert_pem = Some cert /\ from_pem ca_pem = Some ca /\ certified now ca cert cn.
Proof.
  unfold peer_certificate_handler. split.
  - intros (cert & Hc%ok_or_ok & (ca & Ha%ok_or_ok & (ca_cn & Hn%ok_or_ok & (u & Hd%check_dates_ok &
      (pub & Hk%check_authority_ok & (cn' & He%check_end_entity_ok & (u' & Ho%check_organization_ok & [= <-])
      %result_bind_inv)%result_bind_inv)%result_bind_inv)%result_bind_inv)%result_bind_inv)%result_bind_inv)%result_bind_inv.
    exists cert, ca. split; [done|]. split; [done|]. destruct Hk as (-> & ? & ? & ?), He as (? & ? & ? & ? & ? & ?).
    constructor; eauto 10.
  - intros (cert & ca & Hc & Ha & [Hd Hn (pub & Hp & Hid & Hs & Hv) [Hc1 Hc2] Hi [Hs1 Hs2] Ho]).
    apply result_bind_inv. exists cert. split; [by apply ok_or_ok|]. apply result_bind_inv. exists ca. split; [by apply ok_or_ok|].
    apply result_bind_inv. exists VIRTUAL_CA. split; [by apply ok_or_ok|].
    apply result_bind_inv. exists tt. split; [by apply check_dates_ok|].
    apply result_bind_inv. exists pub. split; [by apply check_authority_ok|].
    apply result_bind_inv. exists cn. split; [by apply check_end_entity_ok|].
    apply result_bind_inv. exists tt. split; [by apply check_organization_ok|done].
Qed.
End Accepted.

(** ** What a node makes *)

Lemma append_cons a (s t : string) : String a s +:+ t = String a (s +:+ t).
Proof. done. Qed.

Lemma contains_app c (s t : string) :
  string_contains_char c (s +:+ t) = string_contains_char c s || string_contains_char c t.
Proof. induction s as [|a s IH]; [done|]. rewrite append_cons. cbn. by rewrite IH, orb_assoc. Qed.

Lemma ends_with_snoc c (s : string) : ends_with c (s +:+ String c EmptyString) = true.
Proof.
  induction s as [|a s IH]; [apply Ascii.eqb_refl|]. rewrite append_cons. cbn.
  destruct (s +:+ String c EmptyString) eqn:E; [by destruct s|exact IH].
Qed.

Lemma trim_end_none c (s : string) : string_contains_char c s = false -> trim_end_matches c s = s.
Proof.
  induction s as [|a s IH]; [done|]. cbn. intros [Ha Hs]%orb_false_iff. rewrite (IH Hs). destruct s; [|done]. by rewrite Ha.
Qed.

Lemma trim_end_snoc c (s : string) :
  string_contains_char c s = false -> trim_end_matches c (s +:+ String c EmptyString) = s.
Proof.
  induction s as [|a s IH]; [intros _; change (trim_end_matches c (String c EmptyString) = EmptyString); cbn; by rewrite Ascii.eqb_refl|].
  rewrite append_cons. cbn. intros [Ha Hs]%orb_false_iff. rewrite (IH Hs). destruct s; [|done]. by rewrite Ha.
Qed.

(** An address: at most 64 characters, no dot, no colon; those of Algorand are 58 of the
    capital letters and digits. *)
Definition plain_address (a : string) : bool :=
  (String.length a <=? 64)%nat && negb (string_contains_char ISSUER_SUFFIX a) && negb (string_contains_char ":"%char a).

Lemma ee_cn_plain a : plain_address a = true -> ee_cn a = a +:+ String ISSUER_SUFFIX EmptyString.
Proof.
  unfold plain_address, ee_cn. intros [[Hl _]%andb_true_iff _]%andb_true_iff. apply Nat.leb_le in Hl.
  by rewrite (proj2 (Nat.ltb_ge _ _) Hl).
Qed.

Lemma norm_ee_cn a : plain_address a = true -> norm_id (ee_cn a) = a.
Proof.
  intros Hp. rewrite (ee_cn_plain _ Hp). unfold plain_address in Hp.
  apply andb_true_iff in Hp as [[_ Hd]%andb_true_iff _]. apply negb_true_iff in Hd. by apply trim_end_snoc.
Qed.

Section Made.
Context {X509 PKey Pub : Type} `{X509Laws X509 PKey Pub}.

Abbreviation name_of a := ([(COMMONNAME, Some VIRTUAL_CA); (ORGANIZATIONNAME, Some a)] : X509Name).

(** When the certificates of the authority and of an end entity are in force. *)
Definition dates_hold (ca_draws d : Draws) (now : Z) : bool :=
  (d_from ca_draws <=? now) && (now <=? d_until ca_draws + 3650 * 86400) &&
  (d_from d <=? now) && (now <=? d_until d + 365 * 86400).

Lemma append_entry_some nid text n n' :
  append_entry_by_nid nid text n = Some n' -> n' = n ++ [(nid, Some text)].
Proof using. unfold append_entry_by_nid. destruct (entry_fits nid text); congruence. Qed.

(** The parts of a successful generation. *)
Lemma generate_parts ops cad sd cd skey ckey p :
  generate_pki_from_ops ops cad sd cd skey ckey = Ok p ->
  exists a sk key ca spk cpk server client,
    ops_address ops = Some a /\ private_key_bytes ops = Ok sk /\ private_key_from_raw_bytes sk = Some key /\
    x509_sign (ca_builder (name_of a) key cad) key = Some ca /\
    x509_sign (end_entity_builder [(COMMONNAME, Some (ee_cn a))] (subject_name ca) spk sd) key = Some server /\
    x509_sign (end_entity_builder [(COMMONNAME, Some (ee_cn a))] (subject_name ca) cpk cd) key = Some client /\
    to_pem ca = Some (ca_pem p) /\ to_pem server = Some (server_cert_pem p) /\ to_pem client = Some (client_cert_pem p) /\
    key_to_pem spk = Some (server_key_pem p) /\ key_to_pem cpk = Some (client_key_pem p).
Proof using.
  unfold generate_pki_from_ops, make_end_entity. destruct (private_key_bytes ops) as [sk|] eqn:Hsk; [cbn|done].
  destruct (negb _); [done|].
  intros (key & Hkey%ok_or_ok & (n1 & Hn1%ok_or_ok%append_entry_some & (a & Ha%ok_or_ok & (n2 & Hn2%ok_or_ok%append_entry_some &
    (ca & Hca%ok_or_ok & (pem & Hpem%ok_or_ok & ([server spk] & Hserver & ([client cpk] & Hclient & (p1 & H1%ok_or_ok &
    (p2 & H2%ok_or_ok & (p3 & H3%ok_or_ok & (p4 & H4%ok_or_ok & [= <-])%result_bind_inv)%result_bind_inv)%result_bind_inv)%result_bind_inv)%result_bind_inv)%result_bind_inv)
    %result_bind_inv)%result_bind_inv)%result_bind_inv)%result_bind_inv)%result_bind_inv)%result_bind_inv.
  subst n1 n2. apply result_bind_inv in Hserver as (k1 & Hk1%ok_or_ok & (x1 & Hx1%ok_or_ok%append_entry_some & (y1 & Hy1%ok_or_ok & [= <- <-])%result_bind_inv)%result_bind_inv).
  apply result_bind_inv in Hclient as (k2 & Hk2%ok_or_ok & (x2 & Hx2%ok_or_ok%append_entry_some & (y2 & Hy2%ok_or_ok & [= <- <-])%result_bind_inv)%result_bind_inv).
  subst x1 x2. exists a, sk, key, ca, k1, k2, y1, y2. cbn in *. split_and!; done.
Qed.

Lemma plain_ca a : plain_address a = true -> plain_name (name_of a).
Proof using.
  unfold plain_address. intros [_ Hc%negb_true_iff]%andb_true_iff nid text Hin.
  apply elem_of_cons in Hin as [[= -> ->]|[[= -> ->]|[]%elem_of_nil]%elem_of_cons]; [by vm_compute|done].
Qed.

Lemma plain_end_entity a : plain_address a = true -> plain_name [(COMMONNAME, Some (ee_cn a))].
Proof using.
  intros Hp nid text [= -> ->]%list_elem_of_singleton. rewrite (ee_cn_plain _ Hp), contains_app.
  unfold plain_address in Hp. apply andb_true_iff in Hp as [_ Hc%negb_true_iff]. by rewrite Hc.
Qed.

(** A certificate signed under the name and key of an authority is certified while both are
    in force. *)
Lemma made_certified a key cad ca k d cert now :
  plain_address a = true -> pkey_id (public_of key) = ED25519 ->
  x509_sign (ca_builder (name_of a) key cad) key = Some ca ->
  x509_sign (end_entity_builder [(COMMONNAME, Some (ee_cn a))] (subject_name ca) k d) key = Some cert ->
  certified now ca cert (ee_cn a) <-> dates_hold cad d now = true.
Proof using All.
  intros Hp Hkind Hca Hcert. pose proof (signed_says _ _ _ Hca) as (Hs & Hi & Hb & Ha & Hk). cbn in *.
  pose proof (signed_says _ _ _ Hcert) as (Hs' & Hi' & Hb' & Ha' & Hk'). cbn in *. rewrite Hs in Hi'.
  destruct (signed_text _ _ _ Hca (plain_ca _ Hp) (plain_ca _ Hp)) as (text & Ht & Hca_text).
  destruct (signed_text _ _ _ Hcert (plain_end_entity _ Hp)) as (text' & Ht' & Hcert_text).
  { cbn. rewrite Hs. by apply plain_ca. }
  unfold dates_hold. rewrite !andb_true_iff, !Z.leb_le.
  assert (certified now ca cert (ee_cn a) <-> in_force ca now /\ in_force cert now) as ->.
  { split; [by intros []|]. intros Hd. constructor; unfold verifies, is_cert_ca; rewrite ?Hs, ?Hs', ?Hi', ?Ht, ?Ht', ?norm_ee_cn by done.
    - exact Hd.
    - done.
    - exists (public_of key). rewrite (signed_verifies _ _ _ Hca), (signed_verifies _ _ _ Hcert). done.
    - by rewrite Hca_text, Hcert_text.
    - done.
    - split; [done|]. rewrite (ee_cn_plain _ Hp). apply ends_with_snoc.
    - by right. }
  unfold in_force. rewrite Hb, Ha, Hb', Ha'. unfold days_from_now. lia.
Qed.

(** A node's own certificates are accepted.  What [generate_pki_from_ops] makes for an
    account, presented to any node, is accepted under the account's address exactly while
    the certificates are in force: the server's and the client's, each with the authority. *)
Theorem own_certificates_accepted ops cad sd cd skey ckey p a now :
  generate_pki_from_ops ops cad sd cd skey ckey = Ok p -> ops_address ops = Some a -> plain_address a = true ->
  norm_id (ee_cn a) = a /\
  (peer_certificate_handler now (server_cert_pem p) (ca_pem p) = Ok (ee_cn a) <-> dates_hold cad sd now = true) /\
  (peer_certificate_handler now (client_cert_pem p) (ca_pem p) = Ok (ee_cn a) <-> dates_hold cad cd now = true).
Proof using All.
  intros Hg Ha Hp. split; [by apply norm_ee_cn|].
  destruct (generate_parts _ _ _ _ _ _ _ Hg) as (a' & sk & key & ca & spk & cpk & server & client & Ha' & _ & Hkey &
    Hca & Hserver & Hclient & Pca%from_to_pem & Pserver%from_to_pem & Pclient%from_to_pem & _).
  rewrite Ha in Ha'. injection Ha' as <-. apply raw_key_kind in Hkey.
  rewrite !handler_exact, Pca, Pserver, Pclient,
    <- (made_certified a key cad ca spk sd server now), <- (made_certified a key cad ca cpk cd client now) by done.
  naive_solver.
Qed.
End Made.

(** ** Handshakes between nodes *)

Section Handshakes.
Context {X509 PKey Pub : Type} `{X509Laws X509 PKey Pub} (from_utf8_lossy : list Z -> string).

(** The certificates a context sends, and what the peer's callback is shown of its own. *)
Definition presented (ctx : @Context_ X509 PKey) : list X509 := option_list (own_cert ctx) ++ extra_chain ctx.
Definition shown (certs : list X509) : StoreCtx := MkStoreCtx 0 (Some certs) (head certs).

(** What is known of a peer once it has presented two certificates. *)
Definition seen (cipher : string) (certs : list X509) : peer_info :=
  MkInfo cipher (to_pem <$> head certs) (last certs ≫= to_pem).

(** Both contexts of a node that has installed its certificates. *)
Lemma installed_contexts ops cad sd cd skey ckey p h :
  generate_pki_from_ops ops cad sd cd skey ckey = Ok p ->
  exists a ca server client sctx cctx,
    ops_address ops = Some a /\ from_pem (ca_pem p) = Some ca /\ to_pem ca = Some (ca_pem p) /\
    to_pem server = Some (server_cert_pem p) /\ to_pem client = Some (client_cert_pem p) /\
    start_accept (install_pki p h settings_new) = Ok sctx /\ presented sctx = [server; ca] /\
    verify_mode sctx = VerifyPeer true (verify_callback h) /\
    prepare_client_context (install_pki p h settings_new) = Ok cctx /\ presented cctx = [client; ca] /\
    verify_mode cctx = VerifyPeer false (verify_callback h).
Proof using All.
  intros Hg. destruct (generate_parts _ _ _ _ _ _ _ Hg) as (a & sk & key & ca & spk & cpk & server & client & Ha & _ & _ &
    Hca & Hserver & Hclient & Pca & Pserver & Pclient & Kserver%key_from_to_pem & Kclient%key_from_to_pem).
  exists a, ca, server, client.
  unfold start_accept, prepare_server_acceptor, prepare_client_context, present. cbn.
  rewrite (from_to_pem _ _ Pca), (from_to_pem _ _ Pserver), (from_to_pem _ _ Pclient), Kserver, Kclient. cbn.
  rewrite (signed_key _ _ _ _ Hserver), (signed_key _ _ _ _ Hclient) by done. cbn.
  eexists _, _. split_and!; done.
Qed.

(** (C9) Nodes authenticate each other.  When a node has installed the certificates of its
    account, its acceptor and its connector can be built, both demand that the peer passes
    the certificate handler, and what either presents passes the handler of any other node
    while it is in force: the handshake goes on and, accepting or connecting, the other node
    files the session under the account's address. *)
Theorem nodes_authenticate ops cad sd cd skey ckey p a now h cipher :
  generate_pki_from_ops ops cad sd cd skey ckey = Ok p -> ops_address ops = Some a ->
  plain_address a = true -> a <> EmptyString ->
  dates_hold cad sd now = true -> dates_hold cad cd now = true ->
  (forall pem ca, h pem ca = peer_certificate_handler now pem ca) ->
  exists sctx cctx,
    start_accept (install_pki p h settings_new) = Ok sctx /\
    prepare_client_context (install_pki p h settings_new) = Ok cctx /\
    verify_mode sctx = VerifyPeer true (verify_callback h) /\ verify_mode cctx = VerifyPeer false (verify_callback h) /\
    verify_callback h (shown (presented sctx)) = true /\ verify_callback h (shown (presented cctx)) = true /\
    accept_verdict (Some h) from_utf8_lossy (seen cipher (presented cctx)) = Named a /\
    connect_verdict (Some h) (seen cipher (presented sctx)) = Some a.
Proof using All.
  intros Hg Ha Hp Hne Hs Hc Hh.
  destruct (installed_contexts ops cad sd cd skey ckey p h Hg) as (a' & ca & server & client & sctx & cctx & Ha' & _ & Pca &
    Pserver & Pclient & Es & Is & Ms & Ec & Ic & Mc).
  rewrite Ha in Ha'. injection Ha' as <-.
  destruct (generate_parts _ _ _ _ _ _ _ Hg) as (a' & sk & key & ca' & spk & cpk & server' & client' & Ha' & _ & Hkey &
    Hca & Hserver & Hclient & Qca & Qserver & Qclient & _).
  rewrite Ha in Ha'. injection Ha' as <-. apply raw_key_kind in Hkey.
  apply (made_certified a key cad ca' spk sd server' now Hp Hkey Hca Hserver) in Hs.
  apply (made_certified a key cad ca' cpk cd client' now Hp Hkey Hca Hclient) in Hc.
  assert (h (server_cert_pem p) (ca_pem p) = Ok (ee_cn a)) as Vs
    by (rewrite Hh; apply handler_exact; exists server', ca'; split_and!; [by apply from_to_pem..|done]).
  assert (h (client_cert_pem p) (ca_pem p) = Ok (ee_cn a)) as Vc
    by (rewrite Hh; apply handler_exact; exists client', ca'; split_and!; [by apply from_to_pem..|done]).
  assert (bool_decide (ee_cn a = EmptyString) = false) as He.
  { apply bool_decide_eq_false. rewrite (ee_cn_plain _ Hp). by destruct a. }
  exists sctx, cctx. rewrite Is, Ic.
  unfold verify_callback, presented_ca, shown, seen, accept_verdict, connect_verdict. cbn.
  rewrite Pca, Pserver, Pclient. cbn. rewrite Vs, Vc. cbn. rewrite He, (norm_ee_cn _ Hp). split_and!; done.
Qed.

(** (C8) Nobody is heard under a name without a valid chain.  When the sessions use the
    certificate handler, at whatever times it ran, a message handed to the application
    under a name came from an endpoint with which a handshake was completed in which the
    peer presented a certificate of that name, in force when the handler ran and signed by
    a self-signed Ed25519 authority under the virtual name, itself in force and naming the
    same account or none.  The name is the endpoint's, not the session's: of two sessions
    of one endpoint, the message may have come over the one whose peer presented another
    certificate ([stale_accept_renames_session]). *)
Theorem names_have_chains h local_addr evs s k name data :
  (forall pem ca, exists now, h pem ca = peer_certificate_handler now pem ca) ->
  run (Some h) from_utf8_lossy local_addr evs dtls_new = Returns s ->
  Delivered k name data ∈ notes s ->
  exists i pem ca_pem cert ca now subject,
    Handshaken k i ∈ notes s /\ pi_cert i = Some (Some pem) /\ pi_ca i = Some ca_pem /\
    from_pem pem = Some cert /\ from_pem ca_pem = Some ca /\
    certified now ca cert subject /\ name = norm_id subject /\ name <> EmptyString.
Proof using.
  intros Hh E Hd. destruct (sound_run _ _ _ _ _ E) as [T _].
  destruct (to_delivered _ _ _ T _ _ _ Hd) as (Hne & i & Hi & Hv); [done|].
  destruct (verdict_subject (Some h) from_utf8_lossy h i name eq_refl Hv) as (pem & capem & subject & Hp & Hc & Hs & _ & ->).
  destruct (Hh pem capem) as [now Hnow]. rewrite Hnow in Hs. apply handler_exact in Hs as (cert & ca & ? & ? & ?).
  exists i, pem, capem, cert, ca, now, subject. split_and!; done.
Qed.
End Handshakes.

(** ** Which settings turn verification off *)

Inductive Setting : Type :=
| SetCaCert (pem : option (list Z)) | SetClientCert (pem : option (list Z)) | SetClientKey (pem : option (list Z))
| SetServerCert (pem : option (list Z)) | SetServerKey (pem : option (list Z))
| SetHandler (h : option HandlePeerCertificate)
| SetNullEncryption (b : bool) | SetAppLayerOnly (b : bool) | SetDangerousDebug (b : bool).

Definition setting (s : Settings) (op : Setting) : Settings :=
  match op with
  | SetCaCert p => set_ca_cert p s | SetClientCert p => set_client_cert p s | SetClientKey p => set_client_private_key p s
  | SetServerCert p => set_server_signing_cert p s | SetServerKey p => set_server_signing_private_key p s
  | SetHandler h => set_handle_peer_certificate h s
  | SetNullEncryption b => set_null_encryption b s
  | SetAppLayerOnly b => set_app_layer_only_verification b s
  | SetDangerousDebug b => set_dangerous_debug b s
  end.

Definition strict (s : Settings) : Prop :=
  null_encryption s = false /\ app_layer_only_verification s = false /\ dangerous_debug s = false.

Lemma setting_strict s op : op <> SetDangerousDebug true -> strict s -> strict (setting s op).
Proof.
  intros Hop (Hn & Ha & Hd). destruct op as [| | | | | |b|b|b]; try by split_and!.
  1-2: unfold setting, set_null_encryption, set_app_layer_only_verification; rewrite Hd; by split_and!.
  destruct b; by split_and!.
Qed.

Lemma settings_strict ops s : SetDangerousDebug true ∉ ops -> strict s -> strict (foldl setting s ops).
Proof.
  revert s. induction ops as [|op ops IH]; intros s Hops Hs; [done|]. apply not_elem_of_cons in Hops as [Hop Hops].
  cbn. apply IH; [done|]. by apply setting_strict.
Qed.

Section Policy.
Context {X509 PKey Pub : Type} `{X509Lib X509 PKey Pub}.

(** A context without the null cipher, the log of the keys and the lowered security. *)
Definition no_debugging (ctx : @Context_ X509 PKey) : Prop :=
  null_ciphers ctx = false /\ keylog ctx = false /\ security_level_zero ctx = false.

(** The callback lets a peer's own certificate pass only if it came with the certificate of an
    authority, the last of its chain, and the handler accepts the two. *)
Definition heeds (h : HandlePeerCertificate) (callback : @StoreCtx X509 -> bool) : Prop :=
  forall c, error_depth c = 0 -> callback c = true ->
  exists certs ca cert ca_pem cert_pem,
    ctx_chain c = Some certs /\ (2 <= length certs)%nat /\ last certs = Some ca /\ to_pem ca = Some ca_pem /\
    current_cert c = Some cert /\ to_pem cert = Some cert_pem /\ is_ok (h cert_pem ca_pem) = true.

Lemma verify_callback_heeds h : heeds h (verify_callback h).
Proof using.
  intros c Hd Hc. unfold verify_callback, presented_ca in Hc. rewrite Hd in Hc. cbn [negb Z.eqb] in Hc.
  destruct (ctx_chain c) as [certs|] eqn:Ec; cbn [mbind option_bind] in Hc; [|done].
  destruct (2 <=? length certs)%nat eqn:Elen; [|cbn in Hc; discriminate Hc]. apply Nat.leb_le in Elen.
  destruct (last certs) as [ca|] eqn:El; cbn in Hc; [|done]. destruct (to_pem ca) as [ca_pem|] eqn:Ea; [|done].
  destruct (current_cert c) as [cert|] eqn:Ee; cbn in Hc; [|done]. destruct (to_pem cert) as [cert_pem|] eqn:Ep; [|done].
  exists certs, ca, cert, ca_pem, cert_pem. by split_and!.
Qed.

(** (C10) Verification is not turned off by accident.  However the credentials, the handler and
    the flags are set, unless the debug flag was switched on at some time: a connector is
    built only when there is a handler, and it verifies the peer's certificate by it; an
    acceptor that is built while there is a handler verifies by it too, and refuses a peer
    that shows no certificate at all; neither offers the null cipher, writes out the keys
    or lowers the security level.  To verify by the handler is to let a peer pass only
    with a chain whose end and whose authority the handler accepts. *)
Theorem verification_enforced ops :
  SetDangerousDebug true ∉ ops ->
  let s := foldl setting settings_new ops in
  (forall ctx, prepare_client_context s = Ok ctx ->
     no_debugging ctx /\ exists h callback, handle_peer_certificate s = Some h /\
       verify_mode ctx = VerifyPeer false callback /\ heeds h callback) /\
  (forall ctx, prepare_server_acceptor s = Ok ctx ->
     no_debugging ctx /\ forall h, handle_peer_certificate s = Some h ->
       exists callback, verify_mode ctx = VerifyPeer true callback /\ heeds h callback).
Proof using.
  intros Hops s. destruct (settings_strict ops settings_new Hops) as (Hn & Ha & Hd); [by split_and!|]. fold s in Hn, Ha, Hd.
  split; intros ctx E.
  - unfold prepare_client_context in E. rewrite Hn, Ha, Hd in E. apply result_bind_inv in E as (own & _ & E).
    destruct (handle_peer_certificate s) as [h|]; [|cbn in E; discriminate E]. cbn in E.
    pose proof (verify_callback_heeds h).
    destruct own as [[[? ?] ?]|]; injection E as <-; (split; [done|]); by exists h, (verify_callback h).
  - unfold prepare_server_acceptor in E. rewrite Hn, Ha, Hd in E.
    apply result_bind_inv in E as (? & _ & (? & _ & (? & _ & ([[? ?] ?] & _ & [= <-])%result_bind_inv)%result_bind_inv)%result_bind_inv).
    split; [done|]. intros h Hh. cbn. rewrite Hh. exists (verify_callback h). split; [done|]. apply verify_callback_heeds.
Qed.
End Policy.

(** ** A small library *)

(** Certificates that are what their builder was told, with the key that signed; keys are
    numbers, those of elliptic curves are negative. *)
Module SmallX509.
Definition bool_code (b : bool) : Z := if b then 1 else 0.
Definition usage_code (u : Usage) : Z :=
  match u with KeyCertSign => 0 | CrlSign => 1 | DigitalSignature => 2 | ServerAuth => 3 | ClientAuth => 4 end.
Definition usage_of (z : Z) : Usage :=
  match z with 0 => KeyCertSign | 1 => CrlSign | 2 => DigitalSignature | 3 => ServerAuth | _ => ClientAuth end.
Definition extension_code (e : Extension) : list Z :=
  match e with
  | BasicConstraints c a => [0; bool_code c; bool_code a]
  | KeyUsage c l => 1 :: bool_code c :: map usage_code l
  | ExtendedKeyUsage l => 2 :: map usage_code l
  | SubjectKeyIdentifier => [3]
  | AuthorityKeyIdentifier k i => [4; bool_code k; bool_code i]
  end.
Definition extension_of (l : list Z) : option Extension :=
  match l with
  | [0; c; a] => Some (BasicConstraints (c =? 1) (a =? 1))
  | 1 :: c :: l => Some (KeyUsage (c =? 1) (map usage_of l))
  | 2 :: l => Some (ExtendedKeyUsage (map usage_of l))
  | [3] => Some SubjectKeyIdentifier
  | [4; k; i] => Some (AuthorityKeyIdentifier (k =? 1) (i =? 1))
  | _ => None
  end.

Lemma extension_of_code e : extension_of (extension_code e) = Some e.
Proof.
  assert (forall l, map usage_of (map usage_code l) = l) as Hu.
  { intros l. rewrite List.map_map. etransitivity; [|apply List.map_id]. apply List.map_ext. by intros []. }
  destruct e; cbn; rewrite ?Hu; repeat match goal with b : bool |- _ => destruct b end; done.
Qed.

#[export] Instance extension_eq_dec : EqDecision Extension.
Proof.
  refine (fun e f => cast_if (decide (extension_code e = extension_code f))); [|congruence].
  apply (inj Some). by rewrite <- !extension_of_code, e0.
Defined.
#[export] Instance extension_countable : Countable Extension :=
  inj_countable extension_code extension_of extension_of_code.

#[export] Instance nid_countable : Countable Nid :=
  inj_countable' (fun n => bool_decide (n = COMMONNAME)) (fun b : bool => if b then COMMONNAME else ORGANIZATIONNAME)
    (fun n => match n with COMMONNAME | ORGANIZATIONNAME => eq_refl end).

Abbreviation certificate := (Builder Z * Z)%type.

(** One number for each part. *)
Definition pack {A} `{Countable A} (a : A) : Z := Zpos (encode a).
Definition unpack {A} `{Countable A} (z : Z) : option A := match z with Zpos p => decode p | _ => None end.

Lemma unpack_pack {A} `{Countable A} (a : A) : unpack (pack a) = Some a.
Proof. apply decode_encode. Qed.

Definition to_pem_ (c : certificate) : option (list Z) :=
  match c with
  | (MkBuilder v s n i k f u e, signer) => Some [v; s; pack n; pack i; k; f; u; pack e; signer]
  end.
Definition from_pem_ (l : list Z) : option certificate :=
  match l with
  | [v; s; n; i; k; f; u; e; signer] =>
      n ← unpack n; i ← unpack i; e ← unpack e; Some (MkBuilder v s n i k f u e, signer)
  | _ => None
  end.

#[export] Instance lib : X509Lib certificate Z Z := {
  from_pem := from_pem_;
  to_pem := to_pem_;
  subject_name := fun c => b_subject c.1;
  issuer_name := fun c => b_issuer c.1;
  not_before := fun c => b_not_before c.1;
  not_after := fun c => b_not_after c.1;
  public_key := fun c => Some (b_pubkey c.1);
  pkey_id := fun k => if 0 <=? k then ED25519 else EC;
  x509_verify := fun c k => Some (c.2 =? k);
  to_text := fun c => Some (if existsb is_ca_constraint (b_extensions c.1) then "CA:TRUE" else "CA:FALSE")%string;
  entry_fits := fun _ s => (String.length s <=? 64)%nat;
  private_key_from_raw_bytes := fun l => if forallb (fun b => 0 <=? b) l then Some (from_be_bytes l) else None;
  public_of := fun k => k;
  key_from_pem := fun l => match l with [k] => Some k | _ => None end;
  key_to_pem := fun k => Some [k];
  check_private_key := fun c k => b_pubkey c.1 =? k;
  x509_sign := fun b k => Some (b, k)
}.

Lemma be_value_nonneg l acc : 0 <= acc -> forallb (fun b => 0 <=? b) l = true -> 0 <= be_value acc l.
Proof.
  revert acc. induction l as [|b l IH]; [done|]. intros acc Ha [Hb%Z.leb_le Hl]%andb_true_iff. cbn. apply IH; [lia|done].
Qed.

#[export] Instance laws : X509Laws certificate Z Z.
Proof.
  constructor; cbn.
  - intros [[] k] p [= <-]. unfold from_pem_. by rewrite !unpack_pack.
  - by intros k p [= <-].
  - intros sk k. destruct (forallb _ sk) eqn:E; [|done]. intros [= <-].
    unfold from_be_bytes. by rewrite (proj2 (Z.leb_le _ _) (be_value_nonneg sk 0 ltac:(done) E)).
  - intros b k c [= <-]. by split_and!.
  - intros b k c [= <-]. cbn. by rewrite Z.eqb_refl.
  - intros b k c [= <-] _ _. eexists. split; [done|]. cbn. by destruct (existsb _ _).
  - intros b k c k' [= <-] Hk. cbn. by apply Z.eqb_eq.
Qed.

Definition draws : Draws := MkDraws 7 1000 1000.
Definition account (address : string) (secret : Z) : AlgoOps := MkAlgoOps (Some address) (Ok (replicate 31 0 ++ [secret])).
Definition pki (address : string) (secret : Z) : result Pki string :=
  generate_pki_from_ops (account address secret) draws draws draws (Some (-1)) (Some (-2)).
Definition alice : Pki := Eval vm_compute in
  match pki "ALICE" 5 with Ok p => p | Err _ => MkPki [] [] [] [] [] end.
(** The same name, under the key of another account. *)
Definition mallory : Pki := Eval vm_compute in
  match pki "ALICE" 6 with Ok p => p | Err _ => MkPki [] [] [] [] [] end.
Definition handler : HandlePeerCertificate := peer_certificate_handler 2000.

(** A packet from [b]; the handshake of its session ends, with these certificates, and a
    message is read. *)
Definition session_of (p : Pki) : list event :=
  let info := MkInfo "AES" (Some (Some (client_cert_pem p))) (Some (ca_pem p)) in
  DtlsExample.arrives DtlsExample.b 0 ++ DtlsExample.steps 4 1 (MkObs true true false (Some info) ReadIdle) ++
  [EvRun 1 (DtlsExample.reading (ReadData [5; 6]))].
Definition after (p : Pki) : dtls := Eval cbv beta in
  match run (Some handler) (fun _ => EmptyString) DtlsExample.a (session_of p) dtls_new with
  | Returns s => s
  | Panics => dtls_new
  end.
Definition after_alice : dtls := Eval vm_compute in after alice.
End SmallX509.
#[local] Existing Instance SmallX509.lib.
#[local] Existing Instance SmallX509.laws.

Lemma own_certificates_accepted_witness :
  SmallX509.handler (server_cert_pem SmallX509.alice) (ca_pem SmallX509.alice) = Ok "ALICE."%string.
Proof.
  assert (SmallX509.pki "ALICE" 5 = Ok SmallX509.alice) as E by (vm_compute; reflexivity).
  assert (plain_address "ALICE" = true) as Hp by (vm_compute; reflexivity).
  destruct (own_certificates_accepted (SmallX509.account "ALICE" 5) _ _ _ _ _ _ "ALICE" 2000 E eq_refl Hp) as (_ & H & _).
  apply H. vm_compute. reflexivity.
Defined.

Lemma nodes_authenticate_witness :
  exists ctx, prepare_client_context (install_pki SmallX509.alice SmallX509.handler settings_new) = Ok ctx /\
    verify_callback SmallX509.handler (shown (presented ctx)) = true.
Proof.
  assert (SmallX509.pki "ALICE" 5 = Ok SmallX509.alice) as E by (vm_compute; reflexivity).
  assert (plain_address "ALICE" = true) as Hp by (vm_compute; reflexivity).
  destruct (nodes_authenticate (fun _ => EmptyString) (SmallX509.account "ALICE" 5) _ _ _ _ _ _ "ALICE" 2000
    SmallX509.handler "AES" E eq_refl Hp ltac:(discriminate) eq_refl eq_refl (fun _ _ => eq_refl))
    as (sctx & cctx & _ & Ec & _ & _ & _ & Hc & _).
  exists cctx. split; [exact Ec|exact Hc].
Defined.

Lemma names_have_chains_witness :
  Delivered (DtlsExample.key DtlsExample.b) "ALICE" [5; 6] ∈ notes SmallX509.after_alice /\
  exists pem cert, from_pem pem = Some cert /\ first_entry COMMONNAME (subject_name cert) = Some "ALICE."%string.
Proof.
  assert (Delivered (DtlsExample.key DtlsExample.b) "ALICE" [5; 6] ∈ notes SmallX509.after_alice) as Hd.
  { vm_compute. right. left. }
  assert (run (Some SmallX509.handler) (fun _ => EmptyString) DtlsExample.a (SmallX509.session_of SmallX509.alice) dtls_new =
    Returns SmallX509.after_alice) as E by (vm_compute; reflexivity).
  split; [exact Hd|].
  destruct (names_have_chains (fun _ => EmptyString) SmallX509.handler DtlsExample.a _ _ _ _ _
    (fun pem ca => ex_intro _ 2000 eq_refl) E Hd) as (i & pem & capem & cert & ca & now & subject & Hi & Hp & Hc & Hf & _ & Hv & Hn & _).
  exists pem, cert. split; [exact Hf|]. destruct Hv as [_ _ _ _ _ [Hs He] _]. rewrite Hs. f_equal.
  assert (pem = client_cert_pem SmallX509.alice) as ->.
  { assert (Forall (fun n => match n with Handshaken _ i => pi_cert i = Some (Some (client_cert_pem SmallX509.alice)) | _ => True end)
      (notes SmallX509.after_alice)) as Hall by (vm_compute; repeat constructor).
    rewrite Forall_forall in Hall. specialize (Hall _ Hi). change (pi_cert i = Some (Some (client_cert_pem SmallX509.alice))) in Hall.
    rewrite Hp in Hall. by injection Hall. }
  vm_compute in Hf. injection Hf as <-. vm_compute in Hs. congruence.
Defined.

Lemma verification_enforced_witness :
  exists sctx cctx,
    prepare_server_acceptor (install_pki SmallX509.alice SmallX509.handler settings_new) = Ok sctx /\
    prepare_client_context (install_pki SmallX509.alice SmallX509.handler settings_new) = Ok cctx /\
    (exists callback, verify_mode sctx = VerifyPeer true callback /\ heeds SmallX509.handler callback) /\
    no_debugging cctx.
Proof.
  pose (ops := [SetCaCert (Some (ca_pem SmallX509.alice)); SetServerCert (Some (server_cert_pem SmallX509.alice));
    SetServerKey (Some (server_key_pem SmallX509.alice)); SetClientCert (Some (client_cert_pem SmallX509.alice));
    SetClientKey (Some (client_key_pem SmallX509.alice)); SetHandler (Some SmallX509.handler); SetAppLayerOnly false]).
  assert (SetDangerousDebug true ∉ ops) as Hops by (unfold ops; set_solver).
  change (install_pki SmallX509.alice SmallX509.handler settings_new) with (foldl setting settings_new ops).
  destruct (verification_enforced ops Hops) as [Hc Hs].
  destruct (prepare_client_context (foldl setting settings_new ops)) as [cctx|e] eqn:Ec; [|vm_compute in Ec; discriminate Ec].
  destruct (prepare_server_acceptor (foldl setting settings_new ops)) as [sctx|e] eqn:Es; [|vm_compute in Es; discriminate Es].
  exists sctx, cctx. split; [reflexivity|]. split; [reflexivity|].
  destruct (Hs sctx eq_refl) as [_ Hv]. split; [exact (Hv _ eq_refl)|]. exact (proj1 (Hc cctx eq_refl)).
Defined.

(** The key of the authority is not compared with the address.  Mallory signs certificates
    under Alice's address with an authority of another key: every node accepts them, and a
    message Mallory sends is handed to the application as Alice's. *)
Theorem authority_key_unchecked :
  SmallX509.pki "ALICE" 6 = Ok SmallX509.mallory /\
  (public_key <$> from_pem (ca_pem SmallX509.mallory)) <> (public_key <$> from_pem (ca_pem SmallX509.alice)) /\
  SmallX509.handler (client_cert_pem SmallX509.mallory) (ca_pem SmallX509.mallory) = Ok "ALICE."%string /\
  Delivered (DtlsExample.key DtlsExample.b) "ALICE" [5; 6] ∈ notes (SmallX509.after SmallX509.mallory).
Proof. split_and!; [by vm_compute|by vm_compute|by vm_compute|vm_compute; right; left]. Qed.

(** Once set, the flag that leaves verification to the application survives the end of
    debugging and cannot be cleared: the connector verifies nothing while the acceptor does. *)
Theorem debug_leaves_connector_open :
  let s := foldl setting (install_pki SmallX509.alice SmallX509.handler settings_new)
             [SetDangerousDebug true; SetAppLayerOnly true; SetDangerousDebug false; SetAppLayerOnly false] in
  dangerous_debug s = false /\
  (exists c, prepare_client_context s = Ok c /\ verify_mode c = VerifyNone) /\
  (exists c, prepare_server_acceptor s = Ok c /\ verify_mode c <> VerifyNone).
Proof. cbn. split; [done|]. split; eexists; (split; [vm_compute; reflexivity|done]). Qed.
