(* ===== verification/ApiStart.v ===== *)
(** * Starting the API

    Models [BingleApiImpl::start] of [src/bingle_core/src/api/bingle_api_impl.rs] with the
    checks before it, [Engine::set_issuer] and [Engine::get_signing_key] of
    [engine/mod.rs]: the composition of the chain's client ([Chain]), the certificates
    ([Certs]) and the engine's life cycle ([Lifecycle]).

    The options are those of [CliArgs].  What stands for the account of a passphrase, and
    the node asked for its balance, are parameters.  The callbacks that [start] installs
    only pass on what [Api] and [EngineIo] model. *)
From S2P Require Import Prelude NetAddr Advert Ddb RelayCache Turn Mutex Stun Messages Handlers EngineIo HandleCache Api Chain CliArgs Lifecycle Dtls Certs.
Import Api.

Local Open Scope Z_scope.

(** What [start] fails with. *)
Inductive start_error : Type :=
| NodeUnreachable (e : string)
| NotAllowedToRelay (account : string)
| NotOptedIn (account : string)
| BadPassphrase (e : string)
| PkiFailed (e : string)
| EngineFailed (e : BingleError).

Record api_state (CW W : Type) : Type := MkApiState {
  sa_chain : chain CW;
  sa_options : CliArgs.StartOptions;
  sa_settings : Settings;
  sa_life : life W
}.
Arguments MkApiState {CW W}. Arguments sa_chain {CW W}. Arguments sa_options {CW W}. Arguments sa_settings {CW W}.
Arguments sa_life {CW W}.

(** What is drawn for the certificates of one start. *)
Record pki_draws (PKey : Type) : Type := MkPkiDraws {
  ca_draws : Draws; server_draws : Draws; client_draws : Draws;
  server_ec_key : option PKey; client_ec_key : option PKey
}.
Arguments ca_draws {PKey}. Arguments server_draws {PKey}. Arguments client_draws {PKey}.
Arguments server_ec_key {PKey}. Arguments client_ec_key {PKey}.

(** [set_issuer]: a second issuer is ignored. *)
Definition set_issuer (i : string) (n : node) : node :=
  match Handlers.issuer n with
  | Some _ => n
  | None =>
      MkNodeState (Some i) (backend n) (turn_handler_relay n) (turn_handler_client n) (relay_finder n)
        (node_relay_state n) (last_public_addr n) (peer_ddb_records n) (signon_complete n) (relay_init_mutex n)
        (Handlers.life n)
  end.

Section Start.
Context {CW W SigningKey X509 PKey Pub : Type} `{AlgoNode CW} `{Outside W} `{Finder W} `{X509Lib X509 PKey Pub}.
Context (ops_of : string -> AlgoOps) (signing_key_of_bytes : list Z -> SigningKey).
Context (account_balance : option string -> CW -> CW * result (option Z) string) (unreachable : string -> bool).
Context (base : Api.setting SigningKey) (null_client : bool) (debug_build : bool) (clock_of_handler : list Z -> list Z -> Z).

Abbreviation state := (api_state CW W).

(** The certificate handler, with the clock it reads. *)
Definition certificate_handler : HandlePeerCertificate :=
  fun cert ca => peer_certificate_handler (clock_of_handler cert ca) cert ca.

Definition get_signing_key (o : CliArgs.StartOptions) : option SigningKey :=
  pass ← algo_passphrase o;
  sk ← result_ok (private_key_bytes (ops_of pass));
  if (length sk =? 32)%nat then Some (signing_key_of_bytes sk) else None.

(** How a node with these options is configured. *)
Definition node_setting (o : CliArgs.StartOptions) : Api.setting SigningKey :=
  MkSetting _ (show_uuid base) (parse_uuid base) (base32_decode base) (show_ipv6 base) (parse_ipv6 base) (to_vec base)
    (sign base) (ed25519_verify base) (valid_key base) (base64_encode base) (base64_decode base)
    (address_to_byte_key base) (get_signing_key o) (am_relay o) (bool_decide (is_Some (CliArgs.app_id o)))
    (bool_decide (is_Some (algo_provider_config o))) ((fun s => s * 1000) <$> handle_cache_expiry_secs o)
    (surroundings base) (run_dispatch base).

Definition engine_options (o : CliArgs.StartOptions) : Lifecycle.options :=
  MkOptions (CliArgs.handle o) (static_ip o) (default [] (stun_servers o)) (effective_advert_ttl None).

(** The debug flag is refused outside of debug builds. *)
Definition check_dangerous_debug (o : CliArgs.StartOptions) : outcome unit :=
  if CliArgs.dangerous_debug o && negb debug_build then Panics else Returns tt.

(** Fails only when the chain's node cannot be reached. *)
Definition check_connectivity (o : CliArgs.StartOptions) (s : chain CW) : chain CW * result unit start_error :=
  match algo_provider_config o with
  | None => (s, Ok tt)
  | Some _ =>
      let '(w, r) := account_balance (algo_passphrase o) (Chain.world s) in
      (Chain.MkChain (Chain.cache s) w (Chain.sent s),
       match r with
       | Err e => if unreachable e then Err (NodeUnreachable e) else Ok tt
       | Ok _ => Ok tt
       end)
  end.

(** A relay needs the permission of the chain; a permission that cannot be read is passed. *)
Definition check_relay_permission (o : CliArgs.StartOptions) (s : chain CW) : chain CW * result unit start_error :=
  match am_relay o, algo_provider_config o, CliArgs.app_id o, algo_passphrase o with
  | true, Some _, Some app, Some pass =>
      match ops_address (ops_of pass) with
      | None => (s, Ok tt)
      | Some addr =>
          match check_allow_relay app addr s with
          | (s, Ok (Some true)) => (s, Ok tt)
          | (s, Ok (Some false)) => (s, Err (NotAllowedToRelay addr))
          | (s, Ok None) => (s, Err (NotOptedIn addr))
          | (s, Err _) => (s, Ok tt)
          end
      end
  | _, _, _, _ => (s, Ok tt)
  end.

(** The issuer and the certificates of the account, where a passphrase is given. *)
Definition install_identity (o : CliArgs.StartOptions) (d : pki_draws PKey) (st : Settings) (n : node)
  : Settings * node * result unit start_error :=
  match algo_passphrase o with
  | None => (st, n, Ok tt)
  | Some pass =>
      let ops := ops_of pass in
      match ops_address ops with
      | None =>
          (st, n, Err (BadPassphrase match private_key_bytes ops with Err e => e | Ok _ => "unknown error" end))
      | Some addr =>
          let n := set_issuer (addr +:+ String ISSUER_SUFFIX EmptyString) n in
          match generate_pki_from_ops ops (ca_draws d) (server_draws d) (client_draws d) (server_ec_key d) (client_ec_key d) with
          | Ok p => (install_pki p certificate_handler st, n, Ok tt)
          | Err e => (st, n, Err (PkiFailed e))
          end
      end
  end.

Definition with_node (n : node) (f : life W) : life W :=
  set_api (MkApi (Api.outside (lf_api f)) (set_node n (Api.eng (lf_api f))) (handle_cache (lf_api f))) f.

(** The engine is started; [bind_ok]: the socket and the multiplexer could be. *)
Definition start_engine (o : CliArgs.StartOptions) (bind_ok : bool) (x : state) : outcome (state * result unit start_error) :=
  let transport := bind_ok && is_ok (start_accept (sa_settings x)) in
  match Lifecycle.start (node_setting o) null_client (engine_options o) transport (sa_life x) with
  | Panics => Panics
  | Returns (f, r) => Returns (MkApiState (sa_chain x) (sa_options x) (sa_settings x) f, map_err EngineFailed r)
  end.

(** The checks on the chain. *)
Definition start_checks (o : CliArgs.StartOptions) (x : state) : state * result unit start_error :=
  let '(s, r) := check_connectivity o (sa_chain x) in
  let '(s, r) := match r with Ok _ => check_relay_permission o s | Err e => (s, Err e) end in
  (MkApiState s (sa_options x) (sa_settings x) (sa_life x), r).

Definition start (o : CliArgs.StartOptions) (d : pki_draws PKey) (bind_ok : bool) (x : state)
  : outcome (state * result unit start_error) :=
  match check_dangerous_debug o with
  | Panics => Panics
  | Returns _ =>
      let '(x, r) := start_checks o x in
      match r with
      | Err e => Returns (x, Err e)
      | Ok _ =>
          let '(st, n, r) := install_identity o d (sa_settings x) (lnode (sa_life x)) in
          let x := MkApiState (sa_chain x) o st (with_node n (sa_life x)) in
          match r with
          | Err e => Returns (x, Err e)
          | Ok _ => start_engine o bind_ok x
          end
      end
  end.
End Start.

(** ** What a start does *)

Section Started.
Context {CW W SigningKey X509 PKey Pub : Type} `{AlgoNode CW} `{Outside W} `{Finder W} `{X509Lib X509 PKey Pub}.
Context (ops_of : string -> AlgoOps) (signing_key_of_bytes : list Z -> SigningKey).
Context (account_balance : option string -> CW -> CW * result (option Z) string) (unreachable : string -> bool).
Context (base : Api.setting SigningKey) (null_client : bool) (debug_build : bool) (clock_of_handler : list Z -> list Z -> Z).

Abbreviation checks := (start_checks ops_of account_balance unreachable).
Abbreviation run_start := (start ops_of signing_key_of_bytes account_balance unreachable base null_client debug_build
                             clock_of_handler).
Implicit Types (o : CliArgs.StartOptions) (x : api_state CW W).

Lemma checks_frame o x x' r :
  checks o x = (x', r) ->
  sa_options x' = sa_options x /\ sa_settings x' = sa_settings x /\ sa_life x' = sa_life x.
Proof using. unfold start_checks. by repeat case_match; intros [= <- <-]. Qed.

(** A start that succeeds has passed the checks, has installed the identity and has started
    the engine with it. *)
Lemma start_ok_parts o d b x x' u :
  run_start o d b x = Returns (x', Ok u) ->
  exists x1 st n, checks o x = (x1, Ok tt) /\
    install_identity ops_of clock_of_handler o d (sa_settings x) (lnode (sa_life x)) = (st, n, Ok tt) /\
    start_engine ops_of signing_key_of_bytes base null_client o b
      (MkApiState (sa_chain x1) o st (with_node n (sa_life x))) = Returns (x', Ok u).
Proof using.
  unfold start. destruct (check_dangerous_debug debug_build o); [|done].
  destruct (checks o x) as [x1 r] eqn:Ec. destruct r as [[]|]; [|done].
  destruct (checks_frame _ _ _ _ Ec) as (_ & -> & ->).
  destruct (install_identity _ _ _ _ _ _) as [[st n] [[]|]] eqn:Ei; [|done].
  intros E. by exists x1, st, n.
Qed.

Lemma start_engine_settings o b x x' r :
  start_engine ops_of signing_key_of_bytes base null_client o b x = Returns (x', r) ->
  sa_settings x' = sa_settings x /\ sa_options x' = sa_options x.
Proof using. unfold start_engine. destruct (Lifecycle.start _ _ _ _ _) as [[f ?]|]; [|done]. by intros [= <- <-]. Qed.

(** The engine fails to start without what the acceptor needs. *)
Lemma engine_needs_transport (cfg : Api.setting SigningKey) opts (f f' : life W) u :
  Lifecycle.start cfg null_client opts false f <> Returns (f', Ok u).
Proof using. unfold Lifecycle.start, start_with_addr. by destruct (o_static_ip opts). Qed.

(** A relay starts only with the permission of the chain.  When the start of a relay
    succeeds, the chain was asked, and said that the account may relay or could not be
    read; when the chain says that it may not, or that it has not joined the application,
    the start fails and leaves options, credentials and engine as they were. *)
Theorem relay_needs_permission o d b x x' r app pass addr :
  am_relay o = true -> is_Some (algo_provider_config o) -> CliArgs.app_id o = Some app ->
  algo_passphrase o = Some pass -> ops_address (ops_of pass) = Some addr ->
  run_start o d b x = Returns (x', r) ->
  (forall u, r = Ok u -> exists s s' a, check_allow_relay app addr s = (s', a) /\ (a = Ok (Some true) \/ exists e, a = Err e)) /\
  (r = Err (NotAllowedToRelay addr) \/ r = Err (NotOptedIn addr) ->
   sa_options x' = sa_options x /\ sa_settings x' = sa_settings x /\ sa_life x' = sa_life x).
Proof using.
  intros Hr [cfg Hcfg] Happ Hpass Haddr E. split.
  - intros u ->. destruct (start_ok_parts _ _ _ _ _ _ E) as (x1 & st & n & Hc & _).
    unfold start_checks in Hc. destruct (check_connectivity _ _ _ _) as [s [|]]; [|done].
    unfold check_relay_permission in Hc. rewrite Hr, Hcfg, Happ, Hpass, Haddr in Hc.
    destruct (check_allow_relay app addr s) as [s' ans] eqn:Ea. exists s, s', ans. split; [done|].
    destruct ans as [[[]|]|e]; [by left|done|done|]. right. by exists e.
  - intros Hf. unfold start in E. destruct (check_dangerous_debug debug_build o); [|done].
    destruct (checks o x) as [x1 rc] eqn:Ec. pose proof (checks_frame _ _ _ _ Ec) as Hx1.
    destruct rc as [u|e]; [|injection E as <- <-; exact Hx1].
    assert (forall e, r = Err e -> match e with NotAllowedToRelay _ | NotOptedIn _ => False | _ => True end) as Hno.
    { intros e ->. revert E. destruct (install_identity _ _ _ _ _ _) as [[st n] [u'|e']] eqn:Ei.
      - unfold start_engine. destruct (Lifecycle.start _ _ _ _ _) as [[f [|]]|]; cbn; [congruence|by intros [= _ <-]|done].
      - intros [= _ ->]. unfold install_identity in Ei. revert Ei. by repeat case_match; intros [= _ _ <-]. }
    destruct Hf as [Hf|Hf]; exfalso; apply (Hno _ Hf).
Qed.

(** (C11) A started node is who it says it is.  A node that starts for the first time starts
    only with a passphrase; then it calls itself by the address of that account, has a
    handler for the certificates of its peers, and what it presents, as a server or as a
    client, is accepted by any node, under that address, exactly while in force. *)
Theorem started_identity `{!X509Laws X509 PKey Pub} o d b x x' u :
  run_start o d b x = Returns (x', Ok u) ->
  sa_settings x = settings_new -> Handlers.issuer (lnode (sa_life x)) = None ->
  exists pass addr n, algo_passphrase o = Some pass /\ ops_address (ops_of pass) = Some addr /\
    Handlers.issuer n = Some (addr +:+ String ISSUER_SUFFIX EmptyString) /\
    (exists f, Lifecycle.start (node_setting ops_of signing_key_of_bytes base o) null_client (engine_options o) b
                 (with_node n (sa_life x)) = Returns (f, Ok u) /\ sa_life x' = f) /\
    handle_peer_certificate (sa_settings x') = Some (certificate_handler clock_of_handler) /\
    (plain_address addr = true ->
     exists ca server client,
       Certs.ca_cert (sa_settings x') = Some ca /\ server_signing_cert (sa_settings x') = Some server /\
       client_cert (sa_settings x') = Some client /\
       forall now,
         (peer_certificate_handler now server ca = Ok (ee_cn addr) <-> dates_hold (ca_draws d) (server_draws d) now = true) /\
         (peer_certificate_handler now client ca = Ok (ee_cn addr) <-> dates_hold (ca_draws d) (client_draws d) now = true)).
Proof using.
  intros E Hs Hi. destruct (start_ok_parts _ _ _ _ _ _ E) as (x1 & st & n & _ & Hid & He).
  destruct (start_engine_settings _ _ _ _ _ He) as [Hst _]. cbn in Hst.
  unfold start_engine in He. cbn [sa_settings sa_life] in He.
  destruct (Lifecycle.start _ _ _ _ _) as [[f rf]|] eqn:El in He; [|done]. injection He as <- Hrf. cbn [sa_life sa_settings] in *.
  assert (rf = Ok u) as -> by (destruct rf; cbn in Hrf; congruence).
  destruct (b && is_ok (start_accept st)) eqn:Hb; [|by destruct (engine_needs_transport _ _ _ _ _ El)].
  apply andb_true_iff in Hb as [-> Hacc]. rewrite Hs in Hid. unfold install_identity in Hid.
  destruct (algo_passphrase o) as [pass|] eqn:Hp; [|injection Hid as <- <-; discriminate Hacc].
  destruct (ops_address (ops_of pass)) as [addr|] eqn:Ha; [|done].
  destruct (generate_pki_from_ops _ _ _ _ _ _) as [p|] eqn:Hg; [|done]. injection Hid as <- <-.
  exists pass, addr, (set_issuer (addr +:+ String ISSUER_SUFFIX EmptyString) (lnode (sa_life x))).
  split_and!; try done.
  - unfold set_issuer. by rewrite Hi.
  - by exists f.
  - intros Hplain. exists (ca_pem p), (server_cert_pem p), (client_cert_pem p). split_and!; try done.
    intros now. by destruct (own_certificates_accepted _ _ _ _ _ _ _ _ now Hg Ha Hplain) as (_ & ? & ?).
Qed.

(** A node that has its credentials keeps them.  Started again, for whatever account, it goes
    on with the issuer and the certificates of the first start, while the key it signs its
    adverts and messages with is that of the new passphrase. *)
Theorem restart_keeps_identity o d b x x' r i ca sc sk cc ck :
  Handlers.issuer (lnode (sa_life x)) = Some i ->
  sa_settings x = MkSettings (Some ca) (Some cc) (Some ck) (Some sc) (Some sk) (handle_peer_certificate (sa_settings x))
                    (null_encryption (sa_settings x)) (app_layer_only_verification (sa_settings x))
                    (Certs.dangerous_debug (sa_settings x)) ->
  run_start o d b x = Returns (x', r) ->
  Certs.ca_cert (sa_settings x') = Some ca /\ server_signing_cert (sa_settings x') = Some sc /\
  client_cert (sa_settings x') = Some cc /\
  (forall u, r = Ok u -> sa_options x' = o /\
     exists f, Lifecycle.start (node_setting ops_of signing_key_of_bytes base o) null_client (engine_options o)
                 (b && is_ok (start_accept (sa_settings x'))) (with_node (lnode (sa_life x)) (sa_life x)) = Returns (f, Ok u)).
Proof using.
  intros Hi Hs E. unfold start in E. destruct (check_dangerous_debug debug_build o); [|done].
  destruct (checks o x) as [x1 rc] eqn:Ec. destruct (checks_frame _ _ _ _ Ec) as (Ho & Hx1 & Hl). rewrite Hx1, Hl in E.
  destruct rc as [?|e]; [|injection E as <- <-; rewrite Hx1, Hs; by split_and!].
  destruct (install_identity _ _ _ _ _ _) as [[st n] ri] eqn:Ei.
  assert (Certs.ca_cert st = Some ca /\ server_signing_cert st = Some sc /\ client_cert st = Some cc /\ n = lnode (sa_life x))
    as (Hca & Hsc & Hcc & ->).
  { unfold install_identity in Ei. rewrite Hs in Ei. unfold set_issuer in Ei. rewrite Hi in Ei.
    destruct (algo_passphrase o); [|injection Ei as <- <- _; done].
    destruct (ops_address _); [|injection Ei as <- <- _; done].
    destruct (generate_pki_from_ops _ _ _ _ _ _); injection Ei as <- <- _; [|done].
    unfold install_pki, set_app_layer_only_verification. cbn. destruct (Certs.dangerous_debug (sa_settings x)); done. }
  destruct ri as [?|e]; [|injection E as <- <-; by split_and!].
  destruct (start_engine_settings _ _ _ _ _ E) as [-> Hopt]. cbn [sa_settings sa_options] in *. split_and!; [done..|].
  intros u ->. split; [done|]. unfold start_engine in E. cbn [sa_settings sa_life] in E.
  destruct (Lifecycle.start _ _ _ _ _) as [[f rf]|] eqn:El in E; [|done]. injection E as _ Hrf. exists f.
  destruct rf as [[]|]; [|done]. destruct u. exact El.
Qed.
End Started.

(** ** A node that is started *)

#[local] Existing Instances SmallEngine.there SmallEngine.finds SmallX509.lib SmallX509.laws.

Module StartExample.
Definition ops_of (pass : string) : AlgoOps :=
  if String.eqb pass "alice" then SmallX509.account "ALICE" 5
  else if String.eqb pass "bob" then SmallX509.account "BOB" 6
  else MkAlgoOps None (Err "bad mnemonic"%string).
Definition balance (_ : option string) (n : ChainExample.node) : ChainExample.node * result (option Z) string := (n, Ok (Some 5)).
Definition options (pass : option string) (relay : bool) : CliArgs.StartOptions :=
  CliArgs.MkStartOptions "alice" pass None relay (Some [SockAddr (V4 192 0 2 9) 3478])
    (Some (MkChainConfig "" 0 "" 0 None None None None)) None (Some 7) (Some 9) None None false Plain.
Definition draws : pki_draws Z := MkPkiDraws _ SmallX509.draws SmallX509.draws SmallX509.draws (Some (-1)) (Some (-2)).
Definition blank : life (option payload) :=
  let n := lnode SmallEngine.idle in
  with_node (MkNodeState None (backend n) (turn_handler_relay n) (turn_handler_client n) (relay_finder n) (node_relay_state n)
               (last_public_addr n) (peer_ddb_records n) (signon_complete n) (relay_init_mutex n) (Handlers.life n))
    SmallEngine.idle.
(** The account may not relay on application 7. *)
Definition fresh : api_state ChainExample.node (option payload) :=
  MkApiState (ChainExample.start [(7, "ALICE", [("Handle", "alice")])]%string [] None) (options None false) settings_new blank.
Definition run (o : CliArgs.StartOptions) (x : api_state ChainExample.node (option payload)) :=
  start ops_of from_be_bytes balance (String.eqb "unreachable") SmallEngine.cfg false true (fun _ _ => 2000) o draws true x.
Definition verdict (o : CliArgs.StartOptions) (x : api_state ChainExample.node (option payload)) : result unit start_error :=
  match run o x with Returns (_, r) => r | Panics => Err (BadPassphrase "") end.

(** The node after a start and a stop. *)
Definition stopped (o : CliArgs.StartOptions) : api_state ChainExample.node (option payload) :=
  match run o fresh with
  | Returns (x, _) =>
      match api_stop (node_setting ops_of from_be_bytes SmallEngine.cfg o) false (sa_life x) with
      | Returns (f, _) => MkApiState (sa_chain x) (sa_options x) (sa_settings x) f
      | Panics => x
      end
  | Panics => fresh
  end.
End StartExample.

Lemma started_identity_witness :
  exists x', StartExample.run (StartExample.options (Some "alice"%string) false) StartExample.fresh = Returns (x', Ok tt) /\
    exists ca server, Certs.ca_cert (sa_settings x') = Some ca /\ server_signing_cert (sa_settings x') = Some server /\
      peer_certificate_handler 2000 server ca = Ok "ALICE."%string.
Proof.
  assert (StartExample.verdict (StartExample.options (Some "alice"%string) false) StartExample.fresh = Ok tt) as Hv
    by (vm_compute; reflexivity).
  unfold StartExample.verdict in Hv.
  destruct (StartExample.run _ _) as [[x' r]|] eqn:E; [|discriminate Hv]. subst r. exists x'. split; [reflexivity|].
  destruct (started_identity StartExample.ops_of from_be_bytes StartExample.balance (String.eqb "unreachable") SmallEngine.cfg
    false true (fun _ _ => 2000) _ _ _ _ _ _ E eq_refl eq_refl) as (pass & addr & n & Hp & Ha & _ & _ & _ & Hc).
  injection Hp as <-. injection Ha as <-.
  destruct (Hc ltac:(vm_compute; reflexivity)) as (ca & server & client & Eca & Es & _ & Hacc).
  exists ca, server. split; [exact Eca|]. split; [exact Es|]. apply Hacc. vm_compute. reflexivity.
Defined.

Lemma relay_needs_permission_witness :
  exists x', StartExample.run (StartExample.options (Some "alice"%string) true) StartExample.fresh =
      Returns (x', Err (NotAllowedToRelay "ALICE")) /\ sa_settings x' = settings_new.
Proof.
  assert (StartExample.verdict (StartExample.options (Some "alice"%string) true) StartExample.fresh = Err (NotAllowedToRelay "ALICE"))
    as Hv by (vm_compute; reflexivity).
  unfold StartExample.verdict in Hv.
  destruct (StartExample.run _ _) as [[x' r]|] eqn:E; [|discriminate Hv]. subst r. exists x'. split; [reflexivity|].
  destruct (relay_needs_permission StartExample.ops_of from_be_bytes StartExample.balance (String.eqb "unreachable")
    SmallEngine.cfg false true (fun _ _ => 2000) (StartExample.options (Some "alice"%string) true) _ _ _ _ _ 7 "alice" "ALICE" eq_refl (ex_intro _ _ eq_refl) eq_refl eq_refl
    eq_refl E) as (_ & Hr).
  destruct (Hr (or_introl eq_refl)) as (_ & Hs & _). exact Hs.
Defined.

(** Alice's node is stopped and started with Bob's passphrase: the start succeeds, and the
    node still calls itself Alice and presents her certificates, but signs with Bob's key. *)
Theorem restart_mixes_accounts :
  let o := StartExample.options (Some "bob"%string) false in
  let x := StartExample.stopped (StartExample.options (Some "alice"%string) false) in
  StartExample.verdict o x = Ok tt /\
  get_signing_key StartExample.ops_of from_be_bytes o = Some 6 /\
  match StartExample.run o x with
  | Returns (x', _) =>
      Handlers.issuer (lnode (sa_life x')) = Some "ALICE."%string /\
      match Certs.ca_cert (sa_settings x'), server_signing_cert (sa_settings x') with
      | Some ca, Some server => peer_certificate_handler 2000 server ca = Ok "ALICE."%string
      | _, _ => False
      end
  | Panics => False
  end.
Proof. vm_compute. split_and!; reflexivity. Qed.
