(* ===== verification/DtlsDebug.v ===== *)
(** * The printer of DTLS datagrams

    Models [src/bingle_core/src/dtls/dtls_debug.rs]: the decoding of a datagram into its
    records, with the handshake header, the extensions of the hello messages and the
    alerts; the one-line summary; and the way back from the records to the datagram.

    Every index of the code is an operation that panics out of range; the JSON text stands
    behind the records it holds, and base64 is a parameter. *)
From S2P Require Import Prelude Advert.

Local Open Scope Z_scope.

#[local] Instance outcome_ret : MRet outcome := fun A a => Returns a.
#[local] Instance outcome_bind : MBind outcome := fun A B k m => match m with Returns a => k a | Panics => Panics end.

(** ** Reading bytes *)

(** [data[i]] *)
Definition at_ (data : list Z) (i : nat) : outcome Z :=
  match data !! i with Some b => Returns b | None => Panics end.

(** [&data[a..b]] *)
Definition range (data : list Z) (a b : nat) : outcome (list Z) :=
  if (b <? a)%nat || (length data <? b)%nat then Panics else Returns (slice data a (b - a)).

Definition u16_at (data : list Z) (i : nat) : outcome Z :=
  a ← at_ data i; b ← at_ data (S i); mret (from_be_bytes [a; b]).

Definition read_u24 (be3 : list Z) : outcome Z :=
  a ← at_ be3 0; b ← at_ be3 1; c ← at_ be3 2;
  mret (Z.lor (Z.lor (Z.shiftl a 16) (Z.shiftl b 8)) c).

Definition u48_at (data : list Z) (i : nat) : outcome Z :=
  a ← at_ data i; b ← at_ data (i + 1); c ← at_ data (i + 2);
  d ← at_ data (i + 3); e ← at_ data (i + 4); f ← at_ data (i + 5);
  mret (Z.lor (Z.lor (Z.lor (Z.lor (Z.lor (Z.shiftl a 40) (Z.shiftl b 32)) (Z.shiftl c 24)) (Z.shiftl d 16)) (Z.shiftl e 8)) f).

(** ** The records

    The names the code keeps in an [Option] are always there in what it prints; a hello's
    summary is the list of its extensions. *)

Record ExtensionJson : Type := MkExtension { ext_id : Z; ext_name : string }.

Record HandshakeJson : Type := MkHandshake {
  handshake_type : Z;
  hs_name : string;
  hs_length : Z;
  message_seq : Z;
  fragment_offset : Z;
  fragment_length : Z;
  client_hello : option (list ExtensionJson);
  server_hello : option (list ExtensionJson)
}.

Record AlertJson : Type := MkAlert { level_ : Z; description : Z }.

Record DtlsRecordJson : Type := MkRecord {
  content_type : Z;
  ct_name : string;
  version : Z * Z;
  epoch : Z;
  sequence_number : Z;
  record_length : Z;
  payload_b64 : string;
  handshake : option HandshakeJson;
  alert : option AlertJson
}.

Definition content_type_name (ct : Z) : string :=
  match ct with
  | 20 => "change_cipher_spec" | 21 => "alert" | 22 => "handshake" | 23 => "application_data" | 24 => "heartbeat"
  | _ => "unknown"
  end.

Definition handshake_type_name (ht : Z) : string :=
  match ht with
  | 0 => "hello_request" | 1 => "client_hello" | 2 => "server_hello" | 3 => "hello_verify_request"
  | 11 => "certificate" | 12 => "server_key_exchange" | 13 => "certificate_request" | 14 => "server_hello_done"
  | 15 => "certificate_verify" | 16 => "client_key_exchange" | 20 => "finished"
  | _ => "unknown"
  end.

Definition extension_type_name (id : Z) : string :=
  match id with
  | 0 => "server_name" | 5 => "status_request" | 10 => "supported_groups" | 11 => "ec_point_formats"
  | 13 => "signature_algorithms" | 15 => "heartbeat" | 16 => "application_layer_protocol_negotiation"
  | 18 => "signed_certificate_timestamp" | 21 => "padding" | 23 => "extended_master_secret"
  | 35 => "session_ticket" | 43 => "supported_versions" | 45 => "psk_key_exchange_modes" | 49 => "early_data"
  | 51 => "key_share" | 65281 => "renegotiation_info"
  | _ => "unknown"
  end.

(** ** The extensions of a hello *)

(** One round consumes at least four bytes: the length is fuel enough. *)
Fixpoint extensions_loop (fuel : nat) (data : list Z) (out : list ExtensionJson) : outcome (option (list ExtensionJson)) :=
  match fuel with
  | O => mret (Some out)
  | S fuel =>
      if (length data <? 4)%nat then mret (Some out)
      else
        id ← u16_at data 0;
        len ← u16_at data 2;
        let out := out ++ [MkExtension id (extension_type_name id)] in
        let next := (4 + Z.to_nat len)%nat in
        if (length data <? next)%nat then mret None
        else rest ← range data next (length data); extensions_loop fuel rest out
  end.

Definition parse_extensions (data : list Z) : outcome (option (list ExtensionJson)) :=
  extensions_loop (S (length data)) data [].

(** The rest is read only if there are [n] bytes. *)
Definition need {A} (body : list Z) (n : nat) (k : outcome (option A)) : outcome (option A) :=
  if (length body <? n)%nat then mret None else k.

(** From the length of the extensions on. *)
Definition parse_tail (body : list Z) (p : nat) : outcome (option (list ExtensionJson)) :=
  if (length body <? p + 2)%nat then mret (Some [])
  else
    total ← u16_at body p;
    let p := (p + 2)%nat in
    need body (p + Z.to_nat total) (exts ← range body p (p + Z.to_nat total); parse_extensions exts).

Definition parse_client_hello_extensions (body : list Z) : outcome (option (list ExtensionJson)) :=
  need body 2 (
  need body (2 + 32) (
  need body (34 + 1) (
    sid_len ← at_ body 34;
    let p := (35 + Z.to_nat sid_len)%nat in
    need body p (
    need body (p + 1) (
      cookie_len ← at_ body p;
      let p := (p + 1 + Z.to_nat cookie_len)%nat in
      need body p (
      need body (p + 2) (
        cs_len ← u16_at body p;
        let p := (p + 2 + Z.to_nat cs_len)%nat in
        need body p (
        need body (p + 1) (
          cm_len ← at_ body p;
          let p := (p + 1 + Z.to_nat cm_len)%nat in
          need body p (parse_tail body p)))))))))).

Definition parse_server_hello_extensions (body : list Z) : outcome (option (list ExtensionJson)) :=
  need body 2 (
  need body (2 + 32) (
  need body (34 + 1) (
    sid_len ← at_ body 34;
    let p := (35 + Z.to_nat sid_len)%nat in
    need body p (
    need body (p + 2) (
    need body (p + 2 + 1) (parse_tail body (p + 3))))))).

(** ** A record *)

(** The handshake header, with the extensions of the first fragment of a hello. *)
Definition parse_handshake (payload : list Z) : outcome HandshakeJson :=
  htype ← at_ payload 0;
  len_bytes ← range payload 1 4; hlen ← read_u24 len_bytes;
  hseq ← u16_at payload 4;
  off_bytes ← range payload 6 9; hoff ← read_u24 off_bytes;
  frag_bytes ← range payload 9 12; hfrag_len ← read_u24 frag_bytes;
  let hs := MkHandshake htype (handshake_type_name htype) hlen hseq hoff hfrag_len in
  if (hoff =? 0) && (12 <? length payload)%nat then
    body ← range payload 12 (Nat.min (length payload) (12 + Z.to_nat hlen));
    match htype with
    | 1 => exts ← parse_client_hello_extensions body; mret (hs exts None)
    | 2 => exts ← parse_server_hello_extensions body; mret (hs None exts)
    | _ => mret (hs None None)
    end
  else mret (hs None None).

Definition parse_alert (payload : list Z) : outcome AlertJson :=
  l ← at_ payload 0; d ← at_ payload 1; mret (MkAlert l d).

Section Base64.
Context (b64_encode : list Z -> string) (b64_decode : string -> result (list Z) string).

(** The record at the front of the rest of the datagram, with what it takes. *)
Definition parse_record (rest : list Z) : outcome (result (DtlsRecordJson * nat) string) :=
  if (length rest <? 13)%nat then mret (Err "truncated DTLS record header"%string)
  else
    ct ← at_ rest 0;
    v1 ← at_ rest 1; v2 ← at_ rest 2;
    ep ← u16_at rest 3;
    seq ← u48_at rest 5;
    len ← u16_at rest 11;
    let needed := (13 + Z.to_nat len)%nat in
    if (length rest <? needed)%nat then mret (Err "truncated DTLS record payload"%string)
    else
      payload ← range rest 13 needed;
      hs ← (if (ct =? 22) && (12 <=? length payload)%nat then h ← parse_handshake payload; mret (Some h) else mret None);
      al ← (if (ct =? 21) && (2 <=? length payload)%nat then a ← parse_alert payload; mret (Some a) else mret None);
      mret (Ok (MkRecord ct (content_type_name ct) (v1, v2) ep seq len (b64_encode payload) hs al, needed)).

(** Every record takes at least its header: the length is fuel enough. *)
Fixpoint parse_records (fuel : nat) (rest : list Z) : outcome (result (list DtlsRecordJson) string) :=
  match fuel with
  | O => mret (Ok [])
  | S fuel =>
      match rest with
      | [] => mret (Ok [])
      | _ =>
          r ← parse_record rest;
          match r with
          | Err e => mret (Err e)
          | Ok (rec, needed) =>
              more ← parse_records fuel (drop needed rest);
              mret (let? more := more in Ok (rec :: more))
          end
      end
  end.

(** ** The summary *)

Definition quote : string := String (Ascii.ascii_of_nat 34) EmptyString.

Definition summary_text (len : Z) (ct : Z) (ep seq : Z) (hs : option string) : string :=
  "len=" +:+ show_dec len +:+ " ct=" +:+ content_type_name ct +:+ " epoch=" +:+ show_dec ep +:+
  match hs with
  | Some hn => " seq=" +:+ show_dec seq +:+ " hs=" +:+ hn
  | None => " seq=" +:+ quote +:+ show_dec seq +:+ quote
  end.

Definition summary_record (rest : list Z) : outcome (result (string * nat) string) :=
  if (length rest <? 13)%nat then mret (Err "truncated DTLS record header"%string)
  else
    ct ← at_ rest 0;
    ep ← u16_at rest 3;
    seq ← u48_at rest 5;
    len ← u16_at rest 11;
    hs ← (if (ct =? 22) && (14 <=? length rest)%nat then t ← at_ rest 13; mret (Some (handshake_type_name t)) else mret None);
    let part := summary_text len ct ep seq hs in
    let needed := (13 + Z.to_nat len)%nat in
    if (length rest <? needed)%nat then mret (Err "truncated DTLS record payload"%string)
    else
      part ← (if (ct =? 21) && (2 <=? len) then
                l ← at_ rest 13; d ← at_ rest 14;
                mret (part +:+ " alert=L" +:+ show_dec l +:+ "/D" +:+ show_dec d)
              else mret part);
      mret (Ok (part, needed)).

Fixpoint summary_records (fuel : nat) (rest : list Z) : outcome (result (list string) string) :=
  match fuel with
  | O => mret (Ok [])
  | S fuel =>
      match rest with
      | [] => mret (Ok [])
      | _ =>
          r ← summary_record rest;
          match r with
          | Err e => mret (Err e)
          | Ok (part, needed) =>
              more ← summary_records fuel (drop needed rest);
              mret (let? more := more in Ok (part :: more))
          end
      end
  end.

(** ** [dtls_udp_to_json_with_level] *)

Inductive Level : Type := ERROR | WARN | INFO | DEBUG | TRACE.

Inductive printed : Type :=
| FullJson (records : list DtlsRecordJson)
| Summary (text : string)
| Nothing_.

Definition dtls_udp_to_json_with_level (datagram : list Z) (level : Level) : outcome (result printed string) :=
  match level with
  | TRACE =>
      r ← parse_records (S (length datagram)) datagram;
      mret (let? records := r in Ok (FullJson records))
  | DEBUG =>
      r ← summary_records (S (length datagram)) datagram;
      mret (let? parts := r in
            Ok (Summary ("DTLS " +:+ show_dec (Z.of_nat (length datagram)) +:+ " bytes [" +:+ String.concat "; " parts +:+ "]")))
  | _ => mret (Ok Nothing_)
  end.

(** ** Back to the datagram *)

Definition record_to_udp (rec : DtlsRecordJson) : result (list Z) string :=
  let? payload := b64_decode (payload_b64 rec) in
  if negb (Z.of_nat (length payload) =? record_length rec) then
    Err ("length mismatch: header=" +:+ show_dec (record_length rec) +:+
         " payload=" +:+ show_dec (Z.of_nat (length payload)) +:+ " bytes")
  else if negb (Z.shiftr (sequence_number rec) 48 =? 0) then Err "sequence_number exceeds 48 bits"
  else
    let seq := sequence_number rec in
    let byte k := Z.land (Z.shiftr seq k) 255 in
    Ok ([content_type rec; (version rec).1; (version rec).2] ++ to_be_bytes 2 (epoch rec) ++
        [byte 40; byte 32; byte 24; byte 16; byte 8; Z.land seq 255] ++ to_be_bytes 2 (record_length rec) ++ payload).

Fixpoint json_to_dtls_udp (records : list DtlsRecordJson) : result (list Z) string :=
  match records with
  | [] => Ok []
  | rec :: records =>
      let? bytes := record_to_udp rec in
      let? rest := json_to_dtls_udp records in
      Ok (bytes ++ rest)
  end.
End Base64.

(** ** Joining shifted bytes *)

Lemma lor_disjoint x y k : 0 <= k -> (2 ^ k | x) -> 0 <= y < 2 ^ k -> Z.lor x y = x + y.
Proof.
  intros Hk [q ->] Hy.
  assert (E : Z.land (q * 2 ^ k) y = 0).
  { apply Z.bits_inj'. intros n Hn. rewrite Z.land_spec, Z.bits_0. destruct (decide (n < k)).
    - by rewrite Z.mul_pow2_bits_low by lia.
    - rewrite <- (Z.mod_small y (2 ^ k)) by lia. rewrite Z.mod_pow2_bits_high by lia. apply andb_false_r. }
  rewrite Z.add_nocarry_lxor by done. symmetry. by apply Z.lxor_lor.
Qed.

(** One byte more, [m] bits up, below everything read so far. *)
Lemma lor_byte x b m : 0 <= m -> (2 ^ (m + 8) | x) -> in_width 8 b -> Z.lor x (Z.shiftl b m) = x + b * 2 ^ m.
Proof.
  intros Hm Hx Hb. unfold in_width in Hb. rewrite Z.shiftl_mul_pow2 by lia. apply (lor_disjoint _ _ (m + 8)); [lia|done|].
  rewrite Z.pow_add_r by lia. nia.
Qed.

Lemma u48_value a b c d e f :
  bytes_ok [a; b; c; d; e; f] ->
  Z.lor (Z.lor (Z.lor (Z.lor (Z.lor (Z.shiftl a 40) (Z.shiftl b 32)) (Z.shiftl c 24)) (Z.shiftl d 16)) (Z.shiftl e 8)) f =
  from_be_bytes [a; b; c; d; e; f].
Proof.
  intros H. unfold bytes_ok in H. rewrite !Forall_cons in H. destruct H as (_ & Hb & Hc & Hd & He & Hf & _).
  rewrite <- (Z.shiftl_0_r f). rewrite (Z.shiftl_mul_pow2 a) by lia.
  rewrite (lor_byte _ b 32); [|lia| |done]. 2: { exists (a). cbn -[Z.mul Z.add]. lia. }
  rewrite (lor_byte _ c 24); [|lia| |done]. 2: { exists ((a * 256 + b)). cbn -[Z.mul Z.add]. lia. }
  rewrite (lor_byte _ d 16); [|lia| |done]. 2: { exists ((a * 65536 + b * 256 + c)). cbn -[Z.mul Z.add]. lia. }
  rewrite (lor_byte _ e 8); [|lia| |done]. 2: { exists ((a * 16777216 + b * 65536 + c * 256 + d)). cbn -[Z.mul Z.add]. lia. }
  rewrite (lor_byte _ f 0); [|lia| |done]. 2: { exists ((a * 4294967296 + b * 16777216 + c * 65536 + d * 256 + e)). cbn -[Z.mul Z.add]. lia. }
  unfold from_be_bytes. cbn [be_value]. rewrite Z.shiftl_0_r. lia.
Qed.

(** The bytes written back from a 48-bit number are its big-endian bytes. *)
Lemma u48_bytes z :
  let byte k := Z.land (Z.shiftr z k) 255 in
  [byte 40; byte 32; byte 24; byte 16; byte 8; Z.land z 255] = to_be_bytes 6 z.
Proof.
  cbv zeta. change 255 with (Z.ones 8). rewrite !Z.land_ones by lia. rewrite !Z.shiftr_div_pow2 by lia.
  cbn [to_be_bytes]. change (256 ^ Z.of_nat 0) with 1. by rewrite Z.div_1_r.
Qed.

(** ** No index is out of range *)

Definition returns {A} (o : outcome A) : Prop := exists a, o = Returns a.

Lemma returns_ret {A} (a : A) : returns (mret a).
Proof. by exists a. Qed.

Lemma returns_bind {A B} (o : outcome A) (k : A -> outcome B) :
  returns o -> (forall a, o = Returns a -> returns (k a)) -> returns (o ≫= k).
Proof. intros [a ->] Hk. by apply Hk. Qed.

Lemma returns_at data i : (i < length data)%nat -> returns (at_ data i).
Proof. intros H. unfold at_. destruct (lookup_lt_is_Some_2 data i H) as [b ->]. apply returns_ret. Qed.

Lemma returns_u16 data i : (i + 1 < length data)%nat -> returns (u16_at data i).
Proof. intros H. repeat (apply returns_bind; [apply returns_at; lia|intros ? _]). apply returns_ret. Qed.

Lemma range_eq data a b : (a <= b <= length data)%nat -> range data a b = Returns (slice data a (b - a)).
Proof.
  intros H. unfold range. rewrite (proj2 (Nat.ltb_ge b a)) by lia. by rewrite (proj2 (Nat.ltb_ge (length data) b)) by lia.
Qed.

Lemma returns_need {A} body n (k : outcome (option A)) :
  ((n <= length body)%nat -> returns k) -> returns (need body n k).
Proof. intros H. unfold need. destruct (Nat.ltb_spec (length body) n); [apply returns_ret|auto]. Qed.

Lemma returns_u24 l : length l = 3%nat -> returns (read_u24 l).
Proof. intros H. repeat (apply returns_bind; [apply returns_at; lia|intros ? _]). apply returns_ret. Qed.

Ltac outcome_step := first
  [ apply returns_bind; [solve [apply returns_at; lia | apply returns_u16; lia | apply returns_u24; rewrite slice_length; lia]|intros ? _]
  | apply returns_need; intros ?
  | rewrite range_eq by lia; cbn [mbind outcome_bind]
  | apply returns_ret ].

Lemma returns_extensions fuel data out : returns (extensions_loop fuel data out).
Proof.
  revert data out. induction fuel as [|fuel IH]; intros data out; cbn [extensions_loop]; [apply returns_ret|].
  destruct (Nat.ltb_spec (length data) 4); [apply returns_ret|]. do 2 outcome_step.
  case_match eqn:E; [apply returns_ret|]. apply Nat.ltb_ge in E. rewrite range_eq by lia. apply IH.
Qed.

Lemma returns_tail body p : returns (parse_tail body p).
Proof.
  unfold parse_tail. destruct (Nat.ltb_spec (length body) (p + 2)); [apply returns_ret|].
  do 3 outcome_step. apply returns_extensions.
Qed.

Lemma returns_client_hello body : returns (parse_client_hello_extensions body).
Proof. unfold parse_client_hello_extensions. repeat outcome_step. apply returns_tail. Qed.

Lemma returns_server_hello body : returns (parse_server_hello_extensions body).
Proof. unfold parse_server_hello_extensions. repeat outcome_step. apply returns_tail. Qed.

Definition named_handshake (payload : list Z) (h : HandshakeJson) : Prop :=
  payload !! 0%nat = Some (handshake_type h) /\ hs_name h = handshake_type_name (handshake_type h).

Lemma bind_returns {A B} (o : outcome A) (k : A -> outcome B) (P : B -> Prop) :
  returns o -> (forall a, o = Returns a -> exists b, k a = Returns b /\ P b) -> exists b, o ≫= k = Returns b /\ P b.
Proof. intros [a ->] Hk. by apply Hk. Qed.

Lemma returns_handshake payload :
  (12 <= length payload)%nat -> exists h, parse_handshake payload = Returns h /\ named_handshake payload h.
Proof.
  intros H. unfold parse_handshake. apply bind_returns; [apply returns_at; lia|]. intros t Ht.
  assert (Hn : payload !! 0%nat = Some t).
  { unfold at_ in Ht. by destruct (payload !! 0%nat); simplify_eq. }
  rewrite !range_eq by lia.
  do 4 (try (cbn [mbind outcome_bind]; fold (@mbind outcome _)); apply bind_returns;
    [first [apply returns_u16; lia | apply returns_u24; rewrite slice_length; lia]|intros ? _]).
  case_match eqn:Eo; [|by eexists]. apply andb_true_iff in Eo as [_ Eo]. apply Nat.ltb_lt in Eo.
  rewrite range_eq by lia. cbn [mbind outcome_bind].
  repeat (case_match; try by eexists);
    (apply bind_returns; [first [apply returns_client_hello|apply returns_server_hello]|intros exts _]; by eexists).
Qed.

(** ** One record *)

(** The header of the record at the front of [rest], and its payload. *)
Definition header_len (rest : list Z) : Z := from_be_bytes (slice rest 11 2).
Definition payload_of (rest : list Z) : list Z := slice rest 13 (Z.to_nat (header_len rest)).

Lemma thirteen (rest : list Z) :
  (13 <= length rest)%nat ->
  exists ct v1 v2 e1 e2 s1 s2 s3 s4 s5 s6 l1 l2 body,
    rest = ct :: v1 :: v2 :: e1 :: e2 :: s1 :: s2 :: s3 :: s4 :: s5 :: s6 :: l1 :: l2 :: body.
Proof.
  intros H. destruct rest as [|ct [|v1 [|v2 [|e1 [|e2 [|s1 [|s2 [|s3 [|s4 [|s5 [|s6 [|l1 [|l2 body]]]]]]]]]]]]];
    cbn in H; try lia. repeat eexists.
Qed.

(** What the full decoding says of a whole record. *)
Definition record_of (b64_encode : list Z -> string) (rest : list Z) (rec : DtlsRecordJson) : Prop :=
  content_type rec = nth 0 rest 0 /\ ct_name rec = content_type_name (content_type rec) /\
  version rec = (nth 1 rest 0, nth 2 rest 0) /\
  Returns (epoch rec) = u16_at rest 3 /\ Returns (sequence_number rec) = u48_at rest 5 /\
  record_length rec = header_len rest /\ payload_b64 rec = b64_encode (payload_of rest) /\
  match handshake rec with
  | Some h => content_type rec = 22 /\ named_handshake (payload_of rest) h
  | None => content_type rec = 22 -> (length (payload_of rest) < 12)%nat
  end /\
  match alert rec with
  | Some a => content_type rec = 21 /\ parse_alert (payload_of rest) = Returns a
  | None => content_type rec = 21 -> (length (payload_of rest) < 2)%nat
  end.

Lemma returns_alert payload : (2 <= length payload)%nat -> exists a, parse_alert payload = Returns a.
Proof. intros H. unfold parse_alert. repeat outcome_step. Qed.

Lemma parse_record_spec enc rest :
  let needed := (13 + Z.to_nat (header_len rest))%nat in
  if (length rest <? 13)%nat then parse_record enc rest = Returns (Err "truncated DTLS record header"%string)
  else if (length rest <? needed)%nat then parse_record enc rest = Returns (Err "truncated DTLS record payload"%string)
  else exists rec, parse_record enc rest = Returns (Ok (rec, needed)) /\ record_of enc rest rec.
Proof.
  cbv zeta. destruct (Nat.ltb_spec (length rest) 13) as [H|H].
  { unfold parse_record. by rewrite (proj2 (Nat.ltb_lt _ _) H). }
  destruct (thirteen rest H) as (ct & v1 & v2 & e1 & e2 & s1 & s2 & s3 & s4 & s5 & s6 & l1 & l2 & body & ->).
  unfold header_len. change (slice _ 11 2) with [l1; l2].
  set (rest := ct :: _) in *. unfold parse_record. rewrite (proj2 (Nat.ltb_ge _ _) H).
  change (at_ rest 0) with (Returns ct). change (at_ rest 1) with (Returns v1). change (at_ rest 2) with (Returns v2).
  change (u16_at rest 3) with (Returns (from_be_bytes [e1; e2])).
  change (u16_at rest 11) with (Returns (from_be_bytes [l1; l2])).
  cbn [mbind outcome_bind].
  destruct (u48_at rest 5) as [seq|] eqn:Eseq; [|discriminate]. cbn [mbind outcome_bind].
  destruct (Nat.ltb_spec (length rest) (13 + Z.to_nat (from_be_bytes [l1; l2]))) as [Hn|Hn]; [done|].
  rewrite range_eq by lia. cbn [mbind outcome_bind].
  replace (13 + Z.to_nat (from_be_bytes [l1; l2]) - 13)%nat with (Z.to_nat (from_be_bytes [l1; l2])) by lia.
  set (payload := slice rest 13 _).
  assert (Hhs : exists hs, (if (ct =? 22) && (12 <=? length payload)%nat then h ← parse_handshake payload; mret (Some h) else mret None) = Returns hs /\
    match hs with Some h => ct = 22 /\ named_handshake payload h | None => ct = 22 -> (length payload < 12)%nat end).
  { destruct (Z.eqb_spec ct 22), (Nat.leb_spec 12 (length payload)) as [L|L]; cbn [andb];
      try (exists None; split; [reflexivity|lia]).
    destruct (returns_handshake payload L) as (h & -> & Hh). by eexists. }
  assert (Hal : exists al, (if (ct =? 21) && (2 <=? length payload)%nat then a ← parse_alert payload; mret (Some a) else mret None) = Returns al /\
    match al with Some a => ct = 21 /\ parse_alert payload = Returns a | None => ct = 21 -> (length payload < 2)%nat end).
  { destruct (Z.eqb_spec ct 21), (Nat.leb_spec 2 (length payload)) as [L|L]; cbn [andb];
      try (exists None; split; [reflexivity|lia]).
    destruct (returns_alert payload L) as (h & Ea). rewrite Ea. by eexists. }
  destruct Hhs as (hs & -> & Hhs), Hal as (al & -> & Hal). cbn [mbind outcome_bind].
  eexists. split; [reflexivity|]. unfold record_of.
  cbn -[u48_at u16_at slice from_be_bytes Z.to_nat named_handshake parse_alert]. by rewrite Eseq.
Qed.

Lemma parse_records_fuel enc fuel1 fuel2 rest :
  (length rest < fuel1)%nat -> (length rest < fuel2)%nat -> parse_records enc fuel1 rest = parse_records enc fuel2 rest.
Proof.
  revert fuel2 rest. induction fuel1 as [|f1 IH]; intros [|f2] rest H1 H2; [lia|lia|lia|].
  cbn [parse_records]. destruct rest as [|b rest]; [done|].
  pose proof (parse_record_spec enc (b :: rest)) as Hs. cbv zeta in Hs.
  set (l := b :: rest) in *. destruct (length l <? 13)%nat; [by rewrite Hs|].
  destruct (Nat.ltb_spec (length l) (13 + Z.to_nat (header_len l))); [by rewrite Hs|].
  destruct Hs as (rec & -> & _). cbn [mbind outcome_bind]. rewrite (IH f2); [done| |];
    rewrite length_drop; cbn in H1, H2 |- *; lia.
Qed.

Lemma parse_records_returns enc fuel rest : returns (parse_records enc fuel rest).
Proof.
  revert rest. induction fuel as [|fuel IH]; intros rest; cbn [parse_records]; [apply returns_ret|].
  destruct rest as [|b rest]; [apply returns_ret|]. pose proof (parse_record_spec enc (b :: rest)) as Hs. cbv zeta in Hs.
  apply returns_bind; [repeat case_match; try (by eexists); destruct Hs as (? & -> & _); by eexists|].
  intros [[rec n]|e] _; [|apply returns_ret]. apply returns_bind; [apply IH|]. intros ? _. apply returns_ret.
Qed.

(** The part of the summary that belongs to a record the full decoding shows. *)
Definition describe (rec : DtlsRecordJson) : string :=
  summary_text (record_length rec) (content_type rec) (epoch rec) (sequence_number rec) (hs_name <$> handshake rec) +:+
  match alert rec with
  | Some a => " alert=L" +:+ show_dec (level_ a) +:+ "/D" +:+ show_dec (description a)
  | None => ""
  end.

Definition shows_handshake (rec : DtlsRecordJson) : Prop := content_type rec = 22 -> is_Some (handshake rec).

Lemma append_empty s : s +:+ "" = s.
Proof. induction s as [|c s IH]; [done|]. change (String c s +:+ "") with (String c (s +:+ "")). by rewrite IH. Qed.

Lemma summary_record_spec rest :
  let needed := (13 + Z.to_nat (header_len rest))%nat in
  if (length rest <? 13)%nat then summary_record rest = Returns (Err "truncated DTLS record header"%string)
  else if (length rest <? needed)%nat then summary_record rest = Returns (Err "truncated DTLS record payload"%string)
  else exists part, summary_record rest = Returns (Ok (part, needed)) /\
         forall enc rec, record_of enc rest rec -> shows_handshake rec -> part = describe rec.
Proof.
  cbv zeta. destruct (Nat.ltb_spec (length rest) 13) as [H|H].
  { unfold summary_record. by rewrite (proj2 (Nat.ltb_lt _ _) H). }
  destruct (thirteen rest H) as (ct & v1 & v2 & e1 & e2 & s1 & s2 & s3 & s4 & s5 & s6 & l1 & l2 & body & ->).
  unfold record_of, payload_of, header_len. change (slice _ 11 2) with [l1; l2].
  set (rest := ct :: _) in *. unfold summary_record. rewrite (proj2 (Nat.ltb_ge _ _) H).
  change (at_ rest 0) with (Returns ct). change (nth 0 rest 0) with ct.
  change (u16_at rest 3) with (Returns (from_be_bytes [e1; e2])).
  change (u16_at rest 11) with (Returns (from_be_bytes [l1; l2])).
  change (at_ rest 13) with (at_ body 0). change (at_ rest 14) with (at_ body 1).
  change (slice rest 13) with (slice body 0). replace (length rest) with (13 + length body)%nat by done.
  set (len := from_be_bytes [l1; l2]).
  cbn [mbind outcome_bind].
  destruct (u48_at rest 5) as [seq|] eqn:Eseq; [|discriminate]. cbn [mbind outcome_bind].
  assert (Hhs : exists hs, (if (ct =? 22) && (14 <=? 13 + length body)%nat then t ← at_ body 0; mret (Some (handshake_type_name t)) else mret None) = Returns hs /\
    hs = if (ct =? 22) then handshake_type_name <$> body !! 0%nat else None).
  { destruct (Z.eqb_spec ct 22); [|by eexists]. by destruct body; eexists. }
  destruct Hhs as (hs & -> & ->). cbn [mbind outcome_bind].
  destruct (Nat.ltb_spec (13 + length body) (13 + Z.to_nat len)) as [Hn|Hn]; [done|].
  set (part := summary_text _ _ _ _ _).
  assert (Hal : exists p, (if (ct =? 21) && (2 <=? len) then
                l ← at_ body 0; d ← at_ body 1;
                mret (part +:+ " alert=L" +:+ show_dec l +:+ "/D" +:+ show_dec d)
              else mret part) = Returns p /\
     p = part +:+ if (ct =? 21) && (2 <=? len) then match body with l :: d :: _ => " alert=L" +:+ show_dec l +:+ "/D" +:+ show_dec d | _ => "" end else "").
  { destruct ((ct =? 21) && (2 <=? len)) eqn:E; [|exists part; by rewrite append_empty].
    apply andb_true_iff in E as [_ E]. apply Z.leb_le in E.
    assert (H2 : (2 <= length body)%nat) by lia.
    destruct body as [|l [|d body]]; [cbn in H2; lia|cbn in H2; lia|by eexists]. }
  destruct Hal as (p & -> & ->). cbn [mbind outcome_bind]. eexists. split; [reflexivity|].
  intros enc [ct' nm ver ep sq ln b64 hsj al]. unfold shows_handshake, describe. cbn [content_type ct_name version epoch sequence_number record_length payload_b64 handshake alert].
  intros (-> & _ & _ & [= ->] & [= ->] & -> & _ & Hh & Ha) Hsh. unfold part, len. f_equal.
  - f_equal. destruct hsj as [h|]; cbn.
    + destruct Hh as [-> [Hp Hnm]]. rewrite Hnm. unfold slice in Hp. rewrite drop_0 in Hp.
      apply lookup_take_Some in Hp as [Hp _]. by rewrite Hp.
    + destruct (Z.eqb_spec ct 22) as [E|]; [|done]. by destruct (Hsh E).
  - assert (Hlen : length (slice body 0 (Z.to_nat len)) = Z.to_nat len) by (apply slice_length; lia).
    fold len in Ha |- *. destruct al as [a|].
    + destruct Ha as [-> Ha]. cbn [Z.eqb andb Pos.eqb].
      unfold parse_alert in Ha. unfold slice in Ha, Hlen. rewrite drop_0 in Ha, Hlen.
      destruct (Z.leb_spec 2 len) as [L|L].
      * assert (H2 : (2 <= length body)%nat) by lia.
        destruct body as [|l [|d body]]; [cbn in H2; lia|cbn in H2; lia|].
        replace (Z.to_nat len) with (S (S (Z.to_nat (len - 2)))) in Ha by lia. cbn in Ha. by injection Ha as <-.
      * exfalso. unfold at_ in Ha. rewrite (lookup_take_ge _ _ 1%nat) in Ha by lia.
        destruct (take _ body !! 0%nat); cbn in Ha; discriminate Ha.
    + destruct (Z.eqb_spec ct 21) as [E|]; [|done]. destruct (Z.leb_spec 2 len) as [L|L]; [|done].
      specialize (Ha E). rewrite Hlen in Ha. lia.
Qed.

Lemma record_back enc (dec : string -> result (list Z) string) rest rec :
  (forall l, bytes_ok l -> dec (enc l) = Ok l) -> bytes_ok rest ->
  (13 <= length rest)%nat -> (13 + Z.to_nat (header_len rest) <= length rest)%nat -> record_of enc rest rec ->
  record_to_udp dec rec = Ok (take (13 + Z.to_nat (header_len rest)) rest).
Proof.
  intros Hd Hb H Hn (Hct & _ & Hv & He & Hs & Hl & Hp & _).
  unfold record_to_udp. rewrite Hp, Hd. 2: { unfold payload_of, slice. apply Forall_take. by apply Forall_drop. }
  cbn [result_bind]. unfold payload_of at 1 2. rewrite slice_length by lia.
  destruct (thirteen rest H) as (ct & v1 & v2 & e1 & e2 & s1 & s2 & s3 & s4 & s5 & s6 & l1 & l2 & body & ->).
  unfold payload_of, header_len in *. change (slice (ct :: _) 11 2) with [l1; l2] in *.
  change (slice (ct :: _) 13) with (slice body 0) in *. set (len := from_be_bytes [l1; l2]) in *.
  unfold bytes_ok in Hb. rewrite !Forall_cons in Hb.
  destruct Hb as (_ & _ & _ & He1 & He2 & Hs1 & Hs2 & Hs3 & Hs4 & Hs5 & Hs6 & Hl1 & Hl2 & _).
  assert (Hlen : bytes_ok [l1; l2]) by (unfold bytes_ok; by rewrite !Forall_cons).
  assert (Hep : bytes_ok [e1; e2]) by (unfold bytes_ok; by rewrite !Forall_cons).
  assert (Hsq : bytes_ok [s1; s2; s3; s4; s5; s6]) by (unfold bytes_ok; by rewrite !Forall_cons).
  pose proof (from_be_bytes_bound _ Hlen) as Bl. pose proof (from_be_bytes_bound _ Hsq) as Bs.
  fold len in Bl. change (Returns (epoch rec) = Returns (from_be_bytes [e1; e2])) in He. injection He as ->.
  unfold u48_at in Hs. change (Returns (sequence_number rec) = Returns
    (Z.lor (Z.lor (Z.lor (Z.lor (Z.lor (Z.shiftl s1 40) (Z.shiftl s2 32)) (Z.shiftl s3 24)) (Z.shiftl s4 16)) (Z.shiftl s5 8)) s6)) in Hs.
  rewrite u48_value in Hs by done. injection Hs as ->.
  rewrite Hl, Z2Nat.id by lia. rewrite Z.eqb_refl. cbn [negb].
  rewrite Z.shiftr_div_pow2 by lia. rewrite Z.div_small by (change (256 ^ Z.of_nat (length [s1; s2; s3; s4; s5; s6])) with (2 ^ 48) in Bs; lia).
  cbn [Z.eqb negb]. rewrite u48_bytes.
  pose proof (to_from_be_bytes _ Hsq) as Rs. pose proof (to_from_be_bytes _ Hep) as Re.
  pose proof (to_from_be_bytes _ Hlen) as Rl. cbn [length] in Rs, Re, Rl. fold len in Rl. rewrite Rs, Re, Rl.
  rewrite Hct, Hv. unfold slice. rewrite drop_0. done.
Qed.

Section Claims.
Context (enc : list Z -> string) (dec : string -> result (list Z) string).

(** The full JSON of a datagram loses nothing: whenever it is printed, the records it holds
    turn back into exactly the bytes of the datagram, whatever their types, numbers and payloads,
    provided the base64 decoder inverts the encoder. *)
Theorem datagram_round_trip (datagram : list Z) (records : list DtlsRecordJson) :
  (forall l, bytes_ok l -> dec (enc l) = Ok l) -> bytes_ok datagram ->
  dtls_udp_to_json_with_level enc datagram TRACE = Returns (Ok (FullJson records)) ->
  json_to_dtls_udp dec records = Ok datagram.
Proof.
  intros Hd Hb. cbn [dtls_udp_to_json_with_level]. set (fuel := S (length datagram)). intros E.
  destruct (parse_records enc fuel datagram) as [[recs|e]|] eqn:Er; cbn in E; try discriminate. injection E as ->.
  assert (Hf : (length datagram < fuel)%nat) by (subst fuel; lia). clearbody fuel.
  revert datagram records Hb Er Hf. induction fuel as [|fuel IH]; intros rest records Hb Er Hf; [lia|].
  cbn [parse_records] in Er. destruct rest as [|b rest]; [by injection Er as <-|]. set (l := b :: rest) in *.
  pose proof (parse_record_spec enc l) as Hs. cbv zeta in Hs.
  destruct (Nat.ltb_spec (length l) 13); [rewrite Hs in Er; discriminate Er|].
  destruct (Nat.ltb_spec (length l) (13 + Z.to_nat (header_len l))); [rewrite Hs in Er; discriminate Er|].
  destruct Hs as (rec & Hr & Hrec). rewrite Hr in Er. cbn [mbind outcome_bind] in Er.
  destruct (parse_records enc fuel _) as [[more|e]|] eqn:Em in Er; cbn in Er; try discriminate. injection Er as <-.
  cbn [json_to_dtls_udp]. rewrite (record_back enc dec l rec) by done. cbn [result_bind].
  rewrite (IH (drop (13 + Z.to_nat (header_len l)) l)); [| |done|].
  - cbn [result_bind]. by rewrite take_drop.
  - by apply Forall_drop.
  - rewrite length_drop. cbn in Hf |- *. lia.
Qed.

(** The printer never panics: for every datagram a peer sends, however short its records,
    hellos or extensions claim to be or are, and at every level, an answer comes back. *)
Theorem printer_answers (datagram : list Z) (level : Level) :
  exists r, dtls_udp_to_json_with_level enc datagram level = Returns r.
Proof.
  destruct level; cbn [dtls_udp_to_json_with_level]; try by eexists.
  - apply returns_bind; [|intros ? _; apply returns_ret]. generalize (S (length datagram)) as fuel. intros fuel.
    revert datagram. induction fuel as [|fuel IH]; intros rest; cbn [summary_records]; [apply returns_ret|].
    destruct rest as [|b rest]; [apply returns_ret|]. pose proof (summary_record_spec (b :: rest)) as Hs. cbv zeta in Hs.
    apply returns_bind; [repeat case_match; try (by eexists); destruct Hs as (? & -> & _); by eexists|].
    intros [[part n]|e] _; [|apply returns_ret]. apply returns_bind; [apply IH|]. intros ? _. apply returns_ret.
  - apply returns_bind; [apply parse_records_returns|intros ? _; apply returns_ret].
Qed.

(** The one-line summary says what the full decoding says: the two accept the same datagrams
    and refuse the others with the same error, and when they accept there is one part per
    record, which is the record's length, type, epoch, number, handshake type and alert (for a
    handshake record too short for its header the full decoding shows no handshake and the
    summary reads on). *)
Theorem summary_describes_records (datagram : list Z) :
  match dtls_udp_to_json_with_level enc datagram TRACE, dtls_udp_to_json_with_level enc datagram DEBUG with
  | Returns (Ok (FullJson records)), Returns (Ok (Summary text)) =>
      exists parts,
        text = "DTLS " +:+ show_dec (Z.of_nat (length datagram)) +:+ " bytes [" +:+ String.concat "; " parts +:+ "]" /\
        Forall2 (fun rec part => shows_handshake rec -> part = describe rec) records parts
  | Returns (Err e), Returns (Err e') => e = e'
  | _, _ => False
  end.
Proof.
  cbn [dtls_udp_to_json_with_level].
  assert (H : forall fuel rest, match parse_records enc fuel rest, summary_records fuel rest with
     | Returns (Ok records), Returns (Ok parts) =>
         Forall2 (fun rec part => shows_handshake rec -> part = describe rec) records parts
     | Returns (Err e), Returns (Err e') => e = e' | _, _ => False end).
  2: { specialize (H (S (length datagram)) datagram).
       destruct (parse_records _ _ _) as [[?|?]|], (summary_records _ _) as [[?|?]|]; cbn; try done. by eexists. }
  induction fuel as [|fuel IH]; intros rest; [constructor|].
  cbn [parse_records summary_records]. destruct rest as [|b rest]; [constructor|]. set (l := b :: rest).
  pose proof (parse_record_spec enc l) as Hs. pose proof (summary_record_spec l) as Ht. cbv zeta in Hs, Ht.
  destruct (length l <? 13)%nat; [by rewrite Hs, Ht|].
  destruct (length l <? _)%nat; [by rewrite Hs, Ht|].
  destruct Hs as (rec & -> & Hrec), Ht as (part & -> & Hpart). cbn [mbind outcome_bind].
  specialize (IH (drop (13 + Z.to_nat (header_len l)) l)).
  destruct (parse_records _ _ _) as [[?|?]|], (summary_records _ _) as [[?|?]|]; cbn; try done.
  constructor; [by apply (Hpart enc)|done].
Qed.
End Claims.

(** ** Concrete datagrams *)

Module Sample.
Definition header (ct len : Z) : list Z := [ct; 254; 253; 0; 1; 0; 0; 0; 0; 0; 7; 0; len].
Definition fatal_alert : list Z := header 21 2 ++ [2; 40].
(** A ClientHello header whose body stops in the middle of the random. *)
Definition short_hello : list Z := header 22 14 ++ [1; 0; 0; 44; 0; 0; 0; 0; 0; 0; 0; 44; 254; 253].
(** A handshake record without payload, and a change of the cipher. *)
Definition empty_handshake : list Z := header 22 0 ++ header 20 1 ++ [1].

Definition decode64 (s : string) : result (list Z) string :=
  ok_or (Advert.IdealSignature.decode64 s) "base64"%string.
Lemma sample_decode_encode64 l : decode64 (Advert.IdealSignature.encode64 l) = Ok l.
Proof. unfold decode64. by rewrite Advert.IdealSignature.decode_encode64. Qed.
End Sample.

Lemma datagram_round_trip_witness :
  exists records, json_to_dtls_udp Sample.decode64 records = Ok (Sample.fatal_alert ++ Sample.short_hello).
Proof.
  assert (Hb : bytes_ok (Sample.fatal_alert ++ Sample.short_hello)) by (repeat (apply Forall_cons; split; [unfold in_width; lia|]); apply Forall_nil; exact I).
  eexists.
  apply (datagram_round_trip Advert.IdealSignature.encode64 Sample.decode64 _ _ (fun l _ => Sample.sample_decode_encode64 l) Hb).
  vm_compute. reflexivity.
Defined.

(** A handshake record of length zero is described with a handshake type the record does not
    hold: the byte the summary reads, fourteen bytes on, is the first byte of the next record.
    Here the change of the cipher that follows makes it a Finished message. *)
Theorem empty_handshake_reads_on :
  summary_records 40 Sample.empty_handshake =
    Returns (Ok ["len=0 ct=handshake epoch=1 seq=7 hs=finished";
                 summary_text 1 20 1 7 None]) /\
  match parse_records (fun _ => ""%string) 40 Sample.empty_handshake with
  | Returns (Ok [r1; r2]) => handshake r1 = None /\ content_type r2 = 20
  | _ => False
  end.
Proof. vm_compute. by split. Qed.
