(* ===== verification/CliRun.v ===== *)
(** * The command line: [run]

    Models [cmd_run] of [src/bingle_cli/src/main.rs]: the composition, in the order of the code, of the
    arguments ([CliArgs]), the checks on the chain ([CliChain]), the record of the node's
    address ([Advert], [Chain]), the start of the API ([ApiStart]) and its end ([Lifecycle]).

    A command goes as far as [Cmd] of [CliChain] says: it ends with a status, 101 where the
    code panics, or may still be waiting for a node after a number of rounds.  What happens
    between the start and the signal to stop is an argument: any state may be reached. *)
From S2P Require Import Prelude NetAddr Advert Envelope Ddb RelayCache Turn Mutex Stun Messages Handlers EngineIo HandleCache Api LocalTypes Account Chain ChainRegistration JsiTypes CliArgs CliChain Lifecycle Dtls Certs ApiStart.
Import Api.

Local Open Scope Z_scope.

(** ** The arguments of [run] *)

Record RunFlags : Type := MkRunFlags { sentinel_file : option string; echo_mode : bool; rf_rest : list string }.

(** The two flags that [run] has for itself are taken out; the others keep their order. *)
Fixpoint run_flags (args : list string) (f : RunFlags) : result RunFlags ended :=
  match args with
  | [] => Ok f
  | a :: args =>
      if String.eqb a "--sentinel-file" then
        match args with
        | [] => Err (Exit 2)
        | path :: args => run_flags args (MkRunFlags (Some path) (echo_mode f) (rf_rest f))
        end
      else if String.eqb a "--echo" then run_flags args (MkRunFlags (sentinel_file f) true (rf_rest f))
      else run_flags args (MkRunFlags (sentinel_file f) (echo_mode f) (rf_rest f ++ [a]))
  end.

(** ** What [run] does with messages and with the state of listening *)

(** The answer to a plain text message, in echo mode. *)
Definition echo_reply (echo : bool) (message : json) : option json :=
  if echo then
    text ← str_field "text" message;
    let absent key := match get key message with None | Some JNull => true | _ => false end in
    if absent "app"%string && absent "type"%string then Some (JObj [("text"%string, JStr ("Echo: " +:+ text))]) else None
  else None.

(** The sentinel file after a change of listening; [io_ok]: the file could be written or removed. *)
Definition sentinel_after (listening io_ok : bool) (file : option string) : option string :=
  if io_ok then if listening then Some ("listening" +:+ String (Ascii.ascii_of_nat 10) EmptyString) else None else file.

Section Run.
Context {CW W SigningKey X509 PKey Pub : Type} `{AlgoNode CW} `{Outside W} `{Finder W} `{X509Lib X509 PKey Pub}.
Context (v6 : string -> option SocketAddr) (resolve : string -> option (list SocketAddr))
  (read_file : string -> option string) (decode_node_file : string -> option NodeFile) (env : string -> option string).
Context (ops_of : string -> AlgoOps) (signing_key_of_bytes : list Z -> SigningKey).
Context (account_balance : option string -> CW -> CW * result (option Z) string) (unreachable : string -> bool).
Context (base : Api.setting SigningKey) (null_client : bool) (debug_build : bool) (clock_of_handler : list Z -> list Z -> Z).

Abbreviation state := (api_state CW W).
Implicit Types (o : CliArgs.StartOptions).

Definition env_app : option Z := s ← env "APP_ID"%string; Chain.parse_u64 s.

(** The application and the asset that the client of a command is made for. *)
Definition app_id_for_check o : option Z := or_else (CliArgs.app_id o) env_app.
Definition asset_id_for_ctor (asset : option Z) (cfg : option AlgoChainConfig) : Z :=
  default 0 (or_else asset (c ← cfg; chain_asset_id c)).
Definition client_of (account : option string) (app : Z) (asset : option Z) (cfg : option AlgoChainConfig) : AlgoBingle :=
  MkAlgoBingle account app (asset_id_for_ctor asset cfg) (c ← cfg; chain_app_id c).

(** *** Before the start *)

(** A superseded application ends the command; one that cannot be read does not. *)
Definition check_supported (rounds : nat) o : Cmd (W := CW) unit :=
  match app_id_for_check o with
  | None => done_ tt
  | Some app =>
      let* r := until_reachable unreachable rounds (successor_app app) in
      match resolve_app_support (Some app) (match r with Ok s => s | Err _ => None end) with
      | Superseded _ _ => exits 1
      | _ => done_ tt
      end
  end.

Definition check_account o (auto_migrate : bool) : Cmd (W := CW) unit :=
  match app_id_for_check o, algo_passphrase o with
  | Some app, Some pass =>
      ensure_account_ready_or_exit (ops_address (ops_of pass)) app (asset_id_for_ctor (asset_id o) (algo_provider_config o))
        (c ← algo_provider_config o; chain_app_id c) auto_migrate UnregisteredFail
  | _, _ => done_ tt
  end.

(** The signed record of the node's fixed address. *)
Definition static_record o (me date : string) (addr : SocketAddr) (sk : SigningKey) : AdvertRecord :=
  advert_new (to_vec base) (sign base) (base64_encode base) me (Some (inet_from (show_ipv6 base) addr))
    (Some (am_relay o)) None None date sk.

(** The record as it was written on the chain, if it was. *)
Definition register_static o (date : string) : Cmd (W := CW) (option string) :=
  match static_ip o, app_id_for_check o, algo_passphrase o with
  | Some addr, Some app, Some pass =>
      match ops_address (ops_of pass), private_key_bytes (ops_of pass) with
      | Some me, Ok sk =>
          if negb (length sk =? 32)%nat then exits 101
          else
            let compact := serialize_csv (static_record o me date addr (signing_key_of_bytes sk)) in
            let* r := attempt (register_endpoint (client_of (Some me) app (asset_id o) (algo_provider_config o)) app compact) in
            done_ (if is_ok r then Some compact else None)
      | _, _ => done_ None
      end
  | _, _, _ => done_ None
  end.

(** Everything up to the start: the options and the record. *)
Definition run_prepare (rounds : nat) (args : list string) (date : string)
  : Cmd (W := CW) (CliArgs.StartOptions * RunFlags * option string) :=
  if asks_help args then exits 0
  else
    let* f := checked (run_flags args (MkRunFlags None false [])) in
    let auto_migrate := args_request_auto_migrate (rf_rest f) in
    let* o := checked (map_err (fun _ => Exit 2)
                (parse_start_options_from_args v6 resolve read_file decode_node_file env (rf_rest f))) in
    let* _ := check_supported rounds o in
    let* _ := check_account o auto_migrate in
    let* registered := register_static o date in
    done_ (o, f, registered).

(** *** The start *)

(** Again in a minute while the node cannot be reached; [d] and [bind_ok] are what the
    attempts draw and find. *)
Fixpoint start_until_reachable (rounds : nat) o (d : nat -> pki_draws PKey) (bind_ok : nat -> bool) (x : state)
  : state * result unit ended :=
  match rounds with
  | O => (x, Err Waiting)
  | S rounds =>
      match start ops_of signing_key_of_bytes account_balance unreachable base null_client debug_build clock_of_handler
              o (d rounds) (bind_ok rounds) x with
      | Panics => (x, Err (Exit 101))
      | Returns (x, Ok _) => (x, Ok tt)
      | Returns (x, Err (NodeUnreachable _)) =>
          start_until_reachable rounds o d bind_ok
            (MkApiState (CliChain.sleep 60 (sa_chain x)) (sa_options x) (sa_settings x) (sa_life x))
      | Returns (x, Err _) => (x, Err (Exit 1))
      end
  end.

(** *** The end *)

(** The record on the chain is cleared if it is the one this process wrote, or if it cannot
    be read. *)
Definition unregister o (registered : option string) : Cmd (W := CW) unit :=
  match resolve_shutdown_action o env_app with
  | Unregister app pass cfg asset =>
      let account := ops_address (ops_of pass) in
      let* proceed := match account with
                      | None => done_ true
                      | Some me =>
                          let* current := attempt (get_static_endpoint app me) in
                          done_ match current with
                                | Ok current => should_clear_static_endpoint registered current
                                | Err _ => true
                                end
                      end in
      if proceed : bool then let* _ := attempt (register_endpoint (client_of account app asset cfg) app "") in done_ tt
      else done_ tt
  | _ => done_ tt
  end.

(** The sign-off and the stop. *)
Definition leave o (f : life W) : outcome (life W) :=
  let cfg := node_setting ops_of signing_key_of_bytes base o in
  match ddb_signoff cfg null_client f with
  | Panics => Panics
  | Returns (f, _) => match api_stop cfg null_client f with Panics => Panics | Returns (f, _) => Returns f end
  end.

Definition run_stop o (registered : option string) (x : state) : state * result unit ended :=
  let '(s, r) := unregister o registered (sa_chain x) in
  match r with
  | Err e => (MkApiState s (sa_options x) (sa_settings x) (sa_life x), Err e)
  | Ok _ =>
      match leave o (sa_life x) with
      | Panics => (MkApiState s (sa_options x) (sa_settings x) (sa_life x), Err (Exit 101))
      | Returns f => (MkApiState s (sa_options x) (sa_settings x) f, Ok tt)
      end
  end.

(** The command: [fresh] is the engine of a new API, [serve] what happens until the signal. *)
Definition cmd_run (rounds : nat) (args : list string) (date : string) (d : nat -> pki_draws PKey) (bind_ok : nat -> bool)
    (fresh : life W) (serve : state -> state) : Cmd (W := CW) unit := fun s =>
  match run_prepare rounds args date s with
  | (s, Err e) => (s, Err e)
  | (s, Ok (o, _, registered)) =>
      match start_until_reachable rounds o d bind_ok (MkApiState s o settings_new fresh) with
      | (x, Err e) => (sa_chain x, Err e)
      | (x, Ok _) => let '(x, r) := run_stop o registered (serve x) in (sa_chain x, r)
      end
  end.
End Run.

(** ** What [run] does to the chain *)

Section Effects.
Context {CW W SigningKey X509 PKey Pub : Type} `{AlgoNode CW} `{Outside W} `{Finder W} `{X509Lib X509 PKey Pub}.
Context (v6 : string -> option SocketAddr) (resolve : string -> option (list SocketAddr))
  (read_file : string -> option string) (decode_node_file : string -> option NodeFile) (env : string -> option string).
Context (ops_of : string -> AlgoOps) (signing_key_of_bytes : list Z -> SigningKey).
Context (account_balance : option string -> CW -> CW * result (option Z) string) (unreachable : string -> bool).
Context (base : Api.setting SigningKey) (null_client : bool) (debug_build : bool) (clock_of_handler : list Z -> list Z -> Z).

Abbreviation prepare := (run_prepare v6 resolve read_file decode_node_file env ops_of signing_key_of_bytes unreachable base).
Abbreviation run := (cmd_run v6 resolve read_file decode_node_file env ops_of signing_key_of_bytes account_balance unreachable base
                       null_client debug_build clock_of_handler).
Abbreviation parse_start := (parse_start_options_from_args v6 resolve read_file decode_node_file env).
Implicit Types (o : CliArgs.StartOptions) (s : chain CW).

Definition writes_record (app : Z) (record : string) : request :=
  CallAppArc4 app "register_endpoint(string)void" [ArgBytes (as_bytes record)].

(** Writing a record gives the node at most that, for the account of the client. *)
Lemma register_endpoint_given A app record s s' r :
  register_endpoint A app record s = (s', r) ->
  (sent s' = sent s /\ is_ok r = false) \/
  exists me, address A = Some me /\ sent s' = sent s ++ [(me, writes_record app record, is_ok r)].
Proof using.
  unfold register_endpoint, positive, ensure, own_address. destruct (negb (app =? 0)).
  2: { intros [= <- <-]. by left. }
  destruct (address A) as [me|]; [|intros [= <- <-]; by left].
  unfold mbind, cm_bind, mret, cm_ret, submits. destruct (submit me _ _) as [w x]. intros [= <- <-].
  right. by exists me.
Qed.

Lemma st_try_inv {B C} (m : Cmd (W := CW) B) (k : B -> Cmd C) s s' r :
  st_try m k s = (s', r) ->
  (exists e, m s = (s', Err e) /\ r = Err e) \/ exists s1 b, m s = (s1, Ok b) /\ k b s1 = (s', r).
Proof using.
  unfold st_try, mbind, ST_bind. destruct (m s) as [s1 [b|e]]; [|intros [= <- <-]; eauto].
  intros E. right. by exists s1, b.
Qed.

(** A superseded application is not run.  When the chain names a successor of the
    application, [run] ends with status 1: nothing is written on the chain, no account is
    migrated and the node is not started. *)
Theorem run_refuses_superseded rounds args date d bind_ok fresh serve f o app n s s1 :
  asks_help args = false -> run_flags args (MkRunFlags None false []) = Ok f -> parse_start (rf_rest f) = Ok o ->
  app_id_for_check env o = Some app -> successor_app app s = (s1, Ok (Some n)) ->
  run (S rounds) args date d bind_ok fresh serve s = (s1, Err (Exit 1)) /\ sent s1 = sent s.
Proof using.
  intros Hh Hf Hp Happ Hs. split.
  - unfold cmd_run, run_prepare. rewrite Hh. unfold st_try at 1, mbind at 1, ST_bind at 1, checked at 1. rewrite Hf.
    unfold st_try at 1, mbind at 1, ST_bind at 1, checked at 1. rewrite Hp. cbn [map_err].
    unfold st_try at 1, mbind at 1, ST_bind at 1, check_supported. rewrite Happ.
    unfold st_try at 1, mbind at 1, ST_bind at 1. cbn [until_reachable]. rewrite Hs. done.
  - assert (Hq : quiet (successor_app (W := CW) app)).
    { unfold successor_app. apply quiet_bind; [apply quiet_ensure|]. intros _. apply quiet_bind; [apply quiet_asks|].
      intros x. repeat case_match; try apply quiet_ret; apply quiet_fails. }
    by apply (Hq _ _ _ Hs).
Qed.

(** The record that was written, with what it was made of. *)
Lemma register_static_given o date s s' c :
  register_static env ops_of signing_key_of_bytes base o date s = (s', Ok (Some c)) ->
  exists addr app pass me sk,
    static_ip o = Some addr /\ app_id_for_check env o = Some app /\ algo_passphrase o = Some pass /\
    ops_address (ops_of pass) = Some me /\ private_key_bytes (ops_of pass) = Ok sk /\
    c = serialize_csv (static_record base o me date addr (signing_key_of_bytes sk)) /\
    sent s' = sent s ++ [(me, writes_record app c, true)].
Proof using.
  unfold register_static. intros E. destruct (static_ip o) as [addr|]; [|done].
  destruct (app_id_for_check env o) as [app|]; [|done]. destruct (algo_passphrase o) as [pass|]; [|done].
  destruct (ops_address (ops_of pass)) as [me|] eqn:Hme; [|done]. destruct (private_key_bytes (ops_of pass)) as [sk|] eqn:Hsk; [|done].
  destruct (negb _); [done|]. apply st_try_inv in E as [(e & _ & ?)|(s1 & r & E & Ek)]; [done|].
  unfold done_, checked in Ek. injection Ek as <- Hr. destruct (is_ok r) eqn:Hok; [|done]. injection Hr as <-.
  unfold attempt in E. destruct (register_endpoint _ _ _ _) as [s2 r2] eqn:Er. injection E as <- <-.
  exists addr, app, pass, me, sk. split_and!; try done.
  destruct (register_endpoint_given _ _ _ _ _ _ Er) as [[_ Hf]|(me' & Hm & ->)]; [congruence|].
  cbn in Hm. injection Hm as <-. by rewrite Hok.
Qed.

(** (C14) The record [run] writes is one that other nodes accept.  When the preparation ends
    with a record, the last thing given to the chain is that record, for the account of the
    passphrase and taken by the node; read back for that account it is a record whose
    signature verifies, with the fixed IPv4 address and the relay flag of the options. *)
Theorem run_writes_valid_record rounds args date o f c addr s s' (public_key : SigningKey -> list Z) :
  prepare rounds args date s = (s', Ok (o, f, Some c)) ->
  static_ip o = Some addr -> v4_addr_ok addr -> no_comma date ->
  (forall l, base64_decode base (base64_encode base l) = Some l) ->
  (forall l, no_comma (base64_encode base l) /\ (base64_encode base l = EmptyString -> l = [])) ->
  (forall sk m, length (sign base sk m) = 64%nat) ->
  (forall sk m, ed25519_verify base (public_key sk) m (sign base sk m) = true) ->
  exists app pass me sk old,
    algo_passphrase o = Some pass /\ ops_address (ops_of pass) = Some me /\ private_key_bytes (ops_of pass) = Ok sk /\
    sent s' = old ++ [(me, writes_record app c, true)] /\
    (address_to_byte_key base me = Some (public_key (signing_key_of_bytes sk)) ->
     valid_key base (public_key (signing_key_of_bytes sk)) = true ->
     exists r, deserialize_csv me c = Some r /\
       Advert.verify (to_vec base) (ed25519_verify base) (valid_key base) (base64_decode base) (address_to_byte_key base) r = true /\
       Advert.endpoint r = Some (inet_from (fun _ => EmptyString) addr) /\ Advert.am_relay r = Some (CliArgs.am_relay o)).
Proof using.
  intros E Hip Hv4 Hdate Hb64 Hclean Hlen Hcorr. unfold run_prepare in E. destruct (asks_help args); [done|].
  apply st_try_inv in E as [(? & _ & ?)|(s1 & f1 & E1 & E)]; [done|].
  apply st_try_inv in E as [(? & _ & ?)|(s2 & o1 & E2 & E)]; [done|].
  apply st_try_inv in E as [(? & _ & ?)|(s3 & [] & E3 & E)]; [done|].
  apply st_try_inv in E as [(? & _ & ?)|(s4 & [] & E4 & E)]; [done|].
  apply st_try_inv in E as [(? & _ & ?)|(s5 & c1 & E5 & E)]; [done|].
  unfold done_, checked in E. injection E as <- <- <- ->.
  destruct (register_static_given _ _ _ _ _ E5) as (addr' & app & pass & me & sk & Hip' & _ & Hp & Hme & Hsk & -> & Hsent).
  assert (addr' = addr) as -> by congruence.
  exists app, pass, me, sk, (sent s4). split_and!; try done. intros Hkey Hvalid.
  set (r := static_record base o1 me date addr (signing_key_of_bytes sk)).
  assert (Hinet : inet_from (show_ipv6 base) addr = inet_from (fun _ => EmptyString) addr).
  { destruct addr as [[]]; [done|]. by destruct Hv4 as [[] _]. }
  assert (Hsafe : csv_safe r).
  { split_and!; try done; [|apply Hclean]. cbn. by exists addr. }
  assert (Hsig : Advert.sig r <> Some EmptyString).
  { cbn. intros Heq. injection Heq as Heq. apply Hclean in Heq. apply (f_equal length) in Heq. by rewrite Hlen in Heq. }
  destruct (csv_roundtrip r Hsafe) as [Hrt Hn]. rewrite Hn in Hrt; [|done..]. exists r.
  split; [exact Hrt|]. split; [|split; [cbn; by rewrite Hinet|done]].
  apply verify_new with (public_key := public_key); done.
Qed.

Lemma quiet_get_static app me : quiet (get_static_endpoint (W := CW) app me).
Proof using.
  unfold get_static_endpoint. apply quiet_bind; [apply quiet_ensure|]. intros _.
  apply quiet_bind; [apply quiet_asks|]. intros ?. apply quiet_ret.
Qed.

(** (C15) Stopping clears only what this process wrote.  At most one request is given to the
    chain, the empty record for the node's own account; it is given only if the record
    found there is the one written at the start of this process, or none could be read; what
    another process has written since is left alone. *)
Theorem run_clears_own_record o registered s s' r me pass :
  unregister env ops_of o registered s = (s', r) ->
  algo_passphrase o = Some pass -> ops_address (ops_of pass) = Some me ->
  sent s' = sent s \/
  exists app ok, resolve_shutdown_action o (env_app env) = Unregister app pass (algo_provider_config o) (asset_id o) /\
    sent s' = sent s ++ [(me, writes_record app "", ok)] /\
    ((exists c, (get_static_endpoint app me s).2 = Ok (Some c) /\ registered = Some c) \/
     is_ok (get_static_endpoint app me s).2 = false).
Proof using.
  unfold unregister. intros E Hp Hme.
  destruct (resolve_shutdown_action o (env_app env)) as [| | |app pass' cfg asset] eqn:Ha; [injection E as <- _; by left..|].
  assert (pass' = pass /\ cfg = algo_provider_config o /\ asset = asset_id o) as (-> & -> & ->).
  { revert Ha. unfold resolve_shutdown_action. rewrite Hp. destruct (static_ip o); [|done].
    destruct (or_else _ _); [|done]. by intros [= _ <- <- <-]. }
  rewrite Hme in E. destruct (get_static_endpoint app me s) as [sg rg] eqn:Eg.
  assert (Hq : sent sg = sent s).
  { by apply (quiet_get_static app me _ _ _ Eg). }
  unfold st_try at 1, mbind at 1, ST_bind at 1 in E. unfold st_try at 1, mbind at 1, ST_bind at 1, attempt at 1 in E.
  rewrite Eg in E. unfold done_, checked in E.
  destruct (match rg with Ok current => should_clear_static_endpoint registered current | Err _ => true end) eqn:Hc.
  2: { injection E as <- _. left. exact Hq. }
  unfold st_try, mbind, ST_bind, attempt in E. destruct (register_endpoint _ _ _ _) as [s2 r2] eqn:Er. injection E as <- _.
  destruct (register_endpoint_given _ _ _ _ _ _ Er) as [[-> _]|(me' & Hm & ->)]; [by left|].
  cbn in Hm. injection Hm as <-. right. exists app, (is_ok r2). rewrite Hq, Eg. split_and!; try done.
  destruct rg as [[cur|]|e]; [left|..|by right].
  - exists cur. split; [done|]. unfold should_clear_static_endpoint in Hc. destruct registered as [c|]; [|done].
    by apply String.eqb_eq in Hc as ->.
  - by destruct registered.
Qed.
End Effects.

(** ** A node with a fixed address *)

#[local] Existing Instances SmallEngine.there SmallEngine.finds SmallX509.lib SmallX509.laws.

Module RunExample.
Definition base : Api.setting Z :=
  MkSetting _ (show_uuid SmallEngine.cfg) (parse_uuid SmallEngine.cfg) (base32_decode SmallEngine.cfg)
    (fun _ => "::1"%string) (parse_ipv6 SmallEngine.cfg)
    (fun r => as_bytes (serialize_csv r))
    (fun sk m => sk :: foldr Z.add 0 m :: replicate 62 0)
    (fun pk m s => bool_decide (s = hd 0 pk :: foldr Z.add 0 m :: replicate 62 0)) (fun _ => true)
    Advert.IdealSignature.encode64 Advert.IdealSignature.decode64
    (fun i => if String.eqb i "ALICE" then Some [5] else None) None false false false None
    (surroundings SmallEngine.cfg) (run_dispatch SmallEngine.cfg).
Definition none {B C} (_ : B) : option C := None.
Definition v6_text (s : string) : option SocketAddr := if String.eqb s "[::1]:9000" then Some (SockAddr (V6 1) 9000) else None.
Definition args (ip : string) : list string :=
  ["--handle"; "alice"; "--passphrase"; "alice"; "--static-ip"; ip; "--app-id"; "7"; "--asset-id"; "9"]%string.
Definition prepare (ip : string) : Cmd (W := ChainExample.node) (CliArgs.StartOptions * RunFlags * option string) :=
  run_prepare v6_text none none none none StartExample.ops_of from_be_bytes (String.eqb "unreachable") base 3 (args ip) "2026-01-01".
(** An account that is registered on application 7. *)
Definition node : chain ChainExample.node := ChainExample.start [(7, "ALICE", [("Handle", "alice")])]%string [] None.
Definition run (ip : string) (bind_ok : bool) : Cmd (W := ChainExample.node) unit :=
  cmd_run v6_text none none none none StartExample.ops_of from_be_bytes StartExample.balance (String.eqb "unreachable") base
    false true (fun _ _ => 2000) 3 (args ip) "2026-01-01" (fun _ => StartExample.draws) (fun _ => bind_ok)
    StartExample.blank (fun x => x).
End RunExample.

(** Alice's record is at [ip]; a peer reads what her node wrote. *)
Module RunResults.
Definition prepared := Eval vm_compute in RunExample.prepare "10.0.0.7:9000" RunExample.node.
Definition options : CliArgs.StartOptions := Eval vm_compute in
  match prepared.2 with Ok (o, _, _) => o | Err _ => StartExample.options None false end.
Definition flags : RunFlags := Eval vm_compute in match prepared.2 with Ok (_, f, _) => f | Err _ => MkRunFlags None false [] end.
Definition written : string := Eval vm_compute in match prepared.2 with Ok (_, _, Some c) => c | _ => EmptyString end.
(** The chain says that application 7 has the successor 8. *)
Definition superseded : chain ChainExample.node :=
  ChainExample.start [(7, "ALICE", [("Handle", "alice")])]%string [(7, "SuccessorApp"%string, to_be_bytes 8 8)] None.
(** The record on the chain is the one given. *)
Definition holds (record : string) : chain ChainExample.node :=
  ChainExample.start [(7, "ALICE", [("Handle", "alice"); ("static_endpoint", record)])]%string [] None.
Definition stop (record : string) : chain ChainExample.node * result unit ended :=
  unregister RunExample.none StartExample.ops_of options (Some written) (holds record).
End RunResults.

Lemma clean64 l :
  no_comma (Advert.IdealSignature.encode64 l) /\ (Advert.IdealSignature.encode64 l = EmptyString -> l = []).
Proof.
  split.
  - unfold no_comma, Advert.IdealSignature.encode64. by induction (countable.encode l).
  - intros E. pose proof (Advert.IdealSignature.decode_encode64 l) as D. rewrite E in D.
    pose proof (Advert.IdealSignature.decode_encode64 []) as D0. change (Advert.IdealSignature.encode64 []) with EmptyString in D0.
    congruence.
Qed.

Lemma run_writes_valid_record_witness :
  exists r, deserialize_csv "ALICE" RunResults.written = Some r /\ Advert.am_relay r = Some false.
Proof.
  assert (RunExample.prepare "10.0.0.7:9000" RunExample.node =
    (RunResults.prepared.1, Ok (RunResults.options, RunResults.flags, Some RunResults.written))) as E by (vm_compute; reflexivity).
  assert (v4_addr_ok (SockAddr (V4 10 0 0 7) 9000)) as Hv by (unfold v4_addr_ok, octet; cbn; lia).
  assert (no_comma "2026-01-01") as Hd by (vm_compute; reflexivity).
  assert (forall sk m, ed25519_verify RunExample.base [sk] m (sign RunExample.base sk m) = true) as Hc
    by (intros sk m; apply bool_decide_eq_true_2; reflexivity).
  destruct (run_writes_valid_record _ _ _ _ _ _ _ _ _ _ _ _ _ _ _ _ _ _ (fun sk => [sk]) E eq_refl Hv Hd
    Advert.IdealSignature.decode_encode64 clean64 (fun _ _ => eq_refl) Hc) as (app & pass & me & sk & old & Hp & Hme & Hsk & _ & Hr).
  injection Hp as <-. injection Hme as <-. injection Hsk as <-.
  destruct (Hr eq_refl eq_refl) as (r & Hrd & _ & _ & Ham). exists r. split; [exact Hrd|exact Ham].
Defined.

Lemma run_refuses_superseded_witness :
  exists s1, cmd_run RunExample.v6_text RunExample.none RunExample.none RunExample.none RunExample.none StartExample.ops_of
      from_be_bytes StartExample.balance (String.eqb "unreachable") RunExample.base false true (fun _ _ => 2000) 3
      (RunExample.args "10.0.0.7:9000") "2026-01-01" (fun _ => StartExample.draws) (fun _ => true) StartExample.blank (fun x => x)
      RunResults.superseded = (s1, Err (Exit 1)) /\ sent s1 = [].
Proof.
  assert (run_flags (RunExample.args "10.0.0.7:9000") (MkRunFlags None false []) = Ok RunResults.flags) as Hf by (vm_compute; reflexivity).
  assert (parse_start_options_from_args RunExample.v6_text RunExample.none RunExample.none RunExample.none RunExample.none
    (rf_rest RunResults.flags) = Ok RunResults.options) as Hp by (vm_compute; reflexivity).
  assert (successor_app 7 RunResults.superseded = (RunResults.superseded, Ok (Some 8))) as Hs by (vm_compute; reflexivity).
  assert (asks_help (RunExample.args "10.0.0.7:9000") = false) as Hh by (vm_compute; reflexivity).
  assert (app_id_for_check RunExample.none RunResults.options = Some 7) as Ha by (vm_compute; reflexivity).
  exists RunResults.superseded.
  exact (run_refuses_superseded _ _ _ _ _ _ _ _ _ _ _ _ _ 2 _ _ _ _ _ _ _ _ 7 8 _ _ Hh Hf Hp Ha Hs).
Defined.

(** The record is cleared; the record of another process is not. *)
Lemma run_clears_own_record_witness :
  sent (RunResults.stop "another record").1 = [] /\
  exists ok, sent (RunResults.stop RunResults.written).1 = [("ALICE"%string, writes_record 7 "", ok)].
Proof.
  assert (forall record, RunResults.stop record = ((RunResults.stop record).1, (RunResults.stop record).2)) as E
    by (intros record; by destruct (RunResults.stop record)).
  assert ((get_static_endpoint 7 "ALICE" (RunResults.holds "another record")).2 = Ok (Some "another record"%string)) as H1
    by (vm_compute; reflexivity).
  split.
  - destruct (run_clears_own_record _ _ _ _ _ _ _ "ALICE" "alice" (E "another record"%string) eq_refl eq_refl)
      as [Hs|(app & ok & Ha & _ & [(c & Hg & Hr)|Hg])]; [exact Hs|exfalso..]; injection Ha as <-; rewrite H1 in Hg; [|discriminate Hg].
    injection Hg as <-. discriminate Hr.
  - destruct (run_clears_own_record _ _ _ _ _ _ _ "ALICE" "alice" (E RunResults.written) eq_refl eq_refl)
      as [Hs|(app & ok & Ha & Hs & _)]; [vm_compute in Hs; discriminate Hs|].
    injection Ha as <-. exists ok. exact Hs.
Defined.

(** A start that fails leaves the record on the chain.  The node's port is taken: [run] ends
    with status 1, after the record was written and without clearing it, so that other nodes
    go on looking for the node at that address. *)
Theorem failed_run_leaves_record :
  RunExample.run "10.0.0.7:9000" false RunExample.node = (RunResults.prepared.1, Err (Exit 1)) /\
  sent RunResults.prepared.1 = [("ALICE"%string, writes_record 7 RunResults.written, true)].
Proof. vm_compute. split; reflexivity. Qed.

(** A fixed IPv6 address is written and is of no use: the record is taken by the chain, and
    what a peer reads back has no endpoint and does not verify. *)
Theorem ipv6_record_unusable :
  match RunExample.prepare "[::1]:9000" RunExample.node with
  | (s, Ok (_, _, Some c)) =>
      sent s = [("ALICE"%string, writes_record 7 c, true)] /\
      match deserialize_csv "ALICE" c with
      | Some r => Advert.endpoint r = None /\
                  Advert.verify (to_vec RunExample.base) (ed25519_verify RunExample.base) (valid_key RunExample.base)
                    (base64_decode RunExample.base) (address_to_byte_key RunExample.base) r = false
      | None => False
      end
  | _ => False
  end.
Proof. vm_compute. split_and!; reflexivity. Qed.
