(* ===== verification/CheckRelays.v ===== *)
(** * The command line: [checkrelays]

    Models [src/bingle_cli/src/checkrelays.rs] and [cmd_checkrelays] of
    [src/bingle_cli/src/main.rs]: its arguments, the check of the account, the options it
    starts a node with, what it makes of relays, refusals and discovery, and the figures it
    prints for a relay.

    What the node's API lists, has recorded and answers are arguments of a round; a ratio is
    kept as its numerator and denominator, its text is not modelled. *)
From S2P Require Import Prelude NetAddr Advert LocalTypes Envelope EngineIo Account Chain ChainRegistration JsiTypes CliArgs CliChain Certs.

Local Open Scope Z_scope.

(** ** [checkrelays.rs] *)

Definition DISCOVERY_WAIT : Z := 30.

Record RelayRef : Type := MkRelayRef { ref_id : string; ref_address : string }.
Record RelayRefusal : Type := MkRelayRefusal { refusing_id : string; reason : string }.

Inductive RelayCheckPlan : Type :=
| Probe (relays : list RelayRef)
| NoneDiscovered
| Refused (refusals : list RelayRefusal)
| NoneAnswered (relays : list RelayRef).

Definition plan_relay_check (listed discovered : list RelayRef) (refusals : list RelayRefusal) : RelayCheckPlan :=
  match listed with
  | _ :: _ => Probe listed
  | [] =>
      match refusals with
      | _ :: _ => Refused refusals
      | [] => match discovered with [] => NoneDiscovered | _ :: _ => NoneAnswered discovered end
      end
  end.

Definition refusal_line (r : RelayRefusal) : string :=
  if String.eqb (reason r) REFUSAL_UNAUTHENTICATED then
    "  relay " +:+ refusing_id r +:+ " could not authenticate this account"
  else "  relay " +:+ refusing_id r +:+ " refused: " +:+ reason r.

Definition relay_line (r : RelayRef) : string := "  relay " +:+ ref_id r +:+ " @ " +:+ ref_address r.

Definition refusal_cause (app : Z) (me : string) (own_handle_registered : option bool) : string :=
  match own_handle_registered with
  | Some false =>
      "this account (" +:+ me +:+ ") has no handle on app " +:+ show_dec app +:+
      ": register it (bingle_cli register) or, if it is registered on an earlier app, migrate it (bingle_cli migrate)"
  | Some true =>
      "this account (" +:+ me +:+ ") has a handle on app " +:+ show_dec app +:+
      ", so the relay could not read it from the chain; check the relay's Algorand node"
  | None =>
      "either this account (" +:+ me +:+ ") has no handle on app " +:+ show_dec app +:+
      " (register or migrate it), or the relay could not read the chain"
  end.

Definition describe_plan (plan : RelayCheckPlan) (app : Z) (me : string) (own_handle_registered : option bool) (waited : Z)
  : list string :=
  match plan with
  | Probe _ => []
  | NoneDiscovered =>
      ["No relays discovered for app " +:+ show_dec app +:+ ": no account advertises a relay endpoint on chain"]
  | Refused refusals =>
      ("Relays refused this account: " +:+ refusal_cause app me own_handle_registered) :: map refusal_line refusals
  | NoneAnswered discovered =>
      ("Found " +:+ show_dec (Z.of_nat (length discovered)) +:+ " relay(s) for app " +:+ show_dec app +:+
       " but none answered within " +:+ show_dec waited +:+ "s:") :: map relay_line discovered
  end.

(** ** The arguments *)

Record CheckFlags : Type := MkCheckFlags { interval_ms : Z; once : bool; ck_rest : list string }.

(** The two flags of the loop are taken out first. *)
Fixpoint check_flags (args : list string) (f : CheckFlags) : result CheckFlags ended :=
  match args with
  | [] => Ok f
  | a :: args =>
      if String.eqb a "--interval-ms" then
        match args with
        | [] => Err (Exit 2)
        | v :: args =>
            match Chain.parse_u64 v with
            | Some n => check_flags args (MkCheckFlags n (once f) (ck_rest f))
            | None => Err (Exit 2)
            end
        end
      else if String.eqb a "--once" then check_flags args (MkCheckFlags (interval_ms f) true (ck_rest f))
      else check_flags args (MkCheckFlags (interval_ms f) (once f) (ck_rest f ++ [a]))
  end.

Record CheckArgs : Type := MkCheckArgs {
  ck_passphrase : option string;
  ck_node_file : option string;
  ck_app_id : option Z;
  ck_asset_id : option Z;
  ck_stun_servers : option (list SocketAddr);
  ck_auto_migrate : bool
}.

Definition no_check_args : CheckArgs := MkCheckArgs None None None None None false.

Section CheckRelays.
Context (v6 : string -> option SocketAddr) (resolve : string -> option (list SocketAddr))
  (read_file : string -> option string) (decode_node_file : string -> option NodeFile) (env : string -> option string).

Abbreviation stun_list := (parse_stun_list v6 resolve).
Abbreviation stun_file := (parse_stun_file v6 resolve read_file).

(** A flag that takes a value. *)
Definition check_flag (flag : string) : option (string -> CheckArgs -> option CheckArgs) :=
  if decide (flag = "--passphrase"%string) then
    Some (fun v a => Some (MkCheckArgs (Some v) (ck_node_file a) (ck_app_id a) (ck_asset_id a) (ck_stun_servers a) (ck_auto_migrate a)))
  else if decide (flag = "--node-file"%string) then
    Some (fun v a => Some (MkCheckArgs (ck_passphrase a) (Some v) (ck_app_id a) (ck_asset_id a) (ck_stun_servers a) (ck_auto_migrate a)))
  else if decide (flag = "--app-id"%string) then
    Some (fun v a => n ← Chain.parse_u64 v;
      Some (MkCheckArgs (ck_passphrase a) (ck_node_file a) (Some n) (ck_asset_id a) (ck_stun_servers a) (ck_auto_migrate a)))
  else if decide (flag = "--asset-id"%string) then
    Some (fun v a => n ← Chain.parse_u64 v;
      Some (MkCheckArgs (ck_passphrase a) (ck_node_file a) (ck_app_id a) (Some n) (ck_stun_servers a) (ck_auto_migrate a)))
  else if decide (flag = "--stun-servers"%string) then
    Some (fun v a => l ← result_ok (stun_list v);
      Some (MkCheckArgs (ck_passphrase a) (ck_node_file a) (ck_app_id a) (ck_asset_id a) (Some l) (ck_auto_migrate a)))
  else if decide (flag = "--stun-servers-file"%string) then
    Some (fun v a => l ← result_ok (stun_file v);
      Some (MkCheckArgs (ck_passphrase a) (ck_node_file a) (ck_app_id a) (ck_asset_id a) (Some l) (ck_auto_migrate a)))
  else None.

Fixpoint check_args (args : list string) (a : CheckArgs) : result CheckArgs ended :=
  match args with
  | [] => Ok a
  | flag :: args =>
      if String.eqb flag "--auto-migrate" then
        check_args args (MkCheckArgs (ck_passphrase a) (ck_node_file a) (ck_app_id a) (ck_asset_id a) (ck_stun_servers a) true)
      else match check_flag flag with
      | None => Err (Exit 2)
      | Some set =>
          match args with
          | [] => Err (Exit 2)
          | v :: args => match set v a with None => Err (Exit 2) | Some a => check_args args a end
          end
      end
  end.

Definition given (o : option string) : result string ended :=
  match o with Some p => if String.eqb p "" then Err (Exit 2) else Ok p | None => Err (Exit 2) end.

(** The node is started under the account's own address for a handle. *)
Definition check_options (me pass : string) (a : CheckArgs) (network : option string) (cfg : option AlgoChainConfig)
    (app asset : Z) : CliArgs.StartOptions :=
  CliArgs.MkStartOptions me (Some pass) None false (ck_stun_servers a) cfg network (Some app) (Some asset) None None false Plain.

(** ** Up to the start of the node *)

Section Commands.
Context {W : Type} `{AlgoNode W} (ops_of : string -> AlgoOps).

Definition check_prepare (args : list string) : Cmd (W := W) (CheckFlags * CliArgs.StartOptions) :=
  if asks_help args then exits 0
  else
    let* f := checked (check_flags args (MkCheckFlags 5000 false [])) in
    let* a := checked (check_args (ck_rest f) no_check_args) in
    let* pass := checked (given (ck_passphrase a)) in
    let* x := checked (match ck_node_file a with
                       | None => Ok (None, None, None, None)
                       | Some file =>
                           match parse_node_file_with_ids read_file decode_node_file file with
                           | Ok (net, cfg, app, asset) => Ok (net, Some cfg, app, asset)
                           | Err _ => Err (Exit 2)
                           end
                       end) in
    let '(network, cfg, node_app, node_asset) := x in
    let* (app, asset) := checked (map_err (fun _ => Exit 2) (resolve_ids env node_app node_asset (ck_app_id a) (ck_asset_id a))) in
    let* me := checked (ok_or (ops_address (ops_of pass)) (Exit 2)) in
    let* _ := ensure_account_ready_or_exit (Some me) app asset (c ← cfg; chain_app_id c) (ck_auto_migrate a) UnregisteredFail in
    done_ (f, check_options me pass a network cfg app asset).
End Commands.
End CheckRelays.

(** ** A round *)

(** The answer of a relay to a ping, with the time it took; [None] is an error. *)
Definition acknowledged (answer : option json) : bool :=
  match answer with
  | None => false
  | Some resp =>
      bool_decide (str_field "app" resp = Some "ping"%string) && bool_decide (str_field "type" resp = Some "response"%string) &&
      match str_field "text" resp with Some t => String.prefix "ACK:" t | None => false end
  end.

Record RelayStats : Type := MkStats {
  ok_count : Z; fail_count : Z;
  avg : option (Z * Z);
  p50 : Z; p95 : Z;
  fail_rate : Z * Z
}.

(** The times of the answers that count, sorted. *)
Definition times (answers : list (option json * Z)) : list Z :=
  merge_sort Z.le (omap (fun a => if acknowledged a.1 then Some a.2 else None) answers).

(** Five answers at most are looked at: the index of [p95], computed with floating point
    numbers, is exact for so few. *)
Definition relay_stats (answers : list (option json * Z)) : RelayStats :=
  let ts := times answers in
  let n := Z.of_nat (length ts) in
  let fail := Z.of_nat (length answers) - n in
  MkStats n fail
    (if n =? 0 then None else Some (foldr Z.add 0 ts, n))
    (default 0 (ts !! ((length ts - 1) / 2)%nat))
    (if n =? 0 then 0 else default 0 (ts !! Nat.min (Z.to_nat ((n * 95 + 99) / 100) - 1) (length ts - 1)))
    (if 0 <? n + fail then (fail, n + fail) else (1, 1)).

Inductive report : Type :=
| Lines (l : list string)
| Stats (l : list (RelayRef * RelayStats)).

(** One round, of a node in the state [registered]; [listed], [refusals] and [discovered]
    are what the API and the discovery on the chain give, [handle] the account's own
    handle as the chain has it, [answer relay k] the answer to the [k]th ping. *)
Definition check_round (registered : bool) (listed discovered : list RelayRef) (refusals : list RelayRefusal)
    (app : Z) (me : string) (handle : result (option string) string) (waited : Z)
    (answer : RelayRef -> nat -> option json * Z) : report :=
  let listed := if registered then listed else [] in
  let discovered := match listed, refusals with
                    | [], [] => List.filter (fun r => negb (String.eqb (ref_id r) me)) discovered
                    | _, _ => []
                    end in
  match plan_relay_check listed discovered refusals with
  | Probe relays => Stats (map (fun r => (r, relay_stats (map (answer r) (seq 0 5)))) relays)
  | plan =>
      let own := match plan with
                 | Refused _ => match handle with Ok h => Some (bool_decide (is_Some h)) | Err _ => None end
                 | _ => None
                 end in
      Lines (describe_plan plan app me own waited)
  end.

(** ** What a round says *)

Lemma times_length answers : (length (times answers) <= length answers)%nat.
Proof. unfold times. rewrite merge_sort_Permutation. induction answers as [|[a t] l IH]; cbn; [lia|]. destruct (acknowledged a); cbn; lia. Qed.

Lemma times_in answers t : t ∈ times answers -> exists a, (a, t) ∈ answers /\ acknowledged a = true.
Proof.
  unfold times. rewrite merge_sort_Permutation, list_elem_of_omap. intros ([a t'] & Hin & E). cbn in E.
  destruct (acknowledged a) eqn:Ea; [|done]. injection E as ->. by exists a.
Qed.

Lemma times_sorted answers i j x y : (i <= j)%nat -> times answers !! i = Some x -> times answers !! j = Some y -> x <= y.
Proof.
  assert (Hs : StronglySorted Z.le (times answers)).
  { unfold times. apply Sorted_StronglySorted; [|apply Sorted_merge_sort]; [intros a b c; lia|]. intros a b. lia. }
  generalize dependent (times answers). intros l Hs. revert i j. induction Hs as [|a l Hs IH Hf]; intros i j Hij Hi Hj; [done|].
  destruct j as [|j]; [destruct i; [|lia]; cbn in Hi, Hj; simplify_eq; lia|]. cbn in Hj. destruct i as [|i].
  - cbn in Hi. simplify_eq. rewrite Forall_forall in Hf. apply Hf. by eapply list_elem_of_lookup_2.
  - cbn in Hi. apply (IH i j); [lia|done|done].
Qed.

(** The figures of a relay are those of its answers.  Answers and failures add up to the
    pings; without an answer the times are zero and the failures are all; with answers, both
    percentiles are times of answers that acknowledged the ping, no smaller than the first,
    [p50] is at most [p95], and of up to nineteen answers [p95] is the slowest. *)
Theorem probe_figures (answers : list (option json * Z)) :
  let s := relay_stats answers in
  ok_count s + fail_count s = Z.of_nat (length answers) /\ 0 <= ok_count s /\ 0 <= fail_count s /\
  (ok_count s = 0 -> p50 s = 0 /\ p95 s = 0 /\ avg s = None) /\
  (0 < ok_count s ->
   (exists a, (a, p50 s) ∈ answers /\ acknowledged a = true) /\
   (exists a, (a, p95 s) ∈ answers /\ acknowledged a = true) /\ p50 s <= p95 s /\
   (ok_count s <= 19 -> forall a t, (a, t) ∈ answers -> acknowledged a = true -> t <= p95 s)).
Proof.
  cbv zeta. pose proof (times_length answers) as Hlen. unfold relay_stats. cbn [ok_count fail_count p50 p95 avg].
  set (n := Z.of_nat (length (times answers))). split_and!; [lia|lia|lia|..].
  - intros Hn. rewrite Hn. cbn [Z.eqb]. destruct (times answers) eqn:E; [done|]. cbn in n. lia.
  - intros Hn. destruct (Z.eqb_spec n 0) as [|_]; [lia|].
    set (i := ((length (times answers) - 1) / 2)%nat).
    set (j := Nat.min (Z.to_nat ((n * 95 + 99) / 100) - 1) (length (times answers) - 1)).
    assert (Hq : 1 <= (n * 95 + 99) / 100) by (apply Z.div_le_lower_bound; lia).
    assert (Hj : (j < length (times answers))%nat) by lia.
    assert (Hi2 : (2 * i <= length (times answers) - 1)%nat) by (subst i; apply Nat.Div0.mul_div_le).
    assert (Hi : (i < length (times answers))%nat) by lia.
    destruct (lookup_lt_is_Some_2 _ _ Hi) as [x Hx]. destruct (lookup_lt_is_Some_2 _ _ Hj) as [y Hy].
    rewrite Hx, Hy. cbn [default from_option]. unfold id.
    assert (Hij : (i <= j)%nat).
    { assert (n <= 2 * ((n * 95 + 99) / 100)); [|lia].
      pose proof (Z.div_mod (n * 95 + 99) 100 ltac:(lia)). pose proof (Z.mod_pos_bound (n * 95 + 99) 100 ltac:(lia)). lia. }
    split; [by apply times_in; eapply list_elem_of_lookup_2|]. split; [by apply times_in; eapply list_elem_of_lookup_2|].
    split; [by eapply times_sorted|]. intros Hsmall a t Hin Ha.
    assert (Hj' : j = (length (times answers) - 1)%nat).
    { assert (n <= (n * 95 + 99) / 100); [apply Z.div_le_lower_bound; lia|]. lia. }
    assert (Ht : t ∈ times answers).
    { unfold times. rewrite merge_sort_Permutation, list_elem_of_omap. exists (a, t). cbn. by rewrite Ha. }
    apply list_elem_of_lookup_1 in Ht as [k Hk]. pose proof (lookup_lt_Some _ _ _ Hk).
    apply (times_sorted answers k j); [lia|done|done].
Qed.

Lemma stats_total answers : ok_count (relay_stats answers) + fail_count (relay_stats answers) = Z.of_nat (length answers).
Proof. unfold relay_stats. cbn [ok_count fail_count]. lia. Qed.

(** A round tells the cases apart.  The relays of a registered node that lists some are
    pinged five times each; otherwise there is something to read: every refusal with its
    reason, headed by the cause that the chain gives for it; without a refusal every relay
    found on the chain but the account itself; and only if there is neither, that the
    application has no relay. *)
Theorem round_explains registered listed discovered refusals app me handle waited answer :
  match check_round registered listed discovered refusals app me handle waited answer with
  | Stats l =>
      registered = true /\ listed <> [] /\ map fst l = listed /\
      forall r s, (r, s) ∈ l -> ok_count s + fail_count s = 5
  | Lines l =>
      (registered = true -> listed = []) /\
      match refusals with
      | [] =>
          let others := List.filter (fun r => negb (String.eqb (ref_id r) me)) discovered in
          (others = [] -> l = describe_plan NoneDiscovered app me None waited) /\
          (forall r, r ∈ discovered -> ref_id r <> me -> relay_line r ∈ l)
      | _ =>
          (forall r, r ∈ refusals -> refusal_line r ∈ l) /\
          head l = Some ("Relays refused this account: " +:+
            refusal_cause app me match handle with Ok h => Some (bool_decide (is_Some h)) | Err _ => None end)
      end
  end.
Proof.
  unfold check_round.
  destruct (if registered then listed else []) as [|r0 rs] eqn:El.
  - assert (Hl : registered = true -> listed = []) by (by intros ->).
    destruct refusals as [|f fs]; cbn [plan_relay_check].
    + destruct (List.filter _ discovered) as [|d ds] eqn:Ed; cbn [describe_plan].
      * split; [done|]. split; [done|]. intros r Hr Hne. exfalso.
        apply (in_nil (a := r)). rewrite <- Ed. apply filter_In. split; [by apply list_elem_of_In|].
        by apply negb_true_iff, String.eqb_neq.
      * split; [done|]. split; [done|]. intros r Hr Hne. right. apply list_elem_of_In, in_map. rewrite <- Ed.
        apply filter_In. split; [by apply list_elem_of_In|]. by apply negb_true_iff, String.eqb_neq.
    + cbn [describe_plan]. split; [done|]. split; [|done]. intros r Hr. right.
      by apply list_elem_of_In, in_map, list_elem_of_In.
  - destruct registered; [|done]. subst listed. cbn [plan_relay_check]. split_and!; [done|done| |].
    + rewrite map_map. cbn. by rewrite map_id.
    + intros r s Hin. apply list_elem_of_In, in_map_iff in Hin as (r' & [= _ <-] & _).
      by rewrite stats_total.
Qed.
