(* ===== verification/WebServer.v ===== *)
(** * The web server

    Models [src/bingle_webserver/src/]: the requests of [handlers.rs] and [models.rs], the
    deferred start of [lib.rs], and the start of the server and its callback for messages in
    [main.rs].

    The state [Web] is what the handlers share, with the world; a handler is a computation
    that ends with a response.  The local client is that of [Account] and [LocalStore], the
    node the class [NodeApi] of [Jsi]; its start with the options of [CliArgs] and the lookup
    of a handle by id are parameters.  [tried] records the options the node was started
    with.  Routing, JSON and what becomes of a handler whose thread fails belong to the
    libraries. *)
From S2P Require Import Prelude NetAddr Api LocalTypes SendRetry Mailbox Envelope Account LocalStore JsiTypes Jsi CliArgs Chat Chain Certs.
Import Account LocalTypes.

Local Open Scope Z_scope.

(** ** Requests and responses *)

(** A response item for a stored message. *)
Record MessageResponse : Type := MkMessageResponse {
  mr_message : Message;
  failure_category : option SendFailureKind;
  failure_retryable : option bool
}.

Inductive body : Type :=
| BEmpty
| BText (s : string)
| BId (id : string)
| BBool (b : bool)
| BJson (v : json)
| BQueued (l : list json)
| BKeypair (k : Keypair)
| BStatus (s : KeypairStatus)
| BContacts (l : list Contact)
| BMessages (l : list MessageResponse)
| BNatType (s : string).

Definition response : Type := (Z * body)%type.

Record NetworkSourceKey : Type := MkNetworkSourceKey {
  inet_socket_address : option JsiTypes.InetSocketAddress;
  relay_channel : option Z;
  relay_address : option JsiTypes.InetSocketAddress;
  nsk_relay_id : option string
}.

Record Web (W : Type) : Type := MkWeb {
  client : option LocalState;
  wworld : W;
  queued : list json;
  local_file : option string;
  start_opts : option CliArgs.StartOptions;
  api_started : bool;
  nat_type : string;
  tried : list CliArgs.StartOptions
}.
Arguments MkWeb {W}. Arguments client {W}. Arguments wworld {W}. Arguments queued {W}. Arguments local_file {W}.
Arguments start_opts {W}. Arguments api_started {W}. Arguments nat_type {W}. Arguments tried {W}.

Section Setters.
Context {W : Type}.
Implicit Types c : Web W.
Definition set_client (s : option LocalState) (w : W) c : Web W :=
  MkWeb s w (queued c) (local_file c) (start_opts c) (api_started c) (nat_type c) (tried c).
Definition push_queued (m : json) c : Web W :=
  MkWeb (client c) (wworld c) (queued c ++ [m]) (local_file c) (start_opts c) (api_started c) (nat_type c) (tried c).
Definition started_with (o : CliArgs.StartOptions) c : Web W :=
  MkWeb (client c) (wworld c) (queued c) (local_file c) (start_opts c) true (nat_type c) (tried c ++ [o]).
Definition set_nat_type (t : string) c : Web W :=
  MkWeb (client c) (wworld c) (queued c) (local_file c) (start_opts c) (api_started c) t (tried c).
End Setters.

Definition handle_bingle_error (e : BingleError) : response :=
  match e with
  | Algo true text => (502, BText text)
  | e => (500, BText (error_to_string e))
  end.

Definition ok_or_error {B} (k : B -> body) (r : result B BingleError) : response :=
  match r with Ok b => (200, k b) | Err e => handle_bingle_error e end.

Definition local_disabled : response := (405, BText "Local API disabled").

Section Server.
Context {W : Type} `{LocalWorld W} `{NodeApi W}.
Context (print : json -> string).
Context (api_start : CliArgs.StartOptions -> W -> W * result unit BingleError)
  (api_handle_lookup_by_id : string -> W -> W * option string).

Abbreviation C := (ST (Web W)).

Definition in_node {B} (f : W -> W * B) : C B :=
  fun c => let '(w, b) := f (wworld c) in (set_client (client c) w c, b).

(** On the local client, if there is one. *)
Definition on_client {B} (m : L (W := W) B) : C (option B) := fun c =>
  match client c with
  | None => (c, None)
  | Some s => let '((s, w), b) := m (s, wworld c) in (set_client (Some s) w c, Some b)
  end.

(** The endpoint of a request: a relay before an address; an address that does not resolve is
    left out. *)
Definition endpoint_of_key (k : NetworkSourceKey) : NetworkEndpoint :=
  match nsk_relay_id k with
  | Some rid => new_relay rid (relay_address k ≫= resolve_host) (relay_channel k)
  | None =>
      match inet_socket_address k ≫= resolve_host with
      | Some addr => new_direct addr
      | None => new_unset
      end
  end.

(** ** The node's operations *)

Definition handle_lookup (handle : string) : C response :=
  r ← in_node (api_handle_lookup handle);
  mret match r with
       | Ok (Some id) => (200, BId id)
       | Ok None => (404, BText "Handle not found")
       | Err e => handle_bingle_error e
       end.

Definition save_to (path : string) : C unit :=
  c ← get_st;
  match client c with
  | Some s => _ ← in_node (write_state path (LocalStore.save s)); mret tt
  | None => mret tt
  end.

Definition save_if_configured : C unit :=
  c ← get_st;
  match local_file c with Some path => save_to path | None => mret tt end.

(** A message that was sent is kept by the local client, where the handles of both sides are
    known. *)
Definition keep_sent (user_id : string) (message : json) : C unit :=
  c ← get_st;
  match client c with
  | None => mret tt
  | Some _ =>
      own ← in_node api_get_handle;
      match own with
      | None => mret tt
      | Some own =>
          to ← in_node (api_handle_lookup_by_id user_id);
          match to with
          | None => mret tt
          | Some to =>
              let txt := default (print message) (str_field "text" message) in
              now ← in_node epoch_ms;
              _ ← on_client (LocalStore.add_message own [to] (default 0 now) txt None);
              save_if_configured
          end
      end
  end.

Definition send_message_to_id (user_id : string) (message : json) : C response :=
  r ← in_node (api_send_to_id user_id message);
  _ ← (match r with Ok true => keep_sent user_id message | _ => mret tt end);
  mret (ok_or_error BBool r).

Definition send_message_to_handle (handle : string) (message : json) : C response :=
  r ← in_node (api_send_to_handle handle message); mret (ok_or_error BBool r).

Definition send_message_to_network (k : NetworkSourceKey) (user_id : string) (message : json) : C response :=
  r ← in_node (api_send_to_network (endpoint_of_key k) user_id message); mret (ok_or_error BBool r).

Definition send_message_to_id_with_response (user_id : string) (message : json) : C response :=
  r ← in_node (api_request_id user_id message); mret (ok_or_error BJson r).

Definition send_message_to_handle_with_response (handle : string) (message : json) : C response :=
  r ← in_node (api_request_handle handle message); mret (ok_or_error BJson r).

Definition send_message_to_network_with_response (k : NetworkSourceKey) (user_id : string) (message : json) : C response :=
  r ← in_node (api_request_network (endpoint_of_key k) user_id message); mret (ok_or_error BJson r).

Definition get_queued : C response := c ← get_st; mret (200, BQueued (queued c)).
Definition get_nat_type : C response := c ← get_st; mret (200, BNatType (nat_type c)).

(** ** The deferred start *)

(** The options of the start: the handle and the passphrase of the local client. *)
Definition opts_of_status (st : KeypairStatus) (kp : option Keypair) (o : CliArgs.StartOptions) : CliArgs.StartOptions :=
  CliArgs.MkStartOptions (default (CliArgs.handle o) (status_handle st))
    (match kp with Some k => Some (passphrase k) | None => algo_passphrase o end)
    (static_ip o) (am_relay o) (stun_servers o) (algo_provider_config o) (algo_network o) (CliArgs.app_id o)
    (CliArgs.asset_id o) (log_level o) (handle_cache_expiry_secs o) (CliArgs.dangerous_debug o) (log_mode o).

(** The start is tried with the account if it is active; what comes of it is logged. *)
Definition start_if_active (o : CliArgs.StartOptions) : C unit :=
  r ← on_client (Account.keypair_status);
  match r with
  | Some (Ok st) =>
      if decide (status st = "ACTIVE"%string) then
        kp ← on_client Account.get_keypair;
        let o := opts_of_status st (match kp with Some (Ok k) => k | _ => None end) o in
        _ ← in_node (api_start o);
        modify (started_with o)
      else mret tt
  | _ => mret tt
  end.

Definition try_start_api : C unit :=
  c ← get_st;
  match start_opts c with
  | None => mret tt
  | Some o => if api_started c then mret tt else start_if_active o
  end.

(** ** The local client's operations *)

(** An operation of the local client; where it changes the state, the file is written after
    it succeeded. *)
Definition local_op {B} (m : L (W := W) (result B BingleError)) (after : C unit) (k : B -> body) : C response :=
  r ← on_client m;
  match r with
  | None => mret local_disabled
  | Some (Ok b) => _ ← after; mret (200, k b)
  | Some (Err e) => mret (handle_bingle_error e)
  end.

Abbreviation empty := (fun _ => BEmpty).

Definition local_generate_keypair : C response := local_op Account.generate_keypair save_if_configured BKeypair.

Definition local_register_keypair (handle : string) : C response :=
  local_op (Account.register_keypair handle) (_ ← save_if_configured; try_start_api) empty.

Definition parse_source (source : string) : option ContactSource :=
  if String.eqb source "Manual" || String.eqb source "manual" then Some Manual
  else if String.eqb source "Received" || String.eqb source "received" then Some Received else None.

Definition local_add_contact (handle id source : string) : C response :=
  match parse_source source with
  | None => mret (400, BText "Invalid source")
  | Some source => local_op (in_store (LocalStore.add_contact handle id source)) save_if_configured empty
  end.

Definition local_block_contact (id : string) : C response :=
  local_op (in_store (LocalStore.block_contact id)) save_if_configured empty.
Definition local_remove_contact (id : string) : C response :=
  local_op (in_store (LocalStore.remove_contact id)) save_if_configured empty.

Definition local_is_blocked (id : string) : C response :=
  local_op (s ← get_state; mret (LocalStore.is_blocked id (st s))) (mret tt) BBool.
Definition local_get_contacts : C response :=
  local_op (s ← get_state; mret (Ok (LocalStore.get_contacts (st s)))) (mret tt) BContacts.

Definition local_add_message (sender : string) (recipients : list string) (at_ : Z) (txt : string) (suite : option string)
  : C response := local_op (LocalStore.add_message sender recipients at_ txt suite) save_if_configured empty.

Definition message_response (m : Message) : MessageResponse :=
  MkMessageResponse m (failure_kind m) (is_retryable <$> failure_kind m).

Definition local_get_messages : C response :=
  local_op (s ← get_state; mret (Ok (LocalStore.get_messages (st s)))) (mret tt)
    (fun l => BMessages (map message_response l)).

Definition local_save (path : string) : C response :=
  local_op (s ← get_state; outside (write_state path (LocalStore.save s))) (mret tt) empty.

Definition local_load (path : string) : C response :=
  local_op (r ← outside (read_state path);
            match r with
            | Ok f => _ ← update (LocalStore.load f); mret (Ok tt)
            | Err e => mret (Err e)
            end) save_if_configured empty.

Definition local_keypair_status : C response := local_op (Account.keypair_status) (mret tt) BStatus.

(** ** What the node reports *)

(** A blocked sender's message is dropped; another is queued, and kept by the local client
    under the node's own handle. *)
Definition on_message (sender sender_handle : string) (message : json) : C unit :=
  c ← get_st;
  let blocked := match client c with
                 | Some s => match LocalStore.is_blocked sender (st s) with Ok b => b | Err _ => false end
                 | None => false
                 end in
  if blocked then mret tt
  else
    _ ← modify (push_queued message);
    match client c with
    | None => mret tt
    | Some _ =>
        now ← in_node epoch_ms;
        own ← in_node api_get_handle;
        match own with
        | None => mret tt
        | Some own =>
            _ ← on_client (LocalStore.add_received_message sender_handle [own] (default 0 now) (str_field "text" message)
                             (print message) (str_field "cipher_suite" message) (get "sent_time" message ≫= as_i64)
                             (str_field "signature" message));
            save_if_configured
        end
    end.

Definition on_listening (listening : bool) (nat : string) : C unit :=
  modify (set_nat_type (if listening then nat else "Unknown"%string)).

(** ** The start of the server *)

(** The state the server starts with: without a local client the node is started at once;
    with one, only if its account is active. *)
Definition serve (o : CliArgs.StartOptions) (file : option string) (loaded : LocalState) (w : W) : Web W :=
  let base := MkWeb (match file with Some _ => Some loaded | None => None end) w [] file None false "Unknown" [] in
  let c := match file with
           | None => (in_node (api_start o) base).1
           | Some _ => (start_if_active o base).1
           end in
  let c := match file with None => started_with o c | Some _ => c end in
  MkWeb (client c) (wworld c) (queued c) (local_file c) (if api_started c then None else Some o) (api_started c)
    (nat_type c) (tried c).

(** *** The requests together *)

Inductive request : Type :=
| RHandleLookup (handle : string)
| RSendId (user_id : string) (message : json)
| RSendHandle (handle : string) (message : json)
| RSendNetwork (k : NetworkSourceKey) (user_id : string) (message : json)
| RRequestId (user_id : string) (message : json)
| RRequestHandle (handle : string) (message : json)
| RRequestNetwork (k : NetworkSourceKey) (user_id : string) (message : json)
| RQueued
| RNatType
| RGenerateKeypair
| RRegisterKeypair (handle : string)
| RAddContact (handle id source : string)
| RBlockContact (id : string)
| RRemoveContact (id : string)
| RIsBlocked (id : string)
| RGetContacts
| RAddMessage (sender : string) (recipients : list string) (at_ : Z) (txt : string) (suite : option string)
| RGetMessages
| RKeypairStatus
| RSave (path : string)
| RLoad (path : string).

Definition route (r : request) : C response :=
  match r with
  | RHandleLookup h => handle_lookup h
  | RSendId i m => send_message_to_id i m
  | RSendHandle h m => send_message_to_handle h m
  | RSendNetwork k i m => send_message_to_network k i m
  | RRequestId i m => send_message_to_id_with_response i m
  | RRequestHandle h m => send_message_to_handle_with_response h m
  | RRequestNetwork k i m => send_message_to_network_with_response k i m
  | RQueued => get_queued
  | RNatType => get_nat_type
  | RGenerateKeypair => local_generate_keypair
  | RRegisterKeypair h => local_register_keypair h
  | RAddContact h i s => local_add_contact h i s
  | RBlockContact i => local_block_contact i
  | RRemoveContact i => local_remove_contact i
  | RIsBlocked i => local_is_blocked i
  | RGetContacts => local_get_contacts
  | RAddMessage s rs t txt suite => local_add_message s rs t txt suite
  | RGetMessages => local_get_messages
  | RKeypairStatus => local_keypair_status
  | RSave p => local_save p
  | RLoad p => local_load p
  end.

Definition is_local (r : request) : bool :=
  match r with
  | RHandleLookup _ | RSendId _ _ | RSendHandle _ _ | RSendNetwork _ _ _ | RRequestId _ _ | RRequestHandle _ _
  | RRequestNetwork _ _ _ | RQueued | RNatType => false
  | _ => true
  end.

(** An event of the server: a request, a message for the node, a change of listening. *)
Inductive event : Type :=
| ERequest (r : request)
| EMessage (sender sender_handle : string) (message : json)
| EListening (listening : bool) (nat : string).

Definition step (e : event) : C unit :=
  match e with
  | ERequest r => _ ← route r; mret tt
  | EMessage s h m => on_message s h m
  | EListening b n => on_listening b n
  end.

Fixpoint run (l : list event) : C unit :=
  match l with [] => mret tt | e :: l => _ ← step e; run l end.
End Server.

(** ** The arguments of the server *)

Record WebArgs : Type := MkWebArgs {
  wa_port : Z;
  wa_address : string;
  wa_local_file : option string;
  wa_notify_gateway_url : option string;
  wa_notify_on_giveup : option bool;
  wa_log_mode : LogMode;
  wa_other : list string
}.

Definition web_args_none : WebArgs := MkWebArgs 12121 "127.0.0.1" None None None Plain [].

Definition parse_giveup (v : string) : result bool string :=
  let l := map to_ascii_lowercase (chars v) in
  if existsb (fun w => bool_decide (l = chars w)) ["true"; "1"; "yes"]%string then Ok true
  else if existsb (fun w => bool_decide (l = chars w)) ["false"; "0"; "no"]%string then Ok false
  else Err ("--notify-on-giveup expects true|false, got '" +:+ v +:+ "'").

(** A flag of the server, with what is said when its value is missing. *)
Definition web_flag (flag : string) : option (string * (string -> WebArgs -> result WebArgs string)) :=
  if String.eqb flag "--log-mode" then
    Some ("--log-mode requires a value"%string, fun v a =>
      Ok (MkWebArgs (wa_port a) (wa_address a) (wa_local_file a) (wa_notify_gateway_url a) (wa_notify_on_giveup a)
            (match parse_log_mode v with Ok m => m | Err _ => Plain end) (wa_other a)))
  else if String.eqb flag "--port" || String.eqb flag "-p" then
    Some ("--port requires a value"%string, fun v a =>
      let? p := ok_or (n ← Chain.parse_u64 v; if n <=? u16_max then Some n else None) "invalid digit found in string"%string in
      Ok (MkWebArgs p (wa_address a) (wa_local_file a) (wa_notify_gateway_url a) (wa_notify_on_giveup a) (wa_log_mode a) (wa_other a)))
  else if String.eqb flag "--local" then
    Some ("--local requires a <file> value"%string, fun v a =>
      Ok (MkWebArgs (wa_port a) (wa_address a) (Some v) (wa_notify_gateway_url a) (wa_notify_on_giveup a) (wa_log_mode a) (wa_other a)))
  else if String.eqb flag "--notify-gateway-url" then
    Some ("--notify-gateway-url requires a <url> value"%string, fun v a =>
      Ok (MkWebArgs (wa_port a) (wa_address a) (wa_local_file a) (Some v) (wa_notify_on_giveup a) (wa_log_mode a) (wa_other a)))
  else if String.eqb flag "--notify-on-giveup" then
    Some ("--notify-on-giveup requires a <true|false> value"%string, fun v a =>
      let? b := parse_giveup v in
      Ok (MkWebArgs (wa_port a) (wa_address a) (wa_local_file a) (wa_notify_gateway_url a) (Some b) (wa_log_mode a) (wa_other a)))
  else if String.eqb flag "--address" || String.eqb flag "-a" then
    Some ("--address requires a value"%string, fun v a =>
      Ok (MkWebArgs (wa_port a) v (wa_local_file a) (wa_notify_gateway_url a) (wa_notify_on_giveup a) (wa_log_mode a) (wa_other a)))
  else None.

Fixpoint web_args (args : list string) (a : WebArgs) : result WebArgs string :=
  match args with
  | [] => Ok a
  | flag :: args =>
      match web_flag flag with
      | None =>
          web_args args (MkWebArgs (wa_port a) (wa_address a) (wa_local_file a) (wa_notify_gateway_url a) (wa_notify_on_giveup a)
                           (wa_log_mode a) (wa_other a ++ [flag]))
      | Some (missing, set) =>
          match args with
          | [] => Err missing
          | v :: args => let? a := set v a in web_args args a
          end
      end
  end.

(** The options of the node; with a local client the handle may be missing and is empty then. *)
Definition web_options (parse : list string -> result CliArgs.StartOptions string) (a : WebArgs)
  : result CliArgs.StartOptions string :=
  match parse (wa_other a) with
  | Ok o => Ok o
  | Err e =>
      match wa_local_file a with
      | Some _ =>
          if str_contains "Missing handle" e then parse (wa_other a ++ ["--handle"; ""]%string) else Err e
      | None => Err e
      end
  end.

(** The configuration of the local client. *)
Definition web_config (a : WebArgs) (o : CliArgs.StartOptions) : LocalApiConfig :=
  with_sidewinder (from_app_id (CliArgs.app_id o))
    (with_notify (default 0 (CliArgs.app_id o)) (default 0 (CliArgs.asset_id o)) (wa_notify_on_giveup a)
       (wa_notify_gateway_url a)).

(** ** What requests leave alone *)

Section Frames.
Context {W : Type} `{LocalWorld W} `{NodeApi W}.
Context (print : json -> string).
Context (api_start : CliArgs.StartOptions -> W -> W * result unit BingleError)
  (api_handle_lookup_by_id : string -> W -> W * option string).

Abbreviation C := (ST (Web W)).
Abbreviation routed := (route print api_start api_handle_lookup_by_id).
Abbreviation runs := (run print api_start api_handle_lookup_by_id).

(** What decides on the start of the node. *)
Definition starting (c : Web W) := (local_file c, start_opts c, api_started c, tried c).

Definition keeps {B} (m : C B) : Prop := forall c, starting (m c).1 = starting c.

Lemma web_keeps_ret {B} (b : B) : keeps (mret b).
Proof using. by intros c. Qed.

Lemma web_keeps_bind {B D} (m : C B) (k : B -> C D) : keeps m -> (forall b, keeps (k b)) -> keeps (m ≫= k).
Proof using.
  intros Hm Hk c. unfold mbind, ST_bind. specialize (Hm c). destruct (m c) as [c1 b]. cbn in Hm. by rewrite (Hk b c1).
Qed.

Lemma keeps_node {B} (f : W -> W * B) : keeps (in_node f).
Proof using. intros c. unfold in_node. by destruct (f (wworld c)). Qed.

Lemma keeps_client {B} (m : L (W := W) B) : keeps (on_client m).
Proof using. intros c. unfold on_client. destruct (client c) as [s|]; [|done]. by destruct (m (s, wworld c)) as [[]]. Qed.

Lemma web_keeps_get {B} (k : Web W -> C B) : (forall c, keeps (k c)) -> keeps (c ← get_st; k c).
Proof using. intros Hk c. unfold mbind, ST_bind, get_st. apply Hk. Qed.

Lemma web_keeps_modify f : (forall c : Web W, starting (f c) = starting c) -> keeps (modify f).
Proof using. intros Hf c. apply Hf. Qed.

Ltac keeps_step :=
  lazymatch goal with
  | |- keeps (mret _) => apply web_keeps_ret
  | |- keeps (in_node _) => apply keeps_node
  | |- keeps (on_client _) => apply keeps_client
  | |- keeps (get_st ≫= _) => apply web_keeps_get; intros ?
  | |- keeps (_ ≫= _) => apply web_keeps_bind; [|intros ?]
  | |- keeps (modify _) => apply web_keeps_modify; intros ?; reflexivity
  | |- keeps (match _ with _ => _ end) => case_match
  | |- _ => assumption
  end.
Ltac keeps_solve := repeat keeps_step.

Lemma keeps_save_to path : keeps (save_to path).
Proof using. unfold save_to. keeps_solve. Qed.
Lemma keeps_save : keeps save_if_configured.
Proof using. unfold save_if_configured. keeps_solve. apply keeps_save_to. Qed.
Lemma keeps_sent i m : keeps (keep_sent print api_handle_lookup_by_id i m).
Proof using. unfold keep_sent. keeps_solve. apply keeps_save. Qed.
Lemma keeps_op {B} (m : L (W := W) (result B BingleError)) (after : C unit) k : keeps after -> keeps (local_op m after k).
Proof using. intros Ha. unfold local_op. keeps_solve. Qed.

Lemma keeps_message s h m : keeps (on_message print s h m).
Proof using. unfold on_message. cbv zeta. keeps_solve; apply keeps_save. Qed.

Lemma keeps_route r : (forall h, r <> RRegisterKeypair h) -> keeps (routed r).
Proof using.
  intros Hr. destruct r; try (by destruct (Hr handle)); cbn [route];
    try (unfold handle_lookup, send_message_to_id, send_message_to_handle, send_message_to_network,
           send_message_to_id_with_response, send_message_to_handle_with_response,
           send_message_to_network_with_response, get_queued, get_nat_type; keeps_solve; apply keeps_sent);
    try (apply keeps_op; apply keeps_save); try (apply keeps_op; apply web_keeps_ret).
  unfold local_add_contact. destruct (parse_source source); [apply keeps_op, keeps_save|apply web_keeps_ret].
Qed.

(** ** The start *)

(** Asked at this moment, the client with the state [s] says that its account is active, and
    [o'] are the options [o] with the account's handle and the passphrase of its key pair. *)
Definition active_account (o : CliArgs.StartOptions) (s : LocalState) (w : W) (o' : CliArgs.StartOptions) : Prop :=
  exists sw st kp, Account.keypair_status (s, w) = (sw, Ok st) /\ status st = "ACTIVE"%string /\
    keypair (acct s) = Some kp /\ o' = opts_of_status st (Some kp) o /\
    CliArgs.handle o' = default (CliArgs.handle o) (status_handle st) /\ algo_passphrase o' = Some (passphrase kp).

(** Reading the status leaves the key pair, and an active account has one. *)
Lemma status_keypair k : LocalTypes.keeps (fun sw : LocalState * W => keypair (acct sw.1) = k) Account.keypair_status.
Proof using.
  pose (I := fun sw : LocalState * W => keypair (acct sw.1) = k). change (LocalTypes.keeps I Account.keypair_status).
  assert (forall B (f : W -> W * B), LocalTypes.keeps I (outside f)) as Hout by (intros B f [s w] Hs; unfold outside; by destruct (f w)).
  assert (forall f, (forall x, keypair (f x) = keypair x) -> LocalTypes.keeps I (update_acct f)) as Hup
    by (intros f Hf [s w] Hs; unfold I in *; cbn in *; by rewrite Hf).
  assert (forall B (m : LocalState -> L (W := W) B), (forall s, LocalTypes.keeps I (m s)) -> LocalTypes.keeps I (get_state ≫= m)) as Hget
    by (intros B m Hm [s w] Hs; by apply (Hm s)).
  unfold keypair_status, memo_status, chain_status, successor_app, account_status_from_chain, fallback_status, cache_status, get_algo_ops.
  repeat first
    [ match goal with
      | |- LocalTypes.keeps _ (mret _) => apply keeps_ret
      | |- LocalTypes.keeps _ (outside _) => apply Hout
      | |- LocalTypes.keeps _ (update_acct _) => apply Hup; by intros []
      | |- LocalTypes.keeps _ (get_state ≫= _) => apply Hget; intros ?
      | |- LocalTypes.keeps _ (st_try _ _) => apply keeps_try; [|intros ?]
      | |- LocalTypes.keeps _ (_ ≫= _) => apply keeps_bind; [|intros ?]
      | |- LocalTypes.keeps _ (match ?x with _ => _ end) => destruct x
      end
    | progress cbn zeta ].
Qed.

Lemma active_has_keypair s (w : W) sw st :
  Account.keypair_status (s, w) = (sw, Ok st) -> status st = "ACTIVE"%string -> is_Some (keypair (acct s)).
Proof using.
  unfold keypair_status, mbind, ST_bind, get_state. destruct (keypair (acct s)); [by eauto|]. by intros [= _ <-].
Qed.

Lemma start_if_active_ok o c :
  starting (start_if_active api_start o c).1 = starting c \/
  exists s o', client c = Some s /\ active_account o s (wworld c) o' /\
    starting (start_if_active api_start o c).1 = (local_file c, start_opts c, true, tried c ++ [o']).
Proof using.
  unfold start_if_active, mbind, ST_bind. pose proof (keeps_client Account.keypair_status c) as H1.
  destruct (client c) as [s|] eqn:Ec;
    [|assert (on_client Account.keypair_status c = (c, None)) as -> by (unfold on_client; by rewrite Ec); by left].
  pose proof (status_keypair (keypair (acct s)) (s, wworld c) eq_refl) as Hk.
  destruct (Account.keypair_status (s, wworld c)) as [[s1 w1] r] eqn:Est. cbn in Hk.
  assert (on_client Account.keypair_status c = (set_client (Some s1) w1 c, Some r)) as E
    by (unfold on_client; by rewrite Ec, Est).
  rewrite E in H1 |- *. cbn in H1. destruct r as [st|e]; [|by left].
  destruct (decide _) as [Hst|]; [|by left]. right. destruct (active_has_keypair _ _ _ _ Est Hst) as [kp Hkp].
  set (c2 := set_client (Some s1) w1 c).
  assert (on_client Account.get_keypair c2 = (c2, Some (Ok (keypair (acct s1))))) as -> by reflexivity.
  rewrite Hk, Hkp. set (o' := opts_of_status st (Some kp) o).
  pose proof (keeps_node (api_start o') c2) as H3. destruct (in_node (api_start o') c2) as [c3 u]. cbn [fst] in H3.
  exists s, o'. split; [done|]. split.
  - exists (s1, w1), st, kp. by split_and!.
  - unfold starting in H3 |- *. injection H3 as H3a H3b _ H3d. cbn. by rewrite H3a, H3b, H3d.
Qed.

(** Why the node of a server was started with the options [o'], the events [l] having happened:
    without a local client, with the command line's, when the server started; with a
    client, because its account was active then, or right after a request had registered it. *)
Inductive start_cause (o : CliArgs.StartOptions) (file : option string) (loaded : LocalState) (w : W)
  (l : list event) (o' : CliArgs.StartOptions) : Prop :=
| cause_plain : file = None -> o' = o -> start_cause o file loaded w l o'
| cause_at_start path : file = Some path -> active_account o loaded w o' -> start_cause o file loaded w l o'
| cause_registered l1 h l2 c1 b s : l = l1 ++ ERequest (RRegisterKeypair h) :: l2 ->
    on_client (Account.register_keypair h) (runs l1 (serve api_start o file loaded w)).1 = (c1, Some (Ok b)) ->
    client (save_if_configured c1).1 = Some s ->
    active_account o s (wworld (save_if_configured c1).1) o' -> start_cause o file loaded w l o'.

Definition start_ok (o : CliArgs.StartOptions) (cause : CliArgs.StartOptions -> Prop) (c : Web W) : Prop :=
  match start_opts c with Some o' => o' = o | None => api_started c = true end /\
  (if api_started c then exists o', tried c = [o'] /\ cause o' else tried c = []).

Lemma start_ok_starting o (K K' : CliArgs.StartOptions -> Prop) c c' :
  starting c' = starting c -> (forall o', K o' -> K' o') -> start_ok o K c -> start_ok o K' c'.
Proof using.
  unfold starting, start_ok. intros [= _ -> -> ->] HK [Ho Hs]. split; [done|].
  destruct (api_started c); [|done]. destruct Hs as (o' & ? & ?). eauto.
Qed.

Lemma start_ok_register o (K K' : CliArgs.StartOptions -> Prop) h c :
  (forall o', K o' -> K' o') ->
  (forall c1 b s o', on_client (Account.register_keypair h) c = (c1, Some (Ok b)) ->
     client (save_if_configured c1).1 = Some s -> active_account o s (wworld (save_if_configured c1).1) o' -> K' o') ->
  start_ok o K c -> start_ok o K' (local_register_keypair api_start h c).1.
Proof using.
  intros HK Hnew Hc. unfold local_register_keypair, local_op. unfold mbind at 1, ST_bind at 1.
  pose proof (keeps_client (Account.register_keypair h) c) as H1.
  destruct (on_client (Account.register_keypair h) c) as [c1 r] eqn:E1. cbn in H1.
  destruct r as [[b|e]|]; [|by apply (start_ok_starting o K K' c)..].
  unfold mbind, ST_bind. pose proof (keeps_save c1) as H2. specialize (Hnew c1 b).
  destruct (save_if_configured c1) as [c2 u]. cbn in H2, Hnew.
  assert (start_ok o K c2) as [Ho Hs] by (apply (start_ok_starting o K K c); [by rewrite H2|done|done]).
  assert (start_ok o K' c2) as Hc2 by (by apply (start_ok_starting o K K' c2)).
  unfold try_start_api, get_st, mbind, ST_bind. destruct (start_opts c2) as [o2|] eqn:Eo; [|exact Hc2]. subst o2.
  destruct (api_started c2) eqn:Es; [exact Hc2|].
  destruct (start_if_active_ok o c2) as [E|(s & o' & Hcl & Ha & E)];
    destruct (start_if_active api_start o c2) as [c3 u3]; cbn in E |- *.
  - by apply (start_ok_starting o K' K' c2).
  - unfold starting in E. injection E as _ E2 E3 E4. unfold start_ok. rewrite E2, E3, E4, Eo, Hs. split; [done|].
    exists o'. split; [done|]. by apply (Hnew s).
Qed.

Lemma start_ok_step o (K K' : CliArgs.StartOptions -> Prop) e c :
  (forall o', K o' -> K' o') ->
  (forall h c1 b s o', e = ERequest (RRegisterKeypair h) -> on_client (Account.register_keypair h) c = (c1, Some (Ok b)) ->
     client (save_if_configured c1).1 = Some s -> active_account o s (wworld (save_if_configured c1).1) o' -> K' o') ->
  start_ok o K c -> start_ok o K' (step print api_start api_handle_lookup_by_id e c).1.
Proof using.
  intros HK Hnew Hc. destruct e as [r| |]; cbn [step].
  - unfold mbind, ST_bind. assert (start_ok o K' (routed r c).1); [|by destruct (routed r c)].
    destruct r; try (by apply (start_ok_starting o K K' c); [apply keeps_route; by intros| |]).
    apply (start_ok_register o K); [done| |done]. intros c1 b s o'. by apply (Hnew handle c1 b s o').
  - apply (start_ok_starting o K K' c); [apply keeps_message|done|done].
  - apply (start_ok_starting o K K' c); done.
Qed.

Lemma run_snoc l e c : (runs (l ++ [e]) c).1 = (step print api_start api_handle_lookup_by_id e (runs l c).1).1.
Proof using.
  revert c. induction l as [|x l IH]; intros c; cbn [run app]; unfold mbind, ST_bind.
  - unfold mret, ST_ret. cbn [fst]. destruct (step _ _ _ e c) as [c1 u]. reflexivity.
  - destruct (step _ _ _ x c) as [c1 u]. apply IH.
Qed.

Lemma serve_ok o file loaded w : start_ok o (start_cause o file loaded w []) (serve api_start o file loaded w).
Proof using.
  unfold serve. destruct file as [f|].
  - set (base := MkWeb (Some loaded) w [] (Some f) None false "Unknown"%string []).
    destruct (start_if_active_ok o base) as [E|(s & o' & [= <-] & Ha & E)]; destruct (start_if_active api_start o base) as [c u];
      cbn in E |- *; unfold starting in E; injection E as _ _ E2 E3; unfold start_ok; cbn; rewrite E2, E3; [done|].
    split; [done|]. exists o'. split; [done|]. by eapply cause_at_start.
  - set (base := MkWeb None w [] None None false "Unknown"%string []). unfold start_ok. cbn.
    pose proof (keeps_node (api_start o) base) as E. unfold starting in E. injection E as _ _ _ E3.
    rewrite E3. split; [done|]. exists o. split; [done|]. by apply cause_plain.
Qed.

(** (C27) The server starts its node once.  Whatever requests, messages and reports arrive, and
    in whatever order, the node is started at most once.  Without a local client it is
    started with the options of the command line; with one, only at a moment when the
    client, asked for the status of its account, says that it is active, which is when the
    server starts or right after a request has registered the account, and then with
    the handle of that status and the passphrase of the client's key pair. *)
Theorem node_started_once o file loaded w l :
  let c := (runs l (serve api_start o file loaded w)).1 in
  (length (tried c) <= 1)%nat /\ (api_started c = true <-> tried c <> []) /\
  forall o', o' ∈ tried c -> start_cause o file loaded w l o'.
Proof using.
  cbv zeta. assert (start_ok o (start_cause o file loaded w l) (runs l (serve api_start o file loaded w)).1) as [_ Hok].
  { induction l as [|e l IH] using rev_ind; [apply serve_ok|]. rewrite run_snoc. revert IH. apply start_ok_step.
    - intros o' [? ?|path ? ?|l1 h l2 c1 b s -> ? ? ?]; [by apply cause_plain|by eapply cause_at_start|].
      apply (cause_registered _ _ _ _ _ _ l1 h (l2 ++ [e]) c1 b s); [by rewrite <- app_assoc|done..].
    - intros h c1 b s o' -> ? ? ?. by eapply (cause_registered _ _ _ _ _ _ l h [] c1 b s). }
  destruct (api_started _).
  - destruct Hok as (o' & -> & Ho). cbn. split; [lia|]. split; [done|]. intros o2 Hin%list_elem_of_singleton. by subst.
  - rewrite Hok. cbn. split; [lia|]. split; [by split|]. intros o2 Hin. by apply elem_of_nil in Hin.
Qed.
End Frames.

(** ** The local client behind the server *)

Section LocalClient.
Context {W : Type} `{LocalWorld W} `{NodeApi W}.
Context (print : json -> string).
Context (api_start : CliArgs.StartOptions -> W -> W * result unit BingleError)
  (api_handle_lookup_by_id : string -> W -> W * option string).
Abbreviation routed := (route print api_start api_handle_lookup_by_id).

(** Without a local client every one of its requests is refused, and nothing happens. *)
Definition well_formed (r : request) : bool :=
  match r with RAddContact _ _ source => bool_decide (is_Some (parse_source source)) | _ => true end.

Lemma local_op_disabled {B} (m : L (W := W) (result B BingleError)) after k (c : Web W) :
  client c = None -> local_op m after k c = (c, local_disabled).
Proof using. intros Hc. unfold local_op, mbind, ST_bind, on_client. by rewrite Hc. Qed.

(** A server without a local client answers its requests with 405 and changes nothing; a
    request with an unknown source of a contact is refused with 400 before. *)
Theorem local_requests_refused r (c : Web W) :
  client c = None -> is_local r = true ->
  routed r c = (c, if well_formed r then local_disabled else (400, BText "Invalid source")).
Proof using.
  intros Hc Hr. destruct r; try discriminate Hr; try (by apply local_op_disabled).
  cbn [route well_formed]. unfold local_add_contact. destruct (parse_source source); [by apply local_op_disabled|done].
Qed.

(** The operations of the local client that change it. *)
Definition changes_local (r : request) : bool :=
  match r with
  | RGenerateKeypair | RAddContact _ _ _ | RBlockContact _ | RRemoveContact _ | RAddMessage _ _ _ _ _ | RLoad _ => true
  | _ => false
  end.

(** What the file was given last is what the client holds. *)
Definition written (path : string) (c : Web W) : Prop :=
  exists s w, client c = Some s /\ wworld c = (write_state path (LocalStore.save s) w).1.

Lemma local_op_written {B} (m : L (W := W) (result B BingleError)) k (c c' : Web W) path b :
  local_file c = Some path -> local_op m save_if_configured k c = (c', (200, b)) -> written path c'.
Proof using.
  intros Hf. unfold local_op, mbind, ST_bind, on_client. destruct (client c) as [s|]; [|done].
  destruct (m (s, wworld c)) as [[s1 w1] [b1|e]]; [|intros [= _ E]; destruct e as [[]| | | |]; cbn in E; simplify_eq].
  unfold save_if_configured, save_to, get_st, mbind, ST_bind, in_node. cbn. rewrite Hf. cbn.
  destruct (write_state path (LocalStore.save s1) w1) as [w2 u] eqn:Ew. intros [= <- _].
  exists s1, w1. cbn. by rewrite Ew.
Qed.

(** What a request changed is on file.  With a file configured, a request that changes the
    local client and is answered with 200 ends with the file being given exactly the state
    the client has then. *)
Theorem changes_are_written r (c c' : Web W) path b :
  local_file c = Some path -> changes_local r = true -> routed r c = (c', (200, b)) -> written path c'.
Proof using.
  intros Hf Hr E. destruct r; try discriminate Hr; try (by eapply local_op_written).
  cbn [route] in E. unfold local_add_contact in E. destruct (parse_source source); [by eapply local_op_written|done].
Qed.

(** A blocked sender is not heard: its messages leave the server as it is.  Every other
    message is queued, after those before it, whatever becomes of its copy in the local
    client. *)
Theorem blocked_sender_dropped sender h message (c : Web W) :
  match client c with
  | Some s => LocalStore.is_blocked sender (st s) = Ok true
  | None => False
  end /\ on_message print sender h message c = (c, tt) \/
  queued (on_message print sender h message c).1 = queued c ++ [message].
Proof using.
  assert (Hq : forall {B} (f : W -> W * B) (x : Web W), queued (in_node f x).1 = queued x)
    by (intros B f x; unfold in_node; by destruct (f (wworld x))).
  assert (Hl : forall {B} (m : L (W := W) B) (x : Web W), queued (on_client m x).1 = queued x)
    by (intros B m x; unfold on_client; destruct (client x); [by destruct (m _) as [[]]|done]).
  assert (Hs : forall x : Web W, queued (save_if_configured x).1 = queued x).
  { intros x. unfold save_if_configured, save_to, get_st, mbind, ST_bind. destruct (local_file x) as [path|]; [|done].
    destruct (client x) as [s|]; [|done].
    pose proof (Hq _ (write_state path (LocalStore.save s)) x) as E. by destruct (in_node _ x). }
  unfold on_message, get_st, modify, mbind, ST_bind, mret, ST_ret. cbv beta iota zeta.
  destruct (match client c with Some s => _ | None => false end) eqn:Eb.
  - left. destruct (client c) as [s|]; [|done]. destruct (LocalStore.is_blocked sender (st s)) as [[]|]; done.
  - right. clear Eb. set (c1 := push_queued message c).
    change (queued c ++ [message]) with (queued c1). clearbody c1. destruct (client c); [|done].
    pose proof (Hq _ epoch_ms c1) as E1. destruct (in_node epoch_ms c1) as [c2 now]. cbn in E1.
    pose proof (Hq _ api_get_handle c2) as E2. destruct (in_node api_get_handle c2) as [c3 own]. cbn in E2.
    destruct own as [own|]; [|cbn; congruence].
    match goal with |- context [on_client ?m c3] => pose proof (Hl _ m c3) as E3; destruct (on_client m c3) as [c4 r] end.
    cbn in E3. rewrite Hs. congruence.
Qed.

(** The failure of a stored message is shown as it is: every stored message is listed, in
    the order of the client, with the cause that was stored, and marked as retried exactly
    when that cause is one that is retried. *)
Theorem messages_listed (c c' : Web W) resp :
  local_get_messages c = (c', resp) ->
  match client c with
  | None => resp = local_disabled
  | Some s =>
      exists l, resp = (200, BMessages l) /\ map mr_message l = LocalStore.get_messages (st s) /\
        forall m, m ∈ l -> failure_category m = failure_kind (mr_message m) /\
          failure_retryable m = (is_retryable <$> failure_kind (mr_message m))
  end /\ client c' = client c.
Proof using.
  unfold local_get_messages, local_op, mbind, ST_bind, on_client. destruct (client c) as [s|] eqn:Ec; [|intros [= <- <-]; by rewrite Ec].
  cbn. intros [= <- <-]. split; [|done]. eexists. split; [reflexivity|]. split.
  - rewrite map_map. cbn. by rewrite map_id.
  - intros m Hm. apply list_elem_of_In, in_map_iff in Hm as (x & <- & _). done.
Qed.
End LocalClient.

(** ** Servers in the small world *)

Module WebDemo.
Definition world := SmallClient.world.
Definition no_start (_ : CliArgs.StartOptions) (w : world) : world * result unit BingleError := (w, Err (Other "no network")).
Definition lookup (id : string) (w : world) : world * option string := (w, Some id).
Definition options : CliArgs.StartOptions :=
  CliArgs.MkStartOptions "" None None false None None None (Some 5) (Some 6) None None false Plain.
(** A server with a client whose account is active by now. *)
Definition waiting : Web world :=
  MkWeb (Some LocalStore.Demo.waiting.1) LocalStore.Demo.waiting.2 [] (Some "state"%string) (Some options) false "Unknown" [].
Definition bare : Web world := MkWeb None LocalStore.Demo.waiting.2 [] None None true "Unknown" [].
Definition contact : Web world * response := 
  route (fun _ => ""%string) no_start lookup (RAddContact "carol" "C" "Manual") waiting.
End WebDemo.

Lemma local_requests_refused_witness :
  route (fun _ => ""%string) WebDemo.no_start WebDemo.lookup RGetContacts WebDemo.bare = (WebDemo.bare, local_disabled).
Proof. exact (local_requests_refused _ _ _ RGetContacts WebDemo.bare eq_refl eq_refl). Defined.

Lemma changes_are_written_witness : written "state" WebDemo.contact.1.
Proof.
  assert (WebDemo.contact = (WebDemo.contact.1, (200, BEmpty))) as E by (vm_compute; reflexivity).
  exact (changes_are_written (fun _ => ""%string) WebDemo.no_start WebDemo.lookup (RAddContact "carol" "C" "Manual") WebDemo.waiting WebDemo.contact.1 "state" BEmpty eq_refl eq_refl E).
Defined.

(** A start that failed is not tried again.  The account is active and the network is down
    when the key is registered: the server takes its node for started, and every later
    request that would start it does nothing. *)
Theorem failed_start_not_retried :
  let c := (try_start_api WebDemo.no_start WebDemo.waiting).1 in
  map CliArgs.handle (tried c) = ["bob"%string] /\
  (WebDemo.no_start WebDemo.options (wworld c)).2 = Err (Other "no network") /\ api_started c = true /\
  forall start, try_start_api start c = (c, tt).
Proof. vm_compute. split_and!; reflexivity. Qed.
