(* ===== verification/Periodic.v ===== *)
(** * The periodic task

    Models [src/bingle_core/src/util/periodic_task.rs]: a thread that runs a pass once per
    interval, and an owner that stops it and waits for its end.

    A state has the shared flag, the lock of the condition variable with who holds it, the
    program counters of the thread and of the owner, and the clock.  [move] is one step of
    either: every read or write of what they share is a step of its own, waiting gives the
    lock up and parks the thread in one step, as the condition variable does, and a parked
    thread is woken by the owner, by the end of its time, or for no reason.  [started] are
    the times at which passes began. *)
From S2P Require Import Prelude.
From stdpp Require Import relations.

Local Open Scope Z_scope.

Inductive FirstPass : Type := Immediately | AfterInterval.

(** Where the thread is: before it is spawned; at the head of the waiting loop; holding the
    lock, before and after it looked at the flag; parked; woken, without the lock; past the
    wait; in a pass; gone. *)
Inductive thread_pc : Type :=
| NotSpawned
| LoopTop (wait_first : bool)
| WaitTop
| WantLock
| HoldsLock
| ToPark
| Parked
| Woken
| AfterWait
| InPass
| Exited.

(** The owner: not stopping; having cleared the flag; holding the lock; waiting for the
    thread; done; or the thread itself was the owner, in a pass. *)
Inductive owner_pc : Type := Idle | Cleared | Notifying | Joining | Stopped | StoppedInPass.

#[export] Instance thread_pc_eq_dec : EqDecision thread_pc.
Proof. solve_decision. Defined.
#[export] Instance owner_pc_eq_dec : EqDecision owner_pc.
Proof. solve_decision. Defined.

Inductive holder : Type := Free | ByThread | ByOwner.

Record PeriodicTask : Type := MkTask {
  interval : Z;
  first_pass : FirstPass;
  pass_taken : bool;
  running : bool;
  lock : holder;
  thread : thread_pc;
  owner : owner_pc;
  deadline : Z;
  now : Z;
  started : list Z;
  pass_count : Z
}.

Definition new (i : Z) (f : FirstPass) (t : Z) : PeriodicTask := MkTask i f false false Free NotSpawned Idle t t [] 0.

Definition at_pc (p : thread_pc) (s : PeriodicTask) : PeriodicTask :=
  MkTask (interval s) (first_pass s) (pass_taken s) (running s) (lock s) p (owner s) (deadline s) (now s) (started s) (pass_count s).
Definition at_owner (o : owner_pc) (s : PeriodicTask) : PeriodicTask :=
  MkTask (interval s) (first_pass s) (pass_taken s) (running s) (lock s) (thread s) o (deadline s) (now s) (started s) (pass_count s).
Definition set_running (b : bool) (s : PeriodicTask) : PeriodicTask :=
  MkTask (interval s) (first_pass s) (pass_taken s) b (lock s) (thread s) (owner s) (deadline s) (now s) (started s) (pass_count s).
Definition set_lock (h : holder) (s : PeriodicTask) : PeriodicTask :=
  MkTask (interval s) (first_pass s) (pass_taken s) (running s) h (thread s) (owner s) (deadline s) (now s) (started s) (pass_count s).
Definition set_deadline (d : Z) (s : PeriodicTask) : PeriodicTask :=
  MkTask (interval s) (first_pass s) (pass_taken s) (running s) (lock s) (thread s) (owner s) d (now s) (started s) (pass_count s).
Definition set_now (t : Z) (s : PeriodicTask) : PeriodicTask :=
  MkTask (interval s) (first_pass s) (pass_taken s) (running s) (lock s) (thread s) (owner s) (deadline s) t (started s) (pass_count s).
Definition begin_pass (s : PeriodicTask) : PeriodicTask :=
  MkTask (interval s) (first_pass s) (pass_taken s) (running s) (lock s) InPass (owner s) (deadline s) (now s)
    (started s ++ [now s]) (pass_count s).
Definition end_pass (keep_going : bool) (s : PeriodicTask) : PeriodicTask :=
  MkTask (interval s) (first_pass s) (pass_taken s) (running s) (lock s) (if keep_going then LoopTop true else Exited) (owner s)
    (deadline s) (now s) (started s) (pass_count s + 1).

(** [start]: a second call does nothing, also after a stop. *)
Definition start (s : PeriodicTask) : PeriodicTask :=
  if pass_taken s then s
  else MkTask (interval s) (first_pass s) true true (lock s)
         (LoopTop match first_pass s with AfterInterval => true | Immediately => false end)
         (owner s) (deadline s) (now s) (started s) (pass_count s).

(** One step of the thread. *)
Inductive thread_move : PeriodicTask -> PeriodicTask -> Prop :=
| MoveTop s w : thread s = LoopTop w ->
    thread_move s (if w then at_pc WaitTop (set_deadline (now s + interval s) s) else at_pc AfterWait s)
| MoveWaitOver s : thread s = WaitTop -> deadline s <= now s -> thread_move s (at_pc AfterWait s)
| MoveWaitMore s : thread s = WaitTop -> now s < deadline s -> thread_move s (at_pc WantLock s)
| MoveLock s : thread s = WantLock -> lock s = Free -> thread_move s (at_pc HoldsLock (set_lock ByThread s))
| MoveLook s : thread s = HoldsLock ->
    thread_move s (if running s then at_pc ToPark s else at_pc Exited (set_lock Free s))
| MovePark s : thread s = ToPark -> thread_move s (at_pc Parked (set_lock Free s))
| MoveWake s : thread s = Woken -> lock s = Free -> thread_move s (at_pc WaitTop s)
| MoveAfter s : thread s = AfterWait ->
    thread_move s (if running s then begin_pass s else at_pc Exited s)
| MovePass s keep_going : thread s = InPass -> thread_move s (end_pass keep_going s).

(** One step of the owner: the start; the steps of a stop; and a stop from within a pass,
    which clears the flag and does not wait. *)
Inductive owner_move : PeriodicTask -> PeriodicTask -> Prop :=
| MoveStart s : owner s = Idle -> owner_move s (start s)
| MoveClear s : owner s = Idle ->
    owner_move s (if running s then at_owner Cleared (set_running false s) else s)
| MoveTakeLock s : owner s = Cleared -> lock s = Free -> owner_move s (at_owner Notifying (set_lock ByOwner s))
| MoveNotify s : owner s = Notifying ->
    owner_move s (at_owner Joining (set_lock Free (if decide (thread s = Parked) then at_pc Woken s else s)))
| MoveJoin s : owner s = Joining -> thread s = Exited -> owner_move s (at_owner Stopped s)
| MoveSelf s : owner s = Idle -> thread s = InPass -> running s = true -> lock s = Free ->
    owner_move s (at_owner StoppedInPass (set_running false s)).

(** What the world does: time passes, and a parked thread wakes. *)
Inductive world_move : PeriodicTask -> PeriodicTask -> Prop :=
| MoveTime s t : now s <= t -> world_move s (set_now t s)
| MoveSpurious s : thread s = Parked -> world_move s (at_pc Woken s).

Definition move (s s' : PeriodicTask) : Prop := thread_move s s' \/ owner_move s s' \/ world_move s s'.

(** What can happen to a new task. *)
Definition reachable (i : Z) (f : FirstPass) (t : Z) (s : PeriodicTask) : Prop := rtc move (new i f t) s.

(** ** The invariant *)

(** Who holds the lock is where it says; a thread that saw the flag set and has not parked
    yet holds the lock, so the owner cannot have notified; once it has, nobody is parked. *)
Record consistent (s : PeriodicTask) : Prop := {
  thread_holds : lock s = ByThread <-> thread s = HoldsLock \/ thread s = ToPark;
  owner_holds : lock s = ByOwner <-> owner s = Notifying;
  spawned : pass_taken s = false <-> thread s = NotSpawned;
  spawned_idle : pass_taken s = false -> running s = false /\ owner s = Idle;
  stopping : owner s <> Idle -> running s = false;
  woken_up : owner s = Joining \/ owner s = Stopped -> thread s <> Parked /\ thread s <> ToPark;
  self_stopped : owner s = StoppedInPass -> thread s <> Parked /\ thread s <> ToPark;
  ended : owner s = Stopped -> thread s = Exited;
  not_running : running s = false -> owner s = Idle -> thread s = NotSpawned
}.

Lemma consistent_new i f t : consistent (new i f t).
Proof. split; cbn; intuition (done || eauto). Qed.

Lemma consistent_move s s' : consistent s -> move s s' -> consistent s'.
Proof.
  intros [H1 H2 H3 H4 H5 H6 H7 H8 H9] [Hm|[Hm|Hm]]; destruct Hm; unfold start, end_pass;
    repeat match goal with |- context [if ?b then _ else _] => destruct b eqn:? end;
    split; cbn; intuition (simplify_eq; try done; try congruence).
Qed.

Lemma consistent_reachable i f t s : reachable i f t s -> consistent s.
Proof.
  intros Hr. unfold reachable in Hr. remember (new i f t) as s0 eqn:E.
  assert (Hc : consistent s0) by (subst; apply consistent_new). clear E.
  induction Hr as [s|s0 s1 s2 Hm _ IH]; [done|]. apply IH. by eapply consistent_move.
Qed.

(** ** The steps as a program *)

Inductive action : Type := AThread (keep_going : bool) | AStart | AStop | AStopInPass | ATime (t : Z) | ASpurious.

Definition exec_thread (keep_going : bool) (s : PeriodicTask) : option PeriodicTask :=
  match thread s with
  | NotSpawned | Parked | Exited => None
  | LoopTop w => Some (if w then at_pc WaitTop (set_deadline (now s + interval s) s) else at_pc AfterWait s)
  | WaitTop => Some (if decide (deadline s <= now s) then at_pc AfterWait s else at_pc WantLock s)
  | WantLock => match lock s with Free => Some (at_pc HoldsLock (set_lock ByThread s)) | _ => None end
  | HoldsLock => Some (if running s then at_pc ToPark s else at_pc Exited (set_lock Free s))
  | ToPark => Some (at_pc Parked (set_lock Free s))
  | Woken => match lock s with Free => Some (at_pc WaitTop s) | _ => None end
  | AfterWait => Some (if running s then begin_pass s else at_pc Exited s)
  | InPass => Some (end_pass keep_going s)
  end.

Definition exec (a : action) (s : PeriodicTask) : option PeriodicTask :=
  match a with
  | AThread b => exec_thread b s
  | AStart => if decide (owner s = Idle) then Some (start s) else None
  | AStop =>
      match owner s with
      | Idle => Some (if running s then at_owner Cleared (set_running false s) else s)
      | Cleared => match lock s with Free => Some (at_owner Notifying (set_lock ByOwner s)) | _ => None end
      | Notifying => Some (at_owner Joining (set_lock Free (if decide (thread s = Parked) then at_pc Woken s else s)))
      | Joining => if decide (thread s = Exited) then Some (at_owner Stopped s) else None
      | Stopped | StoppedInPass => None
      end
  | AStopInPass =>
      match owner s, thread s, running s, lock s with
      | Idle, InPass, true, Free => Some (at_owner StoppedInPass (set_running false s))
      | _, _, _, _ => None
      end
  | ATime t => if decide (now s <= t) then Some (set_now t s) else None
  | ASpurious => if decide (thread s = Parked) then Some (at_pc Woken s) else None
  end.

Fixpoint exec_all (l : list action) (s : PeriodicTask) : option PeriodicTask :=
  match l with [] => Some s | a :: l => s ← exec a s; exec_all l s end.

(** The program does what the steps allow, and can do whatever the thread can. *)
Lemma exec_thread_sound b s s' : exec_thread b s = Some s' -> thread_move s s'.
Proof.
  unfold exec_thread. intros E. destruct (thread s) eqn:Et; try discriminate E; try (injection E as <-; by constructor).
  - case_decide; injection E as <-; [by constructor|]. constructor; [done|lia].
  - destruct (lock s) eqn:El; try discriminate E. injection E as <-. by constructor.
  - destruct (lock s) eqn:El; try discriminate E. injection E as <-. by constructor.
Qed.

Lemma exec_sound a s s' : exec a s = Some s' -> move s s'.
Proof.
  destruct a; cbn [exec].
  - intros E. left. by eapply exec_thread_sound.
  - case_decide; [|done]. intros [= <-]. right. left. by constructor.
  - intros E. right. left. destruct (owner s) eqn:Eo; try discriminate E; try (injection E as <-; by constructor).
    + destruct (lock s) eqn:El; try discriminate E. injection E as <-. by constructor.
    + case_decide; [|done]. injection E as <-. by constructor.
  - intros E. right. left. destruct (owner s) eqn:Eo, (thread s) eqn:Et, (running s) eqn:Er, (lock s) eqn:El;
      try discriminate E. injection E as <-. by constructor.
  - case_decide; [|done]. intros [= <-]. right. right. by constructor.
  - case_decide; [|done]. intros [= <-]. right. right. by constructor.
Qed.

Lemma exec_all_sound l s s' : exec_all l s = Some s' -> rtc move s s'.
Proof.
  revert s. induction l as [|a l IH]; intros s; cbn [exec_all]; [intros [= <-]; constructor|].
  destruct (exec a s) as [s1|] eqn:Ea; [|done]. cbn. intros E. eapply rtc_l; [by eapply exec_sound|]. by apply IH.
Qed.

(** The thread is held up only by a lock, by its parking, or by its end. *)
Lemma thread_can_move s :
  thread s = NotSpawned \/ thread s = Parked \/ thread s = Exited \/ (lock s <> Free /\ (thread s = WantLock \/ thread s = Woken)) \/
  exists s', thread_move s s'.
Proof.
  destruct (exec_thread true s) as [s'|] eqn:E; [do 4 right; exists s'; by eapply exec_thread_sound|].
  unfold exec_thread in E. destruct (thread s) eqn:Et; try discriminate E; try tauto;
    destruct (lock s); try discriminate E; do 3 right; left; split; try discriminate; tauto.
Qed.

(** ** Stopping *)

(** How many steps the thread has left at most, once the owner waits for it. *)
Definition steps_left (p : thread_pc) : nat :=
  match p with
  | NotSpawned | Exited => 0
  | AfterWait | HoldsLock => 1
  | WantLock => 2
  | WaitTop => 3
  | LoopTop _ | Woken => 4
  | InPass => 5
  | ToPark | Parked => 0
  end.

(** Runs, with the number of the thread's steps. *)
Inductive counted : nat -> PeriodicTask -> PeriodicTask -> Prop :=
| CountNone s : counted 0 s s
| CountThread n s s1 s2 : thread_move s s1 -> counted n s1 s2 -> counted (S n) s s2
| CountOther n s s1 s2 : owner_move s s1 \/ world_move s s1 -> counted n s1 s2 -> counted n s s2.

Definition waits (s : PeriodicTask) : Prop := owner s = Joining \/ owner s = Stopped.

Lemma waits_thread s s' : consistent s -> waits s -> thread_move s s' -> waits s' /\ (steps_left (thread s') < steps_left (thread s))%nat.
Proof.
  intros Hc Hw Hm. assert (Hr : running s = false) by (apply (stopping _ Hc); by destruct Hw as [->| ->]).
  pose proof (woken_up _ Hc Hw) as [Hp Hq].
  destruct Hm as [s w E|s E|s E|s E|s E|s E|s E|s E|s kg E]; rewrite ?Hr, ?E in *; try done.
  all: try destruct w; try destruct kg; (split; [done|cbn; lia]).
Qed.

Lemma waits_other s s' : consistent s -> waits s -> owner_move s s' \/ world_move s s' -> waits s' /\ thread s' = thread s.
Proof.
  intros Hc Hw Hm. pose proof (woken_up _ Hc Hw) as [Hp _].
  destruct Hm as [Hm|Hm]; destruct Hm; try (by destruct Hw; congruence); try done.
  split; [by right|done].
Qed.

(** (C36) A stop comes to an end.  Once the owner waits for the thread, the thread takes at most
    five steps of its own, whatever else happens and without any time having to pass, and
    at each point it is gone or can take a step: no wake-up is lost, and nobody waits for
    ever, but for a pass that does not end. *)
Theorem stop_ends i f t s n s' :
  reachable i f t s -> waits s -> counted n s s' ->
  (n <= 5)%nat /\ (thread s' = Exited \/ exists s'', thread_move s' s'').
Proof.
  intros Hreach Hw Hn. pose proof (consistent_reachable _ _ _ _ Hreach) as Hc. clear Hreach.
  assert (H : (n <= steps_left (thread s))%nat /\ (thread s' = Exited \/ exists s'', thread_move s' s'')).
  { induction Hn as [s|n s s1 s2 Hm _ IH|n s s1 s2 Hm _ IH].
    - split; [lia|]. pose proof (woken_up _ Hc Hw) as [Hp Hq].
      destruct (thread_can_move s) as [E|[E|[E|[[Hl Ht]|E]]]]; [|done|by left| |by right].
      + apply (spawned _ Hc) in E. apply (spawned_idle _ Hc) in E as [_ E]. destruct Hw; congruence.
      + exfalso. destruct (lock s) eqn:El; [done| |].
        * apply (thread_holds _ Hc) in El. destruct Ht as [Ht|Ht], El as [El|El]; congruence.
        * apply (owner_holds _ Hc) in El. destruct Hw; congruence.
    - destruct (waits_thread _ _ Hc Hw Hm) as [Hw1 Hlt].
      destruct (IH Hw1 (consistent_move _ _ Hc (or_introl Hm))) as [Hle Hend]. split; [lia|done].
    - destruct (waits_other _ _ Hc Hw Hm) as [Hw1 Ht]. rewrite <- Ht. apply IH; [done|].
      eapply consistent_move; [done|]. by right. }
  destruct H as [Hle Hend]. split; [|done]. assert (steps_left (thread s) <= 5)%nat by (destruct (thread s); cbn; lia). lia.
Qed.

Lemma no_pass_step s s' : consistent s -> owner s <> Idle -> move s s' -> owner s' <> Idle /\ started s' = started s.
Proof.
  intros Hc Ho Hm. pose proof (stopping _ Hc Ho) as Hr.
  destruct Hm as [Hm|[Hm|Hm]]; destruct Hm; unfold start in *; rewrite ?Hr; try done; try by destruct w.
  cbn. by case_decide.
Qed.

(** No pass begins once the task is being stopped: from the moment the flag is cleared the
    passes are those that had begun; and when the owner's stop has returned, the thread is
    gone. *)
Theorem no_pass_after_stop i f t s s' :
  reachable i f t s -> owner s <> Idle -> rtc move s s' ->
  started s' = started s /\ (owner s' = Stopped -> thread s' = Exited).
Proof.
  intros Hreach Ho Hm. pose proof (consistent_reachable _ _ _ _ Hreach) as Hc. clear Hreach.
  induction Hm as [s|s s1 s2 Hm _ IH]; [split; [done|apply (ended _ Hc)]|].
  destruct (no_pass_step _ _ Hc Ho Hm) as [Ho1 <-]. apply IH; [done|by eapply consistent_move].
Qed.

(** ** The interval *)

(** When the next pass may begin, after passes at these times. *)
Definition next_start (i from : Z) (l : list Z) : Z := match last l with Some x => x + i | None => from end.

Fixpoint spaced (i from : Z) (l : list Z) : Prop :=
  match l with [] => True | x :: l => from <= x /\ spaced i (x + i) l end.

Lemma spaced_snoc i from l x : spaced i from (l ++ [x]) <-> spaced i from l /\ next_start i from l <= x.
Proof.
  revert from. induction l as [|y l IH]; intros from; cbn [app spaced]; [unfold next_start; cbn; tauto|].
  rewrite IH. unfold next_start. destruct l as [|z l]; [cbn; tauto|].
  change (last (y :: z :: l)) with (last (z :: l)). destruct (last (z :: l)) eqn:E; [tauto|]. by apply last_None in E.
Qed.

Lemma next_snoc i from l x : next_start i from (l ++ [x]) = x + i.
Proof. unfold next_start. by rewrite last_snoc. Qed.

(** The first pass is due at once, or after an interval, from the time [t] of the creation. *)
Definition first_due (i : Z) (f : FirstPass) (t : Z) : Z := match f with AfterInterval => t + i | Immediately => t end.

Definition due (t : Z) (s : PeriodicTask) : Z := next_start (interval s) (first_due (interval s) (first_pass s) t) (started s).

(** The thread is not ahead of its time. *)
Definition on_time (t : Z) (s : PeriodicTask) : Prop :=
  t <= now s /\ spaced (interval s) (first_due (interval s) (first_pass s) t) (started s) /\
  match thread s with
  | NotSpawned => started s = []
  | LoopTop true | InPass => due t s <= now s + interval s
  | LoopTop false | AfterWait => due t s <= now s
  | WaitTop | WantLock | HoldsLock | ToPark | Parked | Woken => due t s <= deadline s
  | Exited => True
  end.

Lemma on_time_move t s s' : consistent s -> on_time t s -> move s s' -> on_time t s'.
Proof.
  intros Hc (Ht & Hsp & Hth) Hm. unfold on_time, due in *.
  destruct Hm as [Hm|[Hm|Hm]]; destruct Hm as [s w E|s E Hd|s E Hd|s E Hl|s E|s E|s E Hl|s E|s kg E]
    || destruct Hm as [s E|s E|s E Hl|s E|s E E2|s E E2 Hr Hl] || destruct Hm as [s u Hu|s E].
  - rewrite E in Hth. destruct w; cbn; split_and!; try done; lia.
  - rewrite E in Hth. cbn. split_and!; try done; lia.
  - rewrite E in Hth. cbn. split_and!; done.
  - rewrite E in Hth. cbn. split_and!; done.
  - rewrite E in Hth. destruct (running s); cbn; split_and!; done.
  - rewrite E in Hth. cbn. split_and!; done.
  - rewrite E in Hth. cbn. split_and!; done.
  - rewrite E in Hth. destruct (running s); cbn; [|by split_and!]. rewrite next_snoc, spaced_snoc. split_and!; try done; lia.
  - rewrite E in Hth. destruct kg; cbn; split_and!; done.
  - unfold start. destruct (pass_taken s) eqn:Ep; [by split_and!|]. apply (spawned _ Hc) in Ep. rewrite Ep in Hth. cbn.
    rewrite Hth. cbn. destruct (first_pass s); cbn; split_and!; try done; lia.
  - destruct (running s); cbn; by split_and!.
  - cbn. by split_and!.
  - cbn. destruct (decide _) as [E2|]; cbn; [rewrite E2 in Hth|]; by split_and!.
  - cbn. by split_and!.
  - cbn. by split_and!.
  - cbn. split_and!; [lia|done|]. destruct (thread s) as [| []| | | | | | | | |]; try done; lia.
  - rewrite E in Hth. cbn. by split_and!.
Qed.

(** Passes keep their distance.  Between the beginnings of two passes there is at least the
    interval, spurious wake-ups and all; and the first is not before the task was made, or an
    interval after it where it waits first. *)
Theorem passes_spaced i f t s :
  reachable i f t s -> spaced i (first_due i f t) (started s).
Proof.
  intros Hr. unfold reachable in Hr.
  assert (H : interval s = i /\ first_pass s = f /\ on_time t s /\ consistent s).
  { remember (new i f t) as s0 eqn:E.
    assert (H0 : interval s0 = i /\ first_pass s0 = f /\ on_time t s0 /\ consistent s0).
    { subst. split; [done|]. split; [done|]. split; [|apply consistent_new]. unfold on_time. cbn. split_and!; done || lia. }
    clear E. induction Hr as [s|s0 s1 s2 Hm _ IH]; [done|]. apply IH. destruct H0 as (Hi & Hf & Ho & Hc).
    assert (interval s1 = interval s0 /\ first_pass s1 = first_pass s0) as [-> ->].
    { destruct Hm as [Hm|[Hm|Hm]]; destruct Hm; unfold start, end_pass; try done; cbn; repeat case_match; done. }
    split_and!; try done; [by eapply on_time_move|by eapply consistent_move]. }
  destruct H as (<- & <- & (_ & H & _) & _). exact H.
Qed.

(** ** A task that is stopped *)

Module PeriodicExample.
(** A pass, a wait of ten with a wake-up for no reason, a second pass; then the thread waits
    again and is stopped. *)
Definition work : list action :=
  [AStart; AThread true; AThread true; AThread true; AThread true; AThread true; AThread true; AThread true; AThread true;
   ASpurious; AThread true; ATime 12; AThread true; AThread true; AThread true;
   AThread true; AThread true; AThread true; AThread true; AThread true].
Definition stopping : list action := [AStop; AStop; AStop].
Definition working : option PeriodicTask := exec_all work (new 10 Immediately 1).
Definition waiting : PeriodicTask := Eval vm_compute in default (new 10 Immediately 1) (exec_all (work ++ stopping) (new 10 Immediately 1)).
Definition finished : PeriodicTask := Eval vm_compute in
  default (new 10 Immediately 1)
    (exec_all [AThread true; AThread true; AThread true; AThread true; AStop] waiting).
End PeriodicExample.

Lemma waiting_reachable : reachable 10 Immediately 1 PeriodicExample.waiting.
Proof. apply (exec_all_sound (PeriodicExample.work ++ PeriodicExample.stopping)). vm_compute. reflexivity. Qed.

Lemma passes_spaced_witness :
  started PeriodicExample.waiting = [1; 12] /\ spaced 10 1 (started PeriodicExample.waiting).
Proof. split; [reflexivity|]. exact (passes_spaced 10 Immediately 1 _ waiting_reachable). Defined.

Lemma stop_ends_witness :
  thread PeriodicExample.waiting = Woken /\ exists s'', thread_move PeriodicExample.waiting s''.
Proof.
  split; [reflexivity|].
  destruct (stop_ends 10 Immediately 1 _ 0 _ waiting_reachable (or_introl eq_refl) (CountNone _)) as [_ [E|E]].
  - discriminate E.
  - exact E.
Defined.

Lemma no_pass_after_stop_witness :
  owner PeriodicExample.finished = Stopped /\ started PeriodicExample.finished = [1; 12].
Proof.
  assert (rtc move PeriodicExample.waiting PeriodicExample.finished) as Hm
    by (apply (exec_all_sound [AThread true; AThread true; AThread true; AThread true; AStop]); vm_compute; reflexivity).
  split; [reflexivity|].
  assert (owner PeriodicExample.waiting <> Idle) as Ho by discriminate.
  destruct (no_pass_after_stop 10 Immediately 1 _ _ waiting_reachable Ho Hm) as [E _]. exact E.
Defined.
