(* ===== verification/RelayFinder.v ===== *)
(** * The relay finder

    Models [src/bingle_core/src/relay/relay_finder.rs]: the finder over the updater and the
    cache it makes on first use ([RelayUpdater], [RelayCache]).

    The state [Finder_] has the id the updater was made for, if there is one, its cache, the
    failures it shares with the engine, and the reports it sent.  What an operation observes,
    the time, what discovery finds and what the probes answer, is its argument [looks]: a
    first set for the refresh of stale entries and a second for the operation's own
    selection.  An operation ends with [None] when a selection runs out of fuel
    ([selection_terminates] of [RelayUpdater] says when it does not), and panics where the
    code does. *)
From S2P Require Import Prelude NetAddr Advert RelayCache RelayUpdater.

Local Open Scope Z_scope.

Record finder : Type := MkFinder {
  updater_id : option string;
  fcache : cache;
  probe_failures : failures;
  reports : list (SocketAddr * string * string)
}.

(** What one operation observes. *)
Record looks : Type := MkLooks {
  time : Z;
  day : string;
  discovered : list RelayInfo;
  refresh_probes : nat -> observation;
  probes : nat -> observation
}.

Definition FM (A : Type) : Type := finder -> option (outcome (finder * A)).

#[local] Instance FM_ret : MRet FM := fun A a f => Some (Returns (f, a)).
#[local] Instance FM_bind : MBind FM := fun A B k m f =>
  match m f with
  | Some (Returns (f, a)) => k a f
  | Some Panics => Some Panics
  | None => None
  end.

Definition get_finder : FM finder := fun f => Some (Returns (f, f)).
Definition lift {A} (o : outcome A) : FM A := fun f =>
  match o with Returns a => Some (Returns (f, a)) | Panics => Some Panics end.
Definition set_cache (c : cache) : FM unit := fun f =>
  Some (Returns (MkFinder (updater_id f) c (probe_failures f) (reports f), tt)).

Definition relay_id_norm (i : string) : string := norm_id i.

Section Finder.
Context (address_to_byte_key : string -> option (list Z)) (sha512_256 : string -> list Z).

(** The updater's selection, with its reports of the relays that failed. *)
Definition select_and_query (me : string) (now : Z) (today : string) (exclude : list string) (env : nat -> observation)
  : FM (option RelayInfo) := fun f =>
  match relay_select_and_query me address_to_byte_key sha512_256 RELAY_PROBE_FAILURE_COOLDOWN RELAY_SELECTION_BUDGET
          RELAY_PREFERENCE_GRACE now today exclude env (fcache f) (probe_failures f) with
  | None => None
  | Some Panics => Some Panics
  | Some (Returns (c, fl, None)) => Some (Returns (MkFinder (updater_id f) c fl (reports f), None))
  | Some (Returns (c, fl, Some (relay, failed))) =>
      match report_failed_relays relay failed with
      | Panics => Some Panics
      | Returns sent => Some (Returns (MkFinder (updater_id f) c fl (reports f ++ sent), Some relay))
      end
  end.

(** The updater is made for the id of the first caller. *)
Definition ensure_updater (me : string) : FM string := fun f =>
  match updater_id f with
  | Some u => Some (Returns (f, u))
  | None => Some (Returns (MkFinder (Some me) (fcache f) (probe_failures f) (reports f), me))
  end.

Definition refresh_stale (u : string) (x : looks) : FM unit :=
  f ← get_finder;
  match update_when_expired u (time x) (fcache f) with
  | NoRefresh => mret tt
  | FromBlockchain => set_cache (init_from_blockchain u (discovered x) (fcache f))
  | FromRelay => _ ← select_and_query u (time x) (day x) [] (refresh_probes x); mret tt
  end.

(** The cache is filled when it is empty, and refreshed when it is stale. *)
Definition get_or_init_updater (me : string) (x : looks) : FM string :=
  u ← ensure_updater me;
  f ← get_finder;
  _ ← (if cache_is_empty (fcache f) then set_cache (init_from_blockchain u (discovered x) (fcache f))
       else refresh_stale u x);
  mret u.

Definition without_self (me : string) (include_self : bool) (l : list RelayInfo) : list RelayInfo :=
  if include_self then l else filter (fun r => relay_id_of r <> me) l.

Definition list_all_relays (my_id : string) (include_self : bool) (x : looks) : FM (list RelayInfo) :=
  let me := relay_id_norm my_id in
  u ← get_or_init_updater me x;
  _ ← select_and_query u (time x) (day x) [] (probes x);
  f ← get_finder;
  _ ← (if cache_is_empty (fcache f) then set_cache (init_from_blockchain u (discovered x) (fcache f)) else mret tt);
  f ← get_finder;
  mret (without_self me include_self (sort_relays (RelayCache.list_all_relays me true (fcache f)))).

(** [None]: no relay is available. *)
Definition find_relay_excluding (my_id : string) (exclude : list SocketAddr) (x : looks) : FM (option RelayInfo) :=
  let me := relay_id_norm my_id in
  u ← get_or_init_updater me x;
  f ← get_finder;
  ids ← lift (exclude_ids_for me exclude (fcache f));
  r ← select_and_query u (time x) (day x) ids (probes x);
  match r with
  | None => mret None
  | Some relay => _ ← lift (address relay); mret (Some relay)
  end.

Definition find_relay (my_id : string) (x : looks) : FM (option RelayInfo) := find_relay_excluding my_id [] x.

Definition list_root_relays (my_id : string) (include_self : bool) (x : looks) : FM (list RelayInfo) :=
  let me := relay_id_norm my_id in
  _ ← get_or_init_updater me x;
  f ← get_finder;
  mret (without_self me include_self (sort_relays (RelayCache.list_root_relays me true (fcache f)))).

Definition clear_state_cache : FM unit :=
  f ← get_finder;
  match updater_id f with Some _ => set_cache (RelayCache.clear_state_cache (fcache f)) | None => mret tt end.

(** The relay looked up is given as the caller's own id to the list of roots. *)
Definition lookup_root_id (i : string) (x : looks) : FM (option NetworkEndpoint) :=
  let me := relay_id_norm i in
  _ ← list_root_relays me true x;
  f ← get_finder;
  match updater_id f with
  | Some _ => lift (RelayCache.lookup_root_id me (fcache f))
  | None => mret None
  end.

Definition remove_relay (i : string) : FM unit :=
  f ← get_finder;
  match updater_id f with Some _ => set_cache (delete_relay i (fcache f)).1 | None => mret tt end.

(** ** The finder's operations *)

Lemma FM_bind_inv {A B} (m : FM A) (k : A -> FM B) f f' b :
  (m ≫= k) f = Some (Returns (f', b)) -> exists f1 a, m f = Some (Returns (f1, a)) /\ k a f1 = Some (Returns (f', b)).
Proof using. unfold mbind, FM_bind. destruct (m f) as [[[f1 a]|]|]; [|done|done]. intros E. by exists f1, a. Qed.

Lemma select_keeps_updater me now today ex env f f' r :
  select_and_query me now today ex env f = Some (Returns (f', r)) -> updater_id f' = updater_id f.
Proof using.
  unfold select_and_query. destruct (relay_select_and_query _ _ _ _ _ _ _ _ _ _ _ _) as [[[[c fl] [[relay failed]|]]|]|]; try done.
  - destruct (report_failed_relays relay failed); [|done]. by intros [= <- _].
  - by intros [= <- _].
Qed.

(** The updater is the one of the first caller from then on. *)
Lemma get_or_init_id me x f f' u :
  get_or_init_updater me x f = Some (Returns (f', u)) -> u = default me (updater_id f) /\ updater_id f' = Some u.
Proof using.
  unfold get_or_init_updater. intros E. apply FM_bind_inv in E as (f1 & u1 & E1 & E).
  assert (u1 = default me (updater_id f) /\ updater_id f1 = Some u1) as [-> Hu1].
  { unfold ensure_updater in E1. destruct (updater_id f) eqn:Eu; injection E1 as <- <-; by rewrite ?Eu. }
  apply FM_bind_inv in E as (f2 & g & E2 & E). injection E2 as <- <-.
  apply FM_bind_inv in E as (f3 & [] & E3 & E). injection E as <- <-. split; [done|]. rewrite <- Hu1.
  destruct (cache_is_empty (fcache f1)); [by injection E3 as <-|].
  unfold refresh_stale in E3. apply FM_bind_inv in E3 as (f4 & g & E4 & E3). injection E4 as <- <-.
  destruct (update_when_expired _ _ _); [by injection E3 as <-|by injection E3 as <-|].
  apply FM_bind_inv in E3 as (f5 & r & E5 & E3). injection E3 as <-. by apply select_keeps_updater in E5.
Qed.

Lemma excluded_listed me exclude c l r :
  exclude_ids_for me exclude c = Returns l -> r ∈ c ->
  match address r with Panics => False | Returns a => is_excluded_corner a exclude = true end ->
  exclude <> [] -> relay_id_of r ∈ l.
Proof using.
  intros E Hr Ha Hne. unfold exclude_ids_for in E. destruct exclude as [|e es]; [done|].
  pose proof (retain_outcome_spec (fun r => match address r with
      Panics => Panics | Returns a => Returns (is_excluded_corner a (e :: es)) end)
    (RelayCache.list_all_relays (my_id_norm me) true c)) as Hs.
  destruct (retain_outcome _ _) as [kept|]; [|done]. injection E as <-. destruct Hs as [_ Hs].
  apply list_elem_of_fmap. exists r. split; [done|]. apply Hs.
  split; [by apply elem_of_sort_by|]. destruct (address r); [by rewrite Ha|done].
Qed.

(** (C28) The relay that is found answered its own probe with the state Available: it is the one
    of the rank that answered, among the relays the selection probed.  It is one of the
    relays known when the selection began; it is not the node itself, not marked as its own,
    and the address it was known by then is none of those that were excluded.  The address
    it is returned with is the one its answer gives for it, which may be an excluded one
    ([excluded_address_found]); when the answer does not list it, it is the known one, which
    is not. *)
Theorem found_relay_usable my_id exclude x f f' relay :
  updater_id f = None \/ updater_id f = Some (norm_id my_id) ->
  find_relay_excluding my_id exclude x f = Some (Returns (f', Some relay)) ->
  exists f1 ids cand j rank status a,
    get_or_init_updater (norm_id my_id) x f = Some (Returns (f1, norm_id my_id)) /\
    exclude_ids_for (norm_id my_id) exclude (fcache f1) = Returns ids /\
    obs_recv (probes x j) = Some (rank, Ok status) /\ responder_state status = Available /\
    (to_probe RELAY_PROBE_FAILURE_COOLDOWN (time x)
      (ranked (norm_id my_id) address_to_byte_key sha512_256 (candidates (norm_id my_id) ids (fcache f1)))
      (probe_failures f1)).1 !! rank = Some cand /\
    relay_id_of relay = relay_id_of cand /\ cand ∈ fcache f1 /\
    relay_id_of cand <> norm_id (norm_id my_id) /\ state cand <> Some Own /\
    (exclude <> [] -> forall b, address cand = Returns b -> is_excluded_corner b exclude = false) /\
    address relay = Returns a /\
    (listed_at status (relay_id_of cand) a \/
     (relay_id_of cand ∉ relay_ids status /\ address cand = Returns a /\
      (exclude <> [] -> is_excluded_corner a exclude = false))).
Proof using.
  intros Hu E. unfold find_relay_excluding, relay_id_norm in E.
  apply FM_bind_inv in E as (f1 & u & E1 & E). pose proof (get_or_init_id _ _ _ _ _ E1) as [-> _].
  assert (default (norm_id my_id) (updater_id f) = norm_id my_id) as Hid by (by destruct Hu as [->| ->]). rewrite Hid in *.
  apply FM_bind_inv in E as (f2 & g & E2 & E). injection E2 as <- <-.
  apply FM_bind_inv in E as (f3 & ids & E3 & E). unfold lift in E3.
  destruct (exclude_ids_for _ _ _) as [l|] eqn:Ex; [|done]. injection E3 as <- <-.
  apply FM_bind_inv in E as (f4 & r & E4 & E). destruct r as [relay'|]; [|done].
  apply FM_bind_inv in E as (f5 & a & E5 & E). injection E as _ ->.
  unfold lift in E5. destruct (address relay) as [a'|] eqn:Ha; [|done].
  unfold select_and_query in E4.
  destruct (relay_select_and_query _ _ _ _ _ _ _ _ _ _ _ _) as [[[[c fl] [[r' failed]|]]|]|] eqn:Es; try done.
  destruct (report_failed_relays r' failed); [|done]. injection E4 as _ ->.
  destruct (selection_sound _ _ _ _ _ _ _ _ _ _ _ _ _ _ _ _ Es)
    as (cand & j & rank & status & H1 & H2 & Hrank & H3 & Hsrc & H4 & H5 & H6 & H7 & _).
  assert (exclude <> [] -> forall b, address cand = Returns b -> is_excluded_corner b exclude = false) as Hex.
  { intros Hne b Hb. destruct (is_excluded_corner b exclude) eqn:Ec; [|done]. exfalso. apply H7. clear H7.
    eapply excluded_listed; [done..| |done]. by rewrite Hb. }
  exists f1, l, cand, j, rank, status, a'. split_and!; try done.
  destruct Hsrc as [(b & Hl & Hb)|[Hl Hb]]; rewrite Ha in Hb.
  - injection Hb as <-. by left.
  - right. by split_and!; [..|intros Hne; apply Hex].
Qed.

Lemma filter_keeps_sorted {A} (le : A -> A -> bool) (P : A -> Prop) `{!forall a, Decision (P a)} (l : list A) :
  StronglySorted (fun a b => le a b = true) l -> StronglySorted (fun a b => le a b = true) (filter P l).
Proof using.
  induction 1 as [|a l Hl IH Ha]; [constructor|]. rewrite filter_cons. destruct (decide (P a)); [|done].
  constructor; [done|]. apply Forall_forall. intros b [_ Hb]%list_elem_of_filter.
  rewrite Forall_forall in Ha. by apply Ha.
Qed.

(** A listing is sorted by id, holds relays of the cache only, and leaves the caller out when it
    asks for that.  It is not empty while discovery finds relays, even when the relay that was
    asked gave an empty list. *)
Theorem listed_relays my_id include_self x f f' l :
  list_all_relays my_id include_self x f = Some (Returns (f', l)) ->
  StronglySorted (fun a b => relay_leb a b = true) l /\
  (forall r, r ∈ l <-> r ∈ fcache f' /\ (include_self = false -> relay_id_of r <> relay_id_norm my_id)) /\
  (discovered x <> [] -> include_self = true -> l <> []).
Proof using.
  intros E. unfold list_all_relays in E.
  apply FM_bind_inv in E as (f1 & u & E1 & E). apply FM_bind_inv in E as (f2 & r & E2 & E).
  apply FM_bind_inv in E as (f3 & g & E3 & E). injection E3 as <- <-.
  apply FM_bind_inv in E as (f4 & [] & E4 & E). apply FM_bind_inv in E as (f5 & g & E5 & E).
  injection E5 as <- <-. injection E as <- <-.
  assert (forall b r, r ∈ without_self (relay_id_norm my_id) b
      (sort_relays (RelayCache.list_all_relays (relay_id_norm my_id) true (fcache f4))) <->
      r ∈ fcache f4 /\ (b = false -> relay_id_of r <> relay_id_norm my_id)) as Hin.
  { intros b q. unfold without_self, RelayCache.list_all_relays, sort_relays.
    destruct b; rewrite ?list_elem_of_filter, !elem_of_sort_by; naive_solver. }
  split; [|split; [intros q; apply Hin|]].
  - unfold without_self. pose proof (sort_relays_sorted (RelayCache.list_all_relays (relay_id_norm my_id) true (fcache f4))).
    destruct include_self; [done|]. by apply filter_keeps_sorted.
  - intros Hd -> Hnil. assert (fcache f4 <> []) as Hne.
    { destruct (cache_is_empty (fcache f2)) eqn:Ec; injection E4 as <-; simpl.
      - pose proof (proj2 (init_from_blockchain_spec u (discovered x) (fcache f2)) Hd) as (Hp & _).
        intros E. rewrite E in Hp. apply Permutation_nil_l in Hp. destruct (discovered x); [by destruct Hd|done].
      - intros E. by rewrite E in Ec. }
    destruct (fcache f4) as [|q l4]; [done|].
    destruct (Hin true q) as [_ Hq]. rewrite Hnil in Hq. assert (q ∈ @nil RelayInfo) as [] % elem_of_nil by (apply Hq; split; [by left|done]).
Qed.
End Finder.

Definition ex_finder : finder := MkFinder None [] ∅ [].
Definition ex_looks : looks := MkLooks 0 "today" ex_relays (fun _ => MkObs 0 None) ex_obs_live.
Definition ex_found := find_relay_excluding (fun _ => None) ex_hash "ME" [] ex_looks ex_finder.

Lemma found_relay_usable_witness :
  exists f' relay cand status a, ex_found = Some (Returns (f', Some relay)) /\ relay_id_of relay = relay_id_of cand /\
    state cand <> Some Own /\ address relay = Returns a /\
    (listed_at status (relay_id_of cand) a \/ address cand = Returns a).
Proof.
  assert (match ex_found with Some (Returns (_, Some r)) => String.eqb (relay_id_of r) "B" | _ => false end = true)
    as H by (vm_compute; reflexivity).
  destruct ex_found as [[[f' [relay|]]|]|] eqn:E; try discriminate H.
  destruct (found_relay_usable (fun _ => None) ex_hash "ME" [] ex_looks ex_finder f' relay (or_introl eq_refl) E)
    as (f1 & ids & cand & j & rank & status & a & _ & _ & _ & _ & _ & Hid & _ & _ & Hown & _ & Ha & Hs).
  exists f', relay, cand, status, a. split_and!; [done..|]. destruct Hs as [Hs|(_ & Hs & _)]; auto.
Defined.

(** A relay at an excluded address can be found.  The exclusion looks at the addresses that are
    cached; a relay that answers and lists itself at another address, here that of A, which
    is excluded, is found at that one. *)
Definition ex_moved : looks := MkLooks 0 "today" ex_relays (fun _ => MkObs 0 None)
  (fun _ => MkObs 0 (Some (0%nat, Ok (MkStatus ["B"] [Available] (Some [MkInet "10.0.0.1" 9000]) Available)))).

Theorem excluded_address_found :
  exists f' relay a,
    find_relay_excluding (fun _ => None) ex_hash "ME" [SockAddr (V4 10 0 0 1) 9000] ex_moved ex_finder =
      Some (Returns (f', Some relay)) /\
    address relay = Returns a /\ is_excluded_corner a [SockAddr (V4 10 0 0 1) 9000] = true.
Proof.
  destruct (find_relay_excluding (fun _ => None) ex_hash "ME" [SockAddr (V4 10 0 0 1) 9000] ex_moved ex_finder)
    as [[[f' [relay|]]|]|] eqn:E; vm_compute in E; try discriminate E.
  injection E as <- <-. eexists _, _, _. split; [reflexivity|]. by split.
Qed.
