(* ===== verification/ChatSession.v ===== *)
(** * The life of a chat session

    Models [run_chat_session] and [finish_pending] of [src/bingle_cli/src/main.rs] around the
    operations of [Chat]: the wait until the node listens, the loop over the input, and the
    two ways out, the end of the input and the signals.

    The threads are the main thread and the one the first signal starts; each is a program
    counter, and [step] carries out one move of theirs or of the world, which comes as a
    callback of the engine, a pass over the mailbox, a report of the sender, a line or a
    signal.  [log] holds, by thread, what the session did to end.  What the sender does to
    the store in the meantime is a move of its own, with any effect on the client; its
    threads are those of [SenderThreads].  The prompt, which is drawn again after each
    line, is not modelled. *)
From S2P Require Import Prelude NetAddr Advert Api LocalTypes SendRetry Mailbox Envelope Account LocalStore PendingSender JsiTypes Jsi CliArgs CliChain Chat.
Import Account LocalTypes.

Local Open Scope Z_scope.

Inductive thread : Type := MainThread | HandlerThread.

Inductive effect : Type := FlushBegun | FlushEnded | EngineStopped | StateSaved.

(** Where the main thread is: waiting for the node, at the input, or on its way out. *)
Inductive main_pc : Type := Connecting | AtPrompt | MainFlushes | MainStops | MainSaves | MainReturns.

(** Where the thread of the first signal is, if there was one. *)
Inductive handler_pc : Type := NoSignal | HandlerFlushes | HandlerStops | HandlerSaves | HandlerExits.

#[export] Instance thread_eq_dec : EqDecision thread.
Proof. solve_decision. Defined.
#[export] Instance effect_eq_dec : EqDecision effect.
Proof. solve_decision. Defined.
#[export] Instance main_pc_eq_dec : EqDecision main_pc.
Proof. solve_decision. Defined.
#[export] Instance handler_pc_eq_dec : EqDecision handler_pc.
Proof. solve_decision. Defined.

Record session (W : Type) : Type := MkSession {
  chat : Chat W;
  listening_now : bool;
  listening_gate : bool;
  shutting_down : bool;
  main : main_pc;
  handler : handler_pc;
  status : option Z;
  log : list (thread * effect)
}.
Arguments MkSession {W}. Arguments chat {W}. Arguments listening_now {W}. Arguments listening_gate {W}.
Arguments shutting_down {W}. Arguments main {W}. Arguments handler {W}. Arguments status {W}. Arguments log {W}.

Section Run.
Context {W SigningKey : Type} `{LocalWorld W} `{Sidewinder W} `{MailboxClient W} `{NodeApi W}.
Context (A : algo) (P : primitives SigningKey) (print : json -> string) (retries_enabled : bool).
Implicit Types s : session W.

Abbreviation C := (ST (Chat W)).

(** [finish_pending]: before the sender is shut down, and after. *)
Definition finish_begins : C unit :=
  c ← get_st;
  let queued := Z.of_nat (length (LocalStore.get_pending_messages (st (local c)))) in
  if 0 <? queued then notice ("finishing " +:+ show_dec queued +:+ " queued message(s)… (Ctrl-C again to quit now)")
  else mret tt.

Fixpoint show_lines (l : list string) : C unit :=
  match l with [] => mret tt | line :: l => _ ← notice line; show_lines l end.

Definition finish_ends (r : ShutdownReport) : C unit := show_lines (shutdown_lines r).

Definition stop_engine : C unit := fun c => (set_client (local c) (engine_stop (cworld c)) c, tt).

Definition still_connecting : string :=
  "Still connecting; " +:+
  (if retries_enabled then "messages you send will be queued and retried until the connection is ready"
   else "a message you send now may fail if the connection is not yet ready") +:+ ".".

(** ** The moves *)

Inductive move : Type :=
| Listening (listening : bool)
| Message (sender sender_handle : string) (message : json)
| Sender (f : L (W := W) unit)
| Report (r : SendReport)
| MailboxPass (fuel : nat)
| WaitEnds
| Input (line : option string)
| Signal
| MainGoes (r : ShutdownReport)
| HandlerGoes (r : ShutdownReport).

Definition on_chat (m : C unit) s : session W :=
  MkSession (m (chat s)).1 (listening_now s) (listening_gate s) (shutting_down s) (main s) (handler s) (status s) (log s).
Definition main_at (pc : main_pc) s : session W :=
  MkSession (chat s) (listening_now s) (listening_gate s) (shutting_down s) pc (handler s) (status s) (log s).
Definition handler_at (pc : handler_pc) s : session W :=
  MkSession (chat s) (listening_now s) (listening_gate s) (shutting_down s) (main s) pc (status s) (log s).
Definition did (t : thread) (e : effect) s : session W :=
  MkSession (chat s) (listening_now s) (listening_gate s) (shutting_down s) (main s) (handler s) (status s) (log s ++ [(t, e)]).
Definition exits_with (code : Z) s : session W :=
  MkSession (chat s) (listening_now s) (listening_gate s) (shutting_down s) (main s) (handler s) (Some code) (log s).
Definition begin_shutdown s : session W :=
  MkSession (chat s) (listening_now s) (listening_gate s) true (main s) (handler s) (status s) (log s).

(** The gate opens once and stays open. *)
Definition on_listening (listening : bool) s : session W :=
  MkSession (chat s) listening (listening_gate s || listening) (shutting_down s) (main s) (handler s) (status s) (log s).

Definition wait_ends s : session W :=
  main_at AtPrompt (on_chat (notice (if listening_gate s then "Connected — ready to chat." else still_connecting)) s).

(** The main thread leaves the loop; whoever is first shuts down the sender. *)
Definition leave_loop s : session W :=
  if shutting_down s then main_at MainStops s
  else main_at MainFlushes (did MainThread FlushBegun (on_chat finish_begins (begin_shutdown s))).

Definition on_input (line : option string) s : session W :=
  match line with
  | None => leave_loop s
  | Some line =>
      let '(c, more) := repl_step A P line (chat s) in
      let s := on_chat (fun _ => (c, tt)) s in
      if more : bool then s else leave_loop s
  end.

Definition on_signal s : session W :=
  if shutting_down s then exits_with 130 s
  else handler_at HandlerFlushes (did HandlerThread FlushBegun (on_chat finish_begins (begin_shutdown s))).

Definition main_goes (r : ShutdownReport) s : option (session W) :=
  match main s with
  | Connecting | AtPrompt => None
  | MainFlushes => Some (main_at MainStops (did MainThread FlushEnded (on_chat (finish_ends r) s)))
  | MainStops => Some (main_at MainSaves (did MainThread EngineStopped (on_chat stop_engine s)))
  | MainSaves => Some (main_at MainReturns (did MainThread StateSaved (on_chat (_ ← save_state; mret tt) s)))
  | MainReturns => Some (exits_with 0 s)
  end.

Definition handler_goes (r : ShutdownReport) s : option (session W) :=
  match handler s with
  | NoSignal => None
  | HandlerFlushes => Some (handler_at HandlerStops (did HandlerThread FlushEnded (on_chat (finish_ends r) s)))
  | HandlerStops => Some (handler_at HandlerSaves (did HandlerThread EngineStopped (on_chat stop_engine s)))
  | HandlerSaves => Some (handler_at HandlerExits (did HandlerThread StateSaved (on_chat save_shared s)))
  | HandlerExits => Some (exits_with 0 s)
  end.

Definition is_handler_step (m : move) : bool := match m with HandlerGoes _ => true | _ => false end.

(** [None]: the move is not possible, or the process has ended. *)
Definition step (m : move) s : option (session W) :=
  match status s with
  | Some _ => None
  | None =>
      match m with
      | Listening b => Some (on_listening b s)
      | Message sender h message => Some (on_chat (Chat.on_message print sender h message) s)
      | Sender f => Some (on_chat (on_client f) s)
      | Report r => Some (on_chat (on_report r) s)
      | MailboxPass fuel => Some (on_chat (poller_pass A P fuel) s)
      | WaitEnds => match main s with Connecting => Some (wait_ends s) | _ => None end
      | Input line => match main s with AtPrompt => Some (on_input line s) | _ => None end
      | Signal => Some (on_signal s)
      | MainGoes r => main_goes r s
      | HandlerGoes r => handler_goes r s
      end
  end.

Fixpoint run (ms : list move) s : option (session W) :=
  match ms with [] => Some s | m :: ms => s ← step m s; run ms s end.

(** The session once the engine was started, when the wait begins. *)
Definition session_of (c : Chat W) : session W :=
  on_chat (notice "Connecting to the network…") (MkSession c false false false Connecting NoSignal None []).

(** ** The way out *)

(** What a thread did. *)
Definition by_thread (t : thread) s : list effect := snd <$> List.filter (fun x => bool_decide (x.1 = t)) (log s).

Definition all_steps : list effect := [FlushBegun; FlushEnded; EngineStopped; StateSaved].
Definition without_flush : list effect := [EngineStopped; StateSaved].

(** What the main thread has done where it is; [first]: it was the first to leave. *)
Definition main_trace (first : bool) (pc : main_pc) : list effect :=
  let done n m := if first then take n all_steps else take m without_flush in
  match pc with
  | Connecting | AtPrompt => []
  | MainFlushes => [FlushBegun]
  | MainStops => done 2%nat 0%nat
  | MainSaves => done 3%nat 1%nat
  | MainReturns => done 4%nat 2%nat
  end.

Definition handler_trace (pc : handler_pc) : list effect :=
  match pc with
  | NoSignal => []
  | HandlerFlushes => take 1 all_steps
  | HandlerStops => take 2 all_steps
  | HandlerSaves => take 3 all_steps
  | HandlerExits => all_steps
  end.

Definition leaving (pc : main_pc) : bool := match pc with Connecting | AtPrompt => false | _ => true end.
Definition signalled (pc : handler_pc) : bool := match pc with NoSignal => false | _ => true end.

(** Each thread did its steps in order; the flag says that one of them has begun; the one
    that began first flushes, and the process ends when one of them is through, or at a
    second signal. *)
Definition exit_inv s : Prop :=
  by_thread HandlerThread s = handler_trace (handler s) /\
  by_thread MainThread s = main_trace (negb (signalled (handler s))) (main s) /\
  (signalled (handler s) = true -> main s <> MainFlushes) /\
  shutting_down s = leaving (main s) || signalled (handler s) /\
  match status s with
  | None => True
  | Some code => code = 130 /\ shutting_down s = true \/
                 code = 0 /\ (main s = MainReturns \/ handler s = HandlerExits)
  end.

Lemma by_thread_did t t' e s : by_thread t (did t' e s) = by_thread t s ++ (if decide (t = t') then [e] else []).
Proof using.
  unfold by_thread, did. cbn. rewrite List.filter_app, fmap_app. f_equal. cbn.
  destruct (decide (t = t')) as [->|Hne]; [by rewrite bool_decide_true|by rewrite bool_decide_false by congruence].
Qed.

#[local] Arguments by_thread : simpl never.

Lemma by_thread_same t s s' : log s' = log s -> by_thread t s' = by_thread t s.
Proof using. unfold by_thread. by intros ->. Qed.

Lemma by_thread_main_at t pc s : by_thread t (main_at pc s) = by_thread t s.
Proof using. done. Qed.
Lemma by_thread_handler_at t pc s : by_thread t (handler_at pc s) = by_thread t s.
Proof using. done. Qed.
Lemma by_thread_exits t code s : by_thread t (exits_with code s) = by_thread t s.
Proof using. done. Qed.
Lemma by_thread_on_chat t m s : by_thread t (on_chat m s) = by_thread t s.
Proof using. done. Qed.
Lemma by_thread_begins t s : by_thread t (begin_shutdown s) = by_thread t s.
Proof using. done. Qed.

(** Every step that is not one of the exit's leaves what the invariant speaks of. *)
Definition same_exit s s' : Prop :=
  log s' = log s /\ shutting_down s' = shutting_down s /\ main s' = main s /\ handler s' = handler s /\ status s' = status s.

Lemma exit_inv_same s s' : same_exit s s' -> exit_inv s -> exit_inv s'.
Proof using.
  intros (El & Es & Em & Eh & Et) Hi. unfold exit_inv in *. by rewrite !(by_thread_same _ s s' El), Es, Em, Eh, Et.
Qed.

Ltac exit_step := unfold exit_inv; rewrite ?by_thread_main_at, ?by_thread_handler_at, ?by_thread_exits, ?by_thread_on_chat, ?by_thread_begins, ?by_thread_did, ?by_thread_on_chat, ?by_thread_begins; cbn.

Lemma leave_inv s : status s = None -> leaving (main s) = false -> exit_inv s -> exit_inv (leave_loop s).
Proof using.
  intros Ht Hm (Hh & Hmain & Hf & Hs & _). unfold leave_loop. rewrite Hm in Hs. cbn in Hs.
  destruct (shutting_down s) eqn:Esd; exit_step; rewrite Hh, Hmain, Ht, ?Esd; rewrite <- Hs; cbn.
  - destruct (main s); try discriminate Hm; by split_and!.
  - destruct (handler s) eqn:Eh; try discriminate Hs. destruct (main s); try discriminate Hm; by split_and!.
Qed.

Lemma main_goes_inv r s s' : status s = None -> exit_inv s -> main_goes r s = Some s' -> exit_inv s'.
Proof using.
  intros Ht (Hh & Hm & Hf & Hs & _) E. unfold main_goes in E.
  destruct (main s) eqn:Em; try done; injection E as <-; exit_step; rewrite Hh, Hm, ?Ht, Hs; cbn;
    destruct (signalled (handler s)) eqn:Esg; try (by destruct Hf); cbn; rewrite ?app_nil_r; split_and!; auto; by rewrite Em.
Qed.

Lemma handler_goes_inv r s s' : status s = None -> exit_inv s -> handler_goes r s = Some s' -> exit_inv s'.
Proof using.
  intros Ht (Hh & Hm & Hf & Hs & _) E. unfold handler_goes in E.
  destruct (handler s) eqn:Eh; try done; injection E as <-; exit_step; rewrite Hh, Hm, ?Ht, Hs, ?Eh; cbn;
    rewrite ?app_nil_r, ?orb_true_r; split_and!; auto.
Qed.

Lemma signal_inv s : status s = None -> exit_inv s -> exit_inv (on_signal s).
Proof using.
  intros Ht (Hh & Hm & Hf & Hs & _). unfold on_signal. destruct (shutting_down s) eqn:Esd; exit_step.
  - rewrite Hh, Hm, Esd. split_and!; auto.
  - symmetry in Hs. apply orb_false_iff in Hs as [Hl Hsg]. rewrite Hh, Hm, Ht.
    destruct (handler s); try discriminate Hsg. destruct (main s); try discriminate Hl; by split_and!.
Qed.

Lemma step_inv m s s' : exit_inv s -> step m s = Some s' -> exit_inv s'.
Proof using.
  intros Hi E. unfold step in E. destruct (status s) eqn:Ht; [done|].
  destruct m; try (injection E as <-; by apply (exit_inv_same s)).
  - destruct (main s) eqn:Em; try done. injection E as <-. destruct Hi as (Hh & Hm & Hf & Hs & _).
    unfold wait_ends. exit_step. rewrite Hh, Hm, Ht, Hs, Em. by split_and!.
  - destruct (main s) eqn:Em; try done. injection E as <-. unfold on_input.
    destruct line as [line|]; [|apply leave_inv; by rewrite ?Em]. destruct (repl_step _ _ _ _) as [c more].
    assert (exit_inv (on_chat (fun _ => (c, tt)) s)) as Hi' by by apply (exit_inv_same s).
    destruct more; [done|]. apply leave_inv; [done|cbn; by rewrite Em|done].
  - injection E as <-. by apply signal_inv.
  - by eapply main_goes_inv.
  - by eapply handler_goes_inv.
Qed.

Lemma run_inv ms s s' : exit_inv s -> run ms s = Some s' -> exit_inv s'.
Proof using.
  revert s. induction ms as [|m ms IH]; intros s Hi E; cbn in E; [by injection E as <-|].
  destruct (step m s) as [s1|] eqn:E1; [|done]. eapply IH; [by eapply step_inv|done].
Qed.

Lemma run_app ms ms' s : run (ms ++ ms') s = (s1 ← run ms s; run ms' s1).
Proof using. revert s. induction ms as [|m ms IH]; intros s; cbn; [done|]. destruct (step m s); [apply IH|done]. Qed.

Lemma session_inv ms (c : Chat W) s : run ms (session_of c) = Some s -> exit_inv s.
Proof using. apply run_inv. by split_and!. Qed.

Definition is_flush (x : thread * effect) : bool := bool_decide (x.2 = FlushBegun).

Lemma flushes_by_thread l :
  length (List.filter is_flush l) =
  (length (filter (eq FlushBegun) (snd <$> List.filter (fun x => bool_decide (x.1 = MainThread)) l)) +
   length (filter (eq FlushBegun) (snd <$> List.filter (fun x => bool_decide (x.1 = HandlerThread)) l)))%nat.
Proof using.
  induction l as [|[t e] l IH]; [done|]. cbn [List.filter]. unfold is_flush at 1. cbn [snd fst].
  destruct t; [rewrite (bool_decide_true (MainThread = MainThread)), (bool_decide_false (MainThread = HandlerThread)) by done
              |rewrite (bool_decide_true (HandlerThread = HandlerThread)), (bool_decide_false (HandlerThread = MainThread)) by done];
    rewrite fmap_cons, filter_cons; cbn [snd];
    destruct (decide (FlushBegun = e)) as [<-|Hne];
      [rewrite (bool_decide_true (FlushBegun = FlushBegun)) by done|rewrite (bool_decide_false (e = FlushBegun)) by congruence
      |rewrite (bool_decide_true (FlushBegun = FlushBegun)) by done|rewrite (bool_decide_false (e = FlushBegun)) by congruence];
    cbn [length]; lia.
Qed.

(** A session ends in order.  In whatever order lines, signals, messages and passes come,
    the sender is shut down at most once.  When the process ends with status 0, one thread
    did, in this order, shut down the sender, stop the engine and save the state, or the
    main thread stopped and saved while the shutdown begun by a signal was under way; it
    ends with status 130 only when a signal came after the shutdown had begun. *)
Theorem session_ends_in_order ms (c : Chat W) s :
  run ms (session_of c) = Some s ->
  (length (List.filter is_flush (log s)) <= 1)%nat /\
  match status s with
  | None => True
  | Some code =>
      code = 0 /\ (by_thread MainThread s = all_steps \/ by_thread HandlerThread s = all_steps \/
                   by_thread MainThread s = without_flush /\ FlushBegun ∈ by_thread HandlerThread s) \/
      code = 130 /\ exists t, FlushBegun ∈ by_thread t s
  end.
Proof using.
  intros (Hh & Hm & Hf & Hs & Ht) % session_inv. rewrite flushes_by_thread.
  fold (by_thread MainThread s) (by_thread HandlerThread s). rewrite Hh, Hm. split.
  - destruct (handler s), (main s); first [by destruct Hf|vm_compute; lia].
  - destruct (status s) as [code|]; [|done]. destruct Ht as [[-> Hd]|[-> Hd]]; [right|left]; (split; [done|]).
    + rewrite Hd in Hs. destruct (handler s) eqn:Eh.
      * exists MainThread. rewrite Hm. destruct (main s); try discriminate Hs; cbn; by left.
      * exists HandlerThread. rewrite Hh. by left.
      * exists HandlerThread. rewrite Hh. by left.
      * exists HandlerThread. rewrite Hh. by left.
      * exists HandlerThread. rewrite Hh. by left.
    + destruct Hd as [Hr|Hr]; rewrite Hr; [|by right; left]. destruct (handler s) eqn:Eh; [by left|right; right..];
        (split; [done|by left]).
Qed.

(** The steps the signal's thread has left. *)
Definition handler_left (pc : handler_pc) : nat :=
  match pc with NoSignal | HandlerFlushes => 4 | HandlerStops => 3 | HandlerSaves => 2 | HandlerExits => 1 end.

Lemma step_handler m s s' :
  handler s <> NoSignal -> shutting_down s = true -> step m s = Some s' ->
  handler s' <> NoSignal /\ shutting_down s' = true /\
  match status s' with
  | Some _ => ((if is_handler_step m then 1 else 0) <= handler_left (handler s))%nat
  | None => (handler_left (handler s') + (if is_handler_step m then 1 else 0) = handler_left (handler s))%nat
  end.
Proof using.
  intros Hh Hs E. unfold step in E. destruct (status s) eqn:Ht; [done|].
  assert (forall t, shutting_down (leave_loop t) = true -> True) as _ by done.
  destruct m; cbn in E; try (injection E as <-; cbn; rewrite Ht; split_and!; [done|done|lia]).
  - destruct (main s); try done. injection E as <-. cbn. rewrite Ht. split_and!; [done|done|lia].
  - destruct (main s); try done. injection E as <-. unfold on_input, leave_loop.
    destruct line as [line|]; [destruct (repl_step _ _ _ _) as [c []]; cbn|cbn]; rewrite ?Hs; cbn; rewrite ?Ht; split_and!; try done; lia.
  - injection E as <-. unfold on_signal. rewrite Hs. cbn. split_and!; [done|done|lia].
  - unfold main_goes in E. destruct (main s); try done; injection E as <-; cbn; rewrite ?Ht; split_and!; try done; lia.
  - unfold handler_goes in E. destruct (handler s) eqn:Eh; try done; injection E as <-; cbn; rewrite ?Ht, ?Eh; cbn; split_and!; try done; lia.
Qed.

(** A signal ends the session.  From the first signal on, whatever the other threads and
    the world do, its thread can always take its next step, and it takes at most four: after
    them, or at a second signal, the process has ended. *)
Theorem signal_ends_session ms s s' r :
  handler s <> NoSignal -> shutting_down s = true -> status s = None -> run ms s = Some s' ->
  let taken := length (List.filter is_handler_step ms) in
  (taken <= 4)%nat /\ (taken = 4%nat -> status s' <> None) /\
  (status s' = None -> is_Some (step (HandlerGoes r) s') /\ status <$> step Signal s' = Some (Some 130)).
Proof using.
  intros Hh Hs Ht E taken.
  assert (taken <= handler_left (handler s) /\
    match status s' with
    | Some _ => True
    | None => handler s' <> NoSignal /\ shutting_down s' = true /\ (handler_left (handler s') + taken = handler_left (handler s))%nat
    end)%nat as [Hle Hst].
  { clear r. subst taken. revert s Hh Hs Ht E. induction ms as [|m ms IH]; intros s Hh Hs Ht E; cbn in E.
    { injection E as <-. cbn. rewrite Ht. split; [lia|]. split_and!; [done|done|lia]. }
    destruct (step m s) as [s1|] eqn:E1; [|done]. apply step_handler in E1 as (Hh1 & Hs1 & Hn); [|done|done]. cbn in E.
    destruct (status s1) as [code|] eqn:Ht1.
    - destruct ms as [|m' ms]; cbn in E; [|unfold step in E; rewrite Ht1 in E; done].
      injection E as <-. rewrite Ht1. cbn. destruct (is_handler_step m); cbn; split; auto; lia.
    - destruct (IH s1 Hh1 Hs1 Ht1 E) as [Hle Hst]. cbn. destruct (is_handler_step m); cbn [length];
        (split; [lia|]); (destruct (status s'); [done|]); destruct Hst as (? & ? & ?); split_and!; try done; lia. }
  assert (handler_left (handler s) <= 4)%nat by (destruct (handler s); cbn; lia).
  split; [lia|]. split.
  - intros Et Hn. rewrite Hn in Hst. destruct Hst as (? & _ & ?). destruct (handler s'); cbn in *; [done|lia..].
  - intros Hn. rewrite Hn in Hst. destruct Hst as (Hn' & Hd & _). unfold step. rewrite Hn. split.
    + unfold handler_goes. destruct (handler s'); [done|by eexists..].
    + unfold on_signal. by rewrite Hd.
Qed.
End Run.

(** ** A session in the small world *)

Abbreviation demo_run ms := (run SmallClient.client_algo Toy.toy JsiDemo.print true ms (session_of ChatDemo.running)).

Module SessionDemo.
Definition report : ShutdownReport := MkShutdownReport [] [].
(** The main thread leaves at [!exit]; and the same after a signal. *)
Definition leaves : list (@move SmallClient.world) :=
  [Listening true; WaitEnds; Input (Some "!exit"%string); MainGoes report; MainGoes report; MainGoes report; MainGoes report].
Definition signalled_first : list (@move SmallClient.world) :=
  [Listening true; WaitEnds; Signal; Input (Some "!exit"%string); MainGoes report; MainGoes report; MainGoes report].
Definition after_signal : list (@move SmallClient.world) := [Listening true; WaitEnds; Signal].
End SessionDemo.

Lemma session_ends_in_order_witness :
  exists s, demo_run SessionDemo.leaves = Some s /\ status s = Some 0 /\ by_thread MainThread s = all_steps.
Proof.
  assert (match demo_run SessionDemo.leaves with
          | Some s => bool_decide (status s = Some 0 /\ handler s = NoSignal) | None => false end = true) as H.
  { vm_compute. reflexivity. }
  destruct (demo_run SessionDemo.leaves) as [s|] eqn:E; [|discriminate H].
  exists s. split; [reflexivity|]. apply bool_decide_eq_true_1 in H as [Ht Hh]. split; [exact Ht|].
  pose proof (session_ends_in_order SmallClient.client_algo Toy.toy JsiDemo.print true _ _ _ E) as [_ H].
  rewrite Ht in H. destruct H as [[_ H]|[H _]]; [|discriminate H].
  assert (by_thread HandlerThread s = []) as Hn.
  { pose proof (session_inv SmallClient.client_algo Toy.toy JsiDemo.print true _ _ _ E) as (Hi & _). by rewrite Hi, Hh. }
  rewrite Hn in H. destruct H as [H|[H|[_ H]]]; [exact H|discriminate H|by apply elem_of_nil in H].
Defined.

Lemma signal_ends_session_witness :
  exists s s', demo_run SessionDemo.after_signal = Some s /\
    run SmallClient.client_algo Toy.toy JsiDemo.print true [Input (Some "!exit"%string); HandlerGoes SessionDemo.report] s = Some s' /\
    status <$> step SmallClient.client_algo Toy.toy JsiDemo.print true Signal s' = Some (Some 130).
Proof.
  assert (match demo_run SessionDemo.after_signal with
          | Some s => bool_decide (status s = None /\ handler s = HandlerFlushes /\ shutting_down s = true)
          | None => false end = true) as H by (vm_compute; reflexivity).
  assert (match demo_run (SessionDemo.after_signal ++ [Input (Some "!exit"%string); HandlerGoes SessionDemo.report]) with
          | Some s => bool_decide (status s = None) | None => false end = true) as H' by (vm_compute; reflexivity).
  rewrite run_app in H'.
  destruct (demo_run SessionDemo.after_signal) as [s|] eqn:E; [|discriminate H].
  apply bool_decide_eq_true_1 in H as (Ht & Hh & Hs). cbn [mbind option_bind] in H'.
  destruct (run _ _ _ _ _ s) as [s'|] eqn:E'; [|discriminate H']. apply bool_decide_eq_true_1 in H'.
  exists s, s'. split; [reflexivity|]. split; [exact E'|].
  assert (handler s <> NoSignal) as Hn by (rewrite Hh; discriminate).
  destruct (signal_ends_session SmallClient.client_algo Toy.toy JsiDemo.print true _ s s' SessionDemo.report Hn Hs Ht E') as (_ & _ & Hr).
  exact (proj2 (Hr H')).
Defined.

(** ** Where the session falls short *)

(** The exit cuts the shutdown short.  After a Ctrl-C the sender is being shut down by the
    thread of the signal; when [!exit] is typed meanwhile, the main thread takes the
    shutdown for done, stops the engine, saves and ends the process with status 0, with the
    shutdown not over: what was still queued has not been handed to the mailboxes. *)
Theorem exit_cuts_shutdown :
  exists s, demo_run SessionDemo.signalled_first = Some s /\ status s = Some 0 /\
    log s = [(HandlerThread, FlushBegun); (MainThread, EngineStopped); (MainThread, StateSaved)].
Proof.
  assert (match demo_run SessionDemo.signalled_first with
          | Some s => bool_decide (status s = Some 0 /\
              log s = [(HandlerThread, FlushBegun); (MainThread, EngineStopped); (MainThread, StateSaved)])
          | None => false end = true) as H by (vm_compute; reflexivity).
  destruct (demo_run _) as [s|]; [|done]. apply bool_decide_eq_true_1 in H. by exists s.
Qed.
