(* ===== verification/ChainJson.v ===== *)
(** * What the node's answers mean, and group ids

    Models the parts of [src/bingle_core/src/blockchain/algo_bingle.rs] below the class
    [AlgoNode] of [Chain] that the client writes itself: reading the entries of an
    application's state from the JSON of the node, with the price found there, and the id
    that binds transactions into a group.

    Base64 and SHA-512/256 are parameters, as is the MessagePack form of a transaction,
    which the crate [algonaut] gives. *)
From S2P Require Import Prelude Advert Envelope LocalTypes JsiTypes Chain.

Local Open Scope Z_scope.

(** ** Text *)

Definition between (lo hi b : Z) : bool := (lo <=? b) && (b <=? hi).
Definition cont (b : Z) : bool := between 128 191 b.

(** The byte strings [String::from_utf8] accepts. *)
Fixpoint utf8_ok (l : list Z) : bool :=
  match l with
  | [] => true
  | a :: l1 =>
      if a <? 128 then utf8_ok l1
      else match l1 with
      | [] => false
      | b :: l2 =>
          if between 194 223 a then cont b && utf8_ok l2
          else match l2 with
          | [] => false
          | c :: l3 =>
              if a =? 224 then between 160 191 b && cont c && utf8_ok l3
              else if a =? 237 then between 128 159 b && cont c && utf8_ok l3
              else if between 225 239 a then cont b && cont c && utf8_ok l3
              else match l3 with
              | [] => false
              | d :: l4 =>
                  if a =? 240 then between 144 191 b && cont c && cont d && utf8_ok l4
                  else if between 241 243 a then cont b && cont c && cont d && utf8_ok l4
                  else if a =? 244 then between 128 143 b && cont c && cont d && utf8_ok l4
                  else false
              end
          end
      end
  end.

Definition from_utf8 (l : list Z) : option string := if utf8_ok l then Some (string_of_bytes l) else None.

(** ** The entries of a state *)

Definition as_u64 (v : json) : option Z :=
  match v with JInt z => if (0 <=? z) && (z <? 2 ^ 64) then Some z else None | _ => None end.
Definition as_array (v : json) : option (list json) := match v with JArr l => Some l | _ => None end.
Definition as_object (v : json) : option json := match v with JObj _ => Some v | _ => None end.

Section Entries.
Context (base64_decode : string -> option (list Z)).

Definition entry_key (key_b64 : string) : string :=
  match base64_decode key_b64 with
  | Some bytes => default key_b64 (from_utf8 bytes)
  | None => key_b64
  end.

(** The numbers of an array that are not negative, each modulo 256. *)
Definition array_bytes (l : list json) : list Z := omap (fun n => u ← as_u64 n; Some (Z.land u 255)) l.

(** An array of numbers or a base64 text. *)
Definition value_bytes (o : json) : option (list Z) :=
  match get "bytes" o ≫= as_array with
  | Some arr => Some (array_bytes arr)
  | None => s ← get "bytes" o ≫= as_str; base64_decode s
  end.

Definition entry_value (o : json) : string :=
  if default 0 (get "type" o ≫= as_u64) =? 1 then
    match value_bytes o with
    | Some bytes => default ("0x" +:+ hex_id bytes) (from_utf8 bytes)
    | None => EmptyString
    end
  else default "0"%string (show_dec <$> (get "uint" o ≫= as_u64)).

(** An entry without a key or a value is passed over. *)
Definition decode_entry (entry : json) : option (string * string) :=
  key_b64 ← get "key" entry ≫= as_str;
  o ← get "value" entry ≫= as_object;
  Some (entry_key key_b64, entry_value o).

Definition decode_state_entries (l : list json) : entries := omap decode_entry l.

Definition global_state (info : json) : list json :=
  default [] (p ← get "params" info;
              x ← (match get "global-state" p with Some x => Some x | None => get "global_state" p end);
              as_array x).

(** The price in the answer of the node about an application. *)
Definition price_of (info : json) : result Z string :=
  ok_or (extract_bingle_price (decode_state_entries (global_state info))) "BinglePrice not set in global state"%string.
End Entries.

(** ** Groups *)

Section Groups.
Context {Body : Type} (to_msg_pack : Body -> option (list Z) -> result (list Z) string) (sha512_256 : list Z -> list Z).

(** A transaction and its group id. *)
Record Transaction : Type := MkTransaction { body : Body; group : option (list Z) }.

Fixpoint txids (txns : list Transaction) : result (list (list Z)) string :=
  match txns with
  | [] => Ok []
  | tx :: txns =>
      let? raw := map_err (fun e => "failed to msgpack unsigned tx: " +:+ e) (to_msg_pack (body tx) (group tx)) in
      let? ids := txids txns in
      Ok (sha512_256 ([84; 88] ++ raw) :: ids)
  end.

(** The map of one key, [txlist], to the array of the ids, each of 32 bytes. *)
Definition group_mp (ids : list (list Z)) : list Z :=
  [129; 166] ++ [116; 120; 108; 105; 115; 116] ++ [144 + Z.of_nat (length ids)] ++ concat ((fun i => [196; 32] ++ i) <$> ids).

Definition assign_group_id (txns : list Transaction) : result (list Transaction) string :=
  let? ids := txids txns in
  if (length ids =? 0)%nat then Err "no transactions to group"
  else if (15 <? length ids)%nat then Err "too many txns in group (max 15 supported by minimal encoder)"
  else
    let gid := sha512_256 ([84; 71] ++ group_mp ids) in
    Ok ((fun tx => MkTransaction (body tx) (Some gid)) <$> txns).
End Groups.
Arguments MkTransaction {Body}. Arguments body {Body}. Arguments group {Body}.

(** ** Reading what was written *)

Lemma parse_u64_show n : 0 <= n < 2 ^ 64 -> parse_u64 (show_dec n) = Some n.
Proof.
  intros Hn. unfold parse_u64. destruct (show_dec_nonempty n) as (a & t & E).
  pose proof (show_dec_chars "+"%char n eq_refl ltac:(lia)) as Hc. rewrite E in Hc. cbn in Hc.
  rewrite E. destruct (Ascii.eqb a "+"%char) eqn:Ea; [discriminate Hc|]. rewrite <- E. unfold show_dec.
  rewrite parse_show_go by (simpl; lia). cbn. destruct (Z.ltb_spec n (2 ^ 64)); [done|lia].
Qed.

(** A value of a state, as the chain keeps it. *)
Inductive state_value : Type := Uint (n : Z) | Bytes (l : list Z).

Definition shown_value (v : state_value) : string :=
  match v with
  | Uint n => show_dec n
  | Bytes l => default ("0x" +:+ hex_id l) (from_utf8 l)
  end.

Section Reading.
Context (base64_encode : list Z -> string) (base64_decode : string -> option (list Z)).
Context (decode_encode : forall l, bytes_ok l -> base64_decode (base64_encode l) = Some l).

(** The node's entry for a key and a value. *)
Definition entry_of (kv : list Z * state_value) : json :=
  JObj [("key"%string, JStr (base64_encode kv.1));
        ("value"%string, match kv.2 with
                  | Uint n => JObj [("bytes"%string, JStr EmptyString); ("type"%string, JInt 2); ("uint"%string, JInt n)]
                  | Bytes l => JObj [("bytes"%string, JStr (base64_encode l)); ("type"%string, JInt 1); ("uint"%string, JInt 0)]
                  end)].

Definition entry_ok (kv : list Z * state_value) : Prop :=
  bytes_ok kv.1 /\ utf8_ok kv.1 = true /\ match kv.2 with Uint n => 0 <= n < 2 ^ 64 | Bytes l => bytes_ok l end.

Lemma decode_entry_of kv : entry_ok kv -> decode_entry base64_decode (entry_of kv) = Some (string_of_bytes kv.1, shown_value kv.2).
Proof using decode_encode.
  destruct kv as [k v]. intros (Hk & Hu & Hv). cbn [fst snd] in *.
  assert (forall o, as_object o = Some o -> decode_entry base64_decode
    (JObj [("key"%string, JStr (base64_encode k)); ("value"%string, o)]) =
    Some (entry_key base64_decode (base64_encode k), entry_value base64_decode o)) as Hd.
  { intros o Ho. unfold decode_entry.
    change (get "value" _) with (Some o). change (get "key" _) with (Some (JStr (base64_encode k))). cbn. by rewrite Ho. }
  assert (entry_key base64_decode (base64_encode k) = string_of_bytes k) as Hkey.
  { unfold entry_key. rewrite decode_encode by done. unfold from_utf8. by rewrite Hu. }
  unfold entry_of. cbn [fst snd]. destruct v as [n|l]; rewrite Hd, Hkey by done; do 2 f_equal; unfold entry_value, shown_value.
  - change (get "type" _ ≫= as_u64) with (Some 2). change (get "uint" _) with (Some (JInt n)). cbn. unfold as_u64.
    destruct (Z.leb_spec 0 n); [|lia]. destruct (Z.ltb_spec n (2 ^ 64)); [done|lia].
  - change (get "type" _ ≫= as_u64) with (Some 1). unfold value_bytes. change (get "bytes" _) with (Some (JStr (base64_encode l))).
    cbn. by rewrite decode_encode by done.
Qed.

(** The state of an application is read as it is.  The entries the node gives for a list
    of keys and values decode to those keys and the texts of those values, in order, none
    left out; so a number is found under the first occurrence of its key, whatever else
    the state holds, and the price is the number under [BinglePrice]. *)
Theorem state_read_back (kvs : list (list Z * state_value)) :
  Forall entry_ok kvs ->
  let l := decode_state_entries base64_decode (entry_of <$> kvs) in
  l = (fun kv => (string_of_bytes kv.1, shown_value kv.2)) <$> kvs /\
  forall pre post k n, kvs = pre ++ (k, Uint n) :: post ->
    Forall (fun kv => string_of_bytes kv.1 <> string_of_bytes k) pre ->
    find_uint (string_of_bytes k) l = Some n /\
    (string_of_bytes k = "BinglePrice"%string ->
     price_of base64_decode (JObj [("params"%string, JObj [("global-state"%string, JArr (entry_of <$> kvs))])]) = Ok n).
Proof using decode_encode.
  intros Hok l.
  assert (l = (fun kv => (string_of_bytes kv.1, shown_value kv.2)) <$> kvs) as El.
  { subst l. unfold decode_state_entries. induction Hok as [|kv kvs Hkv _ IH]; [done|].
    rewrite fmap_cons. cbn [omap list_omap]. rewrite decode_entry_of by done. by rewrite IH. }
  split; [done|]. intros pre post k n -> Hpre.
  assert (find_uint (string_of_bytes k) l = Some n) as Hf.
  { rewrite El, fmap_app, fmap_cons. unfold find_uint, field. rewrite Forall_app, Forall_cons in Hok.
    destruct Hok as (_ & (_ & _ & Hn) & _). cbn in Hn. clear El l.
    induction Hpre as [|kv pre Hkv _ IH]; cbn.
    - rewrite String.eqb_refl. cbn. by apply parse_u64_show.
    - destruct (String.eqb_spec (string_of_bytes kv.1) (string_of_bytes k)); [done|]. exact IH. }
  split; [done|]. intros Ek. unfold price_of, extract_bingle_price. change (global_state _) with (entry_of <$> (pre ++ (k, Uint n) :: post)).
  fold l. rewrite <- Ek. by rewrite Hf.
Qed.
End Reading.

(** ** What the id binds *)

Section Binding.
Context {Body : Type} (to_msg_pack : Body -> option (list Z) -> result (list Z) string) (sha512_256 : list Z -> list Z).
Context (digest_length : forall l, length (sha512_256 l) = 32%nat).

Abbreviation txids := (txids to_msg_pack sha512_256).
Abbreviation assign_group_id := (assign_group_id to_msg_pack sha512_256).

(** What is hashed of the transactions. *)
Definition packed (txns : list (Transaction (Body := Body))) : list (result (list Z) string) :=
  (fun tx => to_msg_pack (body tx) (group tx)) <$> txns.

Definition collision : Prop := exists x y, x <> y /\ sha512_256 x = sha512_256 y.

Lemma txids_length txns ids : txids txns = Ok ids -> length ids = length txns.
Proof using.
  revert ids. induction txns as [|tx txns IH]; intros ids E; cbn in E; [by injection E as <-|].
  destruct (to_msg_pack _ _); [|done]. cbn in E. destruct (txids txns) as [l|]; [|done]. injection E as <-. cbn. by rewrite (IH l).
Qed.

Lemma txids_digests txns ids : txids txns = Ok ids -> Forall (fun i => length i = 32%nat) ids.
Proof using digest_length.
  revert ids. induction txns as [|tx txns IH]; intros ids E; cbn in E; [by injection E as <-|].
  destruct (to_msg_pack _ _); [|done]. cbn in E. destruct (txids txns) as [l|]; [|done]. injection E as <-. constructor; auto.
Qed.

Lemma txids_bind l l' ids : txids l = Ok ids -> txids l' = Ok ids -> packed l = packed l' \/ collision.
Proof using.
  revert l' ids. induction l as [|tx l IH]; intros [|tx' l'] ids E E'; cbn in E, E'.
  - by left.
  - injection E as <-. destruct (to_msg_pack _ _); [|done]. cbn in E'. by destruct (txids l').
  - injection E' as <-. destruct (to_msg_pack _ _); [|done]. cbn in E. by destruct (txids l).
  - destruct (to_msg_pack (body tx) (group tx)) as [raw|] eqn:Er; [|done]. cbn in E.
    destruct (txids l) as [ids1|] eqn:E1; [|done]. injection E as <-.
    destruct (to_msg_pack (body tx') (group tx')) as [raw'|] eqn:Er'; [|done]. cbn in E'.
    destruct (txids l') as [ids2|] eqn:E2; [|done]. injection E' as Eh ->.
    destruct (decide (raw' = raw)) as [->|Hne].
    + destruct (IH l' _ eq_refl E2) as [Hp|]; [left|by right]. unfold packed. cbn. rewrite Er, Er'. by f_equal.
    + right. exists (84 :: 88 :: raw'), (84 :: 88 :: raw). split; [congruence|done].
Qed.

Lemma group_mp_inj ids ids' :
  Forall (fun i => length i = 32%nat) ids -> Forall (fun i => length i = 32%nat) ids' ->
  group_mp ids = group_mp ids' -> ids = ids'.
Proof using.
  intros H H' E. injection E as _ E.
  revert ids' H' E. induction H as [|i ids Hi _ IH]; intros ids' H' E; destruct H' as [|i' ids' Hi' H']; try done.
  cbn in E. injection E as E. apply app_inj_1 in E as [-> E]; [|congruence]. f_equal. by apply IH.
Qed.

(** The id of a group says what is in it.  One to fifteen transactions that can be encoded
    all get the same id and are otherwise left as they were; no and more transactions are
    refused.  Two groups with one id hold the same transactions in the same order, unless
    the hash collides. *)
Theorem group_id_binds (l l' g g' : list (Transaction (Body := Body))) gid :
  assign_group_id l = Ok g -> assign_group_id l' = Ok g' ->
  group <$> head g = Some (Some gid) -> group <$> head g' = Some (Some gid) ->
  (1 <= length l <= 15)%nat /\ body <$> g = body <$> l /\ Forall (fun tx => group tx = Some gid) g /\
  (packed l = packed l' \/ collision).
Proof using digest_length.
  intros E E' Hg Hg'.
  assert (forall l g, assign_group_id l = Ok g -> group <$> head g = Some (Some gid) ->
    exists ids, txids l = Ok ids /\ gid = sha512_256 ([84; 71] ++ group_mp ids) /\ (1 <= length l <= 15)%nat /\
      g = (fun tx => MkTransaction (body tx) (Some gid)) <$> l) as Hinv.
  { clear. intros l g E Hg. unfold ChainJson.assign_group_id in E. destruct (txids l) as [ids|] eqn:Ei; [|done]. cbn [result_bind] in E.
    pose proof (txids_length _ _ Ei) as Hl. destruct (Nat.eqb_spec (length ids) 0); [done|]. destruct (Nat.ltb_spec 15 (length ids)); [done|].
    injection E as <-. exists ids. destruct l as [|tx l]; [cbn in *; lia|]. injection Hg as Hg. rewrite Hg. split_and!; try done; lia. }
  destruct (Hinv _ _ E Hg) as (ids & Hi & Eg & Hlen & ->). destruct (Hinv _ _ E' Hg') as (ids' & Hi' & Eg' & _ & ->).
  split; [done|]. split; [by rewrite <- list_fmap_compose|].
  split; [apply Forall_fmap, Forall_forall; by intros|].
  destruct (decide (ids = ids')) as [->|Hne]; [by eapply txids_bind|].
  right. exists ([84; 71] ++ group_mp ids), ([84; 71] ++ group_mp ids'). split; [|congruence].
  intros Eq. apply app_inv_head in Eq. apply Hne. eapply group_mp_inj; eauto using txids_digests.
Qed.
End Binding.

(** ** Where the id falls short *)

Module GroupDemo.
(** A hash that adds up, and the form of a transaction: its bytes, and its group if it has one. *)
Definition sum_hash (l : list Z) : list Z := (foldr Z.add 0 l mod 256) :: replicate 31 0.
Definition pack (b : list Z) (g : option (list Z)) : result (list Z) string := Ok (b ++ default [] g).
Definition once : result (list Transaction) string := Eval vm_compute in
  assign_group_id pack sum_hash [MkTransaction [1; 2] None; MkTransaction [3] None].
End GroupDemo.

(** Transactions that already have a group get another id than without it: what is hashed is
    the transaction as it stands, and not the one without a group. *)
Theorem regrouped_id_differs :
  exists g g', GroupDemo.once = Ok g /\ assign_group_id GroupDemo.pack GroupDemo.sum_hash g = Ok g' /\
    body <$> g = body <$> g' /\ group <$> g <> group <$> g'.
Proof. eexists _, _. split; [reflexivity|]. split; [vm_compute; reflexivity|]. by vm_compute. Qed.

Lemma group_id_binds_witness :
  exists g gid, GroupDemo.once = Ok g /\ Forall (fun tx => group tx = Some gid) g.
Proof.
  assert (forall l, length (GroupDemo.sum_hash l) = 32%nat) as Hd by reflexivity.
  assert (assign_group_id GroupDemo.pack GroupDemo.sum_hash [MkTransaction [1; 2] None; MkTransaction [3] None] =
    GroupDemo.once) as E by (vm_compute; reflexivity).
  destruct GroupDemo.once as [g|] eqn:Eg; [|discriminate Eg]. eexists g, _. split; [reflexivity|].
  assert (group <$> head g = Some (Some (34 :: replicate 31 0))) as Hg by (injection Eg as <-; vm_compute; reflexivity).
  destruct (group_id_binds GroupDemo.pack GroupDemo.sum_hash Hd _ _ g g _ E E Hg Hg) as (_ & _ & H & _). exact H.
Defined.
