(* ===== verification/PermissionRefresh.v ===== *)
(** * The refresh of the relays' permissions

    Models [src/bingle_core/src/relay/relay_permission_refresh.rs] and the pass the engine
    gives it ([start_relay_permission_refresh], [stop_relay_permission_refresh] and
    [evict_disallowed_relays] of [src/bingle_core/src/engine/mod.rs]): the task of [Periodic]
    whose pass asks the chain of [Chain] about every relay of the database of [Ddb], and
    evicts those that may no longer relay.

    A state [node] has the task, the database and the client of the chain; [move] is a step
    of the task, the end of a pass with what it did, or a change that a message handler
    makes to the database.  The questions of a pass and its deletions are one step; what
    handlers change in between is its argument. *)
From S2P Require Import Prelude NetAddr Advert Ddb Chain Periodic.
From stdpp Require Import relations.

Local Open Scope Z_scope.

Definition RELAY_PERMISSION_REFRESH_INTERVAL : Z := 300000.

Record refreshed (W B : Type) : Type := MkRefreshed {
  task : PeriodicTask;
  db : B;
  client : chain W
}.
Arguments MkRefreshed {W B}. Arguments task {W B}. Arguments db {W B}. Arguments client {W B}.

Lemma list_filter_within {A} (P Q : A -> Prop) `{!forall a, Decision (P a), !forall a, Decision (Q a)} (l : list A) :
  (forall a, a ∈ l -> P a <-> Q a) -> filter P l = filter Q l.
Proof.
  induction l as [|a l IH]; intros Hl; [done|]. rewrite !filter_cons, IH by (intros; apply Hl; by right).
  assert (P a <-> Q a) by (apply Hl; by left). repeat case_decide; naive_solver.
Qed.

Section Refresh.
Context {W B : Type} `{AlgoNode W} `{DdbBackend B}.
Context (app : option Z) (configured : bool) (issuer : option string).
Implicit Types (b : B) (s : chain W).

(** The relays the chain does not permit, asked for one after the other. *)
Fixpoint disallowed (ids : list string) s : chain W * list string :=
  match ids with
  | [] => (s, [])
  | i :: ids =>
      let '(s, p) := relay_permission app configured i s in
      let '(s, l) := disallowed ids s in
      (s, if decide (p = Some false) then i :: l else l)
  end.

(** [Engine::evict_disallowed_relays]: nothing before the node has a name. *)
Definition evict_disallowed_relays (now : Z) (between : B -> B) b s : B * chain W * list string :=
  match issuer with
  | None => (b, s, [])
  | Some iss =>
      let '(s, evict) := disallowed (filter (fun i => i <> norm_id iss) (make_epoch_info now b).1) s in
      (foldl (fun b i => Ddb.delete i b) (between b) evict, s, evict)
  end.

(** The loop is made and started; an older one was stopped before. *)
Definition start_refresh (t : Z) b s : refreshed W B :=
  MkRefreshed (Periodic.start (Periodic.new RELAY_PERMISSION_REFRESH_INTERVAL Immediately t)) b s.

(** The end of a pass; it is the last one when the API is gone. *)
Definition refresh_pass (api_alive : bool) (now : Z) (between : B -> B) (x : refreshed W B) : refreshed W B :=
  if api_alive then
    let '(b, s, _) := evict_disallowed_relays now between (db x) (client x) in
    MkRefreshed (end_pass true (task x)) b s
  else MkRefreshed (end_pass false (task x)) (between (db x)) (client x).

Inductive refresh_move : refreshed W B -> refreshed W B -> Prop :=
| RefreshTask x t : Periodic.move (task x) t -> (thread (task x) = InPass -> thread t = InPass) ->
    refresh_move x (MkRefreshed t (db x) (client x))
| RefreshPass x api_alive now between : thread (task x) = InPass ->
    refresh_move x (refresh_pass api_alive now between x)
| RefreshHandler x b : refresh_move x (MkRefreshed (task x) b (client x)).

(** ** What a pass evicts *)

Lemma disallowed_sub ids s s' l : disallowed ids s = (s', l) -> l `sublist_of` ids.
Proof using.
  revert s s' l. induction ids as [|i ids IH]; intros s s' l E; cbn in E; [by injection E as _ <-|].
  destruct (relay_permission _ _ _ _) as [s1 p]. destruct (disallowed ids s1) as [s2 l2] eqn:E2.
  apply IH in E2. injection E as _ <-. case_decide; [by apply sublist_skip|by apply sublist_cons].
Qed.

Lemma filter_of_sublist (l ids : list string) : NoDup ids -> l `sublist_of` ids -> filter (fun i => i ∈ l) ids = l.
Proof using.
  intros Hn Hs. induction Hs as [|x l ids Hs IH|x l ids Hs IH]; [done| |].
  - apply NoDup_cons in Hn as [Hx Hn]. rewrite filter_cons_True by by left. f_equal.
    transitivity (filter (fun i => i ∈ l) ids); [|by apply IH]. apply list_filter_within.
    intros y Hy. rewrite elem_of_cons. split; [intros [->|]; done|by right].
  - apply NoDup_cons in Hn as [Hx Hn]. rewrite filter_cons_False; [by apply IH|].
    intros Hl. apply Hx. by eapply elem_of_sublist.
Qed.

(** A pass is an eviction of [Ddb], with the permissions that were answered. *)
Lemma evict_refines `{!DdbBackendLaws B} iss now between b s b' s' evicted :
  issuer = Some iss -> backend_ok b ->
  evict_disallowed_relays now between b s = (b', s', evicted) ->
  Ddb.evict_disallowed_relays now (norm_id iss) (fun i => if decide (i ∈ evicted) then Some false else None) between b
    = (evicted, b').
Proof using.
  intros Hi Hb E. unfold evict_disallowed_relays in E. rewrite Hi in E.
  destruct (disallowed _ s) as [s1 l] eqn:Ed. injection E as <- <- <-.
  unfold Ddb.evict_disallowed_relays, relays_to_evict.
  rewrite (list_filter_within _ (fun i => i ∈ l)) by (intros i _; by case_decide).
  apply disallowed_sub in Ed. by rewrite filter_of_sublist; [|apply NoDup_filter, epoch_nodup|].
Qed.
End Refresh.

Section Passes.
Context {W B : Type} `{AlgoNode W} `{DdbBackendLaws B}.
Context (local : W -> Z -> string -> option entries) (global : W -> Z -> string -> option (list Z)) `{!ChainView W local global}.
Context (app : Z) (iss : string).

(** The chain does not let the account relay: it has not joined, or its bit is not set. *)
Definition withdrawn (s : chain W) (i : string) : Prop :=
  match local (world s) app i with
  | Some l => Z.testbit (effective_allow_bits l) 1 = false
  | None => True
  end.

Definition readable : Prop :=
  0 < app /\ forall i w, is_ok (local_state_for_account app i w).2 = true.

Lemma permission_spec i s s' p :
  relay_permission (Some app) true i s = (s', p) ->
  same_chain local global s s' /\ (p = Some false -> withdrawn s i) /\ (readable -> withdrawn s i -> p = Some false).
Proof using ChainView0.
  unfold relay_permission, check_allow_relay, check_allow_bit, Chain.positive, ensure. cbn [negb].
  unfold mbind, cm_bind, mret, cm_ret. destruct (Z.eqb_spec app 0) as [Ha|Ha]; cbn [negb].
  { intros [= <- <-]. split; [done|]. split; [done|]. intros [? _]. lia. }
  destruct (asks (local_state_for_account app i) s) as [s1 r] eqn:Ea. pose proof Ea as Ea'.
  apply (ask_local local global) in Ea as [Hs Hr]. destruct r as [kvs|e].
  - rewrite (Hr kvs eq_refl). unfold withdrawn. destruct (local (world s) app i) as [l|]; cbn.
    + unfold allow_flags.BIT_RELAY. rewrite land_bit by lia. intros [= <- <-]. split; [done|].
      destruct (Z.testbit (effective_allow_bits l) 1); (split; [intros ?|intros _ ?]); congruence.
    + intros [= <- <-]. done.
  - intros [= <- <-]. split; [done|]. split; [done|]. intros [_ Hok] _. unfold asks in Ea'.
    specialize (Hok i (world s)). destruct (local_state_for_account app i (world s)) as [w r]. injection Ea' as _ ->. done.
Qed.

Lemma withdrawn_same s s' i : same_chain local global s s' -> withdrawn s' i <-> withdrawn s i.
Proof using. intros (E & _). unfold withdrawn. by rewrite E. Qed.

Lemma disallowed_spec ids s s' l :
  disallowed (Some app) true ids s = (s', l) ->
  (forall i, i ∈ l -> i ∈ ids /\ withdrawn s i) /\ (readable -> forall i, i ∈ ids -> withdrawn s i -> i ∈ l).
Proof using ChainView0.
  revert s s' l. induction ids as [|j ids IH]; intros s s' l E; cbn [disallowed] in E.
  { injection E as _ <-. split; [by intros i ?%elem_of_nil|]. by intros _ i ?%elem_of_nil. }
  destruct (relay_permission (Some app) true j s) as [s1 p] eqn:Ep. destruct (disallowed _ _ ids s1) as [s2 l2] eqn:E2.
  apply permission_spec in Ep as (Hs & Hp & Hr). apply IH in E2 as [IH1 IH2]. injection E as _ <-. split.
  - intros i Hi. assert (i ∈ l2 -> i ∈ j :: ids /\ withdrawn s i) as Hl2.
    { intros [Hin Hw]%IH1. split; [by right|by apply (withdrawn_same s s1)]. }
    case_decide as Hd; [|by apply Hl2]. apply elem_of_cons in Hi as [->|Hi]; [|by apply Hl2]. split; [by left|by apply Hp].
  - intros Hread i Hi Hw. assert (i ∈ ids -> i ∈ l2) as Hin.
    { intros Hi'. apply IH2; [done..|by apply (withdrawn_same s s1)]. }
    apply elem_of_cons in Hi as [->|Hi]; [rewrite decide_True by (by apply Hr); by left|].
    case_decide; [right|]; by apply Hin.
Qed.

Lemma evicted_ok now between (b : B) (s : chain W) b' s' evicted :
  backend_ok b -> (forall b, backend_ok b -> backend_ok (between b)) ->
  evict_disallowed_relays (Some app) true (Some iss) now between b s = (b', s', evicted) -> backend_ok b'.
Proof using.
  intros Hb Hbt E. unfold evict_disallowed_relays in E. destruct (disallowed _ _ _ s) as [s1 l]. injection E as <- _ _.
  apply Hbt in Hb. revert Hb. generalize (between b) as b0. induction l as [|i l IH]; intros b0 Hb0; [done|]. cbn. by apply IH, ok_delete.
Qed.

(** (C29) A relay that may no longer relay leaves the set.  A pass removes only relays of the
    database, other than the node itself, that the chain does not permit; while the chain
    can be read it removes all of them, and with nothing changed in between none is left;
    what else the database holds is as the handlers left it. *)
Theorem pass_evicts now between (b : B) (s : chain W) b' s' evicted :
  backend_ok b -> (forall b, backend_ok b -> backend_ok (between b)) ->
  evict_disallowed_relays (Some app) true (Some iss) now between b s = (b', s', evicted) ->
  (forall i, i ∈ evicted -> i <> norm_id iss /\ withdrawn s i /\
     exists r, Ddb.lookup now i b = Some r /\ is_relay_record r = true) /\
  (readable -> forall i r, i <> norm_id iss -> withdrawn s i -> Ddb.lookup now i b = Some r -> is_relay_record r = true ->
     forall t, Ddb.lookup t i b' = None) /\
  (readable -> between b = b -> forall i, i ∈ (make_epoch_info now b').1 -> i = norm_id iss \/ ~ withdrawn s i) /\
  (forall t i, i ∉ evicted -> Ddb.lookup t i b' = Ddb.lookup t i (between b)).
Proof using ChainView0.
  intros Hb Hbt E. pose proof (evict_refines (Some app) true (Some iss) iss _ _ _ _ _ _ _ eq_refl Hb E) as Hev.
  pose proof (evict_disallowed_spec now (norm_id iss) (fun i => if decide (i ∈ evicted) then Some false else None) between b Hb) as Hs.
  rewrite Hev in Hs. cbn [fst snd] in Hs. destruct Hs as (Hin & Hlk & Hep).
  assert (forall i, i ∈ evicted -> withdrawn s i) as Hw.
  { intros i Hi. unfold evict_disallowed_relays in E. destruct (disallowed _ _ _ s) as [s1 l] eqn:Ed. injection E as _ _ <-.
    by apply (proj1 (disallowed_spec _ _ _ _ Ed)) in Hi as [_ Hi]. }
  assert (readable -> forall i r, i <> norm_id iss -> withdrawn s i -> Ddb.lookup now i b = Some r -> is_relay_record r = true ->
    i ∈ evicted) as Hall.
  { intros Hread i r Hi Hwi Hr Hrel. unfold evict_disallowed_relays in E. destruct (disallowed _ _ _ s) as [s1 l] eqn:Ed. injection E as _ _ <-.
    apply (proj2 (disallowed_spec _ _ _ _ Ed)); [done| |done]. apply list_elem_of_filter. split; [done|]. apply epoch_ids; eauto. }
  split_and!.
  - intros i Hi. destruct (proj1 (Hin i) Hi) as (Hne & _ & Hr). by split_and!; [|apply Hw|].
  - intros Hread i r Hi Hwi Hr Hrel t. rewrite Hlk. rewrite decide_True; [done|by eapply Hall].
  - intros Hread Eb i Hi. destruct (decide (i = norm_id iss)) as [|Hne]; [by left|right]. intros Hwi.
    assert (i ∉ evicted) as Hn by (intros Hi'; destruct (Hep Eb i Hi) as [|Hp]; [done|apply Hp; by rewrite decide_True]).
    apply epoch_ids in Hi as (r & Hr & Hrel); [|by eapply evicted_ok].
    rewrite Hlk, decide_False, Eb in Hr by done. by destruct Hn; eapply Hall.
  - intros t i Hi. rewrite Hlk. by rewrite decide_False.
Qed.
End Passes.

(** ** The loop *)

Section Loop.
Context {W B : Type} `{AlgoNode W} `{DdbBackend B} (app : option Z) (configured : bool) (issuer : option string).
Implicit Types x : refreshed W B.

Abbreviation refresh_move := (refresh_move (W := W) (B := B) app configured issuer).

(** What happens to the task is what happens to a task. *)
Lemma refresh_simulates x x' : rtc refresh_move x x' -> rtc Periodic.move (task x) (task x').
Proof using.
  induction 1 as [|x y z Hm _ IH]; [done|]. destruct Hm as [x t Hm _|x alive now between Hp|x b]; [by eapply rtc_l| |done].
  eapply rtc_l; [|exact IH]. left. unfold refresh_pass. destruct alive.
  - destruct (evict_disallowed_relays _ _ _ _ _ _ _) as [[b' s'] l]. by constructor.
  - by constructor.
Qed.

(** A node that is no longer a relay evicts nobody.  Once the refresh is being stopped, at
    most the pass under way goes on; when the stop has returned, no pass ends any more,
    whatever the handlers do, and the chain is not asked again. *)
Theorem stopped_refresh_rests t b s x x' :
  rtc refresh_move (start_refresh t b s) x -> owner (task x) <> Idle -> rtc refresh_move x x' ->
  started (task x') = started (task x) /\
  (owner (task x') = Stopped -> forall y, rtc refresh_move x' y -> client y = client x').
Proof using.
  intros Hx Ho Hx'.
  assert (reachable RELAY_PERMISSION_REFRESH_INTERVAL Immediately t (task x)) as Hr.
  { eapply rtc_l; [right; left; by apply MoveStart|]. by apply refresh_simulates in Hx. }
  pose proof (refresh_simulates _ _ Hx') as Hm. split; [by apply (no_pass_after_stop _ _ _ _ _ Hr Ho Hm)|].
  intros Hst y Hy. assert (reachable RELAY_PERMISSION_REFRESH_INTERVAL Immediately t (task x')) as Hr' by (unfold reachable in *; by etrans).
  clear Hx Hx' Hm Hr. induction Hy as [z|z z' w Hz _ IH]; [done|].
  assert (reachable RELAY_PERMISSION_REFRESH_INTERVAL Immediately t (task z')) as Hz'.
  { unfold reachable in *. etrans; [exact Hr'|]. apply refresh_simulates. by apply rtc_once. }
  assert (owner (task z') = Stopped /\ client z' = client z) as [Hs <-].
  { pose proof (consistent_reachable _ _ _ _ Hr') as Hc. pose proof (ended _ Hc Hst) as Hex.
    destruct Hz as [z u [Hu|[Hu|Hu]] _|z alive now between Hp|z b']; cbn; [..|done].
    - destruct Hu; congruence.
    - destruct Hu; unfold Periodic.start; cbn; repeat case_match; try done; congruence.
    - by destruct Hu.
    - congruence. }
  by apply IH.
Qed.
End Loop.

(** ** A relay that is disabled *)

Module RefreshDemo.
(** On the chain "R1" may relay and "R2" may no longer; "R3" never joined. *)
Definition chain_now : chain ChainExample.node :=
  ChainExample.start [(7, "R1"%string, [("allow_static", "9223372036854775811")%string]);
                      (7, "R2"%string, [("allow_static", "9223372036854775809")%string])] [] None.
Definition advert (i : string) (relay : bool) : AdvertRecord := MkAdvert i None (Some relay) None None EmptyString None.
Definition database : InMemoryDdbBackend :=
  foldl (fun b r => upsert 0 r b) (with_advert_ttl None) [advert "R1" true; advert "R2" true; advert "R3" true; advert "C" false; advert "ME" true].
Definition pass := evict_disallowed_relays (Some 7) true (Some "ME."%string) 1 (fun b => b) database chain_now.
End RefreshDemo.

Lemma pass_evicts_witness :
  exists b' s' evicted, RefreshDemo.pass = (b', s', evicted) /\ evicted = ["R2"; "R3"]%string /\
    (forall t, mem_lookup t "R2" b' = None) /\ forall i, i ∈ (make_epoch_info 1 b').1 -> i = "ME"%string \/ ~ withdrawn ChainExample.local 7 RefreshDemo.chain_now i.
Proof.
  destruct RefreshDemo.pass as [[b' s'] evicted] eqn:E. exists b', s', evicted. split; [reflexivity|].
  assert (evicted = ["R2"; "R3"]%string) as Hev.
  { assert (RefreshDemo.pass.2 = ["R2"; "R3"]%string) as H by (vm_compute; reflexivity). by rewrite E in H. }
  split; [exact Hev|].
  assert (backend_ok RefreshDemo.database) as Hb by (unfold RefreshDemo.database; cbn [foldl]; do 5 apply ok_upsert; apply with_advert_ttl_wf).
  assert (readable (W := ChainExample.node) 7) as Hr by (split; [lia|by intros]).
  destruct (pass_evicts ChainExample.local ChainExample.global 7 "ME." 1 (fun b => b) RefreshDemo.database RefreshDemo.chain_now b' s' evicted Hb (fun _ H => H) E)
    as (_ & Hgone & Hnone & _). split.
  - intros t. refine (Hgone Hr "R2" (RefreshDemo.advert "R2" true) _ _ _ _ t); [discriminate|reflexivity..].
  - exact (Hnone Hr eq_refl).
Defined.
